(* ===== verification/_CoqProject ===== *)
-Q . S2P
Prelude.v
Str.v
StringUtil.v
Codec.v
LruCache.v
RequestContext.v
Scheduler.v
Executor.v
CpuGate.v
Governor.v
ClientIp.v
AuthLimiter.v
RequestKey.v
MieruUri.v
ProviderName.v
ProxyPolicy.v
ResponseCache.v
Coalesce.v
ShortLinks.v
Ruleset.v
ExternalRules.v
RuleConvert.v
StashRules.v
Regexp.v
NodeSelect.v
NodeManip.v
SurgeRules.v
SingBox.v
CurlPool.v
Redact.v
CocrSource.v
GitHubProxy.v
FetchGuard.v
FetchIdentity.v
CacheFetch.v
CacheServe.v
Disk.v
Files.v
LinkStore.v
CacheStorage.v
Node.v
ShareUri.v
SharePrinted.v
ShareParse.v
JsonValue.v
VmessLinks.v
JsonNodes.v
Explode.v
SharePrint.v
ShareRoundtrip.v
VlessRoundtrip.v
LinkImage.v
LinkList.v
MieruGroup.v
ExplodeValid.v
