(* ===== verification/Prelude.v ===== *)
(** * SubConverter-Extended: a verification library

    SubConverter-Extended is an HTTP service that turns proxy subscriptions
    into client configurations.  A request passes through these parts of
    src/src:

    - the server accepts it, attributes it to a client address
      (server/client_ip.cpp) and gives it a context that carries its
      deadline, its cancellation and its terminal outcome
      (server/request_context.h);
    - the handler admits it (handler/dashboard_auth_limiter.cpp for the
      dashboard), decides whether an equal request is already being worked on
      (handler/sub_request_key.cpp) and under which outbound proxy its sources
      are fetched (handler/proxy_policy.cpp);
    - the work is queued by cost class (utils/workload_scheduler.h), its
      parallel parts run on a bounded executor (utils/bounded_executor.h)
      under CPU permits (utils/cooperative_cpu.h) whose number a governor
      adapts (utils/resource_control.h and .cpp), and compiled patterns and
      fetched texts are kept in a single-flight LRU cache
      (utils/concurrent_lru_cache.h);
    - finished responses are kept for a short while and equal requests share
      one conversion (handler/interfaces.cpp); short links remember requests
      across restarts (handler/short_link_storage.cpp,
      handler/short_links.cpp, handler/short_link_auth.cpp);
    - share links become nodes (parser/subparser.cpp, parser/mieru_uri.cpp),
      which are filtered, renamed and sorted (generator/config/nodemanip.cpp),
      selected into groups under distinct names, and written as links again
      (generator/config/subexport.cpp); providers get names
      (handler/interfaces.cpp);
    - rulesets are read from the configuration (config/ruleset.cpp), imported
      from a Clash document (generator/config/external_rules.cpp) and turned
      into the rules of a client (generator/config/ruleconvert.cpp) or handed
      out on their own (handler/ruleset_output.cpp);
    - sources are fetched from URLs that may be rewritten to a mirror or proxy
      (handler/cocr_source_url.cpp, handler/github_proxy.cpp), that are
      checked against internal targets, and whose fetch requests share
      (handler/webget.cpp), with pooled handles
      (handler/curl_handle_pool.cpp); what was fetched is kept in files
      (handler/cache_storage.cpp over utils/file.cpp); what is logged passes
      through utils/redact.cpp;
    - all of it rests on the string helpers, the codecs and the regular
      expressions (utils/string.cpp, utils/urlencode.cpp,
      utils/base64/base64.cpp, utils/regexp.cpp).

    ** The files

    - [Prelude]: machine integers with their wrap-around, tactics, and shared
      lemmas on lists and options.
    - [Str]: [std::string] as a list of bytes with the searches and the
      character classes the code uses.
    - [StringUtil]: utils/string.cpp and string.h.
    - [Codec]: urlencode.cpp and base64.cpp, with the classes [Codec] and
      [Delimited] that state what users of an encoding rely on.
    - [LruCache]: concurrent_lru_cache.h.  [Cache] is the state behind the
      mutex; [Spec] is the abstract cache it refines; [step] interleaves the
      critical sections of [getOrCompute].
    - [RequestContext]: request_context.h.  Cancellation with callbacks and
      registrations, deadlines, the retained-byte budget and its leases, the
      terminal outcome and the lifecycle metrics.
    - [Scheduler], [Executor], [CpuGate]: workload_scheduler.h,
      bounded_executor.h, cooperative_cpu.h.  Each has the state its mutex
      protects, one function per critical section and a step relation for the
      threads.
    - [Governor]: resource_control.h and the computations of
      resource_control.cpp.
    - [ClientIp], [AuthLimiter], [RequestKey], [ProxyPolicy]:
      client_ip.cpp, dashboard_auth_limiter.cpp, sub_request_key.cpp,
      proxy_policy.cpp.
    - [MieruUri], [ProviderName]: mieru_uri.cpp and the provider names of
      interfaces.cpp.
    - [ResponseCache]: the response micro-cache of interfaces.cpp with its
      byte accounting and eviction.
    - [Coalesce]: the shared conversions of interfaces.cpp, where the first
      of several equal requests works and the others wait for its result.
    - [ShortLinks]: short_link_storage.cpp, short_links.cpp and
      short_link_auth.cpp: the records, their storage in a file and the
      handlers that create, change and delete them.  What a read and a write
      of the file answer is an argument ([Io]); [LinkStore] shows that
      [Files.fileWrite] answers like that.
    - [Ruleset], [ExternalRules]: ruleset.cpp and ruleset_comment.h;
      external_rules.cpp.
    - [RuleConvert], [StashRules], [SurgeRules], [SingBox]: ruleconvert.cpp,
      the part shared by all clients with the Clash generators, and the parts
      for Stash, for Surge and the clients with its syntax (together with
      ruleset_output.cpp), and for sing-box.
    - [Regexp]: regexp.cpp over the class [Pcre] of the engine.
    - [CurlPool]: curl_handle_pool.cpp; [CocrSource], [GitHubProxy]: the two
      files that rewrite URLs of sources; [Redact]: redact.cpp.
    - [FetchGuard], [FetchIdentity], [CacheFetch], [CacheServe]: webget.cpp,
      its guard of public requests with the proxy routes, the identities under
      which fetches are shared, and the fetches with their consumers:
      [CacheFetch] has the state, one function per critical section, the step
      relation of the threads and an executable form of it, [CacheServe] the
      invariant and the theorems.
    - [Disk], [Files], [CacheStorage]: file.cpp and cache_storage.cpp.
      [Disk] has a file system whose calls can fail, programs of such calls as
      a free monad with an executable run, crashes, and a logic whose
      judgements also hold at every point where a program can be cut short.
    - [NodeSelect], [NodeManip]: the matchers, group members and names of
      subexport.cpp; the adding, filtering, renaming and sorting of
      nodemanip.cpp.

    - [Node], [ShareUri], [ShareParse], [JsonValue], [VmessLinks],
      [JsonNodes], [Explode]: subparser.cpp.  [Node] is the record of
      proxy.h with the constructors of nodes; [ShareUri] has authorities,
      ports and queries of links; [ShareParse] and [VmessLinks] the links of
      each kind; [JsonValue] is JSON as the helpers of rapidjson_extra.h read
      it, over the class [JsonReader]; [JsonNodes] the JSON configurations;
      [Explode] the dispatch and the list of links.
    - [SharePrint]: the exporters of single links in subexport.cpp with their
      loop and its statistics.  [SharePrinted] reads back what [ShareUri]'s
      printers write; [ShareRoundtrip] and [VlessRoundtrip] read back
      Shadowsocks, Trojan and VLESS links, [LinkImage] shows that the nodes
      they give are fixed points, [LinkList] reads whole subscriptions and
      accounts for what an export writes, and [MieruGroup] reads the links of
      mierus:// sources; [ExplodeValid] shows what an accepted link
      guarantees.

    The comment before a definition that models code names the file, the
    lines and the symbol.

    ** How code is modelled

    Pure functions are functions; a function that returns [bool] and fills a
    result, or that throws, is an [option] or a sum; a critical section is a
    function on the record of the fields its mutex protects; a
    compare-and-exchange loop takes effect at its last exchange and is one
    step.  Threads are an [Inductive] step relation over the shared state and
    the program counters of the threads, and statements about them quantify
    over all reachable states.  Time points are integers (nanoseconds of the
    steady clock) given by the environment.  [uint64_t], [size_t] and
    [uint32_t] arithmetic keeps its wrap-around where it can be reached.

    What lies outside src/src is a parameter: [inet_pton] and [inet_ntop] in
    [ClientIp] and its users, the MD5 digest in [RequestKey] and
    [RuleConvert], the system proxy setting in [ProxyPolicy], the computation
    and the size function of a cache entry in [LruCache], the JSON library in
    [ShortLinks] (the class [JsonText]), the YAML loader in [ExternalRules],
    the regular expression engine (the class [Pcre] of [Regexp]; [RuleConvert]
    takes the wrappers as functions), the JSON library of links and of their
    printers (the classes [JsonReader] and [JsonWriter]), the fetched texts in [RuleConvert],
    whether a path is a file in [SurgeRules], whether the file of the links is
    below the working directory in [ShortLinks], libcurl's URL API, the name
    resolution and the environment in [FetchGuard].  In [NodeManip] the network, the
    files, the scripts and the parsers of subscriptions and links are
    parameters, and each use of the first three is recorded as an event.  The
    iteration order of a hash map is an argument too.  Theorems that rely on
    a parameter name what they rely on as hypotheses, and their witnesses
    instantiate it with a concrete function.

    ** What the theorems show

    - Caching: insertion with eviction terminates and refines the abstract
      cache; at most one thread computes a key; every result is one its
      computation can produce; limits hold; no waiter is forgotten.
    - Requests: exactly the first attempt to finish a request takes effect;
      [finalizeResponse] yields the specified outcome on every branch; a
      cancellation callback is run, dropped or pending exactly once; the byte
      budget is conserved; latency buckets are exact.
    - Scheduling: no accepted task is lost or run twice in any interleaving,
      the counters are the queues' contents, a round serves the weights, and
      no task waits beyond its age limit while others are preferred; the
      executor is a bounded FIFO queue and a timed submission decides.
    - Sharing: while a conversion is under way every equal request joins it
      and all of them get its one result; the micro-cache accounts for its
      bytes exactly and stays within them.
    - Short links: a link that was created resolves to its address, also after
      a restart when the file is below the working directory and can be read
      (with a file elsewhere no link survives, because only the read checks
      the scope); the stored records stay well formed; a creation that fails
      leaves exactly what pruning for it left, an update that fails leaves
      every link, each error has its cause, and the file changes only as the
      write that failed left it.
    - Rules: comments are removed exactly where they start; a Clash rule is
      split at its top-level commas; the import accepts a source exactly when
      all its rules are balanced, of an allowed type, with content and, if
      required, a policy (in a rule of three fields [no-resolve] counts as
      one); merging keeps the order; the two Clash generators agree, and
      exceed the rule limit by at most one rule; Stash rules are well formed
      and stand in front of the first terminal rule of the base; Surge rules
      begin with a type their client supports; the
      buckets for sing-box hold exactly the values asked for and every rule
      set a rule refers to is defined.
    - Nodes: a request without authorisation runs no script and reads no file
      while nodes are added, and fetches only remote sources; the in-place filter keeps exactly the nodes that
      are not ignored; sorting is by name and stable; a group rule adds
      exactly the nodes it matches, once; emitted names are distinct.
    - Links: a subscription of the Shadowsocks, Trojan and VLESS nodes that
      links can carry, printed and read, gives their normal forms in order,
      and these printed and read again are the same; the nodes of a mierus://
      link are exported as one link that gives them back; an accepted link
      other than VMess has a host (but for the text [[]] in Netch and Telegram
      links), a valid port and a known type; an export writes the links of
      exactly the nodes its profile has one for, and counts these as emitted
      and the others as unsupported.
    - Sources: exactly the URLs of one repository are rewritten to its mirror;
      the proxy inferred from a proxied URL is the one that made it, and no
      source is proxied twice; each transfer handle has one owner and no
      wake-up is lost.
    - Fetches: a restricted request of the public names no local host and
      connects to no local address, a dotted address may be fetched exactly
      outside the reserved blocks, and no such request gets around its proxy;
      requests share a fetch
      only when everything that decides its result is the same; a consumer of
      a shared fetch is completed at most once, and in the end always, but
      for one order of events that the model exhibits; no fetch is cancelled
      while somebody waits for it.
    - Files: a write that fails or is cut short leaves the old contents, and
      one that reports success survives a crash; headers that are read from
      the cache belong to their body.
    - Logs: whatever is logged becomes one bounded line of printable bytes;
      sensitive names keep no value, URLs only scheme and host.
    - Permits: permits in use are counted exactly, a wait restores the
      permit, the governor stays within its bounds and recovers.
    - Trust: headers of an untrusted peer never count, and the result of a list
      that is usable is its last hop that is not a trusted proxy, whatever a
      client puts in front; a CIDR block contains exactly its addresses; failed logins lock a client for the whole lock time; an
      equal request key means an equal request unless the digest collides; an
      equal proxy identity means an equal policy, and descriptions of a proxy
      do not depend on its credentials.
    - Text: round trips of base64, percent encoding, mierus:// links and
      split/join; exact descriptions of replacement, trimming and CPU lists;
      provider names are safe as file names and distinct.

    ** Fuel

    Loops that advance a search position take the length of the text plus one
    as fuel, and each turn consumes at least one byte; [split] and
    [replaceAllDistinct] diverge in the code for an empty separator, which is
    [None] for every fuel in the model.  A varint has at most ten rounds
    because its shift stops at 63; the scheduler's attempt loop runs six times
    as in the source; [to_string] prints at most 20 digits, which a 64-bit
    number does not exceed; an eviction loop takes the number of entries, the
    search for a free provider name one more than the names in use, and the
    search for a free short code the 128 attempts of the source; the search
    for a free node name two more than the names in use; adding nodes takes
    the depth of nested links, which is two for a request without
    authorisation.
    Theorems about these functions state that a result is produced.

    ** What is not modelled

    The HTTP servers, libcurl, SQLite, QuickJS and the Go bridge (bindings and
    input/output); the cgroup and /proc readers of resource_control.cpp (only
    the parsing of what they read); the active-request registry and
    [ScopedRequestContext] of request_context.h (thread-local bookkeeping); in
    webget.cpp what a transfer yields, which the environment of [CacheFetch]
    chooses, and allocations that fail; in file.cpp symbolic links, appending,
    copying, and the branch for Windows.
    Still open: the transfer engine of webget.cpp, the readers of Clash,
    Surge, sing-box and V2Ray configurations, the exporters of whole
    documents, the nodes of the Mihomo bridge, statistics storage, settings,
    templates, the asynchronous form of the shared conversions. *)

From stdpp Require Export base tactics relations numbers list gmap sets strings.
From Stdlib Require Export Lia ZArith Bool.

(** ** Machine integers

    A [uint64_t] (and [size_t] on the 64-bit targets the project ships) is a
    [Z]; every operation that can leave the range is written with its
    wrap-around.  [std::atomic] counters wrap the same way. *)

Definition u8 (z : Z) : Z := z mod 2 ^ 8.
Definition u16 (z : Z) : Z := z mod 2 ^ 16.
Definition u32 (z : Z) : Z := z mod 2 ^ 32.
Definition u64 (z : Z) : Z := z mod 2 ^ 64.

Definition UINT64_MAX : Z := 2 ^ 64 - 1.
Definition UINT32_MAX : Z := 2 ^ 32 - 1.
Definition INT_MAX : Z := 2 ^ 31 - 1.

(** The values a [uint64_t] variable can hold. *)
Definition is_u64 (z : Z) : Prop := (0 <= z < 2 ^ 64)%Z.
Definition is_u32 (z : Z) : Prop := (0 <= z < 2 ^ 32)%Z.

Lemma u64_range z : (0 <= u64 z < 2 ^ 64)%Z.
Proof. unfold u64. apply Z.mod_pos_bound. lia. Qed.

Lemma u64_small z : (0 <= z < 2 ^ 64)%Z -> u64 z = z.
Proof. apply Z.mod_small. Qed.

Lemma u32_range z : (0 <= u32 z < 2 ^ 32)%Z.
Proof. unfold u32. apply Z.mod_pos_bound. lia. Qed.

Lemma u32_small z : (0 <= z < 2 ^ 32)%Z -> u32 z = z.
Proof. apply Z.mod_small. Qed.

Lemma u64_add_idemp_l a b : u64 (u64 a + b) = u64 (a + b).
Proof. unfold u64. apply Z.add_mod_idemp_l. lia. Qed.

Lemma u64_sub_idemp_l a b : u64 (u64 a - b) = u64 (a - b).
Proof. unfold u64. apply Zminus_mod_idemp_l. Qed.

Lemma u64_is_u64 z : is_u64 (u64 z).
Proof. apply u64_range. Qed.

Lemma land_le a b : (0 <= a)%Z -> (Z.land a b <= a)%Z.
Proof.
  intros Ha. apply Z.ldiff_le; [done|]. apply Z.bits_inj'. intros k Hk.
  rewrite Z.ldiff_spec, Z.land_spec, Z.bits_0. by destruct (Z.testbit a k), (Z.testbit b k).
Qed.

Create HintDb words.
#[export] Hint Resolve u64_range u32_range u64_is_u64 : words.
Create Rewrite HintDb words_rw.
#[export] Hint Rewrite u64_add_idemp_l u64_sub_idemp_l : words_rw.

(** Removes a wrap-around whose operand is in range. *)
Ltac unwrap :=
  unfold is_u64, is_u32 in *;
  repeat match goal with
    | |- context [u64 ?z] => rewrite (u64_small z) by lia
    | |- context [u32 ?z] => rewrite (u32_small z) by lia
    | H : context [u64 ?z] |- _ => rewrite (u64_small z) in H by lia
    | H : context [u32 ?z] |- _ => rewrite (u32_small z) in H by lia
    end.

(** [lia] with quotients and remainders by constants. *)
Ltac divlia := Z.to_euclidean_division_equations; lia.

(** A decidable fact about concrete data, by evaluation. *)
Ltac computed := apply (bool_decide_unpack _); vm_compute; exact I.

(** ** Case analysis on boolean guards *)

(** Splits on the innermost boolean guard of the goal (of a hypothesis). *)
Ltac split_if :=
  match goal with
  | |- context [if ?b then _ else _] =>
      match type of b with bool => destruct b eqn:? end
  end.
Ltac split_if_in H :=
  match type of H with
  | context [if ?b then _ else _] =>
      match type of b with bool => destruct b eqn:? end
  end.

(** Turns the boolean facts of the context into propositions. *)
Ltac bools :=
  repeat match goal with
    | H : negb _ = true |- _ => apply negb_true_iff in H
    | H : negb _ = false |- _ => apply negb_false_iff in H
    | H : (_ && _) = true |- _ => apply andb_true_iff in H; destruct H
    | H : (_ && _) = false |- _ => apply andb_false_iff in H
    | H : (_ || _) = true |- _ => apply orb_true_iff in H
    | H : (_ || _) = false |- _ => apply orb_false_iff in H; destruct H
    | H : bool_decide _ = true |- _ => apply bool_decide_eq_true in H
    | H : bool_decide _ = false |- _ => apply bool_decide_eq_false in H
    end.

(** ** Invariants of transition systems *)

Section Invariant.
Context {S : Type} (R : S -> S -> Prop) (I : S -> Prop).
Hypothesis preserved : forall s s', I s -> R s s' -> I s'.

Lemma invariant_rtc s s' : I s -> rtc R s s' -> I s'.
Proof. intros HI Hr. induction Hr; eauto. Qed.
End Invariant.

(** ** Lists *)

(** The sum of a measure over a list, as an integer. *)
Definition sumZ {A} (f : A -> Z) (l : list A) : Z := foldr (fun x a => f x + a)%Z 0%Z l.

Section SumZ.
Context {A : Type} (f : A -> Z).

Lemma sumZ_nil : sumZ f [] = 0%Z.
Proof. done. Qed.

Lemma sumZ_cons x l : sumZ f (x :: l) = (f x + sumZ f l)%Z.
Proof. done. Qed.

Lemma sumZ_fmap {B} (g : B -> A) (l : list B) : sumZ f (g <$> l) = sumZ (fun x => f (g x)) l.
Proof. unfold sumZ. induction l as [|x l IH]; csimpl; [done|]. by rewrite IH. Qed.

Lemma sumZ_app l k : sumZ f (l ++ k) = (sumZ f l + sumZ f k)%Z.
Proof. unfold sumZ. induction l; simpl; lia. Qed.

Lemma sumZ_nonneg l : (forall x, x ∈ l -> (0 <= f x)%Z) -> (0 <= sumZ f l)%Z.
Proof.
  unfold sumZ. induction l as [|x l IH]; simpl; intros H; [lia|].
  pose proof (H x ltac:(set_solver)). assert (0 <= foldr (fun x a => f x + a) 0 l)%Z.
  { apply IH. set_solver. }
  lia.
Qed.

Lemma sumZ_Permutation l k : l ≡ₚ k -> sumZ f l = sumZ f k.
Proof. unfold sumZ. induction 1; simpl in *; lia. Qed.
End SumZ.

#[global] Arguments sumZ {A} f l : simpl never.

#[export] Instance sumZ_proper {A} (f : A -> Z) : Proper ((≡ₚ) ==> (=)) (sumZ f).
Proof. intros l k. apply sumZ_Permutation. Qed.

Lemma filter_ext_elem {A} (P Q : A -> Prop) `{forall x, Decision (P x)} `{forall x, Decision (Q x)} (l : list A) :
  (forall x, x ∈ l -> P x <-> Q x) -> filter P l = filter Q l.
Proof.
  induction l as [|x l IH]; intros HPQ; [done|].
  rewrite !filter_cons. pose proof (HPQ x (list_elem_of_here _ _)).
  rewrite IH by (intros y Hy; apply HPQ; by right).
  do 2 case_decide; naive_solver.
Qed.

Lemma filter_fmap {A B} (f : A -> B) (P : B -> Prop) `{forall x, Decision (P x)} (l : list A) :
  filter P (f <$> l) = f <$> filter (fun x => P (f x)) l.
Proof.
  induction l as [|x l IH]; [done|]. csimpl. rewrite !filter_cons.
  case_decide; csimpl; by rewrite IH.
Qed.

Lemma split_first {A} (c : A) a b s t : c ∉ a -> c ∉ b -> a ++ c :: s = b ++ c :: t -> a = b /\ s = t.
Proof.
  revert b. induction a as [|x a IH]; intros [|y b] Ha Hb H; simpl in H; simplify_eq; try done.
  - exfalso. apply Hb. left.
  - exfalso. apply Ha. left.
  - rewrite not_elem_of_cons in Ha, Hb. destruct (IH b) as [-> ->]; [tauto|tauto|done|done].
Qed.

Lemma unique_split {A} (c : A) a b a' b' : c ∉ a -> c ∉ b -> a ++ c :: b = a' ++ c :: b' -> a = a'.
Proof.
  revert a'. induction a as [|x a IH]; intros [|y a'] Ha Hb H; simplify_eq/=; try done.
  - exfalso. apply Hb. rewrite elem_of_app. right. by left.
  - exfalso. apply Ha. by left.
  - f_equal. apply IH; [|done|done]. intros Hin. apply Ha. by right.
Qed.

Lemma removelast_snoc {A} (l : list A) x : removelast (l ++ [x]) = l.
Proof. apply removelast_last. Qed.

Lemma last_fmap {A B} (f : A -> B) (l : list A) : last (f <$> l) = f <$> last l.
Proof. apply fmap_last. Qed.

Lemma filter_all_id {A} (P : A -> Prop) `{forall x, Decision (P x)} (l : list A) :
  (forall x, x ∈ l -> P x) -> filter P l = l.
Proof.
  induction l as [|x l IH]; intros HP; [done|].
  rewrite filter_cons_True by (apply HP; left). rewrite IH; [done|].
  intros y Hy. apply HP. by right.
Qed.

(** ** Updating one element of a list *)

Local Open Scope Z_scope.

Lemma sumZ_insert {A} (f : A -> Z) (l : list A) i x y :
  l !! i = Some x -> sumZ f (<[i := y]> l) = sumZ f l - f x + f y.
Proof.
  intros H. rewrite insert_take_drop by eauto using lookup_lt_Some.
  rewrite <- (take_drop_middle l i x H) at 3. rewrite !sumZ_app, !sumZ_cons. lia.
Qed.

Lemma sumZ_zero {A} (f : A -> Z) l : (forall x, x ∈ l -> f x = 0) -> sumZ f l = 0.
Proof.
  induction l as [|x l IH]; intros H; [done|]. rewrite sumZ_cons, H by apply list_elem_of_here.
  rewrite IH; [done|]. intros y Hy. apply H. by right.
Qed.

Lemma sumZ_pos {A} (f : A -> Z) l : 0 < sumZ f l -> exists x, x ∈ l /\ 0 < f x.
Proof.
  induction l as [|x l IH]; [done|]. rewrite sumZ_cons. intros H.
  destruct (Z_lt_le_dec 0 (f x)); [exists x; split; [left|done]|].
  destruct IH as (y & ? & ?); [lia|]. exists y. split; [by right|done].
Qed.

Lemma sumZ_lookup_le {A} (f : A -> Z) (l : list A) i x :
  Forall (fun y => 0 <= f y) l -> l !! i = Some x -> f x <= sumZ f l.
Proof.
  intros HF H. rewrite <- (take_drop_middle l i x H). rewrite sumZ_app, sumZ_cons.
  rewrite Forall_forall in HF.
  assert (0 <= sumZ f (take i l)).
  { apply sumZ_nonneg. intros y Hy. apply HF. by eapply subseteq_take. }
  assert (0 <= sumZ f (drop (S i) l)).
  { apply sumZ_nonneg. intros y Hy. apply HF. by eapply subseteq_drop. }
  lia.
Qed.

Lemma sumZ_Forall_nonneg {A} (f : A -> Z) (l : list A) : Forall (fun y => 0 <= f y) l -> 0 <= sumZ f l.
Proof. rewrite Forall_forall. apply sumZ_nonneg. Qed.

Lemma omap_insert {A B} (f : A -> option B) (l : list A) i x y :
  l !! i = Some x ->
  option_list (f x) ++ omap f (<[i := y]> l) ≡ₚ option_list (f y) ++ omap f l.
Proof.
  revert i. induction l as [|z l IH]; intros [|i] H; simplify_eq/=.
  - destruct (f x), (f y); simpl; try done. apply Permutation_swap.
  - specialize (IH _ H). destruct (f z); [|done].
    by rewrite <- !Permutation_middle, IH.
Qed.

Lemma sumZ_bounds {A} (f : A -> Z) l : (forall x, 0 <= f x <= 1) -> 0 <= sumZ f l <= Z.of_nat (length l).
Proof.
  intros Hf. induction l as [|x l IH]; [done|]. rewrite sumZ_cons. simpl. pose proof (Hf x). lia.
Qed.

Lemma elem_of_insert_other {A} (l : list A) (i : nat) (x y : A) : x <> y -> y ∈ <[i := x]> l -> y ∈ l.
Proof.
  intros Hne H. apply list_elem_of_lookup_1 in H as [j Hj].
  apply list_lookup_insert_Some in Hj as [(_ & ? & _)|[_ Hj]]; [congruence|].
  by eapply list_elem_of_lookup_2.
Qed.
