(* ===== verification/Str.v ===== *)
(** * Byte strings: [std::string], [std::string_view] and [<cctype>]

    A string is a list of bytes ([ascii]); positions are [nat] (a string's
    length is bounded by memory, so a [size_t] position never wraps) and
    [std::string::npos] is [None].  The character classes are those of the
    "C" locale, which the program never leaves. *)

From S2P Require Export Prelude.
From stdpp Require Export sorting.
From Stdlib Require Export Ascii.

Declare Scope str_scope.
Delimit Scope str_scope with str.

Notation str := (list ascii).
Definition str_of_bytes (l : list Byte.byte) : list ascii := map ascii_of_byte l.
Definition bytes_of_str (l : list ascii) : list Byte.byte := map byte_of_ascii l.
String Notation str str_of_bytes bytes_of_str : str_scope.
Open Scope str_scope.

(** ** Bytes *)

(** The value of a byte as an [unsigned char]. *)
Definition code (c : ascii) : Z := Z.of_N (N_of_ascii c).
(** The conversion of an integer to [unsigned char] (reduction modulo 256). *)
Definition chr (z : Z) : ascii := ascii_of_N (Z.to_N (u8 z)).

Lemma code_range c : (0 <= code c < 256)%Z.
Proof. unfold code. pose proof (N_ascii_bounded c). lia. Qed.

Lemma chr_code c : chr (code c) = c.
Proof.
  unfold chr, u8. rewrite Z.mod_small by (pose proof (code_range c); lia).
  unfold code. by rewrite N2Z.id, ascii_N_embedding.
Qed.

Lemma code_chr z : code (chr z) = u8 z.
Proof.
  unfold code, chr. assert (0 <= u8 z < 256)%Z by (unfold u8; apply Z.mod_pos_bound; lia).
  rewrite N_ascii_embedding by lia. lia.
Qed.

Lemma code_chr_small z : (0 <= z < 256)%Z -> code (chr z) = z.
Proof. intros. rewrite code_chr. unfold u8. by apply Z.mod_small. Qed.

Lemma code_inj a b : code a = code b -> a = b.
Proof. intros H. by rewrite <- (chr_code a), H, chr_code. Qed.

(** Decides a property of all 256 bytes by computation. *)
Definition all_bytes (P : ascii -> bool) : bool :=
  forallb (fun n => P (ascii_of_nat n)) (seq 0 256).

Lemma all_bytes_spec P : all_bytes P = true -> forall c, P c = true.
Proof.
  unfold all_bytes. rewrite forallb_forall. intros H c.
  rewrite <- (ascii_nat_embedding c). apply H. apply in_seq.
  pose proof (nat_ascii_bounded c). lia.
Qed.

(** ** <cctype>, "C" locale *)

Definition between (lo hi : Z) (c : ascii) : bool := (lo <=? code c)%Z && (code c <=? hi)%Z.

Definition isdigit (c : ascii) : bool := between 48 57 c.
Definition isupper (c : ascii) : bool := between 65 90 c.
Definition islower (c : ascii) : bool := between 97 122 c.
Definition isalpha (c : ascii) : bool := isupper c || islower c.
Definition isalnum (c : ascii) : bool := isalpha c || isdigit c.
Definition isxdigit (c : ascii) : bool := isdigit c || between 65 70 c || between 97 102 c.
Definition isspace (c : ascii) : bool := between 9 13 c || (code c =? 32)%Z.
Definition iscntrl (c : ascii) : bool := between 0 31 c || (code c =? 127)%Z.
Definition tolower (c : ascii) : ascii := if isupper c then chr (code c + 32) else c.
Definition toupper (c : ascii) : ascii := if islower c then chr (code c - 32) else c.

Lemma tolower_idem c : tolower (tolower c) = tolower c.
Proof.
  enough (bool_decide (tolower (tolower c) = tolower c) = true) as H by by apply bool_decide_eq_true in H.
  revert c. apply all_bytes_spec. by vm_compute.
Qed.

(** ** Searching *)

(** [s.starts_with(p)], and [s.compare(0, p.size(), p) == 0]. *)
Fixpoint starts_with (p s : str) : bool :=
  match p, s with
  | [], _ => true
  | c :: p, d :: s => bool_decide (c = d) && starts_with p s
  | _ :: _, [] => false
  end.

Definition ends_with (p s : str) : bool := starts_with (rev p) (rev s).

(** The position of the first byte that satisfies [f]. *)
Fixpoint index_if (f : ascii -> bool) (s : str) : option nat :=
  match s with
  | [] => None
  | c :: s => if f c then Some 0 else S <$> index_if f s
  end.

(** [s.find_first_of] and [s.find(c, pos)] by predicate. *)
Definition find_if (f : ascii -> bool) (s : str) (pos : nat) : option nat :=
  Nat.add pos <$> index_if f (drop pos s).

Definition is_char (c d : ascii) : bool := bool_decide (d = c).
Definition one_of (set : str) (d : ascii) : bool := bool_decide (d ∈ set).

Definition find_char (c : ascii) (s : str) (pos : nat) : option nat := find_if (is_char c) s pos.

(** [s.rfind(c)] and [s.find_last_of], the last position that satisfies [f]. *)
Fixpoint last_index_if (f : ascii -> bool) (s : str) : option nat :=
  match s with
  | [] => None
  | c :: s =>
      match last_index_if f s with
      | Some i => Some (S i)
      | None => if f c then Some 0 else None
      end
  end.

(** [s.find(p, pos)]. *)
Fixpoint find_aux (p s : str) (i : nat) : option nat :=
  if starts_with p s then Some i
  else match s with [] => None | _ :: s => find_aux p s (S i) end.

Definition find (p s : str) (pos : nat) : option nat :=
  if pos <=? length s then find_aux p (drop pos s) pos else None.

(** [s.rfind(p, pos)]: the last occurrence starting at [pos] or before. *)
Fixpoint rfind_aux (p s : str) (i : nat) : option nat :=
  if starts_with p (drop i s) then Some i
  else match i with O => None | S i => rfind_aux p s i end.

Definition rfind (p s : str) (pos : nat) : option nat :=
  if length p <=? length s then rfind_aux p s (pos `min` (length s - length p)) else None.

(** [s.substr(pos, n)] for [pos <= s.size()], which every call of the modelled
    code satisfies. *)
Definition substr (s : str) (pos n : nat) : str := take n (drop pos s).

(** [s.replace(pos, n, t)] and [s.erase(pos, n)]. *)
Definition replace (s : str) (pos n : nat) (t : str) : str := take pos s ++ t ++ drop (pos + n) s.
Definition erase (s : str) (pos n : nat) : str := take pos s ++ drop (pos + n) s.

(** [operator<=] of [std::string]: bytes as unsigned numbers. *)
Fixpoint str_leb (a b : str) : bool :=
  match a, b with
  | [], _ => true
  | _ :: _, [] => false
  | c :: a, d :: b => (code c <? code d)%Z || ((code c =? code d)%Z && str_leb a b)
  end.
Definition str_le (a b : str) : Prop := str_leb a b = true.

#[export] Instance str_le_dec : RelDecision str_le.
Proof. intros a b. unfold str_le. apply _. Defined.

(** The texts between separators; one more than there are separators. *)
Fixpoint fields (sep : ascii) (s : str) : list str :=
  match s with
  | [] => [[]]
  | c :: s =>
      if is_char sep c then [] :: fields sep s
      else match fields sep s with f :: fs => (c :: f) :: fs | [] => [[c]] end
  end.

(** The texts [std::getline] yields: what follows the last separator is one
    only if it is not empty. *)
Definition getlines (delimiter : ascii) (s : str) : list str :=
  match last (fields delimiter s) with Some [] => removelast (fields delimiter s) | _ => fields delimiter s end.

(** What a C function sees of a string. *)
Fixpoint c_str (s : str) : str :=
  match s with c :: t => if is_char "000" c then [] else c :: c_str t | [] => [] end.

(** ** Facts *)

Lemma starts_with_spec p s : starts_with p s = true <-> exists t, s = p ++ t.
Proof.
  revert s. induction p as [|c p IH]; intros s; simpl; [naive_solver|].
  destruct s as [|d s]; [naive_solver|].
  rewrite andb_true_iff, bool_decide_eq_true, IH. naive_solver.
Qed.

Lemma starts_with_app p s : starts_with p (p ++ s) = true.
Proof. apply starts_with_spec. eauto. Qed.

Lemma index_if_None f s : index_if f s = None <-> forall c, c ∈ s -> f c = false.
Proof.
  induction s as [|c s IH]; simpl.
  - split; [|done]. intros _ c Hc. by apply not_elem_of_nil in Hc.
  - destruct (f c) eqn:Hf.
    + split; [done|]. intros H. specialize (H c (list_elem_of_here _ _)). congruence.
    + rewrite fmap_None, IH. split.
      * intros H d [->|Hd]%elem_of_cons; auto.
      * intros H d Hd. apply H. by right.
Qed.

Lemma index_if_app f a c b :
  (forall d, d ∈ a -> f d = false) -> f c = true -> index_if f (a ++ c :: b) = Some (length a).
Proof.
  intros Ha Hc. induction a as [|d a IH]; simpl; [by rewrite Hc|].
  rewrite (Ha d (list_elem_of_here _ _)), IH; [done|].
  intros e He. apply Ha. by right.
Qed.

Lemma index_if_Some f s i :
  index_if f s = Some i <->
  exists c, s = take i s ++ c :: drop (S i) s /\ f c = true /\ i < length s /\
            forall d, d ∈ take i s -> f d = false.
Proof.
  revert i. induction s as [|c s IH]; intros i; simpl; [split; [done|intros (?&?&?&?&?); lia]|].
  destruct (f c) eqn:Hf.
  - split.
    + intros [= <-]. exists c. split_and!; [done|done|simpl; lia|]. intros d Hd. by apply not_elem_of_nil in Hd.
    + intros (d & Heq & Hd & _ & Hall). destruct i as [|i]; [done|].
      simpl in Hall. specialize (Hall c (list_elem_of_here _ _)). congruence.
  - rewrite fmap_Some. split.
    + intros (j & Hj & ->). apply IH in Hj as (d & Heq & Hd & Hlen & Hall).
      exists d. simpl. split_and!; [by rewrite <- Heq|done|lia|].
      intros e [->|He]%elem_of_cons; auto.
    + intros (d & Heq & Hd & Hlen & Hall). destruct i as [|j]; [simpl in Heq; congruence|].
      exists j. split; [|done]. apply IH. simpl in Heq. injection Heq as Heq.
      exists d. split_and!; [done|done|simpl in *; lia|]. intros e He. apply Hall. simpl. by right.
Qed.

Lemma index_if_lt f s i : index_if f s = Some i -> i < length s.
Proof. intros H. apply index_if_Some in H as (?&?&?&?&?). done. Qed.

Lemma last_index_if_lt f s i : last_index_if f s = Some i -> i < length s.
Proof.
  revert i. induction s as [|c s IH]; intros i; simpl; [done|].
  destruct (last_index_if f s) as [j|].
  - intros [= <-]. specialize (IH j eq_refl). lia.
  - split_if; [|done]. intros [= <-]. lia.
Qed.

Lemma last_index_if_None f s : last_index_if f s = None <-> forall c, c ∈ s -> f c = false.
Proof.
  induction s as [|c s IH]; simpl.
  - split; [|done]. intros _ c Hc. by apply not_elem_of_nil in Hc.
  - destruct (last_index_if f s) as [i|].
    + split; [done|]. intros H. assert (None = Some i); [|done]. symmetry. apply IH.
      intros d Hd. apply H. by right.
    + destruct (f c) eqn:Hf.
      * split; [done|]. intros H. specialize (H c (list_elem_of_here _ _)). congruence.
      * split; [|done]. intros _ d [->|Hd]%elem_of_cons; [done|]. by apply IH.
Qed.

Lemma last_index_if_app f a c b :
  (forall d, d ∈ b -> f d = false) -> f c = true -> last_index_if f (a ++ c :: b) = Some (length a).
Proof.
  intros Hb Hc. induction a as [|d a IH]; simpl.
  - rewrite (proj2 (last_index_if_None f b) Hb). by rewrite Hc.
  - by rewrite IH.
Qed.

Lemma find_char_app c a b :
  c ∉ a -> find_char c (a ++ c :: b) 0 = Some (length a).
Proof.
  intros Ha. unfold find_char, find_if. rewrite drop_0, index_if_app; [done|..].
  - intros d Hd. unfold is_char. apply bool_decide_eq_false. congruence.
  - unfold is_char. by apply bool_decide_eq_true.
Qed.

Lemma find_char_None c s : find_char c s 0 = None <-> c ∉ s.
Proof.
  unfold find_char, find_if. rewrite drop_0, fmap_None, index_if_None. split.
  - intros H Hc. specialize (H c Hc). unfold is_char in H. by apply bool_decide_eq_false in H.
  - intros Hc d Hd. unfold is_char. apply bool_decide_eq_false. congruence.
Qed.

Lemma find_char_Some c s i :
  find_char c s 0 = Some i -> i < length s /\ s = take i s ++ c :: drop (S i) s /\ c ∉ take i s.
Proof.
  unfold find_char, find_if. rewrite drop_0. intros H. apply fmap_Some in H as (j & Hj & ->).
  apply index_if_Some in Hj as (d & Hs & Hd & Hlt & Hall). simpl.
  unfold is_char in *. apply bool_decide_eq_true in Hd. subst d. split_and!; [done|done|].
  intros Hin. apply Hall, bool_decide_eq_false in Hin. done.
Qed.

Lemma find_aux_spec p s i j :
  find_aux p s i = Some j ->
  i <= j /\ j - i <= length s /\ starts_with p (drop (j - i) s) = true /\
  forall k, k < j - i -> starts_with p (drop k s) = false.
Proof.
  revert i. induction s as [|c s IH]; intros i; simpl; destruct (starts_with p _) eqn:Hs.
  - intros [= <-]. rewrite Nat.sub_diag. simpl. split_and!; [lia|lia|done|lia].
  - done.
  - intros [= <-]. rewrite Nat.sub_diag. simpl. split_and!; [lia|lia|done|lia].
  - intros (H1 & H2 & H3 & H4)%IH. split_and!; [lia|simpl; lia|..].
    + replace (j - i) with (S (j - S i)) by lia. done.
    + intros [|k] Hk; [done|]. apply H4. lia.
Qed.

Lemma find_Some p s pos i :
  find p s pos = Some i ->
  pos <= i <= length s /\ starts_with p (drop i s) = true /\
  forall k, pos <= k < i -> starts_with p (drop k s) = false.
Proof.
  unfold find. destruct (Nat.leb_spec pos (length s)); [|done].
  intros (H1 & H2 & H3 & H4)%find_aux_spec. rewrite length_drop in H2. rewrite drop_drop in H3.
  replace (pos + (i - pos)) with i in H3 by lia. split_and!; [lia|lia|done|].
  intros k Hk. specialize (H4 (k - pos) ltac:(lia)). rewrite drop_drop in H4.
  by replace (pos + (k - pos)) with k in H4 by lia.
Qed.

Lemma c_str_id s : "000"%char ∉ s -> c_str s = s.
Proof.
  induction s as [|c s IH]; [done|]. intros [Hc Hs]%not_elem_of_cons. simpl. unfold is_char.
  rewrite bool_decide_false by done. by rewrite IH.
Qed.

Lemma c_str_clean s : "000"%char ∉ c_str s.
Proof.
  induction s as [|c s IH]; simpl; [apply not_elem_of_nil|]. unfold is_char. case_bool_decide; [apply not_elem_of_nil|].
  apply not_elem_of_cons. split; congruence.
Qed.

Lemma c_str_idem s : c_str (c_str s) = c_str s.
Proof. apply c_str_id, c_str_clean. Qed.

(** ** The order of strings is total *)

Lemma str_leb_refl a : str_leb a a = true.
Proof. induction a as [|c a IH]; [done|]. simpl. rewrite Z.ltb_irrefl, Z.eqb_refl. done. Qed.

Lemma str_leb_cons c a d b :
  str_leb (c :: a) (d :: b) = true <-> (code c < code d)%Z \/ c = d /\ str_leb a b = true.
Proof.
  simpl. rewrite orb_true_iff, andb_true_iff, Z.ltb_lt, Z.eqb_eq. split.
  - intros [?|[?%code_inj ?]]; auto.
  - intros [?|[-> ?]]; auto.
Qed.

#[export] Instance str_le_trans : Transitive str_le.
Proof.
  intros a. induction a as [|c a IH]; intros [|d b] [|e f]; try done. unfold str_le in *.
  rewrite !str_leb_cons. intros [?|[-> ?]] [?|[<- ?]]; [left; lia|left; lia|left; lia|right; eauto].
Qed.

#[export] Instance str_le_total : Total str_le.
Proof.
  intros a. induction a as [|c a IH]; intros [|d b]; try (by left); [by right|]. unfold str_le in *.
  rewrite !str_leb_cons. destruct (Z.lt_total (code c) (code d)) as [|[Heq%code_inj|]]; [auto| |auto].
  destruct (IH b); auto.
Qed.

#[export] Instance str_le_antisymm : AntiSymm (=) str_le.
Proof.
  intros a. induction a as [|c a IH]; intros [|d b]; try done. unfold str_le in *.
  rewrite !str_leb_cons. intros [?|[-> ?]] [?|[Heq ?]]; simplify_eq; try lia. f_equal. auto.
Qed.

(** ** Fields *)

Lemma fields_one sep s : sep ∉ s -> fields sep s = [s].
Proof.
  induction s as [|c s IH]; [done|]. intros H%not_elem_of_cons. destruct H as [Hc Hs]. simpl.
  unfold is_char. rewrite bool_decide_false by done. by rewrite IH.
Qed.

Lemma fields_cons sep s t : sep ∉ s -> fields sep (s ++ sep :: t) = s :: fields sep t.
Proof.
  induction s as [|c s IH]; simpl.
  - intros _. unfold is_char. by rewrite bool_decide_true.
  - intros [Hc Hs]%not_elem_of_cons. unfold is_char. rewrite bool_decide_false by done. by rewrite IH.
Qed.

Lemma find_char_drop c s b : find_char c s b = Nat.add b <$> find_char c (drop b s) 0.
Proof. unfold find_char, find_if. rewrite drop_0. by destruct (index_if _ _). Qed.

Lemma fields_nonempty sep s : fields sep s <> [].
Proof. induction s as [|c s IH]; simpl; [done|]. split_if; [done|]. by destruct (fields sep s). Qed.

Lemma fields_snoc sep s t : sep ∉ t -> fields sep (s ++ sep :: t) = fields sep s ++ [t].
Proof.
  intros Ht. induction s as [|c s IH]; simpl.
  - unfold is_char. rewrite bool_decide_true by done. by rewrite fields_one.
  - rewrite IH. destruct (is_char sep c); [done|].
    pose proof (fields_nonempty sep s). by destruct (fields sep s).
Qed.
