(* ===== verification/StringUtil.v ===== *)
(** * utils/string.cpp and utils/string.h: the string helpers

    Every loop that advances by a searched position is written with fuel; the
    lemmas show that the fuel the wrapper passes is enough. *)

From S2P Require Import Str.

(** ** Splitting and joining *)

(** One field per turn; [epos] is the last search result. *)
Fixpoint split_loop (fuel : nat) (s sep : str) (bpos : nat) (epos : option nat) : option (list str) :=
  match fuel with
  | O => None
  | S fuel =>
      if bpos <? length s then
        let e := default (length s) epos in
        let next := e + length sep in
        rest ← split_loop fuel s sep next (find sep s next);
        Some (substr s bpos (e - bpos) :: rest)
      else Some []
  end.

(** src/src/utils/string.cpp:12-25 [split]
    Diverges for an empty separator ([None] for every fuel). *)
Definition split (s sep : str) : option (list str) :=
  split_loop (S (length s)) s sep 0 (find sep s 0).

(** src/src/utils/string.cpp:27-45 [split, string_view] *)
Definition split_view (s : str) (separator : ascii) : list str :=
  default [] (split_loop (S (length s)) s [separator] 0 (find [separator] s 0)).

(** src/src/utils/string.cpp:402-416 [join] *)
Definition join (arr : list str) (delimiter : str) : str :=
  match arr with
  | [] => []
  | first :: rest => foldl (fun result x => result ++ delimiter ++ x) first rest
  end.

(** ** Case *)

(** src/src/utils/string.cpp:76-81 [toLower] *)
Definition toLower (s : str) : str := tolower <$> s.

(** src/src/utils/string.cpp:83-88 [toUpper] *)
Definition toUpper (s : str) : str := toupper <$> s.

(** ** Escapes *)

(** src/src/utils/string.cpp:90-115 [processEscapeChar]
    The search goes on behind the replaced character, or right behind a
    backslash that is left alone. *)
Fixpoint processEscapeChar (s : str) : str :=
  match s with
  | [] => []
  | c :: rest =>
      if bool_decide (c = "\"%char) then
        match rest with
        | d :: rest' =>
            if bool_decide (d = "n"%char) then "010"%char :: processEscapeChar rest'
            else if bool_decide (d = "r"%char) then "013"%char :: processEscapeChar rest'
            else if bool_decide (d = "t"%char) then "009"%char :: processEscapeChar rest'
            else c :: processEscapeChar rest
        | [] => [c]
        end
      else c :: processEscapeChar rest
  end.

(** src/src/utils/string.cpp:117-139 [processEscapeCharReverse] *)
Fixpoint processEscapeCharReverse (s : str) : str :=
  match s with
  | [] => []
  | c :: s =>
      (if bool_decide (c = "010"%char) then "\n"
       else if bool_decide (c = "013"%char) then "\r"
       else if bool_decide (c = "009"%char) then "\t"
       else [c]) ++ processEscapeCharReverse s
  end.

(** ** Key-value lists *)

(** src/src/utils/string.cpp:168-173 [parseCommaKeyValue, one pair] *)
Definition key_value (kv : str) : str * str :=
  match find_char "=" kv 0 with
  | None => ("{NONAME}"%str, kv)
  | Some eqpos => (substr kv 0 eqpos, drop (eqpos + 1) kv)
  end.

(** The loop of parseCommaKeyValue; [kv] is the pending text of a field with
    escaped separators. *)
Fixpoint pckv_loop (fuel : nat) (input sep : str) (bpos : nat) (epos : option nat) (kv : str) :
    option (list (str * str)) :=
  match fuel with
  | O => None
  | S fuel =>
      if bpos <? length input then
        let escaped := match epos with
          | Some (S e) => bool_decide (input !! e = Some "\"%char)
          | _ => false
          end in
        let e := default (length input) epos in
        if escaped then
          pckv_loop fuel input sep (e + 1) (find sep input (e + 1))
            (kv ++ (if e =? bpos then drop bpos input else substr input bpos (e - bpos - 1)) ++ sep)
        else
          rest ← pckv_loop fuel input sep (e + 1) (find sep input (e + 1)) [];
          Some (key_value (kv ++ substr input bpos (e - bpos)) :: rest)
      else Some (match kv with [] => [] | _ => [key_value kv] end)
  end.

(** src/src/utils/string.cpp:141-176 [parseCommaKeyValue]
    At [epos = bpos] the length [epos - bpos - 1] wraps to [npos] and the rest
    of the input is taken. *)
Definition parseCommaKeyValue (input sep : str) : option (list (str * str)) :=
  pckv_loop (S (S (length input))) input sep 0 (find sep input 0) [].

(** ** Trimming *)

Definition not_char (c d : ascii) : bool := negb (is_char c d).

(** src/src/utils/string.cpp:178-190 [trimSelfOf]
    [str.size() - 1] of an empty string is [npos]; so is a failed search. *)
Definition trimSelfOf (s : str) (target : ascii) (before after : bool) : str :=
  if negb before && negb after then s
  else
    let pos := if after then last_index_if (not_char target) s
               else match length s with O => None | S n => Some n end in
    let s := match pos with Some p => take (p + 1) s | None => s end in
    let pos := if before then index_if (not_char target) s else pos in
    match pos with Some p => drop p s | None => [] end.

(** src/src/utils/string.cpp:192-211 [trimOf] *)
Definition trimOf (s : str) (target : ascii) (before after : bool) : str :=
  if negb before && negb after then s
  else
    match (if before then index_if (not_char target) s else Some 0) with
    | None => s
    | Some pos =>
        let pos2 := if after then last_index_if (not_char target) s
                    else match length s with O => None | S n => Some n end in
        match pos2 with
        | Some p2 => substr s pos (p2 - pos + 1)
        | None => drop pos s
        end
    end.

(** src/src/utils/string.cpp:213-216 [trim] *)
Definition trim (s : str) (before after : bool) : str := trimOf s " " before after.

(** src/src/utils/string.cpp:218-221 [trimQuote] *)
Definition trimQuote (s : str) (before after : bool) : str := trimOf s "034" before after.

Definition is_ws (c : ascii) : bool := one_of " "%str c || between 9 13 c.

(** src/src/utils/string.cpp:223-240 [trimWhitespace]
    Without [after], [epos] stays [str.size()]. *)
Definition trimWhitespace (s : str) (before after : bool) : str :=
  match (if after then last_index_if (fun c => negb (is_ws c)) s else Some (length s)) with
  | None => []
  | Some epos =>
      match (if before then index_if (fun c => negb (is_ws c)) s else Some 0) with
      | None => []
      | Some bpos => substr s bpos (epos - bpos + 1)
      end
  end.

(** ** Query arguments *)

Fixpoint getUrlArg_loop (fuel : nat) (url pattern : str) (pos : nat) : str :=
  match fuel with
  | O => []
  | S fuel =>
      if pos =? 0 then []
      else
        match rfind pattern url pos with
        | None => []
        | Some p =>
            if (p =? 0) || match url !! (p - 1) with
                           | Some c => one_of "&?" c
                           | None => false
                           end
            then
              let p := p + length pattern in
              match find_char "&" url p with
              | Some e => substr url p (e - p)
              | None => drop p url
              end
            else getUrlArg_loop fuel url pattern (p - 1)
        end
  end.

(** src/src/utils/string.cpp:242-293 [getUrlArg] *)
Definition getUrlArg (url request : str) : str :=
  getUrlArg_loop (S (length url)) url (request ++ "=") (length url).

(** src/src/utils/string.cpp:295-301 [getUrlArg, multimap]
    The multimap in key order; [find] yields the first pair of the key. *)
Definition getUrlArg_map (args : list (str * str)) (request : str) : str :=
  match list_find (fun p => p.1 = request) args with
  | Some (_, p) => p.2
  | None => []
  end.

(** ** Replacement *)

Fixpoint replaceAll_loop (fuel : nat) (s old_value new_value : str) (pos : nat) : option str :=
  match fuel with
  | O => None
  | S fuel =>
      match find old_value s pos with
      | Some p => replaceAll_loop fuel (replace s p (length old_value) new_value) old_value new_value
                    (p + length new_value)
      | None => Some s
      end
  end.

(** src/src/utils/string.cpp:303-313 [replaceAllDistinct] *)
Definition replaceAllDistinct (s old_value new_value : str) : option str :=
  replaceAll_loop (S (length s)) s old_value new_value 0.

(** ** Encodings *)

(** src/src/utils/string.cpp:315-319 [removeUTF8BOM] *)
Definition removeUTF8BOM (data : str) : str :=
  if starts_with ["239"%char; "187"%char; "191"%char] data then drop 3 data else data.

(** The number of continuation bytes a lead byte announces. *)
Definition utf8_lead (chr : Z) : option nat :=
  if (252 <=? chr)%Z && (chr <=? 253)%Z then Some 5
  else if (248 <=? chr)%Z then Some 4
  else if (240 <=? chr)%Z then Some 3
  else if (224 <=? chr)%Z then Some 2
  else if (192 <=? chr)%Z then Some 1
  else None.

(** src/src/utils/string.cpp:321-357 [isStrUTF8]
    The scan stops at the first NUL byte. *)
Fixpoint isStrUTF8_from (nBytes : nat) (s : str) : bool :=
  match s with
  | [] => nBytes =? 0
  | c :: s =>
      let chr := code c in
      if (chr =? 0)%Z then nBytes =? 0
      else
        match nBytes with
        | O =>
            if (128 <=? chr)%Z then
              match utf8_lead chr with
              | Some n => isStrUTF8_from n s
              | None => false
              end
            else isStrUTF8_from 0 s
        | S n => if (Z.land chr 192 =? 128)%Z then isStrUTF8_from n s else false
        end
  end.
Definition isStrUTF8 (data : str) : bool := isStrUTF8_from 0 data.

(** [std::atoi] of glibc: [strtol], saturating at 64 bits, cut to an [int]. *)
Definition int32 (z : Z) : Z := ((z + 2 ^ 31) mod 2 ^ 32 - 2 ^ 31)%Z.
Definition digit_value (c : ascii) : Z := (code c - 48)%Z.
Fixpoint digits_value (acc : Z) (s : str) : Z :=
  match s with
  | c :: s => if isdigit c then digits_value (acc * 10 + digit_value c)%Z s else acc
  | [] => acc
  end.
Fixpoint skip_spaces (s : str) : str :=
  match s with c :: s' => if isspace c then skip_spaces s' else s | [] => [] end.
Definition atoi (s : str) : Z :=
  match skip_spaces s with
  | c :: s =>
      if bool_decide (c = "-"%char) then int32 (Z.max (- 2 ^ 63) (- digits_value 0 s))
      else if bool_decide (c = "+"%char) then int32 (Z.min (2 ^ 63 - 1) (digits_value 0 s))
      else int32 (Z.min (2 ^ 63 - 1) (digits_value 0 (c :: s)))
  | [] => 0%Z
  end.

(** src/src/utils/string.cpp:384-400 [to_int] *)
Definition to_int (s : str) (def_value : Z) : Z :=
  match s with [] => def_value | _ => atoi s end.

(** src/src/utils/string.h:60-63 [strFind] *)
Definition strFind (s target : str) : bool := bool_decide (is_Some (find target s 0)).

(** src/src/utils/string.h:67-70 [startsWith] *)
Definition startsWith (hay needle : str) : bool := starts_with needle hay.

(** src/src/utils/string.h:72-75 [endsWith] *)
Definition endsWith (hay needle : str) : bool := ends_with needle hay.

(** src/src/utils/string.h:92-103 [count_least] *)
Fixpoint count_least (hay : str) (needle : ascii) (cnt : nat) : bool :=
  match hay with
  | [] => false
  | c :: hay =>
      if bool_decide (c = needle) then
        match cnt with
        | S O => true
        | S n => count_least hay needle n
        | O => false   (* [cnt--] of 0 wraps to [SIZE_MAX] occurrences *)
        end
      else count_least hay needle cnt
  end.

(** src/src/utils/string.h:105-108 [getLineBreak] *)
Definition getLineBreak (s : str) : ascii := if count_least s "010" 1 then "010" else "013".

(** ** Lemmas *)

Lemma join_cons f fs d : fs ≠ [] -> join (f :: fs) d = f ++ d ++ join fs d.
Proof.
  destruct fs as [|g fs]; [done|]. intros _. simpl.
  enough (forall acc, foldl (fun result x => result ++ d ++ x) acc fs =
    acc ++ foldl (fun result x => result ++ d ++ x) [] fs) as H.
  { rewrite (H (f ++ d ++ g)), (H g). by rewrite <- !app_assoc. }
  induction fs as [|h fs IH]; intros acc; simpl; [by rewrite app_nil_r|].
  rewrite IH, (IH (d ++ h)). by rewrite <- !app_assoc.
Qed.

Lemma find_aux_None p s i :
  find_aux p s i = None <-> forall k, k <= length s -> starts_with p (drop k s) = false.
Proof.
  revert i. induction s as [|c s IH]; intros i; simpl; destruct (starts_with p _) eqn:Hs.
  - split; [done|]. intros H. specialize (H 0 ltac:(lia)). simpl in H. congruence.
  - split; [|done]. intros _ [|k] Hk; [done|lia].
  - split; [done|]. intros H. specialize (H 0 ltac:(lia)). simpl in H. congruence.
  - rewrite IH. split.
    + intros H [|k] Hk; [done|]. apply H. lia.
    + intros H k Hk. apply (H (S k)). lia.
Qed.

Lemma find_None p s pos :
  find p s pos = None -> forall k, pos <= k <= length s -> starts_with p (drop k s) = false.
Proof.
  unfold find. destruct (Nat.leb_spec pos (length s)); [|lia].
  rewrite find_aux_None. intros Hf k Hk. specialize (Hf (k - pos)).
  rewrite length_drop, drop_drop in Hf. replace (pos + (k - pos)) with k in Hf by lia.
  apply Hf. lia.
Qed.

Lemma find_aux_first (c : ascii) p a b i : c ∉ a -> find_aux (c :: p) (a ++ (c :: p) ++ b) i = Some (i + length a)%nat.
Proof.
  revert i. induction a as [|d a IH]; intros i Ha.
  - cbn [app length]. rewrite Nat.add_0_r. cbn [find_aux].
    change (c :: p ++ b) with ((c :: p) ++ b). by rewrite starts_with_app.
  - apply not_elem_of_cons in Ha as [Hc Ha]. cbn [app find_aux].
    replace (starts_with (c :: p) (d :: a ++ c :: p ++ b)) with false.
    2:{ symmetry. cbn [starts_with]. by rewrite bool_decide_false. }
    change (c :: p ++ b) with ((c :: p) ++ b). rewrite IH by done. cbn [length]. f_equal. lia.
Qed.

Lemma find_scheme scheme rest :
  ":"%char ∉ scheme -> find "://"%str (scheme ++ "://"%str ++ rest) 0 = Some (length scheme).
Proof. intros H. unfold find. cbn [Nat.leb]. rewrite drop_0. by apply (find_aux_first ":" "//"%str). Qed.

Lemma starts_with_length p s : starts_with p s = true -> length p <= length s.
Proof. intros [t ->]%starts_with_spec. rewrite length_app. lia. Qed.

Lemma starts_with_app_r p s t : starts_with p s = true -> starts_with p (s ++ t) = true.
Proof. intros [u ->]%starts_with_spec. rewrite <- app_assoc. apply starts_with_app. Qed.

(** A stretch before the first match holds no match. *)
Lemma find_take_None sep s bpos n :
  sep ≠ [] -> bpos + n <= length s ->
  (forall k, bpos <= k < bpos + n -> starts_with sep (drop k s) = false) ->
  find sep (take n (drop bpos s)) 0 = None.
Proof.
  intros Hsep Hn H. destruct (find sep _ 0) as [i|] eqn:Hf; [|done]. exfalso.
  apply find_Some in Hf as (_ & Hs & _).
  pose proof (starts_with_length _ _ Hs) as Hl. rewrite length_drop, length_take, length_drop in Hl.
  assert (length sep ≠ 0) by (by destruct sep).
  assert (starts_with sep (drop (bpos + i) s) = true) as Ht.
  { rewrite <- drop_drop. rewrite <- (take_drop n (drop bpos s)).
    rewrite drop_app_le by (rewrite length_take, length_drop; lia).
    by apply starts_with_app_r. }
  rewrite H in Ht; [done|lia].
Qed.

(** What the search result says of the text from [bpos] on. *)
Lemma find_decompose sep s bpos e :
  find sep s bpos = Some e ->
  drop bpos s = substr s bpos (e - bpos) ++ sep ++ drop (e + length sep) s /\
  bpos <= e /\ e + length sep <= length s.
Proof.
  intros (Hb & Hs & _)%find_Some. pose proof (starts_with_length _ _ Hs) as Hl.
  rewrite length_drop in Hl. apply starts_with_spec in Hs as [t Ht].
  split; [|lia]. unfold substr. rewrite <- (take_drop (e - bpos) (drop bpos s)) at 1. f_equal.
  rewrite drop_drop. replace (bpos + (e - bpos)) with e by lia.
  rewrite <- drop_drop, Ht. by rewrite drop_app_length.
Qed.

Definition no_match (sep f : str) : Prop := find sep f 0 = None.

Lemma split_loop_spec fuel s sep bpos :
  sep ≠ [] -> length s - bpos < fuel ->
  exists fs, split_loop fuel s sep bpos (find sep s bpos) = Some fs /\
    (length s <= bpos -> fs = []) /\
    (bpos < length s -> fs ≠ [] /\
      (drop bpos s = join fs sep \/ drop bpos s = join fs sep ++ sep)) /\
    Forall (no_match sep) fs.
Proof.
  intros Hsep. assert (length sep ≠ 0) as Hl by (by destruct sep).
  revert bpos. induction fuel as [|fuel IH]; intros bpos Hf; [lia|]. cbn [split_loop].
  destruct (Nat.ltb_spec bpos (length s)) as [Hb|Hb];
    [|exists []; split_and!; [done|done|lia|constructor]].
  destruct (find sep s bpos) as [e|] eqn:He; cbn [from_option id].
  - pose proof (find_decompose _ _ _ _ He) as (Hd & H1 & H2).
    destruct (IH (e + length sep) ltac:(lia)) as (fs & Hfs & Hnil & Hrest & Hall).
    rewrite Hfs. cbn. eexists. split; [done|]. split; [lia|]. split.
    + intros _. split; [done|]. destruct (decide (length s <= e + length sep)) as [Hge|Hlt].
      * rewrite (Hnil Hge). right. simpl. rewrite Hd at 1. by rewrite drop_ge, app_nil_r by lia.
      * destruct Hrest as [Hne Hor]; [lia|]. rewrite (join_cons _ _ _ Hne).
        destruct Hor as [Hor|Hor]; [left|right]; rewrite Hd at 1; rewrite Hor;
          by rewrite <- ?app_assoc.
    + constructor; [|done]. apply find_take_None; [done|lia|].
      apply find_Some in He as (_ & _ & Hmin). intros k Hk. apply Hmin. lia.
  - destruct (IH (length s + length sep) ltac:(lia)) as (fs & Hfs & Hnil & _ & _).
    rewrite Hfs. rewrite Hnil by lia. cbn. eexists. split; [done|]. split; [lia|].
    unfold substr. rewrite take_ge by (rewrite length_drop; lia). split; [auto|].
    constructor; [|constructor].
    pose proof (find_take_None sep s bpos (length s - bpos) Hsep) as Ht.
    rewrite take_ge in Ht by (rewrite length_drop; lia). apply Ht; [lia|].
    intros k Hk. apply (find_None _ _ _ He). lia.
Qed.

(** The fields of a split on one character. *)
Lemma split_view_spec s c :
  (s = [] /\ split_view s c = []) \/
  (split_view s c ≠ [] /\
   (s = join (split_view s c) [c] \/ s = join (split_view s c) [c] ++ [c]) /\
   Forall (no_match [c]) (split_view s c)).
Proof.
  destruct (split_loop_spec (S (length s)) s [c] 0) as (fs & Hfs & Hnil & Hrest & Hall); [done|lia|].
  unfold split_view. rewrite Hfs. simpl. destruct s as [|d s]; [left; auto with lia|right].
  destruct Hrest as [Hne Hor]; [simpl; lia|]. by rewrite drop_0 in Hor.
Qed.

Lemma replaceAll_loop_spec fuel s old new pos :
  old ≠ [] -> pos <= length s -> length s - pos < fuel ->
  exists fs, fs ≠ [] /\ drop pos s = join fs old /\ Forall (no_match old) fs /\
    replaceAll_loop fuel s old new pos = Some (take pos s ++ join fs new).
Proof.
  intros Hold. assert (length old ≠ 0) as Hl by (by destruct old).
  revert s pos. induction fuel as [|fuel IH]; intros s pos Hpos Hf; [lia|]. simpl.
  destruct (find old s pos) as [p|] eqn:Hp.
  - pose proof (find_decompose _ _ _ _ Hp) as (Hd & H1 & H2).
    set (s' := replace s p (length old) new).
    assert (drop (p + length new) s' = drop (p + length old) s) as Hdrop.
    { unfold s', replace. rewrite app_assoc, drop_app_ge; rewrite length_app, length_take;
        [|lia]. replace (p + length new - (p `min` length s + length new)) with 0 by lia. done. }
    assert (length s' = p + length new + (length s - (p + length old))) as Hlen.
    { unfold s', replace. rewrite !length_app, length_take, length_drop. lia. }
    destruct (IH s' (p + length new)) as (fs & Hne & Hj & Hall & ->); [lia|lia|].
    exists (substr s pos (p - pos) :: fs). split; [done|].
    rewrite !join_cons by done. rewrite <- Hj, Hdrop. split; [done|]. split.
    + constructor; [|done]. apply find_take_None; [done|lia|].
      apply find_Some in Hp as (_ & _ & Hmin). intros k Hk. apply Hmin. lia.
    + f_equal. unfold s', replace, substr. rewrite take_app_ge by (rewrite length_take; lia).
      rewrite length_take, take_app_ge by lia.
      replace (p + length new - p `min` length s - length new) with 0 by lia.
      rewrite take_0, app_nil_r.
      replace (take p s) with (take pos s ++ take (p - pos) (drop pos s)).
      { by rewrite <- !app_assoc. }
      rewrite take_take_drop. f_equal. lia.
  - exists [drop pos s]. simpl. rewrite take_drop. split_and!; [done|done| |done].
    constructor; [|constructor].
    pose proof (find_take_None old s pos (length s - pos) Hold) as Ht.
    rewrite take_ge in Ht by (rewrite length_drop; lia). apply Ht; [lia|].
    intros k Hk. apply (find_None _ _ _ Hp). lia.
Qed.

(** The bytes of a joined text. *)
Lemma elem_of_join c fs d : c ∈ join fs d -> (exists f, f ∈ fs /\ c ∈ f) \/ c ∈ d.
Proof.
  induction fs as [|f fs IH]; [by intros ?%elem_of_nil|]. destruct fs as [|g fs].
  { simpl. intros Hc. left. exists f. split; [by left|done]. }
  rewrite join_cons, !elem_of_app by done. intros [Hc|[Hc|Hc]]; [left|by right|].
  - exists f. split; [by left|done].
  - destruct (IH Hc) as [(h & Hh & Hc')|]; [left|by right]. exists h. split; [by right|done].
Qed.

Lemma join_elem_of c f fs d : f ∈ fs -> c ∈ f -> c ∈ join fs d.
Proof.
  intros Hf Hc. induction fs as [|g fs IH]; [by apply elem_of_nil in Hf|].
  destruct fs as [|h fs]; [apply list_elem_of_singleton in Hf; by subst|].
  rewrite join_cons, !elem_of_app by done. apply elem_of_cons in Hf as [->|Hf]; [by left|]. right. right. by apply IH.
Qed.

Lemma no_match_char c f : no_match [c] f -> c ∉ f.
Proof.
  intros Hn Hc. apply list_elem_of_split in Hc as (a & b & ->). unfold no_match in Hn.
  pose proof (find_None [c] (a ++ c :: b) 0 Hn (length a)) as Hf.
  rewrite drop_app_length in Hf. simpl in Hf. rewrite bool_decide_true in Hf by done.
  rewrite length_app in Hf. simpl in Hf. discriminate Hf; lia.
Qed.

(** The fields of a split on one byte do not have it. *)
Lemma split_char s c : Forall (fun f => c ∉ f) (default [] (split s [c])).
Proof.
  unfold split. destruct (split_loop_spec (S (length s)) s [c] 0) as (fs & -> & _ & _ & Hall); [done|lia|].
  eapply Forall_impl; [exact Hall|]. intros f. apply no_match_char.
Qed.

(** Deleting a pattern adds no bytes. *)
Lemma delete_all_bytes s old c : old ≠ [] -> c ∉ s -> c ∉ default s (replaceAllDistinct s old []).
Proof.
  intros Hold Hc. unfold replaceAllDistinct.
  destruct (replaceAll_loop_spec (S (length s)) s old [] 0) as (fs & _ & Hj & _ & ->); [done|lia|lia|].
  rewrite drop_0 in Hj. simpl. intros [(f & Hf & Hcf)|Hn]%elem_of_join; [|by apply elem_of_nil in Hn].
  apply Hc. rewrite Hj. by eapply join_elem_of.
Qed.

(** ** Properties *)

(** [split] terminates for every non-empty separator and loses nothing:
    joining the fields with the separator gives the input back, up to one
    trailing separator, and no field contains the separator. *)
Theorem split_join s sep :
  sep ≠ [] ->
  exists fs, split s sep = Some fs /\
    (join fs sep = s \/ join fs sep ++ sep = s) /\
    Forall (no_match sep) fs.
Proof.
  intros Hsep. destruct (split_loop_spec (S (length s)) s sep 0) as (fs & Hfs & Hnil & Hrest & Hall);
    [done|lia|]. exists fs. split; [done|]. split; [|done].
  destruct s as [|c s]; [left; by rewrite Hnil by (simpl; lia)|].
  destruct Hrest as [_ Hor]; [simpl; lia|]. rewrite drop_0 in Hor. naive_solver.
Qed.

Lemma split_join_witness :
  (exists fs, split "a,b,"%str ","%str = Some fs /\
    (join fs ","%str = "a,b,"%str \/ join fs ","%str ++ ","%str = "a,b,"%str) /\
    Forall (no_match ","%str) fs) /\ split "a,b,"%str ","%str = Some ["a"%str; "b"%str].
Proof. split; [by apply (split_join "a,b," ",")|reflexivity]. Defined.

(** [replaceAllDistinct] terminates for every non-empty pattern and
    replaces exactly the leftmost non-overlapping occurrences: the text splits
    into stretches free of the pattern, and only the glue between them
    changes. *)
Theorem replaceAllDistinct_spec s old new :
  old ≠ [] ->
  exists fs, s = join fs old /\ Forall (no_match old) fs /\
    replaceAllDistinct s old new = Some (join fs new).
Proof.
  intros Hold. destruct (replaceAll_loop_spec (S (length s)) s old new 0) as (fs & _ & Hj & Hall & Hr);
    [done|lia|lia|]. exists fs. rewrite drop_0 in Hj. split_and!; [done|done|exact Hr].
Qed.

Lemma replaceAllDistinct_spec_witness :
  exists fs, "a--b"%str = join fs "-"%str /\ Forall (no_match "-"%str) fs /\
    replaceAllDistinct "a--b"%str "-"%str "+-"%str = Some (join fs "+-"%str).
Proof. by apply (replaceAllDistinct_spec "a--b" "-" "+-"). Defined.

Definition no_outer_ws (r : str) : Prop :=
  match head r with Some c => is_ws c = false | None => True end /\
  match last r with Some c => is_ws c = false | None => True end.

Lemma split_left (f : ascii -> bool) s :
  (forall c, c ∈ s -> f c = false) \/
  exists a c r, s = a ++ c :: r /\ (forall d, d ∈ a -> f d = false) /\ f c = true.
Proof.
  induction s as [|c s IH]; [left; intros c Hc; by apply not_elem_of_nil in Hc|].
  destruct (f c) eqn:Hc.
  - right. exists [], c, s. split_and!; [done| |done]. intros d Hd. by apply not_elem_of_nil in Hd.
  - destruct IH as [H|(a & d & r & -> & Ha & Hd)].
    + left. intros d [->|Hd]%elem_of_cons; auto.
    + right. exists (c :: a), d, r. split_and!; [done| |done]. intros e [->|He]%elem_of_cons; auto.
Qed.

Lemma split_right (f : ascii -> bool) s :
  (forall c, c ∈ s -> f c = false) \/
  exists r d b, s = r ++ d :: b /\ (forall c, c ∈ b -> f c = false) /\ f d = true.
Proof.
  destruct (split_left f (rev s)) as [H|(a & c & r & Hs & Ha & Hc)].
  - left. intros c Hc. apply H. apply list_elem_of_In, in_rev.
    rewrite rev_involutive. by apply list_elem_of_In.
  - right. exists (rev r), c, (rev a). split_and!; [|..|done].
    + rewrite <- (rev_involutive s), Hs, rev_app_distr. simpl. by rewrite <- app_assoc.
    + intros d Hd. apply Ha. apply list_elem_of_In, in_rev. by apply list_elem_of_In.
Qed.

(** A text with a byte in [f] is what lies between its first and its last one,
    [m], between two runs without such bytes. *)
Lemma split_middle (f : ascii -> bool) s :
  (forall c, c ∈ s -> f c = false) \/
  exists a m b, s = a ++ m ++ b /\ (forall d, d ∈ a -> f d = false) /\ (forall d, d ∈ b -> f d = false) /\
    (exists c, head m = Some c /\ f c = true) /\ (exists c, last m = Some c /\ f c = true) /\
    index_if f s = Some (length a) /\ last_index_if f s = Some (length a + (length m - 1)) /\
    0 < length m /\ substr s (length a) (length m) = m.
Proof.
  destruct (split_left f s) as [Hall|(a & c & r & Hs & Ha & Hc)]; [by left|right].
  destruct (split_right f (c :: r)) as [Hall|(r' & d & b & Hr & Hb & Hd)].
  { rewrite Hall in Hc; [done|left]. }
  exists a, (r' ++ [d]), b. rewrite length_app. simpl. split_and!; [|done|done|..].
  - rewrite Hs, Hr, <- app_assoc. done.
  - destruct r' as [|e r']; simpl in *; injection Hr as -> ->; eauto.
  - exists d. by rewrite last_snoc.
  - rewrite Hs. by apply index_if_app.
  - rewrite Hs, Hr, app_assoc. rewrite last_index_if_app by done. f_equal. rewrite length_app. lia.
  - lia.
  - rewrite Hs, Hr. unfold substr. rewrite drop_app_length.
    change (d :: b) with ([d] ++ b). rewrite app_assoc. rewrite take_app_length'; [done|].
    rewrite length_app. simpl. lia.
Qed.

Lemma substr_infix (s : str) pos n : exists a b, s = a ++ substr s pos n ++ b.
Proof.
  exists (take pos s), (drop n (drop pos s)). unfold substr. by rewrite take_drop, take_drop.
Qed.

Lemma trimWhitespace_infix s before after : exists a b, s = a ++ trimWhitespace s before after ++ b.
Proof.
  unfold trimWhitespace. repeat case_match; solve [apply substr_infix | exists s, []; by rewrite app_nil_r].
Qed.

(** What [trimOf] leaves on both sides: everything when the text has no other
    byte than the target, and otherwise a text whose outer bytes differ from
    the target. *)
Lemma trimOf_middle s target :
  (trimOf s target true true = s /\ Forall (fun c => c = target) s) \/
  (exists a b, s = a ++ trimOf s target true true ++ b) /\
    head (trimOf s target true true) <> Some target /\ last (trimOf s target true true) <> Some target.
Proof.
  unfold trimOf. simpl. set (f := not_char target).
  assert (forall c, f c = true -> c <> target) as Hne.
  { intros c Hc ->. unfold f, not_char, is_char in Hc. by rewrite bool_decide_true in Hc. }
  destruct (split_middle f s) as [Hall|(a & m & b & Hs & Ha & Hb & (c & Hc & Hfc) & (d & Hd & Hfd) & -> & -> & ? & Hm)].
  - left. rewrite (proj2 (index_if_None f s) Hall). split; [done|]. apply Forall_forall. intros c Hc%Hall.
    by apply negb_false_iff, bool_decide_eq_true in Hc.
  - right. replace (length a + (length m - 1) - length a + 1) with (length m) by lia. rewrite Hm.
    rewrite Hc, Hd. split; [by exists a, b|]. split; intros [= Heq]; by apply Hne in Heq.
Qed.

Lemma trimOf_nonempty s target : s <> [] -> trimOf s target true true <> [].
Proof.
  intros Hs. unfold trimOf. simpl. set (f := not_char target).
  destruct (split_middle f s) as [Hall|(a & m & b & Heq & Ha & Hb & (c & Hc & Hfc) & (d & Hd & Hfd) & -> & -> & ? & Hm)].
  - by rewrite (proj2 (index_if_None f s) Hall).
  - replace (length a + (length m - 1) - length a + 1) with (length m) by lia. rewrite Hm. by destruct m.
Qed.

(** Trimming both ends removes whitespace only, and all of it: the input is
    the result between two runs of whitespace, and the result neither starts
    nor ends with whitespace. *)
Theorem trimWhitespace_spec s :
  exists a b, s = a ++ trimWhitespace s true true ++ b /\
    Forall (fun c => is_ws c = true) a /\ Forall (fun c => is_ws c = true) b /\
    no_outer_ws (trimWhitespace s true true).
Proof.
  set (f := fun c => negb (is_ws c)).
  assert (forall l, (forall c, c ∈ l -> f c = false) -> Forall (fun c => is_ws c = true) l) as Hws.
  { intros l Hl. apply Forall_forall. intros c Hc. by apply negb_false_iff, Hl. }
  unfold trimWhitespace. fold f.
  destruct (split_middle f s) as [Hall|(a & m & b & Hs & Ha & Hb & (c & Hc & Hfc) & (d & Hd & Hfd) & -> & -> & ? & Hm)].
  - exists s, []. rewrite (proj2 (last_index_if_None f s) Hall), app_nil_r.
    split_and!; [done|by apply Hws|constructor|done].
  - exists a, b. replace (length a + (length m - 1) - length a + 1) with (length m) by lia. rewrite Hm.
    split_and!; [done|by apply Hws|by apply Hws|]. unfold no_outer_ws. rewrite Hc, Hd.
    by apply negb_true_iff in Hfc, Hfd.
Qed.

Lemma trimWhitespace_id s c d m : s = c :: m ++ [d] -> is_ws c = false -> is_ws d = false -> trimWhitespace s true true = s.
Proof.
  intros -> Hc Hd. unfold trimWhitespace. set (f := fun c => negb (is_ws c)).
  change (c :: m ++ [d]) with ((c :: m) ++ d :: []).
  rewrite last_index_if_app; [|by intros e He%elem_of_nil|unfold f; by rewrite Hd].
  cbn [app index_if]. unfold f at 1. rewrite Hc. cbn [negb]. unfold substr. rewrite drop_0, take_ge; [done|].
  simpl. rewrite length_app. simpl. lia.
Qed.

(** Trimming in place only behind loses the text, not the target bytes. *)
Lemma trimSelfOf_after_only : trimSelfOf "name--" "-" false true = "e"%str.
Proof. vm_compute. reflexivity. Qed.

(** A text of target bytes only: kept by [trimOf], emptied by [trimSelfOf]. *)
Lemma trimOf_only_target : trimOf "--" "-" true true = "--"%str /\ trimSelfOf "--" "-" true true = [].
Proof. vm_compute. split; reflexivity. Qed.

(** ** [std::to_string] of unsigned integers *)

Definition digit_char (d : Z) : ascii := chr (48 + d)%Z.

(** Twenty digits are enough for 64 bits. *)
Fixpoint to_digits (fuel : nat) (n : Z) : str :=
  match fuel with
  | O => []
  | S fuel => (if (n <? 10)%Z then [] else to_digits fuel (n / 10)%Z) ++ [digit_char (n mod 10)%Z]
  end.
Definition to_string (n : Z) : str := to_digits 20 n.

Lemma digit_char_ok d : (0 <= d < 10)%Z -> isdigit (digit_char d) = true /\ digit_value (digit_char d) = d.
Proof.
  intros H. unfold isdigit, between, digit_value, digit_char. rewrite code_chr_small by lia.
  split; [|lia]. apply andb_true_iff. split; apply Z.leb_le; lia.
Qed.

Lemma digits_value_snoc acc s c :
  Forall (fun c => isdigit c = true) s -> isdigit c = true ->
  digits_value acc (s ++ [c]) = (digits_value acc s * 10 + digit_value c)%Z.
Proof.
  intros Hs Hc. revert acc. induction Hs as [|d s Hd Hs IH]; intros acc; simpl; [by rewrite Hc|].
  by rewrite Hd, IH.
Qed.

Lemma to_digits_ok fuel n :
  (0 <= n < 10 ^ Z.of_nat fuel)%Z -> (0 < fuel)%nat ->
  Forall (fun c => isdigit c = true) (to_digits fuel n) /\ to_digits fuel n <> [] /\
  digits_value 0 (to_digits fuel n) = n.
Proof.
  revert n. induction fuel as [|fuel IH]; intros n Hn Hf; [lia|]. cbn [to_digits].
  assert (Hd : (0 <= n mod 10 < 10)%Z) by (apply Z.mod_pos_bound; lia).
  destruct (digit_char_ok _ Hd) as [H1 H2].
  destruct (Z.ltb_spec n 10) as [Hlt|Hge].
  - split_and!; [by repeat constructor|done|]. simpl app. cbn [digits_value]. rewrite H1, H2.
    rewrite Z.mod_small; lia.
  - rewrite Nat2Z.inj_succ, Z.pow_succ_r in Hn by lia.
    destruct fuel as [|fuel]; [simpl in Hn; lia|].
    destruct (IH (n / 10)%Z) as (H3 & H4 & H5); [split; [apply Z.div_pos; lia|apply Z.div_lt_upper_bound; lia]|lia|].
    split_and!.
    + apply Forall_app. split; [done|by repeat constructor].
    + intros H. by apply app_eq_nil in H as [_ ?].
    + rewrite digits_value_snoc by done. rewrite H5, H2. pose proof (Z.div_mod n 10). lia.
Qed.

Lemma to_digits_bytes fuel n :
  (0 <= n)%Z -> Forall (fun c => isdigit c = true) (to_digits fuel n) /\ (length (to_digits fuel n) <= fuel)%nat.
Proof.
  revert n. induction fuel as [|fuel IH]; intros n Hn; [by split; [constructor|simpl]|]. cbn [to_digits].
  destruct (digit_char_ok (n mod 10)) as [Hd _]; [apply Z.mod_pos_bound; lia|].
  destruct (IH (n / 10)%Z) as [H1 H2]; [apply Z.div_pos; lia|].
  split; [apply Forall_app; split; [by destruct (n <? 10)%Z|by repeat constructor]|].
  rewrite length_app. simpl. destruct (n <? 10)%Z; simpl; lia.
Qed.

Lemma to_string_ok n :
  is_u64 n -> Forall (fun c => isdigit c = true) (to_string n) /\ to_string n <> [] /\ digits_value 0 (to_string n) = n.
Proof.
  intros H. apply to_digits_ok; [|lia]. unfold is_u64 in H. split; [lia|].
  etransitivity; [apply H|]. vm_compute. reflexivity.
Qed.

Lemma to_string_inj n m : is_u64 n -> is_u64 m -> to_string n = to_string m -> n = m.
Proof. intros Hn Hm H. destruct (to_string_ok n Hn) as (_ & _ & <-), (to_string_ok m Hm) as (_ & _ & <-). by rewrite H. Qed.

(** ** Schemes *)

Lemma tolower_alnum c : isalnum (tolower c) = true -> isalnum c = true.
Proof.
  intros H. assert (Hall : implb (isalnum (tolower c)) (isalnum c) = true).
  { clear H. revert c. apply all_bytes_spec. by vm_compute. }
  by rewrite H in Hall.
Qed.

Lemma alnum_not c s : isalnum c = false -> Forall (fun c => isalnum c = true) s -> c ∉ s.
Proof. rewrite Forall_forall. intros Hc Hs Hin. specialize (Hs c Hin). congruence. Qed.

Lemma toLower_idem s : toLower (toLower s) = toLower s.
Proof. unfold toLower. rewrite <- list_fmap_compose. apply list_fmap_ext. intros _ c _. simpl. by rewrite tolower_idem. Qed.

Definition http_scheme (scheme : str) : Prop := toLower scheme = "http"%str \/ toLower scheme = "https"%str.

Lemma lower_scheme_alnum scheme names :
  forallb (forallb isalnum) names = true -> toLower scheme ∈ names -> Forall (fun c => isalnum c = true) scheme.
Proof.
  intros Hn Hin. rewrite forallb_forall in Hn. specialize (Hn _ (proj1 (list_elem_of_In _ _) Hin)). rewrite forallb_forall in Hn.
  apply Forall_forall. intros c Hc. apply tolower_alnum, Hn, list_elem_of_In. unfold toLower. apply list_elem_of_fmap. by exists c.
Qed.

Lemma http_scheme_no_colon s : http_scheme s -> ":"%char ∉ s.
Proof.
  intros Hs. apply alnum_not; [done|]. apply (lower_scheme_alnum _ ["http"; "https"]%str); [by vm_compute|].
  destruct Hs as [-> | ->]; set_solver.
Qed.

(** ** Fields and digits of longer texts *)

Lemma fields_join c fs : fs <> [] -> Forall (fun f => c ∉ f) fs -> fields c (join fs [c]) = fs.
Proof.
  induction fs as [|f fs IH]; [done|]. intros _ [Hf Hfs]%Forall_cons. destruct fs as [|g fs]; [by apply fields_one|].
  rewrite join_cons by done. simpl app at 1. rewrite fields_cons by done. f_equal. by apply IH.
Qed.

(** With no empty field, splitting gives the fields. *)
Lemma split_fields c s : Forall (fun f => f <> []) (fields c s) -> split s [c] = Some (fields c s).
Proof.
  intros Hne. destruct (split_join s [c] ltac:(done)) as (fs & -> & Hj & Hall). f_equal.
  assert (Forall (fun f => c ∉ f) fs) as Hc by (eapply Forall_impl; [exact Hall|apply no_match_char]).
  destruct fs as [|f fs].
  - destruct Hj as [<-|<-]; simpl in Hne; [by apply Forall_cons in Hne as [? _]|].
    unfold is_char in Hne. rewrite bool_decide_true in Hne by done. by apply Forall_cons in Hne as [? _].
  - destruct Hj as [<-|<-]; [by rewrite fields_join|].
    rewrite fields_snoc, Forall_app in Hne by (by intros ?%elem_of_nil).
    destruct Hne as [_ Hne]. by apply Forall_cons in Hne as [? _].
Qed.

Lemma elem_of_fields c s x : x ∈ s -> x = c \/ exists f, f ∈ fields c s /\ x ∈ f.
Proof.
  induction s as [|y s IH]; [by intros ?%elem_of_nil|]. cbn [fields]. unfold is_char. case_bool_decide as Hy.
  - intros [->|Hx]%elem_of_cons; [by left|]. destruct (IH Hx) as [|(f & Hf & Hxf)]; [by left|right].
    exists f. split; [by right|done].
  - destruct (fields c s) as [|g fs] eqn:E; [by apply fields_nonempty in E|].
    intros [->|Hx]%elem_of_cons; [right; exists (y :: g); split; left|].
    destruct (IH Hx) as [|(f & [->|Hf]%elem_of_cons & Hxf)]; [by left|right..].
    + exists (y :: g). split; [left|by right].
    + exists f. split; [by right|done].
Qed.

Lemma trimWhitespace_no_ws s : Forall (fun c => is_ws c = false) s -> trimWhitespace s true true = s.
Proof.
  intros Hs. destruct (trimWhitespace_spec s) as (a & b & E & Ha & Hb & _). revert E.
  generalize (trimWhitespace s true true). intros t ->. rewrite !Forall_app in Hs. destruct Hs as (Hsa & _ & Hsb).
  assert (G : forall l, Forall (fun c => is_ws c = true) l -> Forall (fun c => is_ws c = false) l -> l = []).
  { intros [|c l] H1 H2; [done|]. apply Forall_cons in H1 as [H1 _], H2 as [H2 _]. congruence. }
  by rewrite (G a), (G b), app_nil_r.
Qed.

Lemma last_field c s : match last_index_if (is_char c) s with
  | Some i => (exists f fs, fields c s = f :: fs /\ fs <> []) /\ last (fields c s) = Some (drop (i + 1) s)
  | None => fields c s = [s]
  end.
Proof.
  destruct (split_right (is_char c) s) as [Hno|(r & e & t & -> & Ht & He)].
  - rewrite (proj2 (last_index_if_None _ s) Hno). apply fields_one. intros Hc%Hno. unfold is_char in Hc. by rewrite bool_decide_true in Hc.
  - rewrite last_index_if_app by done. unfold is_char in He. apply bool_decide_eq_true in He as ->.
    rewrite fields_snoc. 2:{ intros Hc%Ht. unfold is_char in Hc. by rewrite bool_decide_true in Hc. }
    split.
    + destruct (fields c r) as [|f fs] eqn:E; [by apply fields_nonempty in E|]. exists f, (fs ++ [t]). split; [done|]. by destruct fs.
    + rewrite last_snoc. f_equal. change (c :: t) with ([c] ++ t). rewrite app_assoc, drop_app_length'; [done|].
      rewrite length_app. simpl. lia.
Qed.

Lemma index_if_take f a b : (forall c, c ∈ a -> f c = false) -> match b with [] => True | c :: _ => f c = true end ->
  match index_if f (a ++ b) with Some e => take e (a ++ b) | None => a ++ b end = a.
Proof.
  intros Ha Hb. destruct b as [|c b].
  - rewrite app_nil_r. by rewrite (proj2 (index_if_None f a) Ha).
  - rewrite index_if_app by done. by apply take_app_length.
Qed.

Lemma join_fields c s : join (fields c s) [c] = s.
Proof.
  induction s as [|x s IH]; [done|]. cbn [fields]. unfold is_char. case_bool_decide as Hx.
  - rewrite join_cons by apply fields_nonempty. by rewrite IH, Hx.
  - destruct (fields c s) as [|f fs] eqn:E; [by apply fields_nonempty in E|]. destruct fs as [|g fs]; [simpl in *; by rewrite IH|].
    rewrite !join_cons in * by done. by rewrite <- IH.
Qed.

Definition no_digit_first (s : str) : Prop := match s with [] => True | c :: _ => isdigit c = false end.

Lemma digit_run a b s t : Forall (fun c => isdigit c = true) a -> Forall (fun c => isdigit c = true) b ->
  no_digit_first s -> no_digit_first t -> a ++ s = b ++ t -> a = b /\ s = t.
Proof.
  intros Ha. revert b. induction Ha as [|x a Hx Ha IH]; intros b Hb Hs Ht E; destruct Hb as [|y b Hy Hb]; simpl in E.
  - done.
  - subst s. simpl in Hs. congruence.
  - subst t. simpl in Ht. congruence.
  - injection E as -> E. by destruct (IH b Hb Hs Ht E) as [-> ->].
Qed.

Lemma to_string_run n m s t : is_u64 n -> is_u64 m -> no_digit_first s -> no_digit_first t ->
  to_string n ++ s = to_string m ++ t -> n = m /\ s = t.
Proof.
  intros Hn Hm Hs Ht E. destruct (to_string_ok n Hn) as [Hdn _], (to_string_ok m Hm) as [Hdm _].
  destruct (digit_run _ _ _ _ Hdn Hdm Hs Ht E) as [E' ->]. by apply to_string_inj in E'.
Qed.

Lemma join_concat f l d : join (f :: l) d = f ++ concat ((fun s => d ++ s) <$> l).
Proof.
  revert f. induction l as [|g l IH]; intros f; [by rewrite app_nil_r|]. rewrite join_cons, IH by done. csimpl. by rewrite <- app_assoc.
Qed.

