(* ===== verification/Codec.v ===== *)
(** * utils/urlencode.cpp and utils/base64/base64.cpp: text codecs

    The interface [Codec] is what the users of an encoding rely on: decoding
    gives the original back on a domain of texts.  [Delimited] says which
    bytes an encoding can emit, hence which delimiters stay unambiguous. *)

From S2P Require Import Str StringUtil.

(** ** The interface *)

(** Decoding undoes encoding on [dom]. *)
Class Codec (dom : str -> Prop) (enc : str -> str) (dec : str -> option str) : Prop :=
  codec_roundtrip s : dom s -> dec (enc s) = Some s.

(** Every byte of an encoded text satisfies [ok]. *)
Class Delimited (enc : str -> str) (ok : ascii -> bool) : Prop :=
  delimited s c : c ∈ enc s -> ok c = true.

Lemma codec_inj dom enc dec `{!Codec dom enc dec} s t :
  dom s -> dom t -> enc s = enc t -> s = t.
Proof.
  intros Hs Ht He. pose proof (codec_roundtrip s Hs) as H.
  rewrite He, (codec_roundtrip t Ht) in H. congruence.
Qed.

Lemma delimited_not_in enc ok `{!Delimited enc ok} s c : ok c = false -> c ∉ enc s.
Proof. intros Hc Hin. apply delimited in Hin. congruence. Qed.

(** ** Percent encoding *)

(** src/src/utils/urlencode.cpp:5-5 [toHex] *)
Definition toHex (x : Z) : ascii := chr (if (9 <? x)%Z then x + 55 else x + 48).

(** src/src/utils/urlencode.cpp:7-18 [fromHex] *)
Definition fromHex (x : ascii) : Z :=
  if isupper x then code x - 65 + 10
  else if islower x then code x - 97 + 10
  else if isdigit x then code x - 48
  else code x.

Definition unreserved (c : ascii) : bool := isalnum c || one_of "-_.~" c.

(** src/src/utils/urlencode.cpp:20-34 [urlEncode] *)
Fixpoint urlEncode (s : str) : str :=
  match s with
  | [] => []
  | c :: s =>
      if unreserved c then c :: urlEncode s
      else "%"%char :: toHex (Z.shiftr (code c) 4) :: toHex (code c mod 16) :: urlEncode s
  end.

Definition is_crlf (c : ascii) : bool := bool_decide (c = "013"%char) || bool_decide (c = "010"%char).
Definition push_unless_crlf (c : ascii) (s : str) : str := if is_crlf c then s else c :: s.

(** src/src/utils/urlencode.cpp:36-62 [urlDecode]
    Decoding stops at a truncated escape. *)
Fixpoint urlDecode (s : str) : str :=
  match s with
  | [] => []
  | c :: r =>
      if bool_decide (c = "+"%char) then " "%char :: urlDecode r
      else if bool_decide (c = "%"%char) then
        match r with
        | h :: l :: r' =>
            if isalnum h && isalnum l then
              push_unless_crlf (chr (fromHex h * 16 + fromHex l)) (urlDecode r')
            else c :: urlDecode r
        | _ => []
        end
      else push_unless_crlf c (urlDecode r)
  end.

(** src/src/utils/urlencode.cpp:64-73 [joinArguments] *)
Definition joinArguments (args : list (str * str)) : str :=
  removelast (concat ((fun p => p.1 ++ "=" ++ urlEncode p.2 ++ "&") <$> args)).

(** ** Base64 *)

Definition base64_chars : str := "ABCDEFGHIJKLMNOPQRSTUVWXYZabcdefghijklmnopqrstuvwxyz0123456789+/".
Definition b64char (i : Z) : ascii := default "A"%char (base64_chars !! Z.to_nat i).

(** src/src/utils/base64/base64.cpp:25-28 [base64Encode, one group] *)
Definition encode_group (a b c : Z) : list Z :=
  [ Z.shiftr (Z.land a 252) 2;
    (Z.shiftl (Z.land a 3) 4 + Z.shiftr (Z.land b 240) 4)%Z;
    (Z.shiftl (Z.land b 15) 2 + Z.shiftr (Z.land c 192) 6)%Z;
    Z.land c 63 ].

(** src/src/utils/base64/base64.cpp:36-53 [base64Encode, last group] *)
Definition encode_tail (pending : list Z) : str :=
  match pending with
  | [] => []
  | _ =>
      let i := length pending in
      let at_ j := default 0%Z (pending !! j) in
      take (i + 1) (b64char <$> encode_group (at_ 0) (at_ 1) (at_ 2)) ++ replicate (3 - i) "="%char
  end.

Fixpoint encode_loop (pending : list Z) (s : str) : str :=
  match s with
  | [] => encode_tail pending
  | c :: s =>
      match pending ++ [code c] with
      | [a; b; d] => (b64char <$> encode_group a b d) ++ encode_loop [] s
      | pending => encode_loop pending s
      end
  end.

(** src/src/utils/base64/base64.cpp:10-57 [base64Encode]
    The length is cut to an [unsigned int]. *)
Definition base64Encode (s : str) : str :=
  encode_loop [] (take (Z.to_nat (u32 (Z.of_nat (length s)))) s).

(** src/src/utils/base64/base64.cpp:72-83 [base64Decode, dtable]
    Bytes outside the alphabet map to the zero-initialised entry. *)
Definition dtable (c : ascii) : Z :=
  if bool_decide (c = "-"%char) then 62
  else if bool_decide (c = "_"%char) then 63
  else Z.of_nat (default 0 (find_char c base64_chars 0)).

(** src/src/utils/base64/base64.cpp:65-83 [base64Decode, itable] *)
Definition itable (c : ascii) : Z :=
  if one_of "-_" c then 2 else if one_of base64_chars c then 1 else 0.

Definition accepted (accept_urlsafe : bool) (c : ascii) : bool :=
  if accept_urlsafe then negb (itable c =? 0)%Z else (itable c =? 1)%Z.

(** src/src/utils/base64/base64.cpp:102-104 [base64Decode, one group] *)
Definition decode_group (a b c d : Z) : list Z :=
  [ (Z.shiftl a 2 + Z.shiftr (Z.land b 48) 4)%Z;
    (Z.shiftl (Z.land b 15) 4 + Z.shiftr (Z.land c 60) 2)%Z;
    (Z.shiftl (Z.land c 3) 6 + d)%Z ].

(** src/src/utils/base64/base64.cpp:112-126 [base64Decode, last group] *)
Definition decode_tail (pending : list ascii) : str :=
  match pending with
  | [] => []
  | _ =>
      let i := length pending in
      let at_ j := dtable (default "000"%char (pending !! j)) in
      take (i - 1) (chr <$> decode_group (at_ 0) (at_ 1) (at_ 2) (at_ 3))
  end.

Fixpoint decode_loop (accept_urlsafe : bool) (pending : list ascii) (s : str) : str :=
  match s with
  | [] => decode_tail pending
  | c :: s =>
      if bool_decide (c = "="%char) then decode_tail pending
      else if negb (accepted accept_urlsafe c) then c :: decode_loop accept_urlsafe [] s
      else
        match pending ++ [c] with
        | [a; b; c; d] =>
            (chr <$> decode_group (dtable a) (dtable b) (dtable c) (dtable d)) ++
            decode_loop accept_urlsafe [] s
        | pending => decode_loop accept_urlsafe pending s
        end
  end.

(** src/src/utils/base64/base64.cpp:59-129 [base64Decode]
    A byte outside the alphabet is copied and drops the pending group. *)
Definition base64Decode (s : str) (accept_urlsafe : bool) : str := decode_loop accept_urlsafe [] s.

(** src/src/utils/base64/base64.cpp:131-134 [urlSafeBase64Reverse] *)
Definition urlSafeBase64Reverse (s : str) : option str :=
  t ← replaceAllDistinct s "-" "+"; replaceAllDistinct t "_" "/".

(** src/src/utils/base64/base64.cpp:136-139 [urlSafeBase64Apply] *)
Definition urlSafeBase64Apply (s : str) : option str :=
  t ← replaceAllDistinct s "+" "-"; u ← replaceAllDistinct t "/" "_"; replaceAllDistinct u "=" [].

(** src/src/utils/base64/base64.cpp:141-144 [urlSafeBase64Decode] *)
Definition urlSafeBase64Decode (s : str) : str := base64Decode s true.

(** src/src/utils/base64/base64.cpp:146-149 [urlSafeBase64Encode] *)
Definition urlSafeBase64Encode (s : str) : option str := urlSafeBase64Apply (base64Encode s).

(** ** Finite facts about bytes *)

Definition all_Z (n : nat) (P : Z -> bool) : bool := forallb P (seqZ 0 (Z.of_nat n)).

Lemma all_Z_spec n P : all_Z n P = true -> forall z, (0 <= z < Z.of_nat n)%Z -> P z = true.
Proof.
  unfold all_Z. rewrite forallb_forall. intros H z Hz. apply H.
  apply list_elem_of_In, elem_of_seqZ. lia.
Qed.

(** Proves a closed equation between expressions of one byte by trying all
    its values. *)
Ltac byte_cases :=
  let z := fresh "z" in let H := fresh "H" in
  intros z H; apply Z.eqb_eq; revert z H;
  match goal with |- forall z, (0 <= z < ?n)%Z -> @?P z = true =>
    refine (all_Z_spec (Z.to_nat n) P _); vm_compute; reflexivity end.

Lemma land_252 : forall z, (0 <= z < 256)%Z -> Z.shiftr (Z.land z 252) 2 = (z / 4)%Z.
Proof. byte_cases. Qed.
Lemma land_240 : forall z, (0 <= z < 256)%Z -> Z.shiftr (Z.land z 240) 4 = (z / 16)%Z.
Proof. byte_cases. Qed.
Lemma land_192 : forall z, (0 <= z < 256)%Z -> Z.shiftr (Z.land z 192) 6 = (z / 64)%Z.
Proof. byte_cases. Qed.
Lemma land_63 : forall z, (0 <= z < 256)%Z -> Z.land z 63 = (z mod 64)%Z.
Proof. byte_cases. Qed.
Lemma land_60 : forall z, (0 <= z < 64)%Z -> Z.shiftr (Z.land z 60) 2 = (z / 4)%Z.
Proof. byte_cases. Qed.
Lemma land_48 : forall z, (0 <= z < 64)%Z -> Z.shiftr (Z.land z 48) 4 = (z / 16)%Z.
Proof. byte_cases. Qed.
Lemma land_15 : forall z, (0 <= z < 256)%Z -> Z.land z 15 = (z mod 16)%Z.
Proof. byte_cases. Qed.
Lemma land_3 : forall z, (0 <= z < 256)%Z -> Z.land z 3 = (z mod 4)%Z.
Proof. byte_cases. Qed.

Lemma b64char_facts i :
  (0 <= i < 64)%Z ->
  dtable (b64char i) = i /\ b64char i ≠ "="%char /\ forall u, accepted u (b64char i) = true.
Proof.
  intros Hi.
  assert ((dtable (b64char i) =? i)%Z && negb (bool_decide (b64char i = "="%char)) &&
    accepted true (b64char i) && accepted false (b64char i) = true) as H.
  { revert i Hi. apply (all_Z_spec 64 (fun i => (dtable (b64char i) =? i)%Z &&
      negb (bool_decide (b64char i = "="%char)) &&
      accepted true (b64char i) && accepted false (b64char i))). by vm_compute. }
  bools. split_and!; [by apply Z.eqb_eq|done|by intros []].
Qed.

(** *** One base64 group *)

Lemma encode_group_range a b c q :
  (0 <= a < 256)%Z -> (0 <= b < 256)%Z -> (0 <= c < 256)%Z ->
  q ∈ encode_group a b c -> (0 <= q < 64)%Z.
Proof.
  intros Ha Hb Hc. unfold encode_group.
  rewrite land_252, land_3, land_240, land_15, land_192, land_63, !Z.shiftl_mul_pow2 by lia.
  rewrite !elem_of_cons, elem_of_nil.
  change (2 ^ 4)%Z with 16%Z. change (2 ^ 2)%Z with 4%Z.
  intros [->|[->|[->|[->|[]]]]]; divlia.
Qed.

Lemma decode_encode_group a b c :
  (0 <= a < 256)%Z -> (0 <= b < 256)%Z -> (0 <= c < 256)%Z ->
  match encode_group a b c with
  | [w; x; y; z] => decode_group w x y z = [a; b; c]
  | _ => False
  end.
Proof.
  intros Ha Hb Hc. pose proof (encode_group_range a b c) as Hr. unfold encode_group in *.
  rewrite land_252, land_3, land_240, land_15, land_192, land_63, !Z.shiftl_mul_pow2 in * by lia.
  change (2 ^ 4)%Z with 16%Z in *. change (2 ^ 2)%Z with 4%Z in *.
  pose proof (Hr _ Ha Hb Hc (list_elem_of_here _ _)) as H0.
  pose proof (Hr _ Ha Hb Hc (list_elem_of_further _ _ _ (list_elem_of_here _ _))) as H1.
  pose proof (Hr _ Ha Hb Hc (list_elem_of_further _ _ _ (list_elem_of_further _ _ _
    (list_elem_of_here _ _)))) as H2.
  unfold decode_group.
  rewrite land_48, land_60, land_15, land_3, !Z.shiftl_mul_pow2 by lia.
  change (2 ^ 4)%Z with 16%Z in *. change (2 ^ 2)%Z with 4%Z in *. change (2 ^ 6)%Z with 64%Z.
  repeat f_equal; divlia.
Qed.

(** *** The loops *)

Definition decodable (u : bool) (q : Z) : Prop :=
  dtable (b64char q) = q /\ b64char q ≠ "="%char /\ accepted u (b64char q) = true.

Lemma encode_group_decodable u a b c :
  (0 <= a < 256)%Z -> (0 <= b < 256)%Z -> (0 <= c < 256)%Z ->
  Forall (decodable u) (encode_group a b c).
Proof.
  intros Ha Hb Hc. apply Forall_forall. intros q Hq.
  destruct (b64char_facts q) as (H1&H2&H3); [by apply (encode_group_range a b c)|].
  split; [done|]. split; [done|apply H3].
Qed.

Lemma decode_loop_accept u pending c s :
  c ≠ "="%char -> accepted u c = true ->
  decode_loop u pending (c :: s) =
  match pending ++ [c] with
  | [a; b; c; d] => (chr <$> decode_group (dtable a) (dtable b) (dtable c) (dtable d)) ++ decode_loop u [] s
  | pending => decode_loop u pending s
  end.
Proof. intros Hc Ha. simpl. rewrite bool_decide_eq_false_2, Ha by done. done. Qed.

Lemma decode_loop_pad u pending s : decode_loop u pending ("="%char :: s) = decode_tail pending.
Proof. done. Qed.

#[local] Arguments decode_loop : simpl never.
#[local] Arguments encode_group : simpl never.
#[local] Arguments decode_group : simpl never.

Lemma decode_loop_group u a b c s :
  (0 <= a < 256)%Z -> (0 <= b < 256)%Z -> (0 <= c < 256)%Z ->
  decode_loop u [] ((b64char <$> encode_group a b c) ++ s) =
  chr a :: chr b :: chr c :: decode_loop u [] s.
Proof.
  intros Ha Hb Hc. pose proof (decode_encode_group a b c Ha Hb Hc) as Hd.
  pose proof (encode_group_decodable u a b c Ha Hb Hc) as Hf.
  destruct (encode_group a b c) as [|w [|x [|y [|z []]]]]; try done.
  rewrite !Forall_cons in Hf. destruct Hf as ((Hw&?&?)&(Hx&?&?)&(Hy&?&?)&(Hz&?&?)&_). csimpl.
  do 4 (rewrite decode_loop_accept by done; cbn [app]).
  by rewrite Hw, Hx, Hy, Hz, Hd.
Qed.

Lemma encode_loop_group a b c s :
  encode_loop [] (a :: b :: c :: s) =
  (b64char <$> encode_group (code a) (code b) (code c)) ++ encode_loop [] s.
Proof. done. Qed.

Lemma encode_tail_1 a : encode_tail [a] = take 2 (b64char <$> encode_group a 0 0) ++ "==".
Proof. done. Qed.

Lemma encode_tail_2 a b : encode_tail [a; b] = take 3 (b64char <$> encode_group a b 0) ++ "=".
Proof. done. Qed.

(** The last group: one or two bytes, then padding. *)
Lemma decode_encode_tail u (l : list Z) :
  length l < 3 -> Forall (fun z => (0 <= z < 256)%Z) l ->
  decode_loop u [] (encode_tail l) = chr <$> l.
Proof.
  intros Hl Hall.
  destruct l as [|a [|b [|c l]]]; [done|..|simpl in Hl; lia]; rewrite !Forall_cons in Hall;
    [destruct Hall as [Ha _]; assert (0 <= 0 < 256)%Z as Hb by done
    |destruct Hall as (Ha & Hb & _)].
  all: pose proof (decode_encode_group _ _ 0 Ha Hb ltac:(lia)) as Hd;
    pose proof (encode_group_decodable u _ _ 0 Ha Hb ltac:(lia)) as Hf;
    rewrite ?encode_tail_1, ?encode_tail_2;
    destruct (encode_group a _ 0) as [|w [|x [|y [|z []]]]]; try done;
    rewrite !Forall_cons in Hf; destruct Hf as ((Hw&?&?)&(Hx&?&?)&(Hy&?&?)&_); csimpl;
    repeat (rewrite decode_loop_accept by done; cbn [app]); rewrite decode_loop_pad; simpl; rewrite ?Hw, ?Hx, ?Hy;
    unfold decode_group in *; injection Hd as Hd1 Hd2 _; congruence.
Qed.

Lemma decode_encode_loop u n s :
  length s <= n -> decode_loop u [] (encode_loop [] s) = s.
Proof.
  revert s. induction n as [|n IH]; intros s Hn; [by destruct s; [|simpl in *; lia]|].
  destruct s as [|a [|b [|c s]]].
  - done.
  - change (encode_loop [] [a]) with (encode_tail [code a]).
    rewrite decode_encode_tail; [by csimpl; rewrite chr_code|simpl; lia|].
    repeat constructor; apply code_range.
  - change (encode_loop [] [a; b]) with (encode_tail [code a; code b]). rewrite decode_encode_tail; [by csimpl; rewrite !chr_code|simpl; lia|].
    repeat constructor; apply code_range.
  - rewrite encode_loop_group, decode_loop_group by apply code_range.
    rewrite !chr_code, IH; [done|simpl in *; lia].
Qed.

#[export] Instance base64_codec u :
  Codec (fun s => (Z.of_nat (length s) < 2 ^ 32)%Z) base64Encode (fun s => Some (base64Decode s u)).
Proof.
  intros s Hs. unfold base64Encode, base64Decode. rewrite u32_small by lia.
  rewrite Nat2Z.id, firstn_all. f_equal. by eapply decode_encode_loop.
Qed.

(** Replacing one byte acts byte by byte. *)
Lemma replace_byte s c new :
  replaceAllDistinct s [c] new = Some (s ≫= fun x => if is_char c x then new else [x]).
Proof.
  destruct (replaceAllDistinct_spec s [c] new ltac:(done)) as (fs & -> & Hall & ->). f_equal.
  assert (Hid : forall f, no_match [c] f -> (f ≫= fun x => if is_char c x then new else [x]) = f).
  { intros f Hf%no_match_char. induction f as [|x f IH]; [done|]. apply not_elem_of_cons in Hf as [Hx Hf].
    csimpl. unfold is_char at 1. rewrite bool_decide_false by done. by rewrite IH. }
  induction fs as [|f fs IH]; [done|]. apply Forall_cons in Hall as [Hf Hfs]. destruct fs as [|g fs]; [by rewrite Hid|].
  rewrite (join_cons f (g :: fs) new), (join_cons f (g :: fs) [c]), !bind_app, Hid, IH by done. f_equal. csimpl. unfold is_char.
  by rewrite bool_decide_true, app_nil_r.
Qed.

Lemma replace_byte_fmap s c d : replaceAllDistinct s [c] [d] = Some ((fun x => if is_char c x then d else x) <$> s).
Proof. rewrite replace_byte. f_equal. induction s as [|x s IH]; csimpl; [done|]. rewrite IH. by destruct (is_char c x). Qed.

(** *** The URL-safe alphabet *)

Definition urlsafe_char (c : ascii) : ascii := if is_char "+" c then "-" else if is_char "/" c then "_" else c.
Definition urlsafe_byte (c : ascii) : bool := isalnum c || one_of "-_" c.

Definition urlsafe_ok (q : Z) : bool :=
  let c := urlsafe_char (b64char q) in
  (dtable c =? q)%Z && negb (is_char "=" c) && accepted true c && urlsafe_byte c && negb (is_char "=" (b64char q)) &&
  negb (one_of "+/" c).

Lemma urlsafe_facts q : (0 <= q < 64)%Z -> urlsafe_ok q = true.
Proof. revert q. apply (all_Z_spec 64 urlsafe_ok). by vm_compute. Qed.

(** What the encoder emits: digits of the alphabet, then the padding. *)
Inductive b64_text : str -> str -> nat -> Prop :=
  | b64_end0 : b64_text [] [] 0
  | b64_end1 a b : (0 <= a < 64)%Z -> (0 <= b < 64)%Z -> b64_text [b64char a; b64char b] "==" 2
  | b64_end2 a b c : (0 <= a < 64)%Z -> (0 <= b < 64)%Z -> (0 <= c < 64)%Z ->
      b64_text [b64char a; b64char b; b64char c] "=" 3
  | b64_group a b c d body pad k :
      (0 <= a < 64)%Z -> (0 <= b < 64)%Z -> (0 <= c < 64)%Z -> (0 <= d < 64)%Z -> b64_text body pad k ->
      b64_text (b64char a :: b64char b :: b64char c :: b64char d :: body) pad k.

Lemma encode_group_b64 a b c : (0 <= a < 256)%Z -> (0 <= b < 256)%Z -> (0 <= c < 256)%Z ->
  exists w x y z, encode_group a b c = [w; x; y; z] /\
    (0 <= w < 64)%Z /\ (0 <= x < 64)%Z /\ (0 <= y < 64)%Z /\ (0 <= z < 64)%Z.
Proof.
  intros Ha Hb Hc. pose proof (encode_group_range a b c) as H. unfold encode_group in *.
  eexists _, _, _, _. split; [done|]. split_and!; apply H; try done; set_solver.
Qed.

Lemma encode_loop_b64 n s : length s <= n -> exists body pad k, encode_loop [] s = body ++ pad /\ b64_text body pad k.
Proof.
  revert s. induction n as [|n IH]; intros s Hn; [destruct s; [|simpl in *; lia]; exists [], [], 0; split; [done|constructor]|].
  destruct s as [|a [|b [|c s]]].
  - exists [], [], 0. split; [done|constructor].
  - change (encode_loop [] [a]) with (encode_tail [code a]). rewrite encode_tail_1.
    destruct (encode_group_b64 (code a) 0 0) as (w & x & y & z & -> & ? & ? & ? & ?); [apply code_range|done|done|].
    exists [b64char w; b64char x], "=="%str, 2. split; [done|by constructor].
  - change (encode_loop [] [a; b]) with (encode_tail [code a; code b]). rewrite encode_tail_2.
    destruct (encode_group_b64 (code a) (code b) 0) as (w & x & y & z & -> & ? & ? & ? & ?); [apply code_range|apply code_range|done|].
    exists [b64char w; b64char x; b64char y], "="%str, 3. split; [done|by constructor].
  - rewrite encode_loop_group.
    destruct (encode_group_b64 (code a) (code b) (code c)) as (w & x & y & z & -> & ? & ? & ? & ?); [apply code_range..|].
    destruct (IH s) as (body & pad & k & -> & Hb); [simpl in *; lia|].
    exists (b64char w :: b64char x :: b64char y :: b64char z :: body), pad, k. split; [done|by constructor].
Qed.

Definition swap_byte (c d x : ascii) : ascii := if is_char c x then d else x.

Lemma b64_urlsafe body pad k : b64_text body pad k ->
  urlSafeBase64Apply (body ++ pad) = Some (urlsafe_char <$> body).
Proof.
  intros H. unfold urlSafeBase64Apply. rewrite replace_byte_fmap. cbn [mbind option_bind]. rewrite replace_byte_fmap.
  cbn [mbind option_bind]. rewrite replace_byte. f_equal.
  set (g := fun l : str => (swap_byte "/" "_" <$> (swap_byte "+" "-" <$> l)) ≫= (fun x => if is_char "=" x then [] else [x])).
  change (g (body ++ pad) = urlsafe_char <$> body).
  assert (Hq : forall q l, (0 <= q < 64)%Z -> g (b64char q :: l) = urlsafe_char (b64char q) :: g l).
  { intros q l Hq. assert (all_Z 64 (fun q => bool_decide (g [b64char q] = [urlsafe_char (b64char q)])) = true) as Hall
      by (by vm_compute). pose proof (all_Z_spec _ _ Hall q Hq) as E. apply bool_decide_eq_true in E.
    change (b64char q :: l) with ([b64char q] ++ l). unfold g in *. by rewrite !fmap_app, bind_app, E. }
  induction H as [|a b Ha Hb|a b c Ha Hb Hc|a b c d body pad k Ha Hb Hc Hd Hbody IH];
    rewrite <- ?app_comm_cons; rewrite ?Hq by done; csimpl; [done..|by rewrite IH].
Qed.

Lemma decode_tail_2 x y : decode_tail [x; y] =
  take 1 (chr <$> decode_group (dtable x) (dtable y) (dtable "000") (dtable "000")).
Proof. done. Qed.

Lemma decode_tail_3 x y z : decode_tail [x; y; z] =
  take 2 (chr <$> decode_group (dtable x) (dtable y) (dtable z) (dtable "000")).
Proof. done. Qed.

(** Decoding reads a URL-safe digit as the digit of the standard alphabet. *)
Lemma decode_urlsafe body pad k : b64_text body pad k ->
  decode_loop true [] (urlsafe_char <$> body) = decode_loop true [] (body ++ pad).
Proof.
  assert (Hq : forall q, (0 <= q < 64)%Z -> let c := urlsafe_char (b64char q) in
    dtable c = dtable (b64char q) /\ c ≠ "="%char /\ accepted true c = true /\ b64char q ≠ "="%char /\ accepted true (b64char q) = true).
  { intros q Hq. pose proof (urlsafe_facts q Hq) as H. unfold urlsafe_ok in H. destruct (b64char_facts q Hq) as (E & Hne & Hacc).
    bools. rewrite E. repeat match goal with H : is_char _ _ = false |- _ => unfold is_char in H; apply bool_decide_eq_false in H end.
    split_and!; try done; by apply Z.eqb_eq. }
  induction 1 as [|a b Ha Hb|a b c Ha Hb Hc|a b c d body pad k Ha Hb Hc Hd Hbody IH]; [done|..];
    repeat match goal with H : (0 <= _ < 64)%Z |- _ => apply Hq in H as (? & ? & ? & ? & ?) end; csimpl;
    repeat (rewrite decode_loop_accept by done; cbn [app]).
  - rewrite decode_loop_pad. change (decode_loop true ?l []) with (decode_tail l). rewrite !decode_tail_2. congruence.
  - rewrite decode_loop_pad. change (decode_loop true ?l []) with (decode_tail l). rewrite !decode_tail_3. congruence.
  - congruence.
Qed.

(** A text in the URL-safe alphabet that decodes to [s]. *)
Lemma urlSafe_text s : (Z.of_nat (length s) < 2 ^ 32)%Z ->
  exists e, urlSafeBase64Encode s = Some e /\ urlSafeBase64Decode e = s /\
    Forall (fun c => urlsafe_byte c = true) e /\ length e mod 4 <> 1 /\ (s <> [] -> e <> []).
Proof.
  intros Hs. pose proof (codec_roundtrip (Codec := base64_codec true) s Hs) as [= Hd]. unfold urlSafeBase64Encode, urlSafeBase64Decode.
  revert Hd. unfold base64Encode. destruct (encode_loop_b64 (length s) (take (Z.to_nat (u32 (Z.of_nat (length s)))) s)) as (body & pad & k & -> & Hb);
    [rewrite length_take; lia|]. unfold base64Decode. intros Hd. exists (urlsafe_char <$> body).
  split; [by eapply b64_urlsafe|]. rewrite (decode_urlsafe body pad k Hb). split; [done|]. split; [|split].
  - clear Hd. assert (Hq : forall q, (0 <= q < 64)%Z -> urlsafe_byte (urlsafe_char (b64char q)) = true).
    { intros q Hq. pose proof (urlsafe_facts q Hq) as H. unfold urlsafe_ok in H. by bools. }
    induction Hb; csimpl; repeat (constructor; [by apply Hq|]); done.
  - clear Hd. rewrite length_fmap. induction Hb as [| | |a b c d body pad k ? ? ? ? Hb IH]; [done..|].
    cbn [length]. replace (S (S (S (S (length body))))) with (length body + 1 * 4) by lia. by rewrite Nat.Div0.mod_add.
  - intros Hne He. apply Hne. rewrite <- Hd. apply fmap_nil_inv in He as ->. inversion Hb. by subst.
Qed.

(** *** Percent encoding *)

Definition hex_pair_ok (c : ascii) : bool :=
  isalnum (toHex (Z.shiftr (code c) 4)) && isalnum (toHex (code c mod 16)) &&
  bool_decide (chr (fromHex (toHex (Z.shiftr (code c) 4)) * 16 + fromHex (toHex (code c mod 16))) = c).

Lemma hex_pair c : hex_pair_ok c = true.
Proof. apply all_bytes_spec. by vm_compute. Qed.

Definition plain_ok (c : ascii) : bool :=
  negb (unreserved c) ||
  (negb (bool_decide (c = "+"%char)) && negb (bool_decide (c = "%"%char)) && negb (is_crlf c)).

Lemma unreserved_plain c :
  unreserved c = true -> c ≠ "+"%char /\ c ≠ "%"%char /\ is_crlf c = false.
Proof.
  intros Hc. assert (plain_ok c = true) as H by (apply all_bytes_spec; by vm_compute).
  unfold plain_ok in H. rewrite Hc in H. simpl in H. by bools.
Qed.

Lemma urlEncode_app a b : urlEncode (a ++ b) = urlEncode a ++ urlEncode b.
Proof. induction a as [|c a IH]; [done|]. cbn [app urlEncode]. destruct (unreserved c); by rewrite IH. Qed.

#[export] Instance urlEncode_delimited :
  Delimited urlEncode (fun c => unreserved c || bool_decide (c = "%"%char)).
Proof.
  intros s c. induction s as [|d s IH]; simpl; [by intros ?%not_elem_of_nil|].
  destruct (unreserved d) eqn:Hd.
  - intros [->|Hc]%elem_of_cons; [by rewrite Hd|by apply IH].
  - pose proof (hex_pair d) as Hx. unfold hex_pair_ok in Hx. bools.
    rewrite !elem_of_cons. unfold unreserved. intros [->|[->|[->|Hc]]]; [done|..|by apply IH];
      by match goal with H : isalnum ?x = true |- context [isalnum ?x] => rewrite H end.
Qed.

(** ** Properties *)

(** [urlDecode] undoes [urlEncode] on every text, except that the CR and
    LF bytes it deliberately drops do not come back. *)
Theorem url_roundtrip s : urlDecode (urlEncode s) = filter (fun c => is_crlf c = false) s.
Proof.
  induction s as [|c s IH]; [done|]. rewrite filter_cons. simpl.
  destruct (unreserved c) eqn:Hc.
  - destruct (unreserved_plain c Hc) as (H1 & H2 & H3). simpl.
    rewrite !bool_decide_eq_false_2 by done. unfold push_unless_crlf. rewrite H3.
    by rewrite decide_True, IH.
  - pose proof (hex_pair c) as Hx. unfold hex_pair_ok in Hx. bools. simpl.
    repeat match goal with H : isalnum _ = true |- _ => rewrite H; clear H end. simpl.
    match goal with H : chr _ = c |- _ => rewrite H end. rewrite IH. unfold push_unless_crlf.
    case_decide as Hd; [by rewrite Hd|]. by destruct (is_crlf c).
Qed.

(** Decoding a base64 text gives the bytes back, whether or not the
    URL-safe alphabet is accepted, for every input the encoder's 32-bit
    length counter can hold; so the encoder is injective there. *)
Theorem base64_roundtrip s u :
  (Z.of_nat (length s) < 2 ^ 32)%Z -> base64Decode (base64Encode s) u = s.
Proof. intros Hs. pose proof (codec_roundtrip (Codec := base64_codec u) s Hs). congruence. Qed.

Lemma base64_roundtrip_witness :
  base64Decode (base64Encode "any carnal pleas") false = "any carnal pleas"%str /\
  base64Encode "any carnal pleas" = "YW55IGNhcm5hbCBwbGVhcw=="%str.
Proof. split; [apply base64_roundtrip; vm_compute; reflexivity|reflexivity]. Defined.
