(* ===== verification/LruCache.v ===== *)
(** * utils/concurrent_lru_cache.h: the bounded, single-flight LRU cache

    [Cache] is the state behind [mutex_]; [touch], [insert], [clear] and the
    three critical sections of [getOrCompute] are its operations.  The
    recency list holds nodes with an identity, because an [Entry] keeps an
    iterator into it.  [Spec] is the abstract cache (one list, most recent
    first); the refinement relation [refines] ties the three containers and
    the byte counter to it.  [step] interleaves the critical sections of any
    number of threads. *)

From S2P Require Import Prelude.

Section Cache.
Context {K V : Type} `{Countable K}.

(** ** State *)

(** src/src/utils/concurrent_lru_cache.h:99-103 [ConcurrentLruCache::Entry] *)
Record Entry := mkEntry {
  entry_value : V;
  entry_bytes : Z;
  entry_lru : nat            (* the node the iterator designates *)
}.

(** src/src/utils/concurrent_lru_cache.h:135-141 [ConcurrentLruCache fields] *)
Record Cache := mkCache {
  max_entries : Z;
  max_bytes : Z;
  lru : list (nat * K);      (* std::list<Key>: node identity and key *)
  entries : gmap K Entry;
  inflight : gmap K nat;     (* key to shared future *)
  bytes : Z;
  next_node : nat            (* the allocator: the next fresh list node *)
}.

(** src/src/utils/concurrent_lru_cache.h:21-22 [ConcurrentLruCache::ConcurrentLruCache] *)
Definition new_cache (entries bytes : Z) : Cache :=
  mkCache entries bytes [] ∅ ∅ 0 0.

(** [std::list::erase] and [std::list::splice] to the front, by node. *)
Definition list_erase (n : nat) (l : list (nat * K)) : list (nat * K) :=
  filter (fun x => x.1 ≠ n) l.

Definition list_splice_front (n : nat) (l : list (nat * K)) : list (nat * K) :=
  filter (fun x => x.1 = n) l ++ list_erase n l.

(** ** Operations under the lock *)

(** src/src/utils/concurrent_lru_cache.h:81-84 [ConcurrentLruCache::size] *)
Definition cache_size (c : Cache) : Z := Z.of_nat (size (entries c)).

(** src/src/utils/concurrent_lru_cache.h:91-96 [ConcurrentLruCache::clear] *)
Definition clear (c : Cache) : Cache :=
  mkCache (max_entries c) (max_bytes c) [] ∅ (inflight c) 0 (next_node c).

(** src/src/utils/concurrent_lru_cache.h:107-110 [ConcurrentLruCache::touch] *)
Definition touch (e : Entry) (c : Cache) : Cache :=
  mkCache (max_entries c) (max_bytes c) (list_splice_front (entry_lru e) (lru c))
    (entries c) (inflight c) (bytes c) (next_node c).

(** src/src/utils/concurrent_lru_cache.h:123-124 [ConcurrentLruCache::insert, loop condition] *)
Definition over_limit (c : Cache) : bool :=
  negb (bool_decide (entries c = ∅)) &&
  ((max_entries c <? cache_size c)%Z || (max_bytes c <? bytes c)%Z).

(** src/src/utils/concurrent_lru_cache.h:125-131 [ConcurrentLruCache::insert, one eviction]
    One turn of the eviction loop; [None] is [lru_.back()] on an empty list. *)
Definition evict_one (c : Cache) : option Cache :=
  '(n, k) ← last (lru c);
  Some match entries c !! k with
  | Some e =>
      mkCache (max_entries c) (max_bytes c) (removelast (lru c))
        (delete k (entries c)) (inflight c) (u64 (bytes c - entry_bytes e)) (next_node c)
  | None =>
      mkCache (max_entries c) (max_bytes c) (removelast (lru c))
        (entries c) (inflight c) (bytes c) (next_node c)
  end.

(** src/src/utils/concurrent_lru_cache.h:123-132 [ConcurrentLruCache::insert, eviction loop] *)
Fixpoint evict_loop (fuel : nat) (c : Cache) : option Cache :=
  if over_limit c then
    match fuel with
    | O => None
    | S fuel => c' ← evict_one c; evict_loop fuel c'
    end
  else Some c.

(** src/src/utils/concurrent_lru_cache.h:113-118 [ConcurrentLruCache::insert, replaced entry] *)
Definition drop_existing (k : K) (c : Cache) : Cache :=
  match entries c !! k with
  | Some e =>
      mkCache (max_entries c) (max_bytes c) (list_erase (entry_lru e) (lru c))
        (delete k (entries c)) (inflight c) (u64 (bytes c - entry_bytes e)) (next_node c)
  | None => c
  end.

(** src/src/utils/concurrent_lru_cache.h:120-122 [ConcurrentLruCache::insert, new entry] *)
Definition push_front (k : K) (v : V) (b : Z) (c : Cache) : Cache :=
  mkCache (max_entries c) (max_bytes c) ((next_node c, k) :: lru c)
    (<[k := mkEntry v b (next_node c)]> (entries c)) (inflight c)
    (u64 (bytes c + b)) (S (next_node c)).

(** src/src/utils/concurrent_lru_cache.h:112-133 [ConcurrentLruCache::insert] *)
Definition insert (k : K) (v : V) (b : Z) (c : Cache) : option Cache :=
  let c := push_front k v b (drop_existing k c) in
  evict_loop (length (lru c)) c.

(** The three ways out of the lookup section. *)
Inductive lookup_result :=
  | Hit (v : V)
  | Follower (fut : nat)
  | Owner (fut : nat).

Definition set_inflight (m : gmap K nat) (c : Cache) : Cache :=
  mkCache (max_entries c) (max_bytes c) (lru c) (entries c) m (bytes c) (next_node c).

(** src/src/utils/concurrent_lru_cache.h:38-57 [ConcurrentLruCache::getOrCompute, lookup]
    [fresh] is the shared state [std::make_shared<std::promise>] allocates. *)
Definition get_or_compute_lookup (k : K) (fresh : nat) (c : Cache) : Cache * lookup_result :=
  match entries c !! k with
  | Some e => (touch e c, Hit (entry_value e))
  | None =>
      match inflight c !! k with
      | Some f => (c, Follower f)
      | None => (set_inflight (<[k := fresh]> (inflight c)) c, Owner fresh)
      end
  end.

(** src/src/utils/concurrent_lru_cache.h:63-68 [ConcurrentLruCache::getOrCompute, store] *)
Definition get_or_compute_store (k : K) (v : V) (size_of : option Z) (c : Cache) : option Cache :=
  match size_of with
  | Some b =>
      if (b <=? max_bytes c)%Z && negb (max_entries c =? 0)%Z then insert k v b c
      else Some c
  | None => Some c
  end.

(** src/src/utils/concurrent_lru_cache.h:74-77 [ConcurrentLruCache::getOrCompute, erase] *)
Definition get_or_compute_erase (k : K) (c : Cache) : Cache :=
  set_inflight (delete k (inflight c)) c.

(** ** The abstract cache *)

(** One list, most recently used first, of keys with their value and size. *)
Local Notation spec_cache := (list (K * (V * Z))).

Definition spec_lookup (k : K) (l : spec_cache) : option (V * Z) := list_to_map (M := gmap K _) l !! k.

Definition spec_touch (k : K) (l : spec_cache) : spec_cache :=
  filter (fun x => x.1 = k) l ++ filter (fun x => x.1 ≠ k) l.

(** The longest prefix that respects both limits. *)
Fixpoint spec_fit (me mb : Z) (l : spec_cache) : spec_cache :=
  match l with
  | [] => []
  | (k, (v, b)) :: l =>
      if (1 <=? me)%Z && (b <=? mb)%Z then (k, (v, b)) :: spec_fit (me - 1) (mb - b) l
      else []
  end.

Definition spec_insert (me mb : Z) (k : K) (v : V) (b : Z) (l : spec_cache) : spec_cache :=
  spec_fit me mb ((k, (v, b)) :: filter (fun x => x.1 ≠ k) l).

Definition spec_bytes (l : spec_cache) : Z := sumZ (fun x => x.2.2) l.

(** ** The representation relation *)

Definition node_of (x : K * Entry) : nat * K := (entry_lru x.2, x.1).
Definition spec_of (x : K * Entry) : K * (V * Z) := (x.1, (entry_value x.2, entry_bytes x.2)).

(** [repr c le]: the recency list, the hash map and the byte counter of [c]
    all describe the entries [le], most recent first. *)
Record repr (c : Cache) (le : list (K * Entry)) : Prop := mkRepr {
  repr_lru : lru c = node_of <$> le;
  repr_entries : entries c = list_to_map le;
  repr_keys : NoDup le.*1;
  repr_nodes : NoDup (lru c).*1;
  repr_fresh : forall n, n ∈ (lru c).*1 -> n < next_node c;
  repr_bytes : bytes c = sumZ (fun x => entry_bytes x.2) le;
  repr_sizes : forall x, x ∈ le -> (0 <= entry_bytes x.2)%Z
}.

Definition refines (c : Cache) (l : spec_cache) : Prop :=
  exists le, repr c le /\ l = spec_of <$> le.

(** The limits every reachable cache respects. *)
Definition within_limits (c : Cache) : Prop :=
  (cache_size c <= max_entries c)%Z /\ (0 <= bytes c <= max_bytes c)%Z.

(** The limits a cache is configured with: sums of two byte counts fit in a
    [size_t]. *)
Definition config_ok (c : Cache) : Prop :=
  (0 <= max_entries c < 2 ^ 64)%Z /\ (0 <= max_bytes c < 2 ^ 63)%Z.

Lemma spec_bytes_of le : spec_bytes (spec_of <$> le) = sumZ (fun x => entry_bytes x.2) le.
Proof. unfold spec_bytes. by rewrite sumZ_fmap. Qed.

Lemma spec_fit_id me mb l :
  (forall x, x ∈ l -> (0 <= x.2.2)%Z) ->
  (Z.of_nat (length l) <= me)%Z -> (spec_bytes l <= mb)%Z -> spec_fit me mb l = l.
Proof.
  revert me mb. unfold spec_bytes.
  induction l as [|[k [v b]] l IH]; simpl; intros me mb Hnn Hl Hb; [done|].
  assert (0 <= sumZ (fun x : K * (V * Z) => x.2.2) l)%Z by (apply sumZ_nonneg; set_solver).
  rewrite sumZ_cons in Hb. simpl in Hb. rewrite IH; [|set_solver|lia|lia].
  destruct ((1 <=? me)%Z && (b <=? mb)%Z) eqn:E; [done|]. lia.
Qed.

Lemma spec_fit_removelast me mb l :
  (forall x, x ∈ l -> (0 <= x.2.2)%Z) -> l ≠ [] ->
  (me < Z.of_nat (length l))%Z \/ (mb < spec_bytes l)%Z ->
  spec_fit me mb l = spec_fit me mb (removelast l).
Proof.
  revert me mb. unfold spec_bytes.
  induction l as [|[k [v b]] l IH]; simpl; intros me mb Hnn Hne Hover; [done|].
  destruct l as [|y l].
  - rewrite sumZ_cons, sumZ_nil in Hover. simpl in *.
    destruct ((1 <=? me)%Z && (b <=? mb)%Z) eqn:E; [lia|done].
  - cbn [spec_fit removelast]. split_if; [|done]. f_equal.
    apply IH; [set_solver|done|]. rewrite sumZ_cons in Hover. simpl in *. lia.
Qed.

Lemma spec_fit_bounds me mb l :
  (0 <= me)%Z -> (0 <= mb)%Z -> (forall x, x ∈ l -> (0 <= x.2.2)%Z) ->
  (Z.of_nat (length (spec_fit me mb l)) <= me)%Z /\ (0 <= spec_bytes (spec_fit me mb l) <= mb)%Z.
Proof.
  unfold spec_bytes.
  revert me mb. induction l as [|[k [v b]] l IH]; simpl; intros me mb Hme Hmb Hnn;
    [rewrite sumZ_nil; lia|].
  pose proof (Hnn (k, (v, b)) ltac:(set_solver)) as Hb. simpl in Hb.
  split_if; [rewrite sumZ_cons; simpl|rewrite sumZ_nil; simpl; lia]. destruct (IH (me - 1)%Z (mb - b)%Z); [lia|lia|set_solver|].
  lia.
Qed.

(** *** Each operation against its abstract counterpart *)

Lemma repr_lookup c le k e : repr c le -> entries c !! k = Some e <-> (k, e) ∈ le.
Proof.
  intros R. rewrite (repr_entries _ _ R). split.
  - apply elem_of_list_to_map_2.
  - apply elem_of_list_to_map_1, R.
Qed.

Lemma repr_node_key c le k e x :
  repr c le -> (k, e) ∈ le -> x ∈ le -> entry_lru x.2 = entry_lru e <-> x.1 = k.
Proof.
  intros R Hk Hx. destruct x as [k' e']. simpl. split.
  - intros Hn. pose proof (repr_nodes _ _ R) as Hnd. rewrite (repr_lru _ _ R) in Hnd.
    rewrite <- list_fmap_compose in Hnd.
    assert ((k', e') = (k, e)) as [=]; [|done].
    apply list_elem_of_lookup in Hk as [i Hi], Hx as [j Hj].
    assert (i = j) as ->; [|congruence].
    eapply NoDup_lookup; [exact Hnd| |].
    + by rewrite list_lookup_fmap, Hi.
    + rewrite list_lookup_fmap, Hj. simpl. by rewrite Hn.
  - intros ->. assert (e' = e) as ->; [|done].
    apply (repr_lookup c) in Hk, Hx; [congruence|done..].
Qed.

Lemma repr_split c le k e :
  repr c le -> (k, e) ∈ le -> filter (fun x => x.1 = k) le = [(k, e)].
Proof.
  intros R Hin. pose proof (repr_keys _ _ R) as Hnd. clear R.
  induction le as [|[k' e'] le IH]; [by apply not_elem_of_nil in Hin|].
  csimpl in *. apply NoDup_cons in Hnd as [Hnin Hnd]. rewrite filter_cons. simpl.
  assert (forall a, (k', a) ∉ le) as Hk'.
  { intros a Ha. apply Hnin. apply (list_elem_of_fmap_2 fst) in Ha. done. }
  apply elem_of_cons in Hin as [[= -> ->]|Hin].
  - rewrite decide_True by done. f_equal.
    destruct (filter (fun x => x.1 = k') le) as [|[k a] r] eqn:Hf; [done|].
    exfalso. assert ((k, a) ∈ filter (fun x : K * Entry => x.1 = k') le) as Ha.
    { rewrite Hf. left. }
    apply list_elem_of_filter in Ha as [Hk Ha]. simpl in Hk. subst k. by destruct (Hk' a).
  - rewrite decide_False; [by apply IH|]. intros ->. by destruct (Hk' e).
Qed.

Lemma repr_key_perm c le k e :
  repr c le -> (k, e) ∈ le -> le ≡ₚ (k, e) :: filter (fun x => x.1 ≠ k) le.
Proof.
  intros R Hin. rewrite <- (filter_app_complement (fun x => x.1 = k) le) at 1.
  by rewrite (repr_split c le k e).
Qed.

(** Reordering the recency list, as [splice] does, keeps the rest coherent. *)
Lemma repr_reorder c le le' l' :
  repr c le -> le ≡ₚ le' -> l' = node_of <$> le' ->
  repr (mkCache (max_entries c) (max_bytes c) l' (entries c) (inflight c) (bytes c) (next_node c)) le'.
Proof.
  intros R Hp ->. pose proof R as []. constructor; simpl; [done|..].
  - rewrite repr_entries0. apply list_to_map_proper; [done|by rewrite Hp].
  - by rewrite <- Hp.
  - rewrite repr_lru0 in repr_nodes0. by rewrite <- Hp.
  - intros n Hn. apply repr_fresh0. rewrite repr_lru0. by rewrite Hp.
  - by rewrite <- Hp.
  - intros x Hx. apply repr_sizes0. by rewrite Hp.
Qed.

Lemma repr_size c le : repr c le -> cache_size c = Z.of_nat (length le).
Proof.
  intros R. unfold cache_size. rewrite (repr_entries _ _ R).
  f_equal. rewrite map_size_list_to_map; [done|apply R].
Qed.

Lemma repr_touch c le k e :
  repr c le -> (k, e) ∈ le ->
  repr (touch e c) (filter (fun x => x.1 = k) le ++ filter (fun x => x.1 ≠ k) le).
Proof.
  intros R Hin. eapply repr_reorder; [exact R| |].
  - symmetry. apply filter_app_complement.
  - unfold list_splice_front, list_erase. rewrite (repr_lru _ _ R), fmap_app, !filter_fmap.
    f_equal; f_equal; apply filter_ext_elem; intros x Hx; simpl;
      rewrite (repr_node_key c le k e x); done.
Qed.

Lemma repr_drop_existing c le k :
  repr c le -> (bytes c < 2 ^ 64)%Z ->
  repr (drop_existing k c) (filter (fun x => x.1 ≠ k) le).
Proof.
  intros R Hb. unfold drop_existing. destruct (entries c !! k) as [e|] eqn:He.
  - apply (repr_lookup c le) in He; [|done].
    pose proof (repr_key_perm c le k e R He) as Hp. pose proof R as [].
    assert (sumZ (fun x => entry_bytes x.2) le = entry_bytes e +
      sumZ (fun x => entry_bytes x.2) (filter (fun x => x.1 ≠ k) le))%Z as Hs.
    { by rewrite Hp at 1. }
    constructor; simpl.
    + unfold list_erase. rewrite repr_lru0, filter_fmap. f_equal.
      apply filter_ext_elem. intros x Hx. simpl. rewrite (repr_node_key c le k e x); done.
    + rewrite repr_entries0. rewrite (list_to_map_proper le _ repr_keys0 Hp). simpl.
      apply delete_insert_id. apply not_elem_of_list_to_map_1.
      intros Hk. apply list_elem_of_fmap in Hk as (y & -> & Hy).
      apply list_elem_of_filter in Hy as [Hy _]. done.
    + eapply sublist_NoDup; [exact repr_keys0|]. apply fmap_sublist, sublist_filter.
    + eapply sublist_NoDup; [exact repr_nodes0|]. apply fmap_sublist, sublist_filter.
    + intros n Hn. apply repr_fresh0. eapply elem_of_sublist; [exact Hn|].
      apply fmap_sublist, sublist_filter.
    + rewrite repr_bytes0 in *. rewrite Hs in *.
      assert (0 <= entry_bytes e)%Z by apply (repr_sizes0 (k, e) He).
      assert (0 <= sumZ (fun x => entry_bytes x.2) (filter (fun x => x.1 ≠ k) le))%Z.
      { apply sumZ_nonneg. intros x Hx. apply list_elem_of_filter in Hx as [_ Hx]. by apply repr_sizes0. }
      rewrite u64_small; lia.
    + intros x Hx. apply list_elem_of_filter in Hx as [_ Hx]. by apply repr_sizes0.
  - assert (filter (fun x => x.1 ≠ k) le = le) as ->; [|done].
    apply filter_all_id. intros [k' e'] Hx. simpl. intros ->.
    apply (repr_lookup c le) in Hx; [congruence|done].
Qed.

Lemma repr_push_front c le k v b :
  repr c le -> k ∉ le.*1 -> (0 <= b)%Z -> (bytes c + b < 2 ^ 64)%Z ->
  repr (push_front k v b c) ((k, mkEntry v b (next_node c)) :: le).
Proof.
  intros R Hk Hb Hsum. destruct R as [Hlru Hent Hkeys Hnodes Hfresh Hbytes Hsizes].
  constructor; unfold push_front; simpl.
  - by rewrite Hlru.
  - by rewrite Hent.
  - by apply NoDup_cons.
  - apply NoDup_cons. split; [|done]. intros Hn%Hfresh. lia.
  - intros n [->|Hn%Hfresh]%elem_of_cons; lia.
  - rewrite sumZ_cons, <- Hbytes. simpl. rewrite u64_small; [lia|].
    rewrite Hbytes in *. pose proof (sumZ_nonneg _ le Hsizes). simpl in *. lia.
  - intros x [->|Hx]%elem_of_cons; [done|by apply Hsizes].
Qed.

Lemma repr_evict_one c le :
  repr c le -> le ≠ [] -> (bytes c < 2 ^ 64)%Z ->
  exists c', evict_one c = Some c' /\ repr c' (removelast le) /\
    max_entries c' = max_entries c /\ max_bytes c' = max_bytes c /\
    inflight c' = inflight c /\ next_node c' = next_node c.
Proof.
  intros R Hne Hb. destruct (exists_last Hne) as (le0 & [k e] & ->).
  pose proof (proj2 (repr_lookup c _ k e R) ltac:(set_solver)) as Hlook.
  destruct R as [Hlru Hent Hkeys Hnodes Hfresh Hbytes Hsizes].
  unfold evict_one. rewrite Hlru, last_fmap, last_snoc. simpl. rewrite Hlook.
  eexists. split; [done|]. simpl. split; [|done].
  rewrite !fmap_app in *. simpl in *. rewrite !removelast_snoc.
  rewrite Hlru in Hnodes, Hfresh. rewrite !fmap_app in *. simpl in *.
  apply NoDup_app in Hkeys as (Hkeys & Hk & _), Hnodes as (Hnodes & _ & _).
  rewrite sumZ_app, sumZ_cons, sumZ_nil in Hbytes. simpl in Hbytes.
  assert (k ∉ le0.*1) as Hk0 by (intros ?%Hk; set_solver).
  assert (forall x, x ∈ le0 -> (0 <= entry_bytes x.2)%Z) as Hnn.
  { intros x Hx. apply Hsizes. by apply elem_of_app; left. }
  pose proof (Hsizes (k, e) ltac:(set_solver)) as He. simpl in He.
  pose proof (sumZ_nonneg _ le0 Hnn).
  constructor; simpl; rewrite ?removelast_snoc; try done.
  - rewrite Hent, list_to_map_snoc by done. apply delete_insert_id.
    by apply not_elem_of_list_to_map_1.
  - intros n Hn. apply Hfresh. by apply elem_of_app; left.
  - rewrite u64_small; simpl in *; lia.
Qed.

Lemma over_limit_spec c le :
  repr c le ->
  over_limit c = true <->
  le ≠ [] /\ ((max_entries c < Z.of_nat (length le))%Z \/
             (max_bytes c < sumZ (fun x => entry_bytes x.2) le)%Z).
Proof.
  intros R. unfold over_limit. rewrite (repr_size c le R), <- (repr_bytes _ _ R).
  assert (entries c = ∅ <-> le = []) as He.
  { rewrite (repr_entries _ _ R). split; [|by intros ->].
    destruct le as [|[k e] le]; [done|]. simpl. intros Hx. by apply insert_non_empty in Hx. }
  rewrite andb_true_iff, negb_true_iff, bool_decide_eq_false, orb_true_iff, !Z.ltb_lt, He.
  done.
Qed.

Lemma not_over_fit c le :
  repr c le -> config_ok c -> over_limit c = false ->
  spec_fit (max_entries c) (max_bytes c) (spec_of <$> le) = spec_of <$> le.
Proof.
  intros R [? ?] Ho. destruct le as [|x le]; [done|].
  apply not_true_iff_false in Ho. rewrite (over_limit_spec c _ R) in Ho.
  apply spec_fit_id.
  - intros y Hy. apply list_elem_of_fmap in Hy as (z & -> & Hz). by apply (repr_sizes _ _ R) in Hz.
  - rewrite length_fmap. apply Z.nlt_ge. intros Hlt. apply Ho. auto.
  - rewrite spec_bytes_of. apply Z.nlt_ge. intros Hlt. apply Ho. auto.
Qed.

Lemma over_fit c le :
  repr c le -> over_limit c = true ->
  spec_fit (max_entries c) (max_bytes c) (spec_of <$> le) =
  spec_fit (max_entries c) (max_bytes c) (spec_of <$> removelast le).
Proof.
  intros R Ho. apply (over_limit_spec c le R) in Ho as [Hne Ho].
  destruct (exists_last Hne) as (le0 & x & ->). rewrite removelast_snoc.
  rewrite spec_fit_removelast.
  - rewrite fmap_app. simpl. by rewrite removelast_snoc.
  - intros y Hy. apply list_elem_of_fmap in Hy as (z & -> & Hz). by apply (repr_sizes _ _ R) in Hz.
  - rewrite fmap_app. by destruct (spec_of <$> le0).
  - by rewrite length_fmap, spec_bytes_of.
Qed.

(** The eviction loop always terminates, within one turn per entry, and
    leaves exactly the longest prefix that fits. *)
Lemma evict_loop_refines fuel c le :
  repr c le -> config_ok c -> length le <= fuel -> (bytes c < 2 ^ 64)%Z ->
  exists c' le', evict_loop fuel c = Some c' /\ repr c' le' /\
    spec_of <$> le' = spec_fit (max_entries c) (max_bytes c) (spec_of <$> le) /\
    max_entries c' = max_entries c /\ max_bytes c' = max_bytes c /\
    inflight c' = inflight c /\ next_node c <= next_node c'.
Proof.
  revert c le. induction fuel as [|fuel IH]; intros c le R Hc Hf Hb; simpl;
    destruct (over_limit c) eqn:Ho;
    try (exists c, le; rewrite (not_over_fit c le R Hc Ho); by split_and!).
  - apply (over_limit_spec c le R) in Ho as [Hne _]. destruct le; [done|simpl in *; lia].
  - pose proof Ho as [Hne _]%(over_limit_spec c le R).
    destruct (repr_evict_one c le R Hne Hb) as (c1 & -> & R1 & Eme & Emb & Efl & Enn). simpl.
    assert (length (removelast le) <= fuel /\ (bytes c1 <= bytes c)%Z) as [Hl Hb1].
    { destruct (exists_last Hne) as (le0 & x & ->). rewrite removelast_snoc in *.
      rewrite length_app in Hf. simpl in Hf. split; [lia|].
      rewrite (repr_bytes _ _ R), (repr_bytes _ _ R1), sumZ_app.
      pose proof (repr_sizes _ _ R x ltac:(set_solver)). rewrite sumZ_cons, sumZ_nil. simpl. lia. }
    destruct (IH c1 _ R1) as (c' & le' & Hev & R' & Hsp & ? & ? & ? & ?); [|lia|lia|].
    { unfold config_ok in *. by rewrite Eme, Emb. }
    exists c', le'. rewrite (over_fit c le R Ho), Hsp, <- Eme, <- Emb.
    split_and!; try done; try congruence; lia.
Qed.

Lemma repr_insert c le k v b :
  repr c le -> config_ok c -> within_limits c -> (0 <= b <= max_bytes c)%Z ->
  exists c' le', insert k v b c = Some c' /\ repr c' le' /\
    spec_of <$> le' = spec_insert (max_entries c) (max_bytes c) k v b (spec_of <$> le) /\
    max_entries c' = max_entries c /\ max_bytes c' = max_bytes c /\
    inflight c' = inflight c.
Proof.
  intros R Hc [_ Hl] Hb. unfold insert.
  assert (max_entries (drop_existing k c) = max_entries c /\
          max_bytes (drop_existing k c) = max_bytes c /\
          inflight (drop_existing k c) = inflight c) as (E1 & E2 & E3).
  { unfold drop_existing. by destruct (entries c !! k). }
  assert (repr (drop_existing k c) (filter (fun x => x.1 ≠ k) le)) as R1.
  { apply repr_drop_existing; [done|]. destruct Hc. lia. }
  assert (bytes (drop_existing k c) <= bytes c)%Z as Hb1.
  { rewrite (repr_bytes _ _ R), (repr_bytes _ _ R1).
    rewrite <- (filter_app_complement (fun x => x.1 = k) le) at 2. rewrite sumZ_app.
    pose proof (sumZ_nonneg (fun x : K * Entry => entry_bytes x.2) (filter (fun x => x.1 = k) le)) as Hs.
    specialize (Hs ltac:(intros x Hx; apply list_elem_of_filter in Hx as [_ Hx]; by apply (repr_sizes _ _ R))).
    lia. }
  assert (k ∉ (filter (fun x : K * Entry => x.1 ≠ k) le).*1) as Hk.
  { intros Hk. apply list_elem_of_fmap in Hk as (x & -> & Hx).
    by apply list_elem_of_filter in Hx as [? _]. }
  assert (R2 := repr_push_front _ _ k v b R1 Hk ltac:(lia) ltac:(unfold config_ok in Hc; lia)).
  set (c2 := push_front k v b (drop_existing k c)) in *.
  assert (length (lru c2) = length ((k, mkEntry v b (next_node (drop_existing k c))) ::
    filter (fun x : K * Entry => x.1 ≠ k) le)) as Hlen.
  { rewrite (repr_lru _ _ R2). by rewrite length_fmap. }
  destruct (evict_loop_refines (length (lru c2)) c2 _ R2) as (c' & le' & Hev & R' & Hsp & ? & ? & ? & _).
  - unfold config_ok, c2 in *. simpl. by rewrite E1, E2.
  - by rewrite Hlen.
  - unfold c2. simpl. apply u64_range.
  - exists c', le'. split; [done|]. split; [done|].
    split; [|unfold c2 in *; simpl in *; repeat split; congruence].
    rewrite Hsp. unfold spec_insert. rewrite filter_fmap.
    unfold c2. simpl. by rewrite E1, E2.
Qed.

(** The invariant every operation under the lock keeps. *)
Definition cache_ok (c : Cache) : Prop :=
  config_ok c /\ within_limits c /\ exists l, refines c l.

Lemma insert_ok c k v b :
  cache_ok c -> (0 <= b <= max_bytes c)%Z ->
  exists c', insert k v b c = Some c' /\ cache_ok c' /\ inflight c' = inflight c.
Proof.
  intros (Hc & Hl & l & le & R & ->) Hb.
  destruct (repr_insert c le k v b R Hc Hl Hb) as (c' & le' & Hi & R' & Hsp & E1 & E2 & E3).
  exists c'. split; [done|]. split; [|done].
  destruct (spec_fit_bounds (max_entries c) (max_bytes c)
    ((k, (v, b)) :: filter (fun x => x.1 ≠ k) (spec_of <$> le))) as [B1 B2].
  - destruct Hc. lia.
  - destruct Hc. lia.
  - intros x [->|Hx]%elem_of_cons; [simpl; lia|].
    apply list_elem_of_filter in Hx as [_ Hx].
    apply list_elem_of_fmap in Hx as (y & -> & Hy). by apply (repr_sizes _ _ R) in Hy.
  - change (spec_fit _ _ (_ :: _)) with
      (spec_insert (max_entries c) (max_bytes c) k v b (spec_of <$> le)) in B1, B2.
    rewrite <- Hsp in B1, B2. rewrite length_fmap in B1. rewrite spec_bytes_of in B2.
    split_and!.
    + unfold config_ok. by rewrite E1, E2.
    + unfold within_limits. rewrite (repr_size _ _ R'), (repr_bytes _ _ R'), E1, E2. done.
    + by exists (spec_of <$> le'), le'.
Qed.

Lemma touch_ok c k e :
  cache_ok c -> entries c !! k = Some e -> cache_ok (touch e c).
Proof.
  intros (Hc & Hl & l & le & R & ->) He. split; [done|]. split; [done|].
  apply (repr_lookup c le) in He; [|done]. eexists _, _. split; [by apply repr_touch|done].
Qed.

Lemma repr_set_inflight m c le : repr c le -> repr (set_inflight m c) le.
Proof. intros []. by constructor. Qed.

Lemma set_inflight_ok m c : cache_ok c -> cache_ok (set_inflight m c).
Proof.
  intros (Hc & Hl & l & le & R & ->). split; [done|]. split; [done|].
  exists (spec_of <$> le), le. split; [by apply repr_set_inflight|done].
Qed.

Lemma empty_ok me mb m n :
  (0 <= me < 2 ^ 64)%Z -> (0 <= mb < 2 ^ 63)%Z -> cache_ok (mkCache me mb [] ∅ m 0 n).
Proof.
  intros ? ?. split; [done|]. split.
  - unfold within_limits, cache_size. simpl. rewrite map_size_empty. lia.
  - exists [], []. split; [|done]. constructor; simpl; try done; try constructor; set_solver.
Qed.

Lemma clear_ok c : cache_ok c -> cache_ok (clear c).
Proof. intros ([? ?] & _). by apply empty_ok. Qed.

Lemma lookup_ok k f c : cache_ok c -> cache_ok (get_or_compute_lookup k f c).1.
Proof.
  intros Hc. unfold get_or_compute_lookup. destruct (entries c !! k) eqn:He; simpl.
  - by eapply touch_ok.
  - destruct (inflight c !! k); simpl; [done|by apply set_inflight_ok].
Qed.

(** ** Threads

    [getOrCompute] is a sequence of critical sections separated by code that
    runs without the lock; a thread's [phase] is where it stands.  The
    computation itself is the caller's: [produces k r] says that computing
    [k] may end with [r], a value with the size [size_of] reports, or an
    exception. *)

Inductive outcome :=
  | Value (v : V)
  | Throws.

Inductive phase :=
  | Computing (k : K) (fut : nat)               (* owner, in the try block *)
  | Computed (k : K) (fut : nat) (r : outcome)  (* owner, promise not set yet *)
  | Published (k : K) (fut : nat)               (* owner, entry still in flight *)
  | Waiting (k : K) (fut : nat)                 (* in future.get() *)
  | Done (k : K) (r : outcome).                 (* returned or rethrew *)

Record Sys := mkSys {
  cache : Cache;
  futures : gmap nat (option outcome);          (* None: the promise is not set *)
  threads : gmap nat phase
}.

Context (produces : K -> outcome -> option Z -> Prop).
Context (sizes_nonneg : forall k v b, produces k (Value v) (Some b) -> (0 <= b)%Z).

(** src/src/utils/concurrent_lru_cache.h:27-79 [ConcurrentLruCache::getOrCompute] *)
Inductive step : Sys -> Sys -> Prop :=
  | step_hit t k v fresh c c' fs ts :
      ts !! t = None ->
      get_or_compute_lookup k fresh c = (c', Hit v) ->
      step (mkSys c fs ts) (mkSys c' fs (<[t := Done k (Value v)]> ts))
  | step_follow t k f fresh c c' fs ts :
      ts !! t = None ->
      get_or_compute_lookup k fresh c = (c', Follower f) ->
      step (mkSys c fs ts) (mkSys c' fs (<[t := Waiting k f]> ts))
  | step_own t k f fresh c c' fs ts :
      ts !! t = None -> fs !! fresh = None ->
      get_or_compute_lookup k fresh c = (c', Owner f) ->
      step (mkSys c fs ts) (mkSys c' (<[f := None]> fs) (<[t := Computing k f]> ts))
  | step_store t k f v b c c' fs ts :
      ts !! t = Some (Computing k f) -> produces k (Value v) b ->
      get_or_compute_store k v b c = Some c' ->
      step (mkSys c fs ts) (mkSys c' fs (<[t := Computed k f (Value v)]> ts))
  | step_throw t k f b c fs ts :
      ts !! t = Some (Computing k f) -> produces k Throws b ->
      step (mkSys c fs ts) (mkSys c fs (<[t := Computed k f Throws]> ts))
  | step_set t k f r c fs ts :
      ts !! t = Some (Computed k f r) ->
      step (mkSys c fs ts) (mkSys c (<[f := Some r]> fs) (<[t := Published k f]> ts))
  | step_erase t k f c fs ts :
      ts !! t = Some (Published k f) ->
      step (mkSys c fs ts) (mkSys (get_or_compute_erase k c) fs (<[t := Waiting k f]> ts))
  | step_get t k f r c fs ts :
      ts !! t = Some (Waiting k f) -> fs !! f = Some (Some r) ->
      step (mkSys c fs ts) (mkSys c fs (<[t := Done k r]> ts))
  | step_uncached t k r b c fs ts :
      ts !! t = None -> produces k r b ->
      step (mkSys c fs ts) (mkSys c fs (<[t := Done k r]> ts))
  | step_clear c fs ts :
      step (mkSys c fs ts) (mkSys (clear c) fs ts).

Definition init (me mb : Z) : Sys := mkSys (new_cache me mb) ∅ ∅.

Definition reachable (me mb : Z) (s : Sys) : Prop := rtc step (init me mb) s.

(** The key and future a thread owns, from the lookup to the erase. *)
Definition owns (p : phase) : option (K * nat) :=
  match p with
  | Computing k f | Computed k f _ | Published k f => Some (k, f)
  | _ => None
  end.

Definition can_produce (k : K) (r : outcome) : Prop := exists b, produces k r b.

Definition resolved (fs : gmap nat (option outcome)) (k : K) (f : nat) : Prop :=
  exists r, fs !! f = Some (Some r) /\ can_produce k r.

(** What a thread in phase [p] relies on. *)
Definition thread_ok (fl : gmap K nat) (fs : gmap nat (option outcome)) (p : phase) : Prop :=
  match p with
  | Computing k f => fl !! k = Some f /\ fs !! f = Some None
  | Computed k f r => fl !! k = Some f /\ fs !! f = Some None /\ can_produce k r
  | Published k f => fl !! k = Some f /\ resolved fs k f
  | Waiting k f => resolved fs k f \/ (fl !! k = Some f /\ fs !! f = Some None)
  | Done k r => can_produce k r
  end.

Record sys_ok (s : Sys) : Prop := mkSysOk {
  ok_cache : cache_ok (cache s);
  ok_values : forall k e, entries (cache s) !! k = Some e -> can_produce k (Value (entry_value e));
  ok_threads : forall t p, threads s !! t = Some p -> thread_ok (inflight (cache s)) (futures s) p;
  ok_unique : forall t1 t2 p1 p2 k f1 f2,
    threads s !! t1 = Some p1 -> threads s !! t2 = Some p2 ->
    owns p1 = Some (k, f1) -> owns p2 = Some (k, f2) -> t1 = t2;
  ok_inj : forall k1 k2 f, inflight (cache s) !! k1 = Some f ->
    inflight (cache s) !! k2 = Some f -> k1 = k2;
  ok_owner : forall k f, inflight (cache s) !! k = Some f ->
    exists t p, threads s !! t = Some p /\ owns p = Some (k, f);
  ok_future : forall k f, inflight (cache s) !! k = Some f -> is_Some (futures s !! f)
}.

Lemma thread_ok_owns fl fs p k f : thread_ok fl fs p -> owns p = Some (k, f) -> fl !! k = Some f.
Proof. destruct p; naive_solver. Qed.

(** A step that leaves the futures and the in-flight table alone and keeps
    what the acting thread owns. *)
Lemma sys_ok_local c c' fs ts t p :
  sys_ok (mkSys c fs ts) -> cache_ok c' -> inflight c' = inflight c ->
  (forall k e, entries c' !! k = Some e -> can_produce k (Value (entry_value e))) ->
  (ts !! t) ≫= owns = owns p -> thread_ok (inflight c) fs p ->
  sys_ok (mkSys c' fs (<[t := p]> ts)).
Proof.
  intros [Hc Hv Ht Hu Hi Ho Hf] Hc' Hfl Hv' Hown Hp. simpl in *.
  constructor; simpl; rewrite ?Hfl; try done.
  - intros t' p' [[<- <-]|[? ?]]%lookup_insert_Some; eauto.
  - intros t1 t2 p1 p2 k f1 f2 H1 H2 O1 O2.
    assert (forall t' p', <[t:=p]> ts !! t' = Some p' -> owns p' ≠ None ->
      exists p'', ts !! t' = Some p'' /\ owns p'' = owns p') as Hback.
    { intros t' p' [[<- <-]|[? ?]]%lookup_insert_Some Hne; [|by eauto].
      destruct (ts !! t) as [q|]; simpl in *; [by eauto|congruence]. }
    destruct (Hback _ _ H1) as (q1 & ? & E1); [congruence|].
    destruct (Hback _ _ H2) as (q2 & ? & E2); [congruence|].
    eapply Hu; [done..| |]; [by rewrite E1|by rewrite E2].
  - intros k f Hk. destruct (Ho k f Hk) as (t' & q & Hq & Eq).
    destruct (decide (t' = t)) as [->|Hne].
    + exists t, p. rewrite lookup_insert_eq. split; [done|].
      rewrite Hq in Hown. simpl in Hown. congruence.
    + exists t', q. by rewrite lookup_insert_ne.
Qed.

Lemma entries_insert_values k v b c c' (P : K -> V -> Prop) :
  insert k v b c = Some c' ->
  (forall k' e, entries c !! k' = Some e -> P k' (entry_value e)) -> P k v ->
  forall k' e, entries c' !! k' = Some e -> P k' (entry_value e).
Proof.
  intros Hi Hold Hnew.
  assert (forall fuel c1 c2, evict_loop fuel c1 = Some c2 ->
    (forall k' e, entries c1 !! k' = Some e -> P k' (entry_value e)) ->
    forall k' e, entries c2 !! k' = Some e -> P k' (entry_value e)) as Hloop.
  { induction fuel as [|fuel IH]; intros c1 c2; simpl; destruct (over_limit c1); try by intros [= <-].
    intros (c3 & E & Hev)%bind_Some H1. eapply IH; [exact Hev|]. intros k' e.
    unfold evict_one in E.
    destruct (last (lru c1)) as [[n k0]|]; simpl in E; [|done].
    destruct (entries c1 !! k0); injection E as <-; simpl; [|apply H1].
    intros [_ Hk]%lookup_delete_Some. by apply H1. }
  eapply Hloop; [exact Hi|]. intros k' e. unfold push_front, drop_existing. simpl.
  intros [[<- <-]|[Hne Hk]]%lookup_insert_Some; [done|].
  destruct (entries c !! k); simpl in Hk; [|by apply Hold].
  apply lookup_delete_Some in Hk as [_ Hk]. by apply Hold.
Qed.

Lemma sys_ok_own c fs ts t k f :
  sys_ok (mkSys c fs ts) -> ts !! t = None -> fs !! f = None -> inflight c !! k = None ->
  sys_ok (mkSys (set_inflight (<[k := f]> (inflight c)) c) (<[f := None]> fs)
    (<[t := Computing k f]> ts)).
Proof.
  intros [Hc Hv Ht Hu Hi Ho Hf] Hnt Hnf Hnk. simpl in *.
  assert (forall k', inflight c !! k' ≠ Some f) as Hfresh.
  { intros k' Hk'. apply Hf in Hk' as [? ?]. congruence. }
  assert (forall k' g, resolved fs k' g -> g ≠ f) as Hres.
  { intros k' g (r & Hr & _) ->. congruence. }
  constructor; simpl; try done.
  - by apply set_inflight_ok.
  - intros t' p [[<- <-]|[Hne Hp]]%lookup_insert_Some.
    { simpl. by rewrite !lookup_insert_eq. }
    specialize (Ht t' p Hp). destruct p as [k' g|k' g r|k' g|k' g|k' r]; simpl in *; try done.
    + destruct Ht as [H1 H2]. rewrite !lookup_insert_ne by congruence. done.
    + destruct Ht as (H1 & H2 & H3). rewrite !lookup_insert_ne by congruence. done.
    + destruct Ht as [H1 H2]. rewrite lookup_insert_ne by congruence. split; [done|].
      unfold resolved. rewrite lookup_insert_ne; [done|]. apply not_eq_sym. by eapply Hres.
    + destruct Ht as [H1|[H1 H2]]; [left|right].
      * unfold resolved. rewrite lookup_insert_ne; [done|]. apply not_eq_sym. by eapply Hres.
      * rewrite !lookup_insert_ne by congruence. done.
  - assert (forall t' p k' g, ts !! t' = Some p -> owns p = Some (k', g) -> k' ≠ k) as Hko.
    { intros t' p k' g Hp Hown ->. pose proof (thread_ok_owns _ _ _ _ _ (Ht _ _ Hp) Hown).
      congruence. }
    intros t1 t2 p1 p2 k0 f1 f2 [[<- <-]|[? H1]]%lookup_insert_Some
      [[<- <-]|[? H2]]%lookup_insert_Some O1 O2; simpl in *; try done.
    + injection O1 as <- <-. by destruct (Hko _ _ _ _ H2 O2).
    + injection O2 as <- <-. by destruct (Hko _ _ _ _ H1 O1).
    + by eapply Hu.
  - intros k1 k2 g [[<- <-]|[? H1]]%lookup_insert_Some [[<- ?]|[? H2]]%lookup_insert_Some;
      try done; [by destruct (Hfresh k2)|subst; by destruct (Hfresh k1)|by eapply Hi].
  - intros k' g [[<- <-]|[Hne Hk]]%lookup_insert_Some.
    + exists t, (Computing k f). by rewrite lookup_insert_eq.
    + destruct (Ho _ _ Hk) as (t' & p & Hp & Hown). exists t', p.
      rewrite lookup_insert_ne; [done|congruence].
  - intros k' g [[<- <-]|[Hne Hk]]%lookup_insert_Some; [by rewrite lookup_insert_eq|].
    rewrite lookup_insert_ne; [by eapply Hf|]. intros ->. by apply (Hfresh k').
Qed.

Lemma sys_ok_set c fs ts t k f r :
  sys_ok (mkSys c fs ts) -> ts !! t = Some (Computed k f r) ->
  sys_ok (mkSys c (<[f := Some r]> fs) (<[t := Published k f]> ts)).
Proof.
  intros [Hc Hv Ht Hu Hi Ho Hf] Hp. simpl in *.
  destruct (Ht _ _ Hp) as (Hk & Hfs & Hr).
  assert (resolved (<[f:=Some r]> fs) k f) as Hres.
  { exists r. by rewrite lookup_insert_eq. }
  assert (forall k' g, resolved fs k' g -> resolved (<[f:=Some r]> fs) k' g) as Hmono.
  { intros k' g (r' & Hr' & ?). exists r'. rewrite lookup_insert_ne; [done|congruence]. }
  constructor; simpl; try done.
  - intros t' p [[<- <-]|[Hne Hp']]%lookup_insert_Some; [done|].
    pose proof (Ht t' p Hp') as Hok.
    destruct p as [k' g|k' g r'|k' g|k' g|k' r']; simpl in *; try done.
    + destruct Hok as [H1 H2]. split; [done|]. rewrite lookup_insert_ne; [done|]. intros ->.
      assert (k' = k) as -> by by eapply Hi. apply Hne. by eapply (Hu t t').
    + destruct Hok as (H1 & H2 & H3). split; [done|]. rewrite lookup_insert_ne; [done|]. intros ->.
      assert (k' = k) as -> by by eapply Hi. apply Hne. by eapply (Hu t t').
    + naive_solver.
    + destruct Hok as [H1|[H1 H2]]; [by left; apply Hmono|].
      destruct (decide (g = f)) as [->|Hgf].
      * left. by assert (k' = k) as -> by by eapply Hi.
      * right. by rewrite lookup_insert_ne.
  - assert (forall t' p', <[t:=Published k f]> ts !! t' = Some p' -> exists p'',
      ts !! t' = Some p'' /\ owns p'' = owns p') as Hback.
    { intros t' p' [[<- <-]|[? ?]]%lookup_insert_Some; eauto. }
    intros t1 t2 p1 p2 k0 f1 f2 (q1 & ? & <-)%Hback (q2 & ? & <-)%Hback. by apply Hu.
  - intros k' g Hk'. destruct (Ho _ _ Hk') as (t' & p & Hp' & Hown).
    destruct (decide (t' = t)) as [->|Hne].
    + exists t, (Published k f). rewrite lookup_insert_eq. split; [done|].
      rewrite Hp in Hp'. injection Hp' as <-. done.
    + exists t', p. by rewrite lookup_insert_ne.
  - intros k' g Hk'. destruct (decide (g = f)) as [->|].
    + by rewrite lookup_insert_eq.
    + rewrite lookup_insert_ne; [by eapply Hf|done].
Qed.

Lemma sys_ok_erase c fs ts t k f :
  sys_ok (mkSys c fs ts) -> ts !! t = Some (Published k f) ->
  sys_ok (mkSys (get_or_compute_erase k c) fs (<[t := Waiting k f]> ts)).
Proof.
  intros [Hc Hv Ht Hu Hi Ho Hf] Hp. simpl in *. destruct (Ht _ _ Hp) as (Hk & Hres).
  assert (forall t' p k' g, t ≠ t' -> ts !! t' = Some p -> owns p = Some (k', g) -> k ≠ k') as Hko.
  { intros t' p k' g Hne Hp' Hown <-. apply Hne. by eapply (Hu t t'). }
  assert (forall k' g, <[t:=Waiting k f]> ts !! k' = Some g -> g = Waiting k f \/
    (t ≠ k' /\ ts !! k' = Some g)) as Hback.
  { intros k' g [[<- <-]|[? ?]]%lookup_insert_Some; auto. }
  unfold get_or_compute_erase. constructor; simpl; try done.
  - by apply set_inflight_ok.
  - intros t' p [->|[Hne Hp']]%Hback; [by left|].
    pose proof (Ht t' p Hp') as Hok.
    destruct p as [k' g|k' g r'|k' g|k' g|k' r']; simpl in *; try done.
    + rewrite lookup_delete_ne; [done|by eapply Hko].
    + rewrite lookup_delete_ne; [done|by eapply Hko].
    + rewrite lookup_delete_ne; [done|by eapply Hko].
    + destruct Hok as [H1|[H1 H2]]; [by left|]. right. rewrite lookup_delete_ne; [done|].
      intros <-. rewrite Hk in H1. injection H1 as <-. destruct Hres as (r & ? & _). congruence.
  - intros t1 t2 p1 p2 k0 f1 f2 [->|[? ?]]%Hback [->|[? ?]]%Hback; try done. by apply Hu.
  - intros k1 k2 g [_ ?]%lookup_delete_Some [_ ?]%lookup_delete_Some. by eapply Hi.
  - intros k' g [Hne Hk']%lookup_delete_Some. destruct (Ho _ _ Hk') as (t' & p & Hp' & Hown).
    exists t', p. rewrite lookup_insert_ne; [done|]. intros <-. rewrite Hp in Hp'.
    injection Hp' as <-. simpl in Hown. congruence.
  - intros k' g [_ Hk']%lookup_delete_Some. by eapply Hf.
Qed.

Lemma lookup_entries k f c : entries (get_or_compute_lookup k f c).1 = entries c.
Proof. unfold get_or_compute_lookup. destruct (entries c !! k), (inflight c !! k); done. Qed.

Lemma store_ok k v b c c' :
  cache_ok c -> produces k (Value v) b -> get_or_compute_store k v b c = Some c' ->
  (forall k e, entries c !! k = Some e -> can_produce k (Value (entry_value e))) ->
  cache_ok c' /\ inflight c' = inflight c /\
  (forall k e, entries c' !! k = Some e -> can_produce k (Value (entry_value e))).
Proof.
  intros Hc Hpr Hst Hv. unfold get_or_compute_store in Hst. destruct b as [b|]; [|by injection Hst as <-].
  split_if_in Hst; [|by injection Hst as <-]. bools.
  pose proof (sizes_nonneg _ _ _ Hpr).
  destruct (insert_ok c k v b Hc ltac:(lia)) as (c'' & Hi & Hc'' & Hfl).
  rewrite Hst in Hi. injection Hi as <-. split_and!; [done..|].
  apply (entries_insert_values k v b c c' (fun k v => can_produce k (Value v))); [done..|by exists (Some b)].
Qed.

Lemma step_ok s s' : sys_ok s -> step s s' -> sys_ok s'.
Proof.
  intros Hs Hstep. pose proof Hs as [Hc Hv Ht Hu Hi Ho Hf].
  destruct Hstep as [t k v fresh c c' fs ts Hn Hl|t k f fresh c c' fs ts Hn Hl
    |t k f fresh c c' fs ts Hn Hfr Hl|t k f v b c c' fs ts Hp Hpr Hst|t k f b c fs ts Hp Hpr
    |t k f r c fs ts Hp|t k f c fs ts Hp|t k f r c fs ts Hp Hr|t k r b c fs ts Hn Hpr|c fs ts]; simpl in *.
  - pose proof (lookup_ok k fresh c Hc) as Hok. rewrite Hl in Hok.
    pose proof (lookup_entries k fresh c) as Hent. rewrite Hl in Hent. simpl in Hent.
    unfold get_or_compute_lookup in Hl. destruct (entries c !! k) as [e|] eqn:He;
      [|by destruct (inflight c !! k)]. injection Hl as <- <-.
    apply (sys_ok_local c); try done; [by rewrite Hn|]. simpl. by apply Hv.
  - unfold get_or_compute_lookup in Hl. destruct (entries c !! k); [done|].
    destruct (inflight c !! k) as [g|] eqn:Hk; [|done]. injection Hl as <- ->.
    apply (sys_ok_local c); try done; [by rewrite Hn|]. simpl.
    destruct (Ho _ _ Hk) as (t' & p & Hp & Hown). specialize (Ht _ _ Hp).
    destruct p; simpl in *; try done; injection Hown as -> ->; naive_solver.
  - unfold get_or_compute_lookup in Hl. destruct (entries c !! k); [done|].
    destruct (inflight c !! k) as [g|] eqn:Hk; [done|]. injection Hl as <- <-.
    by apply sys_ok_own.
  - destruct (store_ok k v b c c' Hc Hpr Hst Hv) as (Hc' & Hfl & Hv').
    apply (sys_ok_local c); try done; [by rewrite Hp|]. destruct (Ht _ _ Hp) as [? ?].
    simpl. split_and!; [done..|by exists b].
  - apply (sys_ok_local c); try done; [by rewrite Hp|]. destruct (Ht _ _ Hp) as [? ?].
    simpl. split_and!; [done..|by exists b].
  - by apply sys_ok_set.
  - by apply sys_ok_erase.
  - apply (sys_ok_local c); try done; [by rewrite Hp|]. simpl.
    destruct (Ht _ _ Hp) as [(r' & ? & ?)|[? ?]]; congruence.
  - apply (sys_ok_local c); try done; first [by rewrite Hn|by exists b].
  - constructor; simpl; try done. by apply clear_ok.
Qed.

Lemma reachable_ok me mb s :
  (0 <= me < 2 ^ 64)%Z -> (0 <= mb < 2 ^ 63)%Z -> reachable me mb s -> sys_ok s.
Proof.
  intros Hme Hmb. apply invariant_rtc; [apply step_ok|].
  constructor; simpl; try (intros *; rewrite lookup_empty; done). by apply empty_ok.
Qed.

(** How many critical sections a thread still has to go through. *)
Definition rank (p : phase) : nat :=
  match p with
  | Computing _ _ => 4
  | Computed _ _ _ => 3
  | Published _ _ => 2
  | Waiting _ _ => 1
  | Done _ _ => 0
  end.

(** A step by which thread [t] leaves phase [p] for a later one. *)
Definition advances (s : Sys) (t : nat) (p : phase) : Prop :=
  exists s' p', step s s' /\ threads s' !! t = Some p' /\ rank p' < rank p.

Local Ltac advance_by rule :=
  eexists _, _; split; [by eapply rule|]; simpl; rewrite lookup_insert_eq;
  split; [done|simpl; lia].

Lemma store_total k v b c :
  cache_ok c -> produces k (Value v) b -> exists c', get_or_compute_store k v b c = Some c'.
Proof.
  intros Hc Hpr. unfold get_or_compute_store. destruct b as [b|]; [|by eexists].
  split_if; [|by eexists]. bools. pose proof (sizes_nonneg _ _ _ Hpr).
  destruct (insert_ok c k v b Hc ltac:(lia)) as (c' & -> & _). by eexists.
Qed.

Lemma owner_advances s t p k f :
  sys_ok s -> (forall k, exists r b, produces k r b) ->
  threads s !! t = Some p -> owns p = Some (k, f) -> advances s t p.
Proof.
  intros Hs Htot Hp Hown. pose proof (ok_cache _ Hs) as Hc. destruct s as [c fs ts]. simpl in *.
  destruct p as [k' f'|k' f' r|k' f'|k' f'|k' r]; try done.
  - destruct (Htot k') as ([v|] & b & Hpr).
    + destruct (store_total k' v b c Hc Hpr) as (c' & Hst).
      advance_by step_store.
    + advance_by step_throw.
  - advance_by step_set.
  - advance_by step_erase.
Qed.

(** ** Properties *)

(** C1: inserting into a cache that represents the recency list [l] always
    terminates and yields a cache that represents the longest prefix of the
    updated recency list (the new entry first, any old entry under the key
    removed) that respects both limits; the new entry itself survives. *)
Theorem insert_refines c l k v b :
  refines c l -> config_ok c -> within_limits c ->
  (0 <= b <= max_bytes c)%Z -> (1 <= max_entries c)%Z ->
  exists c', insert k v b c = Some c' /\
    refines c' (spec_insert (max_entries c) (max_bytes c) k v b l) /\
    entries c' !! k ≫= (fun e => Some (entry_value e, entry_bytes e)) = Some (v, b) /\
    within_limits c' /\ inflight c' = inflight c.
Proof.
  intros (le & R & ->) Hc Hl Hb Hme.
  destruct (repr_insert c le k v b R Hc Hl Hb) as (c' & le' & Hi & R' & Hsp & E1 & E2 & E3).
  assert (cache_ok c) as Hok.
  { split; [done|]. split; [done|]. by exists (spec_of <$> le), le. }
  destruct (insert_ok c k v b Hok Hb) as (c'' & Hi' & (_ & Hl' & _) & _).
  rewrite Hi in Hi'. injection Hi' as <-.
  exists c'. split_and!; try done; [by exists le'|].
  unfold spec_insert in Hsp. simpl in Hsp.
  rewrite (proj2 (andb_true_iff _ _)) in Hsp by lia.
  destruct le' as [|[k' e] le']; [done|]. injection Hsp as -> <- <- _.
  assert (entries c' !! k = Some e) as ->; [|done].
  apply (repr_lookup c' _ k e R'). apply list_elem_of_here.
Qed.

(** C21: however the critical sections interleave, at most one thread computes
    a given key at a time, and while it does the key is in flight, so that
    every other caller waits for its future. *)
Theorem single_flight me mb s t1 t2 p1 p2 k f1 f2 :
  (0 <= me < 2 ^ 64)%Z -> (0 <= mb < 2 ^ 63)%Z -> reachable me mb s ->
  threads s !! t1 = Some p1 -> threads s !! t2 = Some p2 ->
  owns p1 = Some (k, f1) -> owns p2 = Some (k, f2) ->
  t1 = t2 /\ inflight (cache s) !! k = Some f1.
Proof.
  intros Hme Hmb Hr H1 H2 O1 O2. pose proof (reachable_ok me mb s Hme Hmb Hr) as Hs.
  split; [by eapply (ok_unique s Hs)|]. exact (thread_ok_owns _ _ _ _ _ (ok_threads s Hs t1 p1 H1) O1).
Qed.

(** The cache is transparent and bounded: every result a thread gets for
    a key is one that computing that key can produce (a hit, a shared future
    and an exception included), and the entry and byte counts never exceed
    the configured limits. *)
Theorem results_sound_and_bounded me mb s :
  (0 <= me < 2 ^ 64)%Z -> (0 <= mb < 2 ^ 63)%Z -> reachable me mb s ->
  within_limits (cache s) /\
  forall t k r, threads s !! t = Some (Done k r) -> can_produce k r.
Proof.
  intros Hme Hmb Hr. pose proof (reachable_ok me mb s Hme Hmb Hr) as Hs. split.
  - apply (ok_cache _ Hs).
  - intros t k r Ht. apply (ok_threads _ Hs _ _ Ht).
Qed.

(** C36: no caller is lost: a thread that has not returned can move on, or it
    waits for the owner of its key, who can; every move brings a thread
    strictly closer to returning. *)
Theorem no_lost_waiter me mb s t p :
  (0 <= me < 2 ^ 64)%Z -> (0 <= mb < 2 ^ 63)%Z -> (forall k, exists r b, produces k r b) ->
  reachable me mb s -> threads s !! t = Some p -> rank p ≠ 0 ->
  advances s t p \/
  exists k f t' p', p = Waiting k f /\ threads s !! t' = Some p' /\
    owns p' = Some (k, f) /\ advances s t' p'.
Proof.
  intros Hme Hmb Htot Hr Hp Hrank. pose proof (reachable_ok me mb s Hme Hmb Hr) as Hs.
  destruct (owns p) as [[k f]|] eqn:Hown; [left; by eapply owner_advances|].
  destruct p as [| | |k f|]; try done. pose proof (ok_threads _ Hs _ _ Hp) as [(r & Hr' & _)|[Hfl _]].
  - left. destruct s as [c fs ts]. simpl in *. advance_by step_get.
  - right. destruct (ok_owner _ Hs _ _ Hfl) as (t' & p' & Hp' & Hown').
    exists k, f, t', p'. split_and!; try done. by eapply owner_advances.
Qed.

End Cache.

#[global] Arguments Cache K V {_ _}.
#[global] Arguments Sys K V {_ _}.
#[global] Arguments phase : clear implicits.

(** ** Witnesses *)

Section Witness.
(** Key 7 computes to 70, of size 3; a cache of two entries and 4 bytes. *)
Definition demo (k : nat) (r : @outcome nat) (b : option Z) : Prop :=
  r = Value (10 * k) /\ b = Some 3%Z.

Lemma demo_nonneg k v b : demo k (Value v) (Some b) -> (0 <= b)%Z.
Proof. intros [_ [= ->]]. lia. Qed.

Definition demo_cache : Cache nat nat := new_cache 2 4.

Lemma demo_refines : refines demo_cache [].
Proof. exists []. split; [|done]. constructor; simpl; try done; try constructor; set_solver. Qed.

(** Thread 1 owns key 7, thread 2 arrives while it computes. *)
Definition demo_mid : Sys nat nat :=
  mkSys (mkCache 2 4 [] ∅ {[7 := 0]} 0 0) {[0 := None]} {[1 := Computing 7 0; 2 := Waiting 7 0]}.

Lemma demo_mid_reachable : reachable demo 2 4 demo_mid.
Proof.
  eapply rtc_l; [apply (step_own _ 1 7 0 0); done|].
  eapply rtc_l; [apply (step_follow _ 2 7 0 1); done|]. exact (rtc_refl (step demo) demo_mid).
Qed.
End Witness.

Lemma insert_refines_witness :
  exists c', insert 7 70 3 demo_cache = Some c' /\
    refines c' (spec_insert 2 4 7 70 3 []) /\
    entries c' !! 7 ≫= (fun e => Some (entry_value e, entry_bytes e)) = Some (70, 3%Z) /\
    within_limits c' /\ inflight c' = inflight demo_cache.
Proof.
  apply (insert_refines demo_cache [] 7 70 3 demo_refines); unfold config_ok, within_limits;
    vm_compute; intuition congruence.
Defined.

Lemma single_flight_witness : 1 = 1 /\ inflight (cache demo_mid) !! 7 = Some 0.
Proof.
  apply (single_flight demo demo_nonneg 2 4 demo_mid 1 1 (Computing 7 0) (Computing 7 0) 7 0 0);
    try done; apply demo_mid_reachable.
Defined.

Lemma results_sound_and_bounded_witness :
  within_limits (cache demo_mid) /\
  forall t k r, threads demo_mid !! t = Some (Done k r) -> can_produce demo k r.
Proof. apply (results_sound_and_bounded demo demo_nonneg 2 4); [done|done|apply demo_mid_reachable]. Defined.

Lemma no_lost_waiter_witness :
  advances demo demo_mid 2 (Waiting 7 0) \/
  exists (k f t' : nat) (p' : phase nat nat), Waiting 7 0 = (Waiting k f : phase nat nat) /\ threads demo_mid !! t' = Some p' /\
    owns p' = Some (k, f) /\ advances demo demo_mid t' p'.
Proof.
  apply (no_lost_waiter demo demo_nonneg 2 4 demo_mid 2 (Waiting 7 0)); try done.
  - intros k. by exists (Value (10 * k)), (Some 3%Z).
  - apply demo_mid_reachable.
Defined.
