(* ===== verification/RequestContext.v ===== *)
(** * server/request_context.h: the life of a request

    Cancellation state and callbacks, the process-wide budget of retained
    response bytes, and the request context with its terminal outcome and the
    lifecycle metrics.  Every member function is one atomic operation or a
    compare-and-exchange loop, which takes effect at its last exchange; a
    [std::mutex] section is one step as well. *)

From S2P Require Import Prelude.
From S2P Require Import Str.
Open Scope Z_scope.

(** ** Enumerations *)

(** src/src/server/request_context.h:18-24 [RequestCostClass] *)
Inductive RequestCostClass := CostUnclassified | CostLow | CostMedium | CostHigh | CostCount.

(** src/src/server/request_context.h:26-36 [RequestStage] *)
Inductive RequestStage :=
  | StageAdmission | StageQueue | StageFetch | StageParse | StageTemplate | StageRules
  | StageSerialize | StageSend | StageCount.

(** src/src/server/request_context.h:38-46 [RequestTerminalState] *)
Inductive RequestTerminalState :=
  | TermNone | TermCompleted | TermRejected | TermCancelled | TermDeadlineExceeded | TermFailed
  | TermCount.

(** src/src/server/request_context.h:48-56 [RequestFailureAttribution] *)
Inductive RequestFailureAttribution :=
  | FailNone | FailServer | FailUpstream | FailUser | FailClient | FailCapacity | FailCount.

(** src/src/server/request_context.h:58-62 [RequestSingleflightRole] *)
Inductive RequestSingleflightRole := RoleNone | RoleOwner | RoleFollower.

(** src/src/server/request_context.h:64-70 [RequestCancellationReason] *)
Inductive RequestCancellationReason :=
  | CancelNone | CancelClientDisconnected | CancelDeadline | CancelShutdown | CancelNoConsumers.

(** src/src/server/request_context.h:360-363 [RequestContextKind] *)
Inductive RequestContextKind := KindClient | KindInternalWork.

#[export] Instance cost_eq_dec : EqDecision RequestCostClass. Proof. solve_decision. Defined.
#[export] Instance stage_eq_dec : EqDecision RequestStage. Proof. solve_decision. Defined.
#[export] Instance terminal_eq_dec : EqDecision RequestTerminalState. Proof. solve_decision. Defined.
#[export] Instance failure_eq_dec : EqDecision RequestFailureAttribution. Proof. solve_decision. Defined.
#[export] Instance role_eq_dec : EqDecision RequestSingleflightRole. Proof. solve_decision. Defined.
#[export] Instance reason_eq_dec : EqDecision RequestCancellationReason. Proof. solve_decision. Defined.
#[export] Instance kind_eq_dec : EqDecision RequestContextKind. Proof. solve_decision. Defined.

(** src/src/server/request_context.h:80-94 [requestCostClassName] *)
Definition requestCostClassName (v : RequestCostClass) : str :=
  match v with
  | CostUnclassified => "unclassified" | CostLow => "low" | CostMedium => "medium"
  | CostHigh => "high" | CostCount => "invalid"
  end.

(** src/src/server/request_context.h:96-118 [requestStageName] *)
Definition requestStageName (v : RequestStage) : str :=
  match v with
  | StageAdmission => "admission" | StageQueue => "queue" | StageFetch => "fetch"
  | StageParse => "parse" | StageTemplate => "template" | StageRules => "rules"
  | StageSerialize => "serialize" | StageSend => "send" | StageCount => "invalid"
  end.

(** src/src/server/request_context.h:120-139 [requestTerminalStateName] *)
Definition requestTerminalStateName (v : RequestTerminalState) : str :=
  match v with
  | TermNone => "none" | TermCompleted => "completed" | TermRejected => "rejected"
  | TermCancelled => "cancelled" | TermDeadlineExceeded => "deadline_exceeded"
  | TermFailed => "failed" | TermCount => "invalid"
  end.

(** src/src/server/request_context.h:141-160 [requestFailureAttributionName] *)
Definition requestFailureAttributionName (v : RequestFailureAttribution) : str :=
  match v with
  | FailNone => "none" | FailServer => "server" | FailUpstream => "upstream"
  | FailUser => "user" | FailClient => "client" | FailCapacity => "capacity"
  | FailCount => "invalid"
  end.

(** src/src/server/request_context.h:162-173 [requestSingleflightRoleName] *)
Definition requestSingleflightRoleName (v : RequestSingleflightRole) : str :=
  match v with RoleNone => "none" | RoleOwner => "owner" | RoleFollower => "follower" end.

(** The numeric value of an enumerator. *)
Definition stage_index (v : RequestStage) : nat :=
 
  match v with
  | StageAdmission => 0 | StageQueue => 1 | StageFetch => 2 | StageParse => 3 | StageTemplate => 4
  | StageRules => 5 | StageSerialize => 6 | StageSend => 7 | StageCount => 8
  end.
Definition terminal_index (v : RequestTerminalState) : nat :=
  match v with
  | TermNone => 0 | TermCompleted => 1 | TermRejected => 2 | TermCancelled => 3
  | TermDeadlineExceeded => 4 | TermFailed => 5 | TermCount => 6
  end.
Definition failure_index (v : RequestFailureAttribution) : nat :=
  match v with
  | FailNone => 0 | FailServer => 1 | FailUpstream => 2 | FailUser => 3 | FailClient => 4
  | FailCapacity => 5 | FailCount => 6
  end.

Definition kRequestStageLatencyBucketCount : nat := 32.

(** ** Cancellation *)

(** src/src/server/request_context.h:175-181 [RequestCancellationState]
    A callback is named by a tag; running it is recorded in a log. *)
Record Cancellation := mkCancellation {
  reason : RequestCancellationReason;
  drain_on_shutdown : bool;
  callbacks : gmap Z nat;
  next_callback_id : Z
}.

Definition new_cancellation : Cancellation := mkCancellation CancelNone false ∅ 1.

(** src/src/server/request_context.h:284-286 [RequestCancellationToken::isCancellationRequested] *)
Definition isCancellationRequested (c : Cancellation) : bool :=
  negb (bool_decide (reason c = CancelNone)).

(** src/src/server/request_context.h:225-249 [registerRequestCancellationCallback]
    The result is the registration's id and the callbacks run at once. *)
Definition register_callback (cb : nat) (c : Cancellation) : Cancellation * Z * list nat :=
  if isCancellationRequested c then (c, 0%Z, [cb])
  else
    (mkCancellation (reason c) (drain_on_shutdown c)
       (match callbacks c !! next_callback_id c with
        | Some _ => callbacks c                   (* emplace keeps an existing entry *)
        | None => <[next_callback_id c := cb]> (callbacks c)
        end)
       (u64 (next_callback_id c + 1)), next_callback_id c, []).

(** src/src/server/request_context.h:209-218 [RequestCancellationRegistration::reset] *)
Definition reset_registration (id : Z) (c : Cancellation) : Cancellation :=
  if (id =? 0)%Z then c
  else mkCancellation (reason c) (drain_on_shutdown c) (delete id (callbacks c)) (next_callback_id c).

(** src/src/server/request_context.h:251-263 [cancelRequestCancellationState, exchange]
    The atomic exchange; [true] when this caller set the reason. *)
Definition cancel_exchange (r : RequestCancellationReason) (c : Cancellation) : Cancellation * bool :=
  if bool_decide (r = CancelNone) then (c, false)
  else if bool_decide (r = CancelShutdown) && drain_on_shutdown c then (c, false)
  else if isCancellationRequested c then (c, false)
  else (mkCancellation r (drain_on_shutdown c) (callbacks c) (next_callback_id c), true).

(** src/src/server/request_context.h:264-275 [cancelRequestCancellationState, callbacks]
    The winner swaps the callbacks out under the lock and runs them. *)
Definition cancel_run (c : Cancellation) : Cancellation * list nat :=
  (mkCancellation (reason c) (drain_on_shutdown c) ∅ (next_callback_id c),
   (map_to_list (callbacks c)).*2).

(** src/src/server/request_context.h:251-276 [cancelRequestCancellationState] *)
Definition cancelRequestCancellationState (r : RequestCancellationReason) (c : Cancellation) :
    Cancellation * bool * list nat :=
  let '(c, won) := cancel_exchange r c in
  if won then let '(c, run) := cancel_run c in (c, true, run) else (c, false, []).

(** ** Retained response bytes *)

(** src/src/server/request_context.h:402-412 [retained_response_bytes] *)
Record Retained := mkRetained { used : Z; limit : Z; rejected : Z }.

(** src/src/server/request_context.h:455-457 [configureRetainedResponseByteLimit] *)
Definition configureRetainedResponseByteLimit (l : Z) (r : Retained) : Retained :=
  mkRetained (used r) l (rejected r).

(** src/src/server/request_context.h:459-478 [tryRetainResponseBytes] *)
Definition tryRetainResponseBytes (bytes : Z) (r : Retained) : Retained * bool :=
  if (bytes =? 0)%Z then (r, true)
  else if (u64 (UINT64_MAX - used r) <? bytes)%Z ||
          (negb (limit r =? 0)%Z && ((limit r <? bytes)%Z || (u64 (limit r - bytes) <? used r)%Z))
  then (mkRetained (used r) (limit r) (u64 (rejected r + 1)), false)
  else (mkRetained (u64 (used r + bytes)) (limit r) (rejected r), true).

(** src/src/server/request_context.h:480-483 [releaseRetainedResponseBytes] *)
Definition releaseRetainedResponseBytes (bytes : Z) (r : Retained) : Retained :=
  if (bytes =? 0)%Z then r else mkRetained (u64 (used r - bytes)) (limit r) (rejected r).

(** src/src/server/request_context.h:512-517 [RetainedResponseByteLease::acquire] *)
Definition lease_acquire (bytes lease : Z) (r : Retained) : Retained * Z * bool :=
  if negb (lease =? 0)%Z then (r, lease, false)
  else
    let '(r, ok) := tryRetainResponseBytes bytes r in
    if ok then (r, bytes, true) else (r, lease, false).

(** src/src/server/request_context.h:519-526 [RetainedResponseByteLease::retain] *)
Definition lease_retain (bytes lease : Z) (r : Retained) : Retained * Z * bool :=
  if (bytes =? 0)%Z then (r, lease, true)
  else
    let '(r, ok) := tryRetainResponseBytes bytes r in
    if ok then (r, u64 (lease + bytes), true) else (r, lease, false).

(** src/src/server/request_context.h:528-530 [RetainedResponseByteLease::reset] *)
Definition lease_reset (lease : Z) (r : Retained) : Retained * Z :=
  (releaseRetainedResponseBytes lease r, 0%Z).

(** ** Latency histogram *)

Fixpoint bucket_loop (fuel : nat) (microseconds upper : Z) (bucket : nat) : nat :=
  match fuel with
  | O => bucket
  | S fuel =>
      if (upper <? microseconds)%Z && (bucket + 1 <? kRequestStageLatencyBucketCount)%nat then
        bucket_loop fuel microseconds (u64 (Z.shiftl upper 1)) (S bucket)
      else bucket
  end.

(** src/src/server/request_context.h:365-375 [requestStageLatencyBucket] *)
Definition requestStageLatencyBucket (nanoseconds : Z) : nat :=
  bucket_loop kRequestStageLatencyBucketCount (Z.max 1 (u64 (nanoseconds + 999) / 1000)) 1 0.

(** The first bucket at which the cumulative count reaches the target. *)
Fixpoint quantile_loop (target cumulative : Z) (bucket : nat) (counts : list Z) : Z :=
  match counts with
  | [] => Z.shiftl 1 (Z.of_nat (kRequestStageLatencyBucketCount - 1))
  | count :: counts =>
      let cumulative := u64 (cumulative + count) in
      if (target <=? cumulative)%Z then u64 (Z.shiftl 1 (Z.of_nat bucket))
      else quantile_loop target cumulative (S bucket) counts
  end.

(** src/src/server/request_context.h:377-400 [requestStageLatencyQuantileMicroseconds] *)
Definition requestStageLatencyQuantileMicroseconds (buckets : list (list Z)) (stage : RequestStage)
    (numerator denominator : Z) : Z :=
  match buckets !! stage_index stage with
  | None => 0
  | Some counts =>
      if (denominator =? 0)%Z || (denominator <? numerator)%Z then 0
      else
        let total := foldl (fun t c => u64 (t + c)) 0%Z counts in
        if (total =? 0)%Z then 0
        else
          let target := Z.max 1 (u64 (u64 (u64 (total * numerator) + denominator) - 1) / denominator) in
          quantile_loop target 0 0 counts
  end.

(** ** Metrics *)

(** src/src/server/request_context.h:328-358 [request_lifecycle_metrics] *)
Record Metrics := mkMetrics {
  terminal_counts : list Z;
  failure_counts : list Z;
  stage_nanoseconds_total : list Z;
  stage_samples : list Z;
  stage_latency_buckets : list (list Z);
  successful_owners : Z;
  successful_responses : Z;
  work_admitted_total : Z;
  server_capacity_failure_after_admission : Z
}.

(** src/src/server/request_context.h:573-593 [resetRequestLifecycleMetricsForTests] *)
Definition zero_metrics : Metrics :=
  mkMetrics (replicate 6 0) (replicate 6 0) (replicate 8 0) (replicate 8 0)
    (replicate 8 (replicate kRequestStageLatencyBucketCount 0)) 0 0 0 0.

(** [fetch_add] on one counter of an array. *)
Definition fetch_add_at (i : nat) (d : Z) (l : list Z) : list Z := alter (fun x => u64 (x + d)) i l.

(** ** The request context *)

(** src/src/server/request_context.h:904-923 [RequestContext]
    Time points and durations are nanoseconds of the steady clock. *)
Record Ctx := mkCtx {
  received_at : Z;
  deadline : Z;
  kind : RequestContextKind;
  cancellation_source : Cancellation;
  cost_class : RequestCostClass;
  estimated_bytes : Z;
  retained_response_bytes : Z;
  singleflight_role : RequestSingleflightRole;
  consumers : Z;
  suggested_failure : RequestFailureAttribution;
  work_admitted : bool;
  capacity_failure_seen : bool;
  post_admission_capacity_recorded : bool;
  current_stage : RequestStage;
  stage_nanoseconds : list Z;
  admission_recorded : bool;
  terminal_outcome : Z
}.

(** The stores to single fields. *)
Definition set_cancellation_source (v : Cancellation) (x : Ctx) : Ctx :=
  mkCtx (received_at x) (deadline x) (kind x) v (cost_class x) (estimated_bytes x)
    (retained_response_bytes x) (singleflight_role x) (consumers x) (suggested_failure x)
    (work_admitted x) (capacity_failure_seen x) (post_admission_capacity_recorded x)
    (current_stage x) (stage_nanoseconds x) (admission_recorded x) (terminal_outcome x).
Definition set_cost_class (v : RequestCostClass) (x : Ctx) : Ctx :=
  mkCtx (received_at x) (deadline x) (kind x) (cancellation_source x) v (estimated_bytes x)
    (retained_response_bytes x) (singleflight_role x) (consumers x) (suggested_failure x)
    (work_admitted x) (capacity_failure_seen x) (post_admission_capacity_recorded x)
    (current_stage x) (stage_nanoseconds x) (admission_recorded x) (terminal_outcome x).
Definition set_estimated_bytes (v : Z) (x : Ctx) : Ctx :=
  mkCtx (received_at x) (deadline x) (kind x) (cancellation_source x) (cost_class x) v
    (retained_response_bytes x) (singleflight_role x) (consumers x) (suggested_failure x)
    (work_admitted x) (capacity_failure_seen x) (post_admission_capacity_recorded x)
    (current_stage x) (stage_nanoseconds x) (admission_recorded x) (terminal_outcome x).
Definition set_retained_response_bytes (v : Z) (x : Ctx) : Ctx :=
  mkCtx (received_at x) (deadline x) (kind x) (cancellation_source x) (cost_class x)
    (estimated_bytes x) v (singleflight_role x) (consumers x) (suggested_failure x)
    (work_admitted x) (capacity_failure_seen x) (post_admission_capacity_recorded x)
    (current_stage x) (stage_nanoseconds x) (admission_recorded x) (terminal_outcome x).
Definition set_singleflight_role (v : RequestSingleflightRole) (x : Ctx) : Ctx :=
  mkCtx (received_at x) (deadline x) (kind x) (cancellation_source x) (cost_class x)
    (estimated_bytes x) (retained_response_bytes x) v (consumers x) (suggested_failure x)
    (work_admitted x) (capacity_failure_seen x) (post_admission_capacity_recorded x)
    (current_stage x) (stage_nanoseconds x) (admission_recorded x) (terminal_outcome x).
Definition set_consumers (v : Z) (x : Ctx) : Ctx :=
  mkCtx (received_at x) (deadline x) (kind x) (cancellation_source x) (cost_class x)
    (estimated_bytes x) (retained_response_bytes x) (singleflight_role x) v (suggested_failure
    x) (work_admitted x) (capacity_failure_seen x) (post_admission_capacity_recorded x)
    (current_stage x) (stage_nanoseconds x) (admission_recorded x) (terminal_outcome x).
Definition set_suggested_failure (v : RequestFailureAttribution) (x : Ctx) : Ctx :=
  mkCtx (received_at x) (deadline x) (kind x) (cancellation_source x) (cost_class x)
    (estimated_bytes x) (retained_response_bytes x) (singleflight_role x) (consumers x) v
    (work_admitted x) (capacity_failure_seen x) (post_admission_capacity_recorded x)
    (current_stage x) (stage_nanoseconds x) (admission_recorded x) (terminal_outcome x).
Definition set_work_admitted (v : bool) (x : Ctx) : Ctx :=
  mkCtx (received_at x) (deadline x) (kind x) (cancellation_source x) (cost_class x)
    (estimated_bytes x) (retained_response_bytes x) (singleflight_role x) (consumers x)
    (suggested_failure x) v (capacity_failure_seen x) (post_admission_capacity_recorded x)
    (current_stage x) (stage_nanoseconds x) (admission_recorded x) (terminal_outcome x).
Definition set_capacity_failure_seen (v : bool) (x : Ctx) : Ctx :=
  mkCtx (received_at x) (deadline x) (kind x) (cancellation_source x) (cost_class x)
    (estimated_bytes x) (retained_response_bytes x) (singleflight_role x) (consumers x)
    (suggested_failure x) (work_admitted x) v (post_admission_capacity_recorded x)
    (current_stage x) (stage_nanoseconds x) (admission_recorded x) (terminal_outcome x).
Definition set_post_admission_capacity_recorded (v : bool) (x : Ctx) : Ctx :=
  mkCtx (received_at x) (deadline x) (kind x) (cancellation_source x) (cost_class x)
    (estimated_bytes x) (retained_response_bytes x) (singleflight_role x) (consumers x)
    (suggested_failure x) (work_admitted x) (capacity_failure_seen x) v (current_stage x)
    (stage_nanoseconds x) (admission_recorded x) (terminal_outcome x).
Definition set_current_stage (v : RequestStage) (x : Ctx) : Ctx :=
  mkCtx (received_at x) (deadline x) (kind x) (cancellation_source x) (cost_class x)
    (estimated_bytes x) (retained_response_bytes x) (singleflight_role x) (consumers x)
    (suggested_failure x) (work_admitted x) (capacity_failure_seen x)
    (post_admission_capacity_recorded x) v (stage_nanoseconds x) (admission_recorded x)
    (terminal_outcome x).
Definition set_stage_nanoseconds (v : list Z) (x : Ctx) : Ctx :=
  mkCtx (received_at x) (deadline x) (kind x) (cancellation_source x) (cost_class x)
    (estimated_bytes x) (retained_response_bytes x) (singleflight_role x) (consumers x)
    (suggested_failure x) (work_admitted x) (capacity_failure_seen x)
    (post_admission_capacity_recorded x) (current_stage x) v (admission_recorded x)
    (terminal_outcome x).
Definition set_admission_recorded (v : bool) (x : Ctx) : Ctx :=
  mkCtx (received_at x) (deadline x) (kind x) (cancellation_source x) (cost_class x)
    (estimated_bytes x) (retained_response_bytes x) (singleflight_role x) (consumers x)
    (suggested_failure x) (work_admitted x) (capacity_failure_seen x)
    (post_admission_capacity_recorded x) (current_stage x) (stage_nanoseconds x) v
    (terminal_outcome x).
Definition set_terminal_outcome (v : Z) (x : Ctx) : Ctx :=
  mkCtx (received_at x) (deadline x) (kind x) (cancellation_source x) (cost_class x)
    (estimated_bytes x) (retained_response_bytes x) (singleflight_role x) (consumers x)
    (suggested_failure x) (work_admitted x) (capacity_failure_seen x)
    (post_admission_capacity_recorded x) (current_stage x) (stage_nanoseconds x)
    (admission_recorded x) v.

Definition INT64_MAX : Z := 2 ^ 63 - 1.
Definition kStageCount : nat := 8.

(** src/src/server/request_context.h:599-607 [RequestContext::RequestContext] *)
Definition new_context (received deadline : Z) (k : RequestContextKind) : Ctx :=
  mkCtx received deadline k new_cancellation CostUnclassified 0 0 RoleNone 1 FailNone false false false
    StageAdmission (replicate kStageCount 0) false 0.

(** src/src/server/request_context.h:619-621 [RequestContext::deadlineExceeded] *)
Definition deadlineExceeded (now : Z) (x : Ctx) : bool :=
  negb (deadline x =? INT64_MAX) && (deadline x <=? now).

(** src/src/server/request_context.h:627-629 [RequestContext::requestCancellation] *)
Definition requestCancellation (r : RequestCancellationReason) (x : Ctx) : Ctx * bool * list nat :=
  let '(c, ok, run) := cancelRequestCancellationState r (cancellation_source x) in
  (set_cancellation_source c x, ok, run).

(** src/src/server/request_context.h:637-640 [RequestContext::setCostClass] *)
Definition setCostClass (v : RequestCostClass) (x : Ctx) : Ctx :=
  if bool_decide (v = CostCount) then x else set_cost_class v x.

(** The increments of the lifecycle metrics. *)
Definition count_work_admitted (m : Metrics) : Metrics :=
  mkMetrics (terminal_counts m) (failure_counts m) (stage_nanoseconds_total m) (stage_samples m)
    (stage_latency_buckets m) (successful_owners m) (successful_responses m)
    (u64 (work_admitted_total m + 1)) (server_capacity_failure_after_admission m).
Definition count_capacity_failure (m : Metrics) : Metrics :=
  mkMetrics (terminal_counts m) (failure_counts m) (stage_nanoseconds_total m) (stage_samples m)
    (stage_latency_buckets m) (successful_owners m) (successful_responses m)
    (work_admitted_total m) (u64 (server_capacity_failure_after_admission m + 1)).
Definition count_outcome (t f : nat) (m : Metrics) : Metrics :=
  mkMetrics (fetch_add_at t 1 (terminal_counts m)) (fetch_add_at f 1 (failure_counts m))
    (stage_nanoseconds_total m) (stage_samples m)
    (stage_latency_buckets m) (successful_owners m) (successful_responses m)
    (work_admitted_total m) (server_capacity_failure_after_admission m).
Definition count_success (owner : bool) (m : Metrics) : Metrics :=
  mkMetrics (terminal_counts m) (failure_counts m) (stage_nanoseconds_total m) (stage_samples m)
    (stage_latency_buckets m)
    (if owner then u64 (successful_owners m + 1) else successful_owners m)
    (u64 (successful_responses m + 1))
    (work_admitted_total m) (server_capacity_failure_after_admission m).
Definition count_stage (index : nat) (duration : Z) (m : Metrics) : Metrics :=
  mkMetrics (terminal_counts m) (failure_counts m)
    (fetch_add_at index duration (stage_nanoseconds_total m)) (fetch_add_at index 1 (stage_samples m))
    (alter (fetch_add_at (requestStageLatencyBucket duration) 1) index (stage_latency_buckets m))
    (successful_owners m) (successful_responses m)
    (work_admitted_total m) (server_capacity_failure_after_admission m).

(** src/src/server/request_context.h:890-902 [RequestContext::recordPostAdmissionCapacityFailureIfNeeded] *)
Definition recordPostAdmissionCapacityFailureIfNeeded (x : Ctx) (m : Metrics) : Ctx * Metrics :=
  if negb (bool_decide (kind x = KindClient)) || negb (work_admitted x) || negb (capacity_failure_seen x)
  then (x, m)
  else if post_admission_capacity_recorded x then (x, m)
  else (set_post_admission_capacity_recorded true x, count_capacity_failure m).

(** src/src/server/request_context.h:654-666 [RequestContext::markWorkAdmitted] *)
Definition markWorkAdmitted (x : Ctx) (m : Metrics) : Ctx * Metrics * bool :=
  if negb (bool_decide (kind x = KindClient)) then (x, m, false)
  else if work_admitted x then (x, m, false)
  else
    let '(x, m) := recordPostAdmissionCapacityFailureIfNeeded
                     (set_work_admitted true x) (count_work_admitted m) in
    (x, m, true).

(** src/src/server/request_context.h:739-750 [RequestContext::suggestFailure] *)
Definition suggestFailure (v : RequestFailureAttribution) (x : Ctx) (m : Metrics) : Ctx * Metrics :=
  if bool_decide (v = FailNone) || bool_decide (v = FailCount) then (x, m)
  else
    let x := if bool_decide (suggested_failure x = FailNone) then set_suggested_failure v x else x in
    if bool_decide (v = FailCapacity) then
      recordPostAdmissionCapacityFailureIfNeeded (set_capacity_failure_seen true x) m
    else (x, m).

(** src/src/server/request_context.h:679 [RequestContext::retainResponseBytes, the fetch_add] *)
Definition add_held (bytes held : Z) : Z := u64 (held + bytes).

(** src/src/server/request_context.h:672-681 [RequestContext::retainResponseBytes] *)
Definition retainResponseBytes (bytes : Z) (x : Ctx) (m : Metrics) (r : Retained) :
    Ctx * Metrics * Retained * bool :=
  if bytes =? 0 then (x, m, r, true)
  else
    let '(r, ok) := tryRetainResponseBytes bytes r in
    if ok then (set_retained_response_bytes (add_held bytes (retained_response_bytes x)) x, m, r, true)
    else let '(x, m) := suggestFailure FailCapacity x m in (x, m, r, false).

(** src/src/server/request_context.h:684-689 [RequestContext::releaseResponseBytes, the compare-exchange]
    What is taken of [held] bytes, and what stays. *)
Definition take_held (bytes held : Z) : option (Z * Z) :=
  if (held =? 0) || (bytes =? 0) then None
  else let released := Z.min held bytes in Some (released, u64 (held - released)).

(** src/src/server/request_context.h:683-695 [RequestContext::releaseResponseBytes] *)
Definition releaseResponseBytes (bytes : Z) (x : Ctx) (r : Retained) : Ctx * Retained * Z :=
  match take_held bytes (retained_response_bytes x) with
  | None => (x, r, 0)
  | Some (released, rest) => (set_retained_response_bytes rest x, releaseRetainedResponseBytes released r, released)
  end.

(** src/src/server/request_context.h:609-613 [RequestContext::~RequestContext] *)
Definition destroy_context (x : Ctx) (r : Retained) : Retained :=
  releaseRetainedResponseBytes (retained_response_bytes x) r.

(** src/src/server/request_context.h:709-718 [RequestContext::addConsumer] *)
Definition addConsumer (x : Ctx) : Ctx * bool :=
  if consumers x =? 0 then (x, false) else (set_consumers (u32 (consumers x + 1)) x, true).

(** src/src/server/request_context.h:720-729 [RequestContext::releaseConsumer] *)
Definition releaseConsumer (x : Ctx) : Ctx * Z :=
  if consumers x =? 0 then (x, 0)
  else (set_consumers (u32 (consumers x - 1)) x, u32 (consumers x - 1)).

(** src/src/server/request_context.h:756-763 [RequestContext::setCurrentStage] *)
Definition setCurrentStage (s : RequestStage) (x : Ctx) : Ctx :=
  if bool_decide (s = StageCount) then x
  else
    let x := set_current_stage s x in
    if bool_decide (s = StageSend) then
      let c := cancellation_source x in
      set_cancellation_source (mkCancellation (reason c) true (callbacks c) (next_callback_id c)) x
    else x.

(** src/src/server/request_context.h:769-780 [RequestContext::addStageDuration] *)
Definition addStageDuration (s : RequestStage) (duration : Z) (x : Ctx) : Ctx :=
  if (kStageCount <=? stage_index s)%nat || (duration <=? 0) then x
  else set_stage_nanoseconds (fetch_add_at (stage_index s) duration (stage_nanoseconds x)) x.

(** src/src/server/request_context.h:782-790 [RequestContext::recordAdmissionOnce] *)
Definition recordAdmissionOnce (finished_at : Z) (x : Ctx) : Ctx * bool :=
  if admission_recorded x then (x, false)
  else (addStageDuration StageAdmission (finished_at - received_at x) (set_admission_recorded true x), true).

(** src/src/server/request_context.h:792-797 [RequestContext::stageNanoseconds] *)
Definition stageNanoseconds (s : RequestStage) (x : Ctx) : Z :=
  if (stage_index s <? kStageCount)%nat then nth (stage_index s) (stage_nanoseconds x) 0 else 0.

Definition encode_outcome (t : RequestTerminalState) (f : RequestFailureAttribution) : Z :=
  Z.lor (Z.of_nat (terminal_index t)) (u16 (Z.shiftl (Z.of_nat (failure_index f)) 8)).

Fixpoint count_stages (index : nat) (durations : list Z) (m : Metrics) : Metrics :=
  match durations with
  | [] => m
  | d :: durations =>
      count_stages (S index) durations (if d =? 0 then m else count_stage index d m)
  end.

(** src/src/server/request_context.h:799-841 [RequestContext::tryFinish] *)
Definition tryFinish (t : RequestTerminalState) (f : RequestFailureAttribution) (x : Ctx) (m : Metrics) :
    Ctx * Metrics * bool :=
  if bool_decide (t = TermNone) || bool_decide (t = TermCount) || bool_decide (f = FailCount)
  then (x, m, false)
  else if negb (terminal_outcome x =? 0) then (x, m, false)
  else
    let x := set_terminal_outcome (encode_outcome t f) x in
    let m := count_outcome (terminal_index t) (failure_index f) m in
    let m := count_stages 0 (stage_nanoseconds x) m in
    let m := if bool_decide (t = TermCompleted) && bool_decide (f = FailNone)
             then count_success (bool_decide (singleflight_role x = RoleOwner)) m else m in
    (x, m, true).

(** src/src/server/request_context.h:844-875 [RequestContext::finalizeResponse, classification]
    The clock is read by [deadlineExceeded]; the callbacks a cancellation
    runs are returned. *)
Definition classify_response (now status_code : Z) (response_sent : bool) (x : Ctx) :
    Ctx * list nat * RequestTerminalState * RequestFailureAttribution :=
  let failure := suggested_failure x in
  let cancellation := reason (cancellation_source x) in
  if negb response_sent then
    let '(x, _, run) := requestCancellation CancelClientDisconnected x in
    (x, run, TermCancelled, FailClient)
  else if bool_decide (cancellation = CancelDeadline) || deadlineExceeded now x then
    let '(x, _, run) := requestCancellation CancelDeadline x in
    (x, run, TermDeadlineExceeded, if bool_decide (failure = FailNone) then FailClient else failure)
  else if negb (bool_decide (cancellation = CancelNone)) then
    (x, [], TermCancelled,
     if bool_decide (failure = FailNone)
     then (if bool_decide (cancellation = CancelShutdown) then FailServer else FailClient) else failure)
  else if bool_decide (failure = FailCapacity) then (x, [], TermRejected, failure)
  else if bool_decide (failure = FailClient) then (x, [], TermCancelled, failure)
  else if 500 <=? status_code then
    (x, [], TermFailed, if bool_decide (failure = FailNone) then FailServer else failure)
  else if (400 <=? status_code) && bool_decide (failure = FailNone) then (x, [], TermCompleted, FailUser)
  else (x, [], TermCompleted, failure).

(** src/src/server/request_context.h:843-877 [RequestContext::finalizeResponse] *)
Definition finalizeResponse (now status_code : Z) (response_sent : bool) (x : Ctx) (m : Metrics) :
    Ctx * Metrics * list nat * bool :=
  let '(x, run, t, f) := classify_response now status_code response_sent x in
  let '(x, m, ok) := tryFinish t f x m in
  (x, m, run, ok).

(** The enumerator of a value (static_cast from the integer). *)
Definition terminal_of_index (n : Z) : RequestTerminalState :=
  nth (Z.to_nat n) [TermNone; TermCompleted; TermRejected; TermCancelled; TermDeadlineExceeded; TermFailed]
    TermCount.
Definition failure_of_index (n : Z) : RequestFailureAttribution :=
  nth (Z.to_nat n) [FailNone; FailServer; FailUpstream; FailUser; FailClient; FailCapacity] FailCount.

(** src/src/server/request_context.h:879-882 [RequestContext::terminalState] *)
Definition terminalState (x : Ctx) : RequestTerminalState :=
  terminal_of_index (Z.land (terminal_outcome x) 255).

(** src/src/server/request_context.h:884-887 [RequestContext::failureAttribution] *)
Definition failureAttribution (x : Ctx) : RequestFailureAttribution :=
  failure_of_index (Z.land (Z.shiftr (terminal_outcome x) 8) 255).

(** ** The stage timer and the scoped current context *)

(** src/src/server/request_context.h:978-983 [RequestStageTimer] *)
Record StageTimer := mkTimer { timer_stage : RequestStage; started_at : Z; stopped : bool }.

(** src/src/server/request_context.h:953-957 [RequestStageTimer::RequestStageTimer] *)
Definition start_timer (s : RequestStage) (now : Z) (x : option Ctx) : StageTimer * option Ctx :=
  (mkTimer s now false, setCurrentStage s <$> x).

(** src/src/server/request_context.h:970-976 [RequestStageTimer::stop] *)
Definition stop_timer (now : Z) (t : StageTimer) (x : option Ctx) : StageTimer * option Ctx :=
  if stopped t then (t, x)
  else (mkTimer (timer_stage t) (started_at t) true,
        addStageDuration (timer_stage t) (now - started_at t) <$> x).

(** ** One outcome per request *)

(** The attempts to finish one request, in the order of their exchanges. *)
Fixpoint finish_all (l : list (RequestTerminalState * RequestFailureAttribution)) (x : Ctx) (m : Metrics) :
    Ctx * Metrics * list bool :=
  match l with
  | [] => (x, m, [])
  | (t, f) :: l =>
      let '(x, m, ok) := tryFinish t f x m in
      let '(x, m, oks) := finish_all l x m in
      (x, m, ok :: oks)
  end.

(** An attempt the code takes: the terminal state is a real one. *)
Definition valid_outcome (o : RequestTerminalState * RequestFailureAttribution) : bool :=
  negb (bool_decide (o.1 = TermNone)) && negb (bool_decide (o.1 = TermCount))
  && negb (bool_decide (o.2 = FailCount)).

Lemma outcome_roundtrip t f x :
  valid_outcome (t, f) = true ->
  terminalState (set_terminal_outcome (encode_outcome t f) x) = t /\
  failureAttribution (set_terminal_outcome (encode_outcome t f) x) = f /\
  encode_outcome t f <> 0.
Proof. destruct t, f; vm_compute; intros; split_and!; congruence. Qed.

Lemma tryFinish_invalid t f x m : valid_outcome (t, f) = false -> tryFinish t f x m = (x, m, false).
Proof.
  unfold valid_outcome, tryFinish. simpl. intros H.
  destruct (bool_decide (t = TermNone)), (bool_decide (t = TermCount)), (bool_decide (f = FailCount)); done.
Qed.

Lemma tryFinish_finished t f x m : terminal_outcome x <> 0 -> tryFinish t f x m = (x, m, false).
Proof.
  unfold tryFinish. intros H. split_if; [done|].
  destruct (Z.eqb_spec (terminal_outcome x) 0); done.
Qed.

Lemma count_stages_outcomes ds i m :
  terminal_counts (count_stages i ds m) = terminal_counts m /\
  failure_counts (count_stages i ds m) = failure_counts m /\
  successful_responses (count_stages i ds m) = successful_responses m.
Proof.
  revert i m. induction ds as [|d ds IH]; intros i m; simpl; [done|].
  destruct (IH (S i) (if d =? 0 then m else count_stage i d m)) as (-> & -> & ->).
  by destruct (d =? 0).
Qed.

Lemma tryFinish_first t f x m :
  valid_outcome (t, f) = true -> terminal_outcome x = 0 ->
  exists x' m', tryFinish t f x m = (x', m', true) /\
    terminalState x' = t /\ failureAttribution x' = f /\ terminal_outcome x' <> 0 /\
    terminal_counts m' = fetch_add_at (terminal_index t) 1 (terminal_counts m) /\
    failure_counts m' = fetch_add_at (failure_index f) 1 (failure_counts m).
Proof.
  intros Hv Hx. destruct (outcome_roundtrip t f x Hv) as (H1 & H2 & H3).
  unfold valid_outcome in Hv. simpl in Hv. unfold tryFinish.
  replace (bool_decide (t = TermNone) || bool_decide (t = TermCount) || bool_decide (f = FailCount))
    with false by (destruct (bool_decide (t = TermNone)), (bool_decide (t = TermCount)),
      (bool_decide (f = FailCount)); done).
  rewrite Hx. simpl. eexists _, _. split; [done|]. split_and!; try done.
  all: destruct (count_stages_outcomes (stage_nanoseconds x) 0
         (count_outcome (terminal_index t) (failure_index f) m)) as (Ha & Hb & _);
    split_if; simpl; by rewrite ?Ha, ?Hb.
Qed.

Lemma finish_all_finished l x m :
  terminal_outcome x <> 0 -> finish_all l x m = (x, m, replicate (length l) false).
Proof.
  intros H. induction l as [|[t f] l IH]; simpl; [done|].
  by rewrite tryFinish_finished, IH by done.
Qed.

Lemma finish_all_invalid l k x m :
  Forall (fun o => valid_outcome o = false) l ->
  finish_all (l ++ k) x m = let '(x, m, oks) := finish_all k x m in (x, m, replicate (length l) false ++ oks).
Proof.
  induction 1 as [|[t f] l Hv Hl IH]; simpl.
  - by destruct (finish_all k x m) as [[? ?] ?].
  - rewrite tryFinish_invalid by done. rewrite IH. by destruct (finish_all k x m) as [[? ?] ?].
Qed.

(** Whatever attempts are made to finish a request, and in whatever order
    they reach the atomic exchange, exactly the first valid one takes effect:
    it alone returns [true], the context reports its terminal state and
    attribution from then on, and each of its two counters is incremented
    once. *)
Theorem finish_once before t f after x m :
  terminal_outcome x = 0 ->
  Forall (fun o => valid_outcome o = false) before ->
  valid_outcome (t, f) = true ->
  exists x' m',
    finish_all (before ++ (t, f) :: after) x m =
      (x', m', replicate (length before) false ++ true :: replicate (length after) false) /\
    terminalState x' = t /\ failureAttribution x' = f /\
    terminal_counts m' = fetch_add_at (terminal_index t) 1 (terminal_counts m) /\
    failure_counts m' = fetch_add_at (failure_index f) 1 (failure_counts m).
Proof.
  intros Hx Hb Hv. rewrite finish_all_invalid by done. simpl.
  destruct (tryFinish_first t f x m Hv Hx) as (x' & m' & -> & Ht & Hf & Hn & Hc & Hd).
  rewrite finish_all_finished by done. eauto 10.
Qed.

Lemma finish_once_witness :
  exists x' m',
    finish_all ([(TermNone, FailNone)] ++ (TermFailed, FailServer) :: [(TermCompleted, FailNone)])
      (new_context 0 INT64_MAX KindClient) zero_metrics = (x', m', [false; true; false]) /\
    terminalState x' = TermFailed /\ failureAttribution x' = FailServer /\
    terminal_counts m' = [0; 0; 0; 0; 0; 1] /\ failure_counts m' = [0; 1; 0; 0; 0; 0].
Proof.
  apply (finish_once [(TermNone, FailNone)] TermFailed FailServer [(TermCompleted, FailNone)]);
    repeat constructor.
Defined.

(** The outcome the program means to report for a response. *)
Definition response_outcome (sent : bool) (cancelled : RequestCancellationReason) (late : bool)
    (suggested : RequestFailureAttribution) (status : Z) : RequestTerminalState * RequestFailureAttribution :=
  if negb sent then (TermCancelled, FailClient)
  else if late then
    (TermDeadlineExceeded, if bool_decide (suggested = FailNone) then FailClient else suggested)
  else
    match cancelled, suggested with
    | CancelNone, FailCapacity => (TermRejected, FailCapacity)
    | CancelNone, FailClient => (TermCancelled, FailClient)
    | CancelNone, FailNone =>
        if status <? 400 then (TermCompleted, FailNone)
        else if status <? 500 then (TermCompleted, FailUser) else (TermFailed, FailServer)
    | CancelNone, _ => (if status <? 500 then TermCompleted else TermFailed, suggested)
    | CancelShutdown, FailNone => (TermCancelled, FailServer)
    | _, FailNone => (TermCancelled, FailClient)
    | _, _ => (TermCancelled, suggested)
    end.

Lemma requestCancellation_outcome r x x' ok run :
  requestCancellation r x = (x', ok, run) ->
  terminal_outcome x' = terminal_outcome x /\
  (r <> CancelNone -> r <> CancelShutdown -> isCancellationRequested (cancellation_source x') = true).
Proof.
  unfold requestCancellation, cancelRequestCancellationState, cancel_exchange.
  destruct r; simpl; intros H.
  all: repeat (split_if_in H; simpl in H).
  all: injection H as <- <- <-; split; try done.
Qed.

(** [finalizeResponse] on an unfinished request always ends it, with the
    outcome of the specification: in particular [Completed] exactly for a
    response that was sent in time, was not cancelled, was not limited by
    capacity or by the client, and whose status is below 500; a response that
    was not sent also leaves the request cancelled. *)
Theorem finalizeResponse_outcome now status sent x m :
  terminal_outcome x = 0 -> suggested_failure x <> FailCount ->
  let late := bool_decide (reason (cancellation_source x) = CancelDeadline) || deadlineExceeded now x in
  let o := response_outcome sent (reason (cancellation_source x)) late (suggested_failure x) status in
  exists x' m' run,
    finalizeResponse now status sent x m = (x', m', run, true) /\
    (terminalState x', failureAttribution x') = o /\
    (sent = false -> isCancellationRequested (cancellation_source x') = true) /\
    (o.1 = TermCompleted <->
       sent = true /\ late = false /\ reason (cancellation_source x) = CancelNone /\
       suggested_failure x <> FailCapacity /\ suggested_failure x <> FailClient /\ status < 500).
Proof.
  intros Hx Hs late o. unfold finalizeResponse.
  assert (exists x1 run, classify_response now status sent x = (x1, run, o.1, o.2) /\ terminal_outcome x1 = 0 /\
    (sent = false -> isCancellationRequested (cancellation_source x1) = true)) as (x1 & run & -> & H1 & Hc).
  { subst o. unfold classify_response, response_outcome. fold late. destruct sent; simpl.
    - destruct late.
      + destruct (requestCancellation CancelDeadline x) as [[x1 ok] run] eqn:E.
        apply requestCancellation_outcome in E as [E _]. exists x1, run. split_and!; [done|congruence|done].
      + destruct (reason (cancellation_source x)) eqn:Er; simpl;
          destruct (suggested_failure x) eqn:Ef; simpl; try done; repeat split_if; simpl;
          try (eexists _, _; split_and!; [reflexivity|done|done]); bools; lia.
    - destruct (requestCancellation CancelClientDisconnected x) as [[x1 ok] run] eqn:E.
      apply requestCancellation_outcome in E as [E E2]. exists x1, run. split_and!; [done|congruence|].
      intros _. by apply E2. }
  assert (Hv : valid_outcome (o.1, o.2) = true).
  { subst o. unfold response_outcome. destruct sent; [|done]. simpl. destruct late; simpl.
    - by destruct (suggested_failure x).
    - destruct (reason (cancellation_source x)), (suggested_failure x); try done; by repeat split_if. }
  destruct (tryFinish_first o.1 o.2 x1 m Hv H1) as (x' & m' & E & Ht & Hf & _).
  exists x', m', run. rewrite E. split_and!; [done| |intros ->|].
  - rewrite Ht, Hf. by destruct o.
  - specialize (Hc eq_refl). revert E. unfold tryFinish.
    destruct (_ || _ || _); [congruence|]. destruct (negb _); [congruence|].
    intros E'. injection E' as <- ?. exact Hc.
  - subst o. unfold response_outcome. destruct sent; simpl; [|naive_solver].
    destruct late; simpl; [naive_solver|].
    destruct (reason (cancellation_source x)), (suggested_failure x); simpl;
      repeat split_if; simpl;
      (split; [intros ?; first [discriminate|split_and!; first [done|lia]]
              |intros (_ & _ & ? & ? & ? & ?); first [discriminate|reflexivity|congruence|lia]]).
Qed.

Lemma finalizeResponse_outcome_witness :
  exists x' m' run,
    finalizeResponse 10 404 true (new_context 0 20 KindClient) zero_metrics = (x', m', run, true) /\
    (terminalState x', failureAttribution x') = (TermCompleted, FailUser).
Proof.
  destruct (finalizeResponse_outcome 10 404 true (new_context 0 20 KindClient) zero_metrics)
    as (x' & m' & run & H1 & H2 & _); [reflexivity|discriminate|].
  exists x', m', run. split; [exact H1|exact H2].
Defined.

(** ** The latency histogram *)

Lemma bucket_loop_spec fuel us b :
  (b + fuel = kRequestStageLatencyBucketCount)%nat -> (b < kRequestStageLatencyBucketCount)%nat ->
  (b = 0%nat \/ 2 ^ (Z.of_nat b - 1) < us) -> 1 <= us ->
  let r := bucket_loop fuel us (2 ^ Z.of_nat b) b in
  (r < kRequestStageLatencyBucketCount)%nat /\ (b <= r)%nat /\
  (r = 0%nat \/ 2 ^ (Z.of_nat r - 1) < us) /\
  (us <= 2 ^ Z.of_nat r \/ r = (kRequestStageLatencyBucketCount - 1)%nat).
Proof.
  unfold kRequestStageLatencyBucketCount.
  revert b. induction fuel as [|fuel IH]; intros b Hf Hb Hlo Hus; [lia|]. simpl.
  destruct (Z.ltb_spec (2 ^ Z.of_nat b) us); destruct (Nat.ltb_spec (b + 1) kRequestStageLatencyBucketCount);
    unfold kRequestStageLatencyBucketCount in *; simpl.
  - assert (Hp : u64 (Z.shiftl (2 ^ Z.of_nat b) 1) = 2 ^ Z.of_nat (S b)).
    { rewrite Z.shiftl_mul_pow2 by lia. rewrite Nat2Z.inj_succ, Z.pow_succ_r by lia.
      rewrite u64_small; [lia|]. split; [lia|].
      assert (2 ^ Z.of_nat b <= 2 ^ 31) by (apply Z.pow_le_mono_r; lia). lia. }
    rewrite Hp. destruct (IH (S b)) as (H1 & H2 & H3 & H4); [lia|lia| |lia|].
    { right. by replace (Z.of_nat (S b) - 1) with (Z.of_nat b) by lia. }
    split_and!; [done|lia|done|done].
  - split_and!; try done; try lia.
  - split_and!; try done; try lia.
  - split_and!; try done; try lia.
Qed.

(** The bucket of a stage duration is the smallest power of two of
    microseconds that bounds the duration, rounded up to a microsecond: the
    bucket index is in range and
    [2^(b-1) < microseconds <= 2^b], with everything above [2^31]
    microseconds in the last bucket.  The bound on the duration excludes the
    wrap-around of the rounding. *)
Theorem latency_bucket_bounds ns :
  0 <= ns < 2 ^ 64 - 999 ->
  let b := requestStageLatencyBucket ns in
  (b < kRequestStageLatencyBucketCount)%nat /\
  (b = 0%nat \/ 1000 * 2 ^ (Z.of_nat b - 1) < ns) /\
  (ns <= 1000 * 2 ^ Z.of_nat b \/ b = (kRequestStageLatencyBucketCount - 1)%nat).
Proof.
  intros Hns. unfold requestStageLatencyBucket. unwrap.
  pose proof (bucket_loop_spec kRequestStageLatencyBucketCount (Z.max 1 ((ns + 999) / 1000)) 0) as H.
  destruct H as (H1 & _ & H3 & H4); unfold kRequestStageLatencyBucketCount; [lia..|by left|lia|].
  split_and!; [exact H1| |].
  - destruct H3 as [H3|H3]; [by left|].
    destruct (decide (bucket_loop 32 (Z.max 1 ((ns + 999) / 1000)) 1 0 = 0%nat)) as [|Hn]; [by left|right].
    change (2 ^ Z.of_nat 0) with 1 in H3. unfold kRequestStageLatencyBucketCount in *.
    assert (H0 : 1 <= 2 ^ (Z.of_nat (bucket_loop 32 (Z.max 1 ((ns + 999) / 1000)) 1 0) - 1)).
    { change 1 with (2 ^ 0) at 1. apply Z.pow_le_mono_r; lia. }
    revert H3 H0. clear.
    generalize (2 ^ (Z.of_nat (bucket_loop 32 (Z.max 1 ((ns + 999) / 1000)) 1 0) - 1)).
    intros p. divlia.
  - destruct H4 as [H4|H4]; [left|by right].
    change (2 ^ Z.of_nat 0) with 1 in H4. unfold kRequestStageLatencyBucketCount in *.
    revert H4 Hns. clear. generalize (2 ^ Z.of_nat (bucket_loop 32 (Z.max 1 ((ns + 999) / 1000)) 1 0)).
    intros p. divlia.
Qed.

Lemma latency_bucket_bounds_witness :
  requestStageLatencyBucket 5000000 = 13%nat /\ 1000 * 2 ^ 12 < 5000000 <= 1000 * 2 ^ 13.
Proof.
  destruct (latency_bucket_bounds 5000000) as (_ & [H|H] & [H'|H']); [lia|vm_compute in H; discriminate..| |vm_compute in H'; discriminate].
  split; [reflexivity|split; [exact H|exact H']].
Defined.

(** ** The budget of retained bytes *)

(** A thread between the two halves of a retain or a release of the bytes of
    one holder (a request context or a lease). *)
Inductive byte_pc :=
  | BIdle
  | BRetained (holder : nat) (bytes : Z)     (* counted globally, not yet in the holder *)
  | BReleasing (bytes : Z).                  (* taken from the holder, still counted globally *)

(** What a thread still owes the global counter. *)
Definition in_flight (pc : byte_pc) : Z :=
  match pc with BIdle => 0 | BRetained _ b => b | BReleasing b => b end.

Record ByteWorld := mkByteWorld { budget : Retained; held : list Z; byte_threads : list byte_pc }.

(** The atomic steps of [RequestContext::retainResponseBytes],
    [releaseResponseBytes] and of the lease, interleaved. *)
Inductive byte_step : ByteWorld -> ByteWorld -> Prop :=
  | bstep_retain b hs ts i h bytes b' ok :
      ts !! i = Some BIdle -> (h < length hs)%nat -> 0 < bytes < 2 ^ 64 ->
      tryRetainResponseBytes bytes b = (b', ok) ->
      byte_step (mkByteWorld b hs ts)
        (mkByteWorld b' hs (if ok then <[i := BRetained h bytes]> ts else ts))
  | bstep_retained b hs ts i h bytes held :
      ts !! i = Some (BRetained h bytes) -> hs !! h = Some held ->
      byte_step (mkByteWorld b hs ts) (mkByteWorld b (<[h := add_held bytes held]> hs) (<[i := BIdle]> ts))
  | bstep_release b hs ts i h held bytes released rest :
      ts !! i = Some BIdle -> hs !! h = Some held -> 0 <= bytes -> take_held bytes held = Some (released, rest) ->
      byte_step (mkByteWorld b hs ts)
        (mkByteWorld b (<[h := rest]> hs) (<[i := BReleasing released]> ts))
  | bstep_released b hs ts i bytes :
      ts !! i = Some (BReleasing bytes) ->
      byte_step (mkByteWorld b hs ts) (mkByteWorld (releaseRetainedResponseBytes bytes b) hs (<[i := BIdle]> ts))
  | bstep_configure b hs ts l :
      is_u64 l -> byte_step (mkByteWorld b hs ts) (mkByteWorld (configureRetainedResponseByteLimit l b) hs ts).

(** Every byte counted globally is in a holder or in flight. *)
Definition conserved (w : ByteWorld) : Prop :=
  used (budget w) = sumZ id (held w) + sumZ in_flight (byte_threads w) /\
  used (budget w) < 2 ^ 64 /\ Forall (fun x => 0 <= x) (held w) /\
  Forall (fun pc => 0 <= in_flight pc) (byte_threads w) /\ is_u64 (limit (budget w)).

(** A thread that nothing interrupts takes the steps of [retainResponseBytes]. *)
Lemma retain_alone bytes x m r x' m' r' ok :
  0 < bytes < 2 ^ 64 -> retainResponseBytes bytes x m r = (x', m', r', ok) ->
  rtc byte_step (mkByteWorld r [retained_response_bytes x] [BIdle]) (mkByteWorld r' [retained_response_bytes x'] [BIdle]).
Proof.
  intros Hb. unfold retainResponseBytes. rewrite (proj2 (Z.eqb_neq bytes 0)) by lia.
  destruct (tryRetainResponseBytes bytes r) as [r1 [|]] eqn:E.
  - intros [= <- <- <- <-].
    pose proof (bstep_retain r [retained_response_bytes x] [BIdle] 0 0 bytes r1 true eq_refl (Nat.lt_0_succ 0) Hb E) as H1.
    pose proof (bstep_retained r1 [retained_response_bytes x] [BRetained 0 bytes] 0 0 bytes _ eq_refl eq_refl) as H2.
    eapply rtc_l; [exact H1|]. by apply rtc_once.
  - destruct (suggestFailure FailCapacity x m) as [x1 m1] eqn:Ex. intros [= <- <- <- <-].
    replace (retained_response_bytes x1) with (retained_response_bytes x).
    { exact (rtc_once _ _ (bstep_retain r [retained_response_bytes x] [BIdle] 0 0 bytes r1 false eq_refl (Nat.lt_0_succ 0) Hb E)). }
    revert Ex. unfold suggestFailure, recordPostAdmissionCapacityFailureIfNeeded.
    repeat case_match; intros; simplify_eq; done.
Qed.

(** And the steps of [releaseResponseBytes]. *)
Lemma release_alone bytes x r x' r' n :
  0 <= bytes -> releaseResponseBytes bytes x r = (x', r', n) ->
  rtc byte_step (mkByteWorld r [retained_response_bytes x] [BIdle]) (mkByteWorld r' [retained_response_bytes x'] [BIdle]).
Proof.
  intros Hb. unfold releaseResponseBytes. destruct (take_held bytes (retained_response_bytes x)) as [[released rest]|] eqn:E.
  - intros [= <- <- <-].
    pose proof (bstep_release r [retained_response_bytes x] [BIdle] 0 0 _ _ _ _ eq_refl eq_refl Hb E) as H1.
    pose proof (bstep_released r [rest] [BReleasing released] 0 _ eq_refl) as H2.
    eapply rtc_l; [exact H1|]. by apply rtc_once.
  - intros [= <- <- <-]. reflexivity.
Qed.

Lemma tryRetain_cases bytes b b' ok :
  0 < bytes < 2 ^ 64 -> is_u64 (used b) -> is_u64 (limit b) ->
  tryRetainResponseBytes bytes b = (b', ok) ->
  limit b' = limit b /\
  if ok then used b' = used b + bytes /\ used b' < 2 ^ 64 /\ (limit b = 0 \/ used b' <= limit b)
  else used b' = used b /\ (2 ^ 64 <= used b + bytes \/ limit b <> 0 /\ limit b < used b + bytes).
Proof.
  intros Hb Hu Hl. unfold tryRetainResponseBytes, UINT64_MAX.
  destruct (Z.eqb_spec bytes 0); [lia|]. rewrite (u64_small (_ - used b)) by (unwrap; lia).
  split_if; intros [= <- <-]; simpl.
  - bools. split; [done|]. split; [done|].
    destruct Heqb0 as [H|H]; [apply Z.ltb_lt in H; lia|]. bools.
    apply Z.eqb_neq in H.
    destruct H0 as [H1|H1]; apply Z.ltb_lt in H1; [unwrap; lia|].
    destruct (Z.le_gt_cases bytes (limit b)); [|unwrap; lia].
    rewrite u64_small in H1 by (unwrap; lia). lia.
  - bools. apply Z.ltb_ge in H. rewrite u64_small by (unwrap; lia). split_and!; [done..|lia|].
    destruct (Z.eqb_spec (limit b) 0); [by left|]. simpl in H0.
    destruct H0 as [|H0]; [discriminate|]. apply orb_false_iff in H0 as [H1 H2]. apply Z.ltb_ge in H1, H2.
    rewrite u64_small in H2 by (unwrap; lia). lia.
Qed.

Lemma take_held_spec bytes held released rest : 0 <= held < 2 ^ 64 -> 0 <= bytes ->
  take_held bytes held = Some (released, rest) -> 0 < released <= bytes /\ released <= held /\ rest = held - released.
Proof.
  intros Hh Hb. unfold take_held. destruct (Z.eqb_spec held 0), (Z.eqb_spec bytes 0); [done..|].
  intros [= <- <-]. unwrap. lia.
Qed.

Lemma conserved_step w w' : conserved w -> byte_step w w' -> conserved w'.
Proof.
  intros (Hu & Hb & Hh & Ht & Hl) Hs.
  pose proof (sumZ_Forall_nonneg id _ Hh). pose proof (sumZ_Forall_nonneg _ _ Ht).
  destruct Hs as [b hs ts i h bytes b' ok Hi Hlt Hby E|b hs ts i h bytes x Hi Hx|b hs ts i h x bytes rel rest Hi Hx Hby Htake
    |b hs ts i bytes Hi|b hs ts l Hlim]; unfold conserved in *; simpl in *.
  - apply tryRetain_cases in E as [El E]; [|done|unfold is_u64; lia|done].
    rewrite El. destruct ok.
    + destruct E as (E1 & E2 & E3). rewrite (sumZ_insert _ _ _ _ _ Hi). simpl.
      split_and!; try done; try lia. apply Forall_insert; [done|simpl; lia].
    + destruct E as [-> _]. split_and!; try done; try lia.
  - pose proof (sumZ_lookup_le id _ _ _ Hh Hx) as Hx'. pose proof (sumZ_lookup_le _ _ _ _ Ht Hi) as Hi'.
    pose proof (Forall_lookup_1 _ _ _ _ Hh Hx). pose proof (Forall_lookup_1 _ _ _ _ Ht Hi).
    unfold id in *. simpl in *.
    rewrite (sumZ_insert _ _ _ _ _ Hx), (sumZ_insert _ _ _ _ _ Hi). simpl. unfold add_held. unwrap.
    split_and!; try done; try lia; apply Forall_insert; simpl; try done; lia.
  - pose proof (sumZ_lookup_le id _ _ _ Hh Hx) as Hx'. pose proof (Forall_lookup_1 _ _ _ _ Hh Hx).
    unfold id in *. simpl in *. apply take_held_spec in Htake as (HA & HB & ->); [|lia..].
    rewrite (sumZ_insert _ _ _ _ _ Hx), (sumZ_insert _ _ _ _ _ Hi). simpl. unwrap.
    split_and!; try done; try lia; apply Forall_insert; simpl; try done; lia.
  - pose proof (sumZ_lookup_le _ _ _ _ Ht Hi) as Hi'. pose proof (Forall_lookup_1 _ _ _ _ Ht Hi). simpl in *.
    rewrite (sumZ_insert _ _ _ _ _ Hi). simpl.
    assert (used (releaseRetainedResponseBytes bytes b) = used b - bytes /\
            limit (releaseRetainedResponseBytes bytes b) = limit b) as [-> ->].
    { unfold releaseRetainedResponseBytes. destruct (Z.eqb_spec bytes 0); simpl; [split; lia|].
      unwrap. done. }
    split_and!; try done; try lia. apply Forall_insert; [done|simpl; lia].
  - split_and!; done.
Qed.

(** C35: In every interleaving of threads that retain and release response
    bytes, the process-wide counter is the sum of what the requests and
    leases hold and of what is in flight, so no byte is lost and the counter
    never wraps: when no operation is under way and every holder has released
    its bytes it is back at zero.  A retain that succeeds keeps the counter
    within the configured limit. *)
Theorem retained_bytes_conserved l n m w :
  is_u64 l ->
  rtc byte_step (mkByteWorld (mkRetained 0 l 0) (replicate n 0) (replicate m BIdle)) w ->
  used (budget w) = sumZ id (held w) + sumZ in_flight (byte_threads w) /\
  is_u64 (used (budget w)) /\
  (Forall (eq 0) (held w) -> Forall (eq BIdle) (byte_threads w) -> used (budget w) = 0) /\
  (forall bytes b', 0 < bytes < 2 ^ 64 -> tryRetainResponseBytes bytes (budget w) = (b', true) ->
     used b' = used (budget w) + bytes /\ (limit (budget w) = 0 \/ used b' <= limit (budget w))).
Proof.
  intros Hl Hr.
  assert (Hc : conserved w).
  { eapply (invariant_rtc byte_step conserved); [intros; by eapply conserved_step| |exact Hr].
    assert (sumZ id (replicate n 0) = 0) as E1 by (clear; induction n as [|n IH]; [done|]; by rewrite replicate_S, sumZ_cons, IH).
    assert (sumZ in_flight (replicate m BIdle) = 0) as E2 by (clear; induction m as [|m IH]; [done|]; by rewrite replicate_S, sumZ_cons, IH).
    unfold conserved; simpl. rewrite E1, E2. split_and!; try done;
      apply Forall_replicate; simpl; lia. }
  destruct Hc as (Hu & Hb & Hh & Ht & Hlim).
  pose proof (sumZ_Forall_nonneg id _ Hh). pose proof (sumZ_Forall_nonneg _ _ Ht).
  split_and!; [done|unfold is_u64; lia| |].
  - intros H1 H2. rewrite Hu.
    assert (sumZ id (held w) = 0) as ->.
    { clear -H1. induction H1 as [|x hs <- _ IH]; [done|]. rewrite sumZ_cons, IH. done. }
    assert (sumZ in_flight (byte_threads w) = 0) as ->.
    { clear -H2. induction H2 as [|x hs <- _ IH]; [done|]. rewrite sumZ_cons, IH. done. }
    done.
  - intros bytes b' Hby E. apply tryRetain_cases in E as (E1 & E2 & E3 & E4); [done..|unfold is_u64; lia|done].
Qed.

Lemma retained_bytes_conserved_witness :
  rtc byte_step (mkByteWorld (mkRetained 0 10 0) [0] [BIdle]) (mkByteWorld (mkRetained 7 10 0) [0] [BRetained 0 7]) /\
  is_u64 (used (mkRetained 7 10 0)).
Proof.
  assert (H : rtc byte_step (mkByteWorld (mkRetained 0 10 0) (replicate 1 0) (replicate 1 BIdle))
            (mkByteWorld (mkRetained 7 10 0) [0] [BRetained 0 7])).
  { eapply rtc_l; [eapply (bstep_retain _ _ _ 0 0 7); [done|simpl; lia|lia|vm_compute; reflexivity]|].
    apply rtc_refl. }
  split; [exact H|]. apply (retained_bytes_conserved 10 1 1 _ ltac:(split; lia) H).
Defined.

(** ** Cancellation callbacks *)

(** The callbacks still waiting in the table. *)
Definition waiting (c : Cancellation) : list nat := (map_to_list (callbacks c)).*2.

Record CancelWorld := mkCancelWorld {
  cstate : Cancellation;
  won : list RequestCancellationReason;   (* the successful exchanges *)
  swapping : bool;                        (* the winner has not taken the callbacks yet *)
  ran : list nat;                         (* the callbacks run so far *)
  registered : list nat;                  (* the callbacks registered so far *)
  dropped : list nat                      (* the callbacks whose registration was reset *)
}.

(** The atomic steps of the threads that register and reset callbacks, cancel
    the request and start sending. *)
Inductive cancel_step : CancelWorld -> CancelWorld -> Prop :=
  | cstep_register c ws sw ra re dr cb c' id now :
      register_callback cb c = (c', id, now) ->
      cancel_step (mkCancelWorld c ws sw ra re dr) (mkCancelWorld c' ws sw (now ++ ra) (cb :: re) dr)
  | cstep_reset c ws sw ra re dr id :
      cancel_step (mkCancelWorld c ws sw ra re dr)
        (mkCancelWorld (reset_registration id c) ws sw ra re
           (if id =? 0 then dr else match callbacks c !! id with Some cb => cb :: dr | None => dr end))
  | cstep_exchange c ws sw ra re dr r c' ok :
      cancel_exchange r c = (c', ok) ->
      cancel_step (mkCancelWorld c ws sw ra re dr)
        (mkCancelWorld c' (if ok then r :: ws else ws) (if ok then true else sw) ra re dr)
  | cstep_run c ws ra re dr c' now :
      cancel_run c = (c', now) ->
      cancel_step (mkCancelWorld c ws true ra re dr) (mkCancelWorld c' ws false (now ++ ra) re dr)
  | cstep_send c ws sw ra re dr :
      cancel_step (mkCancelWorld c ws sw ra re dr)
        (mkCancelWorld (mkCancellation (reason c) true (callbacks c) (next_callback_id c)) ws sw ra re dr).

Definition cancel_init : CancelWorld := mkCancelWorld new_cancellation [] false [] [] [].

Record cancel_ok (w : CancelWorld) : Prop := {
  co_next : 1 <= next_callback_id (cstate w) <= 1 + Z.of_nat (length (registered w));
  co_ids : map_Forall (fun id _ => id < next_callback_id (cstate w)) (callbacks (cstate w));
  co_all : registered w ≡ₚ ran w ++ dropped w ++ waiting (cstate w);
  co_live : reason (cstate w) = CancelNone -> won w = [] /\ swapping w = false /\ ran w = [];
  co_won : reason (cstate w) <> CancelNone -> won w = [reason (cstate w)];
  co_done : reason (cstate w) <> CancelNone -> swapping w = false -> callbacks (cstate w) = ∅
}.

Lemma waiting_insert (m : gmap Z nat) id cb :
  m !! id = None -> (map_to_list (<[id := cb]> m)).*2 ≡ₚ cb :: (map_to_list m).*2.
Proof. intros H. rewrite map_to_list_insert by done. done. Qed.

Lemma waiting_delete (m : gmap Z nat) id cb :
  m !! id = Some cb -> (map_to_list m).*2 ≡ₚ cb :: (map_to_list (delete id m)).*2.
Proof. intros H. rewrite <- (map_to_list_delete _ _ _ H). done. Qed.

Lemma cancel_ok_register w cb c' id now :
  Z.of_nat (length (registered w)) < 2 ^ 64 - 2 -> cancel_ok w ->
  register_callback cb (cstate w) = (c', id, now) ->
  cancel_ok (mkCancelWorld c' (won w) (swapping w) (now ++ ran w) (cb :: registered w) (dropped w)).
Proof.
  intros Hlt [Hn Hi Ha Hl Hw Hd]. unfold register_callback, isCancellationRequested.
  case_bool_decide as Hc; simpl.
  - destruct (callbacks (cstate w) !! next_callback_id (cstate w)) eqn:El.
    { apply Hi in El. lia. }
    intros [= <- <- <-]. destruct (Hl Hc) as (-> & -> & ->). constructor; simpl; try done.
    + unwrap. lia.
    + unwrap. intros id' cb' H. apply lookup_insert_Some in H as [[<- <-]|[_ H]]; [lia|].
      apply Hi in H. lia.
    + rewrite Ha. unfold waiting. simpl. rewrite waiting_insert by done.
      destruct (Hl Hc) as (_ & _ & ->). simpl. by rewrite Permutation_middle.
  - intros [= <- <- <-]. constructor; simpl; try done; [lia|by rewrite Ha].
Qed.

Lemma cancel_ok_reset w id :
  cancel_ok w ->
  cancel_ok (mkCancelWorld (reset_registration id (cstate w)) (won w) (swapping w) (ran w) (registered w)
    (if id =? 0 then dropped w
     else match callbacks (cstate w) !! id with Some cb => cb :: dropped w | None => dropped w end)).
Proof.
  intros [Hn Hi Ha Hl Hw Hd]. unfold reset_registration. destruct (id =? 0); [by constructor|].
  constructor; simpl; try done.
  - intros id' cb' H. apply lookup_delete_Some in H as [_ H]. by apply Hi in H.
  - unfold waiting in *. simpl. destruct (callbacks (cstate w) !! id) eqn:E.
    + rewrite Ha, (waiting_delete _ _ _ E). simpl. by rewrite <- (Permutation_middle (dropped w)).
    + by rewrite delete_id.
  - intros H1 H2. rewrite Hd by done. apply delete_empty.
Qed.

Lemma cancel_ok_exchange w r c' ok :
  cancel_ok w -> cancel_exchange r (cstate w) = (c', ok) ->
  cancel_ok (mkCancelWorld c' (if ok then r :: won w else won w) (if ok then true else swapping w)
    (ran w) (registered w) (dropped w)).
Proof.
  intros [Hn Hi Ha Hl Hw Hd]. unfold cancel_exchange, isCancellationRequested.
  case_bool_decide as Hr; [intros [= <- <-]; by constructor|].
  split_if; [intros [= <- <-]; by constructor|]. clear Heqb.
  case_bool_decide as Hc; simpl; [|intros [= <- <-]; by constructor].
  intros [= <- <-]. destruct (Hl Hc) as (-> & _ & _).
  by constructor.
Qed.

Lemma cancel_ok_step w w' :
  (Z.of_nat (length (registered w)) < 2 ^ 64 - 2 -> cancel_ok w) -> cancel_step w w' ->
  Z.of_nat (length (registered w')) < 2 ^ 64 - 2 -> cancel_ok w'.
Proof.
  intros Hok Hs Hlt. destruct Hs; simpl in *.
  - eapply (cancel_ok_register (mkCancelWorld c ws sw ra re dr)); [simpl; lia|apply Hok; lia|done].
  - apply (cancel_ok_reset (mkCancelWorld c ws sw ra re dr)). by apply Hok.
  - eapply (cancel_ok_exchange (mkCancelWorld c ws sw ra re dr)); [by apply Hok|done].
  - destruct (Hok Hlt) as [Hn Hi Ha Hl Hw Hd]. unfold cancel_run in H. injection H as <- <-.
    constructor; simpl in *; try done.
    + rewrite Ha. rewrite app_nil_r. unfold waiting. by rewrite (app_assoc ra dr), <- (Permutation_app_comm _ (ra ++ dr)), <- app_assoc.
    + intros H. destruct (Hl H) as (_ & ? & _). done.
  - destruct (Hok Hlt). by constructor.
Qed.

(** C9: In every interleaving of threads that register and reset callbacks
    and cancel the request, at most one cancellation wins, no callback runs
    before it, and every callback registered so far is exactly once in one of
    three places: already run, dropped with its registration, or waiting in
    the table.  Once the winner has taken the table, nothing is left waiting:
    a callback registered too late ran at once. *)
Theorem callbacks_exactly_once w :
  rtc cancel_step cancel_init w ->
  Z.of_nat (length (registered w)) < 2 ^ 64 - 2 ->
  registered w ≡ₚ ran w ++ dropped w ++ waiting (cstate w) /\
  (reason (cstate w) = CancelNone -> won w = [] /\ ran w = []) /\
  (reason (cstate w) <> CancelNone -> won w = [reason (cstate w)]) /\
  (reason (cstate w) <> CancelNone -> swapping w = false -> registered w ≡ₚ ran w ++ dropped w).
Proof.
  intros Hr Hlt.
  assert (Hok : cancel_ok w).
  { revert Hlt.
    refine (invariant_rtc cancel_step (fun w => Z.of_nat (length (registered w)) < 2 ^ 64 - 2 -> cancel_ok w)
              _ cancel_init w _ Hr).
    - intros s s' IH Hs. by eapply cancel_ok_step.
    - intros _. by constructor. }
  destruct Hok as [Hn Hi Ha Hl Hw Hd]. split_and!; [done| |done|].
  - intros H. by destruct (Hl H) as (-> & _ & ->).
  - intros H1 H2. rewrite Ha at 1. unfold waiting. rewrite (Hd H1 H2), map_to_list_empty. simpl.
    by rewrite app_nil_r.
Qed.

(** Two callbacks, a cancellation between them, and the second runs at once. *)
Definition cancel_example : CancelWorld :=
  mkCancelWorld (mkCancellation CancelDeadline false ∅ 2) [CancelDeadline] false [1%nat; 2%nat] [2%nat; 1%nat] [].

Lemma callbacks_exactly_once_witness :
  rtc cancel_step cancel_init cancel_example /\
  registered cancel_example ≡ₚ ran cancel_example ++ dropped cancel_example.
Proof.
  assert (H : rtc cancel_step cancel_init cancel_example).
  { eapply rtc_l; [eapply (cstep_register _ _ _ _ _ _ 1%nat); vm_compute; reflexivity|].
    eapply rtc_l; [eapply (cstep_exchange _ _ _ _ _ _ CancelDeadline); vm_compute; reflexivity|].
    eapply rtc_l; [eapply (cstep_register _ _ _ _ _ _ 2%nat); vm_compute; reflexivity|].
    eapply rtc_l; [apply cstep_run; vm_compute; reflexivity|]. apply rtc_refl. }
  split; [exact H|].
  refine (proj2 (proj2 (proj2 (callbacks_exactly_once cancel_example H _))) _ _); [simpl; lia|discriminate|done].
Defined.
