(* ===== verification/Scheduler.v ===== *)
(** * utils/workload_scheduler.h: the bounded weighted scheduler

    Three FIFO queues (low, medium and high cost) share an entry and a byte
    budget; workers take tasks by weighted round robin with an ageing rule.
    [Scheduler] is the state the mutex protects, every critical section is
    one function on it, and the threads (submitters, workers, the one that
    shuts down) interleave as a step relation.  A cancellation token is the
    boolean the code reads from it at that moment; [enqueued_at] and the other
    time points are nanoseconds of the steady clock. *)

From S2P Require Import Prelude Str RequestContext.
Open Scope Z_scope.

(** ** Data *)

(** src/src/utils/workload_scheduler.h:24-31 [SchedulerSubmitStatus] *)
Inductive SchedulerSubmitStatus := Accepted | EntryLimit | ByteLimit | Deadline | Cancelled | Stopping.

#[export] Instance status_eq_dec : EqDecision SchedulerSubmitStatus. Proof. solve_decision. Defined.

(** src/src/utils/workload_scheduler.h:41-57 [SchedulerSubmitError::message] *)
Definition message (s : SchedulerSubmitStatus) : str :=
  match s with
  | EntryLimit => "workload scheduler entry limit reached"
  | ByteLimit => "workload scheduler byte limit reached"
  | Deadline => "workload scheduler deadline exceeded"
  | Cancelled => "workload scheduler request cancelled"
  | Stopping => "workload scheduler is stopping"
  | Accepted => "workload scheduler submission error"
  end.

(** src/src/utils/workload_scheduler.h:86-96 [TaskBase]
    The function a task runs is named by [task_id]. *)
Record Task := mkTask {
  task_id : nat;
  cost : RequestCostClass;
  bytes : Z;
  enqueued_at : Z;
  task_deadline : Z
}.

(** src/src/utils/workload_scheduler.h:501-518 [WorkloadScheduler] *)
Record Scheduler := mkScheduler {
  max_entries : Z;
  max_bytes : Z;
  queues : list (list Task);
  credits : list Z;
  next_queue : Z;
  queued_entries : Z;
  queued_bytes : Z;
  active : Z;
  accepted : Z;
  rejected : Z;
  cancelled : Z;
  stopping : bool
}.

Definition kWeights : list Z := [8; 4; 1].

(** src/src/utils/workload_scheduler.h:174-177 [WorkloadScheduler::WorkloadScheduler] *)
Definition new_scheduler (entries bytes : Z) : Scheduler :=
  mkScheduler (if entries =? 0 then 1 else entries) (if bytes =? 0 then 1 else bytes)
    [[]; []; []] kWeights 0 0 0 0 0 0 0 false.

(** src/src/utils/workload_scheduler.h:382-393 [WorkloadScheduler::normalizedCost] *)
Definition normalizedCost (c : RequestCostClass) : RequestCostClass :=
  match c with
  | CostLow | CostMedium | CostHigh => c
  | CostUnclassified | CostCount => CostMedium
  end.

(** src/src/utils/workload_scheduler.h:395-408 [WorkloadScheduler::queueIndex] *)
Definition queueIndex (c : RequestCostClass) : nat :=
  match c with CostLow => 0 | CostMedium => 1 | CostHigh => 2 | CostUnclassified | CostCount => 1 end.

(** ** Results of a callback task *)

Section CallbackTask.
Context {Result Exn : Type} (scheduler_error : SchedulerSubmitStatus -> Exn).

(** src/src/utils/workload_scheduler.h:67-71 [SchedulerAsyncResult] *)
Record SchedulerAsyncResult := mkAsyncResult {
  result_status : SchedulerSubmitStatus;
  result_error : option Exn;
  result_value : option Result
}.

(** src/src/utils/workload_scheduler.h:159-166 [CallbackTask::complete]
    The completions the task has delivered; the flag is exchanged first. *)
Definition complete (r : SchedulerAsyncResult) (st : bool * list SchedulerAsyncResult) :
    bool * list SchedulerAsyncResult :=
  if st.1 then st else (true, st.2 ++ [r]).

(** src/src/utils/workload_scheduler.h:136-145 [CallbackTask::run]
    [outcome] is what the function returns or throws. *)
Definition callback_run (outcome : Exn + Result) (st : bool * list SchedulerAsyncResult) :=
  complete (match outcome with
            | inr v => mkAsyncResult Accepted None (Some v)
            | inl e => mkAsyncResult Accepted (Some e) None
            end) st.

(** src/src/utils/workload_scheduler.h:147-157 [CallbackTask::cancel] *)
Definition callback_cancel (s : SchedulerSubmitStatus) (st : bool * list SchedulerAsyncResult) :=
  complete (mkAsyncResult s (Some (scheduler_error s)) None) st.
End CallbackTask.

(** ** Submission *)

(** src/src/utils/workload_scheduler.h:210-238 [WorkloadScheduler::submit, critical section]
    [requested] is the state of the task's cancellation token. *)
Definition submit_locked (requested : bool) (t : Task) (s : Scheduler) : Scheduler * SchedulerSubmitStatus :=
  let status :=
    if stopping s then Stopping
    else if requested then Cancelled
    else if negb (task_deadline t =? INT64_MAX) && (task_deadline t <=? enqueued_at t) then Deadline
    else if max_entries s <=? queued_entries s then EntryLimit
    else if (max_bytes s <? bytes t) || (u64 (max_bytes s - bytes t) <? queued_bytes s) then ByteLimit
    else Accepted in
  match status with
  | Accepted =>
      (mkScheduler (max_entries s) (max_bytes s)
         (alter (fun q => q ++ [t]) (queueIndex (cost t)) (queues s)) (credits s) (next_queue s)
         (u64 (queued_entries s + 1)) (u64 (queued_bytes s + bytes t)) (active s)
         (u64 (accepted s + 1)) (rejected s) (cancelled s) (stopping s), Accepted)
  | _ =>
      (mkScheduler (max_entries s) (max_bytes s) (queues s) (credits s) (next_queue s)
         (queued_entries s) (queued_bytes s) (active s) (accepted s) (u64 (rejected s + 1))
         (cancelled s) (stopping s), status)
  end.

(** src/src/utils/workload_scheduler.h:198-246 [WorkloadScheduler::submit]
    The result also says whether the task's promise was failed at once. *)
Definition submit (c : RequestCostClass) (size deadline now : Z) (requested : bool) (id : nat) (s : Scheduler) :
    Scheduler * SchedulerSubmitStatus * bool :=
  let t := mkTask id (normalizedCost c) size now deadline in
  let '(s, status) := submit_locked requested t s in
  (s, status, negb (bool_decide (status = Accepted))).

(** src/src/utils/workload_scheduler.h:248-300 [WorkloadScheduler::submitAsync]
    A rejected task is cancelled, which completes it with the status. *)
Definition submitAsync {Result Exn} (scheduler_error : SchedulerSubmitStatus -> Exn)
    (c : RequestCostClass) (size deadline now : Z) (requested : bool) (id : nat) (s : Scheduler) :
    Scheduler * SchedulerSubmitStatus * (bool * list (@SchedulerAsyncResult Result Exn)) :=
  let t := mkTask id (normalizedCost c) size now deadline in
  let '(s, status) := submit_locked requested t s in
  (s, status,
   if bool_decide (status = Accepted) then (false, []) else callback_cancel scheduler_error status (false, [])).

(** ** Taking a task *)

(** The scan for the oldest head: the first queue whose head is strictly older. *)
Fixpoint oldest_loop (index : nat) (oldest : Z) (oldest_index : option nat) (qs : list (list Task)) :
    Z * option nat :=
  match qs with
  | [] => (oldest, oldest_index)
  | [] :: qs => oldest_loop (S index) oldest oldest_index qs
  | (t :: _) :: qs =>
      if enqueued_at t <? oldest then oldest_loop (S index) (enqueued_at t) (Some index) qs
      else oldest_loop (S index) oldest oldest_index qs
  end.

Definition is_empty {A} (l : list A) : bool := match l with [] => true | _ => false end.

Definition activeHasCredit (s : Scheduler) : bool :=
  existsb (fun qc => negb (is_empty qc.1) && negb (qc.2 =? 0)) (zip (queues s) (credits s)).

(** src/src/utils/workload_scheduler.h:449-456 [WorkloadScheduler::popLocked] *)
Definition popLocked (index : nat) (s : Scheduler) : option (Task * Scheduler) :=
  match queues s !! index with
  | Some (t :: q) =>
      Some (t, mkScheduler (max_entries s) (max_bytes s) (<[index := q]> (queues s)) (credits s) (next_queue s)
                 (u64 (queued_entries s - 1)) (u64 (queued_bytes s - bytes t)) (u64 (active s + 1))
                 (accepted s) (rejected s) (cancelled s) (stopping s))
  | _ => None
  end.

Definition set_credits (c : list Z) (s : Scheduler) : Scheduler :=
  mkScheduler (max_entries s) (max_bytes s) (queues s) c (next_queue s) (queued_entries s) (queued_bytes s)
    (active s) (accepted s) (rejected s) (cancelled s) (stopping s).
Definition set_next_queue (n : Z) (s : Scheduler) : Scheduler :=
  mkScheduler (max_entries s) (max_bytes s) (queues s) (credits s) n (queued_entries s) (queued_bytes s)
    (active s) (accepted s) (rejected s) (cancelled s) (stopping s).

(** The refill of the credits when no non-empty queue has any. *)
Definition refill (s : Scheduler) : Scheduler :=
  if activeHasCredit s then s
  else set_credits (zip_with (fun q w => if is_empty q then 0 else w) (queues s) kWeights) s.

(** The round-robin attempts; [inr] when all of them failed. *)
Fixpoint attempt_loop (attempts : nat) (s : Scheduler) : option (Task * Scheduler) + Scheduler :=
  match attempts with
  | O => inr s
  | S attempts =>
      let index := Z.to_nat (next_queue s mod Z.of_nat (length (queues s))) in
      let s := set_next_queue (u64 (next_queue s + 1)) s in
      if (default 0 (credits s !! index) =? 0) || is_empty (default [] (queues s !! index))
      then attempt_loop attempts s
      else inl (popLocked index (set_credits (alter (fun c => u8 (c - 1)) index (credits s)) s))
  end.

(** src/src/utils/workload_scheduler.h:410-447 [WorkloadScheduler::takeTaskLocked]
    The state is also returned when there is no task: the attempts move
    [next_queue_].  500 ms are 500,000,000 ns. *)
Definition takeTaskLocked (now : Z) (s : Scheduler) : option Task * Scheduler :=
  let '(oldest, oldest_index) := oldest_loop 0 INT64_MAX None (queues s) in
  let pop i s := match popLocked i s with Some (t, s') => (Some t, s') | None => (None, s) end in
  match oldest_index with
  | Some i =>
      if 500000000 <=? now - oldest then pop i s
      else
        match attempt_loop (length (queues s) * 2) (refill s) with
        | inl (Some (t, s)) => (Some t, s)
        | inl None => (None, s)
        | inr s => pop i s
        end
  | None =>
      match attempt_loop (length (queues s) * 2) (refill s) with
      | inl (Some (t, s)) => (Some t, s)
      | inl None => (None, s)
      | inr s => (None, s)
      end
  end.

(** ** Workers and shutdown *)

(** src/src/utils/workload_scheduler.h:481-486 [WorkloadScheduler::workerLoop, check] *)
Definition check_task (now : Z) (requested : bool) (t : Task) : SchedulerSubmitStatus :=
  if requested then Cancelled
  else if negb (task_deadline t =? INT64_MAX) && (task_deadline t <=? now) then Deadline
  else Accepted.

Definition add_cancelled (n : Z) (s : Scheduler) : Scheduler :=
  mkScheduler (max_entries s) (max_bytes s) (queues s) (credits s) (next_queue s) (queued_entries s)
    (queued_bytes s) (active s) (accepted s) (rejected s) (u64 (cancelled s + n)) (stopping s).

(** src/src/utils/workload_scheduler.h:494-497 [WorkloadScheduler::workerLoop, end of a task] *)
Definition finish_task (s : Scheduler) : Scheduler :=
  mkScheduler (max_entries s) (max_bytes s) (queues s) (credits s) (next_queue s) (queued_entries s)
    (queued_bytes s) (u64 (active s - 1)) (accepted s) (rejected s) (cancelled s) (stopping s).

(** src/src/utils/workload_scheduler.h:308-318 [WorkloadScheduler::requestShutdown, first section]
    [None] when another thread has already begun. *)
Definition begin_shutdown (cancel_pending : bool) (s : Scheduler) : option Scheduler :=
  if stopping s then None
  else Some (mkScheduler (max_entries s) (max_bytes s) (queues s) (credits s) (next_queue s)
         (if cancel_pending then 0 else queued_entries s) (if cancel_pending then 0 else queued_bytes s)
         (active s) (accepted s) (rejected s)
         (if cancel_pending then u64 (cancelled s + queued_entries s) else cancelled s) true).

(** The first non-empty queue loses its head. *)
Fixpoint drain_first (qs : list (list Task)) : option Task * list (list Task) :=
  match qs with
  | [] => (None, [])
  | [] :: qs => let '(t, qs) := drain_first qs in (t, [] :: qs)
  | (t :: q) :: qs => (Some t, q :: qs)
  end.

(** src/src/utils/workload_scheduler.h:320-331 [WorkloadScheduler::requestShutdown, one round of the drain] *)
Definition drain_one (s : Scheduler) : option Task * Scheduler :=
  let '(t, qs) := drain_first (queues s) in
  (t, mkScheduler (max_entries s) (max_bytes s) qs (credits s) (next_queue s) (queued_entries s)
        (queued_bytes s) (active s) (accepted s) (rejected s) (cancelled s) (stopping s)).

(** src/src/utils/workload_scheduler.h:73-81 [WorkloadSchedulerSnapshot] *)
Record WorkloadSchedulerSnapshot := mkSnapshot {
  snap_entries : Z; snap_bytes : Z; snap_active : Z; snap_accepted : Z; snap_rejected : Z;
  snap_cancelled : Z; snap_oldest_age_ms : Z
}.

(** src/src/utils/workload_scheduler.h:359-375 [WorkloadScheduler::snapshot] *)
Definition snapshot (now : Z) (s : Scheduler) : WorkloadSchedulerSnapshot :=
  let oldest := foldl (fun o q => match q with [] => o | t :: _ => Z.min o (enqueued_at t) end)
                  INT64_MAX (queues s) in
  mkSnapshot (queued_entries s) (queued_bytes s) (active s) (accepted s) (rejected s) (cancelled s)
    (if oldest =? INT64_MAX then 0 else Z.max 0 (Z.quot (now - oldest) 1000000)).

(** What happened to a task. *)
Inductive Outcome := Ran | CancelledWith (s : SchedulerSubmitStatus).

(** Where a worker is in its loop. *)
Inductive worker_pc :=
  | WIdle                  (* at the wait *)
  | WTaken (t : Task)      (* has taken a task and not checked it *)
  | WCancelled             (* has cancelled its task, counter not yet incremented *)
  | WFinish                (* before the decrement of active_ *)
  | WExit.

Record World := mkWorld {
  sched : Scheduler;
  workers : list worker_pc;
  draining : bool;                  (* a shutdown thread is cancelling the queued tasks *)
  submitted : list Task;            (* the accepted tasks *)
  done_log : list (Task * Outcome)  (* the accepted tasks that were run or cancelled *)
}.

(** src/src/utils/workload_scheduler.h:458-499 [WorkloadScheduler::workerLoop]
    The interleaving of the critical sections of the worker loop with those
    of [submit] and [requestShutdown]. *)
Inductive step : World -> World -> Prop :=
  | step_submit s ws d sub log requested t s' status :
      submit_locked requested t s = (s', status) -> 0 <= bytes t < 2 ^ 64 -> enqueued_at t < INT64_MAX ->
      step (mkWorld s ws d sub log)
        (mkWorld s' ws d (if bool_decide (status = Accepted) then t :: sub else sub) log)
  | step_take s ws d sub log i now t s' :
      ws !! i = Some WIdle -> stopping s || negb (queued_entries s =? 0) = true ->
      stopping s && (queued_entries s =? 0) = false ->
      takeTaskLocked now s = (t, s') ->
      step (mkWorld s ws d sub log)
        (mkWorld s' (match t with Some t => <[i := WTaken t]> ws | None => ws end) d sub log)
  | step_exit s ws d sub log i :
      ws !! i = Some WIdle -> stopping s && (queued_entries s =? 0) = true ->
      step (mkWorld s ws d sub log) (mkWorld s (<[i := WExit]> ws) d sub log)
  | step_check s ws d sub log i now requested t status :
      ws !! i = Some (WTaken t) -> check_task now requested t = status ->
      step (mkWorld s ws d sub log)
        (if bool_decide (status = Accepted)
         then mkWorld s (<[i := WFinish]> ws) d sub ((t, Ran) :: log)
         else mkWorld s (<[i := WCancelled]> ws) d sub ((t, CancelledWith status) :: log))
  | step_cancelled s ws d sub log i :
      ws !! i = Some WCancelled ->
      step (mkWorld s ws d sub log) (mkWorld (add_cancelled 1 s) (<[i := WFinish]> ws) d sub log)
  | step_finish s ws d sub log i :
      ws !! i = Some WFinish ->
      step (mkWorld s ws d sub log) (mkWorld (finish_task s) (<[i := WIdle]> ws) d sub log)
  | step_shutdown s ws d sub log cancel_pending s' :
      begin_shutdown cancel_pending s = Some s' ->
      step (mkWorld s ws d sub log) (mkWorld s' ws cancel_pending sub log)
  | step_drain s ws sub log t s' :
      drain_one s = (t, s') ->
      step (mkWorld s ws true sub log)
        (match t with
         | Some t => mkWorld s' ws true sub ((t, CancelledWith Stopping) :: log)
         | None => mkWorld s' ws false sub log
         end).

(** ** The queues as multisets *)

Definition pending (s : Scheduler) : list Task := concat (queues s).

Lemma concat_insert {A} (ls : list (list A)) i l k :
  ls !! i = Some l -> concat (<[i := k]> ls) ≡ₚ k ++ concat (delete i ls).
Proof.
  revert i. induction ls as [|m ls IH]; intros [|i] H; simplify_eq/=; [done|].
  rewrite (IH _ H). rewrite !app_assoc. by rewrite (Permutation_app_comm m).
Qed.

Lemma concat_lookup {A} (ls : list (list A)) i l : ls !! i = Some l -> concat ls ≡ₚ l ++ concat (delete i ls).
Proof. intros H. rewrite <- (list_insert_id ls i l H) at 1. by apply (concat_insert _ _ l). Qed.

Lemma concat_pop {A} (ls : list (list A)) i x l :
  ls !! i = Some (x :: l) -> concat ls ≡ₚ x :: concat (<[i := l]> ls).
Proof. intros H. rewrite (concat_lookup _ _ _ H), (concat_insert _ _ _ _ H). done. Qed.

Lemma concat_push {A} (ls : list (list A)) i x :
  (i < length ls)%nat -> concat (alter (fun l => l ++ [x]) i ls) ≡ₚ x :: concat ls.
Proof.
  revert i. induction ls as [|l ls IH]; intros [|i] H; csimpl in *; [lia|lia| |].
  - rewrite <- app_assoc. simpl. by rewrite <- Permutation_middle.
  - rewrite IH by lia. by rewrite Permutation_middle.
Qed.

Lemma drain_first_spec qs t qs' :
  drain_first qs = (t, qs') ->
  length qs' = length qs /\
  match t with Some t => concat qs = t :: concat qs' | None => concat qs = [] /\ qs' = qs end.
Proof.
  revert t qs'. induction qs as [|[|u q] qs IH]; intros t qs' H; simpl in *; [by simplify_eq|..].
  - destruct (drain_first qs) as [t1 qs1] eqn:E. simplify_eq. destruct (IH _ _ eq_refl) as [H1 H2].
    simpl. split; [lia|]. destruct t; [done|]. by destruct H2 as [-> ->].
  - by simplify_eq.
Qed.

Lemma queueIndex_lt c : (queueIndex c < 3)%nat.
Proof. destruct c; simpl; lia. Qed.

(** ** Taking a task *)

(** The two states differ in the round-robin fields only. *)
Definition same_queues (s s' : Scheduler) : Prop :=
  s' = set_next_queue (next_queue s') (set_credits (credits s') s).

(** The shape of a scheduler: three queues, three one-byte credits. *)
Record shaped (s : Scheduler) : Prop := {
  sh_queues : length (queues s) = 3%nat;
  sh_credits : length (credits s) = 3%nat;
  sh_bytes : Forall (fun c => 0 <= c < 256) (credits s);
  sh_next : is_u64 (next_queue s)
}.

(** Queue [i] has a task and credit for it. *)
Definition usable (s : Scheduler) (i : nat) : bool :=
  negb ((default 0 (credits s !! i) =? 0) || is_empty (default [] (queues s !! i))).

Lemma activeHasCredit_spec s :
  shaped s -> activeHasCredit s = true <-> exists i, usable s i = true.
Proof.
  intros [Hq Hc _ _]. unfold activeHasCredit, usable.
  destruct (queues s) as [|q0 [|q1 [|q2 [|]]]]; simplify_eq/=.
  destruct (credits s) as [|c0 [|c1 [|c2 [|]]]]; simplify_eq/=.
  split.
  - intros H. repeat (apply orb_true_iff in H; destruct H as [H|H]); [exists 0%nat|exists 1%nat|exists 2%nat|done];
      simpl; by rewrite negb_orb, andb_comm.
  - intros [[|[|[|i]]] H]; simpl in *; try discriminate; rewrite negb_orb, andb_comm in H.
    all: by rewrite ?H, ?orb_true_r.
Qed.

Lemma refill_spec s :
  shaped s -> shaped (refill s) /\ same_queues s (refill s) /\
  (Exists (fun q => q <> []) (queues s) -> exists i, usable (refill s) i = true).
Proof.
  intros Hs. unfold refill. destruct (activeHasCredit s) eqn:E.
  - apply activeHasCredit_spec in E; [|done]. split_and!; [done| |done].
    by destruct s.
  - destruct Hs as [Hq Hc Hb Hn].
    destruct s as [me mb qs cs nq qe qb ac acc rej can st]; unfold usable; simpl in *.
    destruct qs as [|q0 [|q1 [|q2 [|]]]]; simplify_eq/=.
    split_and!; [|done|].
    + constructor; simpl; try done. repeat constructor; by repeat split_if.
    + intros H. rewrite !Exists_cons in H. destruct H as [H|[H|[H|H]]];
        [exists 0%nat|exists 1%nat|exists 2%nat|by apply Exists_nil in H]; simpl;
        [destruct q0|destruct q1|destruct q2]; done.
Qed.

Lemma usable_pop s i :
  usable s i = true -> exists t q, queues s !! i = Some (t :: q) /\ default 0 (credits s !! i) <> 0.
Proof.
  unfold usable. rewrite negb_true_iff, orb_false_iff. intros [H1 H2].
  apply Z.eqb_neq in H1. destruct (queues s !! i) as [[|t q]|]; [done| |done]. by exists t, q.
Qed.

(** Every index is reached by six consecutive values of the wrapping counter. *)
Lemma residues_covered n i :
  is_u64 n -> (i < 3)%nat -> exists j, 0 <= j < 6 /\ Z.to_nat (u64 (n + j) mod 3) = i.
Proof.
  intros Hn Hi. unfold is_u64 in Hn.
  assert (Hcase : forall m, 0 <= m -> m + 2 < 2 ^ 64 ->
    exists j, 0 <= j < 3 /\ Z.to_nat (u64 (m + j) mod 3) = i).
  { intros m H1 H2. exists ((Z.of_nat i - m) mod 3). split; [apply Z.mod_pos_bound; lia|].
    assert (0 <= (Z.of_nat i - m) mod 3 < 3) by (apply Z.mod_pos_bound; lia).
    unwrap. rewrite Z.add_mod_idemp_r by lia. replace (m + (Z.of_nat i - m)) with (Z.of_nat i) by lia.
    rewrite Z.mod_small by lia. lia. }
  destruct (Z.lt_ge_cases (n + 2) (2 ^ 64)) as [H|H].
  - destruct (Hcase n) as (j & Hj & E); [lia..|]. exists j. split; [lia|done].
  - destruct (Hcase (u64 (n + 3))) as (j & Hj & E).
    + apply u64_range.
    + unfold u64. replace (n + 3) with ((n + 3 - 2 ^ 64) + 1 * 2 ^ 64) by lia.
      rewrite Z.mod_add by lia. rewrite Z.mod_small; lia.
    + exists (3 + j). split; [lia|]. by rewrite u64_add_idemp_l, <- Z.add_assoc in E.
Qed.

Lemma attempt_loop_spec attempts s :
  shaped s ->
  match attempt_loop attempts s with
  | inl r => exists i t q n, usable s i = true /\ queues s !! i = Some (t :: q) /\
      r = popLocked i (set_credits (alter (fun c => u8 (c - 1)) i (credits s)) (set_next_queue n s)) /\ is_u64 n
  | inr s' => shaped s' /\ same_queues s s' /\
      forall j, 0 <= j < Z.of_nat attempts -> usable s (Z.to_nat (u64 (next_queue s + j) mod 3)) = false
  end.
Proof.
  revert s. induction attempts as [|k IH]; intros s Hs.
  { simpl. split_and!; [done| |lia]. by destruct s. }
  cbn [attempt_loop]. rewrite (sh_queues _ Hs). change (Z.of_nat 3) with 3.
  set (i := Z.to_nat (next_queue s mod 3)). cbn [credits queues set_next_queue].
  destruct ((default 0 (credits s !! i) =? 0) || is_empty (default [] (queues s !! i))) eqn:E.
  - assert (Hs' : shaped (set_next_queue (u64 (next_queue s + 1)) s)).
    { destruct Hs. constructor; simpl; try done. apply u64_is_u64. }
    specialize (IH _ Hs'). destruct (attempt_loop k _) as [r|s'].
    + destruct IH as (i' & t & q & n & H1 & H2 & H3 & H4). exists i', t, q, n.
      split_and!; [done|done| |done]. by destruct s.
    + destruct IH as (H1 & H2 & H3). split_and!; [done|by destruct s|].
      intros j Hj. destruct (decide (j = 0)) as [->|].
      * rewrite Z.add_0_r, u64_small by apply Hs. unfold usable. fold i. by rewrite E.
      * specialize (H3 (j - 1) ltac:(lia)). cbn [next_queue set_next_queue] in H3.
        rewrite u64_add_idemp_l in H3.
        replace (next_queue s + 1 + (j - 1)) with (next_queue s + j) in H3 by lia. exact H3.
  - assert (Hu : usable s i = true) by (unfold usable; by rewrite E).
    destruct (usable_pop _ _ Hu) as (t & q & Hq & _). exists i, t, q, (u64 (next_queue s + 1)).
    split_and!; [done|done|done|apply u64_is_u64].
Qed.

Lemma popLocked_spec i s t q :
  queues s !! i = Some (t :: q) ->
  popLocked i s = Some (t, mkScheduler (max_entries s) (max_bytes s) (<[i := q]> (queues s)) (credits s)
     (next_queue s) (u64 (queued_entries s - 1)) (u64 (queued_bytes s - bytes t)) (u64 (active s + 1))
     (accepted s) (rejected s) (cancelled s) (stopping s)).
Proof. unfold popLocked. by intros ->. Qed.

(** A scheduler differing from another in the round-robin fields pops the same. *)
Definition popped (i : nat) (t : Task) (q : list Task) (cs : list Z) (n : Z) (s : Scheduler) : Scheduler :=
  mkScheduler (max_entries s) (max_bytes s) (<[i := q]> (queues s)) cs n
    (u64 (queued_entries s - 1)) (u64 (queued_bytes s - bytes t)) (u64 (active s + 1))
    (accepted s) (rejected s) (cancelled s) (stopping s).

Lemma oldest_loop_spec qs index oldest oi o' oi' :
  oldest_loop index oldest oi qs = (o', oi') ->
  o' <= oldest /\
  (forall k t q, qs !! k = Some (t :: q) -> o' <= enqueued_at t) /\
  ((oi' = oi /\ o' = oldest) \/
   exists k t q, oi' = Some (index + k)%nat /\ qs !! k = Some (t :: q) /\ o' = enqueued_at t).
Proof.
  revert index oldest oi. induction qs as [|[|u q] qs IH]; intros index oldest oi H; simpl in H.
  - simplify_eq. split_and!; [lia|done|by left].
  - apply IH in H as (H1 & H2 & H3). split_and!; [done| |].
    + intros [|k] t q Hk; simpl in Hk; [done|]. by eapply H2.
    + destruct H3 as [?|(k & t & q & -> & Hk & ->)]; [by left|]. right. exists (S k), t, q.
      split_and!; [f_equal; lia|done|done].
  - destruct (Z.ltb_spec (enqueued_at u) oldest) as [Hlt|Hge]; apply IH in H as (H1 & H2 & H3).
    + split_and!; [lia| |].
      * intros [|k] t q' Hk; simplify_eq/=; [lia|by eapply H2].
      * right. destruct H3 as [[-> ->]|(k & t & q' & -> & Hk & ->)].
        -- exists 0%nat, u, q. split_and!; [f_equal; lia|done|done].
        -- exists (S k), t, q'. split_and!; [f_equal; lia|done|done].
    + split_and!; [lia| |].
      * intros [|k] t q' Hk; simplify_eq/=; [lia|by eapply H2].
      * destruct H3 as [?|(k & t & q' & -> & Hk & ->)]; [by left|]. right. exists (S k), t, q'.
        split_and!; [f_equal; lia|done|done].
Qed.

(** The age at which the oldest head goes first. *)
Definition aged (now : Z) (t : Task) : Prop := 500000000 <= now - enqueued_at t.

(** What taking a task does: nothing when every queue is empty, else it pops
    the head of a queue, by age or by credit. *)
Lemma takeTaskLocked_spec now s :
  shaped s -> (forall q t, q ∈ queues s -> t ∈ q -> enqueued_at t < INT64_MAX) ->
  let '(r, s') := takeTaskLocked now s in
  shaped s' /\
  match r with
  | None => Forall (eq []) (queues s) /\ same_queues s s'
  | Some t => exists i q, queues s !! i = Some (t :: q) /\
      s' = popped i t q (credits s') (next_queue s') s /\
      ((aged now t /\ credits s' = credits s /\ next_queue s' = next_queue s /\
        forall k u q', queues s !! k = Some (u :: q') -> enqueued_at t <= enqueued_at u) \/
       ((forall k u q', queues s !! k = Some (u :: q') -> ~ aged now u) /\
        usable (refill s) i = true /\ credits s' = alter (fun c => u8 (c - 1)) i (credits (refill s))))
  end.
Proof.
  intros Hs Hmax. unfold takeTaskLocked.
  destruct (oldest_loop 0 INT64_MAX None (queues s)) as [o oi] eqn:Eo.
  apply oldest_loop_spec in Eo as (_ & Hle & Ho).
  destruct (refill_spec s Hs) as (Hr1 & Hr2 & Hr3).
  pose proof (attempt_loop_spec (length (queues s) * 2) (refill s) Hr1) as Ha.
  rewrite (sh_queues _ Hs) in Ha |- *. change (3 * 2)%nat with 6%nat in *.
  destruct Ho as [[-> ->]|(k & t & q & -> & Hk & ->)].
  - (* every queue is empty *)
    assert (Hnil : Forall (eq []) (queues s)).
    { apply Forall_lookup. intros k [|t q] Hk; [done|]. pose proof (Hle _ _ _ Hk).
      pose proof (Hmax (t :: q) t ltac:(by eapply list_elem_of_lookup_2) ltac:(left)). lia. }
    destruct (attempt_loop 6 (refill s)) as [r|s'].
    + destruct Ha as (i & t & q & n & _ & Hq & _). rewrite Hr2 in Hq. simpl in Hq.
      eapply Forall_lookup_1 in Hnil; [|exact Hq]. done.
    + destruct Ha as (H1 & H2 & _). split; [done|]. split; [done|]. rewrite H2, Hr2. by destruct s.
  - destruct (Z.leb_spec 500000000 (now - enqueued_at t)) as [Hage|Hage]; cbn [Nat.add].
    + rewrite (popLocked_spec _ _ _ _ Hk). split.
      { destruct Hs. constructor; simpl; try done. by rewrite length_insert. }
      exists k, q. split_and!; [done|done|]. left. split_and!; [done|done|done|].
      intros k' u q' Hk'. by eapply Hle.
    + assert (Hne : Exists (fun q => q <> []) (queues s)).
      { apply Exists_exists. exists (t :: q). split; [by eapply list_elem_of_lookup_2|done]. }
      destruct (attempt_loop 6 (refill s)) as [r|s'].
      * destruct Ha as (i & t' & q' & n & Hu & Hq & -> & Hn).
        assert (Hq' : queues s !! i = Some (t' :: q')) by (rewrite Hr2 in Hq; done).
        rewrite (popLocked_spec i _ t' q') by done. simpl. split.
        { destruct Hr1. constructor; simpl; rewrite ?length_insert, ?length_alter; try done.
          apply Forall_alter; [done|]. intros x _ _. unfold u8. apply Z.mod_pos_bound. lia. }
        exists i, q'. split_and!; [done| |].
        { rewrite Hr2. done. }
        right. split_and!; [|done|done]. intros k' u q'' Hk' Hag. unfold aged in Hag.
        pose proof (Hle _ _ _ Hk'). lia.
      * destruct Ha as (_ & _ & Hno). destruct (Hr3 Hne) as [i Hi].
        assert (i < 3)%nat.
        { destruct (usable_pop _ _ Hi) as (? & ? & Hl & _). rewrite <- (sh_queues _ Hr1).
          by eapply lookup_lt_Some. }
        destruct (residues_covered (next_queue (refill s)) i) as (j & Hj & E); [apply Hr1|done|].
        rewrite <- E in Hi. rewrite Hno in Hi by lia. done.
Qed.

(** ** The invariant *)

Definition holds_task (pc : worker_pc) : option Task := match pc with WTaken t => Some t | _ => None end.
Definition is_active (pc : worker_pc) : Z :=
  match pc with WTaken _ | WCancelled | WFinish => 1 | WIdle | WExit => 0 end.

Record invariant (w : World) : Prop := {
  inv_shaped : shaped (sched w);
  inv_limits : 0 < max_entries (sched w) < 2 ^ 64 /\ 0 < max_bytes (sched w) < 2 ^ 64;
  inv_tasks : forall i q t, queues (sched w) !! i = Some q -> t ∈ q ->
    queueIndex (cost t) = i /\ 0 <= bytes t < 2 ^ 64 /\ enqueued_at t < INT64_MAX;
  inv_counts : draining w = false ->
    queued_entries (sched w) = Z.of_nat (length (pending (sched w))) /\
    queued_bytes (sched w) = sumZ bytes (pending (sched w));
  inv_draining : draining w = true ->
    stopping (sched w) = true /\ queued_entries (sched w) = 0 /\ queued_bytes (sched w) = 0;
  inv_bounds : 0 <= queued_entries (sched w) <= max_entries (sched w) /\
               0 <= queued_bytes (sched w) <= max_bytes (sched w);
  inv_active : Z.of_nat (length (workers w)) < 2 ^ 64 ->
    active (sched w) = sumZ is_active (workers w);
  inv_once : submitted w ≡ₚ (done_log w).*1 ++ omap holds_task (workers w) ++ pending (sched w);
  inv_exit : WExit ∈ workers w -> stopping (sched w) = true /\ queued_entries (sched w) = 0
}.

Lemma is_active_bounds pc : 0 <= is_active pc <= 1.
Proof. destruct pc; simpl; lia. Qed.

Lemma submit_spec requested t s :
  0 < max_bytes s < 2 ^ 64 -> 0 < max_entries s < 2 ^ 64 -> 0 <= bytes t < 2 ^ 64 ->
  0 <= queued_entries s <= max_entries s -> 0 <= queued_bytes s <= max_bytes s ->
  let '(s', status) := submit_locked requested t s in
  (status = Accepted <->
     stopping s = false /\ requested = false /\
     (task_deadline t = INT64_MAX \/ enqueued_at t < task_deadline t) /\
     queued_entries s + 1 <= max_entries s /\ queued_bytes s + bytes t <= max_bytes s) /\
  if bool_decide (status = Accepted) then
    s' = mkScheduler (max_entries s) (max_bytes s)
         (alter (fun q => q ++ [t]) (queueIndex (cost t)) (queues s)) (credits s) (next_queue s)
         (queued_entries s + 1) (queued_bytes s + bytes t) (active s)
         (u64 (accepted s + 1)) (rejected s) (cancelled s) (stopping s)
  else s' = mkScheduler (max_entries s) (max_bytes s) (queues s) (credits s) (next_queue s)
         (queued_entries s) (queued_bytes s) (active s) (accepted s) (u64 (rejected s + 1))
         (cancelled s) (stopping s).
Proof.
  intros Hmb Hme Hb Hqe Hqb. unfold submit_locked.
  destruct (stopping s) eqn:E1; simpl; [split; [naive_solver|done]|].
  destruct requested; simpl; [split; [naive_solver|done]|].
  destruct (negb (task_deadline t =? INT64_MAX) && (task_deadline t <=? enqueued_at t)) eqn:E2; simpl.
  { split; [|done]. bools. apply Z.eqb_neq in H. apply Z.leb_le in H0. split; [done|].
    intros (_ & _ & [?|?] & _); [done|lia]. }
  destruct (Z.leb_spec (max_entries s) (queued_entries s)); simpl; [split; [|done]; split; [done|lia]|].
  destruct (Z.ltb_spec (max_bytes s) (bytes t)); simpl; [split; [|done]; split; [done|lia]|].
  rewrite (u64_small (max_bytes s - bytes t)) by lia.
  destruct (Z.ltb_spec (max_bytes s - bytes t) (queued_bytes s)); simpl; [split; [|done]; split; [done|lia]|].
  rewrite (u64_small (queued_entries s + 1)), (u64_small (queued_bytes s + bytes t)) by lia.
  split; [|done]. split; [intros _|done]. split_and!; try done; try lia.
Qed.

Lemma inv_step_submit s ws d sub log requested t s' status :
  invariant (mkWorld s ws d sub log) -> submit_locked requested t s = (s', status) ->
  0 <= bytes t < 2 ^ 64 -> enqueued_at t < INT64_MAX ->
  invariant (mkWorld s' ws d (if bool_decide (status = Accepted) then t :: sub else sub) log).
Proof.
  intros [Hsh [Hme Hmb] Ht Hc Hd [Hqe Hqb] Ha Ho Hx] E Hb He. simpl in *.
  pose proof (submit_spec requested t s Hmb Hme Hb Hqe Hqb) as Hs. rewrite E in Hs.
  destruct Hs as [Hacc Hs]. case_bool_decide as Hst.
  - destruct (proj1 Hacc Hst) as (Hstop & _ & _ & H1 & H2). subst s'.
    assert (Hlt : (queueIndex (cost t) < length (queues s))%nat) by (rewrite (sh_queues _ Hsh); apply queueIndex_lt).
    assert (Hdf : d = false) by (destruct d; [destruct (Hd eq_refl); congruence|done]).
    destruct (Hc Hdf) as [Hc1 Hc2].
    constructor; unfold pending in *; simpl.
    + destruct Hsh. constructor; simpl; rewrite ?length_alter; done.
    + done.
    + intros i q u Hq Hu. rewrite list_lookup_alter in Hq. case_decide as Hi.
      * subst i. destruct (queues s !! queueIndex (cost t)) as [q0|] eqn:Eq; simplify_eq/=.
        apply elem_of_app in Hu as [Hu|Hu]; [by eapply Ht|]. apply list_elem_of_singleton in Hu as ->.
        done.
      * by eapply Ht.
    + intros _. rewrite concat_push by done. rewrite Hc1, Hc2. rewrite sumZ_cons. simpl. lia.
    + intros ->. done.
    + lia.
    + done.
    + rewrite concat_push by done. rewrite Ho. by rewrite !Permutation_middle.
    + intros H. destruct (Hx H). congruence.
  - subst s'. constructor; try done. destruct Hsh; by constructor.
Qed.

Lemma inv_step_take s ws d sub log i now t s' :
  invariant (mkWorld s ws d sub log) -> ws !! i = Some WIdle ->
  stopping s || negb (queued_entries s =? 0) = true -> stopping s && (queued_entries s =? 0) = false ->
  takeTaskLocked now s = (t, s') ->
  t <> None /\
  invariant (mkWorld s' (match t with Some t => <[i := WTaken t]> ws | None => ws end) d sub log).
Proof.
  intros [Hsh [Hme Hmb] Ht Hc Hd [Hqe Hqb] Ha Ho Hx] Hi Hw1 Hw2 E. simpl in *.
  assert (Hne : queued_entries s <> 0).
  { intros H0. rewrite H0 in *. simpl in *. destruct (stopping s); done. }
  assert (Hdf : d = false) by (destruct d; [by destruct (Hd eq_refl) as (_ & ? & _)|done]).
  destruct (Hc Hdf) as [Hc1 Hc2].
  pose proof (takeTaskLocked_spec now s Hsh) as Hs. rewrite E in Hs.
  destruct Hs as [Hsh' Hs].
  { intros q u Hq Hu. apply list_elem_of_lookup_1 in Hq as [k Hk]. by eapply Ht. }
  destruct t as [t|].
  2:{ destruct Hs as [Hnil _]. exfalso. apply Hne. rewrite Hc1. unfold pending.
      clear -Hnil. induction Hnil as [|q qs <- _ IH]; [done|exact IH]. }
  split; [done|]. destruct Hs as (k & q & Hk & Heq & _).
  revert Hsh'. rewrite Heq. generalize (credits s') (next_queue s'). clear E Heq. intros cs n Hsh'.
  pose proof (concat_pop _ _ _ _ Hk) as Hpop.
  assert (Htt : queueIndex (cost t) = k /\ 0 <= bytes t < 2 ^ 64 /\ enqueued_at t < INT64_MAX).
  { eapply Ht; [exact Hk|left]. }
  assert (Hsum : sumZ bytes (concat (queues s)) = bytes t + sumZ bytes (concat (<[k:=q]> (queues s)))).
  { by rewrite Hpop. }
  assert (Hnn : 0 <= sumZ bytes (concat (<[k:=q]> (queues s)))).
  { apply sumZ_nonneg. intros u Hu.
    assert (Hu' : u ∈ concat (queues s)) by (rewrite Hpop; by right).
    apply list_elem_of_In, in_concat in Hu' as (q0 & Hq0 & Hu0). apply list_elem_of_In in Hu0, Hq0.
    apply list_elem_of_lookup_1 in Hq0 as [k0 Hk0].
    destruct (Ht _ _ _ Hk0 Hu0) as (_ & ? & _). lia. }
  assert (Hlen : length (concat (queues s)) = S (length (concat (<[k:=q]> (queues s))))).
  { by rewrite Hpop. }
  unfold pending in *. unfold popped in *.
  constructor; unfold pending; simpl.
  - done.
  - done.
  - intros j q' u Hq' Hu. apply list_lookup_insert_Some in Hq' as [(<- & <- & _)|[_ Hq']].
    + eapply Ht; [exact Hk|by right].
    + by eapply Ht.
  - intros _. rewrite u64_small, u64_small by lia. lia.
  - intros ->. done.
  - rewrite !u64_small by lia. lia.
  - rewrite length_insert. intros Hl. rewrite (sumZ_insert _ _ _ _ _ Hi), Ha by done. simpl.
    pose proof (sumZ_bounds is_active ws is_active_bounds).
    pose proof (sumZ_insert is_active ws i WIdle WFinish Hi). simpl in *.
    pose proof (sumZ_bounds is_active (<[i:=WFinish]> ws) is_active_bounds) as Hb. rewrite length_insert in Hb.
    rewrite u64_small by lia. lia.
  - rewrite Ho, Hpop. pose proof (omap_insert holds_task ws i WIdle (WTaken t) Hi) as Hp. simpl in Hp.
    rewrite Hp. simpl. by rewrite Permutation_middle.
  - intros H. apply elem_of_insert_other in H; [|done]. destruct (Hx H). congruence.
Qed.

Lemma inv_step_worker s ws d sub log i pc pc' s' sub' log' :
  invariant (mkWorld s ws d sub log) -> ws !! i = Some pc -> pc' <> WExit ->
  queues s' = queues s -> max_entries s' = max_entries s -> max_bytes s' = max_bytes s ->
  credits s' = credits s -> next_queue s' = next_queue s -> queued_entries s' = queued_entries s ->
  queued_bytes s' = queued_bytes s -> stopping s' = stopping s ->
  (Z.of_nat (length ws) < 2 ^ 64 -> active s = sumZ is_active ws ->
   active s' = sumZ is_active ws - is_active pc + is_active pc') ->
  sub' ≡ₚ log'.*1 ++ omap holds_task (<[i := pc']> ws) ++ pending s' ->
  invariant (mkWorld s' (<[i := pc']> ws) d sub' log').
Proof.
  intros [Hsh [Hme Hmb] Ht Hc Hd [Hqe Hqb] Ha Ho Hx] Hi Hpc E1 E2 E3 E4 E5 E6 E7 E8 Hact Hsub.
  unfold pending in *. simpl in *.
  constructor; unfold pending; simpl; rewrite ?E1, ?E2, ?E3, ?E6, ?E7, ?E8; try done.
  - destruct Hsh. constructor; rewrite ?E1, ?E4, ?E5; assumption.
  - rewrite length_insert. intros Hl. rewrite (sumZ_insert _ _ _ _ _ Hi). by apply Hact, Ha.
  - by rewrite Hsub, E1.
  - intros H. apply Hx. by eapply elem_of_insert_other.
Qed.

Lemma inv_step_drain s ws sub log t s' :
  invariant (mkWorld s ws true sub log) -> drain_one s = (t, s') ->
  invariant (match t with
             | Some t => mkWorld s' ws true sub ((t, CancelledWith Stopping) :: log)
             | None => mkWorld s' ws false sub log
             end).
Proof.
  intros [Hsh [Hme Hmb] Ht Hc Hd [Hqe Hqb] Ha Ho Hx] E. simpl in *.
  destruct (Hd eq_refl) as (Hstop & H1 & H2). unfold drain_one in E.
  destruct (drain_first (queues s)) as [u qs] eqn:Ed. pose proof (drain_first_spec _ _ _ Ed) as [Hl Hu].
  unfold pending in *. simplify_eq.
  assert (Hincl : forall i q x, qs !! i = Some q -> x ∈ q -> exists q', queues s !! i = Some q' /\ x ∈ q').
  { clear -Ed. revert t qs Ed. induction (queues s) as [|[|v q0] qs0 IH]; intros u qs Ed i q x Hq Hx; simpl in Ed.
    - by simplify_eq.
    - destruct (drain_first qs0) as [u1 qs1] eqn:E1. simplify_eq. destruct i as [|i]; simplify_eq/=.
      + by apply elem_of_nil in Hx.
      + by eapply (IH _ _ eq_refl).
    - simplify_eq. destruct i as [|i]; simplify_eq/=; [|by eauto].
      eexists. split; [done|by right]. }
  assert (Hsh' : shaped (mkScheduler (max_entries s) (max_bytes s) qs (credits s) (next_queue s)
     (queued_entries s) (queued_bytes s) (active s) (accepted s) (rejected s) (cancelled s) (stopping s))).
  { destruct Hsh. constructor; simpl; try done. congruence. }
  destruct t as [t|].
  - constructor; unfold pending; simpl; try done.
    + intros i q x Hq Hx'. destruct (Hincl _ _ _ Hq Hx') as (q' & ? & ?). by eapply Ht.
    + rewrite Ho, Hu. by rewrite !Permutation_middle.
  - destruct Hu as [Hn ->]. constructor; unfold pending; simpl; try done.
    intros _. rewrite Hn, H1, H2. done.
Qed.

Lemma held_insert ws i pc pc' s log :
  ws !! i = Some pc ->
  option_list (holds_task pc) ++ log.*1 ++ omap holds_task (<[i := pc']> ws) ++ pending s ≡ₚ
  option_list (holds_task pc') ++ (log : list (Task * Outcome)).*1 ++ omap holds_task ws ++ pending s.
Proof.
  intros Hi. pose proof (omap_insert holds_task ws i pc pc' Hi) as H.
  rewrite (Permutation_app_comm (log.*1)), (Permutation_app_comm (log.*1) (omap holds_task ws ++ _)).
  rewrite <- !app_assoc, !(app_assoc (option_list _)). by rewrite H.
Qed.

Lemma scheduler_invariant_step w w' : invariant w -> step w w' -> invariant w'.
Proof.
  intros Hinv Hs. destruct Hs as [s ws d sub log requested t s' status E Hb He
    |s ws d sub log i now t s' Hi H1 H2 E|s ws d sub log i Hi H1|s ws d sub log i now requested t status Hi E
    |s ws d sub log i Hi|s ws d sub log i Hi|s ws d sub log cp s' E|s ws sub log t s' E].
  - by eapply inv_step_submit.
  - by eapply inv_step_take.
  - pose proof (inv_once _ Hinv) as Ho. destruct Hinv as [Hsh Hm Ht Hc Hd Hb Ha _ Hx]. simpl in *.
    apply andb_true_iff in H1 as [H1 H3]. apply Z.eqb_eq in H3.
    constructor; simpl; try done.
    + rewrite length_insert. intros Hl. rewrite (sumZ_insert _ _ _ _ _ Hi), Ha by done. simpl. lia.
    + rewrite Ho. pose proof (held_insert ws i WIdle WExit s log Hi) as Hp. simpl in Hp. by rewrite Hp.
  - pose proof (inv_once _ Hinv) as Ho. simpl in Ho.
    assert (Hp : forall pc' o, holds_task pc' = None ->
      sub ≡ₚ ((t, o) :: log).*1 ++ omap holds_task (<[i := pc']> ws) ++ pending s).
    { intros pc' o Hn. rewrite Ho. pose proof (held_insert ws i (WTaken t) pc' s log Hi) as Hp.
      rewrite Hn in Hp. simpl in Hp. by rewrite <- Hp. }
    case_bool_decide; (eapply inv_step_worker; [exact Hinv|exact Hi|done..| |by apply Hp]); simpl; lia.
  - pose proof (inv_once _ Hinv) as Ho. simpl in Ho.
    eapply inv_step_worker; [exact Hinv|exact Hi|done..| |]; simpl; [lia|].
    rewrite Ho. pose proof (held_insert ws i WCancelled WFinish s log Hi) as Hp. simpl in Hp. by rewrite Hp.
  - pose proof (inv_once _ Hinv) as Ho. simpl in Ho.
    eapply inv_step_worker; [exact Hinv|exact Hi|done..| |]; simpl.
    + intros Hl Ha. rewrite Ha.
      assert (1 <= sumZ is_active ws).
      { apply (sumZ_lookup_le is_active ws i WFinish); [|done].
        apply Forall_forall. intros pc _. apply is_active_bounds. }
      pose proof (sumZ_bounds is_active ws is_active_bounds). rewrite u64_small by lia. lia.
    + rewrite Ho. pose proof (held_insert ws i WFinish WIdle s log Hi) as Hp. simpl in Hp. by rewrite Hp.
  - unfold begin_shutdown in E. destruct (stopping s) eqn:Hst; [done|]. simplify_eq.
    destruct Hinv as [Hsh Hm Ht Hc Hd Hb Ha Ho Hx]. simpl in *.
    assert (Hd' : d = false) by (destruct d; [destruct (Hd eq_refl); congruence|done]). subst d.
    constructor; simpl; try done.
    + by destruct Hsh; constructor.
    + intros ->. by apply Hc.
    + intros ->. done.
    + destruct cp; lia.
    + intros H. destruct (Hx H). congruence.
  - by eapply inv_step_drain.
Qed.

Definition initial (n : nat) (entries size : Z) : World :=
  mkWorld (new_scheduler entries size) (replicate n WIdle) false [] [].

Lemma invariant_initial n entries size :
  is_u64 entries -> is_u64 size -> invariant (initial n entries size).
Proof.
  intros He Hs. unfold is_u64 in *. constructor; simpl; try done.
  - constructor; simpl; try done. repeat constructor; lia.
  - destruct (Z.eqb_spec entries 0), (Z.eqb_spec size 0); lia.
  - intros [|[|[|i]]] q t Hq Ht; simplify_eq/=; by apply elem_of_nil in Ht.
  - destruct (Z.eqb_spec entries 0), (Z.eqb_spec size 0); lia.
  - intros _. induction n as [|n IH]; [done|]. by rewrite replicate_S, sumZ_cons, <- IH.
  - induction n as [|n IH]; [done|]. exact IH.
  - intros H. apply elem_of_replicate in H as [? _]. done.
Qed.

Lemma scheduler_invariant n entries size w :
  is_u64 entries -> is_u64 size -> rtc step (initial n entries size) w -> invariant w.
Proof.
  intros He Hs Hr. eapply (invariant_rtc step invariant); [intros; by eapply scheduler_invariant_step| |exact Hr].
  by apply invariant_initial.
Qed.

(** In every interleaving of submitters, workers and a shutdown, the
    entry and byte counters are exactly the number and the total size of the
    queued tasks (zero once a cancelling shutdown has begun), they never
    exceed the configured limits, and the active counter is the number of
    workers busy with a task. *)
Theorem scheduler_accounting n entries size w :
  is_u64 entries -> is_u64 size -> Z.of_nat n < 2 ^ 64 ->
  rtc step (initial n entries size) w ->
  (draining w = false ->
   queued_entries (sched w) = Z.of_nat (length (pending (sched w))) /\
   queued_bytes (sched w) = sumZ bytes (pending (sched w))) /\
  (draining w = true -> queued_entries (sched w) = 0 /\ queued_bytes (sched w) = 0) /\
  queued_entries (sched w) <= max_entries (sched w) /\ queued_bytes (sched w) <= max_bytes (sched w) /\
  active (sched w) = sumZ is_active (workers w).
Proof.
  intros He Hs Hn Hr.
  assert (Hlen : length (workers w) = n).
  { refine (invariant_rtc step (fun w => length (workers w) = n) _ _ w _ Hr).
    - intros w1 w2 H1 H2. destruct H2; simpl in *; rewrite ?length_insert; try done.
      + destruct t; rewrite ?length_insert; done.
      + case_bool_decide; simpl; by rewrite length_insert.
      + by destruct t.
    - simpl. by rewrite length_replicate. }
  destruct (scheduler_invariant _ _ _ _ He Hs Hr) as [_ _ _ Hc Hd [Hqe Hqb] Ha _ _].
  split_and!; [done| |lia|lia|apply Ha; lia]. intros H. by destruct (Hd H) as (_ & ? & ?).
Qed.

(** C2: No accepted task is lost and none is handled twice: at every moment
    each is exactly once among the tasks run or cancelled, the tasks a worker
    has just taken and the queued ones.  When the workers have exited and the
    cancelling shutdown, if any, is over, each accepted task has been run or
    cancelled exactly once. *)
Theorem every_task_once n entries size w :
  (0 < n)%nat -> is_u64 entries -> is_u64 size -> rtc step (initial n entries size) w ->
  submitted w ≡ₚ (done_log w).*1 ++ omap holds_task (workers w) ++ pending (sched w) /\
  (workers w = replicate n WExit -> draining w = false -> submitted w ≡ₚ (done_log w).*1).
Proof.
  intros Hn He Hs Hr. destruct (scheduler_invariant _ _ _ _ He Hs Hr) as [_ _ _ Hc _ _ _ Ho Hx].
  split; [done|]. intros Hw Hd. rewrite Ho, Hw in *.
  destruct Hx as [_ H0]; [destruct n; [lia|left]|]. destruct (Hc Hd) as [H1 _].
  assert (pending (sched w) = []) as -> by (apply nil_length_inv; lia).
  assert (omap holds_task (replicate n WExit) = []) as -> by (clear; by induction n).
  by rewrite !app_nil_r.
Qed.

Definition example_task : Task := mkTask 7 CostLow 3 0 INT64_MAX.
Definition example_run : World :=
  mkWorld (finish_task (popped 0 example_task [] [7; 4; 1] 1
             (fst (submit_locked false example_task (new_scheduler 2 10)))))
    [WIdle] false [example_task] [(example_task, Ran)].

Lemma scheduler_example_reachable : rtc step (initial 1 2 10) example_run.
Proof.
  eapply rtc_l; [apply (step_submit _ _ _ _ _ false example_task); [vm_compute; reflexivity|simpl; lia|done]|].
  eapply rtc_l; [apply (step_take _ _ _ _ _ 0 5); [done|vm_compute; reflexivity..]|].
  eapply rtc_l; [apply (step_check _ _ _ _ _ 0 5 false example_task Accepted); vm_compute; reflexivity|].
  eapply rtc_l; [apply (step_finish _ _ _ _ _ 0); vm_compute; reflexivity|].
  apply rtc_refl.
Defined.

Lemma scheduler_accounting_witness :
  queued_bytes (sched example_run) <= max_bytes (sched example_run) /\ active (sched example_run) = 0.
Proof.
  destruct (scheduler_accounting 1 2 10 example_run ltac:(split; lia) ltac:(split; lia) ltac:(lia)
              scheduler_example_reachable) as (_ & _ & _ & H1 & H2).
  split; [exact H1|exact H2].
Defined.

Lemma every_task_once_witness : submitted example_run ≡ₚ [example_task].
Proof.
  destruct (every_task_once 1 2 10 example_run ltac:(lia) ltac:(split; lia) ltac:(split; lia)
              scheduler_example_reachable) as [H _].
  exact H.
Defined.

(** As long as a task is queued, taking one succeeds, whatever the
    credits and even when the round-robin counter wraps around: it removes
    the head of one queue and nothing else.  When the head of some queue has
    waited 500 ms, the task taken is an oldest head, so a waiting task is
    never passed over by younger ones. *)
Theorem takeTaskLocked_serves now s :
  shaped s -> (forall q t, q ∈ queues s -> t ∈ q -> enqueued_at t < INT64_MAX) ->
  Exists (fun q => q <> []) (queues s) ->
  exists i t q s',
    takeTaskLocked now s = (Some t, s') /\
    queues s !! i = Some (t :: q) /\ queues s' = <[i := q]> (queues s) /\
    ((exists k u q', queues s !! k = Some (u :: q') /\ aged now u) ->
     aged now t /\ forall k u q', queues s !! k = Some (u :: q') -> enqueued_at t <= enqueued_at u).
Proof.
  intros Hs Hmax Hne. pose proof (takeTaskLocked_spec now s Hs Hmax) as H.
  destruct (takeTaskLocked now s) as [[t|] s'].
  - destruct H as (_ & i & q & Hq & Heq & Hcase). exists i, t, q, s'.
    split_and!; [done|done|by rewrite Heq|]. intros (k & u & q' & Hk & Hag).
    destruct Hcase as [(H1 & _ & _ & H2)|[H1 _]]; [done|]. by apply H1 in Hk.
  - destruct H as (_ & Hnil & _). apply Exists_exists in Hne as (q & Hq & Hn).
    rewrite Forall_forall in Hnil. apply Hnil in Hq. done.
Qed.

Lemma forall_tasks (P : Task -> Prop) s :
  Forall (Forall P) (queues s) -> forall q t, q ∈ queues s -> t ∈ q -> P t.
Proof. intros H q t Hq Ht. rewrite Forall_forall in H. specialize (H q Hq). rewrite Forall_forall in H. by apply H. Qed.

Definition example_queues : Scheduler :=
  mkScheduler 10 100 [[mkTask 1 CostLow 1 900 INT64_MAX]; []; [mkTask 2 CostHigh 1 5 INT64_MAX]]
    [0; 3; 1] UINT64_MAX 2 2 0 2 0 0 false.

Lemma takeTaskLocked_serves_witness :
  exists s', takeTaskLocked 600000000 example_queues = (Some (mkTask 2 CostHigh 1 5 INT64_MAX), s').
Proof.
  destruct (takeTaskLocked_serves 600000000 example_queues) as (i & t & q & s' & H1 & H2 & _ & H3).
  - constructor; simpl; try done. repeat constructor; lia.
  - apply forall_tasks. by repeat constructor.
  - by left.
  - exists s'. rewrite H1. f_equal. f_equal.
    destruct (H3 ltac:(exists 2%nat, (mkTask 2 CostHigh 1 5 INT64_MAX), []; split; [done|unfold aged; simpl; lia]))
      as [_ H4].
    pose proof (H4 2%nat _ _ eq_refl) as H5.
    destruct i as [|[|[|i]]]; simplify_eq/=; first [lia|done].
Defined.

(** Successive takes at one moment. *)
Fixpoint take_n (n : nat) (now : Z) (s : Scheduler) : list Task * Scheduler :=
  match n with
  | O => ([], s)
  | S n =>
      match takeTaskLocked now s with
      | (Some t, s) => let '(ts, s) := take_n n now s in (t :: ts, s)
      | (None, s) => ([], s)
      end
  end.

(** No task is old enough to jump the queue. *)
Definition all_fresh (now : Z) (s : Scheduler) : Prop :=
  forall q t, q ∈ queues s -> t ∈ q -> ~ aged now t /\ enqueued_at t < INT64_MAX.

Lemma fresh_pop now s i t q :
  all_fresh now s -> queues s !! i = Some (t :: q) ->
  forall q' u, q' ∈ <[i := q]> (queues s) -> u ∈ q' -> ~ aged now u /\ enqueued_at u < INT64_MAX.
Proof.
  intros Hf Hq q' u Hq' Hu. apply list_elem_of_lookup_1 in Hq' as [k Hk].
  apply list_lookup_insert_Some in Hk as [(<- & <- & _)|[_ Hk]].
  - apply (Hf (t :: q)); [by eapply list_elem_of_lookup_2|by right].
  - apply (Hf q'); [by eapply list_elem_of_lookup_2|done].
Qed.

Lemma take_by_credit now s (a b c : nat) l m h :
  shaped s -> all_fresh now s -> queues s = [l; m; h] ->
  credits s = [Z.of_nat a; Z.of_nat b; Z.of_nat c] -> (0 < a + b + c)%nat ->
  (a <= length l)%nat -> (b <= length m)%nat -> (c <= length h)%nat ->
  exists t s' i, takeTaskLocked now s = (Some t, s') /\ shaped s' /\ all_fresh now s' /\
    ((i = 0%nat /\ (0 < a)%nat /\ exists q, l = t :: q /\ queues s' = [q; m; h] /\
       credits s' = [Z.of_nat (a - 1); Z.of_nat b; Z.of_nat c]) \/
     (i = 1%nat /\ (0 < b)%nat /\ exists q, m = t :: q /\ queues s' = [l; q; h] /\
       credits s' = [Z.of_nat a; Z.of_nat (b - 1); Z.of_nat c]) \/
     (i = 2%nat /\ (0 < c)%nat /\ exists q, h = t :: q /\ queues s' = [l; m; q] /\
       credits s' = [Z.of_nat a; Z.of_nat b; Z.of_nat (c - 1)])).
Proof.
  intros Hs Hf Hq Hc Hpos Ha Hb Hcc.
  assert (Hcred : activeHasCredit s = true).
  { apply activeHasCredit_spec; [done|]. unfold usable. rewrite Hq, Hc.
    destruct a as [|a]; [destruct b as [|b]; [destruct c as [|c]; [lia|]|]|].
    - exists 2%nat. destruct h; [simpl in *; lia|done].
    - exists 1%nat. destruct m; [simpl in *; lia|done].
    - exists 0%nat. destruct l; [simpl in *; lia|done]. }
  assert (Hr : refill s = s) by (unfold refill; by rewrite Hcred).
  assert (Hmax : forall q t, q ∈ queues s -> t ∈ q -> enqueued_at t < INT64_MAX) by (intros; by eapply Hf).
  pose proof (takeTaskLocked_spec now s Hs Hmax) as H. rewrite Hr in H.
  destruct (takeTaskLocked now s) as [[t|] s'].
  2:{ destruct H as (_ & Hn & _). rewrite Hq in Hn. rewrite !Forall_cons in Hn.
      destruct Hn as (<- & <- & <- & _). simpl in *. lia. }
  destruct H as (Hs' & i & q & Hi & Heq & Hcase). exists t, s', i.
  destruct Hcase as [(Hag & _)|(_ & Hu & Hcr)].
  { destruct (Hf (t :: q) t) as [Hna _]; [by eapply list_elem_of_lookup_2|left|done]. }
  assert (Hqs : queues s' = <[i := q]> (queues s)) by (by rewrite Heq).
  split_and!; [done|done| |].
  { intros q' u. rewrite Hqs. by eapply fresh_pop. }
  rewrite Hqs, Hcr. unfold usable in Hu. rewrite Hq, Hc in *.
  pose proof (sh_bytes _ Hs) as Hby. rewrite Hc in Hby.
  assert (Hu8 : forall n : nat, 0 <= Z.of_nat n < 256 -> Z.of_nat n <> 0 -> u8 (Z.of_nat n - 1) = Z.of_nat (n - 1)).
  { intros n H1 H2. unfold u8. rewrite Z.mod_small by lia. lia. }
  rewrite !Forall_cons in Hby. destruct Hby as (B1 & B2 & B3 & _).
  apply negb_true_iff, orb_false_iff in Hu as [Hu _]. apply Z.eqb_neq in Hu.
  destruct i as [|[|[|i]]]; simplify_eq/=; [left|right; left|right; right];
    (split_and!; [done|lia|]; eexists; split_and!; [done|done|]; csimpl; by rewrite Hu8).
Qed.

Lemma take_n_by_credit now n : forall s (a b c : nat) l m h,
  shaped s -> all_fresh now s -> queues s = [l; m; h] ->
  credits s = [Z.of_nat a; Z.of_nat b; Z.of_nat c] -> n = (a + b + c)%nat ->
  (a <= length l)%nat -> (b <= length m)%nat -> (c <= length h)%nat ->
  exists ts s', take_n n now s = (ts, s') /\
    ts ≡ₚ take a l ++ take b m ++ take c h /\ queues s' = [drop a l; drop b m; drop c h] /\
    credits s' = [0; 0; 0].
Proof.
  induction n as [|n IH]; intros s a b c l m h Hs Hf Hq Hc Hn Ha Hb Hcc.
  - assert (a = 0%nat /\ b = 0%nat /\ c = 0%nat) as (-> & -> & ->) by lia.
    exists [], s. split_and!; done.
  - destruct (take_by_credit now s a b c l m h Hs Hf Hq Hc) as (t & s' & i & E & Hs' & Hf' & Hcase); [lia..|].
    cbn [take_n]. rewrite E.
    destruct Hcase as [(-> & Hp & q & -> & Hq' & Hc')|[(-> & Hp & q & -> & Hq' & Hc')|(-> & Hp & q & -> & Hq' & Hc')]];
      simpl in *.
    + destruct (IH s' (a - 1)%nat b c q m h Hs' Hf' Hq' Hc') as (ts & s'' & -> & Hts & Hqs & Hcs); [lia..|].
      exists (t :: ts), s''. destruct a as [|a]; [lia|]. simpl in *. rewrite Nat.sub_0_r in *.
      split_and!; [done|by rewrite Hts|done|done].
    + destruct (IH s' a (b - 1)%nat c l q h Hs' Hf' Hq' Hc') as (ts & s'' & -> & Hts & Hqs & Hcs); [lia..|].
      exists (t :: ts), s''. destruct b as [|b]; [lia|]. simpl in *. rewrite Nat.sub_0_r in *.
      split_and!; [done|by rewrite Hts, <- Permutation_middle|done|done].
    + destruct (IH s' a b (c - 1)%nat l m q Hs' Hf' Hq' Hc') as (ts & s'' & -> & Hts & Hqs & Hcs); [lia..|].
      exists (t :: ts), s''. destruct c as [|c]; [lia|]. simpl in *. rewrite Nat.sub_0_r in *.
      split_and!; [done|by rewrite Hts, <- !Permutation_middle|done|done].
Qed.

(** Weighted sharing: while no task is old enough to jump the queue, a
    full round of thirteen takes over busy queues serves exactly the first
    eight low-cost, the first four medium-cost and the first high-cost task,
    leaves the rest of every queue in order, and uses up the credits. *)
Theorem weighted_round now s l m h :
  shaped s -> all_fresh now s -> queues s = [l; m; h] -> credits s = kWeights ->
  (8 <= length l)%nat -> (4 <= length m)%nat -> (1 <= length h)%nat ->
  exists ts s', take_n 13 now s = (ts, s') /\
    ts ≡ₚ take 8 l ++ take 4 m ++ take 1 h /\ queues s' = [drop 8 l; drop 4 m; drop 1 h] /\
    credits s' = [0; 0; 0].
Proof. intros. eapply (take_n_by_credit now 13 s 8 4 1); done. Qed.

Definition busy_queues : Scheduler :=
  mkScheduler 100 1000
    [(fun i => mkTask i CostLow 1 0 INT64_MAX) <$> seq 0 9; (fun i => mkTask i CostMedium 1 0 INT64_MAX) <$> seq 9 5;
     (fun i => mkTask i CostHigh 1 0 INT64_MAX) <$> seq 14 2]
    kWeights 0 16 16 0 16 0 0 false.

Lemma weighted_round_witness :
  exists ts s', take_n 13 10 busy_queues = (ts, s') /\ length ts = 13%nat /\ credits s' = [0; 0; 0].
Proof.
  edestruct (weighted_round 10 busy_queues) as (ts & s' & H1 & H2 & _ & H4);
    [| |reflexivity|reflexivity|simpl; lia..|].
  - constructor; simpl; try done. repeat constructor; lia.
  - intros q t Hq Ht.
    assert (Hz : enqueued_at t = 0).
    { revert q t Hq Ht. apply forall_tasks. by repeat constructor. }
    unfold aged, INT64_MAX. rewrite Hz. lia.
  - exists ts, s'. split_and!; [exact H1| |exact H4]. by rewrite H2.
Defined.
