(* ===== verification/Executor.v ===== *)
(** * utils/bounded_executor.h: the bounded FIFO executor

    One queue of bounded length feeds a fixed set of workers.  [Executor] is
    the state under the mutex; a task is named by a number.  [submitUntil]
    retries under the lock each time it wakes: one round is a function of the
    clock and of the state it finds, and the wait between two rounds ends at
    the latest at the time it computes. *)

From S2P Require Import Prelude Str RequestContext.
Open Scope Z_scope.

(** src/src/utils/bounded_executor.h:21-28 [ExecutorSubmitStatus] *)
Inductive ExecutorSubmitStatus := Accepted | QueueFull | Recursive | Deadline | Cancelled | Stopping.

#[export] Instance executor_status_eq_dec : EqDecision ExecutorSubmitStatus. Proof. solve_decision. Defined.

(** src/src/utils/bounded_executor.h:38-54 [ExecutorSubmitError::message] *)
Definition message (s : ExecutorSubmitStatus) : str :=
  match s with
  | QueueFull => "bounded executor queue is full"
  | Recursive => "bounded executor rejected recursive submission"
  | Deadline => "bounded executor deadline exceeded"
  | Cancelled => "bounded executor request cancelled"
  | Stopping => "bounded executor is stopping"
  | Accepted => "bounded executor submission error"
  end.

(** src/src/utils/bounded_executor.h:229-236 [BoundedExecutor] *)
Record Executor := mkExecutor { queue_capacity : nat; tasks : list nat; stopping : bool }.

(** src/src/utils/bounded_executor.h:66-73 [BoundedExecutor::BoundedExecutor] *)
Definition new_executor (capacity : nat) : Executor :=
  mkExecutor (if (capacity =? 0)%nat then 1 else capacity)%nat [] false.

Definition push (t : nat) (e : Executor) : Executor := mkExecutor (queue_capacity e) (tasks e ++ [t]) (stopping e).

(** src/src/utils/bounded_executor.h:80-112 [BoundedExecutor::trySubmit]
    [recursive] says that the caller is one of this executor's workers. *)
Definition trySubmit (recursive : bool) (t : nat) (e : Executor) : Executor * ExecutorSubmitStatus :=
  if stopping e then (e, Stopping)
  else if recursive then (e, Recursive)
  else if (queue_capacity e <=? length (tasks e))%nat then (e, QueueFull)
  else (push t e, Accepted).

(** 50 ms and 10 ms in nanoseconds. *)
Definition kQueueWait : Z := 50000000.
Definition kPoll : Z := 10000000.

(** src/src/utils/bounded_executor.h:129-161 [BoundedExecutor::submitUntil, one round]
    [inr wake]: nothing could be decided, wait until [wake]. *)
Definition submitUntil_round (deadline queue_wait_deadline now : Z) (recursive requested : bool) (t : nat)
    (e : Executor) : (Executor * ExecutorSubmitStatus) + Z :=
  if stopping e then inl (e, Stopping)
  else if recursive then inl (e, Recursive)
  else if requested then inl (e, Cancelled)
  else if negb (deadline =? INT64_MAX) && (deadline <=? now) then inl (e, Deadline)
  else if queue_wait_deadline <=? now then inl (e, QueueFull)
  else if (length (tasks e) <? queue_capacity e)%nat then inl (push t e, Accepted)
  else
    let wake := Z.min (now + kPoll) queue_wait_deadline in
    inr (if negb (deadline =? INT64_MAX) then Z.min wake deadline else wake).

(** What a round of [submitUntil] sees when it holds the lock. *)
Record Seen := mkSeen { seen_now : Z; seen_requested : bool; seen_executor : Executor }.

(** src/src/utils/bounded_executor.h:114-173 [BoundedExecutor::submitUntil]
    The rounds against the states seen at the successive wake-ups; [None]
    when the list ends before a decision. *)
Fixpoint submitUntil_loop (deadline queue_wait_deadline : Z) (recursive : bool) (t : nat) (seen : list Seen) :
    option (Executor * ExecutorSubmitStatus) :=
  match seen with
  | [] => None
  | v :: seen =>
      match submitUntil_round deadline queue_wait_deadline (seen_now v) recursive (seen_requested v) t (seen_executor v) with
      | inl r => Some r
      | inr _ => submitUntil_loop deadline queue_wait_deadline recursive t seen
      end
  end.

(** src/src/utils/bounded_executor.h:181-193 [BoundedExecutor::requestShutdown]
    The tasks swapped out are destroyed, which breaks their promises. *)
Definition requestShutdown (cancel_pending : bool) (e : Executor) : Executor * list nat :=
  if stopping e then (e, [])
  else if cancel_pending then (mkExecutor (queue_capacity e) [] true, tasks e)
  else (mkExecutor (queue_capacity e) (tasks e) true, []).

(** src/src/utils/bounded_executor.h:215-222 [BoundedExecutor::workerLoop, critical section]
    [None]: keeps waiting; [Some None]: leaves the loop. *)
Definition worker_take (e : Executor) : option (option nat * Executor) :=
  if negb (stopping e) && bool_decide (tasks e = []) then None
  else
    match tasks e with
    | [] => Some (None, e)
    | t :: ts => Some (Some t, mkExecutor (queue_capacity e) ts (stopping e))
    end.

(** Where a worker is: waiting, running a task, or gone. *)
Inductive worker_pc := Waiting | Running (t : nat) | Gone.

Record World := mkWorld {
  exec : Executor;
  workers : list worker_pc;
  accepted : list nat;     (* in the order of submission *)
  started : list nat;      (* in the order in which workers took them *)
  dropped : list nat;      (* destroyed by a cancelling shutdown *)
  finished : list nat
}.

(** src/src/utils/bounded_executor.h:211-227 [BoundedExecutor::workerLoop]
    Submitters, workers and the shutdown, interleaved. *)
Inductive step : World -> World -> Prop :=
  | step_try e ws acc st dr fin recursive t e' status :
      trySubmit recursive t e = (e', status) ->
      step (mkWorld e ws acc st dr fin)
        (mkWorld e' ws (if bool_decide (status = Accepted) then acc ++ [t] else acc) st dr fin)
  | step_until e ws acc st dr fin deadline qdl now recursive requested t e' status :
      submitUntil_round deadline qdl now recursive requested t e = inl (e', status) ->
      step (mkWorld e ws acc st dr fin)
        (mkWorld e' ws (if bool_decide (status = Accepted) then acc ++ [t] else acc) st dr fin)
  | step_take e ws acc st dr fin i t e' :
      ws !! i = Some Waiting -> worker_take e = Some (t, e') ->
      step (mkWorld e ws acc st dr fin)
        (match t with
         | Some t => mkWorld e' (<[i := Running t]> ws) acc (st ++ [t]) dr fin
         | None => mkWorld e' (<[i := Gone]> ws) acc st dr fin
         end)
  | step_finish e ws acc st dr fin i t :
      ws !! i = Some (Running t) ->
      step (mkWorld e ws acc st dr fin) (mkWorld e (<[i := Waiting]> ws) acc st dr (t :: fin))
  | step_shutdown e ws acc st dr fin cancel_pending e' gone :
      requestShutdown cancel_pending e = (e', gone) ->
      step (mkWorld e ws acc st dr fin) (mkWorld e' ws acc st (dr ++ gone) fin).

(** ** Theorems *)

Definition running (pc : worker_pc) : option nat := match pc with Running t => Some t | _ => None end.

Record invariant (w : World) : Prop := {
  inv_capacity : (length (tasks (exec w)) <= queue_capacity (exec w))%nat;
  inv_positive : (0 < queue_capacity (exec w))%nat;
  inv_fifo : accepted w = started w ++ dropped w ++ tasks (exec w);
  inv_dropped : dropped w <> [] -> stopping (exec w) = true /\ tasks (exec w) = [];
  inv_started : started w ≡ₚ finished w ++ omap running (workers w);
  inv_gone : Gone ∈ workers w -> stopping (exec w) = true /\ tasks (exec w) = []
}.

(** Both ways of submitting either leave the executor as it was or append the
    task to a queue that has room. *)
Definition submitted (t : nat) (e e' : Executor) (status : ExecutorSubmitStatus) : Prop :=
  if bool_decide (status = Accepted)
  then e' = push t e /\ stopping e = false /\ (length (tasks e) < queue_capacity e)%nat
  else e' = e.

Lemma trySubmit_submitted recursive t e e' status :
  trySubmit recursive t e = (e', status) -> submitted t e e' status.
Proof.
  unfold trySubmit, submitted. destruct (stopping e); [intros [= <- <-]; done|].
  destruct recursive; [intros [= <- <-]; done|].
  destruct (Nat.leb_spec (queue_capacity e) (length (tasks e))); intros [= <- <-]; [done|].
  simpl. split_and!; [done..|lia].
Qed.

Lemma submitUntil_submitted deadline qdl now recursive requested t e e' status :
  submitUntil_round deadline qdl now recursive requested t e = inl (e', status) -> submitted t e e' status.
Proof.
  unfold submitUntil_round, submitted. destruct (stopping e); [intros [= <- <-]; done|].
  destruct recursive; [intros [= <- <-]; done|]. destruct requested; [intros [= <- <-]; done|].
  destruct (_ && _); [intros [= <- <-]; done|]. destruct (qdl <=? now); [intros [= <- <-]; done|].
  destruct (Nat.ltb_spec (length (tasks e)) (queue_capacity e)); [|done]. intros [= <- <-].
  simpl. split_and!; [done..|lia].
Qed.

Lemma inv_submit e ws acc st dr fin t e' status :
  invariant (mkWorld e ws acc st dr fin) -> submitted t e e' status ->
  invariant (mkWorld e' ws (if bool_decide (status = Accepted) then acc ++ [t] else acc) st dr fin).
Proof.
  intros Hi. unfold submitted. case_bool_decide; [intros (-> & Hstop & Hlt)|by intros ->].
  destruct Hi as [Hc Hp Hf Hd Hs Hg]; simpl in *. constructor; simpl; try done.
  - rewrite length_app. simpl. lia.
  - rewrite Hf. by rewrite <- !app_assoc.
  - intros H'. destruct (Hd H'). congruence.
  - intros H'. destruct (Hg H'). congruence.
Qed.

Lemma executor_invariant_step w w' : invariant w -> step w w' -> invariant w'.
Proof.
  intros Hi Hs. destruct Hs as [e ws acc st dr fin recursive t e' status E
    |e ws acc st dr fin deadline qdl now recursive requested t e' status E
    |e ws acc st dr fin i t e' Hw E|e ws acc st dr fin i t Hw|e ws acc st dr fin cp e' gone E].
  - eapply inv_submit; [done|by eapply trySubmit_submitted].
  - eapply inv_submit; [done|by eapply submitUntil_submitted].
  - destruct Hi as [Hc Hp Hf Hd Hst Hg]; simpl in *. unfold worker_take in E.
    destruct (negb (stopping e) && bool_decide (tasks e = [])) eqn:Hb; [done|].
    destruct (tasks e) as [|u ts] eqn:Et; simplify_eq.
    + assert (Hstop : stopping e' = true) by (destruct (stopping e'); done).
      constructor; simpl; rewrite ?Et; try done.
      pose proof (omap_insert running ws i Waiting Gone Hw) as Hp'. simpl in Hp'. by rewrite Hp'.
    + constructor; simpl in *; try done; try lia.
      * destruct dr; [by rewrite <- app_assoc|]. by destruct Hd.
      * intros H. by destruct (Hd H).
      * rewrite Hst. pose proof (omap_insert running ws i Waiting (Running u) Hw) as Hp'. simpl in Hp'.
        rewrite Hp', <- app_assoc. by rewrite <- Permutation_cons_append.
      * intros H. apply elem_of_insert_other in H; [|done]. by destruct (Hg H).
  - destruct Hi as [Hc Hp Hf Hd Hst Hg]; simpl in *. constructor; simpl; try done.
    + rewrite Hst. pose proof (omap_insert running ws i (Running t) Waiting Hw) as Hp'. simpl in Hp'.
      by rewrite <- Hp', Permutation_middle.
    + intros H. apply elem_of_insert_other in H; [|done]. by apply Hg.
  - unfold requestShutdown in E. destruct (stopping e) eqn:Hstop.
    { simplify_eq. by rewrite app_nil_r. }
    destruct Hi as [Hc Hp Hf Hd Hst Hg]; simpl in *.
    assert (Hdr : dr = []) by (destruct dr; [done|]; destruct Hd; [done|congruence]). subst dr.
    destruct cp; simplify_eq; constructor; simpl; try done; try lia.
    + by rewrite app_nil_r.
    + intros H. destruct (Hg H). congruence.
Qed.

Definition initial (n capacity : nat) : World :=
  mkWorld (new_executor capacity) (replicate n Waiting) [] [] [] [].

Lemma executor_invariant n capacity w : rtc step (initial n capacity) w -> invariant w.
Proof.
  intros Hr. eapply (invariant_rtc step invariant); [intros; by eapply executor_invariant_step| |exact Hr].
  unfold initial, new_executor. constructor; simpl; try done; try lia.
  - destruct (Nat.eqb_spec capacity 0); lia.
  - clear. by induction n.
  - intros H. apply elem_of_replicate in H as [? _]. done.
Qed.

(** The executor is a bounded FIFO: in every interleaving the queue stays
    within its capacity, workers start the accepted tasks in the order in
    which they were submitted, none is lost or started twice, and when every
    worker has gone each accepted task has finished, except those a cancelling
    shutdown dropped. *)
Theorem executor_fifo n capacity w :
  (0 < n)%nat -> rtc step (initial n capacity) w ->
  (length (tasks (exec w)) <= queue_capacity (exec w))%nat /\
  accepted w = started w ++ dropped w ++ tasks (exec w) /\
  started w ≡ₚ finished w ++ omap running (workers w) /\
  (workers w = replicate n Gone -> accepted w ≡ₚ finished w ++ dropped w).
Proof.
  intros Hn Hr. destruct (executor_invariant _ _ _ Hr) as [Hc Hp Hf Hd Hst Hg].
  split_and!; [done..|]. intros Hw. rewrite Hf, Hst, Hw in *.
  destruct Hg as [_ Ht]; [destruct n; [lia|left]|]. rewrite Ht.
  assert (omap running (replicate n Gone) = []) as -> by (clear; by induction n).
  by rewrite !app_nil_r.
Qed.

Definition example_run : World :=
  mkWorld (mkExecutor 1 [] true) [Gone] [5%nat; 6%nat] [5%nat] [6%nat] [5%nat].

Lemma executor_example_reachable : rtc step (initial 1 1) example_run.
Proof.
  eapply rtc_l; [eapply (step_try _ _ _ _ _ _ false 5 _ Accepted); vm_compute; reflexivity|].
  eapply rtc_l; [eapply (step_take _ _ _ _ _ _ 0); vm_compute; reflexivity|].
  eapply rtc_l; [eapply (step_until _ _ _ _ _ _ INT64_MAX kQueueWait 3 false false 6 _ Accepted); vm_compute; reflexivity|].
  eapply rtc_l; [eapply (step_shutdown _ _ _ _ _ _ true); vm_compute; reflexivity|].
  eapply rtc_l; [eapply (step_finish _ _ _ _ _ _ 0); vm_compute; reflexivity|].
  eapply rtc_l; [eapply (step_take _ _ _ _ _ _ 0); vm_compute; reflexivity|].
  apply rtc_refl.
Defined.

Lemma executor_fifo_witness : accepted example_run ≡ₚ finished example_run ++ dropped example_run.
Proof.
  exact (proj2 (proj2 (proj2 (executor_fifo 1 1 example_run ltac:(lia) executor_example_reachable))) eq_refl).
Defined.

(** Consecutive wake-ups: a round that waits is followed by one at its wake
    time or, after a notification, earlier; the last is followed by one that
    is not before its wake time. *)
Fixpoint timed (deadline qdl : Z) (recursive : bool) (t : nat) (seen : list Seen) : Prop :=
  match seen with
  | [] => True
  | v :: rest =>
      match rest, submitUntil_round deadline qdl (seen_now v) recursive (seen_requested v) t (seen_executor v) with
      | v' :: _, inr wake => wake <= seen_now v'
      | _, _ => True
      end /\ timed deadline qdl recursive t rest
  end.

Lemma round_waits deadline qdl now recursive requested t e wake :
  submitUntil_round deadline qdl now recursive requested t e = inr wake ->
  now < qdl /\ wake <= qdl /\ (now + kPoll <= wake \/ wake = qdl \/ deadline <> INT64_MAX /\ wake = deadline) /\
  (deadline <> INT64_MAX -> now < deadline /\ wake <= deadline).
Proof.
  unfold submitUntil_round. destruct (stopping e), recursive, requested; try done.
  destruct (negb (deadline =? INT64_MAX) && (deadline <=? now)) eqn:E1; [done|].
  destruct (Z.leb_spec qdl now) as [|Hq]; [done|]. destruct (length (tasks e) <? queue_capacity e)%nat; [done|].
  intros [= <-]. destruct (Z.eqb_spec deadline INT64_MAX) as [Hd|Hd]; simpl in *.
  - split_and!; [lia..|done].
  - apply Z.leb_gt in E1. split_and!; lia.
Qed.

(** With [k] poll intervals left before the queue deadline, [k + 2] timed
    wake-ups decide. *)
Lemma submitUntil_decides_aux k deadline qdl recursive t seen :
  timed deadline qdl recursive t seen -> (k + 1 < length seen)%nat ->
  (forall v, head seen = Some v -> qdl <= seen_now v + Z.of_nat k * kPoll) ->
  submitUntil_loop deadline qdl recursive t seen <> None.
Proof.
  revert seen. induction k as [|k IH]; intros [|v [|v' seen]] Ht Hlen Hfirst; simpl in Hlen; try lia;
    cbn [submitUntil_loop];
    destruct (submitUntil_round deadline qdl (seen_now v) recursive (seen_requested v) t (seen_executor v))
      as [r|wake] eqn:E; try done.
  - apply round_waits in E as (H1 & _). specialize (Hfirst v eq_refl). lia.
  - cbn [timed] in Ht. rewrite E in Ht. destruct Ht as [Hw Ht].
    apply round_waits in E as (H1 & H2 & H3 & H4). specialize (Hfirst v eq_refl).
    destruct H3 as [H3|H3].
    + apply (IH (v' :: seen)); [done|simpl; lia|]. intros v0 [= <-]. unfold kPoll in *. lia.
    + cbn [submitUntil_loop].
      destruct (submitUntil_round deadline qdl (seen_now v') recursive (seen_requested v') t (seen_executor v'))
        as [r|wake'] eqn:E'; [done|].
      apply round_waits in E' as (H1' & _ & _ & H4'). destruct H3 as [->|[Hd ->]]; [lia|].
      specialize (H4' Hd). lia.
Qed.

(** [submitUntil] does not block for long: whatever the other threads
    do, seven rounds that are each woken by the timeout reach a decision, as
    the waits are 10 ms long and end at the 50 ms queue deadline or at the
    caller's own deadline. *)
Theorem submitUntil_decides start deadline recursive t seen :
  (7 <= length seen)%nat ->
  timed deadline (start + kQueueWait) recursive t seen ->
  (forall v, head seen = Some v -> start <= seen_now v) ->
  exists e status, submitUntil_loop deadline (start + kQueueWait) recursive t seen = Some (e, status).
Proof.
  intros Hlen Ht Hfirst.
  destruct (submitUntil_loop deadline (start + kQueueWait) recursive t seen) as [[e status]|] eqn:E; [by eauto|].
  exfalso. revert E. apply (submitUntil_decides_aux 5); [done|lia|].
  intros v Hv. specialize (Hfirst v Hv). unfold kQueueWait, kPoll in *. lia.
Qed.

(** A full queue for 60 ms. *)
Definition full : Executor := mkExecutor 1 [1%nat] false.
Definition full_seen : list Seen := (fun k => mkSeen (Z.of_nat k * kPoll) false full) <$> seq 0 7.

Lemma submitUntil_decides_witness :
  submitUntil_loop 900000000 (0 + kQueueWait) false 2 full_seen = Some (full, QueueFull) /\
  exists e status, submitUntil_loop 900000000 (0 + kQueueWait) false 2 full_seen = Some (e, status).
Proof.
  split; [vm_compute; reflexivity|]. apply submitUntil_decides.
  - simpl. lia.
  - vm_compute. repeat split; discriminate.
  - intros v [= <-]. done.
Defined.
