(* ===== verification/CpuGate.v ===== *)
(** * utils/cooperative_cpu.h: CPU permits

    A gate counts the permits in use; a lease holds at most one of them; a
    wait gives the permit back and takes it again.  [acquire] loops under the
    gate's lock: one round is a function of what it finds, [None] meaning that
    it waits.  A thread that waits is counted in [waiting]. *)

From S2P Require Import Prelude RequestContext Scheduler.
Open Scope Z_scope.

(** ** The gate *)

(** src/src/utils/cooperative_cpu.h:22-29 [cooperativeFlowWorkerCap] *)
Definition cooperativeFlowWorkerCap (cpu_permits : Z) : Z :=
  if 64 <=? cpu_permits then 256
  else Z.min 256 (Z.max 16 (u64 (Z.max 1 cpu_permits * 4))).

(** src/src/utils/cooperative_cpu.h:98-105 [CpuPermitGate] *)
Record Gate := mkGate { limit : Z; permits : Z; waiting : Z; gate_stopping : bool }.

(** src/src/utils/cooperative_cpu.h:33-33 [CpuPermitGate::CpuPermitGate] *)
Definition new_gate (l : Z) : Gate := mkGate (Z.max 1 l) 0 0 false.

(** src/src/utils/cooperative_cpu.h:41-42 [CpuPermitGate::acquire, entry] *)
Definition acquire_enter (g : Gate) : Gate := mkGate (limit g) (permits g) (u64 (waiting g + 1)) (gate_stopping g).

(** src/src/utils/cooperative_cpu.h:43-66 [CpuPermitGate::acquire, one round]
    The wait is 25 ms or until the deadline. *)
Definition acquire_round (deadline now : Z) (requested : bool) (g : Gate) : (Gate * SchedulerSubmitStatus) + Z :=
  let finish status g := inl (mkGate (limit g) (permits g) (u64 (waiting g - 1)) (gate_stopping g), status) in
  if gate_stopping g then finish Stopping g
  else if requested then finish Cancelled g
  else if negb (deadline =? INT64_MAX) && (deadline <=? now) then finish Deadline g
  else if permits g <? limit g then
    finish Accepted (mkGate (limit g) (u64 (permits g + 1)) (waiting g) (gate_stopping g))
  else inr (if deadline =? INT64_MAX then now + 25000000 else Z.min deadline (now + 25000000)).

(** src/src/utils/cooperative_cpu.h:68-75 [CpuPermitGate::release] *)
Definition release (g : Gate) : Gate :=
  if permits g =? 0 then g else mkGate (limit g) (u64 (permits g - 1)) (waiting g) (gate_stopping g).

(** src/src/utils/cooperative_cpu.h:77-83 [CpuPermitGate::setLimit] *)
Definition setLimit (l : Z) (g : Gate) : Gate := mkGate (Z.max 1 l) (permits g) (waiting g) (gate_stopping g).

(** src/src/utils/cooperative_cpu.h:85-91 [CpuPermitGate::requestShutdown] *)
Definition requestShutdown (g : Gate) : Gate := mkGate (limit g) (permits g) (waiting g) true.

(** src/src/utils/cooperative_cpu.h:93-96 [CpuPermitGate::snapshot] *)
Definition snapshot (g : Gate) : Z * Z * Z := (limit g, permits g, waiting g).

(** ** Leases and waits *)

(** src/src/utils/cooperative_cpu.h:145-150 [CpuPermitLease]
    What its owner is doing: idle, inside [acquire], or holding the permit. *)
Inductive lease_pc := LFree | LAcquiring | LHeld.

(** src/src/utils/cooperative_cpu.h:136-141 [CpuPermitLease::release] *)
Definition lease_release (held : bool) (g : Gate) : bool * Gate :=
  if negb held then (held, g) else (false, release g).

(** src/src/utils/cooperative_cpu.h:120-134 [CpuPermitLease::acquire]
    [outcome] is what the gate answers when it is asked; a request context
    in scope replaces the lease's deadline and token. *)
Definition lease_acquire (held : bool) (outcome : SchedulerSubmitStatus) : bool * SchedulerSubmitStatus :=
  if held then (held, Accepted) else (bool_decide (outcome = Accepted), outcome).

(** src/src/utils/cooperative_cpu.h:123-129 [CpuPermitLease::acquire, deadline] *)
Definition lease_deadline (own : Z) (current : option Ctx) : Z :=
  match current with Some x => deadline x | None => own end.

(** The gates of all threads: a gate and the leases on it. *)
Record World := mkWorld { gate : Gate; leases : list lease_pc }.

(** The critical sections of [acquire], [release], [setLimit] and
    [requestShutdown] on the leases of one gate, interleaved. *)
Inductive step : World -> World -> Prop :=
  | step_enter g ls i :
      ls !! i = Some LFree -> step (mkWorld g ls) (mkWorld (acquire_enter g) (<[i := LAcquiring]> ls))
  | step_round g ls i deadline now requested g' status :
      ls !! i = Some LAcquiring -> acquire_round deadline now requested g = inl (g', status) ->
      step (mkWorld g ls) (mkWorld g' (<[i := if bool_decide (status = Accepted) then LHeld else LFree]> ls))
  | step_release g ls i :
      ls !! i = Some LHeld -> step (mkWorld g ls) (mkWorld (release g) (<[i := LFree]> ls))
  | step_setLimit g ls l : step (mkWorld g ls) (mkWorld (setLimit l g) ls)
  | step_shutdown g ls : step (mkWorld g ls) (mkWorld (requestShutdown g) ls).

(** src/src/utils/cooperative_cpu.h:174-197 [ScopedCpuWait]
    The permit the wait gave back, if any, and whether it has resumed. *)
Record ScopedCpuWait := mkWait { gave_back : bool; resumed : bool }.

(** src/src/utils/cooperative_cpu.h:176-181 [ScopedCpuWait::ScopedCpuWait]
    [held] is the state of the thread's current lease ([None]: no lease). *)
Definition wait_begin (held : option bool) (g : Gate) : ScopedCpuWait * option bool * Gate :=
  match held with
  | Some true => let '(h, g) := lease_release true g in (mkWait true false, Some h, g)
  | _ => (mkWait false false, held, g)
  end.

(** src/src/utils/cooperative_cpu.h:183-190 [ScopedCpuWait::resumeOrThrow]
    [inl status] is the exception SchedulerSubmitError. *)
Definition resumeOrThrow (outcome : SchedulerSubmitStatus) (w : ScopedCpuWait) (held : option bool) :
    (SchedulerSubmitStatus + unit) * ScopedCpuWait * option bool :=
  if negb (gave_back w) || resumed w then (inr (), w, held)
  else
    match held with
    | Some h =>
        let '(h, status) := lease_acquire h outcome in
        (if bool_decide (status = Accepted) then inr () else inl status, mkWait (gave_back w) true, Some h)
    | None => (inr (), w, held)
    end.

(** src/src/utils/cooperative_cpu.h:199-223 [waitWithoutCpuPermit]
    [result] is what the function returns or throws while the permit is
    given back; [outcome] is the answer of the gate when the thread resumes.
    An exception of the wait is [inl (inl status)], one of the function
    [inl (inr e)].  Also returned: whether the gate was asked. *)
Definition waitWithoutCpuPermit {R Exn} (result : Exn + R) (outcome : SchedulerSubmitStatus)
    (held : option bool) (g : Gate) :
    ((SchedulerSubmitStatus + Exn) + R) * option bool * Gate * bool :=
  let '(w, held, g) := wait_begin held g in
  match result with
  | inr v =>
      let '(r, w, held) := resumeOrThrow outcome w held in
      match r with
      | inr _ => (inr v, held, g, resumed w)
      | inl status =>
          (* the catch clause: the wait has resumed, rethrow *)
          if negb (resumed w) then
            let '(r, w, held) := resumeOrThrow outcome w held in
            (inl (inl status), held, g, resumed w)
          else (inl (inl status), held, g, resumed w)
      end
  | inl e =>
      let '(r, w, held) := resumeOrThrow outcome w held in
      (match r with inr _ => inl (inr e) | inl status => inl (inl status) end, held, g, resumed w)
  end.

(** ** Theorems *)

Definition is_held (pc : lease_pc) : Z := match pc with LHeld => 1 | _ => 0 end.
Definition is_waiting (pc : lease_pc) : Z := match pc with LAcquiring => 1 | _ => 0 end.

Record counted (w : World) : Prop := {
  ct_limit : 1 <= limit (gate w);
  ct_small : Z.of_nat (length (leases w)) < 2 ^ 64;
  ct_permits : permits (gate w) = sumZ is_held (leases w);
  ct_waiting : waiting (gate w) = sumZ is_waiting (leases w)
}.

Lemma acquire_round_spec deadline now requested g g' status :
  0 <= permits g < 2 ^ 64 - 1 -> 1 <= waiting g < 2 ^ 64 ->
  acquire_round deadline now requested g = inl (g', status) ->
  limit g' = limit g /\ waiting g' = waiting g - 1 /\
  permits g' = permits g + (if bool_decide (status = Accepted) then 1 else 0) /\
  (status = Accepted -> permits g' <= limit g /\ gate_stopping g = false /\ requested = false).
Proof.
  intros Hp Hw. unfold acquire_round.
  destruct (gate_stopping g), requested; simpl;
    try (intros [= <- <-]; simpl; rewrite u64_small by lia; split_and!; [done|lia|lia|done]).
  destruct (_ && _); [intros [= <- <-]; simpl; rewrite u64_small by lia; split_and!; [done|lia|lia|done]|].
  destruct (Z.ltb_spec (permits g) (limit g)); [|done].
  intros [= <- <-]. simpl. rewrite !u64_small by lia. split_and!; [done|lia|lia|lia..].
Qed.

Lemma counted_step w w' : counted w -> step w w' -> counted w'.
Proof.
  intros [Hl Hs Hp Hw] Hst.
  assert (B1 : 0 <= sumZ is_held (leases w) <= Z.of_nat (length (leases w)))
    by (apply sumZ_bounds; intros []; simpl; lia).
  assert (B2 : 0 <= sumZ is_waiting (leases w) <= Z.of_nat (length (leases w)))
    by (apply sumZ_bounds; intros []; simpl; lia).
  assert (Hsum : forall i pc pc', leases w !! i = Some pc ->
    sumZ is_held (<[i := pc']> (leases w)) = sumZ is_held (leases w) - is_held pc + is_held pc' /\
    sumZ is_waiting (<[i := pc']> (leases w)) = sumZ is_waiting (leases w) - is_waiting pc + is_waiting pc' /\
    0 <= sumZ is_held (<[i := pc']> (leases w)) <= Z.of_nat (length (leases w)) /\
    0 <= sumZ is_waiting (<[i := pc']> (leases w)) <= Z.of_nat (length (leases w))).
  { intros i pc pc' H. rewrite !(sumZ_insert _ _ _ _ _ H), <- (length_insert (leases w) i pc').
    rewrite <- !(sumZ_insert _ _ _ _ _ H). split_and!; try done; apply sumZ_bounds; intros []; simpl; lia. }
  destruct Hst as [g ls i Hi|g ls i dl now requested g' status Hi E|g ls i Hi|g ls l|g ls]; simpl in *.
  - destruct (Hsum i LFree LAcquiring Hi) as (E1 & E2 & B3 & B4). simpl in *.
    constructor; simpl; rewrite ?length_insert, ?E1, ?E2; try lia. rewrite u64_small; lia.
  - destruct (Hsum i LAcquiring LHeld Hi) as (E1 & E2 & B3 & B4).
    destruct (Hsum i LAcquiring LFree Hi) as (E1' & E2' & B3' & B4'). simpl in *.
    apply acquire_round_spec in E as (H1 & H2 & H3 & _); [|lia..].
    case_bool_decide; constructor; simpl; rewrite ?length_insert; lia.
  - destruct (Hsum i LHeld LFree Hi) as (E1 & E2 & B3 & B4). simpl in *. unfold release.
    destruct (Z.eqb_spec (permits g) 0); [lia|].
    constructor; simpl; rewrite ?length_insert, ?E1, ?E2; try lia. rewrite u64_small; lia.
  - constructor; simpl; try done. lia.
  - constructor; simpl; done.
Qed.

(** The gate counts exactly: in every interleaving of threads that
    acquire, wait, give back, change the limit or shut down, the permits in
    use are the leases that hold one and the waiting counter is the number of
    threads inside [acquire]; a permit is granted only below the limit in
    force, so leases never exceed a limit that is not lowered; after a
    shutdown none is granted. *)
Theorem permits_counted l n w :
  Z.of_nat n < 2 ^ 64 ->
  rtc step (mkWorld (new_gate l) (replicate n LFree)) w ->
  permits (gate w) = sumZ is_held (leases w) /\ waiting (gate w) = sumZ is_waiting (leases w) /\
  1 <= limit (gate w) /\
  (forall i deadline now requested g', leases w !! i = Some LAcquiring ->
     acquire_round deadline now requested (gate w) = inl (g', Accepted) ->
     permits g' = permits (gate w) + 1 /\ permits g' <= limit g' /\ gate_stopping (gate w) = false).
Proof.
  intros Hn Hr.
  assert (Hc : counted w).
  { eapply (invariant_rtc step counted); [intros; by eapply counted_step| |exact Hr].
    constructor; simpl; [lia|by rewrite length_replicate|clear..].
    - induction n as [|n IH]; [done|]. by rewrite replicate_S, sumZ_cons, <- IH.
    - induction n as [|n IH]; [done|]. by rewrite replicate_S, sumZ_cons, <- IH. }
  destruct Hc as [Hl Hs Hp Hw]. split_and!; try done.
  intros i dl now requested g' Hi E.
  pose proof (sumZ_insert is_held _ _ _ LHeld Hi) as E1. simpl in E1.
  pose proof (sumZ_bounds is_held (<[i:=LHeld]> (leases w)) ltac:(intros []; simpl; lia)) as B1.
  pose proof (sumZ_bounds is_held (leases w) ltac:(intros []; simpl; lia)) as B3.
  rewrite length_insert in B1.
  pose proof (sumZ_bounds is_waiting (leases w) ltac:(intros []; simpl; lia)) as B2.
  assert (1 <= sumZ is_waiting (leases w)).
  { apply (sumZ_lookup_le is_waiting _ i LAcquiring); [|done]. apply Forall_forall. intros [] _; simpl; lia. }
  apply acquire_round_spec in E as (H1 & _ & H3 & H4); [|lia..]. simpl in H3.
  destruct (H4 eq_refl) as (? & ? & _). split_and!; [lia|lia|done].
Qed.

Lemma permits_counted_witness :
  let w := mkWorld (mkGate 1 1 0 false) [LHeld; LFree] in
  rtc step (mkWorld (new_gate 0) [LFree; LFree]) w /\ permits (gate w) = sumZ is_held (leases w).
Proof.
  assert (H : rtc step (mkWorld (new_gate 0) (replicate 2 LFree)) (mkWorld (mkGate 1 1 0 false) [LHeld; LFree])).
  { eapply rtc_l; [apply (step_enter _ _ 0); done|].
    eapply rtc_l; [eapply (step_round _ _ 0 INT64_MAX 0 false); vm_compute; reflexivity|]. apply rtc_refl. }
  split; [exact H|]. apply (permits_counted 0 2 _ ltac:(lia) H).
Defined.

(** A wait without the permit is transparent: the result or exception of
    the function is what the caller gets and the permit is held again exactly
    if it was before, unless the gate refuses to give it back, in which case
    the caller gets that error and holds nothing.  The gate is asked at most
    once, and only when a permit had been given back. *)
Theorem wait_restores_permit {R Exn} (result : Exn + R) outcome held g r held' g' asked :
  waitWithoutCpuPermit result outcome held g = (r, held', g', asked) ->
  g' = (if bool_decide (held = Some true) then release g else g) /\
  asked = bool_decide (held = Some true) /\
  if bool_decide (held = Some true) && negb (bool_decide (outcome = Accepted))
  then r = inl (inl outcome) /\ held' = Some false
  else held' = held /\ r = match result with inl e => inl (inr e) | inr v => inr v end.
Proof.
  unfold waitWithoutCpuPermit.
  destruct held as [[|]|], result, outcome; cbv -[release]; intros H; injection H as <- <- <- <-; done.
Qed.

Lemma wait_restores_permit_witness :
  waitWithoutCpuPermit (R := nat) (Exn := nat) (inr 3%nat) Accepted (Some true) (mkGate 2 1 0 false)
    = (inr 3%nat, Some true, mkGate 2 0 0 false, true) /\
  Some true = Some true.
Proof.
  split; [reflexivity|].
  exact (proj1 (proj2 (proj2 (wait_restores_permit (R := nat) (Exn := nat) (inr 3%nat) Accepted (Some true)
    (mkGate 2 1 0 false) (inr 3%nat) (Some true) (mkGate 2 0 0 false) true eq_refl)))).
Defined.
