(* ===== verification/Governor.v ===== *)
(** * utils/resource_control.h and .cpp: budgets and the CPU governor

    Discovery of the machine's limits is input (files of cgroups and /proc,
    system calls); what the program computes from it is here: the parsers of
    the cgroup texts, the budgets, the governor's step, one tick of the
    controller loop and the effect of [configureResourceControl].  A [double]
    is a rational or not finite: the code only compares, takes minima and
    rounds down, which is exact; the one division, of the effective CPU count
    in thousandths by 1000, rounds down to the same integer as the exact one
    for any count below 2^43. *)

From Stdlib Require Import QArith Qround.
From S2P Require Import Prelude Str StringUtil.
Open Scope Z_scope.

(** ** Modes *)

(** src/src/utils/resource_control.h:15-19 [ResourceControlMode] *)
Inductive ResourceControlMode := Compat | Adaptive | ForceMax.

#[export] Instance mode_eq_dec : EqDecision ResourceControlMode. Proof. solve_decision. Defined.

(** src/src/utils/resource_control.h:21-31 [resourceControlModeName] *)
Definition resourceControlModeName (m : ResourceControlMode) : str :=
  match m with Compat => "compat" | Adaptive => "adaptive" | ForceMax => "force_max" end.

(** src/src/utils/resource_control.h:33-42 [parseResourceControlMode] *)
Definition parseResourceControlMode (v : str) : option ResourceControlMode :=
  if bool_decide (v = "compat"%str) then Some Compat
  else if bool_decide (v = "adaptive"%str) then Some Adaptive
  else if bool_decide (v = "force_max"%str) then Some ForceMax
  else None.

(** ** Counting the CPUs of a set *)

Fixpoint skip_of (f : ascii -> bool) (s : str) : str :=
  match s with c :: t => if f c then skip_of f t else s | [] => [] end.

(** The longest run of digits: whether there is one, its value and the rest. *)
Fixpoint read_number (have : bool) (acc : Z) (s : str) : bool * Z * str :=
  match s with
  | c :: t => if isdigit c then read_number true (u64 (u64 (acc * 10) + digit_value c)) t else (have, acc, s)
  | [] => (have, acc, [])
  end.

Definition is_sep (c : ascii) : bool := one_of " "%str c || (code c =? 9) || is_char "," c.
Definition is_blank (c : ascii) : bool := one_of " "%str c || (code c =? 9).

(** One pass of the outer loop per unit of fuel; [None] when it runs out. *)
Fixpoint cpuset_loop (fuel : nat) (count : Z) (s : str) : option Z :=
  match fuel with
  | O => None
  | S fuel =>
      match s with
      | [] => Some count
      | _ =>
          match skip_of is_sep s with
          | [] => Some count
          | s =>
              let '(have_first, first, s) := read_number false 0 s in
              if negb have_first then Some 0
              else
                let r :=
                  match s with
                  | c :: t =>
                      if is_char "-" c then
                        let '(have_last, last, t) := read_number false 0 t in
                        if negb have_last || (last <? first) then None else Some (last, t)
                      else Some (first, s)
                  | [] => Some (first, s)
                  end in
                match r with
                | None => Some 0
                | Some (last, s) =>
                    if u64 (UINT64_MAX - count) <? u64 (u64 (last - first) + 1) then Some 0
                    else
                      let count := u64 (count + u64 (u64 (last - first) + 1)) in
                      match skip_of is_blank s with
                      | [] => Some count
                      | c :: t => if is_char "," c then cpuset_loop fuel count (c :: t) else Some 0
                      end
                end
          end
      end
  end.

(** src/src/utils/resource_control.h:44-86 [parseCpuSetCount] *)
Definition parseCpuSetCount (value : str) : option Z := cpuset_loop (S (length value)) 0 value.

(** ** Budgets *)

(** A [double] as far as the code looks into it. *)
Inductive double := Finite (q : Q) | NotFinite.

Definition Qgtb (x y : Q) : bool := negb (Qle_bool x y).

(** src/src/utils/resource_control.h:88-100 [computeEffectiveCpu] *)
Definition computeEffectiveCpu (affinity cpuset quota fallback : double) : Q :=
  let result :=
    foldl (fun result candidate =>
      match candidate with
      | NotFinite => result
      | Finite c =>
          if Qle_bool c 0 then result
          else if Qle_bool result 0 then c else if Qle_bool result c then result else c
      end) 0%Q [affinity; cpuset; quota] in
  let result :=
    if Qle_bool result 0 then
      match fallback with Finite f => if Qgtb f 0 then f else 1%Q | NotFinite => 1%Q end
    else result in
  if Qle_bool 1 result then result else 1%Q.

(** src/src/utils/resource_control.h:102-106 [ResourcePermitBudget] *)
Record ResourcePermitBudget := mkBudget { cpu_permits : Z; active_flows : Z; outbound_connections : Z }.

(** src/src/utils/resource_control.h:108-126 [computeForceMaxAdmissionEntries] *)
Definition computeForceMaxAdmissionEntries (memory_bytes nofile_soft outbound : Z) : Z :=
  let result := if memory_bytes =? 0 then 2048 else Z.max 64 (memory_bytes / 8 / (64 * 1024)) in
  let result := Z.min result INT_MAX in
  let result :=
    if negb (nofile_soft =? 0) then
      let reserved := Z.min nofile_soft (Z.max 64 (u64 (outbound + 64))) in
      let fd_bound := if reserved <? nofile_soft then nofile_soft - reserved else Z.max 1 (nofile_soft / 2) in
      Z.min result fd_bound
    else result in
  Z.max 1 result.

(** src/src/utils/resource_control.h:128-134 [computeForceMaxRequestByteLimit] *)
Definition computeForceMaxRequestByteLimit (memory_bytes : Z) : Z :=
  if memory_bytes =? 0 then 64 * 1024 * 1024 else Z.max (memory_bytes / 16) (64 * 1024 * 1024).

(** src/src/utils/resource_control.h:136-142 [computeForceMaxRetainedByteLimit] *)
Definition computeForceMaxRetainedByteLimit (memory_bytes : Z) : Z :=
  if memory_bytes =? 0 then 64 * 1024 * 1024 else Z.max (memory_bytes / 4) (64 * 1024 * 1024).

(** src/src/utils/resource_control.h:144-157 [computeConservativeResourceBudget] *)
Definition computeConservativeResourceBudget (effective_cpu : double) (configured_cpu_cap : Z) : ResourcePermitBudget :=
  let finite_cpu := match effective_cpu with Finite q => if Qgtb q 0 then q else 1%Q | NotFinite => 1%Q end in
  let cpu := Z.max 1 (u64 (Qfloor finite_cpu)) in
  let cpu := if negb (configured_cpu_cap =? 0) then Z.min cpu configured_cpu_cap else cpu in
  let cpu := Z.min cpu UINT32_MAX in
  let scaled := Z.min UINT32_MAX (u64 (cpu * 16)) in
  mkBudget (u32 cpu) (u32 scaled) (u32 scaled).

(** ** The governor *)

(** src/src/utils/resource_control.h:159-164 [governorDecreaseCpuPermits] *)
Definition governorDecreaseCpuPermits (current : Z) : Z :=
  let current := Z.max 1 current in
  if current =? 1 then 1 else Z.max 1 (u64 (current - Z.max 1 (current / 4))).

(** src/src/utils/resource_control.h:166-170 [governorRecoverCpuPermits] *)
Definition governorRecoverCpuPermits (current maximum : Z) : Z :=
  let maximum := Z.max 1 maximum in
  Z.min maximum (u64 (Z.max 1 current + 1)).

(** src/src/utils/resource_control.h:172-176 [ResourceGovernorState] *)
Record GovernorState := mkGov { current_permits : Z; stable_samples : Z; idle_samples : Z }.

(** src/src/utils/resource_control.h:178-185 [ResourceGovernorInput] *)
Record GovernorInput := mkInput {
  maximum_permits : Z; force_max : bool; telemetry_valid : bool; memory_pressure : bool; memory_event : bool;
  active : bool
}.

(** src/src/utils/resource_control.h:187-192 [ResourceGovernorDecision] *)
Record GovernorDecision := mkDecision {
  permits : Z; decision_state : str; decision_reason : str; pressure_fallback : bool
}.

(** src/src/utils/resource_control.h:194-255 [governorStep] *)
Definition governorStep (state : GovernorState) (input : GovernorInput) : GovernorState * GovernorDecision :=
  let maximum := Z.max 1 (maximum_permits input) in
  let current := Z.min (Z.max (current_permits state) 1) maximum in
  let decide_ (s : GovernorState) (st re : str) (p : bool) := (s, mkDecision (current_permits s) st re p) in
  if negb (telemetry_valid input) then
    decide_ (mkGov (governorDecreaseCpuPermits current) 0 0) "pressure_guarded"%str "telemetry_unavailable"%str true
  else if memory_pressure input || memory_event input then
    decide_ (mkGov (governorDecreaseCpuPermits current) 0 0) "pressure_guarded"%str
      (if memory_event input then "memory_event" else "memory_pressure")%str true
  else if current <? maximum then
    if force_max input || active input then
      let stable := u32 (stable_samples state + 1) in
      let s := if 2 <=? stable then mkGov (governorRecoverCpuPermits current maximum) 0 0
               else mkGov current stable 0 in
      decide_ s "recovering"%str (if active input then "stable_throughput" else "force_max_idle_restore")%str false
    else
      let idle := u32 (idle_samples state + 1) in
      let s := if (30 <=? idle) && (1 <? current) then mkGov (u64 (current - 1)) 0 0 else mkGov current 0 idle in
      decide_ s "idle_reduced"%str "adaptive_idle"%str false
  else
    let reason := (if active input then "hardware_limit_active" else "hardware_limit_idle")%str in
    if negb (force_max input) && negb (active input) then
      let idle := u32 (idle_samples state + 1) in
      if (30 <=? idle) && (1 <? current)
      then decide_ (mkGov (u64 (current - 1)) 0 0) "idle_reduced"%str "adaptive_idle"%str false
      else decide_ (mkGov current 0 idle) "max_ready"%str reason false
    else if active input then decide_ (mkGov current 0 0) "max_ready"%str reason false
    else decide_ (mkGov current 0 (idle_samples state)) "max_ready"%str reason false.

(** ** Texts of the cgroup files *)

(** What [std::stoull] reads with base 10: the value and the rest, or nothing
    when it throws (no digits, or out of range). *)
Definition stoull (s : str) : option (Z * str) :=
  let s := skip_of isspace s in
  let '(neg, s) := match s with
                   | c :: t => if is_char "-" c then (true, t) else if is_char "+" c then (false, t) else (false, s)
                   | [] => (false, s)
                   end in
  let rest := skip_of isdigit s in
  let digits := take (length s - length rest) s in
  let v := digits_value 0 digits in
  if bool_decide (digits = []) || (UINT64_MAX <? v) then None
  else Some (if neg then u64 (- v) else v, rest).

(** src/src/utils/resource_control.cpp:194-204 [parseFiniteBytes] *)
Definition parseFiniteBytes (value : str) : Z :=
  if bool_decide (value = []) || bool_decide (value = "max"%str) then 0
  else match stoull value with Some (v, []) => v | _ => 0 end.

(** src/src/utils/resource_control.cpp:81-113 [selfCgroupRelativePath]
    The lines of /proc/self/cgroup; no controller means the unified one. *)
Fixpoint selfCgroupRelativePath (controller : option str) (lines : list str) : str :=
  match lines with
  | [] => []
  | line :: lines =>
      match find_char ":" line 0 with
      | None => selfCgroupRelativePath controller lines
      | Some first =>
          match find_char ":" line (first + 1) with
          | None => selfCgroupRelativePath controller lines
          | Some second =>
              let controllers := substr line (first + 1) (second - first - 1) in
              let matched :=
                match controller with
                | None => bool_decide (substr line 0 first = "0"%str) && bool_decide (controllers = [])
                | Some c => existsb (fun n => bool_decide (n = c)) (default [] (split controllers ","%str))
                end in
              if matched then drop (second + 1) line else selfCgroupRelativePath controller lines
          end
      end
  end.

(** src/src/utils/resource_control.cpp:540-544 [fingerprint, hash]
    FNV-1a over the text of the limits. *)
Definition fingerprint_hash (material : str) : Z :=
  foldl (fun v c => u64 (Z.lxor v (code c) * 1099511628211)) 1469598103934665603 material.

(** ** The controller *)

(** src/src/utils/resource_control.h:257-318 [ResourceControlSnapshot]
    The fields that the controller and the configuration read or write; the
    others are reported only. *)
Record Snapshot := mkSnapshot {
  mode : str; effective_mode : str; controller_state : str; controller_reason : str;
  hardware_fingerprint : str; hardware_pin : str;
  sample_count : Z; effective_cpu_millis : Z;
  memory_current_bytes : Z; memory_high_bytes : Z; memory_max_bytes : Z; host_total_memory_bytes : Z;
  nofile_soft : Z;
  memory_events_high : Z; memory_events_max : Z; memory_events_oom : Z; memory_events_oom_kill : Z;
  suggested_cpu_permits : Z; max_cpu_permits : Z; configured_cpu_cap : Z;
  suggested_active_flows : Z; suggested_outbound_connections : Z;
  configured_pending_connections : Z; configured_server_threads : Z; configured_deadline_ms : Z;
  memory_events_supported : bool; hardware_detected : bool; hardware_pin_matched : bool;
  startup_budget_applied : bool; snapshot_fallback : bool
}.

(** src/src/utils/resource_control.h:320-326 [hardwarePinMatches] *)
Definition hardwarePinMatches (s : Snapshot) (pin : str) : bool :=
  bool_decide (pin = []) || (hardware_detected s && bool_decide (hardware_fingerprint s = pin)).

(** src/src/utils/resource_control.cpp:726-737 [memoryPressure, boundary]
    [valid]: the current use could be read. *)
Definition near_boundary (valid : bool) (s : Snapshot) : bool :=
  let boundary := memory_max_bytes s in
  let boundary :=
    if negb (memory_high_bytes s =? 0)
    then (if boundary =? 0 then memory_high_bytes s else Z.min boundary (memory_high_bytes s)) else boundary in
  let boundary := if boundary =? 0 then host_total_memory_bytes s else boundary in
  valid && negb (boundary =? 0) && negb (memory_current_bytes s =? 0) &&
  (boundary - boundary / 10 <=? memory_current_bytes s).

(** src/src/utils/resource_control.cpp:742-750 [controllerLoop, locals] *)
Record Controller := mkController {
  previous_accepted : Z; previous_successful : Z;
  previous_memory_high : Z; previous_memory_max : Z; previous_oom : Z; previous_oom_kill : Z;
  governor : GovernorState
}.

(** What the loop reads in one tick; the snapshot is the one with the memory
    readings of [memoryPressure]. *)
Record Observation := mkObservation {
  admission_accepted : Z; successful_owners : Z; scheduler_active : Z; scheduler_queued : Z;
  memory_valid : bool; events_valid : bool; observed : Snapshot
}.

(** src/src/utils/resource_control.cpp:755-765 [controllerLoop, baseline] *)
Definition controller_baseline (s : Snapshot) : Snapshot :=
  let baseline := computeConservativeResourceBudget (Finite (inject_Z (effective_cpu_millis s) / 1000)) 0 in
  let outbound := outbound_connections baseline in
  let outbound := if negb (nofile_soft s =? 0) then Z.min outbound (Z.max 1 (nofile_soft s / 4)) else outbound in
  mkSnapshot (mode s) (effective_mode s) (controller_state s) (controller_reason s) (hardware_fingerprint s)
    (hardware_pin s) (sample_count s) (effective_cpu_millis s) (memory_current_bytes s) (memory_high_bytes s)
    (memory_max_bytes s) (host_total_memory_bytes s) (nofile_soft s) (memory_events_high s) (memory_events_max s)
    (memory_events_oom s) (memory_events_oom_kill s) (suggested_cpu_permits s) (cpu_permits baseline)
    (configured_cpu_cap s) (active_flows baseline) outbound (configured_pending_connections s)
    (configured_server_threads s) (configured_deadline_ms s) (memory_events_supported s) (hardware_detected s)
    (hardware_pin_matched s) (startup_budget_applied s) (snapshot_fallback s).

(** The fields a tick writes. *)
Definition with_decision (s : Snapshot) (d : GovernorDecision) (reason : str) (fallback : bool) (samples : Z) : Snapshot :=
  mkSnapshot (mode s) (effective_mode s) (decision_state d) reason (hardware_fingerprint s)
    (hardware_pin s) samples (effective_cpu_millis s) (memory_current_bytes s) (memory_high_bytes s)
    (memory_max_bytes s) (host_total_memory_bytes s) (nofile_soft s) (memory_events_high s) (memory_events_max s)
    (memory_events_oom s) (memory_events_oom_kill s) (permits d) (max_cpu_permits s)
    (configured_cpu_cap s) (suggested_active_flows s) (suggested_outbound_connections s)
    (configured_pending_connections s) (configured_server_threads s) (configured_deadline_ms s)
    (memory_events_supported s) (hardware_detected s) (hardware_pin_matched s) (startup_budget_applied s) fallback.

(** src/src/utils/resource_control.cpp:767-816 [controllerLoop, one tick]
    [None] is an exception while sampling.  The last component is the limit
    given to the CPU gate. *)
Definition controller_tick (c : Controller) (next : Snapshot) (o : option Observation) :
    Controller * Snapshot * Z :=
  match o with
  | Some o =>
      let next := observed o in
      let arrivals := u64 (admission_accepted o - previous_accepted c) in
      let successful := u64 (successful_owners o - previous_successful c) in
      let event := events_valid o &&
        ((previous_memory_high c <? memory_events_high next) || (previous_memory_max c <? memory_events_max next) ||
         (previous_oom c <? memory_events_oom next) || (previous_oom_kill c <? memory_events_oom_kill next)) in
      let pressure := near_boundary (memory_valid o) next || event in
      let active := negb (arrivals =? 0) || negb (successful =? 0) || negb (scheduler_active o =? 0) ||
                    negb (scheduler_queued o =? 0) in
      let valid := memory_valid o && (negb (memory_events_supported next) || events_valid o) in
      let '(g, d) := governorStep (governor c)
        (mkInput (max_cpu_permits next) (bool_decide (effective_mode next = "force_max"%str)) valid
           (pressure && negb event) event active) in
      let keep new old := if events_valid o then new else old in
      (mkController (admission_accepted o) (successful_owners o)
         (keep (memory_events_high next) (previous_memory_high c)) (keep (memory_events_max next) (previous_memory_max c))
         (keep (memory_events_oom next) (previous_oom c)) (keep (memory_events_oom_kill next) (previous_oom_kill c)) g,
       with_decision next d (decision_reason d) (pressure_fallback d) (u64 (sample_count next + 1)), permits d)
  | None =>
      let '(g, d) := governorStep (governor c)
        (mkInput (max_cpu_permits next) (bool_decide (effective_mode next = "force_max"%str)) false false false false) in
      (mkController (previous_accepted c) (previous_successful c) (previous_memory_high c) (previous_memory_max c)
         (previous_oom c) (previous_oom_kill c) g,
       with_decision next d "telemetry_error"%str true (sample_count next), permits d)
  end.

(** ** Configuration *)

(** src/src/utils/resource_control.cpp:837-848 [configureResourceControl, frozen] *)
Definition capacity_changed (old new : Snapshot) : bool :=
  negb (bool_decide (mode old = mode new)) || negb (bool_decide (hardware_pin old = hardware_pin new)) ||
  negb (configured_cpu_cap old =? configured_cpu_cap new) ||
  negb (configured_pending_connections old =? configured_pending_connections new) ||
  negb (configured_server_threads old =? configured_server_threads new) ||
  negb (configured_deadline_ms old =? configured_deadline_ms new) ||
  negb (bool_decide (hardware_fingerprint old = hardware_fingerprint new)).

(** The settings the configuration adjusts, and the limits it hands out. *)
Record Limits := mkLimits {
  maxConcurThreads : Z; maxServerThreads : Z; maxPendingConns : Z;
  admission_entries : Z; admission_bytes : Z; retained_bytes : Z; snapshot_out : Snapshot
}.

Inductive ConfigureError := InvalidMode | RestartRequired.

(** src/src/utils/resource_control.cpp:825-895 [configureResourceControl]
    [discover] (the machine's limits) is a parameter, [frozen] the running
    configuration if it is frozen. *)
Definition configureResourceControl (discover : ResourceControlMode -> Snapshot) (text : str)
    (concur server pending : Z) (frozen : option Snapshot) : ConfigureError + Limits :=
  let normalized := toLower (trimWhitespace text true true) in
  match parseResourceControlMode normalized with
  | None => inl InvalidMode
  | Some parsed =>
      let s := discover parsed in
      if match frozen with Some old => capacity_changed old s | None => false end then inl RestartRequired
      else
        let apply_force_max := bool_decide (parsed = ForceMax) && hardware_detected s && hardware_pin_matched s in
        let boundary := if negb (memory_max_bytes s =? 0) then memory_max_bytes s else host_total_memory_bytes s in
        let boundary := if negb (memory_high_bytes s =? 0) &&
                           ((boundary =? 0) || (memory_high_bytes s <? boundary))
                        then memory_high_bytes s else boundary in
        if apply_force_max then
          let concur := Z.min (suggested_cpu_permits s) INT_MAX in
          let entries := computeForceMaxAdmissionEntries boundary (nofile_soft s) (suggested_outbound_connections s) in
          inr (mkLimits concur (Z.max server concur) (Z.min entries INT_MAX) entries
                 (computeForceMaxRequestByteLimit boundary) (computeForceMaxRetainedByteLimit boundary)
                 (mkSnapshot (mode s) "force_max" "max_ready_static" "hardware_limits" (hardware_fingerprint s)
                    (hardware_pin s) (sample_count s) (effective_cpu_millis s) (memory_current_bytes s)
                    (memory_high_bytes s) (memory_max_bytes s) (host_total_memory_bytes s) (nofile_soft s)
                    (memory_events_high s) (memory_events_max s) (memory_events_oom s) (memory_events_oom_kill s)
                    (suggested_cpu_permits s) (max_cpu_permits s) (configured_cpu_cap s) (suggested_active_flows s)
                    (suggested_outbound_connections s) (configured_pending_connections s)
                    (configured_server_threads s) (configured_deadline_ms s) (memory_events_supported s)
                    (hardware_detected s) (hardware_pin_matched s) true (snapshot_fallback s)))
        else if bool_decide (parsed = Adaptive) then
          inr (mkLimits concur server pending (Z.min (Z.max pending 1) 2048) (64 * 1024 * 1024) (64 * 1024 * 1024)
                 (mkSnapshot (mode s) (effective_mode s) (controller_state s) (controller_reason s)
                    (hardware_fingerprint s) (hardware_pin s) (sample_count s) (effective_cpu_millis s)
                    (memory_current_bytes s) (memory_high_bytes s) (memory_max_bytes s) (host_total_memory_bytes s)
                    (nofile_soft s) (memory_events_high s) (memory_events_max s) (memory_events_oom s)
                    (memory_events_oom_kill s) (Z.max 1 (max_cpu_permits s / 2)) (max_cpu_permits s)
                    (configured_cpu_cap s) (suggested_active_flows s) (suggested_outbound_connections s)
                    (configured_pending_connections s) (configured_server_threads s) (configured_deadline_ms s)
                    (memory_events_supported s) (hardware_detected s) (hardware_pin_matched s)
                    (startup_budget_applied s) (snapshot_fallback s)))
        else inr (mkLimits concur server pending 2048 (64 * 1024 * 1024) 0 s)
  end.

(** ** The governor stays in range and reacts *)

Definition clamped (s : GovernorState) (i : GovernorInput) : Z :=
  Z.min (Z.max (current_permits s) 1) (Z.max 1 (maximum_permits i)).

Lemma decrease_spec c : 1 <= c < 2 ^ 64 ->
  1 <= governorDecreaseCpuPermits c <= c /\
  (1 < c -> governorDecreaseCpuPermits c < c /\ 3 * c <= 4 * governorDecreaseCpuPermits c + 4).
Proof.
  intros H. unfold governorDecreaseCpuPermits. rewrite (Z.max_r 1 c) by lia.
  destruct (Z.eqb_spec c 1); [lia|].
  assert (0 <= c / 4 <= c / 2) by divlia. assert (c / 2 < c) by divlia.
  rewrite u64_small by lia. split; [lia|]. intros _. split; [lia|]. divlia.
Qed.

(** Every step of the governor keeps the permits between one and the
    maximum.  Missing telemetry, memory pressure or a memory event take away
    at least one permit and about a quarter, down to one, and raise the
    fallback flag; no step adds more than one permit, and none is added
    without two stable samples in a row. *)
Theorem governor_bounded s i :
  is_u64 (current_permits s) -> is_u64 (maximum_permits i) ->
  let '(s', d) := governorStep s i in
  permits d = current_permits s' /\ 1 <= permits d <= Z.max 1 (maximum_permits i) /\
  permits d <= clamped s i + 1 /\
  (clamped s i < permits d -> 1 <= u32 (stable_samples s + 1) - 1 /\ stable_samples s' = 0) /\
  pressure_fallback d = negb (telemetry_valid i) || memory_pressure i || memory_event i /\
  (pressure_fallback d = true ->
     (clamped s i = 1 /\ permits d = 1 \/ permits d < clamped s i) /\ 3 * clamped s i <= 4 * permits d + 4).
Proof.
  intros Hc Hm. unfold is_u64 in *.
  assert (Hcl : 1 <= clamped s i <= Z.max 1 (maximum_permits i)) by (unfold clamped; lia).
  assert (Hu : clamped s i < 2 ^ 64) by (unfold clamped; lia).
  unfold governorStep. fold (clamped s i). cbv zeta.
  destruct (telemetry_valid i); simpl.
  2:{ pose proof (decrease_spec (clamped s i)). split_and!; try done; lia. }
  destruct (memory_pressure i || memory_event i) eqn:Ep; simpl.
  { pose proof (decrease_spec (clamped s i)). split_and!; try done; lia. }
  destruct (Z.ltb_spec (clamped s i) (Z.max 1 (maximum_permits i))).
  - destruct (force_max i || active i).
    + destruct (Z.leb_spec 2 (u32 (stable_samples s + 1))); simpl; [|split_and!; try done; lia].
      unfold governorRecoverCpuPermits. rewrite (Z.max_r 1 (clamped s i)) by lia.
      rewrite u64_small by lia. split_and!; try done; lia.
    + destruct (_ && _) eqn:Eb; simpl; [|split_and!; try done; lia].
      bools. rewrite u64_small by lia. split_and!; try done; lia.
  - destruct (negb (force_max i) && negb (active i)).
    + destruct (_ && _) eqn:Eb; simpl; [|split_and!; try done; lia].
      bools. rewrite u64_small by lia. split_and!; try done; lia.
    + destruct (active i); simpl; split_and!; try done; lia.
Qed.

Lemma governor_bounded_witness :
  governorStep (mkGov 8 0 0) (mkInput 16 false false false false true)
    = (mkGov 6 0 0, mkDecision 6 "pressure_guarded" "telemetry_unavailable" true) /\
  3 * clamped (mkGov 8 0 0) (mkInput 16 false false false false true) <= 4 * 6 + 4.
Proof.
  split; [reflexivity|].
  pose proof (governor_bounded (mkGov 8 0 0) (mkInput 16 false false false false true)
    ltac:(split; simpl; lia) ltac:(split; simpl; lia)) as H.
  apply H. reflexivity.
Defined.

(** Successive samples with the same input. *)
Fixpoint govern (n : nat) (i : GovernorInput) (s : GovernorState) : GovernorState :=
  match n with O => s | S n => govern n i (fst (governorStep s i)) end.

(** Samples still needed to be back at the maximum. *)
Definition distance (i : GovernorInput) (s : GovernorState) : Z :=
  if maximum_permits i <=? current_permits s then 0
  else 2 * (maximum_permits i - current_permits s) - (if 1 <=? stable_samples s then 1 else 0).

Definition healthy (i : GovernorInput) : Prop :=
  telemetry_valid i = true /\ memory_pressure i = false /\ memory_event i = false /\
  (force_max i = true \/ active i = true) /\ 1 <= maximum_permits i < 2 ^ 64.

Definition in_range (i : GovernorInput) (s : GovernorState) : Prop :=
  1 <= current_permits s <= maximum_permits i /\ 0 <= stable_samples s <= 1.

Lemma healthy_step i s :
  healthy i -> in_range i s ->
  let s' := fst (governorStep s i) in in_range i s' /\ distance i s' <= Z.max 0 (distance i s - 1).
Proof.
  intros (Ht & Hp & He & Ha & Hm) [Hc Hs]. unfold in_range, distance, governorStep. cbv zeta.
  rewrite Ht, Hp, He. simpl.
  rewrite (Z.max_r 1 (maximum_permits i)), (Z.max_l (current_permits s)), (Z.min_l (current_permits s)) by lia.
  assert (Hfa : force_max i || active i = true) by (by apply orb_true_iff). rewrite Hfa.
  assert (Hnn : negb (force_max i) && negb (active i) = false) by (rewrite <- negb_orb; by rewrite Hfa). rewrite Hnn.
  destruct (Z.ltb_spec (current_permits s) (maximum_permits i)).
  - rewrite u32_small by lia.
    destruct (Z.leb_spec 2 (stable_samples s + 1)); simpl.
    + unfold governorRecoverCpuPermits. rewrite (Z.max_r 1 (maximum_permits i)), (Z.max_r 1 (current_permits s)) by lia.
      rewrite u64_small by lia. rewrite Z.min_r by lia.
      repeat match goal with |- context [?a <=? ?b] => destruct (Z.leb_spec a b) end; lia.
    + repeat match goal with |- context [?a <=? ?b] => destruct (Z.leb_spec a b) end; lia.
  - destruct (active i); simpl;
      repeat match goal with |- context [?a <=? ?b] => destruct (Z.leb_spec a b) end; lia.
Qed.

(** C37: The governor recovers: under healthy samples with load (or in
    force-max mode) it is back at the maximum after at most two samples per
    missing permit, and stays there. *)
Theorem governor_recovers i s n :
  healthy i -> in_range i s ->
  2 * (maximum_permits i - current_permits s) <= Z.of_nat n ->
  current_permits (govern n i s) = maximum_permits i.
Proof.
  intros Hi Hs Hn.
  assert (Hd : distance i s <= Z.of_nat n).
  { unfold distance. repeat match goal with |- context [?a <=? ?b] => destruct (Z.leb_spec a b) end; lia. }
  clear Hn. revert s Hs Hd. induction n as [|n IH]; intros s Hs Hd; simpl.
  - destruct Hs as [H1 H2]. revert Hd. unfold distance.
    repeat match goal with |- context [?a <=? ?b] => destruct (Z.leb_spec a b) end; lia.
  - destruct (healthy_step i s Hi Hs) as [H1 H2]. apply IH; [done|lia].
Qed.

Lemma governor_recovers_witness :
  current_permits (govern 10 (mkInput 8 false true false false true) (mkGov 3 0 0)) = 8.
Proof.
  apply governor_recovers; simpl.
  - unfold healthy. simpl. split_and!; try done; lia.
  - unfold in_range. simpl. lia.
  - lia.
Defined.

(** ** CPU sets *)

(** A CPU or a range of CPUs, as decimal texts. *)
Definition range_text (r : str * option str) : str :=
  r.1 ++ match r.2 with Some b => "-"%str ++ b | None => [] end.
Definition cpuset_text (rs : list (str * option str)) : str := join (range_text <$> rs) ","%str.
Definition number (s : str) : Z := digits_value 0 s.
Definition range_size (r : str * option str) : Z :=
  match r.2 with Some b => number b - number r.1 + 1 | None => 1 end.
Definition number_ok (s : str) : Prop := s <> [] /\ Forall (fun c => isdigit c = true) s /\ number s < 2 ^ 64.
Definition range_ok (r : str * option str) : Prop :=
  number_ok r.1 /\ match r.2 with Some b => number_ok b /\ number r.1 <= number b | None => True end.

Lemma digit_value_range c : isdigit c = true -> 0 <= digit_value c <= 9.
Proof. unfold isdigit, between, digit_value. intros H. bools. lia. Qed.

Lemma digits_value_ge acc s : 0 <= acc -> Forall (fun c => isdigit c = true) s -> acc <= digits_value acc s.
Proof.
  intros Ha Hs. revert acc Ha. induction Hs as [|c s Hc Hs IH]; intros acc Ha; simpl; [lia|].
  rewrite Hc. pose proof (digit_value_range c Hc). etransitivity; [|apply IH]; lia.
Qed.

Lemma read_number_digits s rest have acc :
  0 <= acc -> Forall (fun c => isdigit c = true) s -> digits_value acc s < 2 ^ 64 ->
  (forall c t, rest = c :: t -> isdigit c = false) ->
  read_number have acc (s ++ rest) = (have || bool_decide (s <> []), digits_value acc s, rest).
Proof.
  intros Ha Hs. revert have acc Ha. induction Hs as [|c s Hc Hs IH]; intros have acc Ha Hlt Hr; simpl.
  - rewrite orb_false_r. destruct rest as [|c t]; [done|]. simpl. by rewrite (Hr c t eq_refl).
  - simpl in Hlt. rewrite Hc in Hlt |- *. pose proof (digit_value_range c Hc).
    pose proof (digits_value_ge (acc * 10 + digit_value c) s ltac:(lia) Hs).
    replace (u64 (u64 (acc * 10) + digit_value c)) with (acc * 10 + digit_value c).
    2:{ rewrite u64_add_idemp_l, u64_small; lia. }
    rewrite IH; [|lia|done|done]. by rewrite orb_true_r.
Qed.

Lemma digit_not_special c : isdigit c = true -> is_sep c = false /\ is_char "-" c = false /\ is_char "," c = false.
Proof.
  revert c. assert (H : forall c, isdigit c && (is_sep c || is_char "-" c || is_char "," c) = false).
  { intros c. apply negb_true_iff. revert c. apply all_bytes_spec. vm_compute. reflexivity. }
  intros c Hc. specialize (H c). rewrite Hc in H. simpl in H. bools. done.
Qed.

(** A number followed by a byte that is not a digit. *)
Lemma read_number_ok s rest :
  number_ok s -> (forall c t, rest = c :: t -> isdigit c = false) ->
  read_number false 0 (s ++ rest) = (true, number s, rest).
Proof.
  intros (Hne & Hd & Hlt) Hr. rewrite read_number_digits by done. by rewrite bool_decide_true.
Qed.

Lemma number_nonneg s : number_ok s -> 0 <= number s < 2 ^ 64.
Proof. intros (_ & Hd & Hlt). split; [by apply digits_value_ge|done]. Qed.

(** One range of the list, preceded by nothing or by a comma. *)
Lemma cpuset_loop_range fuel count sep r rest :
  (sep = [] \/ sep = ","%str) -> range_ok r -> 0 <= count -> count + range_size r < 2 ^ 64 ->
  (rest = [] \/ exists t, rest = ","%str ++ t) ->
  cpuset_loop (S fuel) count (sep ++ range_text r ++ rest) =
  match rest with [] => Some (count + range_size r) | _ => cpuset_loop fuel (count + range_size r) rest end.
Proof.
  intros Hsep [Ha Hb] Hc Hlt Hrest. destruct r as [a b]. unfold range_text in *. cbn [fst snd] in *.
  assert (Hrd : forall c t, rest = c :: t -> isdigit c = false).
  { intros c t ->. destruct Hrest as [|[t' [= -> _]]]; [done|reflexivity]. }
  destruct a as [|a0 a]; [by destruct Ha|].
  assert (Ha0 : isdigit a0 = true) by (destruct Ha as (_ & H & _); by inversion H).
  destruct (digit_not_special a0 Ha0) as (Hns & _ & _).
  set (tail := match b with Some b => "-"%str ++ b | None => [] end ++ rest).
  assert (Htail : forall c t, tail = c :: t -> isdigit c = false).
  { intros c t. subst tail. destruct b; simpl; [|by apply Hrd]. by intros [= <- _]. }
  assert (Hskip : skip_of is_sep (sep ++ ((a0 :: a) ++ match b with Some b => "-"%str ++ b | None => [] end) ++ rest)
                  = (a0 :: a) ++ tail).
  { rewrite <- app_assoc. fold tail. destruct Hsep as [->| ->]; simpl; by rewrite Hns. }
  cbn [cpuset_loop].
  destruct (sep ++ ((a0 :: a) ++ _) ++ rest) as [|c0 s0] eqn:Es.
  { destruct Hsep as [->| ->]; done. }
  rewrite Hskip. cbn [app]. rewrite app_comm_cons. rewrite read_number_ok by done. cbn [negb].
  pose proof (number_nonneg _ Ha) as Hna.
  assert (Hr : exists last, match tail with
     | c :: t => if is_char "-" c then let '(have_last, last, t) := read_number false 0 t in
         if negb have_last || (last <? number (a0 :: a)) then None else Some (last, t)
       else Some (number (a0 :: a), tail)
     | [] => Some (number (a0 :: a), tail) end = Some (last, rest) /\
     last - number (a0 :: a) + 1 = range_size (a0 :: a, b) /\ number (a0 :: a) <= last < 2 ^ 64).
  { subst tail. destruct b as [b|]; unfold range_size; cbn [fst snd app].
    - destruct Hb as [Hb Hle]. exists (number b). pose proof (number_nonneg _ Hb). split_and!; [|lia..].
      change (is_char "-" "-") with true. cbn iota. rewrite read_number_ok by done. cbn [negb orb].
      destruct (Z.ltb_spec (number b) (number (a0 :: a))); [lia|done].
    - exists (number (a0 :: a)). split; [|lia].
      destruct Hrest as [->|[t ->]]; [done|]. done. }
  destruct Hr as (last & -> & Hsz & Hll).
  assert (Hs1 : u64 (u64 (last - number (a0 :: a)) + 1) = range_size (a0 :: a, b)).
  { rewrite u64_add_idemp_l, Hsz. apply u64_small. lia. }
  rewrite Hs1. unfold UINT64_MAX. rewrite (u64_small (2 ^ 64 - 1 - count)) by lia.
  destruct (Z.ltb_spec (2 ^ 64 - 1 - count) (range_size (a0 :: a, b))); [lia|].
  rewrite u64_small by lia. destruct Hrest as [->|[t ->]]; done.
Qed.

(** [parseCpuSetCount] counts every CPU of a comma-separated list of
    numbers and ranges such as [0-3,8,10-11], as long as the numbers and the
    total fit in 64 bits. *)
Theorem parseCpuSetCount_ranges rs :
  Forall range_ok rs -> sumZ range_size rs < 2 ^ 64 ->
  parseCpuSetCount (cpuset_text rs) = Some (sumZ range_size rs).
Proof.
  intros Hok Hlt.
  assert (Hnn : forall rs, Forall range_ok rs -> 0 <= sumZ range_size rs).
  { intros l Hl. apply sumZ_nonneg. intros r Hr. rewrite Forall_forall in Hl. specialize (Hl r Hr).
    destruct r as [a [b|]]; unfold range_size; simpl; [|lia]. destruct Hl as [_ [_ Hl]]. simpl in Hl. lia. }
  assert (Hloop : forall rs fuel count sep, rs <> [] -> (sep = [] \/ sep = ","%str) ->
    Forall range_ok rs -> 0 <= count -> count + sumZ range_size rs < 2 ^ 64 -> (length rs <= fuel)%nat ->
    cpuset_loop fuel count (sep ++ cpuset_text rs) = Some (count + sumZ range_size rs)).
  { clear rs Hok Hlt. induction rs as [|r rs IH]; intros fuel count sep Hne Hsep Hok Hc Hlt Hf; [done|].
    inversion Hok as [|? ? Hr Hok']; subst. rewrite sumZ_cons in *. pose proof (Hnn rs Hok').
    destruct fuel as [|fuel]; [simpl in Hf; lia|]. unfold cpuset_text.
    destruct rs as [|r' rs].
    - replace (join (range_text <$> [r]) ","%str) with (range_text r ++ []) by (simpl; by rewrite ?app_nil_r).
      rewrite sumZ_nil in *. rewrite cpuset_loop_range; [f_equal; lia|done|done|done|lia|by left].
    - rewrite fmap_cons, join_cons by done. rewrite (cpuset_loop_range fuel count sep r); [|done|done|done|lia|by right; eauto].
      fold (cpuset_text (r' :: rs)). rewrite (IH fuel (count + range_size r) ","%str); try done; try lia.
      + f_equal. lia.
      + by right.
      + assert (0 <= range_size r) by (pose proof (Hnn [r] ltac:(by constructor)) as H1; rewrite sumZ_cons, sumZ_nil in H1; lia).
        lia.
      + simpl in *. lia. }
  unfold parseCpuSetCount. destruct rs as [|r rs]; [done|].
  rewrite <- (app_nil_l (cpuset_text (r :: rs))) at 2.
  rewrite (Hloop (r :: rs) _ 0 []); try done; try lia; [by left|].
  assert (Hlen : forall rs, (length rs <= S (length (cpuset_text rs)))%nat); [|apply Hlen].
  clear. induction rs as [|r [|r' rs] IH]; [simpl; lia..|].
  unfold cpuset_text in *. rewrite fmap_cons, join_cons by done. rewrite !length_app. simpl in *. lia.
Qed.

Lemma parseCpuSetCount_ranges_witness :
  parseCpuSetCount "0-3,8,10-11" = Some 7 /\
  parseCpuSetCount (cpuset_text [("0"%str, Some "3"%str); ("8"%str, None); ("10"%str, Some "11"%str)]) = Some 7.
Proof.
  split; [reflexivity|].
  apply (parseCpuSetCount_ranges [("0"%str, Some "3"%str); ("8"%str, None); ("10"%str, Some "11"%str)]).
  - repeat constructor; simpl; try done.
  - vm_compute. reflexivity.
Defined.

(** ** Configuration *)

(** A configuration that is accepted hands out usable limits: at least
    one and at most [INT_MAX] admitted requests, never more than the soft
    limit on file descriptors leaves in force-max mode, at least 64 MiB of
    request bytes; a frozen configuration is accepted only if no capacity
    setting changed.  The compat mode and a force-max request on unknown
    hardware leave the thread and connection settings alone. *)
Theorem configure_limits discover text concur server pending frozen l :
  (forall m, is_u64 (memory_max_bytes (discover m)) /\ is_u64 (memory_high_bytes (discover m)) /\
     is_u64 (host_total_memory_bytes (discover m)) /\ is_u64 (nofile_soft (discover m)) /\
     is_u64 (suggested_outbound_connections (discover m))) ->
  configureResourceControl discover text concur server pending frozen = inr l ->
  exists m, parseResourceControlMode (toLower (trimWhitespace text true true)) = Some m /\
    1 <= admission_entries l <= INT_MAX /\ 64 * 1024 * 1024 <= admission_bytes l /\
    (effective_mode (snapshot_out l) = "force_max"%str -> nofile_soft (discover m) <> 0 -> m = ForceMax ->
       hardware_detected (discover m) = true -> hardware_pin_matched (discover m) = true ->
       admission_entries l <= nofile_soft (discover m)) /\
    (forall old, frozen = Some old -> capacity_changed old (discover m) = false) /\
    (m = Compat \/ (m = ForceMax /\ hardware_detected (discover m) && hardware_pin_matched (discover m) = false) ->
       maxConcurThreads l = concur /\ maxServerThreads l = server /\ maxPendingConns l = pending /\
       snapshot_out l = discover m).
Proof.
  intros Hd. unfold configureResourceControl.
  destruct (parseResourceControlMode _) as [m|]; [|done].
  destruct (Hd m) as (H1 & H2 & H3 & H4 & H5). unfold is_u64 in *. cbv zeta.
  destruct (match frozen with Some old => capacity_changed old (discover m) | None => false end) eqn:Ef; [done|].
  intros E. exists m. split; [done|].
  assert (Hfr : forall old, frozen = Some old -> capacity_changed old (discover m) = false).
  { intros old ->. done. }
  set (b := if negb (memory_max_bytes (discover m) =? 0) then memory_max_bytes (discover m)
            else host_total_memory_bytes (discover m)) in E.
  set (b' := if negb (memory_high_bytes (discover m) =? 0) && ((b =? 0) || (memory_high_bytes (discover m) <? b))
             then memory_high_bytes (discover m) else b) in E.
  assert (Hb' : 0 <= b') by (subst b' b; repeat split_if; lia).
  assert (Hent : 1 <= computeForceMaxAdmissionEntries b' (nofile_soft (discover m))
                   (suggested_outbound_connections (discover m)) <= INT_MAX /\
    (nofile_soft (discover m) <> 0 -> computeForceMaxAdmissionEntries b' (nofile_soft (discover m))
                   (suggested_outbound_connections (discover m)) <= nofile_soft (discover m))).
  { unfold computeForceMaxAdmissionEntries, INT_MAX. cbv zeta.
    pose proof (u64_range (suggested_outbound_connections (discover m) + 64)).
    assert (0 <= nofile_soft (discover m) / 2 <= nofile_soft (discover m)) by divlia.
    destruct (Z.eqb_spec (nofile_soft (discover m)) 0), (Z.ltb_spec (Z.min (nofile_soft (discover m))
      (Z.max 64 (u64 (suggested_outbound_connections (discover m) + 64)))) (nofile_soft (discover m)));
      cbn [negb]; lia. }
  assert (Hby : 64 * 1024 * 1024 <= computeForceMaxRequestByteLimit b').
  { unfold computeForceMaxRequestByteLimit. split_if; lia. }
  destruct (bool_decide (m = ForceMax) && hardware_detected (discover m) && hardware_pin_matched (discover m)) eqn:Ea.
  - injection E as <-. cbn. split_and!; try apply Hent; try done.
    + intros _ Hn _ _ _. by apply Hent.
    + intros [->|[-> Hno]]; [done|]. by rewrite bool_decide_true, andb_true_l, Hno in Ea.
  - destruct (bool_decide (m = Adaptive)) eqn:Em; injection E as <-; cbn.
    + bools. subst m. unfold INT_MAX. split_and!; try done; try lia. intros [?|[? _]]; done.
    + unfold INT_MAX. split_and!; try done; try lia. intros _ _ -> Hh Hp. rewrite Hh, Hp in Ea. done.
Qed.

Definition example_snapshot (m : ResourceControlMode) : Snapshot :=
  mkSnapshot (resourceControlModeName m) (resourceControlModeName m) [] [] [] [] 0 4000 0 0 (2 ^ 32) (2 ^ 33) 1024
    0 0 0 0 4 4 2 64 64 100 4 1000 true true true false false.

Lemma configure_limits_witness :
  exists l, configureResourceControl example_snapshot " Force_Max" 2 4 100 None = inr l /\
    1 <= admission_entries l <= INT_MAX.
Proof.
  destruct (configureResourceControl example_snapshot " Force_Max" 2 4 100 None) as [e|l] eqn:E;
    [vm_compute in E; discriminate|].
  exists l. split; [done|].
  destruct (configure_limits example_snapshot " Force_Max" 2 4 100 None l) as (m & _ & H & _); [|exact E|exact H].
  intros m. unfold is_u64. simpl. lia.
Defined.
