(* ===== verification/ClientIp.v ===== *)
(** * server/client_ip.cpp: the address a request is attributed to

    Parsing of addresses, CIDR blocks and forwarding headers, and [resolve],
    which believes a header only when the peer is a trusted proxy.  The
    system functions [inet_pton] and [inet_ntop] are parameters: a function
    from text to the bytes of an address, and back.  A thrown
    [std::invalid_argument] is [None]. *)

From S2P Require Import Prelude Str.
Open Scope Z_scope.

(** ** Data *)

(** src/src/server/client_ip.h:17-17 [Family] *)
Inductive Family := Unknown | IPv4 | IPv6.

#[export] Instance family_eq_dec : EqDecision Family. Proof. solve_decision. Defined.

(** src/src/server/client_ip.h:19-27 [Address] *)
Record Address := mkAddress { family : Family; octets : list Z }.

#[export] Instance address_eq_dec : EqDecision Address. Proof. solve_decision. Defined.
#[export] Instance family_countable : Countable Family.
Proof.
  refine (inj_countable' (fun f => match f with Unknown => 0 | IPv4 => 4 | IPv6 => 6 end)
    (fun n => if n =? 0 then Unknown else if n =? 4 then IPv4 else IPv6) _).
  by intros [].
Defined.
#[export] Instance address_countable : Countable Address.
Proof.
  refine (inj_countable' (fun a => (family a, octets a)) (fun p => mkAddress p.1 p.2) _). by intros [].
Defined.

Definition no_address : Address := mkAddress Unknown (replicate 16 0).
Definition valid (a : Address) : bool := negb (bool_decide (family a = Unknown)).

(** src/src/server/client_ip.h:33-40 [Header] *)
Inductive Header := HNone | XForwardedFor | Forwarded | XRealIp | CfConnectingIp | TrueClientIp.

#[export] Instance header_eq_dec : EqDecision Header. Proof. solve_decision. Defined.

(** src/src/server/client_ip.h:42-47 [Cidr] *)
Record Cidr := mkCidr { network : Address; prefix_length : nat }.

(** src/src/server/client_ip.h:49-56 [Policy] *)
Record Policy := mkPolicy { header : Header; trusted_proxy_cidrs : list Cidr }.

Definition enabled (p : Policy) : bool :=
  negb (bool_decide (header p = HNone)) && negb (bool_decide (trusted_proxy_cidrs p = [])).

(** src/src/server/client_ip.h:58-61 [Resolution] *)
Record Resolution := mkResolution { resolved : Address; used_forwarded_header : bool }.

Definition kMaxTrustedProxyCidrs : nat := 64.
Definition kMaxForwardedHops : nat := 16.
Definition kMaxSelectedHeaderBytes : nat := 2048.

(** ** Text helpers *)

Fixpoint skip_space (s : str) : str :=
  match s with c :: t => if isspace c then skip_space t else s | [] => [] end.

(** src/src/server/client_ip.cpp:13-23 [trim] *)
Definition trim (s : str) : str := reverse (skip_space (reverse (skip_space s))).

(** src/src/server/client_ip.cpp:25-32 [lower] *)
Definition lower (s : str) : str := tolower <$> s.

(** src/src/server/client_ip.cpp:34-40 [isMappedIpv4] *)
Definition isMappedIpv4 (bytes : list Z) : bool :=
  bool_decide (take 10 bytes = replicate 10 0) && (nth 10 bytes 0 =? 255) && (nth 11 bytes 0 =? 255).

Fixpoint port_loop (port : Z) (s : str) : bool :=
  match s with
  | [] => negb (port =? 0)
  | c :: s =>
      if negb (isdigit c) then false
      else
        let port := u32 (u32 (port * 10) + (code c - 48)) in
        if 65535 <? port then false else port_loop port s
  end.

(** src/src/server/client_ip.cpp:48-60 [parsePort] *)
Definition parsePort (s : str) : bool := match s with [] => false | _ => port_loop 0 s end.

(** The body of a quoted string; the list ends before the closing quote. *)
Fixpoint unquote_loop (s : str) : option str :=
  match s with
  | [] => Some []
  | c :: s =>
      if is_char "\" c then
        match s with
        | [] => None
        | d :: s => cons d <$> unquote_loop s
        end
      else if is_char "034" c then None
      else cons c <$> unquote_loop s
  end.

(** src/src/server/client_ip.cpp:62-80 [unquote] *)
Definition unquote (s : str) : option str :=
  if (length s <? 2)%nat || negb (is_char "034" (hd "000"%char s)) || negb (is_char "034" (List.last s "000"%char))
  then (if bool_decide ("034"%char ∈ s) then None else Some s)
  else unquote_loop (removelast (tl s)).

(** The scan of [splitQuoted]: [part] is the text since [start]. *)
Fixpoint splitQuoted_loop (delimiter : ascii) (quoted escaped : bool) (part : str) (s : str) : option (list str) :=
  match s with
  | [] => if quoted || escaped then None else Some [trim part]
  | c :: s =>
      if escaped then splitQuoted_loop delimiter quoted false (part ++ [c]) s
      else if quoted && is_char "\" c then splitQuoted_loop delimiter quoted true (part ++ [c]) s
      else if is_char "034" c then splitQuoted_loop delimiter (negb quoted) false (part ++ [c]) s
      else if negb quoted && is_char delimiter c then cons (trim part) <$> splitQuoted_loop delimiter quoted false [] s
      else splitQuoted_loop delimiter quoted false (part ++ [c]) s
  end.

(** src/src/server/client_ip.cpp:82-111 [splitQuoted] *)
Definition splitQuoted (input : str) (delimiter : ascii) : option (list str) :=
  splitQuoted_loop delimiter false false [] input.

(** ** Addresses *)

Section ClientIp.
(** [inet_pton] for the two families: the bytes in network order. *)
Context (inet_pton4 inet_pton6 : str -> option (list Z)).
(** [inet_ntop]. *)
Context (inet_ntop4 inet_ntop6 : list Z -> option str).

(** src/src/server/client_ip.cpp:207-233 [parseAddress] *)
Definition parseAddress (raw : str) : Address :=
  let value := trim raw in
  if bool_decide (value = []) || (45 <? length value)%nat || bool_decide ("%"%char ∈ value) then no_address
  else
    match inet_pton4 (c_str value) with
    | Some b => mkAddress IPv4 (b ++ replicate 12 0)
    | None =>
        match inet_pton6 (c_str value) with
        | None => no_address
        | Some b =>
            if isMappedIpv4 b then mkAddress IPv4 (drop 12 b ++ replicate 12 0)
            else mkAddress IPv6 b
        end
    end.

(** src/src/server/client_ip.cpp:235-248 [toString] *)
Definition toString (a : Address) : str :=
  match family a with
  | IPv4 => default [] (inet_ntop4 (octets a))
  | IPv6 => default [] (inet_ntop6 (octets a))
  | Unknown => "unknown"
  end.

(** src/src/server/client_ip.cpp:250-264 [Cidr::contains] *)
Definition contains (c : Cidr) (a : Address) : bool :=
  if negb (valid a) || negb (bool_decide (family a = family (network c))) then false
  else
    let bits := prefix_length c in
    let full_bytes := (bits / 8)%nat in
    let remaining := (bits mod 8)%nat in
    if negb (bool_decide (take full_bytes (octets (network c)) = take full_bytes (octets a))) then false
    else if (remaining =? 0)%nat then true
    else
      let mask := u8 (Z.shiftl 255 (Z.of_nat (8 - remaining))) in
      Z.land (nth full_bytes (octets (network c)) 0) mask =? Z.land (nth full_bytes (octets a) 0) mask.

(** src/src/server/client_ip.cpp:42-46 [isTrusted] *)
Definition isTrusted (a : Address) (p : Policy) : bool := existsb (fun c => contains c a) (trusted_proxy_cidrs p).

(** The prefix length as the code reads it: it stops above 128. *)
Fixpoint prefix_bits (bits : Z) (s : str) : Z :=
  match s with
  | [] => bits
  | c :: s =>
      let bits := u32 (u32 (bits * 10) + (code c - 48)) in
      if 128 <? bits then bits else prefix_bits bits s
  end.

(** src/src/server/client_ip.cpp:266-306 [parseCidr] *)
Definition parseCidr (raw : str) : option Cidr :=
  let value := trim raw in
  match find_char "/" value 0 with
  | None => None
  | Some slash =>
      if bool_decide (is_Some (find_char "/" value (slash + 1))) then None
      else
        let net := parseAddress (substr value 0 slash) in
        if negb (valid net) then None
        else
          let prefix := drop (slash + 1) value in
          if bool_decide (prefix = []) || negb (forallb isdigit prefix) then None
          else
            let bits := prefix_bits 0 prefix in
            let maximum := if bool_decide (family net = IPv4) then 32 else 128 in
            if (bits =? 0) || (maximum <? bits) then None
            else
              let bits := Z.to_nat bits in
              let full_bytes := (bits / 8)%nat in
              let remaining := (bits mod 8)%nat in
              let bytes := octets net in
              let bytes := if (remaining =? 0)%nat then bytes
                           else alter (fun b => Z.land b (u8 (Z.shiftl 255 (Z.of_nat (8 - remaining))))) full_bytes bytes in
              let byte_count := if bool_decide (family net = IPv4) then 4%nat else 16%nat in
              let clear_from := (full_bytes + (if (remaining =? 0)%nat then 0 else 1))%nat in
              let bytes := take clear_from bytes ++ replicate (byte_count - clear_from) 0 ++ drop byte_count bytes in
              Some (mkCidr (mkAddress (family net) bytes) bits)
  end.

(** ** Headers *)

(** src/src/server/client_ip.cpp:308-323 [parseHeader] *)
Definition parseHeader (raw : str) : option Header :=
  let value := lower (trim raw) in
  if bool_decide (value = []) || bool_decide (value = "none"%str) then Some HNone
  else if bool_decide (value = "x-forwarded-for"%str) then Some XForwardedFor
  else if bool_decide (value = "forwarded"%str) then Some Forwarded
  else if bool_decide (value = "x-real-ip"%str) then Some XRealIp
  else if bool_decide (value = "cf-connecting-ip"%str) then Some CfConnectingIp
  else if bool_decide (value = "true-client-ip"%str) then Some TrueClientIp
  else None.

(** src/src/server/client_ip.cpp:325-341 [headerName] *)
Definition headerName (h : Header) : str :=
  match h with
  | XForwardedFor => "X-Forwarded-For" | Forwarded => "Forwarded" | XRealIp => "X-Real-IP"
  | CfConnectingIp => "CF-Connecting-IP" | TrueClientIp => "True-Client-IP" | HNone => []
  end.

(** src/src/server/client_ip.cpp:343-359 [headerSettingName] *)
Definition headerSettingName (h : Header) : str :=
  match h with
  | XForwardedFor => "x-forwarded-for" | Forwarded => "forwarded" | XRealIp => "x-real-ip"
  | CfConnectingIp => "cf-connecting-ip" | TrueClientIp => "true-client-ip" | HNone => "none"
  end.

(** src/src/server/client_ip.cpp:113-139 [parseForwardedNode] *)
Definition parseForwardedNode (raw : str) : Address :=
  match unquote (trim raw) with
  | None => no_address
  | Some value =>
      match value with
      | [] => no_address
      | c0 :: _ =>
          if is_char "_" c0 || bool_decide (lower value = "unknown"%str) then no_address
          else if is_char "[" c0 then
            match find_char "]" value 0 with
            | None => no_address
            | Some close =>
                if (close + 1 <? length value)%nat &&
                   (negb (is_char ":" (nth (close + 1) value "000"%char)) || negb (parsePort (drop (close + 2) value)))
                then no_address
                else parseAddress (substr value 1 (close - 1))
            end
          else
            let direct := parseAddress value in
            if valid direct then direct
            else
              match last_index_if (is_char ":") value with
              | None => no_address
              | Some colon =>
                  if negb (bool_decide (find_char ":" value 0 = Some colon)) || negb (parsePort (drop (colon + 1) value))
                  then no_address
                  else parseAddress (substr value 0 colon)
              end
      end
  end.

(** The parameters of one element: [None] when it is refused, the address
    found so far otherwise. *)
Fixpoint forwarded_parameters (found : option Address) (parameters : list str) : option (option Address) :=
  match parameters with
  | [] => Some found
  | parameter :: parameters =>
      match find_char "=" parameter 0 with
      | None => None
      | Some equal =>
          if negb (bool_decide (lower (trim (substr parameter 0 equal)) = "for"%str))
          then forwarded_parameters found parameters
          else
            match found with
            | Some _ => None
            | None =>
                let address := parseForwardedNode (drop (equal + 1) parameter) in
                if negb (valid address) then None else forwarded_parameters (Some address) parameters
            end
      end
  end.

Fixpoint forwarded_elements (elements : list str) : option (list Address) :=
  match elements with
  | [] => Some []
  | element :: elements =>
      match element with
      | [] => None
      | _ =>
          match splitQuoted element ";" with
          | None => None
          | Some parameters =>
              match forwarded_parameters None parameters with
              | Some (Some address) => cons address <$> forwarded_elements elements
              | _ => None
              end
          end
      end
  end.

(** src/src/server/client_ip.cpp:141-175 [parseForwarded] *)
Definition parseForwarded (value : str) : option (list Address) :=
  match splitQuoted value "," with
  | None => None
  | Some elements =>
      if bool_decide (elements = []) || (kMaxForwardedHops <? length elements)%nat then None
      else forwarded_elements elements
  end.

(** The loop over the commas; [s] is the text from [start] on. *)
Fixpoint xff_loop (fuel : nat) (addresses : list Address) (s : str) : option (list Address) :=
  match fuel with
  | O => None
  | S fuel =>
      let comma := find_char "," s 0 in
      let address := parseAddress (substr s 0 (default (length s) comma)) in
      if negb (valid address) then None
      else
        let addresses := addresses ++ [address] in
        if (kMaxForwardedHops <? length addresses)%nat then None
        else
          match comma with
          | None => Some addresses
          | Some comma => xff_loop fuel addresses (drop (comma + 1) s)
          end
  end.

(** src/src/server/client_ip.cpp:177-196 [parseXForwardedFor] *)
Definition parseXForwardedFor (value : str) : option (list Address) := xff_loop (S (length value)) [] value.

(** src/src/server/client_ip.cpp:361-375 [makePolicy] *)
Definition makePolicy (hdr : str) (cidrs : list str) : option Policy :=
  if (kMaxTrustedProxyCidrs <? length cidrs)%nat then None
  else
    match parseHeader hdr, mapM parseCidr cidrs with
    | Some h, Some cs =>
        Some (if bool_decide (h = HNone) || bool_decide (cs = []) then mkPolicy HNone [] else mkPolicy h cs)
    | _, _ => None
    end.

(** The first untrusted hop from the right. *)
Fixpoint first_untrusted (p : Policy) (chain : list Address) : option Address :=
  match chain with
  | [] => None
  | a :: chain => if isTrusted a p then first_untrusted p chain else Some a
  end.

(** src/src/server/client_ip.cpp:377-412 [resolve] *)
Definition resolve (peer : Address) (values : list str) (p : Policy) : Resolution :=
  let fallback := mkResolution peer false in
  if negb (valid peer) || negb (enabled p) || negb (isTrusted peer p) then fallback
  else
    match values with
    | [value] =>
        if (kMaxSelectedHeaderBytes <? length value)%nat then fallback
        else
          let chain :=
            match header p with
            | XForwardedFor => parseXForwardedFor value
            | Forwarded => parseForwarded value
            | _ => let a := parseAddress value in if valid a then Some [a] else None
            end in
          match chain with
          | None => fallback
          | Some chain =>
              match header p with
              | XForwardedFor | Forwarded =>
                  match first_untrusted p (reverse chain) with
                  | Some a => mkResolution a true
                  | None => fallback
                  end
              | _ => mkResolution (hd no_address chain) true
              end
          end
    | _ => fallback
    end.
End ClientIp.

(** ** CIDR blocks *)

(** Bit [i] of an address, the most significant first. *)
Definition addr_bit (b : list Z) (i : nat) : bool := Z.testbit (nth (i / 8) b 0) (7 - Z.of_nat (i mod 8)).

Definition octets_ok (b : list Z) : Prop := length b = 16%nat /\ Forall (fun z => 0 <= z < 256) b.

Definition same_prefix (n : nat) (b c : list Z) : Prop := forall i, (i < n)%nat -> addr_bit b i = addr_bit c i.

Lemma octet_range b i : octets_ok b -> 0 <= nth i b 0 < 256.
Proof.
  intros [_ Hb]. destruct (decide (i < length b)%nat) as [H|H].
  - rewrite Forall_forall in Hb. apply Hb. apply list_elem_of_In, nth_In. done.
  - rewrite nth_overflow by lia. lia.
Qed.

Lemma octet_high z k : 0 <= z < 256 -> 8 <= k -> Z.testbit z k = false.
Proof.
  intros Hz Hk. destruct (Z.eq_dec z 0) as [->|]; [apply Z.bits_0|].
  apply Z.bits_above_log2; [lia|]. apply Z.log2_lt_pow2; [lia|].
  assert (2 ^ 8 <= 2 ^ k) by (apply Z.pow_le_mono_r; lia). lia.
Qed.

Lemma octet_ext x y :
  0 <= x < 256 -> 0 <= y < 256 -> (forall k, 0 <= k < 8 -> Z.testbit x k = Z.testbit y k) -> x = y.
Proof.
  intros Hx Hy H. apply Z.bits_inj'. intros k Hk. destruct (Z.lt_ge_cases k 8); [by apply H|].
  by rewrite !octet_high.
Qed.

(** The mask of the first [r] bits of a byte. *)
Definition prefix_mask (r : nat) : Z := u8 (Z.shiftl 255 (Z.of_nat (8 - r))).

Lemma prefix_mask_bit r k :
  (r < 8)%nat -> 0 <= k < 8 -> Z.testbit (prefix_mask r) k = (8 - Z.of_nat r <=? k).
Proof.
  intros Hr Hk. unfold prefix_mask, u8. rewrite Z.mod_pow2_bits_low by lia. rewrite Z.shiftl_spec by lia.
  destruct (Z.leb_spec (8 - Z.of_nat r) k).
  - change 255 with (Z.ones 8). apply Z.ones_spec_low. lia.
  - apply Z.testbit_neg_r. lia.
Qed.

Lemma masked_eq x y r :
  0 <= x < 256 -> 0 <= y < 256 -> (r < 8)%nat ->
  Z.land x (prefix_mask r) = Z.land y (prefix_mask r) <->
  (forall k, (k < r)%nat -> Z.testbit x (7 - Z.of_nat k) = Z.testbit y (7 - Z.of_nat k)).
Proof.
  intros Hx Hy Hr. split.
  - intros H k Hk. apply (f_equal (fun z => Z.testbit z (7 - Z.of_nat k))) in H.
    rewrite !Z.land_spec, !prefix_mask_bit in H by lia.
    destruct (Z.leb_spec (8 - Z.of_nat r) (7 - Z.of_nat k)); [|lia]. by rewrite !andb_true_r in H.
  - intros H. apply Z.bits_inj'. intros k Hk. rewrite !Z.land_spec.
    destruct (Z.lt_ge_cases k 8) as [Hk8|Hk8]; [|by rewrite (octet_high x), (octet_high y)].
    rewrite prefix_mask_bit by lia. destruct (Z.leb_spec (8 - Z.of_nat r) k); [|by rewrite !andb_false_r].
    rewrite !andb_true_r. specialize (H (Z.to_nat (7 - k)) ltac:(lia)).
    rewrite Z2Nat.id in H by lia. by replace (7 - (7 - k)) with k in H by lia.
Qed.

Lemma addr_bit_byte b j k : (k < 8)%nat -> addr_bit b (8 * j + k) = Z.testbit (nth j b 0) (7 - Z.of_nat k).
Proof.
  intros Hk. unfold addr_bit. f_equal.
  - f_equal. rewrite (Nat.mul_comm 8 j), Nat.div_add_l by lia. rewrite Nat.div_small by lia. lia.
  - rewrite (Nat.add_comm (8 * j)), (Nat.mul_comm 8 j), Nat.Div0.mod_add, Nat.mod_small by lia. done.
Qed.

Lemma nat_split_byte i : exists j k, i = (8 * j + k)%nat /\ (k < 8)%nat.
Proof.
  exists (i / 8)%nat, (i mod 8)%nat. split; [apply Nat.div_mod; lia|apply Nat.mod_upper_bound; lia].
Qed.

Lemma take_bytes_eq n b c :
  octets_ok b -> octets_ok c -> (n <= 16)%nat ->
  take n b = take n c <-> same_prefix (8 * n) b c.
Proof.
  intros Hb Hc Hn. pose proof (proj1 Hb) as Hlb. pose proof (proj1 Hc) as Hlc. split.
  - intros H i Hi. destruct (nat_split_byte i) as (j & k & -> & Hk). rewrite !addr_bit_byte by done. f_equal.
    rewrite <- (take_drop n b), <- (take_drop n c), H.
    rewrite !app_nth1; [done|rewrite length_take; lia..].
  - intros H. apply (nth_ext _ _ 0 0); [rewrite !length_take; lia|].
    rewrite length_take. intros j Hj.
    assert (Hnth : forall l : list Z, (length l = 16)%nat -> nth j (take n l) 0 = nth j l 0).
    { intros l Hl. rewrite <- (take_drop n l) at 2. rewrite app_nth1; [done|rewrite length_take; lia]. }
    rewrite !Hnth by done. apply octet_ext; [by apply octet_range..|].
    intros k Hk. specialize (H (8 * j + Z.to_nat (7 - k))%nat ltac:(lia)).
    rewrite !addr_bit_byte in H by lia. rewrite Z2Nat.id in H by lia.
    by replace (7 - (7 - k)) with k in H by lia.
Qed.

Lemma same_prefix_split n r b c :
  (r < 8)%nat -> same_prefix (8 * n + r) b c <->
  same_prefix (8 * n) b c /\
  (forall k, (k < r)%nat -> Z.testbit (nth n b 0) (7 - Z.of_nat k) = Z.testbit (nth n c 0) (7 - Z.of_nat k)).
Proof.
  intros Hr. split.
  - intros H. split; [intros i Hi; apply H; lia|]. intros k Hk. rewrite <- !addr_bit_byte by lia. apply H. lia.
  - intros [H1 H2] i Hi. destruct (decide (i < 8 * n)%nat); [by apply H1|].
    replace i with (8 * n + (i - 8 * n))%nat by lia. rewrite !addr_bit_byte by lia. apply H2. lia.
Qed.

Lemma contains_spec c a :
  octets_ok (octets (network c)) -> octets_ok (octets a) -> (prefix_length c <= 128)%nat ->
  contains c a = true <->
  family a <> Unknown /\ family a = family (network c) /\
  same_prefix (prefix_length c) (octets (network c)) (octets a).
Proof.
  intros Hn Ha Hp. unfold contains, valid.
  destruct (bool_decide (family a = Unknown)) eqn:Eu; bools; cbn [negb orb]; [split; [done|intros (? & ? & ?); congruence]|].
  destruct (bool_decide (family a = family (network c))) eqn:Ef; bools; cbn [negb orb]; [|split; [done|intros (? & ? & ?); congruence]].
  set (n := (prefix_length c / 8)%nat). set (r := (prefix_length c mod 8)%nat).
  assert (Hsplit : prefix_length c = (8 * n + r)%nat) by (apply Nat.div_mod; lia).
  assert (Hr : (r < 8)%nat) by (apply Nat.mod_upper_bound; lia).
  assert (Hn16 : (n <= 16)%nat) by lia.
  rewrite Hsplit, same_prefix_split by done. rewrite <- take_bytes_eq by done.
  destruct (bool_decide (take n (octets (network c)) = take n (octets a))) eqn:Ht; bools; cbn [negb orb];
    [|split; [done|intros (_ & _ & ? & _); congruence]].
  destruct (Nat.eqb_spec r 0) as [->|Hr0].
  { split; [|done]. intros _. split_and!; try done. lia. }
  fold (prefix_mask r). rewrite Z.eqb_eq, masked_eq; [naive_solver|by apply octet_range..|done].
Qed.

Section Parsing.
Context (inet_pton4 inet_pton6 : str -> option (list Z)).
(** [inet_pton] writes four, respectively sixteen bytes. *)
Hypothesis pton4_bytes : forall s b, inet_pton4 s = Some b -> length b = 4%nat /\ Forall (fun z => 0 <= z < 256) b.
Hypothesis pton6_bytes : forall s b, inet_pton6 s = Some b -> octets_ok b.

Notation parseAddress := (parseAddress inet_pton4 inet_pton6).
Notation parseCidr := (parseCidr inet_pton4 inet_pton6).

Lemma zeros_ok n : Forall (fun z => 0 <= z < 256) (replicate n 0).
Proof. apply Forall_replicate. lia. Qed.

Lemma parseAddress_ok raw : octets_ok (octets (parseAddress raw)).
Proof.
  unfold ClientIp.parseAddress. split_if; [split; [done|apply zeros_ok]|].
  destruct (inet_pton4 _) as [b|] eqn:E4.
  { apply pton4_bytes in E4 as [Hl Hb]. cbn [octets]. split; [rewrite length_app, length_replicate; lia|].
    apply Forall_app. split; [done|apply zeros_ok]. }
  destruct (inet_pton6 _) as [b|] eqn:E6; [|split; [done|apply zeros_ok]].
  apply pton6_bytes in E6 as [Hl Hb]. split_if; cbn [octets]; [|done].
  split; [rewrite length_app, length_drop, length_replicate; lia|].
  apply Forall_app. split; [by apply Forall_drop|apply zeros_ok].
Qed.

Lemma parseCidr_inv raw c :
  parseCidr raw = Some c ->
  exists slash base bits, find_char "/" (trim raw) 0 = Some slash /\
    base = parseAddress (substr (trim raw) 0 slash) /\ valid base = true /\
    0 < bits <= (if bool_decide (family base = IPv4) then 32 else 128) /\
    prefix_length c = Z.to_nat bits /\ family (network c) = family base /\
    octets_ok (octets (network c)) /\ same_prefix (prefix_length c) (octets (network c)) (octets base).
Proof.
  unfold ClientIp.parseCidr. destruct (find_char "/" (trim raw) 0) as [slash|] eqn:Es; [|done].
  destruct (bool_decide _) eqn:E1; [done|]. cbv zeta.
  pose proof (parseAddress_ok (substr (trim raw) 0 slash)) as Hok.
  set (base := parseAddress (substr (trim raw) 0 slash)) in *.
  destruct (valid base) eqn:Ev; [|done]. cbn [negb]. destruct (_ || _) eqn:E2; [done|].
  set (bits := prefix_bits 0 (drop (slash + 1) (trim raw))).
  destruct (Z.eqb_spec bits 0) as [|Hb0]; [done|]. cbn [orb].
  set (maximum := if bool_decide (family base = IPv4) then 32 else 128).
  destruct (Z.ltb_spec maximum bits) as [|Hmax]; [done|]. intros Hc. apply (inj Some) in Hc. subst c.
  assert (Hpos : 0 <= bits).
  { assert (forall s z, 0 <= z -> 0 <= prefix_bits z s) as Hge; [|by apply Hge].
    induction s as [|ch s IH]; intros z Hz; simpl; [done|].
    pose proof (u32_range (u32 (z * 10) + (code ch - 48))). split_if; [lia|]. apply IH. lia. }
  exists slash, base, bits. cbn [prefix_length network family octets].
  set (n := (Z.to_nat bits / 8)%nat). set (r := (Z.to_nat bits mod 8)%nat).
  assert (Hsplit : Z.to_nat bits = (8 * n + r)%nat) by (apply Nat.div_mod; lia).
  assert (Hr : (r < 8)%nat) by (apply Nat.mod_upper_bound; lia).
  fold (prefix_mask r).
  set (bytes := if (r =? 0)%nat then octets base else alter (fun b => Z.land b (prefix_mask r)) n (octets base)).
  set (count := if bool_decide (family base = IPv4) then 4%nat else 16%nat).
  set (from := (n + (if (r =? 0)%nat then 0 else 1))%nat).
  assert (Hcount : (from <= count)%nat /\ (count <= 16)%nat).
  { subst from count maximum. destruct (bool_decide (family base = IPv4)), (Nat.eqb_spec r 0); lia. }
  assert (Hbytes : octets_ok bytes).
  { subst bytes. split_if; [done|]. destruct Hok as [Hl Hb]. split; [by rewrite length_alter|].
    apply Forall_alter; [done|]. intros z _ Hz. split; [apply Z.land_nonneg; lia|].
    pose proof (land_le z (prefix_mask r)). lia. }
  split_and!; try done; try lia.
  - destruct Hbytes as [Hl Hb]. split.
    + rewrite !length_app, length_take, length_replicate, length_drop, Hl.
      clear -Hcount. clearbody from count. lia.
    + rewrite !Forall_app. split_and!; [by apply Forall_take|apply zeros_ok|by apply Forall_drop].
  - assert (Hnth : forall j, (j < from)%nat ->
      nth j (take from bytes ++ replicate (count - from) 0 ++ drop count bytes) 0 = nth j bytes 0).
    { intros j Hj. destruct Hbytes as [Hl _]. rewrite app_nth1 by (rewrite length_take; lia).
      rewrite <- (take_drop from bytes) at 2. rewrite app_nth1; [done|rewrite length_take; lia]. }
    rewrite Hsplit. intros i Hi. destruct (nat_split_byte i) as (j & k & -> & Hk). rewrite !addr_bit_byte by done.
    assert (Hj : (j < from)%nat).
    { clear -Hi Hk Hr. subst from. destruct (Nat.eqb_spec r 0); lia. }
    rewrite Hnth by done.
    subst bytes. destruct (Nat.eqb_spec r 0) as [Hr0|Hr0]; [done|].
    rewrite !nth_lookup, list_lookup_alter. case_decide as Hjn.
    + subst j. destruct Hok as [Hl _]. destruct (lookup_lt_is_Some_2 (octets base) n) as [z Hz]; [lia|].
      rewrite Hz. simpl. rewrite Z.land_spec, prefix_mask_bit by lia.
      destruct (Z.leb_spec (8 - Z.of_nat r) (7 - Z.of_nat k)); [by rewrite andb_true_r|lia].
    + done.
Qed.

(** C31: A parsed CIDR block is the set of addresses it denotes: its prefix
    length is at least one and fits its family, and an address lies in the
    block exactly when it is of the same family and agrees with the address
    before the slash on the prefix, so that address itself is always in its
    block.  The only facts used about [inet_pton] are the lengths of what it
    writes. *)
Theorem cidr_block raw c :
  parseCidr raw = Some c ->
  exists slash base, find_char "/" (trim raw) 0 = Some slash /\ base = parseAddress (substr (trim raw) 0 slash) /\
    (0 < prefix_length c <= if bool_decide (family base = IPv4) then 32 else 128)%nat /\
    (forall a, octets_ok (octets a) ->
       contains c a = true <->
       family a <> Unknown /\ family a = family base /\
       same_prefix (prefix_length c) (octets base) (octets a)) /\
    contains c base = true.
Proof.
  intros H. apply parseCidr_inv in H as (slash & base & bits & Hs & Hbase & Hv & Hbits & Hp & Hf & Hok & Hpre).
  exists slash, base. pose proof (parseAddress_ok (substr (trim raw) 0 slash)) as Hbok. rewrite <- Hbase in Hbok.
  assert (Hbnd : (0 < prefix_length c <= if bool_decide (family base = IPv4) then 32 else 128)%nat).
  { rewrite Hp. case_bool_decide; lia. }
  assert (H128 : (prefix_length c <= 128)%nat) by (case_bool_decide; lia).
  assert (Hiff : forall a, octets_ok (octets a) -> contains c a = true <->
    family a <> Unknown /\ family a = family base /\ same_prefix (prefix_length c) (octets base) (octets a)).
  { intros a Ha. rewrite contains_spec by done. rewrite Hf. split; intros (H1 & H2 & H3); split_and!; try done;
      intros i Hi; [rewrite <- (Hpre i Hi)|rewrite (Hpre i Hi)]; by apply H3. }
  split_and!; try done; try lia. apply Hiff; [done|]. split_and!; try done.
  unfold valid in Hv. by bools.
Qed.

End Parsing.

(** ** Who a request is attributed to *)

Section Attribution.
Context (inet_pton4 inet_pton6 : str -> option (list Z)).
Notation parseAddress := (parseAddress inet_pton4 inet_pton6).
Notation parseXForwardedFor := (parseXForwardedFor inet_pton4 inet_pton6).
Notation xff_loop := (xff_loop inet_pton4 inet_pton6).
Notation resolve := (resolve inet_pton4 inet_pton6).

Lemma fields_app c s t : fields c (s ++ c :: t) = fields c s ++ fields c t.
Proof.
  induction s as [|d s IH]; cbn [app fields].
  - unfold is_char. by rewrite bool_decide_true.
  - rewrite IH. destruct (is_char c d); [done|]. pose proof (fields_nonempty c s). by destruct (fields c s).
Qed.

(** The loop of [parseXForwardedFor] reads the comma separated parts. *)
Lemma xff_loop_spec fuel acc s : (length s < fuel)%nat ->
  xff_loop fuel acc s =
  (if forallb valid (parseAddress <$> fields "," s) && (length acc + length (fields "," s) <=? kMaxForwardedHops)%nat
   then Some (acc ++ (parseAddress <$> fields "," s)) else None).
Proof.
  revert acc s. induction fuel as [|fuel IH]; intros acc s Hf; [lia|]. cbn [ClientIp.xff_loop].
  destruct (find_char "," s 0) as [comma|] eqn:Ec.
  - pose proof Ec as (Hlt & Hs & Hn)%find_char_Some. cbn [default].
    assert (Hfields : fields "," s = take comma s :: fields "," (drop (comma + 1) s)).
    { rewrite Hs at 1. rewrite fields_cons by done. by rewrite Nat.add_1_r. }
    rewrite Hfields. csimpl. unfold substr. rewrite drop_0. destruct (valid (parseAddress (take comma s))); [|done].
    cbn [negb andb]. rewrite length_app. cbn [length].
    destruct (Nat.ltb_spec kMaxForwardedHops (length acc + 1)) as [Hl|Hl].
    + rewrite (proj2 (Nat.leb_gt _ _)) by lia. by rewrite andb_false_r.
    + rewrite IH by (rewrite length_drop; lia). rewrite length_app. cbn [length]. rewrite <- app_assoc. cbn [app].
      replace (length acc + 1 + length (fields "," (drop (comma + 1) s)))%nat
        with (length acc + S (length (fields "," (drop (comma + 1) s))))%nat by lia. done.
  - apply find_char_None in Ec. cbn [default]. rewrite fields_one by done. csimpl. unfold substr. rewrite drop_0, take_ge by done.
    destruct (valid (parseAddress s)); [|done]. cbn [negb andb length]. rewrite length_app. cbn [length].
    destruct (Nat.ltb_spec kMaxForwardedHops (length acc + 1)) as [Hl|Hl].
    + by rewrite (proj2 (Nat.leb_gt _ _)) by lia.
    + by rewrite (proj2 (Nat.leb_le _ _)) by lia.
Qed.

(** The hops that a list names, and whether the list is read at all. *)
Definition hops (value : str) : list Address := parseAddress <$> fields "," value.
Definition usable (value : str) : bool :=
  (length value <=? kMaxSelectedHeaderBytes)%nat && (length (hops value) <=? kMaxForwardedHops)%nat && forallb valid (hops value).

Lemma resolve_list peer p value : header p = XForwardedFor ->
  valid peer = true -> enabled p = true -> isTrusted peer p = true ->
  resolve peer [value] p =
  match first_untrusted p (reverse (hops value)) with
  | Some a => if usable value then mkResolution a true else mkResolution peer false
  | None => mkResolution peer false
  end.
Proof.
  intros Hh Hv He Ht. unfold ClientIp.resolve, usable. rewrite Hh, Hv, He, Ht. cbn [negb orb].
  rewrite Nat.leb_antisym. destruct (_ <? _)%nat; cbn [negb andb]; [by case_match|].
  unfold ClientIp.parseXForwardedFor. rewrite xff_loop_spec by lia. fold (hops value).
  assert (length (hops value) = length (fields "," value)) as -> by apply length_fmap.
  rewrite (andb_comm (forallb _ _)). cbn [app length Nat.add].
  destruct (_ && _); by case_match.
Qed.

Lemma first_untrusted_app p l k :
  first_untrusted p (l ++ k) = match first_untrusted p l with Some a => Some a | None => first_untrusted p k end.
Proof. induction l as [|a l IH]; simpl; [done|]. by destruct (isTrusted a p). Qed.

Lemma first_untrusted_spec p l a : first_untrusted p l = Some a -> isTrusted a p = false.
Proof. induction l as [|b l IH]; simpl; [done|]. destruct (isTrusted b p) eqn:E; [done|]. by intros [= <-]. Qed.

End Attribution.

(** Two addresses, enough to see the theorems at work. *)
Definition example_pton4 (s : str) : option (list Z) :=
  if bool_decide (s = "10.1.2.3"%str) then Some [10; 1; 2; 3]
  else if bool_decide (s = "203.0.113.9"%str) then Some [203; 0; 113; 9]
  else None.
Definition example_pton6 (s : str) : option (list Z) := None.

Lemma example_pton4_bytes s b :
  example_pton4 s = Some b -> length b = 4%nat /\ Forall (fun z => 0 <= z < 256) b.
Proof.
  unfold example_pton4. repeat case_bool_decide; intros [= <-]; (split; [done|]; repeat constructor; lia).
Qed.

Lemma cidr_block_witness :
  exists c, parseCidr example_pton4 example_pton6 " 10.1.2.3/12" = Some c /\
    contains c (parseAddress example_pton4 example_pton6 "10.1.2.3") = true.
Proof.
  destruct (parseCidr example_pton4 example_pton6 " 10.1.2.3/12") as [c|] eqn:E; [|vm_compute in E; discriminate].
  exists c. split; [reflexivity|].
  destruct (cidr_block example_pton4 example_pton6 example_pton4_bytes ltac:(discriminate) _ _ E)
    as (slash & base & Hs & Hb & _ & _ & H).
  vm_compute in Hs. injection Hs as <-. rewrite Hb in H. exact H.
Defined.

