(* ===== verification/AuthLimiter.v ===== *)
(** * handler/dashboard_auth_limiter.cpp: lock-out after failed logins

    One bucket of failures per client address, a bounded number of buckets,
    and one shared bucket for the addresses that find no room.  Time points
    are nanoseconds of the steady clock; the default time point is 0. *)

From S2P Require Import Prelude ClientIp.
Open Scope Z_scope.

(** src/src/handler/dashboard_auth_limiter.h:18-23 [Result, Decision] *)
Inductive Decision := Allowed | Unauthorized | Locked (retry_after_seconds : Z).

#[export] Instance decision_eq_dec : EqDecision Decision. Proof. solve_decision. Defined.

(** src/src/handler/dashboard_auth_limiter.h:38-42 [FailureState] *)
Record FailureState := mkFailure { failures : Z; window_start : Z; locked_until : Z }.

Definition fresh : FailureState := mkFailure 0 0 0.

(** src/src/handler/dashboard_auth_limiter.h:52-58 [FailureLimiter] *)
Record Limiter := mkLimiter {
  capacity : nat;
  buckets : gmap Address FailureState;
  overflow : FailureState;
  overflow_active : bool;
  next_cleanup : Z
}.

Definition seconds (s : Z) : Z := s * 1000000000.

(** src/src/handler/dashboard_auth_limiter.h:25-26 [FailureLimiter::FailureLimiter] *)
Definition new_limiter (c : nat) : Limiter := mkLimiter c ∅ fresh false 0.

(** src/src/handler/dashboard_auth_limiter.cpp:7-11 [FailureLimiter::expired] *)
Definition expired (st : FailureState) (now window_seconds : Z) : bool :=
  (locked_until st <=? now) && negb (window_start st =? 0) && (seconds window_seconds <? now - window_start st).

(** src/src/handler/dashboard_auth_limiter.cpp:13-25 [FailureLimiter::cleanup] *)
Definition cleanup (now window_seconds : Z) (l : Limiter) : Limiter :=
  let drop_overflow := overflow_active l && expired (overflow l) now window_seconds in
  mkLimiter (capacity l) (filter (fun kv => expired kv.2 now window_seconds = false) (buckets l))
    (if drop_overflow then fresh else overflow l) (if drop_overflow then false else overflow_active l)
    (now + seconds 45).

(** src/src/handler/dashboard_auth_limiter.cpp:27-53 [FailureLimiter::evaluateState]
    Also returned: whether the bucket is to be erased. *)
Definition evaluateState (st : FailureState) (credentials_valid : bool) (max_failures window_seconds lock_seconds now : Z)
    (clear_on_success : bool) : FailureState * Decision * bool :=
  if now <? locked_until st then
    (st, Locked (Z.max 1 (Z.quot (locked_until st - now) 1000000000)), false)
  else if credentials_valid then (st, Allowed, clear_on_success)
  else
    let st := if (window_start st =? 0) || (seconds window_seconds <? now - window_start st)
              then mkFailure 0 now 0 else st in
    let st := mkFailure (failures st + 1) (window_start st) (locked_until st) in
    if max_failures <=? failures st
    then (mkFailure (failures st) (window_start st) (now + seconds lock_seconds), Locked lock_seconds, false)
    else (st, Unauthorized, false).

(** src/src/handler/dashboard_auth_limiter.cpp:55-91 [FailureLimiter::evaluate] *)
Definition evaluate (key : Address) (credentials_valid : bool) (max_failures window_seconds lock_seconds now : Z)
    (l : Limiter) : Limiter * Decision :=
  let max_failures := Z.max 1 max_failures in
  let window_seconds := Z.max 1 window_seconds in
  let lock_seconds := Z.max 1 lock_seconds in
  let l := if (next_cleanup l =? 0) || (next_cleanup l <=? now) || (capacity l <=? size (buckets l))%nat
           then cleanup now window_seconds l else l in
  let with_buckets b := mkLimiter (capacity l) b (overflow l) (overflow_active l) (next_cleanup l) in
  match buckets l !! key with
  | Some st =>
      let '(st, d, erase) := evaluateState st credentials_valid max_failures window_seconds lock_seconds now true in
      (with_buckets (if erase then delete key (buckets l) else <[key := st]> (buckets l)), d)
  | None =>
      if (size (buckets l) <? capacity l)%nat then
        if credentials_valid then (l, Allowed)
        else
          let '(st, d, _) := evaluateState fresh false max_failures window_seconds lock_seconds now true in
          (with_buckets (<[key := st]> (buckets l)), d)
      else
        let ov := if overflow_active l then overflow l else fresh in
        let '(ov, d, _) := evaluateState ov credentials_valid max_failures window_seconds lock_seconds now false in
        (mkLimiter (capacity l) (buckets l) ov true (next_cleanup l), d)
  end.

(** ** Sequences of attempts *)

(** One login attempt: who, whether the credentials are right, and when. *)
Record Attempt := mkAttempt { who : Address; right : bool; when : Z }.

Section Limits.
Context (max_failures window lock : Z).
Hypothesis max_pos : 1 <= max_failures.
Hypothesis window_pos : 1 <= window.
Hypothesis lock_pos : 1 <= lock.

Fixpoint attempts (l : Limiter) (as_ : list Attempt) : Limiter * list Decision :=
  match as_ with
  | [] => (l, [])
  | a :: as_ =>
      let '(l, d) := evaluate (who a) (right a) max_failures window lock (when a) l in
      let '(l, ds) := attempts l as_ in (l, d :: ds)
  end.

(** The failed attempts of one client. *)
Definition failed_by (k : Address) (as_ : list Attempt) : Z :=
  Z.of_nat (length (filter (fun a => who a = k /\ right a = false) as_)).

(** The limiter after the clean-up with which [evaluate] may begin. *)
Definition cleaned (now : Z) (l : Limiter) : Limiter :=
  if (next_cleanup l =? 0) || (next_cleanup l <=? now) || (capacity l <=? size (buckets l))%nat
  then cleanup now window l else l.

Lemma cleaned_lookup now l k st :
  buckets l !! k = Some st -> expired st now window = false -> buckets (cleaned now l) !! k = Some st.
Proof.
  intros Hk He. unfold cleaned. split_if; [|done]. simpl.
  by apply map_lookup_filter_Some_2.
Qed.

Lemma cleaned_capacity now l : capacity (cleaned now l) = capacity l.
Proof. unfold cleaned. by split_if. Qed.

Lemma cleaned_size now l : (size (buckets (cleaned now l)) <= size (buckets l))%nat.
Proof.
  unfold cleaned. split_if; [|done]. simpl. apply map_subseteq_size, map_filter_subseteq.
Qed.

(** [evaluate] after its normalisations. *)
Lemma evaluate_eq key ok now l :
  evaluate key ok max_failures window lock now l =
  let l := cleaned now l in
  let with_buckets b := mkLimiter (capacity l) b (overflow l) (overflow_active l) (next_cleanup l) in
  match buckets l !! key with
  | Some st =>
      let '(st, d, erase) := evaluateState st ok max_failures window lock now true in
      (with_buckets (if erase then delete key (buckets l) else <[key := st]> (buckets l)), d)
  | None =>
      if (size (buckets l) <? capacity l)%nat then
        if ok then (l, Allowed)
        else
          let '(st, d, _) := evaluateState fresh false max_failures window lock now true in
          (with_buckets (<[key := st]> (buckets l)), d)
      else
        let ov := if overflow_active l then overflow l else fresh in
        let '(ov, d, _) := evaluateState ov ok max_failures window lock now false in
        (mkLimiter (capacity l) (buckets l) ov true (next_cleanup l), d)
  end.
Proof. unfold evaluate, cleaned. by rewrite !Z.max_r by lia. Qed.

(** Another client's attempt leaves a bucket that has not expired alone. *)
Lemma evaluate_other key ok now l k st :
  key <> k -> buckets l !! k = Some st -> expired st now window = false ->
  buckets (evaluate key ok max_failures window lock now l).1 !! k = Some st.
Proof.
  intros Hne Hk He. rewrite evaluate_eq. cbv zeta. pose proof (cleaned_lookup now l k st Hk He) as Hc.
  destruct (buckets (cleaned now l) !! key) as [st0|].
  - destruct (evaluateState _ _ _ _ _ _ _) as [[st1 d] erase]. simpl.
    destruct erase; [by rewrite lookup_delete_ne|by rewrite lookup_insert_ne].
  - destruct (_ <? _)%nat; [destruct ok; [done|]|].
    + destruct (evaluateState _ _ _ _ _ _ _) as [[st1 d] e]. simpl. by rewrite lookup_insert_ne.
    + by destruct (evaluateState _ _ _ _ _ _ _) as [[st1 d] e].
Qed.

Lemma evaluate_own key ok now l st :
  buckets l !! key = Some st -> expired st now window = false ->
  let '(st', d, erase) := evaluateState st ok max_failures window lock now true in
  (evaluate key ok max_failures window lock now l).2 = d /\
  buckets (evaluate key ok max_failures window lock now l).1 !! key = if erase then None else Some st'.
Proof.
  intros Hk He. rewrite evaluate_eq. cbv zeta. rewrite (cleaned_lookup now l key st Hk He).
  destruct (evaluateState _ _ _ _ _ _ _) as [[st' d] erase]. simpl. split; [done|].
  destruct erase; [apply lookup_delete_eq|apply lookup_insert_eq].
Qed.

(** A lock holds: once a client's bucket is locked until some time, then
    whatever it and all other clients send before that time, every attempt of
    the client is answered [Locked], with right credentials too, and the
    bucket is never forgotten. *)
Theorem lock_holds k st l as_ :
  buckets l !! k = Some st -> Forall (fun a => when a < locked_until st) as_ ->
  let '(l', ds) := attempts l as_ in
  buckets l' !! k = Some st /\
  forall i a, as_ !! i = Some a -> who a = k -> exists s, ds !! i = Some (Locked s) /\ 1 <= s.
Proof.
  revert l. induction as_ as [|a as_ IH]; intros l Hk Hall; simpl; [done|].
  apply Forall_cons in Hall as [Ha Hall'].
  assert (He : expired st (when a) window = false).
  { unfold expired. destruct (Z.leb_spec (locked_until st) (when a)); [lia|done]. }
  pose proof (evaluate_other (who a) (right a) (when a) l k st) as Ho.
  pose proof (evaluate_own k (right a) (when a) l st Hk He) as Hown.
  unfold evaluateState in Hown. destruct (Z.ltb_spec (when a) (locked_until st)) as [_|]; [|lia].
  destruct (decide (who a = k)) as [Hw|Hw].
  - rewrite Hw in *. destruct (evaluate k (right a) max_failures window lock (when a) l) as [l1 d1] eqn:E.
    simpl in Hown. destruct Hown as [-> Hb]. specialize (IH l1 Hb Hall').
    destruct (attempts l1 as_) as [l2 ds]. destruct IH as [H1 H2]. split; [done|].
    intros [|i] b Hi Hbk; simpl in *; [eexists; split; [done|lia]|by eapply H2].
  - destruct (evaluate (who a) (right a) max_failures window lock (when a) l) as [l1 d1] eqn:E.
    specialize (Ho Hw Hk He). simpl in Ho. specialize (IH l1 Ho Hall').
    destruct (attempts l1 as_) as [l2 ds]. destruct IH as [H1 H2]. split; [done|].
    intros [|i] b Hi Hbk; simpl in *; [by simplify_eq|by eapply H2].
Qed.

Lemma expired_window st now : window_start st <= now <= window_start st + seconds window -> expired st now window = false.
Proof.
  intros Ht. unfold expired. destruct (Z.ltb_spec (seconds window) (now - window_start st)); [lia|]. by rewrite andb_false_r.
Qed.

(** A wrong password of a client inside its window: the bucket after it and
    the answer. *)
Lemma evaluate_failure k now l st :
  buckets l !! k = Some st -> window_start st <> 0 -> locked_until st <= window_start st ->
  window_start st <= now <= window_start st + seconds window ->
  let locks := max_failures <=? failures st + 1 in
  let '(l', d) := evaluate k false max_failures window lock now l in
  d = (if locks then Locked lock else Unauthorized) /\
  buckets l' !! k = Some (mkFailure (failures st + 1) (window_start st) (if locks then now + seconds lock else locked_until st)).
Proof.
  intros Hk Hw Hlu Ht locks. pose proof (evaluate_own k false now l st Hk (expired_window st now Ht)) as Hown.
  unfold evaluateState in Hown.
  destruct (Z.ltb_spec now (locked_until st)); [lia|]. cbv zeta in Hown.
  destruct (Z.eqb_spec (window_start st) 0); [done|]. simpl in Hown.
  destruct (Z.ltb_spec (seconds window) (now - window_start st)); [lia|].
  fold locks in Hown. destruct (evaluate _ _ _ _ _ _ _) as [l1 d1]. by destruct locks.
Qed.

Lemma failed_by_cons k a as_ :
  failed_by k (a :: as_) = (if bool_decide (who a = k /\ right a = false) then 1 else 0) + failed_by k as_.
Proof. unfold failed_by. rewrite filter_cons. case_decide; case_bool_decide; simpl; try done; lia. Qed.

(** Failures add up: while a client's window is open and it is not
    locked, whatever the other clients do, each of its failures raises its
    count, below the limit it is answered [Unauthorized], and the failure
    that reaches the limit locks it for the configured time. *)
Theorem failures_lock k st l as_ last :
  buckets l !! k = Some st -> window_start st <> 0 -> locked_until st <= window_start st ->
  Forall (fun a => window_start st <= when a <= window_start st + seconds window /\
                   (who a = k -> right a = false)) (as_ ++ [last]) ->
  who last = k ->
  failures st + failed_by k as_ + 1 = max_failures ->
  let '(l', ds) := attempts l (as_ ++ [last]) in
  (forall i a, as_ !! i = Some a -> who a = k -> ds !! i = Some Unauthorized) /\
  ds !! length as_ = Some (Locked lock) /\
  buckets l' !! k = Some (mkFailure max_failures (window_start st) (when last + seconds lock)).
Proof.
  intros Hk Hw Hlu Hall Hlast Hcount. subst k. revert l st Hk Hw Hlu Hall Hcount.
  induction as_ as [|a as_ IH]; intros l st Hk Hw Hlu Hall Hcount; simpl;
    apply Forall_cons in Hall as [[Ht Hwrong] Hall'].
  - pose proof (evaluate_failure (who last) (when last) l st Hk Hw Hlu Ht) as Hf. rewrite (Hwrong eq_refl).
    unfold failed_by in Hcount. simpl in Hcount. cbv zeta in Hf. rewrite (proj2 (Z.leb_le _ _)) in Hf by lia.
    destruct (evaluate _ _ _ _ _ _ _) as [l1 d1]. destruct Hf as [-> Hb].
    split_and!; [done|done|]. simpl. rewrite Hb. do 2 f_equal. lia.
  - rewrite failed_by_cons in Hcount. destruct (decide (who a = who last)) as [Hwa|Hwa].
    + rewrite bool_decide_true in Hcount by auto. rewrite Hwa, (Hwrong Hwa).
      pose proof (evaluate_failure (who last) (when a) l st Hk Hw Hlu Ht) as Hf. cbv zeta in Hf.
      assert (0 <= failed_by (who last) as_) by (unfold failed_by; lia).
      rewrite (proj2 (Z.leb_gt _ _)) in Hf by lia.
      destruct (evaluate _ _ _ _ _ _ _) as [l1 d1]. destruct Hf as [-> Hb].
      specialize (IH l1 _ Hb Hw Hlu Hall'). simpl in IH. destruct (attempts l1 (as_ ++ [last])) as [l2 ds].
      destruct IH as (HA & HB & HC); [lia|]. split_and!; [|done|done].
      intros [|i] b Hi Hbk; simpl in *; [done|by eapply HA].
    + rewrite bool_decide_false in Hcount by tauto.
      pose proof (evaluate_other (who a) (right a) (when a) l (who last) st Hwa Hk (expired_window st _ Ht)) as Ho.
      destruct (evaluate (who a) (right a) max_failures window lock (when a) l) as [l1 d1].
      specialize (IH l1 st Ho Hw Hlu Hall'). destruct (attempts l1 (as_ ++ [last])) as [l2 ds].
      destruct IH as (HA & HB & HC); [lia|]. split_and!; [|done|done].
      intros [|i] b Hi Hbk; simpl in *; [by simplify_eq|by eapply HA].
Qed.

(** Memory is bounded and the innocent get in: no sequence of attempts
    makes the limiter keep more buckets than its capacity, and as long as
    there is room a client without a bucket that presents right credentials
    is allowed. *)
Theorem buckets_bounded c as_ l ds :
  attempts (new_limiter c) as_ = (l, ds) ->
  (size (buckets l) <= c)%nat /\
  forall k now, buckets l !! k = None -> (size (buckets l) < c)%nat ->
    (evaluate k true max_failures window lock now l).2 = Allowed.
Proof.
  assert (Hstep : forall key ok now l, capacity l = c -> (size (buckets l) <= c)%nat ->
    let l' := (evaluate key ok max_failures window lock now l).1 in
    capacity l' = c /\ (size (buckets l') <= c)%nat).
  { clear -max_pos window_pos lock_pos. intros key ok now l Hc Hs. rewrite evaluate_eq. cbv zeta.
    pose proof (cleaned_size now l). pose proof (cleaned_capacity now l) as Hcap.
    destruct (buckets (cleaned now l) !! key) as [st|] eqn:Ek.
    - destruct (evaluateState _ _ _ _ _ _ _) as [[st' d] erase]. simpl. split; [by rewrite Hcap|].
      destruct erase; [rewrite map_size_delete, Ek|rewrite map_size_insert, Ek]; simpl; lia.
    - destruct (Nat.ltb_spec (size (buckets (cleaned now l))) (capacity (cleaned now l))).
      + destruct ok; simpl; [split; [by rewrite Hcap|lia]|].
        destruct (evaluateState _ _ _ _ _ _ _) as [[st' d] e]. simpl. split; [by rewrite Hcap|].
        rewrite map_size_insert, Ek. rewrite Hcap in *. lia.
      + destruct (evaluateState _ _ _ _ _ _ _) as [[st' d] e]. simpl. split; [by rewrite Hcap|lia]. }
  intros Hrun.
  assert (Hinv : capacity l = c /\ (size (buckets l) <= c)%nat).
  { revert Hrun. assert (H0 : capacity (new_limiter c) = c /\ (size (buckets (new_limiter c)) <= c)%nat).
    { simpl. split; [done|]. rewrite map_size_empty. lia. }
    revert H0. generalize (new_limiter c). revert ds. induction as_ as [|a as_ IH]; intros ds l0 [Hc Hs] Hrun; simpl in Hrun.
    - by simplify_eq.
    - pose proof (Hstep (who a) (right a) (when a) l0 Hc Hs) as Hst.
      destruct (evaluate _ _ _ _ _ _ l0) as [l1 d1]. destruct (attempts l1 as_) as [l2 ds2] eqn:E2.
      simplify_eq. by eapply (IH ds2 l1). }
  destruct Hinv as [Hc Hs]. split; [done|]. intros k now Hk Hlt. rewrite evaluate_eq. cbv zeta.
  assert (Hnone : buckets (cleaned now l) !! k = None).
  { unfold cleaned. split_if; [|done]. simpl. apply map_lookup_filter_None. by left. }
  rewrite Hnone. pose proof (cleaned_size now l). rewrite cleaned_capacity, Hc.
  destruct (Nat.ltb_spec (size (buckets (cleaned now l))) c); [done|lia].
Qed.
End Limits.

Definition example_client : Address := mkAddress IPv4 [1; 2; 3; 4].
Definition other_client : Address := mkAddress IPv4 [5; 6; 7; 8].
Definition example_limiter : Limiter :=
  mkLimiter 4 {[example_client := mkFailure 1 5 0]} fresh false 100.

Lemma lock_holds_witness :
  let l := mkLimiter 4 {[example_client := mkFailure 3 5 1000]} fresh false 100 in
  exists s, (attempts 3 60 300 l [mkAttempt other_client false 500; mkAttempt example_client true 600]).2 !! 1%nat
    = Some (Locked s).
Proof.
  pose proof (lock_holds 3 60 300 ltac:(lia) ltac:(lia) ltac:(lia) example_client (mkFailure 3 5 1000)
    (mkLimiter 4 {[example_client := mkFailure 3 5 1000]} fresh false 100)
    [mkAttempt other_client false 500; mkAttempt example_client true 600] eq_refl
    ltac:(repeat constructor)) as H.
  cbv zeta. destruct (attempts _ _ _ _ _) as [l' ds]. destruct H as [_ H].
  destruct (H 1%nat _ eq_refl eq_refl) as (s & Hs & _). exists s. exact Hs.
Defined.

Lemma failures_lock_witness :
  (attempts 3 60 300 example_limiter
     [mkAttempt example_client false 10; mkAttempt other_client true 20; mkAttempt example_client false 30]).2
    !! 2%nat = Some (Locked 300).
Proof.
  pose proof (failures_lock 3 60 300 ltac:(lia) ltac:(lia) ltac:(lia) example_client (mkFailure 1 5 0) example_limiter
    [mkAttempt example_client false 10; mkAttempt other_client true 20] (mkAttempt example_client false 30)
    eq_refl ltac:(simpl; lia) ltac:(simpl; lia)) as H.
  simpl app in H. destruct (attempts _ _ _ _ _) as [l' ds]. apply H; [|reflexivity|reflexivity].
  repeat constructor; simpl; try (unfold seconds; lia); discriminate.
Defined.

Lemma buckets_bounded_witness :
  (size (buckets (attempts 3 60 300 (new_limiter 2) [mkAttempt example_client false 10]).1) <= 2)%nat.
Proof.
  destruct (attempts 3 60 300 (new_limiter 2) [mkAttempt example_client false 10]) as [l ds] eqn:E.
  apply (buckets_bounded 3 60 300 ltac:(lia) ltac:(lia) ltac:(lia) 2 _ l ds E).
Defined.
