(* ===== verification/RequestKey.v ===== *)
(** * handler/sub_request_key.cpp: the identity of a subscription request

    The key under which a conversion is shared is the MD5 digest of a stream
    that spells out everything the conversion depends on.  The digest is a
    parameter; the stream is built as the code builds it, entry by entry and
    with its size limit.  The arguments are the entries of a multimap in
    iteration order, the headers those of a map with case-insensitive keys. *)

From S2P Require Import Prelude Str StringUtil.
Open Scope Z_scope.

(** src/src/server/webserver.h:20-31 [Request]
    The parts of a request that enter its identity. *)
Record Request := mkRequest {
  method : str; url : str; argument : list (str * str); headers : list (str * str)
}.

Definition newline : ascii := "010".

(** What one [append] feeds to the digest. *)
Definition entry_text (e : str * str) : str :=
  e.1 ++ ":"%str ++ to_string (Z.of_nat (length e.2)) ++ ":"%str ++ e.2 ++ [newline].

(** The builder: the bytes processed so far and [size_]. *)
Record Builder := mkBuilder { stream : str; bsize : Z }.

(** src/src/handler/sub_request_key.cpp:14-29 [SubRequestKeyBuilder::append] *)
Definition append (name value : str) (b : Builder) : option Builder :=
  if 2097152 <? bsize b + (Z.of_nat (length name) + Z.of_nat (length value) + 32) then None
  else
    Some (mkBuilder (stream b ++ entry_text (name, value))
            (bsize b + Z.of_nat (length name) + Z.of_nat (length (to_string (Z.of_nat (length value))))
             + Z.of_nat (length value) + 3)).

Fixpoint append_all (es : list (str * str)) (b : Builder) : option Builder :=
  match es with
  | [] => Some b
  | (n, v) :: es => b ← append n v b; append_all es b
  end.

(** src/src/handler/sub_request_key.cpp:50-56 [lower] *)
Definition lower (s : str) : str := tolower <$> s.

(** src/src/handler/sub_request_key.cpp:58-64 [trimHeaderName] *)
Definition trimHeaderName (s : str) : str :=
  let keep c := negb (one_of [" "; "009"; "013"; "010"]%char c) in
  match index_if keep s, last_index_if keep s with
  | Some b, Some e => substr s b (e - b + 1)
  | _, _ => []
  end.

(** [find] in the case-insensitive header map. *)
Definition find_header (hs : list (str * str)) (name : str) : str :=
  default [] (snd ∘ snd <$> list_find (fun h => lower h.1 = lower name) hs).

(** src/src/handler/sub_request_key.cpp:66-73 [appendHeader] *)
Definition header_entries (r : Request) (name : str) : list (str * str) :=
  [("header_name"%str, lower name); ("header_value"%str, find_header (headers r) name)].

(** The names of the provider_headers argument, split at the commas. *)
Fixpoint selected_loop (fuel : nat) (selected : str) : list str :=
  match fuel with
  | O => []
  | S fuel =>
      let comma := find_char "," selected 0 in
      let name := trimHeaderName (match comma with None => selected | Some e => substr selected 0 e end) in
      (if bool_decide (name = []) then [] else [name]) ++
      match comma with None => [] | Some e => selected_loop fuel (drop (e + 1) selected) end
  end.

(** src/src/handler/sub_request_key.cpp:99-115 [buildSubRequestKey, selected headers] *)
Definition selected_headers (r : Request) : list str :=
  let selected := default [] (snd ∘ snd <$> list_find (fun a => a.1 = "provider_headers"%str) (argument r)) in
  selected_loop (S (length selected)) selected.

Definition fixed_entries (version prefix fingerprint : str) (generation : Z) (r : Request) : list (str * str) :=
  [("version"%str, version); ("config_generation"%str, to_string generation);
   ("managed_config_prefix"%str, prefix); ("method"%str, method r); ("path"%str, url r);
   ("age_recipient_fingerprint"%str, fingerprint)].

Definition argument_entries (r : Request) : list (str * str) :=
  a ← argument r; [("arg_name"%str, a.1); ("arg_value"%str, a.2)].

(** src/src/handler/sub_request_key.cpp:77-117 [buildSubRequestKey]
    The empty key says that the identity is too long. *)
Definition buildSubRequestKey (md5 : str -> str) (version fingerprint : str) (generation : Z) (prefix : str)
    (r : Request) : str :=
  match append_all (fixed_entries version prefix fingerprint generation r ++ argument_entries r ++
                    header_entries r "User-Agent" ++ (n ← selected_headers r; header_entries r n))
          (mkBuilder [] 0) with
  | Some b => md5 (stream b)
  | None => []
  end.

(** ** The stream is uniquely readable *)

Lemma append_all_stream es b b' :
  append_all es b = Some b' -> stream b' = stream b ++ (es ≫= entry_text).
Proof.
  revert b. induction es as [|[n v] es IH]; intros b; simpl.
  - intros [= <-]. by rewrite app_nil_r.
  - destruct (append n v b) as [b1|] eqn:E; simpl; [|done]. intros H. apply IH in H as ->.
    unfold append in E. split_if_in E; [done|]. injection E as <-. simpl. by rewrite <- app_assoc.
Qed.

Lemma digits_no_colon s : Forall (fun c => isdigit c = true) s -> ":"%char ∉ s.
Proof. intros H Hin. rewrite Forall_forall in H. by apply H in Hin. Qed.

Definition plain_name (e : str * str) : Prop := ":"%char ∉ e.1 /\ is_u64 (Z.of_nat (length e.2)).

Lemma entry_text_inj e e' s s' :
  plain_name e -> plain_name e' -> entry_text e ++ s = entry_text e' ++ s' -> e = e' /\ s = s'.
Proof.
  destruct e as [n v], e' as [n' v']. intros [Hn Hl] [Hn' Hl']. unfold entry_text. simpl in *.
  rewrite <- !app_assoc. simpl. rewrite <- !app_assoc. simpl. intros H.
  apply split_first in H as [-> H]; [|done|done].
  destruct (to_string_ok _ Hl) as (Hd & _), (to_string_ok _ Hl') as (Hd' & _).
  apply split_first in H as [Hlen H]; [|by apply digits_no_colon..].
  apply to_string_inj in Hlen; [|done|done]. apply Nat2Z.inj in Hlen.
  rewrite <- !app_assoc in H. apply app_inj_1 in H as [-> H]; [|done]. by injection H as ->.
Qed.

Lemma entries_inj es es' :
  Forall plain_name es -> Forall plain_name es' -> es ≫= entry_text = es' ≫= entry_text -> es = es'.
Proof.
  intros He. revert es'. induction He as [|e es Hp He IH]; intros [|e' es'] He' H; simpl in H.
  - done.
  - exfalso. unfold entry_text in H. symmetry in H. apply app_eq_nil in H as [H _].
    apply app_eq_nil in H as [_ H]. discriminate.
  - exfalso. unfold entry_text in H. apply app_eq_nil in H as [H _].
    apply app_eq_nil in H as [_ H]. discriminate.
  - apply Forall_cons in He' as [Hp' He']. apply entry_text_inj in H as [-> H]; [|done|done].
    f_equal. by apply IH.
Qed.

(** The names the code uses contain no colon. *)
Definition request_entries (version fingerprint : str) (generation : Z) (prefix : str) (r : Request) :=
  fixed_entries version prefix fingerprint generation r ++ argument_entries r ++
  header_entries r "User-Agent" ++ (n ← selected_headers r; header_entries r n).

Lemma append_small es b b' :
  append_all es b = Some b' -> 0 <= bsize b -> Forall (fun e => is_u64 (Z.of_nat (length e.2))) es.
Proof.
  revert b. induction es as [|[n v] es IH]; intros b H Hb; [constructor|]. simpl in H.
  destruct (append n v b) as [b1|] eqn:E; simpl in H; [|done]. unfold append in E.
  destruct (Z.ltb_spec 2097152 (bsize b + (Z.of_nat (length n) + Z.of_nat (length v) + 32))); [done|].
  injection E as <-. constructor; [unfold is_u64; simpl; lia|]. eapply IH; [exact H|]. simpl. lia.
Qed.

Lemma names_plain version fingerprint generation prefix r :
  Forall (fun e => ":"%char ∉ e.1) (request_entries version fingerprint generation prefix r).
Proof.
  assert (Hh : forall n, Forall (fun e : str * str => ":"%char ∉ e.1) (header_entries r n)).
  { intros n. unfold header_entries. repeat constructor; simpl; computed. }
  unfold request_entries. rewrite !Forall_app. split_and!.
  - unfold fixed_entries. repeat constructor; simpl; computed.
  - unfold argument_entries. apply Forall_bind, Forall_true. intros a.
    repeat constructor; simpl; computed.
  - apply Hh.
  - apply Forall_bind, Forall_true. apply Hh.
Qed.

(** The arguments can be read off the entries, which go on with a header. *)
Lemma arguments_inj (l l' : list (str * str)) k k' h h' :
  (a ← l; [("arg_name"%str, a.1); ("arg_value"%str, a.2)]) ++ ("header_name"%str, h) :: k =
  (a ← l'; [("arg_name"%str, a.1); ("arg_value"%str, a.2)]) ++ ("header_name"%str, h') :: k' ->
  l = l' /\ h = h' /\ k = k'.
Proof.
  revert l'. induction l as [|[n v] l IH]; intros [|[n' v'] l'] H; simpl in H.
  - by injection H as -> ->.
  - discriminate.
  - discriminate.
  - injection H as -> -> H. by destruct (IH l' H) as (-> & -> & ->).
Qed.

Lemma header_values_inj (r r' : Request) (l l' : list str) :
  (n ← l; header_entries r n) = (n ← l'; header_entries r' n) ->
  (fun n => (lower n, find_header (headers r) n)) <$> l = (fun n => (lower n, find_header (headers r') n)) <$> l'.
Proof.
  revert l'. induction l as [|n l IH]; intros [|n' l'] H; simpl in H; try discriminate; [done|].
  injection H as H1 H2 H3. csimpl. by rewrite H1, H2, (IH l' H3).
Qed.

(** Requests with the same key have the same identity: equal non-empty
    keys imply the same program version, configuration generation, managed
    prefix, method, path, recipient, arguments in order, user agent and
    values of the selected headers, unless two different streams with the
    same digest have been found.  Neither the lengths nor the contents of the
    parts can be shifted against each other to fake another request. *)
Theorem request_key_identity md5 version version' fp fp' g g' prefix prefix' r r' :
  (forall s, md5 s <> []) ->
  is_u64 g -> is_u64 g' ->
  buildSubRequestKey md5 version fp g prefix r = buildSubRequestKey md5 version' fp' g' prefix' r' ->
  buildSubRequestKey md5 version fp g prefix r <> [] ->
  (exists s s', s <> s' /\ md5 s = md5 s') \/
  version = version' /\ g = g' /\ prefix = prefix' /\ fp = fp' /\
  method r = method r' /\ url r = url r' /\ argument r = argument r' /\
  find_header (headers r) "User-Agent" = find_header (headers r') "User-Agent" /\
  (fun n => (lower n, find_header (headers r) n)) <$> selected_headers r =
  (fun n => (lower n, find_header (headers r') n)) <$> selected_headers r'.
Proof.
  intros Hne Hg Hg'. unfold buildSubRequestKey.
  fold (request_entries version fp g prefix r). fold (request_entries version' fp' g' prefix' r').
  destruct (append_all (request_entries version fp g prefix r) (mkBuilder [] 0)) as [b|] eqn:E; [|done].
  destruct (append_all (request_entries version' fp' g' prefix' r') (mkBuilder [] 0)) as [b'|] eqn:E'.
  2:{ intros H _. by apply Hne in H. }
  intros H _. destruct (decide (stream b = stream b')) as [Hst|Hst]; [right|left; by eauto]. clear H.
  pose proof (append_small _ _ _ E ltac:(simpl; lia)) as Hs. pose proof (append_small _ _ _ E' ltac:(simpl; lia)) as Hs'.
  rewrite (append_all_stream _ _ _ E), (append_all_stream _ _ _ E') in Hst. cbn [stream app] in Hst.
  rename Hst into H. apply entries_inj in H.
  2,3: unfold plain_name; apply Forall_and; split; [apply names_plain|done].
  unfold request_entries, fixed_entries, argument_entries in H. simpl in H.
  injection H as -> Hgen -> -> -> -> H. apply to_string_inj in Hgen; [|done|done].
  apply arguments_inj in H as (Ha & _ & H). injection H as Hua H.
  apply header_values_inj in H. split_and!; done.
Qed.

Definition example_request : Request :=
  mkRequest "GET" "/sub" [("target"%str, "clash"%str); ("url"%str, "https://a"%str)] [("user-agent"%str, "x"%str)].

(** A digest that separates all streams: the stream itself, marked. *)
Definition marked (s : str) : str := "m"%char :: s.

Lemma request_key_identity_witness :
  find_header (headers example_request) "User-Agent" = "x"%str /\
  argument example_request = argument example_request.
Proof.
  split; [reflexivity|].
  assert (Hne : forall s, marked s <> []) by (intros s; discriminate).
  destruct (request_key_identity marked "dev" "dev" [] [] 1 1 [] [] example_request example_request Hne
    ltac:(split; lia) ltac:(split; lia) eq_refl ltac:(vm_compute; discriminate)) as [(s & s' & Hs & H)|(_ & _ & _ & _ & _ & _ & H & _)].
  - exfalso. apply Hs. by injection H.
  - exact H.
Defined.
