(* ===== verification/MieruUri.v ===== *)
(** * parser/mieru_uri.cpp: the mierus:// share link

    Parser and printer of the human-readable link, with the checks on ports,
    enumerated options and the base64-encoded protobuf traffic pattern.  A
    function that returns [bool] and fills a result is an [option]; a position
    in a byte array is the rest of the array. *)

From S2P Require Import Prelude Str StringUtil Codec.
Open Scope Z_scope.

(** ** Percent encoding *)

(** src/src/parser/mieru_uri.cpp:12-20 [hexValue] *)
Definition hexValue (c : ascii) : option Z :=
  if isdigit c then Some (code c - 48)
  else if between 97 102 c then Some (code c - 97 + 10)
  else if between 65 70 c then Some (code c - 65 + 10)
  else None.

(** src/src/parser/mieru_uri.cpp:22-45 [percentDecode] *)
Fixpoint percentDecode (plus_as_space : bool) (s : str) : option str :=
  match s with
  | [] => Some []
  | c :: r =>
      if is_char "%" c then
        match r with
        | h :: l :: r =>
            match hexValue h, hexValue l with
            | Some high, Some low =>
                let ch := chr (Z.lor (Z.shiftl high 4) low) in
                if iscntrl ch then None else cons ch <$> percentDecode plus_as_space r
            | _, _ => None
            end
        | _ => None
        end
      else
        let ch := if plus_as_space && is_char "+" c then " "%char else c in
        if iscntrl ch then None else cons ch <$> percentDecode plus_as_space r
  end.

Definition hex_digit (z : Z) : ascii := nth (Z.to_nat z) "0123456789ABCDEF"%str "0"%char.

(** src/src/parser/mieru_uri.cpp:47-63 [percentEncode] *)
Fixpoint percentEncode (s : str) : str :=
  match s with
  | [] => []
  | c :: s =>
      if isupper c || islower c || isdigit c || one_of "-._~"%str c then c :: percentEncode s
      else "%"%char :: hex_digit (Z.shiftr (code c) 4) :: hex_digit (Z.land (code c) 15) :: percentEncode s
  end.

(** ** Checks *)

(** src/src/parser/mieru_uri.cpp:65-77 [validMieruHost] *)
Definition validMieruHost (host : str) : bool :=
  if bool_decide (host = []) || existsb (fun c => isspace c || iscntrl c) host
     || existsb (fun c => one_of "/?#@[]"%str c) host then false
  else if negb (existsb (is_char ":") host) then true
  else forallb (fun c => isxdigit c || is_char ":" c || is_char "." c) host.

(** src/src/parser/mieru_uri.cpp:79-85 [knownMieruQueryKey] *)
Definition knownMieruQueryKey (key : str) : bool :=
  existsb (fun k => bool_decide (key = k))
    ["profile"%str; "mtu"%str; "multiplexing"%str; "handshake-mode"%str; "traffic-pattern"%str; "port"%str;
     "protocol"%str].

(** src/src/parser/mieru_uri.cpp:87-92 [appendQueryParameter] *)
Definition appendQueryParameter (key value : str) (query : list str) : list str :=
  if bool_decide (value = []) then query else query ++ [key ++ "="%str ++ percentEncode value].

Fixpoint unsigned_loop (maximum result : Z) (s : str) : option Z :=
  match s with
  | [] => Some result
  | c :: s =>
      let digit := code c - 48 in
      if u32 (maximum - digit) / 10 <? result then None
      else unsigned_loop maximum (u64 (u64 (result * 10) + digit)) s
  end.

(** src/src/parser/mieru_uri.cpp:94-112 [parseUnsigned] *)
Definition parseUnsigned (s : str) (minimum maximum : Z) : option Z :=
  if bool_decide (s = []) || negb (forallb isdigit s) then None
  else
    match unsigned_loop maximum 0 s with
    | None => None
    | Some r => if r <? minimum then None else Some (u32 r)
    end.

Fixpoint varint_loop (fuel : nat) (shift value : Z) (data : list Z) : option (Z * list Z) :=
  match fuel, data with
  | S fuel, byte :: data =>
      if shift <? 64 then
        if (shift =? 63) && (1 <? byte) then None
        else
          let value := Z.lor value (u64 (Z.shiftl (Z.land byte 127) shift)) in
          if Z.land byte 128 =? 0 then Some (value, data) else varint_loop fuel (shift + 7) value data
      else None
  | _, _ => None
  end.

(** src/src/parser/mieru_uri.cpp:114-126 [readVarint]
    Ten rounds: the shift reaches 63 in the last. *)
Definition readVarint (data : list Z) : option (Z * list Z) := varint_loop 10 0 0 data.

Fixpoint wire_loop (fuel : nat) (data : list Z) : bool :=
  match fuel with
  | O => false
  | S fuel =>
      match data with
      | [] => true
      | _ =>
          match readVarint data with
          | None => false
          | Some (tag, data) =>
              if (Z.shiftr tag 3 =? 0) || (536870911 <? Z.shiftr tag 3) then false
              else
                let field := Z.land tag 7 in
                if field =? 0 then
                  match readVarint data with Some (_, data) => wire_loop fuel data | None => false end
                else if field =? 1 then
                  if (length data <? 8)%nat then false else wire_loop fuel (drop 8 data)
                else if field =? 2 then
                  match readVarint data with
                  | Some (n, data) => if Z.of_nat (length data) <? n then false else wire_loop fuel (drop (Z.to_nat n) data)
                  | None => false
                  end
                else if field =? 5 then
                  if (length data <? 4)%nat then false else wire_loop fuel (drop 4 data)
                else false
          end
      end
  end.

(** src/src/parser/mieru_uri.cpp:128-166 [validProtobufWire] *)
Definition validProtobufWire (data : list Z) : bool :=
  match data with [] => false | _ => wire_loop (S (length data)) data end.

(** The check of the characters and the start of the padding. *)
Fixpoint padding_loop (i : nat) (padding_start : option nat) (s : str) : option (option nat) :=
  match s with
  | [] => Some padding_start
  | c :: s =>
      if is_char "=" c then padding_loop (S i) (Some (match padding_start with Some p => Nat.min p i | None => i end)) s
      else
        match padding_start with
        | Some _ => None
        | None => if isalnum c || is_char "+" c || is_char "/" c then padding_loop (S i) None s else None
        end
  end.

Fixpoint sextet_loop (accumulator bits : Z) (decoded : list Z) (s : str) : option (Z * Z * list Z) :=
  match s with
  | [] => Some (accumulator, bits, decoded)
  | c :: s =>
      match index_if (is_char c) base64_chars with
      | None => None
      | Some index =>
          let accumulator := u32 (Z.lor (Z.shiftl accumulator 6) (Z.of_nat index)) in
          let bits := bits + 6 in
          if 8 <=? bits then
            let bits := bits - 8 in
            sextet_loop accumulator bits (decoded ++ [Z.land (Z.shiftr accumulator bits) 255]) s
          else sextet_loop accumulator bits decoded s
      end
  end.

(** src/src/parser/mieru_uri.cpp:168-210 [decodeAndValidateProtobufBase64] *)
Definition decodeAndValidateProtobufBase64 (s : str) : bool :=
  if bool_decide (s = []) || negb (length s mod 4 =? 0)%nat then false
  else
    match padding_loop 0 None s with
    | None => false
    | Some p =>
        let padding_start := default (length s) p in
        let padding := (length s - padding_start)%nat in
        if (2 <? padding)%nat ||
           negb ((padding =? 0)%nat || ((padding =? 1)%nat && (padding_start mod 4 =? 3)%nat) ||
                 ((padding =? 2)%nat && (padding_start mod 4 =? 2)%nat)) then false
        else
          match sextet_loop 0 0 [] (take padding_start s) with
          | None => false
          | Some (accumulator, bits, decoded) =>
              if negb (bits =? 0) && negb (Z.land accumulator (Z.shiftl 1 bits - 1) =? 0) then false
              else validProtobufWire decoded
          end
    end.

(** src/src/parser/mieru_uri.cpp:263-268 [isValidMieruMultiplexing] *)
Definition isValidMieruMultiplexing (v : str) : bool :=
  existsb (fun k => bool_decide (v = k))
    [[]; "MULTIPLEXING_OFF"%str; "MULTIPLEXING_LOW"%str; "MULTIPLEXING_MIDDLE"%str; "MULTIPLEXING_HIGH"%str].

(** src/src/parser/mieru_uri.cpp:270-273 [isValidMieruHandshakeMode] *)
Definition isValidMieruHandshakeMode (v : str) : bool :=
  existsb (fun k => bool_decide (v = k)) [[]; "HANDSHAKE_STANDARD"%str; "HANDSHAKE_NO_WAIT"%str].

(** src/src/parser/mieru_uri.cpp:275-277 [isValidMieruTrafficPattern] *)
Definition isValidMieruTrafficPattern (v : str) : bool :=
  bool_decide (v = []) || decodeAndValidateProtobufBase64 v.

(** ** Ports *)

(** src/src/parser/mieru_uri.h:8-12 [MieruPortBinding] *)
Record MieruPortBinding := mkBinding { port : str; protocol : str; is_range : bool }.

(** src/src/parser/mieru_uri.cpp:279-307 [parseMieruPortBinding] *)
Definition parseMieruPortBinding (p proto : str) : option MieruPortBinding :=
  if negb (bool_decide (proto = "TCP"%str)) && negb (bool_decide (proto = "UDP"%str)) then None
  else
    match find_char "-" p 0 with
    | None =>
        match parseUnsigned p 1 65535 with
        | None => None
        | Some first => Some (mkBinding (to_string first) proto false)
        end
    | Some dash =>
        if (dash =? 0)%nat || (length p <=? dash + 1)%nat || bool_decide (is_Some (find_char "-" p (dash + 1))) then None
        else
          match parseUnsigned (substr p 0 dash) 1 65535, parseUnsigned (drop (dash + 1) p) 1 65535 with
          | Some first, Some last =>
              if last <? first then None
              else Some (mkBinding (to_string first ++ "-"%str ++ to_string last) proto true)
          | _, _ => None
          end
    end.

(** ** The link *)

(** src/src/parser/mieru_uri.h:14-26 [MieruSimpleConfig] *)
Record MieruSimpleConfig := mkConfig {
  username : str; password : str; host : str; profile : str; multiplexing : str; handshake_mode : str;
  traffic_pattern : str; remark : str; mtu : Z; has_unknown_parameters : bool;
  port_bindings : list MieruPortBinding
}.

(** [values[key].emplace_back(value)]. *)
Definition add_value (kv : str * str) (m : gmap str (list str)) : gmap str (list str) :=
  <[kv.1 := default [] (m !! kv.1) ++ [kv.2]]> m.

Fixpoint query_loop (fuel : nat) (m : gmap str (list str)) (q : str) : option (gmap str (list str)) :=
  match fuel with
  | O => None
  | S fuel =>
      let separator := find_char "&" q 0 in
      let part := substr q 0 (default (length q) separator) in
      let continue_ m := match separator with None => Some m | Some e => query_loop fuel m (drop (e + 1) q) end in
      match part with
      | [] => continue_ m
      | _ =>
          let equals := find_char "=" part 0 in
          let raw_key := substr part 0 (default (length part) equals) in
          let raw_value := match equals with None => [] | Some e => drop (e + 1) part end in
          match percentDecode true raw_key, percentDecode true raw_value with
          | Some key, Some value => continue_ (add_value (key, value) m)
          | _, _ => None
          end
      end
  end.

(** src/src/parser/mieru_uri.cpp:214-240 [parseQuery] *)
Definition parseQuery (q : str) : option (gmap str (list str)) := query_loop (S (length q)) ∅ q.

(** src/src/parser/mieru_uri.cpp:248-259 [readSingleton] *)
Definition readSingleton (m : gmap str (list str)) (key : str) (required : bool) : option str :=
  match m !! key with
  | None => if required then None else Some []
  | Some [v] => if bool_decide (v = []) then None else Some v
  | Some _ => None
  end.

(** src/src/parser/mieru_uri.cpp:330-360 [parseMieruSimpleUri, authority]
    User name, password and host of the part before the query. *)
Definition parse_authority (body : str) : option (str * str * str) :=
  if bool_decide (body = []) || bool_decide ("/"%char ∈ body) then None
  else
    match last_index_if (is_char "@") body with
    | None => None
    | Some at_ =>
        if (at_ =? 0)%nat || (length body <=? at_ + 1)%nat then None
        else
          let userinfo := substr body 0 at_ in
          match find_char ":" userinfo 0 with
          | None => None
          | Some colon =>
              if (colon =? 0)%nat || (length userinfo <=? colon + 1)%nat then None
              else
                match percentDecode false (substr userinfo 0 colon), percentDecode false (drop (colon + 1) userinfo) with
                | Some user, Some pass =>
                    if bool_decide (user = []) || bool_decide (pass = []) then None
                    else
                      let authority := drop (at_ + 1) body in
                      let bracket := is_char "[" (hd "000"%char authority) in
                      let h :=
                        if bracket then
                          if (length authority <? 3)%nat || negb (is_char "]" (List.last authority "000"%char)) then None
                          else percentDecode false (substr authority 1 (length authority - 2))
                        else if bool_decide (":"%char ∈ authority) then None
                        else percentDecode false authority in
                      match h with
                      | None => None
                      | Some h =>
                          if negb (validMieruHost h) || (negb bracket && bool_decide (":"%char ∈ h)) then None
                          else Some (user, pass, h)
                      end
                | _, _ => None
                end
          end
    end.

(** src/src/parser/mieru_uri.cpp:391-402 [parseMieruSimpleUri, ports] *)
Definition parse_ports (m : gmap str (list str)) : option (list MieruPortBinding) :=
  match m !! "port"%str, m !! "protocol"%str with
  | Some ports, Some protocols =>
      if bool_decide (ports = []) || negb (length ports =? length protocols)%nat then None
      else mapM (fun pp => parseMieruPortBinding pp.1 pp.2) (zip ports protocols)
  | _, _ => None
  end.

(** src/src/parser/mieru_uri.cpp:365-405 [parseMieruSimpleUri, the parameters of the query] *)
Definition read_parameters (user pass h remark : str) (m : gmap str (list str)) : option MieruSimpleConfig :=
  let unknown := existsb (fun kv => negb (knownMieruQueryKey kv.1)) (map_to_list m) in
  profile ← readSingleton m "profile" true;
  mult ← readSingleton m "multiplexing" false;
  hs ← readSingleton m "handshake-mode" false;
  tp ← readSingleton m "traffic-pattern" false;
  if negb (isValidMieruMultiplexing mult) || negb (isValidMieruHandshakeMode hs)
     || negb (isValidMieruTrafficPattern tp) then None
  else
    mtu_text ← readSingleton m "mtu" false;
    mtu ← (match mtu_text with [] => Some 0 | _ => u16 <$> parseUnsigned mtu_text 1280 1400 end);
    bindings ← parse_ports m;
    Some (mkConfig user pass h profile mult hs tp remark mtu unknown bindings).

(** src/src/parser/mieru_uri.cpp:309-406 [parseMieruSimpleUri] *)
Definition parseMieruSimpleUri (uri : str) : option MieruSimpleConfig :=
  if (length uri <=? 9)%nat || negb (bool_decide (take 9 uri = "mierus://"%str)) then None
  else
    let body := drop 9 uri in
    let fragment_pos := find_char "#" body 0 in
    match (match fragment_pos with None => Some [] | Some f => percentDecode false (drop (f + 1) body) end) with
    | None => None
    | Some remark =>
        let body := match fragment_pos with None => body | Some f => substr body 0 f end in
        let query_pos := find_char "?" body 0 in
        let raw_query := match query_pos with None => [] | Some q => drop (q + 1) body end in
        let body := match query_pos with None => body | Some q => substr body 0 q end in
        '(user, pass, h) ← parse_authority body;
        m ← parseQuery raw_query;
        read_parameters user pass h remark m
    end.

(** The query parameters in the order in which they are written. *)
Definition query_parameters (c : MieruSimpleConfig) (bindings : list MieruPortBinding) : list str :=
  let query := appendQueryParameter "profile" (profile c) [] in
  let query := if mtu c =? 0 then query else appendQueryParameter "mtu" (to_string (mtu c)) query in
  let query := appendQueryParameter "multiplexing" (multiplexing c) query in
  let query := appendQueryParameter "handshake-mode" (handshake_mode c) query in
  let query := appendQueryParameter "traffic-pattern" (traffic_pattern c) query in
  let query := foldl (fun q b => appendQueryParameter "port" (port b) q) query bindings in
  foldl (fun q b => appendQueryParameter "protocol" (protocol b) q) query bindings.

(** src/src/parser/mieru_uri.cpp:408-454 [buildMieruSimpleUri] *)
Definition buildMieruSimpleUri (c : MieruSimpleConfig) : option str :=
  if bool_decide (username c = []) || bool_decide (password c = []) || negb (validMieruHost (host c))
     || bool_decide (profile c = []) || has_unknown_parameters c
     || (negb (mtu c =? 0) && ((mtu c <? 1280) || (1400 <? mtu c)))
     || negb (isValidMieruMultiplexing (multiplexing c)) || negb (isValidMieruHandshakeMode (handshake_mode c))
     || negb (isValidMieruTrafficPattern (traffic_pattern c)) || bool_decide (port_bindings c = []) then None
  else
    match mapM (fun b => parseMieruPortBinding (port b) (protocol b)) (port_bindings c) with
    | None => None
    | Some bindings =>
        let authority := if negb (bool_decide (":"%char ∈ host c)) then percentEncode (host c)
                         else "["%str ++ host c ++ "]"%str in
        Some ("mierus://"%str ++ percentEncode (username c) ++ ":"%str ++ percentEncode (password c) ++ "@"%str ++
              authority ++ "?"%str ++ join (query_parameters c bindings) "&"%str ++
              (if bool_decide (remark c = []) then [] else "#"%str ++ percentEncode (remark c)))
    end.

(** ** The codec *)

Definition no_control (s : str) : Prop := Forall (fun c => iscntrl c = false) s.

(** The bytes an encoded text can contain. *)
Definition encoded_byte (c : ascii) : bool := isalnum c || one_of "-._~%"%str c.

Definition encode_byte_ok (c : ascii) : bool :=
  if isupper c || islower c || isdigit c || one_of "-._~"%str c
  then negb (is_char "%" c) && negb (is_char "+" c) && encoded_byte c
  else bool_decide (hexValue (hex_digit (Z.shiftr (code c) 4)) = Some (code c / 16)) &&
       bool_decide (hexValue (hex_digit (Z.land (code c) 15)) = Some (code c mod 16)) &&
       bool_decide (chr (Z.lor (Z.shiftl (code c / 16) 4) (code c mod 16)) = c) &&
       encoded_byte (hex_digit (Z.shiftr (code c) 4)) && encoded_byte (hex_digit (Z.land (code c) 15)).

Lemma encode_byte_spec c : encode_byte_ok c = true.
Proof. revert c. apply all_bytes_spec. vm_compute. reflexivity. Qed.

#[export] Instance percent_codec plus : Codec no_control percentEncode (percentDecode plus).
Proof.
  intros s Hs. induction Hs as [|c s Hc Hs IH]; [done|]. cbn [percentEncode].
  pose proof (encode_byte_spec c) as Hb. unfold encode_byte_ok in Hb.
  destruct (isupper c || islower c || isdigit c || one_of "-._~"%str c).
  - apply andb_true_iff in Hb as [Hb _]. apply andb_true_iff in Hb as [H1 H2]. apply negb_true_iff in H1, H2.
    cbn [percentDecode]. rewrite H1, H2, andb_false_r, Hc, IH. done.
  - apply andb_true_iff in Hb as [Hb _]. apply andb_true_iff in Hb as [Hb _]. apply andb_true_iff in Hb as [Hb H3].
    apply andb_true_iff in Hb as [H1 H2]. bools.
    cbn [percentDecode]. change (is_char "%" "%") with true. cbv iota. rewrite H1, H2. cbv zeta.
    rewrite H3, Hc, IH. done.
Qed.

#[export] Instance percent_delimited : Delimited percentEncode encoded_byte.
Proof.
  intros s. induction s as [|c s IH]; intros d Hd; cbn [percentEncode] in Hd; [by apply elem_of_nil in Hd|].
  pose proof (encode_byte_spec c) as Hb. unfold encode_byte_ok in Hb.
  destruct (isupper c || islower c || isdigit c || one_of "-._~"%str c).
  - apply elem_of_cons in Hd as [->|Hd]; [|by apply IH]. apply andb_true_iff in Hb as [_ Hb]. done.
  - apply andb_true_iff in Hb as [Hb H5]. apply andb_true_iff in Hb as [_ H4].
    repeat (apply elem_of_cons in Hd as [->|Hd]; [done|]). by apply IH.
Qed.

Lemma decode_encode plus s : no_control s -> percentDecode plus (percentEncode s) = Some s.
Proof. apply codec_roundtrip. Qed.

Lemma encode_nil s : percentEncode s = [] <-> s = [].
Proof. destruct s as [|c s]; [done|]. simpl. by split_if. Qed.

(** Text without escapes is decoded to itself. *)
Lemma decode_plain plus s :
  Forall (fun c => iscntrl c = false /\ is_char "%" c = false /\ plus && is_char "+" c = false) s ->
  percentDecode plus s = Some s.
Proof.
  induction 1 as [|c s (H1 & H2 & H3) Hs IH]; [done|]. cbn [percentDecode]. by rewrite H2, H3, H1, IH.
Qed.

(** ** Numbers and ports *)

Lemma unsigned_loop_digits maximum s acc :
  9 <= maximum < 2 ^ 32 -> Forall (fun c => isdigit c = true) s -> 0 <= acc ->
  digits_value acc s <= maximum -> unsigned_loop maximum acc s = Some (digits_value acc s).
Proof.
  intros Hm Hs. revert acc. induction Hs as [|c s Hc Hs IH]; intros acc Ha Hle; [done|].
  cbn [unsigned_loop digits_value] in *. rewrite Hc in *. fold (digit_value c).
  assert (Hd : 0 <= digit_value c <= 9).
  { unfold isdigit, between, digit_value in *. apply andb_true_iff in Hc as [H1 H2]. lia. }
  assert (Hge : acc * 10 + digit_value c <= digits_value (acc * 10 + digit_value c) s).
  { clear -Hs Ha Hd. assert (Hz : 0 <= acc * 10 + digit_value c) by lia. revert Hz.
    generalize (acc * 10 + digit_value c). induction Hs as [|e s He Hs IH]; intros z Hz; cbn [digits_value]; [lia|].
    rewrite He. assert (0 <= digit_value e).
    { unfold isdigit, between, digit_value in *. apply andb_true_iff in He as [H1 H2]. lia. }
    etransitivity; [|apply IH; lia]. lia. }
  cbv zeta. change (code c - 48) with (digit_value c). rewrite (u32_small (maximum - digit_value c)) by lia.
  destruct (Z.ltb_spec ((maximum - digit_value c) / 10) acc) as [Hlt|_].
  { exfalso. revert Hlt. apply Z.le_ngt. apply Z.div_le_lower_bound; lia. }
  rewrite u64_add_idemp_l, u64_small by lia. apply IH; lia.
Qed.

Lemma parseUnsigned_to_string n minimum maximum :
  9 <= maximum < 2 ^ 32 -> 0 <= minimum <= n -> n <= maximum -> parseUnsigned (to_string n) minimum maximum = Some n.
Proof.
  intros Hm Hn Hle. destruct (to_string_ok n) as (H1 & H2 & H3); [unfold is_u64; lia|].
  unfold parseUnsigned. rewrite bool_decide_false by done.
  assert (Hf : forallb isdigit (to_string n) = true).
  { apply forallb_forall. intros c Hc. rewrite Forall_forall in H1. apply H1. by apply list_elem_of_In. }
  rewrite Hf. simpl. rewrite unsigned_loop_digits by (try done; lia). rewrite H3.
  destruct (Z.ltb_spec n minimum); [lia|]. by rewrite u32_small by lia.
Qed.

Lemma parseUnsigned_range s minimum maximum n :
  9 <= maximum < 2 ^ 32 -> parseUnsigned s minimum maximum = Some n -> minimum <= n <= maximum.
Proof.
  intros Hm. unfold parseUnsigned. destruct (_ || _) eqn:Eb; [done|].
  apply orb_false_iff in Eb as [_ Hd]. apply negb_false_iff in Hd.
  assert (Hloop : forall s acc, forallb isdigit s = true -> 0 <= acc <= maximum ->
    match unsigned_loop maximum acc s with Some r => 0 <= r <= maximum | None => True end).
  { clear s Hd. induction s as [|c s IH]; intros acc Hf Ha; cbn [unsigned_loop]; [done|].
    simpl in Hf. apply andb_true_iff in Hf as [Hc Hf].
    assert (Hd : 0 <= code c - 48 <= 9).
    { unfold isdigit, between in Hc. apply andb_true_iff in Hc as [H1 H2]. lia. }
    cbv zeta. rewrite (u32_small (maximum - (code c - 48))) by lia.
    destruct (Z.ltb_spec ((maximum - (code c - 48)) / 10) acc); [done|].
    assert (acc * 10 + (code c - 48) <= maximum) by divlia.
    apply IH; [done|]. rewrite u64_add_idemp_l, u64_small by lia. lia. }
  specialize (Hloop s 0 Hd ltac:(lia)). destruct (unsigned_loop maximum 0 s) as [r|]; [|done].
  destruct (Z.ltb_spec r minimum); [done|]. intros [= <-]. rewrite u32_small by lia. lia.
Qed.

Lemma to_string_no_dash n : is_u64 n -> "-"%char ∉ to_string n.
Proof.
  intros Hn Hin. destruct (to_string_ok n Hn) as (H & _). rewrite Forall_forall in H. by apply H in Hin.
Qed.

(** A port binding that was accepted is in normal form. *)
Lemma binding_normal p proto b :
  parseMieruPortBinding p proto = Some b ->
  parseMieruPortBinding (port b) (protocol b) = Some b /\ protocol b = proto /\
  (proto = "TCP"%str \/ proto = "UDP"%str) /\ port b <> [] /\ no_control (port b).
Proof.
  unfold parseMieruPortBinding at 1.
  destruct (negb (bool_decide (proto = "TCP"%str)) && negb (bool_decide (proto = "UDP"%str))) eqn:Ep; [done|].
  assert (Hproto : proto = "TCP"%str \/ proto = "UDP"%str).
  { apply andb_false_iff in Ep as [Ep|Ep]; apply negb_false_iff, bool_decide_eq_true in Ep; auto. }
  assert (Hnc : forall n, is_u64 n -> no_control (to_string n)).
  { intros n Hn. destruct (to_string_ok n Hn) as (H & _). eapply Forall_impl; [exact H|].
    intros c Hc. unfold isdigit, iscntrl, between in *. apply andb_true_iff in Hc as [H1 H2].
    apply orb_false_iff. split; [apply andb_false_iff; right; apply Z.leb_gt; lia|apply Z.eqb_neq; lia]. }
  destruct (find_char "-" p 0) as [dash|].
  - destruct (_ || _ || _); [done|].
    destruct (parseUnsigned (substr p 0 dash) 1 65535) as [first|] eqn:E1; [|done].
    destruct (parseUnsigned (drop (dash + 1) p) 1 65535) as [last|] eqn:E2; [|done].
    destruct (Z.ltb_spec last first) as [|Hle]; [done|]. intros [= <-].
    apply parseUnsigned_range in E1, E2; [|lia..].
    assert (Hf : is_u64 first) by (unfold is_u64; lia). assert (Hl : is_u64 last) by (unfold is_u64; lia).
    cbn [port protocol]. destruct (to_string_ok first Hf) as (_ & Hfn & _), (to_string_ok last Hl) as (_ & Hln & _).
    split_and!; [|done|done| |].
    + unfold parseMieruPortBinding. rewrite Ep.
      assert (Hdash : find_char "-" (to_string first ++ "-"%char :: to_string last) 0 = Some (length (to_string first)))
        by (apply find_char_app, to_string_no_dash, Hf).
      rewrite Hdash.
      assert (Hdrop : drop (length (to_string first) + 1) (to_string first ++ "-"%char :: to_string last) = to_string last).
      { rewrite drop_app_ge by lia. by replace (length (to_string first) + 1 - length (to_string first))%nat with 1%nat by lia. }
      assert (Hnodash : find_char "-" (to_string first ++ "-"%char :: to_string last) (length (to_string first) + 1) = None).
      { unfold find_char, find_if. rewrite Hdrop. apply fmap_None. apply index_if_None.
        intros c Hc. apply bool_decide_eq_false. intros ->. by apply to_string_no_dash in Hc. }
      rewrite Hnodash, Hdrop. unfold substr. rewrite drop_0, take_app_length.
      rewrite !parseUnsigned_to_string by lia.
      destruct (Z.ltb_spec last first); [lia|].
      destruct (Nat.eqb_spec (length (to_string first)) 0) as [H0|_]; [by apply nil_length_inv in H0|].
      destruct (Nat.leb_spec (length (to_string first ++ "-"%char :: to_string last)) (length (to_string first) + 1)) as [Hl1|_].
      { rewrite length_app in Hl1. simpl in Hl1. destruct (to_string last); [done|simpl in Hl1; lia]. }
      rewrite bool_decide_false by (intros [? ?]; done). done.
    + destruct (to_string first); done.
    + apply Forall_app. split; [by apply Hnc|]. constructor; [done|by apply Hnc].
  - destruct (parseUnsigned p 1 65535) as [first|] eqn:E1; [|done]. intros [= <-].
    apply parseUnsigned_range in E1; [|lia]. assert (Hf : is_u64 first) by (unfold is_u64; lia).
    cbn [port protocol]. destruct (to_string_ok first Hf) as (_ & Hfn & _). split_and!; [|done|done|done|by apply Hnc].
    unfold parseMieruPortBinding. rewrite Ep.
    assert (Hdash : find_char "-" (to_string first) 0 = None) by (apply find_char_None, to_string_no_dash, Hf).
    rewrite Hdash, parseUnsigned_to_string by lia. done.
Qed.

(** ** The query *)

(** A parameter as it is written. *)
Definition parameter_text (e : str * str) : str := e.1 ++ "="%str ++ percentEncode e.2.

(** A key that is written as it is: letters and hyphens. *)
Definition key_byte (c : ascii) : bool := islower c || is_char "-" c.

Definition key_byte_ok (c : ascii) : bool :=
  negb (key_byte c) || negb (iscntrl c || is_char "%" c || is_char "+" c || is_char "&" c || is_char "=" c || is_char "#" c).

Lemma key_byte_spec c :
  key_byte c = true ->
  iscntrl c = false /\ is_char "%" c = false /\ is_char "+" c = false /\ c <> "&"%char /\ c <> "="%char /\ c <> "#"%char.
Proof.
  intros Hk. assert (H : key_byte_ok c = true) by (revert c Hk; intros c _; revert c; apply all_bytes_spec; vm_compute; reflexivity).
  unfold key_byte_ok in H. rewrite Hk in H. cbn [negb orb] in H. apply negb_true_iff in H.
  do 5 (apply orb_false_iff in H as [H ?]). split_and!; try done; intros ->; discriminate.
Qed.

Definition parameter_ok (e : str * str) : Prop :=
  e.1 <> [] /\ Forall (fun c => key_byte c = true) e.1 /\ e.2 <> [] /\ no_control e.2.

Lemma not_in_encode s c : encoded_byte c = false -> c ∉ percentEncode s.
Proof. apply delimited_not_in. apply _. Qed.

Lemma not_in_key k c : Forall (fun c => key_byte c = true) k -> key_byte c = false -> c ∉ k.
Proof. intros Hk Hc Hin. rewrite Forall_forall in Hk. apply Hk in Hin. congruence. Qed.

Lemma not_in_parameter e c :
  parameter_ok e -> encoded_byte c = false -> key_byte c = false -> c <> "="%char -> c ∉ parameter_text e.
Proof.
  intros (_ & Hk & _) Hc1 Hc2 Hc3. unfold parameter_text. rewrite !not_elem_of_app. split_and!.
  - by apply not_in_key.
  - intros H. apply list_elem_of_singleton in H. done.
  - by apply not_in_encode.
Qed.

Lemma query_loop_last fuel m e :
  parameter_ok e -> query_loop (S fuel) m (parameter_text e) = Some (add_value e m).
Proof.
  intros He. cbn [query_loop].
  assert (Hamp : find_char "&" (parameter_text e) 0 = None) by (by apply find_char_None, not_in_parameter).
  rewrite Hamp. cbn [from_option id].
  replace (substr (parameter_text e) 0 (length (parameter_text e))) with (parameter_text e)
    by (unfold substr; by rewrite drop_0, firstn_all).
  destruct He as (Hne & Hk & Hv & Hc).
  assert (Heq : find_char "=" (parameter_text e) 0 = Some (length e.1)) by (by apply find_char_app, not_in_key).
  assert (Hkey : percentDecode true e.1 = Some e.1).
  { apply decode_plain. eapply Forall_impl; [exact Hk|]. intros c Hkc. apply key_byte_spec in Hkc. by destruct_and?. }
  destruct (parameter_text e) as [|c s] eqn:Htext.
  { unfold parameter_text in Htext. by apply app_eq_nil in Htext as [? _]. }
  rewrite <- Htext. rewrite <- Htext in Heq. rewrite Heq. cbn [from_option id].
  unfold substr, parameter_text. rewrite drop_0, take_app_length.
  rewrite drop_app_ge by lia. replace (length e.1 + 1 - length e.1)%nat with 1%nat by lia. cbn [drop app].
  rewrite drop_0, Hkey, decode_encode by done. by destruct e.
Qed.

Lemma query_loop_more fuel m e rest :
  parameter_ok e ->
  query_loop (S fuel) m (parameter_text e ++ "&"%char :: rest) = query_loop fuel (add_value e m) rest.
Proof.
  intros He. pose proof (query_loop_last 0 m e He) as Hlast. cbn [query_loop] in Hlast |- *.
  assert (Hamp : find_char "&" (parameter_text e) 0 = None) by (by apply find_char_None, not_in_parameter).
  assert (Hamp' : find_char "&" (parameter_text e ++ "&"%char :: rest) 0 = Some (length (parameter_text e)))
    by (by apply find_char_app, not_in_parameter).
  rewrite Hamp in Hlast. rewrite Hamp'. cbn [from_option id] in *.
  replace (substr (parameter_text e ++ "&"%char :: rest) 0 (length (parameter_text e))) with (parameter_text e)
    by (unfold substr; by rewrite drop_0, take_app_length).
  replace (drop (length (parameter_text e) + 1) (parameter_text e ++ "&"%char :: rest)) with rest
    by (rewrite drop_app_ge by lia; by replace (length (parameter_text e) + 1 - length (parameter_text e))%nat with 1%nat by lia).
  replace (substr (parameter_text e) 0 (length (parameter_text e))) with (parameter_text e) in Hlast
    by (unfold substr; by rewrite drop_0, firstn_all).
  assert (Htext : exists c s, parameter_text e = c :: s).
  { destruct He as (Hne & _). unfold parameter_text. destruct e.1 as [|c s]; [done|]. simpl. eauto. }
  destruct Htext as (c & s & Htext). rewrite Htext in *.
  destruct (percentDecode true (substr (c :: s) 0 (default (length (c :: s)) (find_char "=" (c :: s) 0)))) as [k|]; [|done].
  destruct (percentDecode true match find_char "=" (c :: s) 0 with Some e0 => drop (e0 + 1) (c :: s) | None => [] end) as [v|];
    [|done].
  by injection Hlast as ->.
Qed.

Lemma query_loop_entries es fuel m :
  Forall parameter_ok es -> es <> [] -> (length es <= fuel)%nat ->
  query_loop fuel m (join (parameter_text <$> es) "&"%str) = Some (foldl (fun m e => add_value e m) m es).
Proof.
  intros Hes. revert fuel m. induction Hes as [|e es He Hes IH]; intros fuel m Hne Hf; [done|].
  destruct fuel as [|fuel]; [simpl in Hf; lia|]. destruct es as [|e' es].
  - by apply query_loop_last.
  - rewrite fmap_cons, join_cons by done. simpl app. rewrite query_loop_more by done.
    cbn [foldl]. apply IH; [done|simpl in *; lia].
Qed.

Definition values_of (k : str) (es : list (str * str)) : list str := (filter (fun e => e.1 = k) es).*2.

Lemma add_values_lookup es m k :
  foldl (fun m e => add_value e m) m es !! k =
  match values_of k es with [] => m !! k | vs => Some (default [] (m !! k) ++ vs) end.
Proof.
  unfold values_of. revert m. induction es as [|[k' v] es IH]; intros m; [done|]. cbn [foldl]. rewrite IH.
  rewrite filter_cons. cbn [fst]. unfold add_value. cbn [fst snd]. destruct (decide (k' = k)) as [->|Hne].
  - rewrite lookup_insert_eq. cbn [from_option id fmap list_fmap snd].
    destruct (filter _ es).*2; [done|]. by rewrite <- app_assoc.
  - by rewrite !lookup_insert_ne.
Qed.

Lemma values_of_app k es es' : values_of k (es ++ es') = values_of k es ++ values_of k es'.
Proof. unfold values_of. by rewrite filter_app, fmap_app. Qed.

(** The parameters of a link as pairs; empty values are left out. *)
Definition optional (k v : str) : list (str * str) := if bool_decide (v = []) then [] else [(k, v)].

Definition query_entries (c : MieruSimpleConfig) (bs : list MieruPortBinding) : list (str * str) :=
  optional "profile" (profile c) ++ (if mtu c =? 0 then [] else optional "mtu" (to_string (mtu c))) ++
  optional "multiplexing" (multiplexing c) ++ optional "handshake-mode" (handshake_mode c) ++
  optional "traffic-pattern" (traffic_pattern c) ++
  ((fun b => ("port"%str, port b)) <$> bs) ++ ((fun b => ("protocol"%str, protocol b)) <$> bs).

Lemma appendQueryParameter_text k v es :
  appendQueryParameter k v (parameter_text <$> es) = parameter_text <$> (es ++ optional k v).
Proof.
  unfold appendQueryParameter, optional. case_bool_decide; [by rewrite app_nil_r|]. by rewrite fmap_app.
Qed.

Lemma append_bindings_text (f : MieruPortBinding -> str) k bs es :
  Forall (fun b => f b <> []) bs ->
  foldl (fun q b => appendQueryParameter k (f b) q) (parameter_text <$> es) bs =
  parameter_text <$> (es ++ ((fun b => (k, f b)) <$> bs)).
Proof.
  intros Hbs. revert es. induction Hbs as [|b bs Hb Hbs IH]; intros es; [by rewrite app_nil_r|].
  cbn [foldl]. rewrite appendQueryParameter_text, IH. unfold optional. rewrite bool_decide_false by done.
  by rewrite <- app_assoc.
Qed.

Lemma query_parameters_text c bs :
  Forall (fun b => port b <> [] /\ protocol b <> []) bs ->
  query_parameters c bs = parameter_text <$> query_entries c bs.
Proof.
  intros Hbs. unfold query_parameters, query_entries.
  rewrite <- (fmap_nil parameter_text), appendQueryParameter_text. cbv zeta.
  assert (Hmtu : (if mtu c =? 0 then parameter_text <$> ([] ++ optional "profile" (profile c))
    else appendQueryParameter "mtu" (to_string (mtu c)) (parameter_text <$> ([] ++ optional "profile" (profile c)))) =
    parameter_text <$> (optional "profile" (profile c) ++ (if mtu c =? 0 then [] else optional "mtu" (to_string (mtu c))))).
  { destruct (mtu c =? 0); [by rewrite app_nil_r|]. by rewrite appendQueryParameter_text. }
  rewrite Hmtu, !appendQueryParameter_text.
  rewrite (append_bindings_text port), (append_bindings_text protocol).
  - by rewrite <- !app_assoc.
  - eapply Forall_impl; [exact Hbs|]. by intros b [_ ?].
  - eapply Forall_impl; [exact Hbs|]. by intros b [? _].
Qed.

Definition same_key (k k' : str) : bool := bool_decide (k = k').

Lemma values_of_optional k k' v :
  values_of k (optional k' v) = if same_key k' k then (if bool_decide (v = []) then [] else [v]) else [].
Proof.
  unfold optional, same_key, values_of. case_bool_decide; [by destruct (bool_decide (k' = k))|].
  rewrite filter_cons. cbn [fst]. rewrite filter_nil. by destruct (decide (k' = k)) as [->|Hn];
    [rewrite bool_decide_true|rewrite bool_decide_false].
Qed.

Lemma values_of_bindings (f : MieruPortBinding -> str) k k' bs :
  values_of k ((fun b => (k', f b)) <$> bs) = if same_key k' k then f <$> bs else [].
Proof.
  unfold same_key, values_of. case_bool_decide as Hk.
  - induction bs as [|b bs IH]; [done|]. csimpl. rewrite filter_cons. cbn [fst].
    rewrite decide_True by done. csimpl. by rewrite IH.
  - induction bs as [|b bs IH]; [done|]. csimpl. rewrite filter_cons. cbn [fst]. by rewrite decide_False.
Qed.

(** Evaluates the comparisons of parameter names. *)
Ltac eval_keys :=
  repeat match goal with
    | |- context [same_key ?a ?b] =>
        let r := eval vm_compute in (same_key a b) in change (same_key a b) with r; cbv iota
    end.

(** All values of one parameter of a link. *)
Lemma query_values c bs k :
  values_of k (query_entries c bs) =
  (if same_key "profile" k then (if bool_decide (profile c = []) then [] else [profile c]) else []) ++
  (if mtu c =? 0 then [] else if same_key "mtu" k then
     (if bool_decide (to_string (mtu c) = []) then [] else [to_string (mtu c)]) else []) ++
  (if same_key "multiplexing" k then (if bool_decide (multiplexing c = []) then [] else [multiplexing c]) else []) ++
  (if same_key "handshake-mode" k then (if bool_decide (handshake_mode c = []) then [] else [handshake_mode c]) else []) ++
  (if same_key "traffic-pattern" k then (if bool_decide (traffic_pattern c = []) then [] else [traffic_pattern c]) else []) ++
  (if same_key "port" k then port <$> bs else []) ++ (if same_key "protocol" k then protocol <$> bs else []).
Proof.
  unfold query_entries. rewrite !values_of_app, !values_of_optional, (values_of_bindings port), (values_of_bindings protocol).
  destruct (mtu c =? 0); [done|]. by rewrite values_of_optional.
Qed.

Lemma readSingleton_spec (m : gmap str (list str)) k v required :
  m !! k = (if bool_decide (v = []) then None else Some [v]) -> (required = true -> v <> []) ->
  readSingleton m k required = Some v.
Proof.
  intros Hm Hr. unfold readSingleton. rewrite Hm. case_bool_decide as Hv.
  - destruct required; [by apply Hr in Hv|]. by rewrite Hv.
  - by rewrite bool_decide_false.
Qed.

(** ** Validated texts have no control characters *)

Lemma known_no_control v (ks : list str) :
  existsb (fun k => bool_decide (v = k)) ks = true -> Forall no_control ks -> no_control v.
Proof.
  intros H Hks. apply existsb_exists in H as (k & Hk & Hv). apply bool_decide_eq_true in Hv. subst k.
  rewrite Forall_forall in Hks. apply Hks. by apply list_elem_of_In.
Qed.

Lemma padding_loop_chars s i p r :
  padding_loop i p s = Some r -> Forall (fun c => isalnum c || is_char "+" c || is_char "/" c || is_char "=" c = true) s.
Proof.
  revert i p. induction s as [|c s IH]; intros i p H; [constructor|]. cbn [padding_loop] in H.
  destruct (is_char "=" c) eqn:Eq; [constructor; [by rewrite Eq, orb_true_r|by eapply IH]|].
  destruct p; [done|]. destruct (isalnum c || is_char "+" c || is_char "/" c) eqn:Ea; [|done].
  constructor; [by rewrite Ea|by eapply IH].
Qed.

Lemma traffic_no_control v : isValidMieruTrafficPattern v = true -> no_control v.
Proof.
  unfold isValidMieruTrafficPattern, decodeAndValidateProtobufBase64. intros H.
  apply orb_true_iff in H as [H|H]; [apply bool_decide_eq_true in H; subst v; constructor|].
  destruct (_ || _); [done|]. destruct (padding_loop 0 None v) as [p|] eqn:Ep; [|done].
  eapply Forall_impl; [by eapply padding_loop_chars|]. intros c Hc.
  assert (Hall : forall c, negb (isalnum c || is_char "+" c || is_char "/" c || is_char "=" c) || negb (iscntrl c) = true)
    by (apply all_bytes_spec; vm_compute; reflexivity).
  specialize (Hall c). rewrite Hc in Hall. simpl in Hall. by apply negb_true_iff.
Qed.

(** ** The authority *)

Lemma validHost_chars h :
  validMieruHost h = true ->
  h <> [] /\ no_control h /\ Forall (fun c => one_of "/?#@[]"%str c = false) h /\
  (":"%char ∈ h -> Forall (fun c => isxdigit c || is_char ":" c || is_char "." c = true) h).
Proof.
  unfold validMieruHost. destruct (_ || _ || _) eqn:E; [done|]. apply orb_false_iff in E as [E E3].
  apply orb_false_iff in E as [E1 E2]. apply bool_decide_eq_false in E1.
  assert (Hex : forall f : ascii -> bool, existsb f h = false -> Forall (fun c => f c = false) h).
  { intros f Hf. apply Forall_forall. intros c Hc. apply list_elem_of_In in Hc.
    destruct (f c) eqn:Efc; [|done]. assert (existsb f h = true) by (apply existsb_exists; eauto). congruence. }
  apply Hex in E2, E3. intros Hrest. split_and!; [done| |done|].
  - eapply Forall_impl; [exact E2|]. intros c Hc. by apply orb_false_iff in Hc as [_ ?].
  - intros Hin. destruct (existsb (is_char ":") h) eqn:Ec; simpl in Hrest.
    + apply Forall_forall. intros c Hc. apply list_elem_of_In in Hc. by eapply forallb_forall in Hrest.
    + apply Hex in Ec. rewrite Forall_forall in Ec. apply Ec in Hin. discriminate.
Qed.

Definition authority_text (h : str) : str :=
  if negb (bool_decide (":"%char ∈ h)) then percentEncode h else "["%str ++ h ++ "]"%str.

(** The host as the authority of a link is read back. *)
Lemma authority_host h :
  validMieruHost h = true ->
  let a := authority_text h in
  let bracket := is_char "[" (hd "000"%char a) in
  a <> [] /\
  (if bracket then
     if (length a <? 3)%nat || negb (is_char "]" (List.last a "000"%char)) then None
     else percentDecode false (substr a 1 (length a - 2))
   else if bool_decide (":"%char ∈ a) then None else percentDecode false a) = Some h /\
  (negb bracket && bool_decide (":"%char ∈ h)) = false.
Proof.
  intros Hv. destruct (validHost_chars h Hv) as (Hne & Hnc & Hsp & Hhex). unfold authority_text.
  destruct (bool_decide (":"%char ∈ h)) eqn:Ecolon; cbn [negb]; bools.
  - assert (Hdec : percentDecode false h = Some h).
    { apply decode_plain. apply Forall_forall. intros c Hc.
      unfold no_control in Hnc. rewrite Forall_forall in Hnc. specialize (Hhex Ecolon). rewrite Forall_forall in Hhex.
      split_and!; [by apply Hnc| |done]. specialize (Hhex c Hc).
      unfold is_char. apply bool_decide_eq_false. intros ->. discriminate. }
    set (a := "["%str ++ h ++ "]"%str). cbv zeta.
    assert (Hlen : length a = (length h + 2)%nat) by (subst a; rewrite !length_app; simpl; lia).
    assert (Hbr : is_char "[" (hd "000"%char a) = true) by reflexivity.
    assert (Hlast : List.last a "000"%char = "]"%char).
    { subst a. rewrite app_assoc. apply last_last. }
    rewrite Hbr, Hlast. cbn [negb andb]. split_and!; [done| |done].
    destruct (Nat.ltb_spec (length a) 3) as [Hlt|_].
    { destruct h; [done|]. rewrite Hlen in Hlt. simpl in Hlt. lia. }
    change (is_char "]" "]") with true. cbn [negb orb].
    replace (substr a 1 (length a - 2)) with h; [done|].
    rewrite Hlen. unfold substr, a. cbn [app drop].
    replace (length h + 2 - 2)%nat with (length h) by lia. rewrite drop_0. by rewrite take_app_length.
  - cbv zeta.
    assert (Hnot : forall c, encoded_byte c = false -> c ∉ percentEncode h) by (intros c; apply not_in_encode).
    assert (Hbr : is_char "[" (hd "000"%char (percentEncode h)) = false).
    { destruct (percentEncode h) as [|c s] eqn:E; [done|]. simpl. unfold is_char. apply bool_decide_eq_false.
      intros ->. apply (Hnot "["%char); [done|]. rewrite ?E. left. }
    rewrite Hbr. cbn [negb]. split_and!.
    + intros H. apply (proj1 (encode_nil _)) in H. congruence.
    + rewrite bool_decide_false by (by apply Hnot). by apply decode_encode.
    + done.
Qed.

Lemma authority_bytes h c :
  validMieruHost h = true -> one_of "/?#@"%str c = true -> c ∉ authority_text h.
Proof.
  intros Hv Hc. destruct (validHost_chars h Hv) as (_ & _ & Hsp & _). unfold authority_text.
  assert (Hc' : c ∈ "/?#@"%str) by (unfold one_of in Hc; by apply bool_decide_eq_true in Hc).
  assert (Hfacts : encoded_byte c = false /\ one_of "/?#@[]"%str c = true /\ c <> "["%char /\ c <> "]"%char).
  { repeat (apply elem_of_cons in Hc' as [->|Hc']; [by vm_compute|]). by apply elem_of_nil in Hc'. }
  destruct Hfacts as (He & Ho & H1 & H2). destruct (negb _).
  - by apply not_in_encode.
  - rewrite !not_elem_of_app. split_and!.
    + intros H. by apply list_elem_of_singleton in H.
    + intros H. rewrite Forall_forall in Hsp. apply Hsp in H. congruence.
    + intros H. by apply list_elem_of_singleton in H.
Qed.

Lemma parse_authority_text user pass h :
  user <> [] -> pass <> [] -> no_control user -> no_control pass -> validMieruHost h = true ->
  parse_authority (percentEncode user ++ ":"%str ++ percentEncode pass ++ "@"%str ++ authority_text h)
    = Some (user, pass, h).
Proof.
  intros Hu Hp Hcu Hcp Hv. destruct (authority_host h Hv) as (Hne & Hhost & Hbr).
  set (U := percentEncode user). set (P := percentEncode pass). set (A := authority_text h) in *.
  assert (HU : U <> []) by (intros H; apply (proj1 (encode_nil _)) in H; congruence).
  assert (HP : P <> []) by (intros H; apply (proj1 (encode_nil _)) in H; congruence).
  set (body := U ++ ":"%str ++ P ++ "@"%str ++ A).
  assert (Hbody : body = (U ++ ":"%char :: P) ++ "@"%char :: A) by (subst body; by rewrite <- app_assoc).
  assert (Hslash : "/"%char ∉ body).
  { subst body. rewrite !not_elem_of_app. split_and!; try (by apply not_in_encode);
      try (intros H; by apply list_elem_of_singleton in H). by apply authority_bytes. }
  unfold parse_authority. rewrite bool_decide_false by (subst body; destruct U; done).
  rewrite bool_decide_false by done. cbn [orb].
  assert (Hat : last_index_if (is_char "@") body = Some (length (U ++ ":"%char :: P))).
  { rewrite Hbody. apply last_index_if_app; [|done]. intros d Hd. unfold is_char. apply bool_decide_eq_false.
    intros ->. revert Hd. by apply authority_bytes. }
  rewrite Hat. destruct (Nat.eqb_spec (length (U ++ ":"%char :: P)) 0) as [H0|_].
  { rewrite length_app in H0. simpl in H0. lia. }
  destruct (Nat.leb_spec (length body) (length (U ++ ":"%char :: P) + 1)) as [H0|_].
  { rewrite Hbody, length_app in H0. destruct A; [done|]. simpl in H0. lia. }
  cbn [orb]. cbv zeta.
  assert (Hinfo : substr body 0 (length (U ++ ":"%char :: P)) = U ++ ":"%char :: P).
  { unfold substr. rewrite drop_0, Hbody. by rewrite take_app_length. }
  assert (Hdrop : drop (length (U ++ ":"%char :: P) + 1) body = A).
  { rewrite Hbody, drop_app_ge by lia.
    by replace (length (U ++ ":"%char :: P) + 1 - length (U ++ ":"%char :: P))%nat with 1%nat by lia. }
  rewrite Hinfo, Hdrop.
  assert (Hcolon : find_char ":" (U ++ ":"%char :: P) 0 = Some (length U)) by (by apply find_char_app, not_in_encode).
  rewrite Hcolon. destruct (Nat.eqb_spec (length U) 0) as [H0|_]; [by apply nil_length_inv in H0|].
  destruct (Nat.leb_spec (length (U ++ ":"%char :: P)) (length U + 1)) as [H0|_].
  { rewrite length_app in H0. destruct P; [done|]. simpl in H0. lia. }
  cbn [orb]. unfold substr at 1. rewrite drop_0, take_app_length.
  rewrite drop_app_ge by lia. replace (length U + 1 - length U)%nat with 1%nat by lia. cbn [drop]. rewrite drop_0.
  unfold U, P. rewrite !decode_encode by done.
  rewrite !bool_decide_false by done. cbn [orb]. rewrite Hhost, Hv, Hbr. done.
Qed.

(** ** The round trip *)

Lemma not_in_join c (l : list str) d : c ∉ d -> Forall (fun s => c ∉ s) l -> c ∉ join l d.
Proof.
  intros Hd Hl. induction Hl as [|s l Hs Hl IH]; [by apply not_elem_of_nil|].
  destruct l as [|s' l]; [done|]. rewrite join_cons by done. rewrite !not_elem_of_app. done.
Qed.

Lemma join_length (l : list str) d : (length l <= S (length (join l d)))%nat \/ d = [].
Proof.
  destruct d as [|x d]; [by right|left]. induction l as [|s [|s' l] IH]; [simpl; lia..|].
  rewrite join_cons by done. rewrite !length_app. simpl in *. lia.
Qed.

Lemma query_entries_ok c bs :
  no_control (profile c) -> 0 <= mtu c < 65536 ->
  isValidMieruMultiplexing (multiplexing c) = true -> isValidMieruHandshakeMode (handshake_mode c) = true ->
  isValidMieruTrafficPattern (traffic_pattern c) = true ->
  Forall (fun b => port b <> [] /\ no_control (port b) /\ (protocol b = "TCP"%str \/ protocol b = "UDP"%str)) bs ->
  Forall parameter_ok (query_entries c bs).
Proof.
  intros Hp Hm Hmu Hhs Htp Hbs.
  assert (Hopt : forall k v, k <> [] -> Forall (fun c => key_byte c = true) k -> no_control v ->
    Forall parameter_ok (optional k v)).
  { intros k v Hk1 Hk2 Hv. unfold optional. case_bool_decide; repeat constructor; done. }
  assert (Hkeys : forall k : str, forallb key_byte k = true -> Forall (fun c => key_byte c = true) k).
  { intros k Hk. apply Forall_forall. intros x Hx. apply list_elem_of_In in Hx. by eapply forallb_forall in Hk. }
  unfold query_entries. rewrite !Forall_app. split_and!.
  - apply Hopt; [done|by apply Hkeys|done].
  - destruct (mtu c =? 0); [constructor|]. apply Hopt; [done|by apply Hkeys|].
    destruct (to_string_ok (mtu c)) as (Hd & _); [unfold is_u64; lia|]. eapply Forall_impl; [exact Hd|].
    intros x Hx. assert (Hall : forall x, negb (isdigit x) || negb (iscntrl x) = true)
      by (apply all_bytes_spec; vm_compute; reflexivity).
    specialize (Hall x). rewrite Hx in Hall. simpl in Hall. by apply negb_true_iff.
  - apply Hopt; [done|by apply Hkeys|]. eapply known_no_control; [exact Hmu|]. repeat constructor.
  - apply Hopt; [done|by apply Hkeys|]. eapply known_no_control; [exact Hhs|]. repeat constructor.
  - apply Hopt; [done|by apply Hkeys|by apply traffic_no_control].
  - apply Forall_fmap. eapply Forall_impl; [exact Hbs|]. intros b (H1 & H2 & _).
    split_and!; [done|by apply Hkeys|done|done].
  - apply Forall_fmap. eapply Forall_impl; [exact Hbs|]. intros b (_ & _ & H3).
    split_and!; [done|by apply Hkeys| |]; simpl; destruct H3 as [-> | ->]; repeat constructor; done.
Qed.

Lemma link_values c bs k :
  (foldl (fun m e => add_value e m) (∅ : gmap str (list str)) (query_entries c bs)) !! k =
  match values_of k (query_entries c bs) with [] => None | vs => Some vs end.
Proof. rewrite add_values_lookup, lookup_empty. by destruct (values_of _ _). Qed.

(** Every key of the query of a link is a known one. *)
Lemma link_known c bs :
  existsb (fun kv => negb (knownMieruQueryKey kv.1))
    (map_to_list (foldl (fun m e => add_value e m) (∅ : gmap str (list str)) (query_entries c bs))) = false.
Proof.
  destruct (existsb _ _) eqn:E; [|done]. apply existsb_exists in E as ([k vs] & Hin & Hk). exfalso.
  apply list_elem_of_In, elem_of_map_to_list in Hin. rewrite link_values, query_values in Hin. simpl in Hk.
  apply negb_true_iff in Hk. unfold knownMieruQueryKey, same_key in *. simpl in Hk.
  repeat (apply orb_false_iff in Hk as [?Hk Hk]).
  repeat match goal with H : bool_decide (k = ?a) = false |- _ =>
    apply bool_decide_eq_false in H; rewrite (bool_decide_false (a = k)) in Hin by congruence end.
  destruct (mtu c =? 0); done.
Qed.

Lemma normal_bindings (l bs : list MieruPortBinding) :
  mapM (fun b => parseMieruPortBinding (port b) (protocol b)) l = Some bs ->
  length bs = length l /\
  Forall (fun b => port b <> [] /\ no_control (port b) /\ (protocol b = "TCP"%str \/ protocol b = "UDP"%str)) bs /\
  mapM (fun pp => parseMieruPortBinding pp.1 pp.2) (zip (port <$> bs) (protocol <$> bs)) = Some bs.
Proof.
  revert bs. induction l as [|b l IH]; intros bs H; csimpl in H.
  - injection H as <-. split_and!; done || constructor.
  - destruct (parseMieruPortBinding (port b) (protocol b)) as [b'|] eqn:Eb; csimpl in H; [|done].
    destruct (mapM _ l) as [bs'|] eqn:Em; csimpl in H; [|done]. injection H as <-.
    destruct (IH bs' eq_refl) as (H1 & H2 & H3). apply binding_normal in Eb as (N1 & N2 & N3 & N4 & N5).
    split_and!; [simpl; lia|constructor; [rewrite N2; done|done]|].
    rewrite !fmap_cons. cbn [zip_with mapM fst snd]. rewrite N1. cbn [mbind option_bind]. by rewrite H3.
Qed.

(** The configuration as it is read back: the ports in normal form. *)
Definition normalized (c : MieruSimpleConfig) (bs : list MieruPortBinding) : MieruSimpleConfig :=
  mkConfig (username c) (password c) (host c) (profile c) (multiplexing c) (handshake_mode c) (traffic_pattern c)
    (remark c) (mtu c) false bs.

(** The query of a link gives the parameters back. *)
Lemma link_query c bs :
  no_control (profile c) -> profile c <> [] -> 0 <= mtu c < 65536 -> bs <> [] ->
  isValidMieruMultiplexing (multiplexing c) = true -> isValidMieruHandshakeMode (handshake_mode c) = true ->
  isValidMieruTrafficPattern (traffic_pattern c) = true ->
  Forall (fun b => port b <> [] /\ no_control (port b) /\ (protocol b = "TCP"%str \/ protocol b = "UDP"%str)) bs ->
  exists m, parseQuery (join (query_parameters c bs) "&"%str) = Some m /\
    existsb (fun kv => negb (knownMieruQueryKey kv.1)) (map_to_list m) = false /\
    readSingleton m "profile" true = Some (profile c) /\
    readSingleton m "multiplexing" false = Some (multiplexing c) /\
    readSingleton m "handshake-mode" false = Some (handshake_mode c) /\
    readSingleton m "traffic-pattern" false = Some (traffic_pattern c) /\
    readSingleton m "mtu" false = Some (if mtu c =? 0 then [] else to_string (mtu c)) /\
    m !! "port"%str = Some (port <$> bs) /\ m !! "protocol"%str = Some (protocol <$> bs).
Proof.
  intros Hp Hpn Hm Hbn Hmu Hhs Htp Hbs.
  pose proof (query_entries_ok c bs Hp Hm Hmu Hhs Htp Hbs) as Hok.
  assert (Htext : query_parameters c bs = parameter_text <$> query_entries c bs).
  { apply query_parameters_text. eapply Forall_impl; [exact Hbs|].
    intros b (H1 & _ & [H2|H2]); rewrite H2; split; done. }
  assert (Hne : query_entries c bs <> []).
  { unfold query_entries, optional. rewrite bool_decide_false by done. done. }
  exists (foldl (fun m e => add_value e m) ∅ (query_entries c bs)).
  split.
  { unfold parseQuery. rewrite Htext. apply query_loop_entries; [done|done|].
    destruct (join_length (parameter_text <$> query_entries c bs) "&"%str) as [Hl|]; [|done].
    by rewrite length_fmap in Hl. }
  split; [apply link_known|].
  assert (Hmtu : to_string (mtu c) <> []) by (apply to_string_ok; unfold is_u64; lia).
  assert (Hsingle : forall k v, values_of k (query_entries c bs) = (if bool_decide (v = []) then [] else [v]) ->
    foldl (fun m e => add_value e m) (∅ : gmap str (list str)) (query_entries c bs) !! k =
    (if bool_decide (v = []) then None else Some [v])).
  { intros k v Hv. rewrite link_values, Hv. by case_bool_decide. }
  split_and!.
  1-5: apply readSingleton_spec; [|done].
  1-5: apply Hsingle; rewrite query_values; eval_keys; rewrite ?app_nil_r; simpl app; destruct (mtu c =? 0) eqn:Em;
    rewrite ?app_nil_r; try done.
  all: rewrite link_values, query_values; eval_keys; destruct (mtu c =? 0); simpl app; rewrite ?app_nil_r;
    destruct bs; done.
Qed.

(** The text in front of a fragment and the fragment, when the text has no
    # of its own. *)
Definition fragment_text (r : str) : str :=
  if bool_decide (r = []) then [] else "#"%str ++ percentEncode r.

Lemma fragment_split BQ r :
  no_control r -> "#"%char ∉ BQ -> exists pos, find_char "#" (BQ ++ fragment_text r) 0 = pos /\
    match pos with None => Some [] | Some f => percentDecode false (drop (f + 1) (BQ ++ fragment_text r)) end = Some r /\
    match pos with None => BQ ++ fragment_text r | Some f => substr (BQ ++ fragment_text r) 0 f end = BQ.
Proof.
  intros Hctl HBQ. unfold fragment_text. case_bool_decide as Hr.
  - exists None. rewrite app_nil_r. split_and!; [by apply find_char_None|by rewrite Hr|done].
  - exists (Some (length BQ)). split_and!.
    + by apply find_char_app.
    + rewrite drop_app_ge by lia. replace (length BQ + 1 - length BQ)%nat with 1%nat by lia.
      cbn [drop app]. rewrite drop_0. by apply decode_encode.
    + unfold substr. by rewrite drop_0, take_app_length.
Qed.

(** The printed MTU is read back; no MTU is printed as nothing. *)
Lemma mtu_text_ok m :
  m = 0 \/ 1280 <= m <= 1400 ->
  match (if m =? 0 then [] else to_string m) with
  | [] => Some 0 | _ => u16 <$> parseUnsigned (if m =? 0 then [] else to_string m) 1280 1400 end = Some m.
Proof.
  intros [->|Hm]; [done|]. destruct (Z.eqb_spec m 0) as [->|Hm0]; [lia|].
  destruct (to_string m) as [|x s] eqn:Ets.
  { destruct (to_string_ok m) as (_ & Hts & _); [unfold is_u64; lia|done]. }
  rewrite <- Ets, parseUnsigned_to_string by (try lia). csimpl. unfold u16. rewrite Z.mod_small by lia. done.
Qed.

(** The part of a link between the scheme and the query. *)
Definition authority_part (c : MieruSimpleConfig) : str :=
  percentEncode (username c) ++ ":"%str ++ percentEncode (password c) ++ "@"%str ++ authority_text (host c).

Lemma authority_part_bytes c x :
  validMieruHost (host c) = true -> one_of "/?#"%str x = true -> x ∉ authority_part c.
Proof.
  intros Hv Hx. assert (Hx' : x ∈ "/?#"%str) by (unfold one_of in Hx; by apply bool_decide_eq_true in Hx).
  unfold authority_part. rewrite !not_elem_of_app.
  repeat (apply elem_of_cons in Hx' as [->|Hx']; [split_and!; try (by apply not_in_encode);
    try (intros Hc; by apply list_elem_of_singleton in Hc); by apply authority_bytes|]).
  by apply elem_of_nil in Hx'.
Qed.

(** A link falls apart at its first number sign and its first question mark. *)
Lemma parse_link B Q r user pass h m :
  "?"%char ∉ B -> "#"%char ∉ B -> "#"%char ∉ Q -> no_control r ->
  parse_authority B = Some (user, pass, h) -> parseQuery Q = Some m ->
  parseMieruSimpleUri ("mierus://"%str ++ B ++ "?"%char :: Q ++ fragment_text r) = read_parameters user pass h r m.
Proof.
  intros HB1 HB2 HQ Hr Ha Hq. unfold parseMieruSimpleUri. set (F := fragment_text r).
  destruct (Nat.leb_spec (length ("mierus://"%str ++ B ++ "?"%char :: Q ++ F)) 9) as [Hshort|_].
  { rewrite !length_app in Hshort. simpl in Hshort. rewrite !length_app in Hshort. lia. }
  change (take 9 ("mierus://"%str ++ B ++ "?"%char :: Q ++ F)) with "mierus://"%str.
  rewrite bool_decide_true by done. cbn [negb orb].
  change (drop 9 ("mierus://"%str ++ B ++ "?"%char :: Q ++ F)) with (drop 0 (B ++ "?"%char :: Q ++ F)).
  rewrite drop_0. cbv zeta. set (BQ := B ++ "?"%char :: Q).
  replace (B ++ "?"%char :: Q ++ F) with (BQ ++ F) by (subst BQ; by rewrite <- app_assoc).
  assert (HBQ : "#"%char ∉ BQ) by (subst BQ; rewrite not_elem_of_app, not_elem_of_cons; done).
  unfold F. destruct (fragment_split BQ r Hr HBQ) as (pos & -> & -> & ->).
  assert (Hquery : find_char "?" BQ 0 = Some (length B)) by (by apply find_char_app).
  rewrite Hquery.
  replace (drop (length B + 1) BQ) with Q
    by (subst BQ; rewrite drop_app_ge by lia; by replace (length B + 1 - length B)%nat with 1%nat by lia).
  replace (substr BQ 0 (length B)) with B by (unfold substr, BQ; by rewrite drop_0, take_app_length).
  rewrite Ha. cbn [mbind option_bind]. by rewrite Hq.
Qed.

(** The parameters of a printed link are read back. *)
Lemma read_printed c bs m :
  0 <= mtu c < 65536 -> bs <> [] ->
  (mtu c = 0 \/ 1280 <= mtu c <= 1400) ->
  isValidMieruMultiplexing (multiplexing c) = true -> isValidMieruHandshakeMode (handshake_mode c) = true ->
  isValidMieruTrafficPattern (traffic_pattern c) = true ->
  mapM (fun pp => parseMieruPortBinding pp.1 pp.2) (zip (port <$> bs) (protocol <$> bs)) = Some bs ->
  existsb (fun kv => negb (knownMieruQueryKey kv.1)) (map_to_list m) = false ->
  readSingleton m "profile" true = Some (profile c) ->
  readSingleton m "multiplexing" false = Some (multiplexing c) ->
  readSingleton m "handshake-mode" false = Some (handshake_mode c) ->
  readSingleton m "traffic-pattern" false = Some (traffic_pattern c) ->
  readSingleton m "mtu" false = Some (if mtu c =? 0 then [] else to_string (mtu c)) ->
  m !! "port"%str = Some (port <$> bs) -> m !! "protocol"%str = Some (protocol <$> bs) ->
  read_parameters (username c) (password c) (host c) (remark c) m = Some (normalized c bs).
Proof.
  intros Hm Hbn Hmtu H1 H2 H3 Hports Hunk Hpr Hmu Hhs Htp Hmt Hpo Hpt. unfold read_parameters. cbv zeta.
  rewrite Hunk, Hpr, Hmu, Hhs, Htp. cbn [mbind option_bind]. rewrite H1, H2, H3. cbn [negb orb].
  rewrite Hmt. cbn [mbind option_bind]. rewrite mtu_text_ok by lia. cbn [mbind option_bind].
  unfold parse_ports. rewrite Hpo, Hpt, bool_decide_false by (by destruct bs).
  rewrite !length_fmap, Nat.eqb_refl. cbn [negb orb]. by rewrite Hports.
Qed.

(** The query of a printed link has no number sign. *)
Lemma printed_query_bytes c bs :
  no_control (profile c) -> 0 <= mtu c < 65536 ->
  isValidMieruMultiplexing (multiplexing c) = true -> isValidMieruHandshakeMode (handshake_mode c) = true ->
  isValidMieruTrafficPattern (traffic_pattern c) = true ->
  Forall (fun b => port b <> [] /\ no_control (port b) /\ (protocol b = "TCP"%str \/ protocol b = "UDP"%str)) bs ->
  "#"%char ∉ join (query_parameters c bs) "&"%str.
Proof.
  intros Hp Hm Hmu Hhs Htp Hbs. rewrite query_parameters_text.
  2: { eapply Forall_impl; [exact Hbs|]. intros b (P1 & _ & [P2|P2]); rewrite P2; split; done. }
  apply not_in_join; [by apply (bool_decide_unpack _); vm_compute|].
  apply Forall_fmap. eapply Forall_impl; [by apply query_entries_ok|]. intros e He. by apply not_in_parameter.
Qed.

(** A printed link read back. *)
Lemma mieru_printed c uri :
  buildMieruSimpleUri c = Some uri -> 0 <= mtu c < 65536 ->
  no_control (username c) -> no_control (password c) -> no_control (profile c) -> no_control (remark c) ->
  exists bs, mapM (fun b => parseMieruPortBinding (port b) (protocol b)) (port_bindings c) = Some bs /\
    parseMieruSimpleUri uri = Some (normalized c bs).
Proof.
  unfold buildMieruSimpleUri. intros Hbuild Hmtu Hcu Hcp Hcpr Hcr.
  destruct (_ || _) eqn:Echk in Hbuild; [done|].
  do 9 (apply orb_false_iff in Echk as [Echk ?H]). bools.
  destruct (mapM _ (port_bindings c)) as [bs|] eqn:Em; [|done]. injection Hbuild as <-.
  exists bs. split; [done|]. destruct (normal_bindings _ _ Em) as (Hlen & Hbs & Hports).
  assert (Hbn : bs <> []) by (intros ->; destruct (port_bindings c); [done|simpl in Hlen; lia]).
  destruct (link_query c bs) as (m & Hq & Hunk & Hpr & Hmu & Hhs & Htp & Hmt & Hpo & Hpt); try done.
  fold (authority_text (host c)) (fragment_text (remark c)).
  match goal with |- parseMieruSimpleUri ?u = _ => replace u with
    ("mierus://"%str ++ authority_part c ++ "?"%char :: join (query_parameters c bs) "&"%str ++ fragment_text (remark c))
    by (unfold authority_part; by rewrite <- !app_assoc) end.
  rewrite (parse_link _ _ _ (username c) (password c) (host c) m);
    [|by apply authority_part_bytes|by apply authority_part_bytes|by apply printed_query_bytes|done
     |by apply parse_authority_text|done].
  apply read_printed; try done; lia.
Qed.

(** A mierus link that the program prints is read back as the same
    configuration, with the port bindings in normal form: printing and
    parsing agree on the percent encoding of every part, on the brackets
    around IPv6 hosts, on the order and the repetition of parameters and on
    the optional ones.  The texts must be free of control characters, which
    the parser refuses. *)
Theorem mieru_roundtrip c uri :
  buildMieruSimpleUri c = Some uri -> 0 <= mtu c < 65536 ->
  no_control (username c) -> no_control (password c) -> no_control (profile c) -> no_control (remark c) ->
  exists bs, mapM (fun b => parseMieruPortBinding (port b) (protocol b)) (port_bindings c) = Some bs /\
    parseMieruSimpleUri uri = Some (normalized c bs).
Proof. apply mieru_printed. Qed.

Definition example_config : MieruSimpleConfig :=
  mkConfig "us er" "p@ss" "::1" "default" "MULTIPLEXING_LOW" [] [] "my node" 1400 false
    [mkBinding "08080" "TCP" false; mkBinding "2000-3000" "UDP" true].

Lemma mieru_roundtrip_witness :
  exists uri, buildMieruSimpleUri example_config = Some uri /\
    parseMieruSimpleUri uri = Some (normalized example_config
      [mkBinding "8080" "TCP" false; mkBinding "2000-3000" "UDP" true]).
Proof.
  destruct (buildMieruSimpleUri example_config) as [uri|] eqn:E; [|vm_compute in E; discriminate].
  exists uri. split; [reflexivity|].
  destruct (mieru_roundtrip example_config uri E) as (bs & Hbs & H); [simpl; lia|by repeat constructor..|].
  vm_compute in Hbs. injection Hbs as <-. exact H.
Defined.
