(* ===== verification/ProviderName.v ===== *)
(** * handler/interfaces.cpp: the names of proxy providers

    A provider's name comes from the request, is used as a file name in the
    generated configuration, and has to be distinct from the others'.  The
    two naming loops are modelled with the set of names taken so far; the
    hash that makes up a default name is part of the input. *)

From S2P Require Import Prelude Str StringUtil.

(** ** Cleaning a name *)

Definition reserved_names : list str :=
  ["CON"; "PRN"; "AUX"; "NUL"; "COM1"; "COM2"; "COM3"; "COM4"; "COM5"; "COM6"; "COM7"; "COM8"; "COM9";
   "LPT1"; "LPT2"; "LPT3"; "LPT4"; "LPT5"; "LPT6"; "LPT7"; "LPT8"; "LPT9"]%str.

(** src/src/handler/interfaces.cpp:1201-1217 [isWindowsReservedName] *)
Definition isWindowsReservedName (name : str) : bool :=
  match name with
  | [] => false
  | _ =>
      let trimmed := trimOf (trimWhitespace name true true) "." true true in
      match trimmed with
      | [] => false
      | _ =>
          let upper := toUpper trimmed in
          let base := match find_char "." upper 0 with None => upper | Some p => take p upper end in
          bool_decide (base ∈ reserved_names)
      end
  end.

(** [while (!truncated.empty() && !isStrUTF8(truncated)) truncated.pop_back();] *)
Fixpoint pop_until_utf8 (fuel : nat) (s : str) : str :=
  match fuel with
  | O => s
  | S fuel =>
      match s with
      | [] => s
      | _ => if isStrUTF8 s then s else pop_until_utf8 fuel (removelast s)
      end
  end.

(** src/src/handler/interfaces.cpp:1219-1227 [clampProviderNameLength] *)
Definition clampProviderNameLength (name : str) (max_len : nat) : str :=
  if length name <=? max_len then name
  else pop_until_utf8 max_len (take max_len name).

(** src/src/handler/interfaces.cpp:1199-1199 [kProviderNameMaxLen] *)
Definition kProviderNameMaxLen : nat := 64.

(** The bytes no file name may have. *)
Definition invalid_byte (c : ascii) : bool :=
  iscntrl c || one_of ["<"; ">"; ":"; "034"; "/"; "\"; "|"; "?"; "*"]%char c.

(** src/src/handler/interfaces.cpp:1236-1277 [sanitizeProviderName, loop] *)
Fixpoint clean (last_was_underscore : bool) (last_out : ascii) (name : str) : str :=
  match name with
  | [] => []
  | c :: name =>
      if invalid_byte c || (is_char "." c && is_char "." last_out) || is_char "_" c then
        if last_was_underscore then clean true last_out name
        else "_"%char :: clean true "_" name
      else c :: clean false c name
  end.

(** src/src/handler/interfaces.cpp:1229-1290 [sanitizeProviderName] *)
Definition sanitizeProviderName (input : str) : str :=
  match trimWhitespace input true true with
  | [] => []
  | name =>
      let cleaned := trimWhitespace (clean false "000" name) true true in
      let cleaned := trimOf cleaned "." true true in
      if bool_decide (cleaned = []) || isWindowsReservedName cleaned then []
      else
        let cleaned := clampProviderNameLength cleaned kProviderNameMaxLen in
        let cleaned := trimOf cleaned "." true true in
        if bool_decide (cleaned = []) || isWindowsReservedName cleaned then []
        else cleaned
  end.

Definition replace_char (old new : ascii) (s : str) : str := (fun c => if is_char old c then new else c) <$> s.

(** src/src/handler/interfaces.cpp:1292-1298 [sanitizeRemoteResourceName] *)
Definition sanitizeRemoteResourceName (input : str) : str :=
  let tag := sanitizeProviderName input in
  let tag := replace_char "," "_" tag in
  let tag := replace_char "=" "_" tag in
  trimWhitespace tag true true.

(** ** Reserving a name *)

(** [if (s.empty()) s = d;] *)
Definition or_else (s d : str) : str := match s with [] => d | _ => s end.

(** [while (true)]: the first index whose candidate's key is free.  An
    [unordered_set::insert] adds the key and tells whether it was new. *)
Fixpoint reserve_loop (key : str -> str) (candidate : Z -> str) (fuel : nat) (index : Z) (names : gset str)
    : option (str * gset str) :=
  match fuel with
  | O => None
  | S fuel =>
      let c := candidate index in
      if bool_decide (key c ∈ names) then reserve_loop key candidate fuel (index + 1)%Z names
      else Some (c, {[key c]} ∪ names)
  end.

Definition suffix (index : Z) : str := "_" ++ to_string index.
Definition max_base (limit : nat) (index : Z) : nat := limit - length (suffix index).

(** src/src/handler/interfaces.cpp:1300-1316 [reserveStashProviderName] *)
Definition reserveStashProviderName (base : str) (reserved_keys : gset str) : option (str * gset str) :=
  let base_name := clampProviderNameLength base 64 in
  let base_name := or_else base_name "SubConverter_Provider" in
  if bool_decide (toLower base_name ∈ reserved_keys) then
    reserve_loop toLower
      (fun index => clampProviderNameLength base_name (max_base 64 index) ++ suffix index)
      (S (size reserved_keys)) 1 reserved_keys
  else Some (base_name, {[toLower base_name]} ∪ reserved_keys).

(** src/src/handler/interfaces.cpp:5414-5437 [reserve_provider_name] *)
Definition reserve_provider_name (base : str) (provider_names : gset str) : option (str * gset str) :=
  let base_name := trimOf (clampProviderNameLength base kProviderNameMaxLen) "." true true in
  let base_name := or_else base_name "Provider" in
  if bool_decide (base_name ∈ provider_names) then
    reserve_loop id
      (fun index =>
         let max_base := max_base kProviderNameMaxLen index in
         let prefix := trimOf (clampProviderNameLength base_name max_base) "." true true in
         let prefix := or_else prefix (clampProviderNameLength "Provider" max_base) in
         prefix ++ suffix index)
      (S (size provider_names)) 1 provider_names
  else Some (base_name, {[base_name]} ∪ provider_names).

(** ** Naming the providers of a request *)

(** The requested name and the default name, ["Provider_" + urlHash]. *)
Record Item := mkItem { provider : str; default_name : str }.

(** src/src/handler/interfaces.cpp:5443-5453 [subconverter_impl, provider name] *)
Definition base_name (item : Item) : str :=
  let sanitized_provider := sanitizeProviderName (provider item) in
  let base := or_else sanitized_provider (default_name item) in
  or_else (sanitizeProviderName base) (default_name item).

Fixpoint name_all {A} (reserve : A -> gset str -> option (str * gset str)) (items : list A) (names : gset str)
    : option (list str) :=
  match items with
  | [] => Some []
  | item :: items =>
      '(name, names) ← reserve item names;
      rest ← name_all reserve items names;
      Some (name :: rest)
  end.

(** src/src/handler/interfaces.cpp:5413-5454 [subconverter_impl, provider names] *)
Definition name_providers (items : list Item) : option (list str) :=
  name_all (fun item => reserve_provider_name (base_name item)) items ∅.

(** The names asked for; an empty one becomes the next generated name. *)
Fixpoint stash_requests (generated_index : Z) (items : list str) : list str :=
  match items with
  | [] => []
  | requested_name :: items =>
      match sanitizeRemoteResourceName requested_name with
      | [] => ("SubConverter_Provider_"%str ++ to_string (generated_index + 1)) ::
                stash_requests (generated_index + 1) items
      | requested => requested :: stash_requests generated_index items
      end
  end.

(** src/src/handler/interfaces.cpp:5734-5744 [subconverter_impl, Stash provider names] *)
Definition name_stash_providers (items : list str) : option (list str) :=
  name_all reserveStashProviderName (stash_requests 0 items) ∅.

Example sanitize_ex1 : sanitizeProviderName " a/b..c:: d. " = "a_b._c_ d"%str. Proof. vm_compute. reflexivity. Qed.
Example sanitize_ex2 : sanitizeProviderName "nul.txt" = []. Proof. vm_compute. reflexivity. Qed.
Example name_ex : name_stash_providers ["a"; "A"; "a"; "?"; []]%str =
  Some ["a"; "A_1"; "a_2"; "_"; "SubConverter_Provider_1"]%str.
Proof. vm_compute. reflexivity. Qed.

(** ** Lemmas: pieces of a text *)

Definition infix (r s : str) : Prop := exists a b, s = a ++ r ++ b.

#[export] Instance infix_preorder : PreOrder infix.
Proof.
  split; [intros s; exists [], []; by rewrite app_nil_r|].
  intros r s t (a & b & ->) (c & d & ->). exists (c ++ a), (b ++ d). by rewrite <- !app_assoc.
Qed.

(** No two adjacent bytes are both [c]. *)
Definition no_double (c : ascii) (s : str) : Prop := forall a b, s <> a ++ c :: c :: b.

Lemma no_double_infix c r s : infix r s -> no_double c s -> no_double c r.
Proof. intros (x & y & ->) H a b ->. apply (H (x ++ a) (b ++ y)). by rewrite <- !app_assoc. Qed.

Lemma Forall_infix (P : ascii -> Prop) r s : infix r s -> Forall P s -> Forall P r.
Proof. intros (a & b & ->). rewrite !Forall_app. tauto. Qed.

Lemma infix_length r s : infix r s -> length r <= length s.
Proof. intros (a & b & ->). rewrite !length_app. lia. Qed.

Lemma trimOf_infix s c : infix (trimOf s c true true) s.
Proof. destruct (trimOf_middle s c) as [[-> _]|[H _]]; [reflexivity|exact H]. Qed.

Lemma removelast_infix (s : str) : infix (removelast s) s.
Proof.
  destruct s as [|c s]; [reflexivity|]. exists [], [List.last (c :: s) c].
  by apply app_removelast_last.
Qed.

Lemma pop_until_utf8_infix fuel s : infix (pop_until_utf8 fuel s) s.
Proof.
  revert s. induction fuel as [|fuel IH]; intros s; cbn [pop_until_utf8]; [reflexivity|].
  repeat case_match; try reflexivity. etransitivity; [apply IH|apply removelast_infix].
Qed.

Lemma clamp_infix s n : infix (clampProviderNameLength s n) s.
Proof.
  unfold clampProviderNameLength. case_match; [reflexivity|].
  etransitivity; [apply pop_until_utf8_infix|]. exists [], (drop n s). simpl. by rewrite take_drop.
Qed.

Lemma clamp_length s n : length (clampProviderNameLength s n) <= n.
Proof.
  unfold clampProviderNameLength. destruct (Nat.leb_spec (length s) n); [lia|].
  pose proof (infix_length _ _ (pop_until_utf8_infix n (take n s))) as H1. rewrite length_take in H1. lia.
Qed.

#[export] Hint Resolve trimOf_infix clamp_infix trimWhitespace_infix : infix.

(** ** Lemmas: the cleaning loop *)

Definition legal (c : ascii) : Prop := invalid_byte c = false.

Lemma clean_legal u l s : Forall legal (clean u l s).
Proof.
  revert u l. induction s as [|c s IH]; intros u l; simpl; [constructor|].
  destruct (invalid_byte c) eqn:Hc; simpl; repeat case_match; try constructor; auto; done.
Qed.

Lemma no_double_cons c d s : no_double c s -> (d = c -> head s <> Some c) -> no_double c (d :: s).
Proof.
  intros Hs Hd [|x a] b; simpl; intros [= -> Heq]; [|by eapply Hs].
  subst. by apply Hd.
Qed.

(** The flags are what the last output byte tells. *)
Lemma clean_no_double c u l s :
  c = "."%char \/ c = "_"%char -> u = is_char "_" l -> no_double c (clean u l s) /\ (l = c -> head (clean u l s) <> Some c).
Proof.
  intros Hc. revert u l. induction s as [|d s IH]; intros u l ->; simpl.
  { split; [intros [] ?; done|done]. }
  destruct (invalid_byte d || is_char "." d && is_char "." l || is_char "_" d) eqn:Hd.
  - destruct (is_char "_" l) eqn:Hl.
    + apply bool_decide_eq_true in Hl as ->. by apply IH.
    + destruct (IH true "_"%char eq_refl) as [IH1 IH2]. split.
      * apply no_double_cons; auto.
      * intros ->. destruct Hc as [->| ->]; done.
  - apply orb_false_iff in Hd as [[Hd1 Hd2]%orb_false_iff Hd3].
    destruct (IH false d) as [IH1 IH2]; [done|]. split; [by apply no_double_cons|].
    intros -> [= ->]. destruct Hc as [->| ->]; [by apply andb_false_iff in Hd2 as [?|?]|done].
Qed.

(** What a cleaned name promises to the one who uses it as a file name. *)
Record safe_name (r : str) : Prop := {
  safe_nonempty : r <> [];
  safe_length : length r <= kProviderNameMaxLen;
  safe_bytes : Forall legal r;
  safe_dots : no_double "." r;
  safe_underscores : no_double "_" r;
  safe_not_reserved : isWindowsReservedName r = false;
  safe_outer : r = "."%str \/ head r <> Some "."%char /\ last r <> Some "."%char
}.

Lemma all_dots_single s : no_double "." s -> Forall (fun c => c = "."%char) s -> s <> [] -> s = "."%str.
Proof.
  intros Hd Hall Hne. destruct s as [|c [|d s]]; [done| |].
  - by apply Forall_cons in Hall as [-> _].
  - apply Forall_cons in Hall as [-> [-> _]%Forall_cons]. by destruct (Hd [] s).
Qed.

Lemma sanitize_cases input :
  sanitizeProviderName input = [] \/ safe_name (sanitizeProviderName input).
Proof.
  unfold sanitizeProviderName. destruct (trimWhitespace input true true) as [|c0 name0]; [by left|].
  set (cl := clean false "000" _).
  set (t1 := trimOf (trimWhitespace cl true true) "." true true).
  case_match; [by left|]. set (t2 := trimOf (clampProviderNameLength t1 _) "." true true).
  destruct (bool_decide (t2 = []) || isWindowsReservedName t2) eqn:Ht2; [by left|right].
  apply orb_false_iff in Ht2 as [Hne%bool_decide_eq_false Hres].
  assert (infix t2 cl) as Hin.
  { unfold t2, t1. do 3 (etransitivity; [eauto with infix|]). apply trimWhitespace_infix. }
  assert (forall c, c = "."%char \/ c = "_"%char -> no_double c t2) as Hnd.
  { intros c Hc. eapply no_double_infix; [exact Hin|]. by apply clean_no_double. }
  constructor; auto.
  - etransitivity; [apply infix_length, trimOf_infix|apply clamp_length].
  - eapply Forall_infix; [exact Hin|apply clean_legal].
  - destruct (trimOf_middle (clampProviderNameLength t1 kProviderNameMaxLen) ".") as [[Heq Hall]|[_ H']]; [|by right].
    left. apply all_dots_single; auto. unfold t2 in *. by rewrite Heq.
Qed.

Lemma remote_infix input : exists s, infix (sanitizeRemoteResourceName input) s /\
  s = replace_char "=" "_" (replace_char "," "_" (sanitizeProviderName input)).
Proof. eexists. split; [|done]. apply trimWhitespace_infix. Qed.

Lemma sanitize_legal input : Forall legal (sanitizeProviderName input) /\ length (sanitizeProviderName input) <= 64.
Proof. destruct (sanitize_cases input) as [->|[]]; simpl; split; auto; lia. Qed.

Lemma remote_legal input :
  Forall (fun c => legal c /\ c <> ","%char /\ c <> "="%char) (sanitizeRemoteResourceName input) /\
  length (sanitizeRemoteResourceName input) <= 64.
Proof.
  destruct (remote_infix input) as (s & Hin & Hs), (sanitize_legal input) as [Hl Hn]. split.
  - eapply Forall_infix; [exact Hin|]. subst s. unfold replace_char. rewrite <- list_fmap_compose.
    apply Forall_fmap. eapply Forall_impl; [exact Hl|]. intros c Hc. unfold is_char. simpl.
    repeat case_bool_decide; by subst.
  - etransitivity; [by apply infix_length|]. subst s. unfold replace_char. by rewrite !length_fmap.
Qed.

(** A cleaned provider name is empty or safe as a file name: at most 64
    bytes, no control byte and none of the bytes a file system reserves, no
    two adjacent dots or underscores, not a reserved device name, and no outer
    dot except for the single-dot name, which does occur: [trimOf] leaves a
    text of target bytes alone, so the check for an empty name does not see
    it.  The names of remote resources have in addition neither comma nor
    equals sign. *)
Theorem sanitize_safe input :
  (sanitizeProviderName input = [] \/ safe_name (sanitizeProviderName input)) /\
  sanitizeProviderName " . " = "."%str /\
  Forall (fun c => legal c /\ c <> ","%char /\ c <> "="%char) (sanitizeRemoteResourceName input) /\
  length (sanitizeRemoteResourceName input) <= 64.
Proof. split; [apply sanitize_cases|]. split; [vm_compute; reflexivity|apply remote_legal]. Qed.

(** ** Lemmas: the search for a free name *)

Lemma suffix_digits index : is_u64 index -> Forall (fun c => isdigit c = true) (to_string index).
Proof. intros H. by apply to_string_ok. Qed.

Lemma tolower_digit c : isdigit c = true -> tolower c = c.
Proof.
  unfold tolower, isupper, isdigit, between. intros H. case_match; [|done].
  apply andb_true_iff in H as [H1%Z.leb_le H2%Z.leb_le]. bools. lia.
Qed.

Lemma toLower_digits s : Forall (fun c => isdigit c = true) s -> toLower s = s.
Proof. induction 1 as [|c s Hc _ IH]; simpl; [done|]. f_equal; [by apply tolower_digit|exact IH]. Qed.

Lemma toLower_app a b : toLower (a ++ b) = toLower a ++ toLower b.
Proof. apply fmap_app. Qed.

(** The digits behind the last underscore tell the index. *)
Lemma digits_after_inj a b x y :
  Forall (fun c => isdigit c = true) x -> Forall (fun c => isdigit c = true) y ->
  a ++ "_"%char :: x = b ++ "_"%char :: y -> x = y.
Proof.
  intros Hx Hy Heq. revert b Heq. induction a as [|c a IH]; intros [|d b] Heq; simplify_eq/=.
  - done.
  - rewrite Forall_app, Forall_cons in Hx. by destruct Hx as (_ & ? & _).
  - rewrite Forall_app, Forall_cons in Hy. by destruct Hy as (_ & ? & _).
  - by eapply IH.
Qed.

Lemma suffix_inj (a b : str) i j : is_u64 i -> is_u64 j -> a ++ suffix i = b ++ suffix j -> i = j.
Proof.
  intros Hi Hj Heq. apply to_string_inj; [done|done|].
  eapply digits_after_inj; [by apply suffix_digits|by apply suffix_digits|exact Heq].
Qed.

Lemma toLower_suffix i : is_u64 i -> toLower (suffix i) = suffix i.
Proof. intros Hi. unfold suffix. rewrite toLower_app. f_equal. by apply toLower_digits, suffix_digits. Qed.

Section ReserveLoop.
Context (key : str -> str) (candidate : Z -> str).

Lemma reserve_loop_None fuel i names :
  reserve_loop key candidate fuel i names = None ->
  forall k, (k < fuel)%nat -> key (candidate (i + Z.of_nat k)%Z) ∈ names.
Proof.
  revert i. induction fuel as [|fuel IH]; intros i Hn k Hk; [lia|]. simpl in Hn.
  case_bool_decide as Hin; [|done]. destruct k as [|k]; [by rewrite Z.add_0_r|].
  replace (i + Z.of_nat (S k))%Z with (i + 1 + Z.of_nat k)%Z by lia. apply IH; [done|lia].
Qed.

Lemma reserve_loop_Some fuel i names c names' :
  reserve_loop key candidate fuel i names = Some (c, names') ->
  exists k, (i <= k < i + Z.of_nat fuel)%Z /\ c = candidate k /\ key c ∉ names /\ names' = {[key c]} ∪ names.
Proof.
  revert i. induction fuel as [|fuel IH]; intros i Hn; [done|]. simpl in Hn. case_bool_decide.
  - destruct (IH _ Hn) as (k & ? & ? & ? & ?). exists k. split_and!; auto; lia.
  - injection Hn as <- <-. exists i. split_and!; auto; lia.
Qed.

Lemma reserve_loop_total i names :
  (forall x y, (i <= x <= i + Z.of_nat (size names))%Z -> (i <= y <= i + Z.of_nat (size names))%Z ->
     key (candidate x) = key (candidate y) -> x = y) ->
  is_Some (reserve_loop key candidate (S (size names)) i names).
Proof.
  intros Hinj. destruct (reserve_loop _ _ _ _ _) eqn:Hn; [done|exfalso].
  pose proof (reserve_loop_None _ _ _ Hn) as Hall.
  set (l := (fun k => key (candidate (i + Z.of_nat k)%Z)) <$> seq 0 (S (size names))).
  assert (NoDup l) as Hnd.
  { apply NoDup_fmap_2_strong; [|apply NoDup_seq].
    intros x y Hx%elem_of_seq Hy%elem_of_seq Heq. apply Hinj in Heq; lia. }
  assert ((list_to_set l : gset str) ⊆ names) as Hsub.
  { intros x Hx%elem_of_list_to_set. apply list_elem_of_fmap in Hx as (k & -> & Hk%elem_of_seq). apply Hall. lia. }
  apply subseteq_size in Hsub. rewrite size_list_to_set in Hsub by done.
  unfold l in Hsub. rewrite length_fmap, length_seq in Hsub. lia.
Qed.
End ReserveLoop.

Lemma to_digits_length fuel n : length (to_digits fuel n) <= fuel.
Proof.
  revert n. induction fuel as [|fuel IH]; intros n; cbn [to_digits]; [simpl; lia|].
  rewrite length_app. case_match; simpl; [lia|]. specialize (IH (n / 10)%Z). lia.
Qed.

Lemma suffix_length i : length (suffix i) <= 64.
Proof. unfold suffix. rewrite length_app. pose proof (to_digits_length 20 i). unfold to_string.
  change (length "_"%str) with 1. lia. Qed.

Lemma isdigit_legal c : isdigit c = true -> legal c.
Proof.
  intros Hc. pose proof (all_bytes_spec (fun c => negb (isdigit c) || negb (invalid_byte c))) as H.
  specialize (H ltac:(vm_compute; reflexivity) c). simpl in H. rewrite Hc in H. by apply negb_true_iff in H.
Qed.

Lemma suffix_legal i : is_u64 i -> Forall legal (suffix i).
Proof.
  intros Hi. apply Forall_app. split; [by repeat constructor|].
  eapply Forall_impl; [by apply suffix_digits|apply isdigit_legal].
Qed.

(** ** The interface of the reserving functions

    Below [INT_MAX] names (where the [int] index cannot overflow) a call
    returns a name whose key is new, records the key, and keeps [ok]. *)
Class Reserver {A} (key : str -> str) (ok : A -> str -> Prop) (reserve : A -> gset str -> option (str * gset str)) : Prop :=
  reserve_new a names : (Z.of_nat (size names) < INT_MAX)%Z ->
    exists name, reserve a names = Some (name, {[key name]} ∪ names) /\ key name ∉ names /\ ok a name.

(** Fit for use: not empty, short, and legal when the input is. *)
Definition fit (base name : str) : Prop :=
  name <> [] /\ length name <= 64 /\ (Forall legal base -> Forall legal name).

(** The shape both functions share: a base that is tried first, and candidates
    that end in the suffix of their index. *)
Lemma reserve_shape key (first : str) (prefix : Z -> str) (ok : str -> Prop) names :
  (Z.of_nat (size names) < INT_MAX)%Z ->
  (forall i, is_u64 i -> ok (prefix i ++ suffix i)) ->
  (forall i j, is_u64 i -> is_u64 j -> key (prefix i ++ suffix i) = key (prefix j ++ suffix j) -> i = j) ->
  ok first ->
  exists name,
    (if bool_decide (key first ∈ names)
     then reserve_loop key (fun i => prefix i ++ suffix i) (S (size names)) 1 names
     else Some (first, {[key first]} ∪ names)) = Some (name, {[key name]} ∪ names) /\ key name ∉ names /\ ok name.
Proof.
  unfold INT_MAX. intros Hsize Hok Hinj Hfirst. case_bool_decide as Hin; [|by exists first].
  destruct (reserve_loop_total key (fun i => prefix i ++ suffix i) 1 names) as [[c names'] Hr].
  { intros x y Hx Hy. apply Hinj; unfold is_u64; lia. }
  destruct (reserve_loop_Some _ _ _ _ _ _ _ Hr) as (k & Hk & -> & Hnew & ->).
  exists (prefix k ++ suffix k). rewrite Hr. split_and!; [done|done|]. apply Hok. unfold is_u64. lia.
Qed.

(** A clamped prefix leaves room for the suffix. *)
Lemma prefix_fits (base p : str) i :
  is_u64 i -> length p <= max_base 64 i -> (Forall legal base -> Forall legal p) -> fit base (p ++ suffix i).
Proof.
  intros Hi Hp Hl. pose proof (suffix_length i). unfold max_base in Hp. split_and!.
  - intros [_ Hs]%app_eq_nil. done.
  - rewrite length_app. lia.
  - intros Hb. apply Forall_app. split; [auto|by apply suffix_legal].
Qed.

#[export] Instance reserveStash_reserver : Reserver toLower fit reserveStashProviderName.
Proof.
  intros base names Hsize. unfold reserveStashProviderName.
  set (b := or_else (clampProviderNameLength base 64) "SubConverter_Provider").
  assert (fit base b) as Hfit.
  { pose proof (clamp_length base 64) as Hlen. pose proof (Forall_infix legal _ _ (clamp_infix base 64)) as Hleg.
    unfold b. destruct (clampProviderNameLength base 64); [|by split_and!].
    split_and!; [done|simpl; lia|]. intros _. by repeat constructor. }
  destruct Hfit as (Hb1 & Hb2 & Hb3).
  apply (reserve_shape toLower b (fun i => clampProviderNameLength b (max_base 64 i))); [done| | |done].
  - intros i Hi. apply prefix_fits; [done|apply clamp_length|]. intros Hl.
    eapply Forall_infix; [apply clamp_infix|auto].
  - intros i j Hi Hj. rewrite !toLower_app, !toLower_suffix by done. by apply suffix_inj.
Qed.

Lemma trim_clamp_ok (s d : str) n : length d <= n -> Forall legal d ->
  let p := or_else (trimOf (clampProviderNameLength s n) "." true true) d in
  length p <= n /\ (Forall legal s -> Forall legal p).
Proof.
  intros Hd1 Hd2. simpl. set (r := trimOf _ _ _ _).
  assert (infix r s) as Hin by (etransitivity; [apply trimOf_infix|apply clamp_infix]).
  assert (length r <= n) by (etransitivity; [apply infix_length, trimOf_infix|apply clamp_length]).
  destruct r; [done|]. split; [done|]. by apply Forall_infix.
Qed.

#[export] Instance reserve_provider_reserver : Reserver id fit reserve_provider_name.
Proof.
  intros base names Hsize. unfold reserve_provider_name.
  set (b := or_else (trimOf _ _ _ _) "Provider").
  destruct (trim_clamp_ok base "Provider" 64) as [Hb1 Hb2]; [simpl; lia|by repeat constructor|].
  apply (reserve_shape id b (fun i =>
    or_else (trimOf (clampProviderNameLength b (max_base 64 i)) "." true true)
      (clampProviderNameLength "Provider" (max_base 64 i)))); [done| | |].
  - intros i Hi. destruct (trim_clamp_ok b (clampProviderNameLength "Provider" (max_base 64 i)) (max_base 64 i)) as [Hp1 Hp2].
    + apply clamp_length.
    + eapply Forall_infix; [apply clamp_infix|by repeat constructor].
    + apply prefix_fits; auto.
  - intros i j Hi Hj. by apply suffix_inj.
  - split_and!; [|done|done]. unfold b, or_else. by case_match.
Qed.

(** ** Naming all providers *)

#[export] Instance reserver_precompose {A B} (f : B -> A) key ok reserve `{!@Reserver A key ok reserve} :
  Reserver key (fun b => ok (f b)) (fun b => reserve (f b)).
Proof. intros b names. apply reserve_new. Qed.

Lemma name_all_new {A} key ok reserve `{!@Reserver A key ok reserve} items names :
  (Z.of_nat (size names) + Z.of_nat (length items) <= INT_MAX)%Z ->
  exists l, name_all reserve items names = Some l /\ Forall2 ok items l /\ NoDup (key <$> l) /\
    Forall (fun n => key n ∉ names) l.
Proof.
  revert names. induction items as [|a items IH]; intros names Hsize; simpl in *.
  { exists []. split_and!; auto; constructor. }
  destruct (reserve_new a names) as (n & -> & Hn & Hok); [lia|]. simpl.
  destruct (IH ({[key n]} ∪ names)) as (l & -> & HF & Hnd & Hnew).
  { rewrite size_union by set_solver. rewrite size_singleton. lia. }
  exists (n :: l). split_and!; [done|by constructor| |].
  - simpl. constructor; [|done]. intros (m & Hm & Hin)%list_elem_of_fmap.
    rewrite Forall_forall in Hnew. apply (Hnew m Hin). set_solver.
  - constructor; [done|]. eapply Forall_impl; [exact Hnew|]. simpl. set_solver.
Qed.

Lemma base_name_legal item : Forall legal (default_name item) -> Forall legal (base_name item).
Proof.
  intros Hd. unfold base_name. set (r := sanitizeProviderName (or_else _ _)).
  assert (Forall legal r) by apply sanitize_legal. by destruct r.
Qed.

Lemma stash_requests_legal items i :
  (0 <= i)%Z -> (i + Z.of_nat (length items) <= INT_MAX)%Z ->
  Forall (Forall legal) (stash_requests i items) /\ length (stash_requests i items) = length items.
Proof.
  unfold INT_MAX. revert i. induction items as [|s items IH]; intros i Hi Hlen; cbn [stash_requests length] in *; [done|].
  destruct (remote_legal s) as [Hs _].
  assert (Forall legal (sanitizeRemoteResourceName s)) by (eapply Forall_impl; [exact Hs|]; simpl; tauto).
  case_match; (destruct (IH (i + 1)%Z) as [IH1 IH2]; [lia|lia|]); (destruct (IH i) as [IH3 IH4]; [lia|lia|]).
  - split; [|simpl; lia]. constructor; [|done]. apply Forall_app. split; [by repeat constructor|].
    eapply Forall_impl; [apply suffix_digits; unfold is_u64; lia|apply isdigit_legal].
  - split; [by constructor|simpl; lia].
Qed.

(** C38: naming the providers of a request terminates and gives every provider
    a name of its own, of one to 64 bytes and without a byte that is special
    in a path; the Stash names differ even when case is ignored. *)
Theorem provider_names_distinct items stash_items :
  (Z.of_nat (length items) <= INT_MAX)%Z -> Forall (fun item => Forall legal (default_name item)) items ->
  (Z.of_nat (length stash_items) <= INT_MAX)%Z ->
  (exists names, name_providers items = Some names /\ length names = length items /\ NoDup names /\
     Forall (fun n => n <> [] /\ length n <= 64 /\ Forall legal n) names) /\
  (exists names, name_stash_providers stash_items = Some names /\ length names = length stash_items /\
     NoDup (toLower <$> names) /\ Forall (fun n => n <> [] /\ length n <= 64 /\ Forall legal n) names).
Proof.
  intros Hlen Hleg Hslen. split.
  - destruct (name_all_new id (fun item => fit (base_name item)) (fun item => reserve_provider_name (base_name item))
      items ∅) as (l & Hl & HF & Hnd & _).
    { by rewrite size_empty. }
    exists l. rewrite list_fmap_id in Hnd. split_and!; [done|by apply Forall2_length in HF|done|].
    eapply Forall2_Forall_r; [exact HF|]. eapply Forall_impl; [exact Hleg|].
    intros item Hi n (? & ? & Hn). auto using base_name_legal.
  - destruct (stash_requests_legal stash_items 0) as [Hl Hn]; [lia|lia|].
    destruct (name_all_new toLower fit reserveStashProviderName (stash_requests 0 stash_items) ∅)
      as (l & Hname & HF & Hnd & _).
    { rewrite size_empty, Hn. lia. }
    exists l. split_and!; [done|apply Forall2_length in HF; lia|done|].
    eapply Forall2_Forall_r; [exact HF|]. eapply Forall_impl; [exact Hl|]. intros r Hr n (? & ? & ?). auto.
Qed.

Definition sample_items : list Item := [mkItem "a" "Provider_1"; mkItem "a" "Provider_2"; mkItem "?" "Provider_3"].

Lemma provider_names_distinct_witness :
  name_providers sample_items = Some ["a"; "a_1"; "_"]%str /\
  (exists names, name_providers sample_items = Some names /\ NoDup names) /\
  exists names, name_stash_providers ["a"; "A"]%str = Some names /\ NoDup (toLower <$> names).
Proof.
  split; [vm_compute; reflexivity|].
  destruct (provider_names_distinct sample_items ["a"; "A"]%str) as [(n1 & ? & _ & ? & _) (n2 & ? & _ & ? & _)].
  - unfold INT_MAX. simpl. lia.
  - by repeat constructor.
  - unfold INT_MAX. simpl. lia.
  - split; [exists n1|exists n2]; split; assumption.
Defined.
