(* ===== verification/ResponseCache.v ===== *)
(** * handler/interfaces.cpp: the micro-cache of finished responses

    Responses of shared subscription requests are kept for at most five
    seconds, within an entry and a byte limit, evicting by the number of the
    last use.  [ResponseCache] is the state behind the cache's mutex, every
    critical section one function on it; time points are nanoseconds.  The
    abstract cache is the list of [LruCache], most recently used first, and
    its [spec_fit] is the eviction policy of both caches.  The hash map's
    values carry distinct numbers, so no result depends on the order in which
    the map is walked. *)

From Stdlib Require Import Sorted.
From S2P Require Import Prelude Str StringUtil RequestContext LruCache.
Open Scope Z_scope.

(** ** Responses *)

(** src/src/handler/interfaces.cpp:1351-1359 [CoalescedResponse]
    [body] is the content of the shared body, if there is one. *)
Record CoalescedResponse := mkCoalesced {
  status_code : Z; content_type : str; resp_headers : list (str * str);
  body : option str; fallback_body : str; capacity_rejected : bool; rule_conversions : Z
}.

(** src/src/server/webserver.h:41-47 [Response] *)
Record Response := mkResponse {
  response_status : Z; response_type : str; response_headers : list (str * str); shared_body : option str
}.

(** src/src/handler/interfaces.cpp:2049-2060 [applyCoalescedToResponse]
    The response, the body to return, and whether the client's context is
    told of a capacity failure. *)
Definition applyCoalescedToResponse (r : CoalescedResponse) : Response * str * bool :=
  (mkResponse (status_code r) (content_type r) (resp_headers r) (body r),
   match body r with Some _ => [] | None => fallback_body r end, capacity_rejected r).

Definition newline : str := ["010"%char].
Definition capacity_body : str :=
  "Service temporarily unavailable: retained response byte capacity is full."%str ++ newline ++
  "服务暂时不可用：响应字节容量已满。"%str ++ newline.

(** src/src/handler/interfaces.cpp:2078-2100 [makeCoalescedResult] and
    src/src/handler/interfaces.cpp:2062-2076 (tryMakeRetainedResponseBody)
    [allocated] is false when the allocation of the body throws: the lease is
    given back. *)
Definition makeCoalescedResult (content : str) (response : Response) (conversions : Z) (allocated : bool) (r : Retained)
    : CoalescedResponse * Retained :=
  let '(r', _, ok) := lease_acquire (Z.of_nat (length content)) 0 r in
  if ok && allocated
  then (mkCoalesced (response_status response) (response_type response) (response_headers response)
          (Some content) [] false conversions, r')
  else
    (mkCoalesced 503 "text/plain; charset=utf-8"
       [("Cache-Control", "private, no-store"); ("Retry-After", "1")]%str None capacity_body true 0,
     if ok then fst (lease_reset (Z.of_nat (length content)) r') else r').

(** src/src/handler/interfaces.cpp:1869-1873 [isTruthyRequestValue] *)
Definition isTruthyRequestValue (value : str) : bool :=
  let normalized := toLower (trimWhitespace value true true) in
  bool_decide (normalized ∈ ["1"; "true"; "yes"; "on"]%str).

(** src/src/handler/interfaces.cpp:2038-2047 [shouldCoalesceSubRequest]
    [upload] is the request's argument of that name. *)
Definition shouldCoalesceSubRequest (enableRequestCoalescing : bool) (method url upload : str) : bool :=
  if negb enableRequestCoalescing then false
  else if negb (bool_decide (method = "GET"%str)) || negb (bool_decide (url = "/sub"%str)) then false
  else negb (isTruthyRequestValue upload).

(** src/src/handler/interfaces.cpp:2190-2233 [runSubconverterImplWithRetry]
    [convert] is the conversion at its first or second call, [given_up] what
    the context says between the two. *)
Definition runSubconverterImplWithRetry {A} (convert : bool -> Z * A) (coalesceRetryOn5xx given_up : bool) : Z * A :=
  let first := convert false in
  if (first.1 <? 500) || negb coalesceRetryOn5xx then first
  else if given_up then first
  else let retry := convert true in if retry.1 <? 500 then retry else first.

(** ** The cache *)

(** src/src/handler/interfaces.cpp:1455-1460 [CachedSubResponse] *)
Record CachedSubResponse := mkCached {
  result : CoalescedResponse; expires_at : Z; cached_bytes : Z; sequence : Z
}.

(** src/src/handler/interfaces.cpp:1465-1468 [g_sub_response_cache and its counters] *)
Record ResponseCache := mkResponseCache {
  entries_of : gmap str CachedSubResponse; total_bytes : Z; last_sequence : Z
}.

Definition empty_cache : ResponseCache := mkResponseCache ∅ 0 0.

(** [std::stoull] in base 10; [None] is an exception.  A minus sign negates
    modulo 2^64. *)
Definition stoull (s : str) : option Z :=
  let '(negative, digits) := match skip_spaces s with
                             | c :: s' => if is_char "-" c then (true, s') else if is_char "+" c then (false, s') else (false, c :: s')
                             | [] => (false, [])
                             end in
  match digits with
  | c :: _ =>
      if negb (isdigit c) then None
      else
        let value := digits_value 0 digits in
        if UINT64_MAX <? value then None else Some (if negative then u64 (- value) else value)
  | [] => None
  end.

(** src/src/handler/interfaces.cpp:1490-1504 [subResponseCacheMaxBytes]
    [configured] is the value of SUBCONVERTER_RESPONSE_CACHE_MAX_BYTES. *)
Definition subResponseCacheMaxBytes (configured : str) : Z :=
  match configured with
  | [] => 8 * 1024 * 1024
  | _ => match stoull configured with
         | Some value => Z.min (Z.max value 1024) (64 * 1024 * 1024)
         | None => 8 * 1024 * 1024
         end
  end.

(** src/src/handler/interfaces.cpp:1479-1488 [eraseSubResponseCacheEntry] *)
Definition eraseSubResponseCacheEntry (key : str) (c : ResponseCache) : ResponseCache :=
  match entries_of c !! key with
  | Some e =>
      mkResponseCache (delete key (entries_of c))
        (if cached_bytes e <=? total_bytes c then u64 (total_bytes c - cached_bytes e) else 0) (last_sequence c)
  | None => c
  end.

(** src/src/handler/interfaces.cpp:2102-2111 [pruneExpiredSubResponseCache] *)
Definition pruneExpiredSubResponseCache (now : Z) (c : ResponseCache) : ResponseCache :=
  foldl (fun c (e : str * CachedSubResponse) => if expires_at e.2 <=? now then eraseSubResponseCacheEntry e.1 c else c)
    c (map_to_list (entries_of c)).

(** src/src/handler/interfaces.cpp:2113-2120 [coalescedResponseBytes] *)
Definition coalescedResponseBytes (r : CoalescedResponse) : Z :=
  Z.of_nat (length (match body r with Some content => content | None => fallback_body r end)) +
  Z.of_nat (length (content_type r)) +
  sumZ (fun h : str * str => Z.of_nat (length h.1) + Z.of_nat (length h.2)) (resp_headers r).

(** [std::min_element] by the sequence number. *)
Definition min_sequence (l : list (str * CachedSubResponse)) : option (str * CachedSubResponse) :=
  foldr (fun e best => match best with
                       | Some b => Some (if sequence e.2 <=? sequence b.2 then e else b)
                       | None => Some e
                       end) None l.

(** src/src/handler/interfaces.cpp:2122-2131 [evictOldestSubResponseCacheEntry] *)
Definition evictOldestSubResponseCacheEntry (c : ResponseCache) : ResponseCache :=
  match min_sequence (map_to_list (entries_of c)) with
  | Some oldest => eraseSubResponseCacheEntry oldest.1 c
  | None => c
  end.

(** src/src/handler/interfaces.cpp:2133-2151 [getCachedSubResponse] *)
Definition getCachedSubResponse (key : str) (responseCacheTtl now : Z) (c : ResponseCache)
    : ResponseCache * option CoalescedResponse :=
  if responseCacheTtl <=? 0 then (c, None)
  else
    match entries_of c !! key with
    | None => (c, None)
    | Some e =>
        if expires_at e <=? now then (eraseSubResponseCacheEntry key c, None)
        else
          let number := u64 (last_sequence c + 1) in
          (mkResponseCache (<[key := mkCached (result e) (expires_at e) (cached_bytes e) number]> (entries_of c))
             (total_bytes c) number, Some (result e))
    end.

(** [headers.find("Cache-Control")] of a map that ignores case. *)
Definition header_value (name : str) (headers : list (str * str)) : option str :=
  (fun p : nat * (str * str) => p.2.2) <$> list_find (fun h => toLower h.1 = toLower name) headers.

Definition kMaxCachedResponses : nat := 2048.

(** src/src/handler/interfaces.cpp:2177-2180 [storeCachedSubResponse, eviction loop] *)
Fixpoint evict_until (fuel : nat) (max_bytes bytes : Z) (c : ResponseCache) : option ResponseCache :=
  if negb (bool_decide (entries_of c = ∅)) &&
     ((kMaxCachedResponses <=? size (entries_of c))%nat || (u64 (max_bytes - bytes) <? total_bytes c))
  then match fuel with
       | O => None
       | S fuel => evict_until fuel max_bytes bytes (evictOldestSubResponseCacheEntry c)
       end
  else Some c.

(** Whether a response is kept at all, and for how many seconds. *)
Definition storable (r : CoalescedResponse) : bool :=
  (status_code r =? 200) &&
  match header_value "Cache-Control" (resp_headers r) with
  | Some v => negb (strFind (toLower v) "no-store")
  | None => true
  end.
Definition kept_seconds (responseCacheTtl : Z) : Z := Z.min responseCacheTtl 5.

(** src/src/handler/interfaces.cpp:2153-2188 [storeCachedSubResponse] *)
Definition storeCachedSubResponse (key : str) (r : CoalescedResponse) (responseCacheTtl now max_bytes : Z)
    (c : ResponseCache) : option ResponseCache :=
  if (responseCacheTtl <=? 0) || negb (storable r) then Some c
  else
    let ttl := kept_seconds responseCacheTtl in
    if ttl <=? 0 then Some c
    else
      let c := pruneExpiredSubResponseCache now c in
      let bytes := coalescedResponseBytes r in
      if max_bytes <? bytes then Some c
      else
        let c := eraseSubResponseCacheEntry key c in
        c ← evict_until (size (entries_of c)) max_bytes bytes c;
        let number := u64 (last_sequence c + 1) in
        Some (mkResponseCache
                match entries_of c !! key with
                | Some _ => entries_of c     (* emplace keeps an existing entry *)
                | None => <[key := mkCached r (now + ttl * 1000000000) bytes number]> (entries_of c)
                end
                (u64 (total_bytes c + bytes)) number).

(** src/src/handler/interfaces.cpp:3593-3598 [responseMicroCacheSnapshot] *)
Definition responseMicroCacheSnapshot (now max_bytes : Z) (c : ResponseCache) : ResponseCache * (Z * Z * Z) :=
  let c := pruneExpiredSubResponseCache now c in (c, (Z.of_nat (size (entries_of c)), total_bytes c, max_bytes)).

(** ** The abstract cache *)

(** Keys with their response, its expiry and its size; most recently used
    first. *)
Notation abstract := (list (str * (CoalescedResponse * Z * Z))).

Definition spec_prune (now : Z) (l : abstract) : abstract := filter (fun x => now < x.2.1.2) l.
Definition spec_remove (key : str) (l : abstract) : abstract := filter (fun x => x.1 <> key) l.

Definition spec_get (key : str) (ttl now : Z) (l : abstract) : abstract * option CoalescedResponse :=
  if ttl <=? 0 then (l, None)
  else
    match spec_lookup key l with
    | None => (l, None)
    | Some v => if v.1.2 <=? now then (spec_remove key l, None)
                else ((key, v) :: spec_remove key l, Some v.1.1)
    end.

(** Whether a store has an effect on its key. *)
Definition effective (r : CoalescedResponse) (ttl max_bytes : Z) : bool :=
  (0 <? ttl) && storable r && (coalescedResponseBytes r <=? max_bytes).

Definition spec_store (key : str) (r : CoalescedResponse) (ttl now max_bytes : Z) (l : abstract) : abstract :=
  if (ttl <=? 0) || negb (storable r) then l
  else
    let l := spec_prune now l in
    if effective r ttl max_bytes
    then (key, (r, now + kept_seconds ttl * 1000000000, coalescedResponseBytes r)) ::
           spec_fit (Z.of_nat kMaxCachedResponses - 1) (max_bytes - coalescedResponseBytes r) (spec_remove key l)
    else l.

(** ** The representation relation *)

Notation slot := (str * CachedSubResponse)%type.
Definition forget (x : slot) : str * (CoalescedResponse * Z * Z) :=
  (x.1, (result x.2, expires_at x.2, cached_bytes x.2)).

Definition newer (x y : slot) : Prop := sequence y.2 < sequence x.2.

(** The map and the counters describe the entries [le], whose numbers fall. *)
Record rep (c : ResponseCache) (le : list slot) : Prop := {
  rep_map : entries_of c = list_to_map le;
  rep_keys : NoDup le.*1;
  rep_order : StronglySorted newer le;
  rep_numbers : forall x, x ∈ le -> sequence x.2 <= last_sequence c;
  rep_total : total_bytes c = sumZ (fun x : slot => cached_bytes x.2) le;
  rep_sizes : forall x, x ∈ le -> 0 <= cached_bytes x.2;
  rep_width : total_bytes c < 2 ^ 64;
  rep_sequence : 0 <= last_sequence c
}.

Definition represents (c : ResponseCache) (l : abstract) : Prop := exists le, rep c le /\ l = forget <$> le.

(** *** Facts about the entries *)

Lemma forget_filter (P : slot -> Prop) (Q : str * (CoalescedResponse * Z * Z) -> Prop)
  `{forall x, Decision (P x)} `{forall x, Decision (Q x)} (le : list slot) :
  (forall x, P x <-> Q (forget x)) -> forget <$> filter P le = filter Q (forget <$> le).
Proof.
  intros HPQ. induction le as [|x le IH]; [done|]. cbn [fmap list_fmap]. rewrite !filter_cons.
  destruct (decide (P x)) as [Hp|Hp]; [rewrite decide_True by (by apply HPQ)|rewrite decide_False by (by rewrite <- HPQ)].
  - cbn. by rewrite IH.
  - exact IH.
Qed.

Lemma StronglySorted_filter {A} (R : A -> A -> Prop) (P : A -> Prop) `{forall x, Decision (P x)} l :
  StronglySorted R l -> StronglySorted R (filter P l).
Proof.
  induction 1 as [|x l Hl IH Hx]; [constructor|]. rewrite filter_cons. case_decide; [|done].
  constructor; [done|]. apply Forall_forall. intros y Hy. apply list_elem_of_filter in Hy as [_ Hy].
  rewrite Forall_forall in Hx. auto.
Qed.

Lemma NoDup_keys_filter {A} (P : str * A -> Prop) `{forall x, Decision (P x)} (l : list (str * A)) :
  NoDup l.*1 -> NoDup (filter P l).*1.
Proof. intros Hl. eapply sublist_NoDup; [exact Hl|]. apply fmap_sublist, sublist_filter. Qed.

Lemma sumZ_filter_split {A} (f : A -> Z) (P : A -> Prop) `{forall x, Decision (P x)} l :
  sumZ f l = sumZ f (filter P l) + sumZ f (filter (fun x => ~ P x) l).
Proof. rewrite <- sumZ_app. symmetry. apply sumZ_Permutation, filter_app_complement. Qed.

Lemma rep_lookup c le k e : rep c le -> entries_of c !! k = Some e <-> (k, e) ∈ le.
Proof.
  intros R. rewrite (rep_map _ _ R). split; [apply elem_of_list_to_map_2|].
  apply elem_of_list_to_map_1, (rep_keys _ _ R).
Qed.

Lemma rep_unique c le k e e' : rep c le -> (k, e) ∈ le -> (k, e') ∈ le -> e = e'.
Proof. intros R H H'. apply (rep_lookup _ _ _ _ R) in H, H'. congruence. Qed.

(** Leaving out entries: what every removal has in common. *)
Lemma rep_filter c le (P : slot -> Prop) `{forall x, Decision (P x)} m t :
  rep c le -> m = list_to_map (filter P le) -> t = sumZ (fun x : slot => cached_bytes x.2) (filter P le) ->
  rep (mkResponseCache m t (last_sequence c)) (filter P le).
Proof.
  intros R -> ->. assert (forall x, x ∈ filter P le -> x ∈ le) as Hin by (intros x Hx; by apply list_elem_of_filter in Hx as [_ Hx]).
  constructor; cbn.
  - done.
  - by apply NoDup_keys_filter, (rep_keys _ _ R).
  - by apply StronglySorted_filter, (rep_order _ _ R).
  - intros x Hx. by apply (rep_numbers _ _ R), Hin.
  - done.
  - intros x Hx. by apply (rep_sizes _ _ R), Hin.
  - pose proof (rep_width _ _ R) as Hw. rewrite (rep_total _ _ R), (sumZ_filter_split _ P) in Hw.
    pose proof (sumZ_nonneg (fun x : slot => cached_bytes x.2) (filter (fun x => ~ P x) le)) as Hn.
    specialize (Hn ltac:(intros x Hx; apply list_elem_of_filter in Hx as [_ Hx]; by apply (rep_sizes _ _ R))). lia.
  - apply (rep_sequence _ _ R).
Qed.

Lemma filter_none {A} (P : A -> Prop) `{forall x, Decision (P x)} (l : list A) :
  (forall x, x ∈ l -> ~ P x) -> filter P l = [].
Proof.
  induction l as [|x l IH]; intros Hn; [done|]. rewrite filter_cons_False by (apply Hn; left).
  apply IH. intros y Hy. apply Hn. by right.
Qed.

Lemma list_to_map_filter_key (le : list slot) k :
  NoDup le.*1 -> delete k (list_to_map le : gmap str CachedSubResponse) = list_to_map (filter (fun x : slot => x.1 <> k) le).
Proof.
  intros Hnd. apply map_eq. intros j. destruct (decide (j = k)) as [->|Hj].
  - rewrite lookup_delete_eq. symmetry. apply not_elem_of_list_to_map_1. intros (x & -> & Hx)%list_elem_of_fmap.
    by apply list_elem_of_filter in Hx as [? _].
  - rewrite lookup_delete_ne by done. apply option_eq. intros e.
    rewrite <- !elem_of_list_to_map by (done || by apply NoDup_keys_filter). rewrite list_elem_of_filter. simpl. naive_solver.
Qed.

Lemma rep_absent c le k : rep c le -> entries_of c !! k = None -> filter (fun x : slot => x.1 <> k) le = le.
Proof.
  intros R Hk. apply filter_all_id. intros x Hx Heq. rewrite (rep_map _ _ R) in Hk.
  apply not_elem_of_list_to_map_2 in Hk. apply Hk, list_elem_of_fmap. exists x. by rewrite Heq.
Qed.

Lemma rep_key_filter c le k e : rep c le -> (k, e) ∈ le -> filter (fun x : slot => ~ x.1 <> k) le = [(k, e)].
Proof.
  intros R. pose proof (rep_keys _ _ R) as Hnd. clear R. intros (l1 & l2 & ->)%list_elem_of_split.
  rewrite fmap_app in Hnd. cbn in Hnd. apply NoDup_app in Hnd as (_ & H1 & [H2 _]%NoDup_cons).
  rewrite filter_app, filter_cons_True by (simpl; tauto).
  assert (forall l : list slot, k ∉ l.*1 -> filter (fun x : slot => ~ x.1 <> k) l = []) as Hnil.
  { intros l Hl. apply filter_none. intros x Hx Hn. apply dec_stable in Hn. apply Hl, list_elem_of_fmap. by exists x. }
  rewrite !Hnil; [done|done|]. intros Hin. apply (H1 k Hin). left.
Qed.

Lemma rep_erase c le k :
  rep c le -> rep (eraseSubResponseCacheEntry k c) (filter (fun x : slot => x.1 <> k) le).
Proof.
  intros R. unfold eraseSubResponseCacheEntry. destruct (entries_of c !! k) as [e|] eqn:E.
  2:{ by rewrite (rep_absent _ _ _ R E). }
  apply (rep_lookup _ _ _ _ R) in E. pose proof (rep_key_filter _ _ _ _ R E) as Hk.
  pose proof (sumZ_filter_split (fun x : slot => cached_bytes x.2) (fun x => x.1 <> k) le) as Hs.
  cbv beta in Hs. rewrite Hk, sumZ_cons, sumZ_nil, <- (rep_total _ _ R) in Hs. cbn in Hs.
  pose proof (sumZ_nonneg (fun x : slot => cached_bytes x.2) (filter (fun x => x.1 <> k) le)) as Hn.
  specialize (Hn ltac:(intros x Hx; apply list_elem_of_filter in Hx as [_ Hx]; by apply (rep_sizes _ _ R))).
  pose proof (rep_width _ _ R). pose proof (rep_sizes _ _ R _ E) as Hse. cbn in Hse.
  apply (rep_filter c le); [done|rewrite (rep_map _ _ R); apply list_to_map_filter_key, (rep_keys _ _ R)|].
  destruct (Z.leb_spec (cached_bytes e) (total_bytes c)); [|lia]. rewrite u64_small by lia. lia.
Qed.

Lemma last_sequence_erase k c : last_sequence (eraseSubResponseCacheEntry k c) = last_sequence c.
Proof. unfold eraseSubResponseCacheEntry. by case_match. Qed.

(** *** Pruning *)

Definition expired_keys (now : Z) (l : list slot) : list str := (filter (fun x : slot => expires_at x.2 <= now) l).*1.

Lemma prune_loop l : forall c le now, rep c le ->
  let c' := foldl (fun c (e : slot) => if expires_at e.2 <=? now then eraseSubResponseCacheEntry e.1 c else c) c l in
  rep c' (filter (fun x : slot => x.1 ∉ expired_keys now l) le) /\ last_sequence c' = last_sequence c.
Proof.
  induction l as [|y l IH]; intros c le now R; cbn [foldl].
  - rewrite filter_all_id; [done|]. intros x _. apply not_elem_of_nil.
  - unfold expired_keys. rewrite filter_cons. destruct (Z.leb_spec (expires_at y.2) now) as [Hy|Hy].
    + rewrite decide_True by done. destruct (IH _ _ now (rep_erase _ _ y.1 R)) as [H1 H2].
      rewrite last_sequence_erase in H2. split; [|done]. rewrite list_filter_filter in H1.
      eapply eq_rect; [exact H1|]. apply list_filter_iff. intros x. cbn [fmap list_fmap]. rewrite not_elem_of_cons.
      unfold expired_keys. tauto.
    + rewrite decide_False by lia. by apply IH.
Qed.

Lemma rep_prune c le now :
  rep c le -> rep (pruneExpiredSubResponseCache now c) (filter (fun x : slot => now < expires_at x.2) le) /\
  last_sequence (pruneExpiredSubResponseCache now c) = last_sequence c.
Proof.
  intros R. destruct (prune_loop (map_to_list (entries_of c)) c le now R) as [H1 H2]. split; [|exact H2].
  eapply eq_rect; [exact H1|]. apply filter_ext_elem. intros x Hx.
  unfold expired_keys. rewrite list_elem_of_fmap. split.
  - intros Hn. destruct (Z.lt_ge_cases now (expires_at x.2)) as [|Hge]; [done|]. exfalso. apply Hn. exists x. split; [done|].
    apply list_elem_of_filter. split; [done|]. destruct x as [k e]. apply elem_of_map_to_list, (rep_lookup _ _ _ _ R). done.
  - intros Hlt (y & Hk & Hy). apply list_elem_of_filter in Hy as [Hy Hin]. destruct x as [k e], y as [k' e']. cbn in *. subst k'.
    apply elem_of_map_to_list, (rep_lookup _ _ _ _ R) in Hin. rewrite (rep_unique _ _ _ _ _ R Hx Hin) in Hlt. lia.
Qed.

(** *** Eviction *)

Lemma min_sequence_spec l :
  match min_sequence l with
  | None => l = []
  | Some x => x ∈ l /\ forall y, y ∈ l -> sequence x.2 <= sequence y.2
  end.
Proof.
  induction l as [|x l IH]; [done|]. cbn [min_sequence foldr]. fold (min_sequence l).
  destruct (min_sequence l) as [b|].
  - destruct IH as [Hb Hle]. destruct (Z.leb_spec (sequence x.2) (sequence b.2)).
    + split; [left|]. intros y [->|Hy]%elem_of_cons; [lia|]. specialize (Hle y Hy). lia.
    + split; [by right|]. intros y [->|Hy]%elem_of_cons; [lia|auto].
  - subst l. split; [left|]. intros y [->|Hy]%elem_of_cons; [lia|by apply not_elem_of_nil in Hy].
Qed.

Lemma StronglySorted_snoc {A} (R : A -> A -> Prop) l z :
  StronglySorted R (l ++ [z]) -> forall y, y ∈ l -> R y z.
Proof.
  induction l as [|x l IH]; intros Hs y Hy; [by apply not_elem_of_nil in Hy|].
  apply StronglySorted_inv in Hs as [Hs Hx]. apply elem_of_cons in Hy as [->|Hy]; [|by apply IH].
  rewrite Forall_forall in Hx. apply Hx, elem_of_app. right. left.
Qed.

(** The smallest number is that of the last entry. *)
Lemma rep_oldest c le z : rep c (le ++ [z]) -> min_sequence (map_to_list (entries_of c)) = Some z.
Proof.
  intros R. pose proof (min_sequence_spec (map_to_list (entries_of c))) as H.
  assert (forall x : slot, x ∈ map_to_list (entries_of c) <-> x ∈ le ++ [z]) as Hin.
  { intros [k e]. by rewrite elem_of_map_to_list, (rep_lookup _ _ _ _ R). }
  destruct (min_sequence _) as [x|].
  - destruct H as [Hx Hle]. specialize (Hle z ltac:(apply Hin, elem_of_app; right; left)).
    apply Hin, elem_of_app in Hx as [Hx|Hx%list_elem_of_singleton]; [|by subst].
    pose proof (StronglySorted_snoc _ _ _ (rep_order _ _ R) x Hx) as Hn. unfold newer in Hn. lia.
  - exfalso. apply (not_elem_of_nil z). rewrite <- H. apply Hin, elem_of_app. right. left.
Qed.

Lemma rep_evict c le :
  rep c le -> le <> [] ->
  rep (evictOldestSubResponseCacheEntry c) (removelast le) /\
  last_sequence (evictOldestSubResponseCacheEntry c) = last_sequence c.
Proof.
  intros R Hne. destruct (exists_last Hne) as (le0 & z & ->). rewrite removelast_snoc.
  unfold evictOldestSubResponseCacheEntry. rewrite (rep_oldest _ _ _ R). split; [|apply last_sequence_erase].
  pose proof (rep_erase _ _ z.1 R) as R'. rewrite filter_app in R'.
  rewrite (filter_none _ [z]) in R'.
  2:{ intros x Hx%list_elem_of_singleton. subst. tauto. }
  rewrite app_nil_r, filter_all_id in R'; [exact R'|]. intros x Hx Heq.
  pose proof (rep_keys _ _ R) as Hnd. rewrite fmap_app in Hnd. apply NoDup_app in Hnd as (_ & Hd & _).
  apply (Hd x.1); [apply list_elem_of_fmap; by exists x|]. rewrite Heq. left.
Qed.

Lemma rep_size c le : rep c le -> size (entries_of c) = length le.
Proof. intros R. rewrite (rep_map _ _ R), map_size_list_to_map by apply (rep_keys _ _ R). done. Qed.

Lemma rep_spec_bytes c le : rep c le -> spec_bytes (forget <$> le) = total_bytes c.
Proof. intros R. unfold spec_bytes. rewrite sumZ_fmap, (rep_total _ _ R). done. Qed.

Lemma rep_spec_sizes c le : rep c le -> forall x, x ∈ forget <$> le -> 0 <= x.2.2.
Proof. intros R x (y & -> & Hy)%list_elem_of_fmap. by apply (rep_sizes _ _ R) in Hy. Qed.

Lemma evict_until_ok fuel c le max_bytes bytes :
  rep c le -> (length le <= fuel)%nat -> 0 <= bytes <= max_bytes -> max_bytes < 2 ^ 63 ->
  exists c' le', evict_until fuel max_bytes bytes c = Some c' /\ rep c' le' /\
    forget <$> le' = spec_fit (Z.of_nat kMaxCachedResponses - 1) (max_bytes - bytes) (forget <$> le) /\
    last_sequence c' = last_sequence c.
Proof.
  intros R Hf Hb Hm. revert c le R Hf. induction fuel as [|fuel IH]; intros c le R Hf; cbn [evict_until];
    rewrite (rep_size _ _ R), (u64_small (max_bytes - bytes)) by lia;
    destruct (negb (bool_decide (entries_of c = ∅)) && _) eqn:Hover.
  - exfalso. destruct le; [|simpl in Hf; lia]. rewrite (rep_map _ _ R) in Hover. done.
  - exists c, le. split_and!; try done. destruct le; [done|simpl in Hf; lia].
  - apply andb_true_iff in Hover as [Hne Hover]. assert (le <> []) as Hle.
    { intros ->. rewrite (rep_map _ _ R) in Hne. done. }
    destruct (rep_evict _ _ R Hle) as [R' Hseq]. destruct (IH _ _ R') as (c' & le' & -> & R'' & Hfit & Hs).
    { destruct (exists_last Hle) as (le0 & z & ->). rewrite removelast_snoc. rewrite length_app in Hf. simpl in Hf. lia. }
    exists c', le'. split_and!; [done|done| |congruence]. rewrite Hfit. symmetry.
    rewrite spec_fit_removelast; [|by eapply rep_spec_sizes|by destruct le|].
    + f_equal. destruct (exists_last Hle) as (le0 & z & ->). rewrite fmap_app, removelast_snoc. apply (removelast_snoc (forget <$> le0)).
    + rewrite length_fmap, (rep_spec_bytes _ _ R). apply orb_true_iff in Hover as [H%Nat.leb_le|H%Z.ltb_lt]; [left|by right].
      unfold kMaxCachedResponses in *. lia.
  - exists c, le. split_and!; try done. symmetry. destruct le as [|x le]; [done|].
    apply andb_false_iff in Hover as [Hne|Hover].
    { apply negb_false_iff, bool_decide_eq_true in Hne. pose proof (rep_size _ _ R) as Hsz. rewrite Hne in Hsz. done. }
    apply orb_false_iff in Hover as [H1%Nat.leb_gt H2%Z.ltb_ge]. apply spec_fit_id; [by eapply rep_spec_sizes| |].
    + rewrite length_fmap. unfold kMaxCachedResponses in *. lia.
    + rewrite (rep_spec_bytes _ _ R). lia.
Qed.

(** *** The operations against the abstract cache *)

Lemma forget_lookup c le k :
  rep c le -> spec_lookup k (forget <$> le) = (fun e => (result e, expires_at e, cached_bytes e)) <$> (entries_of c !! k).
Proof.
  intros R. rewrite (rep_map _ _ R). unfold spec_lookup. rewrite <- lookup_fmap. f_equal.
  assert (forget <$> le = prod_map id (fun e => (result e, expires_at e, cached_bytes e)) <$> le) as ->.
  { apply list_fmap_ext. by intros i [k' e] _. }
  by rewrite list_to_map_fmap.
Qed.

Lemma forget_remove k (le : list slot) : forget <$> filter (fun x : slot => x.1 <> k) le = spec_remove k (forget <$> le).
Proof. unfold spec_remove. by apply forget_filter. Qed.

Lemma forget_prune now (le : list slot) :
  forget <$> filter (fun x : slot => now < expires_at x.2) le = spec_prune now (forget <$> le).
Proof. unfold spec_prune. by apply forget_filter. Qed.

(** A new entry in front of the others, with the next number. *)
Lemma rep_push c le k e :
  rep c le -> last_sequence c < 2 ^ 64 - 1 -> k ∉ le.*1 -> 0 <= cached_bytes e ->
  total_bytes c + cached_bytes e < 2 ^ 64 -> sequence e = u64 (last_sequence c + 1) ->
  rep (mkResponseCache (<[k := e]> (entries_of c)) (total_bytes c + cached_bytes e) (u64 (last_sequence c + 1))) ((k, e) :: le).
Proof.
  intros R Hseq Hk He Hw Hn. pose proof (rep_sequence _ _ R). rewrite u64_small in Hn |- * by lia. constructor; cbn.
  - by rewrite (rep_map _ _ R).
  - constructor; [done|apply (rep_keys _ _ R)].
  - constructor; [apply (rep_order _ _ R)|]. apply Forall_forall. intros x Hx. unfold newer. cbn.
    pose proof (rep_numbers _ _ R x Hx). lia.
  - intros x [->|Hx]%elem_of_cons; cbn; [lia|]. pose proof (rep_numbers _ _ R x Hx). lia.
  - rewrite sumZ_cons, <- (rep_total _ _ R). cbn. lia.
  - intros x [->|Hx]%elem_of_cons; [done|by apply (rep_sizes _ _ R)].
  - done.
  - lia.
Qed.

Lemma not_key_filter (k : str) (P : slot -> Prop) `{forall x, Decision (P x)} (le : list slot) :
  (forall x, x ∈ le -> P x -> x.1 <> k) -> k ∉ (filter P le).*1.
Proof. intros HP (x & -> & Hx)%list_elem_of_fmap. apply list_elem_of_filter in Hx as [Hx Hin]. by apply (HP x). Qed.

Lemma get_represents key ttl now c l :
  represents c l -> last_sequence c < 2 ^ 64 - 1 ->
  represents (getCachedSubResponse key ttl now c).1 (spec_get key ttl now l).1 /\
  (getCachedSubResponse key ttl now c).2 = (spec_get key ttl now l).2 /\
  last_sequence (getCachedSubResponse key ttl now c).1 <= last_sequence c + 1.
Proof.
  intros (le & R & ->) Hseq. pose proof (rep_sequence _ _ R). unfold getCachedSubResponse, spec_get.
  destruct (ttl <=? 0); [cbn; split_and!; [by exists le|done|lia]|].
  rewrite (forget_lookup _ _ _ R). destruct (entries_of c !! key) as [e|] eqn:E; cbn [fmap option_fmap option_map fst snd].
  2:{ split_and!; [by exists le|done|lia]. }
  destruct (expires_at e <=? now).
  { cbn [fst snd]. rewrite last_sequence_erase. split_and!; [|done|lia]. exists (filter (fun x : slot => x.1 <> key) le).
    split; [by apply rep_erase|symmetry; apply forget_remove]. }
  cbn [fst snd last_sequence]. rewrite u64_small by lia. split_and!; [|done|lia].
  pose proof E as Hin. apply (rep_lookup _ _ _ _ R) in Hin. pose proof (rep_erase _ _ key R) as R'.
  exists ((key, mkCached (result e) (expires_at e) (cached_bytes e) (last_sequence c + 1)) :: filter (fun x : slot => x.1 <> key) le).
  split; [|cbn; by rewrite forget_remove].
  pose proof (rep_sizes _ _ R _ Hin) as Hb. cbn in Hb.
  assert (total_bytes (eraseSubResponseCacheEntry key c) + cached_bytes e = total_bytes c) as Ht.
  { rewrite (rep_total _ _ R'), (rep_total _ _ R), (sumZ_filter_split _ (fun x : slot => x.1 <> key) le).
    cbv beta. rewrite (rep_key_filter _ _ _ _ R Hin), sumZ_cons, sumZ_nil. cbn. lia. }
  pose proof (rep_push _ _ key (mkCached (result e) (expires_at e) (cached_bytes e) (last_sequence c + 1)) R') as R''.
  rewrite last_sequence_erase in R''. cbn [cached_bytes sequence] in R''. rewrite Ht, u64_small in R'' by lia.
  unfold eraseSubResponseCacheEntry in R''. rewrite E in R''. cbn [entries_of] in R''. rewrite insert_delete_eq in R''.
  apply R''; try done.
  - by apply not_key_filter.
  - apply (rep_width _ _ R).
Qed.

Lemma spec_fit_prefix me mb (l : abstract) : exists l', l = spec_fit me mb l ++ l'.
Proof.
  revert me mb. induction l as [|[k [v b]] l IH]; intros me mb; cbn [spec_fit]; [by exists []|].
  split_if; [|by eexists]. destruct (IH (me - 1) (mb - b)) as [l' Hl]. exists l'. cbn. by rewrite <- Hl.
Qed.

Lemma response_size r : 0 <= coalescedResponseBytes r.
Proof.
  unfold coalescedResponseBytes. pose proof (sumZ_nonneg (fun h : str * str => Z.of_nat (length h.1) + Z.of_nat (length h.2)) (resp_headers r)) as H.
  specialize (H ltac:(intros x _; cbv beta; lia)). lia.
Qed.

Lemma store_represents key r ttl now max_bytes c l :
  represents c l -> last_sequence c < 2 ^ 64 - 1 -> max_bytes < 2 ^ 63 ->
  exists c', storeCachedSubResponse key r ttl now max_bytes c = Some c' /\
    represents c' (spec_store key r ttl now max_bytes l) /\ last_sequence c' <= last_sequence c + 1.
Proof.
  intros (le & R & ->) Hseq Hm. pose proof (rep_sequence _ _ R). unfold storeCachedSubResponse, spec_store.
  destruct ((ttl <=? 0) || negb (storable r)) eqn:Hg; [exists c; split_and!; [done|by exists le|lia]|].
  apply orb_false_iff in Hg as [Httl%Z.leb_gt Hst%negb_false_iff]. cbv zeta. unfold kept_seconds.
  destruct (Z.leb_spec (Z.min ttl 5) 0); [lia|].
  destruct (rep_prune _ _ now R) as [R1 Hs1]. rewrite <- forget_prune. set (le1 := filter _ le) in *. set (c1 := pruneExpiredSubResponseCache now c) in *.
  unfold effective. rewrite Hst. destruct (Z.ltb_spec 0 ttl); [|lia]. cbn [andb].
  set (b := coalescedResponseBytes r). pose proof (response_size r) as Hb. fold b in Hb.
  destruct (Z.ltb_spec max_bytes b) as [Hgt|Hle].
  { destruct (Z.leb_spec b max_bytes); [lia|]. exists c1. split_and!; [done|by exists le1|lia]. }
  destruct (Z.leb_spec b max_bytes); [|lia].
  pose proof (rep_erase _ _ key R1) as R2. set (le2 := filter (fun x : slot => x.1 <> key) le1) in *.
  destruct (evict_until_ok (size (entries_of (eraseSubResponseCacheEntry key c1))) _ _ max_bytes b R2) as (c3 & le3 & -> & R3 & Hfit & Hs3);
    [by rewrite (rep_size _ _ R2)|lia|lia|]. cbn [mbind option_bind].
  rewrite last_sequence_erase, Hs1 in Hs3. rewrite Hs3.
  assert (key ∉ le3.*1) as Hk.
  { intros Hin. assert (key ∈ (forget <$> le3).*1) as Hin3.
    { rewrite <- list_fmap_compose. exact Hin. }
    destruct (spec_fit_prefix (Z.of_nat kMaxCachedResponses - 1) (max_bytes - b) (forget <$> le2)) as [l' Hl].
    rewrite Hfit in Hin3. assert (key ∈ (forget <$> le2).*1) as Hin2 by (rewrite Hl, fmap_app; apply elem_of_app; by left).
    rewrite <- list_fmap_compose in Hin2. revert Hin2. by apply not_key_filter. }
  assert (entries_of c3 !! key = None) as -> by (rewrite (rep_map _ _ R3); by apply not_elem_of_list_to_map_1).
  assert (0 <= total_bytes c3 <= max_bytes - b) as Ht.
  { rewrite <- (rep_spec_bytes _ _ R3), Hfit. apply spec_fit_bounds; [unfold kMaxCachedResponses; lia|lia|by eapply rep_spec_sizes]. }
  rewrite (u64_small (total_bytes c3 + b)) by lia.
  eexists. split_and!; [done| |cbn; rewrite u64_small by lia; lia].
  exists ((key, mkCached r (now + Z.min ttl 5 * 1000000000) b (u64 (last_sequence c + 1))) :: le3). split.
  - rewrite <- Hs3. apply (rep_push c3 le3 key (mkCached r _ b _)); cbn; try done; lia.
  - cbn. unfold le2 in Hfit. by rewrite Hfit, forget_remove.
Qed.

Lemma empty_represents : represents empty_cache [].
Proof.
  exists []. split; [|done]. constructor; cbn; try done; try constructor; try (intros x Hx; by apply not_elem_of_nil in Hx); lia.
Qed.

(** ** Histories *)

(** What happens to the cache, one critical section after the other. *)
Inductive operation :=
  | Get (key : str) (ttl now : Z)
  | Store (key : str) (r : CoalescedResponse) (ttl now : Z)
  | Snapshot (now : Z).

Section Histories.
Context (max_bytes : Z) (Hmax : 0 <= max_bytes < 2 ^ 63).

Definition perform (op : operation) (c : ResponseCache) : option ResponseCache :=
  match op with
  | Get key ttl now => Some (getCachedSubResponse key ttl now c).1
  | Store key r ttl now => storeCachedSubResponse key r ttl now max_bytes c
  | Snapshot now => Some (responseMicroCacheSnapshot now max_bytes c).1
  end.

Definition perform_all (ops : list operation) (c : ResponseCache) : option ResponseCache :=
  foldl (fun c op => c ← c; perform op c) (Some c) ops.

Definition spec_perform (l : abstract) (op : operation) : abstract :=
  match op with
  | Get key ttl now => (spec_get key ttl now l).1
  | Store key r ttl now => spec_store key r ttl now max_bytes l
  | Snapshot now => spec_prune now l
  end.

Lemma perform_represents op c l :
  represents c l -> last_sequence c < 2 ^ 64 - 1 ->
  exists c', perform op c = Some c' /\ represents c' (spec_perform l op) /\ last_sequence c' <= last_sequence c + 1.
Proof.
  intros R Hs. destruct op as [key ttl now|key r ttl now|now]; cbn [perform spec_perform].
  - destruct (get_represents key ttl now c l R Hs) as (H1 & _ & H2). eauto.
  - apply store_represents; [done|done|lia].
  - destruct R as (le & R & ->). destruct (rep_prune _ _ now R) as [H1 H2]. eexists. split_and!; [done| |cbn; lia].
    eexists. split; [exact H1|]. symmetry. apply forget_prune.
Qed.

Lemma perform_all_represents ops :
  Z.of_nat (length ops) < 2 ^ 64 - 1 ->
  exists c, perform_all ops empty_cache = Some c /\ represents c (foldl spec_perform [] ops) /\
    last_sequence c <= Z.of_nat (length ops).
Proof.
  induction ops as [|op ops IH] using rev_ind; intros Hlen.
  - exists empty_cache. split_and!; [done|apply empty_represents|done].
  - rewrite length_app in Hlen |- *. cbn [length] in *. destruct IH as (c & Hc & R & Hs); [lia|].
    destruct (perform_represents op c _ R) as (c' & Hc' & R' & Hs'); [lia|].
    exists c'. unfold perform_all in *. rewrite !foldl_app, Hc. cbn. split_and!; [done|done|lia].
Qed.

(** An effective store of a key. *)
Definition stores (key : str) (op : operation) : bool :=
  match op with Store k r ttl _ => bool_decide (k = key) && effective r ttl max_bytes | _ => false end.

(** Where an entry comes from: the last effective store of its key. *)
Definition provenance (ops : list operation) (x : str * (CoalescedResponse * Z * Z)) : Prop :=
  exists pre r ttl t post, ops = pre ++ Store x.1 r ttl t :: post /\ effective r ttl max_bytes = true /\
    x.2 = (r, t + kept_seconds ttl * 1000000000, coalescedResponseBytes r) /\
    Forall (fun op => stores x.1 op = false) post.

(** What holds of the abstract cache after a history. *)
Record sound (ops : list operation) (l : abstract) : Prop := {
  sound_keys : NoDup l.*1;
  sound_length : (length l <= kMaxCachedResponses)%nat;
  sound_bytes : spec_bytes l <= max_bytes;
  sound_sizes : forall x, x ∈ l -> 0 <= x.2.2;
  sound_from : forall x, x ∈ l -> provenance ops x
}.

Lemma provenance_snoc ops op x : provenance ops x -> stores x.1 op = false -> provenance (ops ++ [op]) x.
Proof.
  intros (pre & r & ttl & t & post & -> & He & Hx & Hp) Hop. exists pre, r, ttl, t, (post ++ [op]).
  split_and!; [by rewrite <- app_assoc|done|done|]. apply Forall_app. by split; [|constructor].
Qed.

Lemma spec_bytes_filter (P : str * (CoalescedResponse * Z * Z) -> Prop) `{forall x, Decision (P x)} (l : abstract) :
  (forall x, x ∈ l -> 0 <= x.2.2) -> spec_bytes (filter P l) <= spec_bytes l.
Proof.
  intros Hl. unfold spec_bytes. rewrite (sumZ_filter_split _ P l).
  pose proof (sumZ_nonneg (fun x : str * (CoalescedResponse * Z * Z) => x.2.2) (filter (fun x => ~ P x) l)) as H'.
  specialize (H' ltac:(intros x Hx; apply list_elem_of_filter in Hx as [_ Hx]; by apply Hl)). lia.
Qed.

(** Leaving out entries keeps everything, if the step stores nothing new for
    the ones that stay. *)
Lemma sound_filter ops op l (P : str * (CoalescedResponse * Z * Z) -> Prop) `{forall x, Decision (P x)} :
  sound ops l -> (forall x, x ∈ l -> P x -> stores x.1 op = false) -> sound (ops ++ [op]) (filter P l).
Proof.
  intros [Hk Hl Hb Hs Hf] Hop. assert (forall x, x ∈ filter P l -> x ∈ l /\ P x) as Hin.
  { intros x Hx. by apply list_elem_of_filter in Hx as [? ?]. }
  constructor.
  - eapply sublist_NoDup; [exact Hk|]. apply fmap_sublist, sublist_filter.
  - etransitivity; [|exact Hl]. apply sublist_length, sublist_filter.
  - etransitivity; [|exact Hb]. by apply spec_bytes_filter.
  - intros x Hx. by apply Hs, Hin.
  - intros x [Hx HP]%Hin. apply provenance_snoc; auto.
Qed.

Lemma spec_touch_permutation key v (l : abstract) :
  NoDup l.*1 -> spec_lookup key l = Some v -> (key, v) :: spec_remove key l ≡ₚ l.
Proof.
  intros Hk Hv. unfold spec_lookup in Hv. apply elem_of_list_to_map_2 in Hv. unfold spec_remove.
  apply list_elem_of_split in Hv as (l1 & l2 & ->). rewrite fmap_app in Hk. cbn in Hk.
  apply NoDup_app in Hk as (_ & H1 & [H2 _]%NoDup_cons).
  rewrite filter_app, filter_cons_False by (simpl; tauto). rewrite !filter_all_id; [by rewrite Permutation_middle|..].
  - intros x Hx Heq. apply H2, list_elem_of_fmap. by exists x.
  - intros x Hx Heq. apply (H1 x.1); [apply list_elem_of_fmap; by exists x|]. rewrite Heq. left.
Qed.

Lemma sound_permutation ops l k : l ≡ₚ k -> sound ops k -> sound ops l.
Proof.
  intros Hp [Hk Hl Hb Hs Hf]. constructor.
  - by rewrite Hp.
  - by rewrite Hp.
  - unfold spec_bytes in *. by rewrite (sumZ_Permutation _ _ _ Hp).
  - intros x Hx. apply Hs. by rewrite <- Hp.
  - intros x Hx. apply Hf. by rewrite <- Hp.
Qed.

Lemma sound_snoc ops op l : sound ops l -> (forall k, stores k op = false) -> sound (ops ++ [op]) l.
Proof.
  intros Hs Hop. rewrite <- (filter_all_id (fun _ => True) l) by done. by apply (sound_filter ops op l (fun _ => True)).
Qed.

Lemma elem_of_spec_fit me mb (l : abstract) x : x ∈ spec_fit me mb l -> x ∈ l.
Proof. destruct (spec_fit_prefix me mb l) as [l' Hl]. intros H. rewrite Hl. apply elem_of_app. by left. Qed.

Lemma sound_store ops key r ttl now l :
  sound ops l -> sound (ops ++ [Store key r ttl now]) (spec_store key r ttl now max_bytes l).
Proof.
  intros Hs. unfold spec_store. destruct ((ttl <=? 0) || negb (storable r)) eqn:Hg.
  { apply sound_snoc; [done|]. intros k. cbn. apply andb_false_iff. right. unfold effective.
    apply orb_true_iff in Hg as [H%Z.leb_le|H%negb_true_iff]; [destruct (Z.ltb_spec 0 ttl); [lia|done]|].
    rewrite H. by rewrite andb_false_r. }
  destruct (effective r ttl max_bytes) eqn:He.
  2:{ apply sound_filter; [done|]. intros x _ _. cbn. by rewrite He, andb_false_r. }
  assert (sound (ops ++ [Store key r ttl now]) (spec_remove key (spec_prune now l))) as Hr.
  { unfold spec_remove, spec_prune. rewrite list_filter_filter. apply sound_filter; [done|].
    intros x _ [Hx _]. cbn. rewrite bool_decide_false by congruence. done. }
  destruct Hr as [Hk Hl Hb Hz Hf]. set (l2 := spec_remove key (spec_prune now l)) in *.
  apply andb_true_iff in He as He'. destruct He' as [_ Hfit%Z.leb_le]. pose proof (response_size r) as Hr.
  destruct (spec_fit_bounds (Z.of_nat kMaxCachedResponses - 1) (max_bytes - coalescedResponseBytes r) l2)
    as [Hfl Hfb]; [unfold kMaxCachedResponses; lia|lia|done|].
  constructor.
  - cbn. constructor.
    + intros (x & -> & Hx)%list_elem_of_fmap. apply elem_of_spec_fit in Hx. unfold l2, spec_remove in Hx.
      by apply list_elem_of_filter in Hx as [? _].
    + destruct (spec_fit_prefix (Z.of_nat kMaxCachedResponses - 1) (max_bytes - coalescedResponseBytes r) l2) as [l' Hl'].
      rewrite Hl', fmap_app in Hk. by apply NoDup_app in Hk as (? & _ & _).
  - cbn. unfold kMaxCachedResponses in *. lia.
  - unfold spec_bytes in *. rewrite sumZ_cons. cbn. lia.
  - intros x [->|Hx]%elem_of_cons; [done|]. by apply Hz, (elem_of_spec_fit _ _ _ _ Hx).
  - intros x [->|Hx]%elem_of_cons; [|by apply Hf, (elem_of_spec_fit _ _ _ _ Hx)].
    exists ops, r, ttl, now, []. by split_and!.
Qed.

Lemma sound_perform ops op l : sound ops l -> sound (ops ++ [op]) (spec_perform l op).
Proof.
  intros Hs. destruct op as [key ttl now|key r ttl now|now]; cbn [spec_perform].
  - unfold spec_get. destruct (ttl <=? 0); [by apply sound_snoc|].
    destruct (spec_lookup key l) as [v|] eqn:E; [|by apply sound_snoc].
    destruct (v.1.2 <=? now); [by apply sound_filter|]. cbn [fst]. apply sound_snoc; [|done].
    eapply sound_permutation; [|exact Hs]. apply spec_touch_permutation; [apply (sound_keys _ _ Hs)|done].
  - by apply sound_store.
  - by apply sound_filter.
Qed.

Lemma sound_history ops : sound ops (foldl spec_perform [] ops).
Proof.
  induction ops as [|op ops IH] using rev_ind.
  - split; cbn; [by apply NoDup_nil_2|unfold kMaxCachedResponses; lia|unfold spec_bytes; rewrite sumZ_nil; lia|..]; intros x Hx; by apply not_elem_of_nil in Hx.
  - rewrite foldl_app. by apply sound_perform.
Qed.

(** After any sequence of lookups, stores and snapshots the cache holds
    at most 2048 responses whose sizes add up to its byte counter and to at
    most the limit, and a lookup that succeeds returns the response of the
    last effective store of its key, of a successful response that may be
    stored, at most five seconds and at most the configured time ago. *)
Theorem cached_response_fresh ops :
  Z.of_nat (length ops) < 2 ^ 64 - 1 ->
  exists c, perform_all ops empty_cache = Some c /\
    (size (entries_of c) <= kMaxCachedResponses)%nat /\ 0 <= total_bytes c <= max_bytes /\
    total_bytes c = sumZ (fun x : slot => cached_bytes x.2) (map_to_list (entries_of c)) /\
    forall key ttl now r, (getCachedSubResponse key ttl now c).2 = Some r ->
      exists pre ttl' t post, ops = pre ++ Store key r ttl' t :: post /\
        0 < ttl' /\ storable r = true /\ now < t + Z.min ttl' 5 * 1000000000 /\
        Forall (fun op => stores key op = false) post.
Proof.
  intros Hlen. destruct (perform_all_represents ops Hlen) as (c & Hc & R & Hseq). exists c.
  pose proof (sound_history ops) as [Hk Hl Hb Hs Hf]. pose proof (get_represents) as Hget.
  split; [done|]. set (l := foldl spec_perform [] ops) in *. pose proof R as (le & Rle & Hle).
  rewrite (rep_size _ _ Rle), <- (rep_spec_bytes _ _ Rle), <- Hle.
  assert (length le = length l) as -> by (rewrite Hle; by rewrite length_fmap).
  assert (0 <= spec_bytes l) by (apply sumZ_nonneg; exact Hs).
  split_and!; [done|done|done| |].
  - rewrite (rep_map _ _ Rle), Hle, (rep_spec_bytes _ _ Rle), (rep_total _ _ Rle). apply sumZ_Permutation.
    symmetry. apply map_to_list_to_map, (rep_keys _ _ Rle).
  - intros key ttl now r Hr. destruct (Hget key ttl now c l R) as (_ & Hg & _); [lia|]. rewrite Hg in Hr.
    unfold spec_get in Hr. destruct (ttl <=? 0); [done|]. destruct (spec_lookup key l) as [v|] eqn:E; [|done].
    destruct (Z.leb_spec v.1.2 now) as [|Hnow]; [done|]. cbn in Hr. injection Hr as <-.
    unfold spec_lookup in E. apply elem_of_list_to_map_2 in E.
    destruct (Hf _ E) as (pre & r & ttl' & t & post & Hops & He & Hx & Hp). cbn in *. subst v. cbn in *.
    unfold effective in He. bools. exists pre, ttl', t, post. unfold kept_seconds in Hnow. split_and!; try done.
    by apply Z.ltb_lt.
Qed.
End Histories.

(** The cache behaves as the list of its entries in the order of their
    last use: a lookup moves a fresh entry to the front and drops an expired
    one; a store drops all expired entries and the key's own one, then keeps
    the longest most recently used part that leaves room for the new response
    within the entry and byte limits, its eviction loop ending by itself; a
    snapshot drops the expired entries.  Held for as long as the use counter
    has not gone through all its 2^64 values. *)
Theorem response_cache_refines c l max_bytes :
  represents c l -> last_sequence c < 2 ^ 64 - 1 -> max_bytes < 2 ^ 63 ->
  (forall key ttl now, exists c',
     getCachedSubResponse key ttl now c = (c', (spec_get key ttl now l).2) /\ represents c' (spec_get key ttl now l).1) /\
  (forall key r ttl now, exists c', storeCachedSubResponse key r ttl now max_bytes c = Some c' /\
     represents c' (spec_store key r ttl now max_bytes l)) /\
  (forall now, exists c', responseMicroCacheSnapshot now max_bytes c =
       (c', (Z.of_nat (length (spec_prune now l)), spec_bytes (spec_prune now l), max_bytes)) /\
     represents c' (spec_prune now l)).
Proof.
  intros R Hs Hm. split_and!.
  - intros key ttl now. destruct (get_represents key ttl now c l R Hs) as (H1 & H2 & _).
    exists (getCachedSubResponse key ttl now c).1. split; [|done]. rewrite <- H2. by destruct (getCachedSubResponse _ _ _ _).
  - intros key r ttl now. destruct (store_represents key r ttl now max_bytes c l R Hs Hm) as (c' & ? & ? & _). eauto.
  - intros now. destruct R as (le & R & ->). destruct (rep_prune _ _ now R) as [R' _].
    exists (pruneExpiredSubResponseCache now c). rewrite <- forget_prune. unfold responseMicroCacheSnapshot.
    rewrite (rep_size _ _ R'), (rep_spec_bytes _ _ R'), length_fmap. split; [done|]. by eexists.
Qed.

Definition sample_response : CoalescedResponse := mkCoalesced 200 "text/plain" [] (Some "body"%str) [] false 0.

Lemma response_cache_refines_witness :
  exists c', storeCachedSubResponse "k" sample_response 60 7 1024 empty_cache = Some c' /\
    represents c' [("k"%str, (sample_response, 5000000007, 14))].
Proof.
  destruct (response_cache_refines empty_cache [] 1024 empty_represents) as (_ & H & _); [cbn; lia|lia|].
  destruct (H "k"%str sample_response 60 7) as (c' & H1 & H2). exists c'. split; [exact H1|]. exact H2.
Defined.

Lemma cached_response_fresh_witness :
  exists c, perform_all 1024 [Store "k" sample_response 60 7; Snapshot 8] empty_cache = Some c /\
    (getCachedSubResponse "k" 60 5000000006 c).2 = Some sample_response /\
    exists ttl' t, 5000000006 < t + Z.min ttl' 5 * 1000000000.
Proof.
  destruct (cached_response_fresh 1024 ltac:(lia) [Store "k" sample_response 60 7; Snapshot 8]) as (c & Hc & _ & _ & _ & H); [cbn; lia|].
  exists c. split; [exact Hc|].
  assert ((getCachedSubResponse "k" 60 5000000006 c).2 = Some sample_response) as Hg.
  { assert (Hv : (fun c => (getCachedSubResponse "k" 60 5000000006 c).2) <$>
      perform_all 1024 [Store "k" sample_response 60 7; Snapshot 8] empty_cache = Some (Some sample_response)) by (vm_compute; reflexivity).
    rewrite Hc in Hv. injection Hv as Hv. exact Hv. }
  split; [exact Hg|]. destruct (H _ _ _ _ Hg) as (_ & ttl' & t & _ & _ & _ & _ & Ht & _). exists ttl', t. exact Ht.
Defined.
