(* ===== verification/Coalesce.v ===== *)
(** * handler/interfaces.cpp: sharing the conversion of equal requests

    Requests with the same key share one conversion: the first one becomes
    its owner, the others attach and wait.  A conversion counts its
    consumers; one that has lost the last of them before it finished is
    cancelled and never joined again.  [World] is the registry of running
    conversions, the conversions, the requests (one thread each) and the
    releases that have decremented a count and not looked at it yet; every
    critical section and every atomic exchange is one step.  The flag
    [released] of a consumer is only read by the exchange that sets it, so the
    exchange and the decrement that follows are one step. *)

From S2P Require Import Prelude Str.
Open Scope Z_scope.

Section Coalesce.
(** What a conversion ends with: a response or an exception. *)
Context {V : Type}.

(** ** A conversion *)

(** src/src/handler/interfaces.cpp:1363-1371 [InflightSubRequest]
    [shown] is the consumer count of the work context; [work_cancelled] tells
    that its cancellation was requested for want of consumers. *)
Record InflightSubRequest := mkCall {
  call_key : str; consumers : Z; done_with : option V; shown : Z; work_cancelled : bool
}.

Definition is_done (c : InflightSubRequest) : bool := match done_with c with Some _ => true | None => false end.

Definition set_consumers (n : Z) (c : InflightSubRequest) : InflightSubRequest :=
  mkCall (call_key c) n (done_with c) (shown c) (work_cancelled c).
Definition set_shown (n : Z) (c : InflightSubRequest) : InflightSubRequest :=
  mkCall (call_key c) (consumers c) (done_with c) n (work_cancelled c).

(** src/src/handler/interfaces.cpp:1373-1382 [InflightSubRequest::tryAddConsumer] *)
Definition tryAddConsumer (c : InflightSubRequest) : InflightSubRequest * Z :=
  if negb (consumers c =? 0) && negb (consumers c =? UINT32_MAX)
  then (set_consumers (u32 (consumers c + 1)) c, u32 (consumers c + 1))
  else (c, 0).

(** src/src/handler/interfaces.cpp:1384-1393 [InflightSubRequest::releaseConsumer] *)
Definition releaseConsumer (c : InflightSubRequest) : InflightSubRequest * Z :=
  if negb (consumers c =? 0) then (set_consumers (u32 (consumers c - 1)) c, u32 (consumers c - 1)) else (c, 0).

(** src/src/handler/interfaces.cpp:1408-1418 [InflightConsumerState::release, after the decrement]
    The count is shown; the result tells whether the work is to be cancelled,
    which is a step of its own, [cancel_work]. *)
Definition settle_release (remaining : Z) (c : InflightSubRequest) : InflightSubRequest * bool :=
  (set_shown remaining c, (remaining =? 0) && negb (is_done c)).

Definition cancel_work (c : InflightSubRequest) : InflightSubRequest :=
  mkCall (call_key c) (consumers c) (done_with c) (shown c) true.

(** src/src/handler/interfaces.cpp:2435-2449 [subconverterEntry, new call] *)
Definition new_call (key : str) : InflightSubRequest := mkCall key 1 None 1 false.

(** src/src/handler/interfaces.cpp:2519-2523 [subconverterEntry, publication of the result] and
    src/src/handler/interfaces.cpp:2532-2536 (of the exception) *)
Definition publish (v : V) (c : InflightSubRequest) : InflightSubRequest :=
  mkCall (call_key c) (consumers c) (Some v) (shown c) (work_cancelled c).

(** ** The registry and the requests *)

Notation calls_t := (list InflightSubRequest).

(** What a request leaves with. *)
Inductive Outcome := Got (v : V) | GaveUp.

(** Where a request is. *)
Inductive Pc :=
  | Arriving
  | Attached (call : nat) (count : Z)
  | Waiting (call : nat)
  | Working (call : nat)
  | Erasing (call : nat) (v : V)
  | Leaving (call : nat) (out : Outcome)
  | Returned (out : Outcome).

(** A request: its key, where it is, and whether its share was released. *)
Record Thread := mkThread { key_of : str; pc : Pc; released : bool }.

Record World := mkWorld {
  calls : calls_t; registry : gmap str nat; threads : list Thread;
  pending : list (nat * Z);      (* releases with the count they left *)
  condemned : list nat           (* cancellations decided on *)
}.

(** src/src/handler/interfaces.cpp:2424-2453 [subconverterEntry, lookup section]
    A call that cannot be joined any more is replaced. *)
Definition lookup_or_create (key : str) (cs : calls_t) (reg : gmap str nat) : calls_t * gmap str nat * Pc :=
  let create (reg : gmap str nat) :=
    (cs ++ [new_call key],
     match reg !! key with Some _ => reg | None => <[key := length cs]> reg end,   (* emplace *)
     Working (length cs)) in
  match reg !! key with
  | Some i =>
      match cs !! i with
      | Some c =>
          let '(c', n) := tryAddConsumer c in
          if negb (n =? 0) then (<[i := c']> cs, reg, Attached i n) else create (delete key reg)
      | None => create reg
      end
  | None => create reg
  end.

(** src/src/handler/interfaces.cpp:1470-1477 [eraseInflightSubRequest] *)
Definition eraseInflightSubRequest (key : str) (expected : nat) (reg : gmap str nat) : gmap str nat :=
  match reg !! key with
  | Some i => if bool_decide (i = expected) then delete key reg else reg
  | None => reg
  end.

(** src/src/handler/interfaces.cpp:1400-1407 [InflightConsumerState::release]
    The exchange of the flag and the decrement; what remains to be done is
    added to [pending]. *)
Definition release (i t : nat) (th : Thread) (p : Pc) (w : World) : World :=
  let threads' := <[t := mkThread (key_of th) p true]> (threads w) in
  if released th then mkWorld (calls w) (registry w) threads' (pending w) (condemned w)
  else
    match calls w !! i with
    | Some c =>
        let '(c', remaining) := releaseConsumer c in
        mkWorld (<[i := c']> (calls w)) (registry w) threads' (pending w ++ [(i, remaining)]) (condemned w)
    | None => mkWorld (calls w) (registry w) threads' (pending w) (condemned w)
    end.

Definition move (t : nat) (th : Thread) (p : Pc) (w : World) : list Thread :=
  <[t := mkThread (key_of th) p (released th)]> (threads w).

(** The call whose consumer guard the request holds. *)
Definition guarded (p : Pc) : option nat :=
  match p with
  | Waiting i | Working i | Erasing i _ | Leaving i _ => Some i
  | _ => None
  end.

(** src/src/handler/interfaces.cpp:2421-2540 [subconverterEntry, shared conversion]
    - [arrive]: the lookup section;
    - [attach]: a follower publishes the count it saw and makes its guard;
    - [cancel_client]: a request's cancellation callback releases its share;
    - [settle]: a release looks at the count it left, and [cancel] requests the
      cancellation it decided on;
    - [wake], [stop_waiting]: a follower sees the result, or its own cancellation
      or deadline before there is one;
    - [finish]: the owner publishes what the conversion ended with;
    - [erase]: the owner removes the call from the registry;
    - [leave]: a guard goes out of scope. *)
Inductive step (w : World) : World -> Prop :=
  | arrive t th cs reg p :
      threads w !! t = Some th -> pc th = Arriving ->
      lookup_or_create (key_of th) (calls w) (registry w) = (cs, reg, p) ->
      step w (mkWorld cs reg (move t th p w) (pending w) (condemned w))
  | attach t th i n c :
      threads w !! t = Some th -> pc th = Attached i n -> calls w !! i = Some c ->
      step w (mkWorld (<[i := set_shown n c]> (calls w)) (registry w) (move t th (Waiting i) w) (pending w) (condemned w))
  | cancel_client t th i :
      threads w !! t = Some th -> guarded (pc th) = Some i ->
      step w (release i t th (pc th) w)
  | settle j i n c :
      pending w !! j = Some (i, n) -> calls w !! i = Some c ->
      step w (mkWorld (<[i := (settle_release n c).1]> (calls w)) (registry w) (threads w) (delete j (pending w))
                (if (settle_release n c).2 then i :: condemned w else condemned w))
  | cancel i j c :
      condemned w !! j = Some i -> calls w !! i = Some c ->
      step w (mkWorld (<[i := cancel_work c]> (calls w)) (registry w) (threads w) (pending w) (delete j (condemned w)))
  | wake t th i c v :
      threads w !! t = Some th -> pc th = Waiting i -> calls w !! i = Some c -> done_with c = Some v ->
      step w (mkWorld (calls w) (registry w) (move t th (Leaving i (Got v)) w) (pending w) (condemned w))
  | stop_waiting t th i c :
      threads w !! t = Some th -> pc th = Waiting i -> calls w !! i = Some c -> is_done c = false ->
      step w (mkWorld (calls w) (registry w) (move t th (Leaving i GaveUp) w) (pending w) (condemned w))
  | finish t th i c v :
      threads w !! t = Some th -> pc th = Working i -> calls w !! i = Some c ->
      step w (mkWorld (<[i := publish v c]> (calls w)) (registry w) (move t th (Erasing i v) w) (pending w) (condemned w))
  | erase t th i v :
      threads w !! t = Some th -> pc th = Erasing i v ->
      step w (mkWorld (calls w) (eraseInflightSubRequest (key_of th) i (registry w))
                (move t th (Leaving i (Got v)) w) (pending w) (condemned w))
  | leave t th i out :
      threads w !! t = Some th -> pc th = Leaving i out ->
      step w (release i t th (Returned out) w).

Definition initial (keys : list str) : World :=
  mkWorld [] ∅ ((fun k => mkThread k Arriving false) <$> keys) [] [].

(** ** The invariant *)

(** The call a request holds a share of, unless it released it. *)
Definition at_call (p : Pc) : option nat :=
  match p with Attached i _ => Some i | _ => guarded p end.
Definition share (i : nat) (th : Thread) : Z :=
  if bool_decide (at_call (pc th) = Some i) && negb (released th) then 1 else 0.
Definition worker_of (p : Pc) : option nat := match p with Working i => Some i | _ => None end.
Definition work (i : nat) (th : Thread) : Z := if bool_decide (worker_of (pc th) = Some i) then 1 else 0.

(** What stays true of a call whatever happens to it. *)
Definition evolves (c c' : InflightSubRequest) : Prop :=
  call_key c' = call_key c /\ (forall v, done_with c = Some v -> done_with c' = Some v)
  /\ (consumers c = 0 -> consumers c' = 0).
Definition calls_evolve (cs cs' : calls_t) : Prop :=
  forall i c, cs !! i = Some c -> exists c', cs' !! i = Some c' /\ evolves c c'.

Definition has_call (cs : calls_t) (i : nat) (P : InflightSubRequest -> Prop) : Prop :=
  exists c, cs !! i = Some c /\ P c.

Definition thread_ok (cs : calls_t) (th : Thread) : Prop :=
  (forall i, at_call (pc th) = Some i -> has_call cs i (fun c => call_key c = key_of th)) /\
  match pc th with
  | Arriving | Attached _ _ => released th = false
  | Erasing i v => has_call cs i (fun c => done_with c = Some v)
  | Leaving i (Got v) => has_call cs i (fun c => done_with c = Some v)
  | Returned (Got v) => exists i, has_call cs i (fun c => call_key c = key_of th /\ done_with c = Some v)
  | _ => True
  end.

(** A call that still runs for somebody. *)
Definition live (c : InflightSubRequest) : Prop := done_with c = None /\ consumers c <> 0.

(** The request that works on a call, or has finished it and will erase it. *)
Definition owner_of (p : Pc) : option nat :=
  match p with Working i | Erasing i _ => Some i | _ => None end.
Definition owned_by (ths : list Thread) (i : nat) : Prop :=
  exists t th, ths !! t = Some th /\ owner_of (pc th) = Some i.

Record Inv (w : World) : Prop := {
  few_threads : Z.of_nat (length (threads w)) < UINT32_MAX;
  counted : forall i c, calls w !! i = Some c -> consumers c = sumZ (share i) (threads w);
  worked : forall i c, calls w !! i = Some c -> sumZ (work i) (threads w) = if is_done c then 0 else 1;
  placed : forall t th, threads w !! t = Some th -> thread_ok (calls w) th;
  keyed : forall k i, registry w !! k = Some i -> has_call (calls w) i (fun c => call_key c = k);
  listed : forall i c, calls w !! i = Some c -> live c -> registry w !! call_key c = Some i;
  owned : forall k i, registry w !! k = Some i -> owned_by (threads w) i;
  settled : forall i n, (i, n) ∈ pending w -> has_call (calls w) i (fun c => n = 0 -> consumers c = 0);
  doomed : forall i, i ∈ condemned w -> has_call (calls w) i (fun c => consumers c = 0);
  cancelled : forall i c, calls w !! i = Some c -> work_cancelled c = true -> consumers c = 0
}.

Lemma evolves_refl c : evolves c c.
Proof. by split_and!. Qed.

Lemma evolve_refl cs : calls_evolve cs cs.
Proof. intros i c Hc. exists c. split; [done|apply evolves_refl]. Qed.

Lemma evolve_insert cs i c c' : cs !! i = Some c -> evolves c c' -> calls_evolve cs (<[i := c']> cs).
Proof.
  intros Hi He j d Hj. destruct (decide (i = j)) as [<-|Hne]; simplify_eq.
  - exists c'. split; [|done]. apply list_lookup_insert_eq. by eapply lookup_lt_Some.
  - exists d. rewrite list_lookup_insert_ne by done. split; [done|apply evolves_refl].
Qed.

Lemma evolve_app cs c : calls_evolve cs (cs ++ [c]).
Proof. intros i d Hd. exists d. split; [by apply lookup_app_l_Some|apply evolves_refl]. Qed.

Lemma has_call_evolve cs cs' i (P Q : InflightSubRequest -> Prop) :
  calls_evolve cs cs' -> (forall c c', evolves c c' -> P c -> Q c') -> has_call cs i P -> has_call cs' i Q.
Proof. intros He HPQ (c & Hc & HP). destruct (He _ _ Hc) as (c' & ? & ?). exists c'. eauto. Qed.

Lemma thread_ok_evolve cs cs' th : calls_evolve cs cs' -> thread_ok cs th -> thread_ok cs' th.
Proof.
  intros He [Hat Hpc]. split.
  - intros i Hi. eapply has_call_evolve; [done| |by apply Hat]. by intros c c' (-> & _ & _).
  - destruct (pc th) as [| | | | |? [v|]|[v|]]; try done;
      try (eapply has_call_evolve; [done| |done]; by intros c c' (_ & Hd & _) ?; apply Hd).
    destruct Hpc as [i Hi]. exists i. eapply has_call_evolve; [done| |done].
    intros c c' (-> & Hd & _) [? ?]. auto.
Qed.

Lemma settled_evolve cs cs' (l : list (nat * Z)) : calls_evolve cs cs' ->
  (forall i n, (i, n) ∈ l -> has_call cs i (fun c => n = 0 -> consumers c = 0)) ->
  (forall i n, (i, n) ∈ l -> has_call cs' i (fun c => n = 0 -> consumers c = 0)).
Proof.
  intros He H i n Hin. eapply has_call_evolve; [done| |by apply H].
  intros c c' (_ & _ & Hc) Hn ?. auto.
Qed.

Lemma doomed_evolve cs cs' (l : list nat) : calls_evolve cs cs' ->
  (forall i, i ∈ l -> has_call cs i (fun c => consumers c = 0)) ->
  (forall i, i ∈ l -> has_call cs' i (fun c => consumers c = 0)).
Proof. intros He H i Hin. eapply has_call_evolve; [done| |by apply H]. by intros c c' (_ & _ & Hc). Qed.

Lemma share_le i th : 0 <= share i th <= 1.
Proof. unfold share. split_if; lia. Qed.

Lemma shares_bounded w i : Inv w -> 0 <= sumZ (share i) (threads w) < UINT32_MAX.
Proof. intros HI. pose proof (few_threads _ HI). pose proof (sumZ_bounds (share i) (threads w) (share_le i)). lia. Qed.

(** ** Every step keeps it *)

Definition unfinished (c : InflightSubRequest) : Z := if is_done c then 0 else 1.

(** One request moves and one call changes. *)
Section Change.
Context (w w' : World) (t i : nat) (th th' : Thread) (c c' : InflightSubRequest).
Hypothesis HI : Inv w.
Hypothesis Ht : threads w !! t = Some th.
Hypothesis Hi : calls w !! i = Some c.
Hypothesis Hcalls : calls w' = <[i := c']> (calls w).
Hypothesis Hthreads : threads w' = <[t := th']> (threads w).
Hypothesis Hev : evolves c c'.
Hypothesis Hshare : forall j, share j th' - share j th = if decide (i = j) then consumers c' - consumers c else 0.
Hypothesis Hwork : forall j, work j th' - work j th = if decide (i = j) then unfinished c' - unfinished c else 0.
Hypothesis Hcan : work_cancelled c' = true -> work_cancelled c = true.

Lemma change_calls j d : calls w' !! j = Some d -> (i = j /\ d = c') \/ (i <> j /\ calls w !! j = Some d).
Proof.
  rewrite Hcalls. intros [(-> & -> & _)|[? ?]]%list_lookup_insert_Some; auto.
Qed.

Lemma change_evolve : calls_evolve (calls w) (calls w').
Proof. rewrite Hcalls. by eapply evolve_insert. Qed.

Lemma change_counted j d : calls w' !! j = Some d -> consumers d = sumZ (share j) (threads w').
Proof.
  intros Hd. rewrite Hthreads, (sumZ_insert _ _ _ _ _ Ht). pose proof (Hshare j) as Hs.
  destruct (change_calls _ _ Hd) as [[<- ->]|[Hne Hj]].
  - pose proof (counted _ HI _ _ Hi). rewrite decide_True in Hs by done. lia.
  - pose proof (counted _ HI _ _ Hj). rewrite decide_False in Hs by done. lia.
Qed.

Lemma change_worked j d : calls w' !! j = Some d -> sumZ (work j) (threads w') = if is_done d then 0 else 1.
Proof.
  intros Hd. rewrite Hthreads, (sumZ_insert _ _ _ _ _ Ht). pose proof (Hwork j) as Hs.
  destruct (change_calls _ _ Hd) as [[<- ->]|[Hne Hj]].
  - pose proof (worked _ HI _ _ Hi). rewrite decide_True in Hs by done. unfold unfinished in *. lia.
  - pose proof (worked _ HI _ _ Hj). rewrite decide_False in Hs by done. lia.
Qed.

Lemma change_inv :
  thread_ok (calls w') th' ->
  (forall k j, registry w' !! k = Some j -> registry w !! k = Some j) ->
  (forall j d, calls w' !! j = Some d -> live d -> registry w !! call_key d = Some j ->
     registry w' !! call_key d = Some j) ->
  (live c' -> live c) ->
  (forall k j, registry w' !! k = Some j -> owner_of (pc th) = Some j -> owner_of (pc th') = Some j) ->
  (forall j n, (j, n) ∈ pending w' -> (j, n) ∈ pending w \/ (j, n) = (i, consumers c')) ->
  condemned w' = condemned w -> Inv w'.
Proof.
  intros Hth' Hreg Hlive Hlc Hown Hpend Hcond. pose proof change_evolve as He. split.
  - rewrite Hthreads, length_insert. apply HI.
  - apply change_counted.
  - apply change_worked.
  - rewrite Hthreads. intros u uh [(-> & -> & _)|[_ Hu]]%list_lookup_insert_Some; [done|].
    eapply thread_ok_evolve; [done|]. by eapply placed.
  - intros k j Hk. eapply has_call_evolve; [done| |by apply HI, Hreg]. by intros d d' (-> & _ & _).
  - intros j d Hd Hl. apply (Hlive j d Hd Hl). destruct (change_calls _ _ Hd) as [[<- ->]|[Hne Hj]].
    + destruct Hev as (-> & _ & _). by apply HI; auto.
    + by apply HI.
  - intros k j Hk. destruct (owned _ HI k j) as (u & uh & Hu & Ho); [auto|]. rewrite Hthreads.
    destruct (decide (t = u)) as [<-|Hne]; simplify_eq.
    + exists t, th'. rewrite list_lookup_insert_eq by by eapply lookup_lt_Some. eauto.
    + exists u, uh. by rewrite list_lookup_insert_ne.
  - intros j n [Hin|Heq]%Hpend.
    + by eapply settled_evolve; [done|apply HI|].
    + simplify_eq. exists c'. rewrite Hcalls, list_lookup_insert_eq by by eapply lookup_lt_Some. done.
  - rewrite Hcond. eapply doomed_evolve; [done|apply HI].
  - intros j d Hd Hc. destruct (change_calls _ _ Hd) as [[<- ->]|[Hne Hj]].
    + destruct Hev as (_ & _ & H0). apply H0. by eapply cancelled; eauto.
    + by eapply cancelled.
Qed.
End Change.

(** A change of a call nobody counts on. *)
Lemma quiet_inv w i c c' pend cond :
  Inv w -> calls w !! i = Some c ->
  call_key c' = call_key c -> consumers c' = consumers c -> done_with c' = done_with c ->
  (work_cancelled c' = true -> consumers c = 0) ->
  (forall x, x ∈ pend -> x ∈ pending w) -> (forall j, j ∈ cond -> j ∈ condemned w \/ j = i /\ consumers c = 0) ->
  Inv (mkWorld (<[i := c']> (calls w)) (registry w) (threads w) pend cond).
Proof.
  intros HI Hi Hk Hn Hd Hc Hp Hj.
  assert (Hev : evolves c c') by (unfold evolves; rewrite Hk, Hn, Hd; by split_and!).
  pose proof (evolve_insert _ _ _ _ Hi Hev) as He.
  assert (Hlook : forall j d, <[i := c']> (calls w) !! j = Some d ->
    exists d', calls w !! j = Some d' /\ call_key d = call_key d' /\ consumers d = consumers d' /\ done_with d = done_with d').
  { intros j d [(-> & -> & _)|[_ ?]]%list_lookup_insert_Some; eauto 10. }
  split; simpl; try apply HI.
  - intros j d (d' & ? & _ & -> & _)%Hlook. by apply HI.
  - intros j d (d' & ? & _ & _ & Hdd)%Hlook. unfold is_done. rewrite Hdd. by apply HI.
  - intros u uh Hu. eapply thread_ok_evolve; [done|]. by eapply placed.
  - intros k j Hr. eapply has_call_evolve; [done| |by apply HI]. by intros d d' (-> & _ & _).
  - intros j d (d' & ? & -> & Hcc & Hdd)%Hlook. unfold live. rewrite Hcc, Hdd. by apply HI.
  - intros j n Hin%Hp. by eapply settled_evolve; [done|apply HI|].
  - intros j [Hin|[-> H0]]%Hj; [by eapply doomed_evolve; [done|apply HI|]|].
    exists c'. rewrite list_lookup_insert_eq by by eapply lookup_lt_Some. by rewrite Hn.
  - intros j d [(-> & -> & _)|[_ ?]]%list_lookup_insert_Some; [rewrite Hn; auto|by eapply cancelled].
Qed.

(** Evaluates [share] and [work] of two threads for an arbitrary call. *)
Ltac shares :=
  unfold share, work, unfinished; simpl;
  repeat case_bool_decide; repeat case_decide; simplify_eq/=; try done; try lia.

Lemma move_ok w t th i p :
  Inv w -> threads w !! t = Some th -> at_call (pc th) = Some i -> at_call p = Some i \/ at_call p = None ->
  forall j, at_call p = Some j -> has_call (calls w) j (fun c => call_key c = key_of th).
Proof.
  intros HI Ht Hat Hp j Hj. destruct (placed _ HI _ _ Ht) as [Hok _]. apply Hok. destruct Hp; congruence.
Qed.

Lemma holder_call w t th i :
  Inv w -> threads w !! t = Some th -> at_call (pc th) = Some i ->
  exists c, calls w !! i = Some c /\ call_key c = key_of th.
Proof. intros HI Ht Hat. by apply (placed _ HI _ _ Ht). Qed.

Lemma holder_counts w t th i c :
  Inv w -> threads w !! t = Some th -> at_call (pc th) = Some i -> released th = false -> calls w !! i = Some c ->
  0 < consumers c < UINT32_MAX.
Proof.
  intros HI Ht Hat Hr Hc. pose proof (counted _ HI _ _ Hc) as Hn. pose proof (shares_bounded w i HI).
  assert (share i th <= sumZ (share i) (threads w)) as Hle.
  { eapply sumZ_lookup_le; [|done]. apply Forall_forall. intros x _. apply share_le. }
  unfold share in Hle at 1. rewrite bool_decide_true, Hr in Hle by done. simpl in Hle. lia.
Qed.

Lemma worker_unfinished w t th i c :
  Inv w -> threads w !! t = Some th -> pc th = Working i -> calls w !! i = Some c -> done_with c = None.
Proof.
  intros HI Ht Hpc Hc. pose proof (worked _ HI _ _ Hc) as Hn.
  assert (work i th <= sumZ (work i) (threads w)) as Hle.
  { eapply sumZ_lookup_le; [|done]. apply Forall_forall. intros x _. unfold work. split_if; lia. }
  unfold work in Hle at 1. rewrite Hpc, bool_decide_true in Hle by done. unfold is_done in Hn.
  destruct (done_with c); [lia|done].
Qed.

Lemma guarded_at p i : guarded p = Some i -> at_call p = Some i.
Proof. by destruct p. Qed.

Lemma release_inv w i t th p :
  Inv w -> threads w !! t = Some th -> guarded (pc th) = Some i ->
  p = pc th \/ (exists out, p = Returned out /\ pc th = Leaving i out) -> Inv (release i t th p w).
Proof.
  intros HI Ht Hg Hp. pose proof (guarded_at _ _ Hg) as Hat.
  destruct (holder_call _ _ _ _ HI Ht Hat) as (c & Hc & Hk).
  assert (Hok : thread_ok (calls w) (mkThread (key_of th) p true)).
  { pose proof (placed _ HI _ _ Ht) as [Hok1 Hok2]. destruct Hp as [->|(out & -> & Hpc)].
    - split; [done|]. simpl. by destruct (pc th).
    - split; [done|]. simpl. rewrite Hpc in Hok2. destruct out; [|done]. exists i.
      destruct Hok2 as (d & Hd & Hv). simplify_eq. by exists c. }
  assert (Hw : forall j, work j (mkThread (key_of th) p true) = work j th).
  { intros j. unfold work. simpl. destruct Hp as [->|(out & -> & ->)]; done. }
  unfold release. destruct (released th) eqn:Hr.
  - eapply (change_inv w _ t i th _ c c); simpl; eauto using evolves_refl.
    + by rewrite list_insert_id.
    + intros j. unfold share. simpl. rewrite Hr, !andb_false_r. case_decide; lia.
    + intros j. rewrite Hw. case_decide; lia.
    + intros k j _. by destruct Hp as [->|(out & -> & ->)].
  - rewrite Hc. pose proof (holder_counts _ _ _ _ _ HI Ht Hat Hr Hc). unfold releaseConsumer.
    rewrite (proj2 (Z.eqb_neq _ _)) by lia. simpl. rewrite u32_small by (unfold UINT32_MAX in *; lia).
    eapply (change_inv w _ t i th _ c (set_consumers (consumers c - 1) c)); simpl; eauto.
    + split_and!; simpl; auto; lia.
    + intros j. unfold share. simpl. rewrite Hr, Hat, andb_false_r. simpl. repeat case_bool_decide; case_decide; simplify_eq; simpl; lia.
    + intros j. rewrite Hw. unfold unfinished, is_done. simpl. case_decide; lia.
    + eapply thread_ok_evolve; [|done]. eapply evolve_insert; [done|]. split_and!; simpl; auto; lia.
    + unfold live. simpl. intros [? ?]. split; [done|lia].
    + intros k j _. by destruct Hp as [->|(out & -> & ->)].
    + intros j n Hin. set_solver.
Qed.

Lemma initial_inv keys : Z.of_nat (length keys) < UINT32_MAX -> Inv (initial keys).
Proof.
  intros Hlen. split; simpl; try done; try set_solver.
  - by rewrite length_fmap.
  - intros t th Ht. apply list_lookup_fmap_Some in Ht as (k & -> & _). by split.
Qed.

Lemma absent_call w i : Inv w -> (length (calls w) <= i)%nat ->
  sumZ (share i) (threads w) = 0 /\ sumZ (work i) (threads w) = 0.
Proof.
  intros HI Hi.
  assert (forall th, th ∈ threads w -> at_call (pc th) <> Some i).
  { intros th (t & Ht)%list_elem_of_lookup_1 Hat. destruct (holder_call _ _ _ _ HI Ht Hat) as (c & Hc & _).
    apply lookup_lt_Some in Hc. lia. }
  split; apply sumZ_zero; intros th Hth; specialize (H _ Hth); unfold share, work.
  - by rewrite bool_decide_false.
  - rewrite bool_decide_false; [done|]. by destruct (pc th).
Qed.

Lemma create_inv w t th :
  Inv w -> threads w !! t = Some th -> pc th = Arriving ->
  (forall i c, registry w !! key_of th = Some i -> calls w !! i = Some c -> ~ live c) ->
  Inv (mkWorld (calls w ++ [new_call (key_of th)]) (<[key_of th := length (calls w)]> (registry w))
         (move t th (Working (length (calls w))) w) (pending w) (condemned w)).
Proof.
  intros HI Ht Hpc Hdead. set (n := length (calls w)). pose proof (evolve_app (calls w) (new_call (key_of th))) as He.
  assert (Hlook : forall j d, (calls w ++ [new_call (key_of th)]) !! j = Some d ->
    calls w !! j = Some d /\ j <> n \/ j = n /\ d = new_call (key_of th)).
  { intros j d [H|[Hj H]]%lookup_app_Some.
    - left. split; [done|]. apply lookup_lt_Some in H. unfold n. lia.
    - right. apply list_lookup_singleton_Some in H as [H1 <-]. split; [unfold n; lia|done]. }
  assert (Hnew : (calls w ++ [new_call (key_of th)]) !! n = Some (new_call (key_of th))).
  { unfold n. by rewrite lookup_app_r, Nat.sub_diag. }
  assert (Hfree : released th = false) by (destruct (placed _ HI _ _ Ht) as [_ H]; by rewrite Hpc in H).
  destruct (absent_call w n HI ltac:(unfold n; lia)) as [Hs0 Hw0].
  assert (Hold : forall j, share j th = 0 /\ work j th = 0) by (intros j; unfold share, work; rewrite Hpc; done).
  assert (Hth' : forall j, let th' := mkThread (key_of th) (Working n) (released th) in
    share j th' = (if decide (j = n) then 1 else 0) /\ work j th' = (if decide (j = n) then 1 else 0)).
  { intros j. unfold share, work. simpl. rewrite Hfree. simpl. repeat case_bool_decide; case_decide; simplify_eq; done. }
  split; simpl; unfold move.
  - rewrite length_insert. apply HI.
  - intros j d Hd. rewrite (sumZ_insert _ _ _ _ _ Ht). fold n. rewrite (proj1 (Hold j)), (proj1 (Hth' j)).
    destruct (Hlook _ _ Hd) as [[Hj Hne]|[-> ->]].
    + rewrite (counted _ HI _ _ Hj), decide_False by done. lia.
    + by rewrite Hs0, decide_True.
  - intros j d Hd. rewrite (sumZ_insert _ _ _ _ _ Ht). fold n. rewrite (proj2 (Hold j)), (proj2 (Hth' j)).
    destruct (Hlook _ _ Hd) as [[Hj Hne]|[-> ->]].
    + rewrite (worked _ HI _ _ Hj), decide_False by done. split_if; lia.
    + by rewrite Hw0, decide_True.
  - intros u uh [(-> & <- & _)|[_ Hu]]%list_lookup_insert_Some.
    + split; simpl; [|done]. intros j [= <-]. by exists (new_call (key_of th)).
    + eapply thread_ok_evolve; [done|]. by eapply placed.
  - intros k j [[<- <-]|[_ Hk]]%lookup_insert_Some.
    + by exists (new_call (key_of th)).
    + eapply has_call_evolve; [done| |by apply HI]. by intros d d' (-> & _ & _).
  - intros j d Hd Hl. destruct (Hlook _ _ Hd) as [[Hj Hne]|[-> ->]]; [|by rewrite lookup_insert_eq].
    pose proof (listed _ HI _ _ Hj Hl) as Hr. rewrite lookup_insert_ne; [done|].
    intros Heq. rewrite <- Heq in Hr. by destruct (Hdead _ _ Hr Hj).
  - intros k j [[<- <-]|[_ Hk]]%lookup_insert_Some.
    + eexists t, _. rewrite list_lookup_insert_eq by by eapply lookup_lt_Some. done.
    + destruct (owned _ HI _ _ Hk) as (u & uh & Hu & Ho). exists u, uh.
      rewrite list_lookup_insert_ne; [done|]. intros ->. simplify_eq. by rewrite Hpc in Ho.
  - eapply settled_evolve; [done|apply HI].
  - eapply doomed_evolve; [done|apply HI].
  - intros j d Hd Hc. destruct (Hlook _ _ Hd) as [[Hj _]|[_ ->]]; [by eapply cancelled|done].
Qed.

Lemma join_inv w t th i c :
  Inv w -> threads w !! t = Some th -> pc th = Arriving ->
  registry w !! key_of th = Some i -> calls w !! i = Some c -> consumers c <> 0 -> consumers c < UINT32_MAX ->
  Inv (mkWorld (<[i := set_consumers (consumers c + 1) c]> (calls w)) (registry w)
         (move t th (Attached i (consumers c + 1)) w) (pending w) (condemned w)).
Proof.
  intros HI Ht Hpc Hr Hc Hn Hmax.
  assert (Hfree : released th = false) by (destruct (placed _ HI _ _ Ht) as [_ H]; by rewrite Hpc in H).
  destruct (keyed _ HI _ _ Hr) as (c' & ? & Hk); simplify_eq.
  assert (Hev : evolves c (set_consumers (consumers c + 1) c)) by (split_and!; simpl; auto; lia).
  eapply (change_inv w _ t i th _ c); simpl; eauto.
  - intros j. unfold share. simpl. rewrite Hpc, Hfree. simpl. case_bool_decide; case_decide; simplify_eq; simpl; lia.
  - intros j. unfold work. simpl. rewrite Hpc. unfold unfinished, is_done. simpl. case_decide; lia.
  - split; [|done]. simpl. intros j [= <-]. exists (set_consumers (consumers c + 1) c).
    rewrite list_lookup_insert_eq by by eapply lookup_lt_Some. done.
  - unfold live. simpl. intros [? _]. done.
  - intros k j _. by rewrite Hpc.
Qed.

Lemma arrive_inv w t th cs reg p :
  Inv w -> threads w !! t = Some th -> pc th = Arriving ->
  lookup_or_create (key_of th) (calls w) (registry w) = (cs, reg, p) ->
  Inv (mkWorld cs reg (move t th p w) (pending w) (condemned w)).
Proof.
  intros HI Ht Hpc. unfold lookup_or_create. destruct (registry w !! key_of th) as [i|] eqn:Hr.
  - destruct (keyed _ HI _ _ Hr) as (c & Hc & Hk). rewrite Hc. unfold tryAddConsumer.
    pose proof (shares_bounded w i HI) as Hb. rewrite <- (counted _ HI _ _ Hc) in Hb. unfold UINT32_MAX in Hb.
    destruct (consumers c =? 0) eqn:E0; bools; simpl.
    + rewrite lookup_delete_eq, insert_delete_eq. intros [= <- <- <-]. apply create_inv; auto.
      intros j d Hj Hd [_ Hl]. simplify_eq. lia.
    + rewrite (proj2 (Z.eqb_neq _ _)) by (unfold UINT32_MAX; lia). simpl. rewrite u32_small by lia.
      rewrite (proj2 (Z.eqb_neq _ _)) by lia. simpl. intros [= <- <- <-].
      apply join_inv; auto; unfold UINT32_MAX; lia.
  - intros [= <- <- <-]. apply create_inv; auto. intros i c Hi. congruence.
Qed.

Lemma finish_inv w t th i c v :
  Inv w -> threads w !! t = Some th -> pc th = Working i -> calls w !! i = Some c ->
  Inv (mkWorld (<[i := publish v c]> (calls w)) (registry w) (move t th (Erasing i v) w) (pending w) (condemned w)).
Proof.
  intros HI Ht Hpc Hc. pose proof (worker_unfinished _ _ _ _ _ HI Ht Hpc Hc) as Hd.
  destruct (placed _ HI _ _ Ht) as [Hok _].
  assert (Hev : evolves c (publish v c)) by (split_and!; simpl; auto; intros; congruence).
  eapply (change_inv w _ t i th _ c); simpl; eauto.
  - intros j. unfold share. simpl. rewrite Hpc. simpl. case_decide; lia.
  - intros j. unfold work, unfinished, is_done. simpl. rewrite Hpc, Hd. simpl.
    case_bool_decide; case_decide; simplify_eq; lia.
  - split; simpl.
    + intros j Hj. eapply has_call_evolve; [by eapply evolve_insert| |apply Hok; by rewrite Hpc].
      by intros d d' (-> & _ & _).
    + exists (publish v c). by rewrite list_lookup_insert_eq by by eapply lookup_lt_Some.
  - by intros [? _].
  - intros k j _. by rewrite Hpc.
Qed.

Lemma erase_other (k : str) (j : nat) (key : str) (i : nat) (reg : gmap str nat) : eraseInflightSubRequest key i reg !! k = Some j -> reg !! k = Some j.
Proof.
  unfold eraseInflightSubRequest. destruct (reg !! key); [|done]. case_bool_decide; [|done].
  by intros [_ ?]%lookup_delete_Some.
Qed.

Lemma erase_keeps (k : str) (j : nat) (key : str) (i : nat) (reg : gmap str nat) :
  reg !! k = Some j -> j <> i -> eraseInflightSubRequest key i reg !! k = Some j.
Proof.
  intros Hk Hne. unfold eraseInflightSubRequest. destruct (reg !! key) eqn:E; [|done].
  case_bool_decide as Hi; [subst|done]. rewrite lookup_delete_ne; [done|]. intros ->. congruence.
Qed.

Lemma erase_gone (key : str) (i : nat) (reg : gmap str nat) : eraseInflightSubRequest key i reg !! key <> Some i.
Proof.
  unfold eraseInflightSubRequest. destruct (reg !! key) as [j|] eqn:E; [|congruence].
  case_bool_decide; [by rewrite lookup_delete_eq|congruence].
Qed.

(** A request moves on without a change of its call. *)
Lemma thread_inv w t th i p reg :
  Inv w -> threads w !! t = Some th -> at_call (pc th) = Some i -> at_call p = Some i ->
  worker_of (pc th) = worker_of p -> thread_ok (calls w) (mkThread (key_of th) p (released th)) ->
  (forall k j, reg !! k = Some j -> registry w !! k = Some j) ->
  (forall k j c, calls w !! j = Some c -> live c -> registry w !! k = Some j -> reg !! k = Some j) ->
  (forall k j, reg !! k = Some j -> owner_of (pc th) = Some j -> owner_of p = Some j) ->
  Inv (mkWorld (calls w) reg (move t th p w) (pending w) (condemned w)).
Proof.
  intros HI Ht Hat Hp Hw Hok Hr1 Hr2 Hown. destruct (holder_call _ _ _ _ HI Ht Hat) as (c & Hc & _).
  eapply (change_inv w _ t i th _ c c); simpl; eauto using evolves_refl.
  - by rewrite list_insert_id.
  - intros j. unfold share. simpl. rewrite Hat, Hp. case_decide; lia.
  - intros j. unfold work. simpl. rewrite Hw. case_decide; lia.
Qed.

Lemma step_inv w w' : Inv w -> step w w' -> Inv w'.
Proof.
  intros HI Hs. destruct Hs as [t th cs reg p Ht Hpc Hl|t th i n c Ht Hpc Hc|t th i Ht Hg|j i n c Hj Hc|i j c Hj Hc
    |t th i c v Ht Hpc Hc Hv|t th i c Ht Hpc Hc Hv|t th i c v Ht Hpc Hc|t th i v Ht Hpc|t th i out Ht Hpc].
  - by eapply arrive_inv.
  - assert (HI' : Inv (mkWorld (<[i := set_shown n c]> (calls w)) (registry w) (threads w) (pending w) (condemned w))).
    { apply quiet_inv with c; auto. simpl. by eapply cancelled. }
    destruct (placed _ HI' _ _ Ht) as [Hat _].
    apply (thread_inv _ t th i (Waiting i) _ HI' Ht); simpl; auto; rewrite ?Hpc; try done.
    split; [|done]. intros k [= <-]. apply Hat. by rewrite Hpc.
  - eapply release_inv; eauto.
  - destruct (settled _ HI i n) as (d & Hd & Hn); [by eapply list_elem_of_lookup_2|]. simplify_eq.
    apply quiet_inv with c; auto; simpl.
    + by eapply cancelled.
    + intros x Hx. by apply list_elem_of_delete_inv in Hx.
    + intros k. destruct (_ && _) eqn:E; [|auto]. bools. intros [->|?]%elem_of_cons; [|auto].
      right. split; [done|]. apply Hn. lia.
  - destruct (doomed _ HI i) as (d & Hd & Hn); [by eapply list_elem_of_lookup_2|]. simplify_eq.
    apply quiet_inv with c; auto; simpl. intros k Hk. left. by apply list_elem_of_delete_inv in Hk.
  - destruct (placed _ HI _ _ Ht) as [Hat _].
    apply (thread_inv _ t th i _ _ HI Ht); simpl; auto; rewrite ?Hpc; try done.
    split; [|by exists c]. intros k [= <-]. apply Hat. by rewrite Hpc.
  - destruct (placed _ HI _ _ Ht) as [Hat _].
    apply (thread_inv _ t th i _ _ HI Ht); simpl; auto; rewrite ?Hpc; try done.
    split; [|done]. intros k [= <-]. apply Hat. by rewrite Hpc.
  - by apply finish_inv.
  - destruct (placed _ HI _ _ Ht) as [Hat Hok]. rewrite Hpc in Hok. destruct Hok as (c & Hc & Hv).
    apply (thread_inv _ t th i _ _ HI Ht); simpl; auto; rewrite ?Hpc; try done.
    + split; [|by exists c]. intros k [= <-]. apply Hat. by rewrite Hpc.
    + intros k j. apply erase_other.
    + intros k j d Hd [Hl _] Hk. apply erase_keeps; [done|]. intros ->. by simplify_eq.
    + intros k j Hk [= <-]. destruct (keyed _ HI k i) as (d & Hd & Hkey); [by eapply erase_other|].
      destruct (Hat i) as (d' & Hd' & Hkey'); [by rewrite Hpc|]. simplify_eq. rewrite <- Hkey' in Hk.
      by destruct (erase_gone _ _ _ Hk).
  - eapply release_inv; eauto. by rewrite Hpc.
Qed.

Lemma reachable_inv keys w :
  Z.of_nat (length keys) < UINT32_MAX -> rtc step (initial keys) w -> Inv w.
Proof. intros Hlen. apply (invariant_rtc step Inv step_inv). by apply initial_inv. Qed.

Definition result_of (p : Pc) : option V :=
  match p with Erasing _ v | Leaving _ (Got v) | Returned (Got v) => Some v | _ => None end.

(** C7: in every interleaving of requests, clients that cancel and releases
    that settle late: the consumer count of a shared conversion is the number
    of requests that hold an unreleased share of it; when its work is
    cancelled for want of consumers, no request that still wants it is
    attached to it; and at most one unfinished conversion per key can be
    joined, so equal requests that are joined work only once. *)
Theorem sharing_exact keys w :
  Z.of_nat (length keys) < UINT32_MAX -> rtc step (initial keys) w ->
  (forall i c, calls w !! i = Some c -> consumers c = sumZ (share i) (threads w)) /\
  (forall i c t th, calls w !! i = Some c -> work_cancelled c = true ->
     threads w !! t = Some th -> at_call (pc th) = Some i -> released th = true) /\
  (forall i j c d, calls w !! i = Some c -> calls w !! j = Some d -> live c -> live d ->
     call_key c = call_key d -> i = j).
Proof.
  intros Hlen Hr. pose proof (reachable_inv _ _ Hlen Hr) as HI. split_and!.
  - apply HI.
  - intros i c t th Hc Hw Ht Hat. pose proof (cancelled _ HI _ _ Hc Hw). apply not_false_iff_true. intros Hf.
    pose proof (holder_counts _ _ _ _ _ HI Ht Hat Hf Hc). lia.
  - intros i j c d Hc Hd Hlc Hld Hk. pose proof (listed _ HI _ _ Hc Hlc). pose proof (listed _ HI _ _ Hd Hld). congruence.
Qed.

(** C33: in every interleaving: a request leaves with a result only if a
    conversion for its own key published it; a request that waits is attached
    to a conversion that is finished or that some request is working on; and
    when all requests have returned the registry is empty. *)
Theorem results_shared keys w :
  Z.of_nat (length keys) < UINT32_MAX -> rtc step (initial keys) w ->
  (forall t th v, threads w !! t = Some th -> result_of (pc th) = Some v ->
     exists i, has_call (calls w) i (fun c => call_key c = key_of th /\ done_with c = Some v)) /\
  (forall t th i, threads w !! t = Some th -> pc th = Waiting i ->
     has_call (calls w) i (fun c => call_key c = key_of th /\
       (is_done c = true \/ exists u uh, threads w !! u = Some uh /\ pc uh = Working i))) /\
  ((forall t th, threads w !! t = Some th -> exists out, pc th = Returned out) -> registry w = ∅).
Proof.
  intros Hlen Hr. pose proof (reachable_inv _ _ Hlen Hr) as HI. split_and!.
  - intros t th v Ht Hv. destruct (placed _ HI _ _ Ht) as [Hat Hok].
    destruct (pc th) as [| | | |i|i [|]|[|]]; simplify_eq/=; try done;
      destruct (Hat i eq_refl) as (c & Hc & Hk); destruct Hok as (d & Hd & Hv); simplify_eq; by exists i, d.
  - intros t th i Ht Hpc. destruct (placed _ HI _ _ Ht) as [Hat _].
    destruct (Hat i) as (c & Hc & Hk); [by rewrite Hpc|]. exists c. split_and!; [done..|].
    destruct (is_done c) eqn:Hd; [by left|right]. pose proof (worked _ HI _ _ Hc) as Hn. rewrite Hd in Hn.
    destruct (sumZ_pos (work i) (threads w)) as (uh & (u & Hu)%list_elem_of_lookup_1 & Hpos); [lia|].
    exists u, uh. split; [done|]. unfold work in Hpos. case_bool_decide as E; [|lia]. destruct (pc uh); by simplify_eq/=.
  - intros Hall. apply map_empty. intros k. destruct (registry w !! k) as [i|] eqn:Hk; [exfalso|done].
    destruct (owned _ HI _ _ Hk) as (t & th & Ht & Ho). destruct (Hall _ _ Ht) as [out Hp]. by rewrite Hp in Ho.
Qed.

End Coalesce.
Arguments InflightSubRequest : clear implicits.
Arguments Outcome : clear implicits.
Arguments Pc : clear implicits.
Arguments Thread : clear implicits.
Arguments World : clear implicits.

(** ** An execution: two equal requests, the second one follows the first *)

Definition example_key : str := ["k"%char].
Definition example_calls : list (InflightSubRequest nat) := [mkCall example_key 1 (Some 7%nat) 2 false].
Definition example_world : World nat :=
  mkWorld example_calls ∅
    [mkThread example_key (Returned (Got 7%nat)) true; mkThread example_key (Leaving 0 (Got 7%nat)) false]
    [(0%nat, 1)] [].

Lemma coalesce_example_reachable : rtc step (initial [example_key; example_key]) example_world.
Proof.
  eapply rtc_l; [eapply (arrive _ 0%nat); reflexivity|].
  eapply rtc_l; [eapply (arrive _ 1%nat); reflexivity|].
  eapply rtc_l; [eapply (attach _ 1%nat); reflexivity|].
  eapply rtc_l; [eapply (finish _ 0%nat _ _ _ 7%nat); reflexivity|].
  eapply rtc_l; [eapply (wake _ 1%nat); reflexivity|].
  eapply rtc_l; [eapply (erase _ 0%nat); reflexivity|].
  eapply rtc_l; [eapply (leave _ 0%nat); reflexivity|].
  reflexivity.
Defined.

Lemma sharing_exact_witness :
  consumers (mkCall example_key 1 (Some 7%nat) 2 false) = sumZ (share 0) (threads example_world).
Proof.
  apply (proj1 (sharing_exact [example_key; example_key] example_world ltac:(done) coalesce_example_reachable) 0%nat).
  reflexivity.
Defined.

Lemma results_shared_witness :
  exists i, has_call (calls example_world) i (fun c => call_key c = example_key /\ done_with c = Some 7%nat).
Proof.
  apply (proj1 (results_shared [example_key; example_key] example_world ltac:(done) coalesce_example_reachable)
    1%nat (mkThread example_key (Leaving 0 (Got 7%nat)) false)); reflexivity.
Defined.
