(* ===== verification/ShortLinks.v ===== *)
(** * handler/short_link_storage.cpp, short_links.cpp, short_link_auth.cpp

    Short links: a map from eight-letter codes to subscription addresses,
    kept in memory behind a mutex and written to a JSON file after every
    change.  Every function runs under the mutex from its load to its return,
    so it is one step.  rapidjson is the class [JsonText]: a document is a
    [Json] value, written to and read from a text.  The order in which a
    [std::unordered_map] is traversed is the parameter [iterate], and whether
    the path of the file is below the working directory the parameter
    [in_scope]; random code letters, the clock, the environment variables and
    what the file system answers ([Io]) are arguments. *)

From S2P Require Import Prelude Str StringUtil.
Open Scope Z_scope.

(** ** JSON *)

Inductive Json :=
  | JString (s : str)
  | JInteger (n : Z)     (* integers between [INT64_MIN] and [UINT64_MAX] *)
  | JBool (b : bool)
  | JArray (l : list Json)
  | JObject (members : list (str * Json))
  | JOther.              (* null and other numbers *)

(** What the program writes: texts without NUL and 64-bit numbers. *)
Fixpoint writable (j : Json) : bool :=
  match j with
  | JString s => bool_decide ("000"%char ∉ s)
  | JInteger n => (0 <=? n) && (n <? 2 ^ 64)
  | JBool _ => true
  | JArray l => forallb writable l
  | JObject l => forallb (fun m => bool_decide ("000"%char ∉ m.1) && writable m.2) l
  | JOther => false
  end.

(** A writer and a reader of documents. *)
Class JsonText := { json_write : Json -> str; json_read : str -> option Json }.

(** What is written can be read back (as the C string it is passed as). *)
Class JsonLaws (J : JsonText) := {
  json_read_write j : writable j = true -> json_read (c_str (json_write j)) = Some j;
  json_write_nonempty j : c_str (json_write j) <> []
}.

(** [FindMember]: the first member of a name. *)
Definition member (name : str) (l : list (str * Json)) : option Json :=
  snd ∘ snd <$> list_find (fun m => m.1 = name) l.

(** [IsString] and [GetString], copied to a [std::string]. *)
Definition get_string (j : option Json) : option str :=
  match j with Some (JString s) => Some (c_str s) | _ => None end.

(** src/src/handler/short_link_storage.cpp:40-46 [valueUint64] *)
Definition valueUint64 (value : Json) : Z :=
  match value with
  | JInteger n => if (0 <=? n) && (n <? 2 ^ 64) then n else if (0 <=? n) && (n <? 2 ^ 63) then n else 0
  | _ => 0
  end.

(** ** Addresses and codes *)

Definition kMaxUrlLength : nat := Z.to_nat (256 * 1024).
Definition kMaxNameLength : nat := 160.
Definition kCodeLength : nat := 8.
Definition kDefaultMaxEntries : Z := 500.
(** src/src/handler/short_link_storage.cpp:23-24 [kCodeAlphabet] *)
Definition kCodeAlphabet : str := "abcdefghijkmnopqrstuvwxyzABCDEFGHJKLMNPQRSTUVWXYZ23456789".

(** src/src/handler/short_link_storage.h:9-19 [ShortLinkRecord] *)
Record ShortLinkRecord := mkRecord {
  code : str; url : str; name : str; created_at : Z; last_access_at : Z; updated_at : Z
}.

(** src/src/handler/short_link_storage.cpp:48-62 [hasQueryParam]
    Every turn but the last moves [begin] past a separator. *)
Fixpoint hasQueryParam_loop (fuel : nat) (query name : str) (begin : nat) : bool :=
  match fuel with
  | O => false
  | S fuel =>
      if (begin <=? length query)%nat then
        let end_ := find_char "&" query begin in
        let equals := find_char "=" query begin in
        let part_end := default (length query) end_ in
        if match equals with
           | Some e => (e <? part_end)%nat && bool_decide (substr query begin (e - begin) = name)
           | None => false
           end then true
        else match end_ with None => false | Some e => hasQueryParam_loop fuel query name (S e) end
      else false
  end.
Definition hasQueryParam (query name : str) : bool := hasQueryParam_loop (S (S (length query))) query name 0.

(** src/src/handler/short_link_storage.cpp:64-90 [extractSubQuery] *)
Definition extractSubQuery (url : str) : option str :=
  if bool_decide (url = []) || (kMaxUrlLength <? length url)%nat then None
  else match find_char "?" url 0 with
  | None => None
  | Some query_pos =>
      if (length url <=? query_pos + 1)%nat then None
      else
        let before_query := substr url 0 query_pos in
        match match find "://" before_query 0 with
              | Some scheme => (fun path_pos => drop path_pos before_query) <$> find_char "/" before_query (scheme + 3)
              | None => Some before_query
              end with
        | None => None
        | Some path =>
            let current_query := drop (query_pos + 1) url in
            if bool_decide (path = "/sub"%str) && hasQueryParam current_query "target" && hasQueryParam current_query "url"
            then Some current_query else None
        end
  end.

(** src/src/handler/short_link_storage.cpp:230-236 [shortLinkSubTarget] *)
Definition shortLinkSubTarget (url : str) : option str := app "/sub?" <$> extractSubQuery url.

(** src/src/handler/short_link_storage.cpp:92-100 [validCode] *)
Definition validCode (code : str) : bool :=
  (length code =? kCodeLength)%nat && forallb (one_of kCodeAlphabet) code.

(** [std::strtoul] to base ten: the number, if there is a digit, and the rest. *)
Fixpoint skip_digits (s : str) : str :=
  match s with c :: s' => if isdigit c then skip_digits s' else s | [] => [] end.
Definition strtoul (s : str) : option (Z * str) :=
  let s := skip_spaces s in
  let '(negative, digits) :=
    match s with
    | c :: t => if is_char "-" c then (true, t) else if is_char "+" c then (false, t) else (false, s)
    | [] => (false, s)
    end in
  match digits with
  | c :: _ =>
      if isdigit c then
        let n := digits_value 0 digits in
        Some (if UINT64_MAX <? n then UINT64_MAX else if (negative : bool) then u64 (- n) else n, skip_digits digits)
      else None
  | [] => None
  end.

(** src/src/handler/short_link_storage.cpp:102-112 [configuredMaxEntries] *)
Definition configuredMaxEntries (configured : option str) : Z :=
  match configured with
  | None | Some [] => kDefaultMaxEntries
  | Some text =>
      match strtoul text with
      | Some (parsed, []) => if parsed =? 0 then kDefaultMaxEntries else parsed
      | _ => kDefaultMaxEntries
      end
  end.

(** src/src/handler/short_link_storage.cpp:114-116 [retentionTime] *)
Definition retentionTime (record : ShortLinkRecord) : Z :=
  if negb (last_access_at record =? 0) then last_access_at record else created_at record.

(** src/src/handler/short_link_storage.cpp:118-123 [trimName] *)
Definition trimName (name : str) : str :=
  if (length name <=? kMaxNameLength)%nat then name else take kMaxNameLength name.

(** ** The storage *)

Notation Records := (gmap str ShortLinkRecord).

(** The state behind the mutex and the file. *)
Record Storage := mkStorage { records : Records; loaded : bool; disk : str }.

(** What the file system answers a request: whether the file can be read, and
    whether it is written.  A write that fails leaves some contents, which for
    [fileWrite] are the old ones (LinkStore.v). *)
Inductive WriteOutcome := Written | Unwritten (left_contents : str).
Record Io := mkIo { readable : bool; write : WriteOutcome }.

(** [fileGet(storagePath(), true)]: nothing for a path that is not below the
    working directory, and nothing after an error. *)
Definition scoped_read (in_scope : bool) (io : Io) (contents : str) : str :=
  if in_scope && readable io then contents else [].

(** What a creation or an update returns. *)
Inductive LinkResult := LinkOk (code path : str) | LinkError (error : str).
Definition link_path (code : str) : str := "/s?id=" ++ code.

(** The order of [pruneLocked] and of [listShortLinks]. *)
Definition retention_le (l r : str * Z) : Prop := l.2 < r.2 \/ l.2 = r.2 /\ str_le l.1 r.1.
Definition listing_le (l r : ShortLinkRecord) : Prop :=
  created_at r < created_at l \/ created_at l = created_at r /\ str_le (code l) (code r).
#[export] Instance retention_le_dec : RelDecision retention_le.
Proof. intros l r. unfold retention_le. apply _. Defined.
#[export] Instance listing_le_dec : RelDecision listing_le.
Proof. intros l r. unfold listing_le. apply _. Defined.

Section Storage.
Context {J : JsonText} (iterate : Records -> list (str * ShortLinkRecord)) (in_scope : bool).

(** src/src/handler/short_link_storage.cpp:136-139 [makeCodeLocked, one code]
    [draws attempt index] is a draw of the distribution over the alphabet. *)
Definition draw_code (draws : nat -> nat -> fin 57) (attempt : nat) : str :=
  (fun index => nth (fin_to_nat (draws attempt index)) kCodeAlphabet "a"%char) <$> seq 0 kCodeLength.
(** src/src/handler/short_link_storage.cpp:125-144 [makeCodeLocked] *)
Fixpoint makeCode_loop (n : nat) (draws : nat -> nat -> fin 57) (m : Records) (attempt : nat) : str :=
  match n with
  | O => []
  | S n => match m !! draw_code draws attempt with
           | None => draw_code draws attempt
           | Some _ => makeCode_loop n draws m (S attempt)
           end
  end.
Definition makeCodeLocked (draws : nat -> nat -> fin 57) (m : Records) : str := makeCode_loop 128 draws m 0.

(** src/src/handler/short_link_storage.cpp:160-184 [loadLocked, one member] *)
Definition load_member (m : Records) (entry : str * Json) : Records :=
  let code := c_str entry.1 in
  match entry.2 with
  | JObject value =>
      match validCode code, get_string (member "url" value) with
      | true, Some url =>
          match extractSubQuery url with
          | Some _ =>
              <[code := mkRecord code url
                          (match get_string (member "name" value) with Some n => trimName n | None => [] end)
                          (match member "created_at" value with Some v => valueUint64 v | None => 0 end)
                          (match member "last_access_at" value with Some v => valueUint64 v | None => 0 end)
                          (match member "updated_at" value with Some v => valueUint64 v | None => 0 end)]> m
          | None => m
          end
      | _, _ => m
      end
  | _ => m
  end.

(** src/src/handler/short_link_storage.cpp:146-185 [loadLocked] *)
Definition loadLocked (io : Io) (st : Storage) : Storage :=
  if loaded st then st
  else
    let raw := scoped_read in_scope io (disk st) in
    mkStorage
      (match raw with
       | [] => ∅
       | _ => match json_read (c_str raw) with Some (JObject document) => foldl load_member ∅ document | _ => ∅ end
       end) true (disk st).

(** src/src/handler/short_link_storage.cpp:191-205 [saveLocked, one record] *)
Definition record_json (entry : str * ShortLinkRecord) : str * Json :=
  (c_str entry.1, JObject
    [("url"%str, JString (c_str (url entry.2))); ("name"%str, JString (c_str (name entry.2)));
     ("created_at"%str, JInteger (created_at entry.2)); ("last_access_at"%str, JInteger (last_access_at entry.2));
     ("updated_at"%str, JInteger (updated_at entry.2))]).

(** src/src/handler/short_link_storage.cpp:187-208 [saveLocked] *)
Definition saveLocked (io : Io) (st : Storage) : bool * Storage :=
  let document := JObject (record_json <$> iterate (records st)) in
  match write io with
  | Written => (true, mkStorage (records st) (loaded st) (c_str (json_write document)))
  | Unwritten contents => (false, mkStorage (records st) (loaded st) contents)
  end.

Definition set_records (m : Records) (st : Storage) : Storage := mkStorage m (loaded st) (disk st).

(** src/src/handler/short_link_storage.cpp:210-226 [pruneLocked] *)
Definition pruneLocked (max_entries : Z) (m : Records) : Records :=
  if (max_entries =? 0) || (Z.of_nat (size m) <=? max_entries) then m
  else
    let candidates := merge_sort retention_le ((fun e => (e.1, retentionTime e.2)) <$> iterate m) in
    let remove_count := (size m - Z.to_nat max_entries)%nat in
    foldl (fun m c => delete c.1 m) m (take remove_count candidates).

(** src/src/handler/short_link_storage.cpp:238-287 [createShortLink] *)
Definition createShortLink (max_env : option str) (draws : nat -> nat -> fin 57) (io : Io)
    (u n : str) (now_ms : Z) (st : Storage) : LinkResult * Storage :=
  match extractSubQuery u with
  | None => (LinkError "invalid-url", st)
  | Some _ =>
      let st := loadLocked io st in
      match list_find (fun e => url e.2 = u) (iterate (records st)) with
      | Some (_, (c, _)) => (LinkOk c (link_path c), st)
      | None =>
          match makeCodeLocked draws (records st) with
          | [] => (LinkError "code-exhausted", st)
          | c =>
              let m := <[c := mkRecord c u (trimName n) now_ms 0 now_ms]> (records st) in
              let st := set_records (pruneLocked (configuredMaxEntries max_env) m) st in
              match records st !! c with
              | None => (LinkError "code-exhausted", st)
              | Some _ =>
                  match saveLocked io st with
                  | (false, st) => (LinkError "storage-unavailable", set_records (delete c (records st)) st)
                  | (true, st) => (LinkOk c (link_path c), st)
                  end
              end
          end
      end
  end.

(** src/src/handler/short_link_storage.cpp:292-333 [updateShortLink] *)
Definition updateShortLink (io : Io) (c u n : str) (has_name : bool) (now_ms : Z)
    (st : Storage) : LinkResult * Storage :=
  if negb (validCode c) then (LinkError "not-found", st)
  else match extractSubQuery u with
  | None => (LinkError "invalid-url", st)
  | Some _ =>
      let st := loadLocked io st in
      match records st !! c with
      | None => (LinkError "not-found", st)
      | Some previous =>
          let record := mkRecord (code previous) u (if has_name then trimName n else name previous)
                          (created_at previous) (last_access_at previous) now_ms in
          match saveLocked io (set_records (<[c := record]> (records st)) st) with
          | (false, st) => (LinkError "storage-unavailable", set_records (<[c := previous]> (records st)) st)
          | (true, st) => (LinkOk c (link_path c), st)
          end
      end
  end.

(** src/src/handler/short_link_storage.cpp:335-349 [listShortLinks] *)
Definition listShortLinks (io : Io) (st : Storage) : list ShortLinkRecord * Storage :=
  let st := loadLocked io st in (merge_sort listing_le (snd <$> iterate (records st)), st).

(** src/src/handler/short_link_storage.cpp:351-359 [deleteShortLink] *)
Definition deleteShortLink (io : Io) (c : str) (st : Storage) : bool * Storage :=
  if negb (validCode c) then (false, st)
  else
    let st := loadLocked io st in
    match records st !! c with
    | None => (false, st)
    | Some _ => saveLocked io (set_records (delete c (records st)) st)
    end.

(** src/src/handler/short_link_storage.cpp:361-366 [pruneShortLinks] *)
Definition pruneShortLinks (io : Io) (max_entries : Z) (st : Storage) : Storage :=
  let st := loadLocked io st in
  (saveLocked io (set_records (pruneLocked max_entries (records st)) st)).2.

(** src/src/handler/short_link_storage.cpp:368-388 [resolveShortLink] *)
Definition resolveShortLink (io : Io) (c : str) (now_ms : Z) (st : Storage) : option ShortLinkRecord * Storage :=
  if negb (validCode c) then (None, st)
  else
    let st := loadLocked io st in
    match records st !! c with
    | None => (None, st)
    | Some r =>
        let r := mkRecord (code r) (url r) (name r) (created_at r) now_ms (updated_at r) in
        (Some r, (saveLocked io (set_records (<[c := r]> (records st)) st)).2)
    end.

(** ** The handlers *)

Record Request := mkRequest { argument : list (str * str); headers : list (str * str); postdata : str }.
Record Response := mkResponse { status_code : Z; content_type : str; response_headers : list (str * str); body : str }.

(** [find] in the multimap of arguments and in the map of headers, which
    ignores the case of their names. *)
Definition find_arg (k : str) (l : list (str * str)) : option str := snd ∘ snd <$> list_find (fun a => a.1 = k) l.
Definition find_header (k : str) (l : list (str * str)) : option str :=
  snd ∘ snd <$> list_find (fun h => toLower h.1 = toLower k) l.

(** src/src/handler/short_link_auth.cpp:12-19 [constantTimeEquals] *)
Definition constantTimeEquals (left right : str) : bool :=
  (length left =? length right)%nat &&
  (foldl (fun diff lr => Z.lor diff (Z.lxor (Str.code lr.1) (Str.code lr.2))) 0 (zip left right) =? 0).

(** src/src/handler/short_link_auth.cpp:21-26 [bearerToken] *)
Definition bearerToken (value : str) : str := if startsWith value "Bearer " then drop 7 value else [].

(** src/src/handler/short_link_auth.cpp:28-42 [suppliedPassword] *)
Definition suppliedPassword (r : Request) : str :=
  match find_header "X-Short-Link-Password" (headers r) with
  | Some v => v
  | None =>
      match find_header "Authorization" (headers r) with
      | Some v => bearerToken v
      | None => default [] (find_arg "password" (argument r))
      end
  end.

(** src/src/handler/short_link_auth.cpp:46-49 [shortLinkAdminPassword] *)
Definition shortLinkAdminPassword (env : option str) : str :=
  match env with Some value => trimWhitespace value true true | None => [] end.

(** src/src/handler/short_link_auth.cpp:51-53 [shortLinkAdminPasswordConfigured] *)
Definition shortLinkAdminPasswordConfigured (env : option str) : bool := negb (bool_decide (shortLinkAdminPassword env = [])).

(** src/src/handler/short_link_auth.cpp:55-60 [shortLinkAdminAuthorized] *)
Definition shortLinkAdminAuthorized (env : option str) (r : Request) : bool :=
  let expected := shortLinkAdminPassword env in
  bool_decide (expected = []) || constantTimeEquals (suppliedPassword r) expected.

(** The responses carry JSON and are never cached. *)
Definition json_response (status : Z) (more : list (str * str)) (j : Json) : Response :=
  mkResponse status "application/json; charset=utf-8" (more ++ [("Cache-Control"%str, "private, no-store"%str)])
    (c_str (json_write j)).

(** src/src/handler/short_links.cpp:23-35 [jsonError] *)
Definition jsonError (more : list (str * str)) (status : Z) (error : str) : Response :=
  json_response status more (JObject [("error"%str, JString (c_str error))]).

(** src/src/handler/short_links.cpp:37-51 [jsonCreated] *)
Definition jsonCreated (c path : str) : Response :=
  json_response 200 [] (JObject [("code"%str, JString (c_str c)); ("path"%str, JString (c_str path))]).

(** src/src/handler/short_links.cpp:53-68 [jsonDeleted] *)
Definition jsonDeleted (deleted : bool) : Response :=
  json_response (if deleted then 200 else 404) []
    (JObject (("deleted"%str, JBool deleted) :: if deleted then [] else [("error"%str, JString "not-found")])).

(** src/src/handler/short_links.cpp:70-87 [jsonUpdated] *)
Definition jsonUpdated (c path : str) (updated : Z) : Response :=
  json_response 200 [] (JObject [("code"%str, JString (c_str c)); ("path"%str, JString (c_str path));
                                 ("updated_at"%str, JInteger updated)]).

(** src/src/handler/short_links.cpp:89-95 [statusForUpdateError] *)
Definition statusForUpdateError (error : str) : Z :=
  if bool_decide (error = "not-found"%str) then 404
  else if bool_decide (error = "storage-unavailable"%str) then 503 else 400.

(** The address and the name in the body of a request. *)
Definition posted (r : Request) : option (str * option str) :=
  match json_read (c_str (postdata r)) with
  | Some (JObject document) =>
      (fun u => (u, get_string (member "name" document))) <$> get_string (member "url" document)
  | _ => None
  end.

(** src/src/handler/short_links.cpp:99-119 [createShortLinkEndpoint] *)
Definition createShortLinkEndpoint (max_env : option str) (draws : nat -> nat -> fin 57) (io : Io) (now_ms : Z)
    (r : Request) (st : Storage) : Response * Storage :=
  match posted r with
  | None => (jsonError [] 400 "invalid-request", st)
  | Some (u, n) =>
      match createShortLink max_env draws io u (default [] n) now_ms st with
      | (LinkOk c path, st) => (jsonCreated c path, st)
      | (LinkError error, st) =>
          (jsonError [] (if bool_decide (error = "storage-unavailable"%str) then 503 else 400) error, st)
      end
  end.

Definition unauthorized : Response :=
  jsonError [("WWW-Authenticate"%str, "Bearer realm=" ++ ["034"%char] ++ "short-links" ++ ["034"%char])] 401 "unauthorized".

(** src/src/handler/short_links.cpp:136-154 [listShortLinksEndpoint, one item] *)
Definition item_json (record : ShortLinkRecord) : Json :=
  JObject [("code"%str, JString (c_str (code record))); ("path"%str, JString (c_str (link_path (code record))));
           ("url"%str, JString (c_str (url record))); ("name"%str, JString (c_str (name record)));
           ("created_at"%str, JInteger (created_at record)); ("last_access_at"%str, JInteger (last_access_at record));
           ("updated_at"%str, JInteger (updated_at record))].

(** src/src/handler/short_links.cpp:121-158 [listShortLinksEndpoint] *)
Definition listShortLinksEndpoint (password : option str) (io : Io) (r : Request) (st : Storage) : Response * Storage :=
  if negb (shortLinkAdminAuthorized password r) then (unauthorized, st)
  else
    let '(records, st) := listShortLinks io st in
    (json_response 200 [] (JObject [("items"%str, JArray (item_json <$> records))]), st).

(** src/src/handler/short_links.cpp:160-170 [deleteShortLinkEndpoint] *)
Definition deleteShortLinkEndpoint (password : option str) (io : Io) (r : Request) (st : Storage) : Response * Storage :=
  if negb (shortLinkAdminAuthorized password r) then (unauthorized, st)
  else match find_arg "id" (argument r) with
  | None => (jsonDeleted false, st)
  | Some c => let '(deleted, st) := deleteShortLink io c st in (jsonDeleted deleted, st)
  end.

(** src/src/handler/short_links.cpp:172-204 [updateShortLinkEndpoint] *)
Definition updateShortLinkEndpoint (password : option str) (io : Io) (now_ms : Z) (r : Request) (st : Storage)
    : Response * Storage :=
  if negb (shortLinkAdminAuthorized password r) then (unauthorized, st)
  else match find_arg "id" (argument r) with
  | None => (jsonError [] 404 "not-found", st)
  | Some id =>
      match posted r with
      | None => (jsonError [] 400 "invalid-request", st)
      | Some (u, n) =>
          match updateShortLink io id u (default [] n) (bool_decide (is_Some n)) now_ms st with
          | (LinkOk c path, st) => (jsonUpdated c path now_ms, st)
          | (LinkError error, st) => (jsonError [] (statusForUpdateError error) error, st)
          end
      end
  end.

(** What a resolution ends with: a reply, or the conversion of a target. *)
Inductive Resolution := Reply (response : Response) | Convert (target : str).

(** src/src/handler/short_links.cpp:206-227 [resolveShortLinkEndpoint]
    The target goes on to the parser of request targets and the conversion. *)
Definition resolveShortLinkEndpoint (io : Io) (now_ms : Z) (r : Request) (st : Storage) : Resolution * Storage :=
  match find_arg "id" (argument r) with
  | None => (Reply (jsonError [] 404 "not-found"), st)
  | Some c =>
      match resolveShortLink io c now_ms st with
      | (None, st) => (Reply (jsonError [] 404 "not-found"), st)
      | (Some record, st) =>
          match shortLinkSubTarget (url record) with
          | None => (Reply (jsonError [] 410 "invalid-target"), st)
          | Some target => (Convert target, st)
          end
      end
  end.

(** ** The service as a transition system

    A request of any kind, whose write keeps the old contents when it fails,
    or a restart of the process (which forgets the memory and keeps the
    file). *)
Definition keeps (io : Io) (st : Storage) : Prop :=
  match write io with Written => True | Unwritten contents => contents = disk st end.

Inductive step (st : Storage) : Storage -> Prop :=
  | step_create max_env draws io now r :
      keeps io st -> is_u64 now -> step st (createShortLinkEndpoint max_env draws io now r st).2
  | step_list pw io r : step st (listShortLinksEndpoint pw io r st).2
  | step_delete pw io r : keeps io st -> step st (deleteShortLinkEndpoint pw io r st).2
  | step_update pw io now r : keeps io st -> is_u64 now -> step st (updateShortLinkEndpoint pw io now r st).2
  | step_resolve io now r : keeps io st -> is_u64 now -> step st (resolveShortLinkEndpoint io now r st).2
  | step_prune io n : keeps io st -> is_u64 n -> step st (pruneShortLinks io n st)
  | step_restart : step st (mkStorage ∅ false (disk st)).

(** The process starts with whatever the file holds. *)
Definition initial (file : str) : Storage := mkStorage ∅ false file.

End Storage.

(** ** Lemmas: addresses *)

Lemma extract_shape u q :
  extractSubQuery u = Some q ->
  (exists p, u = p ++ "/sub?" ++ q) /\ q <> [] /\ (length u <= kMaxUrlLength)%nat /\
  hasQueryParam q "target" = true /\ hasQueryParam q "url" = true.
Proof.
  unfold extractSubQuery. destruct (_ || _) eqn:E; [done|]. bools. apply Nat.ltb_ge in H0.
  destruct (find_char "?" u 0) as [i|] eqn:Hi; [|done]. apply find_char_Some in Hi as (Hlt & Hu & _).
  destruct (Nat.leb_spec (length u) (i + 1)) as [|Hlen]; [done|]. unfold substr. rewrite drop_0.
  intros Hm. destruct (match find "://" _ _ with Some _ => _ | None => _ end) as [path|] eqn:Hp; [|done].
  destruct (_ && _) eqn:Hc in Hm; [|done]. bools. simplify_eq. rewrite Nat.add_1_r in *.
  split_and!; try done.
  - assert (exists a, take i u = a ++ "/sub"%str) as [a Ha].
    { destruct (find "://" _ _) as [n|]; [|injection Hp as ->; by exists []].
      apply fmap_Some in Hp as (j & _ & Heq). exists (take j (take i u)). by rewrite Heq, take_drop. }
    exists a. rewrite Hu at 1. rewrite Ha, <- app_assoc. done.
  - intros Hnil. apply (f_equal length) in Hnil. rewrite length_drop in Hnil. simpl in Hnil. lia.
Qed.

Lemma extract_sub q :
  q <> [] -> (5 + length q <= kMaxUrlLength)%nat ->
  hasQueryParam q "target" = true -> hasQueryParam q "url" = true -> extractSubQuery ("/sub?" ++ q) = Some q.
Proof.
  intros Hq Hlen Ht Hu. unfold extractSubQuery.
  rewrite (proj2 (orb_false_iff _ _)).
  2:{ split; [done|]. apply Nat.ltb_ge. simpl in *. lia. }
  replace (find_char "?" ("/sub?" ++ q) 0) with (Some 4%nat) by done.
  destruct q as [|c q]; [done|]. cbv zeta. cbn [length app Nat.add Nat.leb].
  replace (find "://" _ 0) with (@None nat) by done. cbn [drop]. by rewrite Ht, Hu.
Qed.

Lemma subTarget_fixed u t : shortLinkSubTarget u = Some t -> shortLinkSubTarget t = Some t.
Proof.
  unfold shortLinkSubTarget. intros (q & Hq & ->)%fmap_Some.
  destruct (extract_shape _ _ Hq) as ((p & ->) & ? & Hlen & ? & ?). rewrite !length_app in Hlen. simpl in Hlen.
  rewrite extract_sub; auto. lia.
Qed.

Lemma validCode_clean c : validCode c = true -> "000"%char ∉ c.
Proof.
  unfold validCode. intros [_ H]%andb_true_iff. rewrite forallb_forall in H. intros Hin%list_elem_of_In.
  apply H in Hin. done.
Qed.

(** ** Lemmas: records *)

#[local] Arguments valueUint64 : simpl never.

Definition record_ok (c : str) (r : ShortLinkRecord) : Prop :=
  code r = c /\ validCode c = true /\ is_Some (extractSubQuery (url r)) /\
  "000"%char ∉ url r /\ "000"%char ∉ name r /\ (length (name r) <= kMaxNameLength)%nat /\
  is_u64 (created_at r) /\ is_u64 (last_access_at r) /\ is_u64 (updated_at r).

Definition records_ok (m : Records) : Prop := forall c r, m !! c = Some r -> record_ok c r.

Lemma valueUint64_range j : is_u64 (valueUint64 j).
Proof. unfold valueUint64, is_u64. destruct j; try done. repeat split_if; bools; lia. Qed.

Lemma trimName_ok n : "000"%char ∉ n -> "000"%char ∉ trimName n /\ (length (trimName n) <= kMaxNameLength)%nat.
Proof.
  unfold trimName. intros Hn. destruct (Nat.leb_spec (length n) kMaxNameLength); [done|]. split.
  - intros Hin. apply Hn. by eapply subseteq_take.
  - rewrite length_take. lia.
Qed.

Lemma trimName_short n : (length n <= kMaxNameLength)%nat -> trimName n = n.
Proof. intros H. unfold trimName. by rewrite (proj2 (Nat.leb_le _ _)). Qed.

Lemma get_string_clean j t : get_string j = Some t -> "000"%char ∉ t.
Proof. destruct j as [[]|]; try done. intros [= <-]. apply c_str_clean. Qed.

Lemma records_ok_empty : records_ok ∅.
Proof. intros c r H. by rewrite lookup_empty in H. Qed.

Lemma records_ok_insert c r m : records_ok m -> record_ok c r -> records_ok (<[c := r]> m).
Proof. intros Hm Hr k x [[<- <-]|[_ H]]%lookup_insert_Some; auto. Qed.

Lemma records_ok_sub m m' : m ⊆ m' -> records_ok m' -> records_ok m.
Proof. intros Hs Hm c r H. apply Hm. by eapply lookup_weaken. Qed.

Lemma load_member_ok m e : records_ok m -> records_ok (load_member m e).
Proof.
  unfold load_member. destruct e as [c [| | | |value|]]; try done. simpl.
  destruct (validCode (c_str c)) eqn:Hc; [|done]. destruct (get_string (member "url" value)) as [u|] eqn:Hu; [|done].
  destruct (extractSubQuery u) eqn:Hx; [|done]. intros Hm. apply records_ok_insert; [done|].
  assert (Hopt : forall k, is_u64 (match member k value with Some v => valueUint64 v | None => 0 end)).
  { intros k. destruct (member k value); [apply valueUint64_range|done]. }
  unfold record_ok. simpl. rewrite Hx.
  split_and!; try done; auto; [by eapply get_string_clean|..];
    (destruct (get_string (member "name" value)) as [n|] eqn:Hn;
      [eapply trimName_ok; by eapply get_string_clean|try apply not_elem_of_nil; unfold kMaxNameLength; simpl; lia]).
Qed.

Lemma foldl_load_ok l m : records_ok m -> records_ok (foldl load_member m l).
Proof. revert m. induction l as [|e l IH]; simpl; auto using load_member_ok. Qed.

Lemma load_record m c r : record_ok c r -> load_member m (record_json (c, r)) = <[c := r]> m.
Proof.
  intros (Hc & Hv & [q Hq] & Hu & Hn & Hlen & H1 & H2 & H3). unfold load_member, record_json. simpl.
  rewrite c_str_idem, (c_str_id _ (validCode_clean _ Hv)), Hv, !c_str_idem, (c_str_id _ Hu), (c_str_id _ Hn), Hq.
  rewrite (trimName_short _ Hlen).
  assert (Hval : forall n, is_u64 n -> valueUint64 (JInteger n) = n).
  { intros n [? ?]. unfold valueUint64. rewrite (proj2 (Z.leb_le _ _)), (proj2 (Z.ltb_lt _ _)) by lia. done. }
  cbn [member list_find fst snd]. unfold member. simpl. rewrite !Hval by done. by destruct r; simplify_eq/=.
Qed.

Lemma foldl_records_ok l m :
  Forall (fun e => record_ok e.1 e.2) l ->
  foldl load_member m (record_json <$> l) = foldl (fun m e => <[e.1 := e.2]> m) m l.
Proof.
  intros Hl. revert m. induction Hl as [|[c r] l Hr Hl IH]; intros m; [done|].
  csimpl. by rewrite load_record.
Qed.

Lemma foldl_insert_map (m : Records) l :
  l ≡ₚ map_to_list m -> foldl (fun m e => <[e.1 := e.2]> m) ∅ l = m.
Proof.
  intros Hl. transitivity (list_to_map (rev l) : Records).
  - rewrite <- (rev_involutive l) at 1. generalize (rev l). intros k. induction k as [|[c r] k IH]; [done|].
    simpl. rewrite foldl_app. simpl. by rewrite IH.
  - symmetry. apply list_to_map_flip. by rewrite <- Permutation_rev.
Qed.

(** ** Lemmas: pruning *)

#[export] Instance retention_le_trans : Transitive retention_le.
Proof.
  intros a b c. unfold retention_le. intros [?|[? H1]] [?|[? H2]]; try (left; lia). right.
  split; [lia|]. by trans b.1.
Qed.

#[export] Instance retention_le_total : Total retention_le.
Proof.
  intros a b. unfold retention_le. destruct (Z.lt_total a.2 b.2) as [|[Heq|]]; [auto| |auto].
  destruct (total str_le a.1 b.1); auto.
Qed.

Lemma lookup_deletes (l : list (str * Z)) (m : Records) k :
  foldl (fun m c => delete c.1 m) m l !! k = if bool_decide (k ∈ l.*1) then None else m !! k.
Proof.
  revert m. induction l as [|[c t] l IH]; intros m; [done|]. csimpl. rewrite IH.
  destruct (decide (k = c)) as [->|Hne].
  - rewrite lookup_delete_eq, (bool_decide_true (c ∈ c :: l.*1)) by apply list_elem_of_here. by case_bool_decide.
  - rewrite lookup_delete_ne by done.
    rewrite (bool_decide_ext (k ∈ c :: l.*1) (k ∈ l.*1)); [done|]. rewrite elem_of_cons. tauto.
Qed.

Lemma size_deletes (l : list (str * Z)) (m : Records) :
  NoDup l.*1 -> (forall c, c ∈ l.*1 -> is_Some (m !! c)) ->
  size (foldl (fun m c => delete c.1 m) m l) = (size m - length l)%nat.
Proof.
  revert m. induction l as [|[c t] l IH]; intros m; csimpl; [intros; lia|].
  intros [Hc Hl]%NoDup_cons Hm. destruct (Hm c) as [r Hr]; [left|].
  rewrite IH; [|done|].
  - rewrite map_size_delete_Some by done. lia.
  - intros d Hd. rewrite lookup_delete_ne by (intros ->; done). apply Hm. by right.
Qed.

Section Storage_facts.
Context {J : JsonText} {L : JsonLaws J} (iterate : Records -> list (str * ShortLinkRecord)) (in_scope : bool).
(** A traversal visits every entry once. *)
Hypothesis iterate_perm : forall m, iterate m ≡ₚ map_to_list m.

Notation loadLocked := (loadLocked in_scope).
Notation createShortLink := (createShortLink iterate in_scope).
Notation updateShortLink := (updateShortLink iterate in_scope).
Notation deleteShortLink := (deleteShortLink iterate in_scope).
Notation pruneShortLinks := (pruneShortLinks iterate in_scope).
Notation resolveShortLink := (resolveShortLink iterate in_scope).
Notation step := (step iterate in_scope).
Notation candidates m := (merge_sort retention_le ((fun e => (e.1, retentionTime e.2)) <$> iterate m)).

Lemma candidates_perm m : candidates m ≡ₚ (fun e => (e.1, retentionTime e.2)) <$> map_to_list m.
Proof. by rewrite merge_sort_Permutation, iterate_perm. Qed.

Lemma elem_of_candidates m c t : (c, t) ∈ candidates m <-> exists r, m !! c = Some r /\ t = retentionTime r.
Proof.
  rewrite candidates_perm, list_elem_of_fmap. split.
  - intros ([d r] & [= -> ->] & H%elem_of_map_to_list). by exists r.
  - intros (r & H & ->). exists (c, r). by rewrite elem_of_map_to_list.
Qed.

Lemma candidates_keys m : NoDup (candidates m).*1 /\ length (candidates m) = size m.
Proof.
  split.
  - rewrite candidates_perm, <- list_fmap_compose. apply (NoDup_fst_map_to_list m).
  - by rewrite candidates_perm, length_fmap, length_map_to_list.
Qed.

Lemma prune_cases max m :
  pruneLocked iterate max m = m \/
  (0 < max \/ max < 0) /\ max < Z.of_nat (size m) /\
  forall k, pruneLocked iterate max m !! k =
    if bool_decide (k ∈ (take (size m - Z.to_nat max) (candidates m)).*1) then None else m !! k.
Proof.
  unfold pruneLocked. destruct (_ || _) eqn:E; [by left|right]. bools. split_and!; [lia|lia|]. intros k. apply lookup_deletes.
Qed.

Lemma prune_sub max m : pruneLocked iterate max m ⊆ m.
Proof.
  destruct (prune_cases max m) as [->|(_ & _ & H)]; [done|]. apply map_subseteq_spec. intros k r.
  rewrite H. by case_bool_decide.
Qed.

Lemma delete_prune_sub max c r m : delete c (pruneLocked iterate max (<[c := r]> m)) ⊆ m.
Proof.
  apply map_subseteq_spec. intros d x [Hne Hx]%lookup_delete_Some.
  pose proof (lookup_weaken _ _ _ _ Hx (prune_sub max (<[c := r]> m))) as H.
  by apply lookup_insert_Some in H as [[? _]|[_ ?]].
Qed.

(** Pruning to a positive limit keeps as many records as the limit allows,
    and every record it removes was used (or, if never used, created) no later
    than every record it keeps, ties broken by the code. *)
Theorem prune_keeps_recent max m :
  0 < max ->
  size (pruneLocked iterate max m) = (size m `min` Z.to_nat max)%nat /\
  pruneLocked iterate max m ⊆ m /\
  forall c r d q, m !! c = Some r -> pruneLocked iterate max m !! c = None ->
    pruneLocked iterate max m !! d = Some q ->
    retention_le (c, retentionTime r) (d, retentionTime q).
Proof.
  intros Hmax. split_and!; [|apply prune_sub|].
  - unfold pruneLocked. rewrite (proj2 (Z.eqb_neq _ _)) by lia. simpl.
    destruct (Z.leb_spec (Z.of_nat (size m)) max); [lia|]. destruct (candidates_keys m) as [Hnd Hlen].
    rewrite size_deletes.
    + rewrite length_take, Hlen. lia.
    + rewrite fmap_take. by eapply sublist_NoDup, sublist_take.
    + intros c Hc. rewrite fmap_take in Hc. apply subseteq_take, list_elem_of_fmap in Hc as ([k t] & -> & Hk).
      apply elem_of_candidates in Hk as (r & Hr & _). by exists r.
  - intros c r d q Hc Hnone Hd. destruct (prune_cases max m) as [Heq|(_ & _ & H)]; [rewrite Heq in Hnone; congruence|].
    rewrite H in Hnone. case_bool_decide as Hin; [|by rewrite Hc in Hnone].
    rewrite H in Hd. case_bool_decide as Hnin; [done|].
    set (n := (size m - Z.to_nat max)%nat) in *.
    pose proof (StronglySorted_merge_sort retention_le ((fun e => (e.1, retentionTime e.2)) <$> iterate m)) as Hs.
    rewrite <- (take_drop n (candidates m)) in Hs.
    eapply StronglySorted_app_1_elem_of; [exact Hs|..].
    + apply list_elem_of_fmap in Hin as ([k t] & -> & Hk). pose proof Hk as Hk'.
      apply subseteq_take, elem_of_candidates in Hk' as (r' & ? & ->). by simplify_eq/=.
    + assert (Hq : (d, retentionTime q) ∈ candidates m) by (apply elem_of_candidates; eauto).
      rewrite <- (take_drop n (candidates m)) in Hq. apply elem_of_app in Hq as [Hq|Hq]; [|done].
      destruct Hnin. apply list_elem_of_fmap. by exists (d, retentionTime q).
Qed.

(** *** Memory and file *)

(** What a restarted process would read. *)
Definition file_records (raw : str) : Records :=
  match raw with
  | [] => ∅
  | _ => match json_read (c_str raw) with Some (JObject document) => foldl load_member ∅ document | _ => ∅ end
  end.

Lemma load_unloaded io m raw : loadLocked io (mkStorage m false raw) = mkStorage (file_records (scoped_read in_scope io raw)) true raw.
Proof. done. Qed.

Definition same_link (r r' : ShortLinkRecord) : Prop :=
  code r = code r' /\ url r = url r' /\ name r = name r' /\ created_at r = created_at r' /\ updated_at r = updated_at r'.
Definition within (m m' : Records) : Prop :=
  forall c r, m !! c = Some r -> exists r', m' !! c = Some r' /\ same_link r r'.

(** Every record in memory is well formed and the file has it too. *)
Definition durable (st : Storage) : Prop :=
  records_ok (records st) /\
  if loaded st then within (records st) (file_records (disk st)) else records st = ∅.

Lemma within_sub m m' : m ⊆ m' -> within m m'.
Proof. intros Hs c r H. exists r. split; [by eapply lookup_weaken|done]. Qed.

Lemma within_trans a b c : within a b -> within b c -> within a c.
Proof.
  intros Hab Hbc k r Hk. destruct (Hab _ _ Hk) as (r1 & H1 & ?), (Hbc _ _ H1) as (r2 & H2 & ?).
  exists r2. split; [done|]. unfold same_link in *. intuition congruence.
Qed.

Lemma file_records_ok raw : records_ok (file_records raw).
Proof.
  unfold file_records. destruct raw; [apply records_ok_empty|].
  destruct (json_read _) as [[]|]; auto using records_ok_empty. apply foldl_load_ok, records_ok_empty.
Qed.

(** What is read is what the file has, or nothing. *)
Lemma scoped_records io raw : file_records (scoped_read in_scope io raw) ⊆ file_records raw.
Proof. unfold scoped_read. destruct (_ && _); [done|]. apply map_empty_subseteq. Qed.

Lemma document_writable l :
  Forall (fun e => record_ok e.1 e.2) l -> writable (JObject (record_json <$> l)) = true.
Proof.
  intros Hl. simpl. apply forallb_forall. intros x Hx%list_elem_of_In.
  apply list_elem_of_fmap in Hx as ([c r] & -> & Hin). rewrite Forall_forall in Hl.
  destruct (Hl _ Hin) as (_ & _ & _ & _ & _ & _ & H1 & H2 & H3).
  assert (Hc : forall t, bool_decide ("000"%char ∉ c_str t) = true) by (intros t; apply bool_decide_eq_true, c_str_clean).
  assert (Hn : forall n, is_u64 n -> (0 <=? n) && (n <? 2 ^ 64) = true).
  { intros n [? ?]. by rewrite (proj2 (Z.leb_le _ _)), (proj2 (Z.ltb_lt _ _)). }
  unfold record_json. cbn [writable forallb fst snd]. by rewrite !Hc, !Hn.
Qed.

Lemma save_load m :
  records_ok m -> file_records (c_str (json_write (JObject (record_json <$> iterate m)))) = m.
Proof.
  intros Hm.
  assert (Hf : Forall (fun e => record_ok e.1 e.2) (iterate m)).
  { apply Forall_forall. intros [c r]. rewrite iterate_perm, elem_of_map_to_list. apply Hm. }
  pose proof (document_writable _ Hf) as Hw. pose proof (json_write_nonempty (JObject (record_json <$> iterate m))) as Hne.
  unfold file_records. destruct (c_str (json_write _)) as [|a t] eqn:E; [done|].
  rewrite <- E, c_str_idem, json_read_write by done.
  rewrite foldl_records_ok by done. by apply foldl_insert_map.
Qed.

Lemma load_durable io st :
  durable st -> durable (loadLocked io st) /\ loaded (loadLocked io st) = true /\ disk (loadLocked io st) = disk st.
Proof.
  intros [Hok Hd]. destruct st as [m [] d]; [by split_and!|]. rewrite load_unloaded.
  split_and!; [|done..]. split; simpl; [apply file_records_ok|by apply within_sub, scoped_records].
Qed.

Lemma save_durable io st m :
  loaded st = true -> records_ok m -> keeps io st -> (write io <> Written -> within m (file_records (disk st))) ->
  durable (saveLocked iterate io (set_records m st)).2.
Proof.
  intros Hl Hm Hk Hw. unfold saveLocked, keeps in *. destruct (write io); simpl; (split; simpl; [done|]); rewrite Hl.
  - rewrite save_load by done. by apply within_sub.
  - subst. by apply Hw.
Qed.

Lemma set_durable st m :
  loaded st = true -> records_ok m -> within m (file_records (disk st)) -> durable (set_records m st).
Proof. intros Hl Hm Hw. split; simpl; [done|]. by rewrite Hl. Qed.

(** *** New codes *)

Lemma draw_code_valid draws a : validCode (draw_code draws a) = true.
Proof.
  unfold validCode, draw_code. rewrite length_fmap, length_seq. apply andb_true_iff. split; [done|].
  apply forallb_forall. intros x (i & -> & _)%list_elem_of_In%list_elem_of_fmap. unfold one_of.
  apply bool_decide_eq_true, list_elem_of_In, nth_In. pose proof (fin_to_nat_lt (draws a i)). simpl. lia.
Qed.

Lemma makeCode_fresh n draws m a c :
  makeCode_loop n draws m a = c -> c <> [] -> validCode c = true /\ m !! c = None.
Proof.
  revert a. induction n as [|n IH]; intros a; simpl; [by intros <-|].
  destruct (m !! draw_code draws a) eqn:E; [apply IH|]. intros <- _. by split; [apply draw_code_valid|].
Qed.

(** *** The operations *)

Lemma load_id io st : loaded st = true -> loadLocked io st = st.
Proof. unfold ShortLinks.loadLocked. by intros ->. Qed.

Lemma load_idem io io' st : loadLocked io' (loadLocked io st) = loadLocked io st.
Proof. unfold ShortLinks.loadLocked. by destruct (loaded st) eqn:E; simpl; rewrite ?E. Qed.

Lemma load_loaded io st : loaded (loadLocked io st) = true /\ disk (loadLocked io st) = disk st.
Proof. unfold ShortLinks.loadLocked. by destruct (loaded st) eqn:E. Qed.

Lemma new_record_ok c u n now q :
  validCode c = true -> extractSubQuery u = Some q -> "000"%char ∉ u -> "000"%char ∉ n -> is_u64 now ->
  record_ok c (mkRecord c u (trimName n) now 0 now).
Proof.
  intros Hc Hq Hu Hn Hnow. destruct (trimName_ok n Hn). unfold record_ok. simpl. rewrite Hq. by split_and!.
Qed.

Definition created (u : str) (res : LinkResult) (st' : Storage) : Prop :=
  forall c path, res = LinkOk c path ->
    path = link_path c /\ loaded st' = true /\ exists r, records st' !! c = Some r /\ url r = u.

Lemma create_durable env draws io u n now st res st' :
  durable st -> keeps io st -> "000"%char ∉ u -> "000"%char ∉ n -> is_u64 now ->
  createShortLink env draws io u n now st = (res, st') -> durable st' /\ created u res st'.
Proof.
  intros Hd Hk Hu Hn Hnow. unfold ShortLinks.createShortLink. destruct (extractSubQuery u) as [q|] eqn:Hq; [|by intros [= <- <-]].
  destruct (load_durable io st Hd) as (Hd1 & Hl & Hdisk). set (st1 := loadLocked io st) in *.
  destruct (list_find _ _) as [[i [c r]]|] eqn:Hf.
  { intros [= <- <-]. split; [done|]. intros c' path [= <- <-]. split_and!; [done..|].
    apply list_find_Some in Hf as (Hi & Hr & _). exists r. split; [|done].
    apply elem_of_map_to_list. rewrite <- iterate_perm. by eapply list_elem_of_lookup_2. }
  destruct (makeCodeLocked draws (records st1)) as [|x c] eqn:Hc; [by intros [= <- <-]|].
  destruct (makeCode_fresh _ _ _ _ _ Hc) as [Hv Hfresh]; [done|]. set (k := x :: c) in *.
  pose proof Hd1 as [Hok Hw]. rewrite Hl in Hw.
  pose proof (records_ok_insert _ _ _ Hok (new_record_ok k u n now q Hv Hq Hu Hn Hnow)) as Hok1.
  set (m1 := <[k := _]> (records st1)) in *. pose proof (prune_sub (configuredMaxEntries env) m1) as Hsub.
  set (m2 := pruneLocked _ _ m1) in *. pose proof (records_ok_sub _ _ Hsub Hok1) as Hok2.
  assert (Hdel : delete k m2 ⊆ records st1) by apply delete_prune_sub.
  cbn [set_records records]. destruct (m2 !! k) as [r|] eqn:Hkr.
  - unfold saveLocked, keeps in *. destruct (write io) as [|contents]; intros [= <- <-]; simpl.
    + split.
      * split; simpl; [done|]. rewrite Hl, save_load by done. by apply within_sub.
      * intros c' path [= <- <-]. split_and!; [done..|]. exists r. split; [done|].
        apply (lookup_weaken _ _ _ _ Hkr), lookup_insert_Some in Hsub as [[_ <-]|[? _]]; done.
    + subst contents. split; [|done]. split; simpl; [by eapply records_ok_sub; [by apply delete_subseteq|]|]. rewrite Hl, <- Hdisk.
      eapply within_trans; [by apply within_sub|done].
  - intros [= <- <-]. split; [|done]. apply set_durable; [done..|]. rewrite <- (delete_id m2 k Hkr).
    eapply within_trans; [by apply within_sub|done].
Qed.

Lemma keeps_load io io' st : keeps io st -> keeps io (loadLocked io' st).
Proof. unfold keeps. by rewrite (proj2 (load_loaded io' st)). Qed.

Lemma update_durable io c u n has now st :
  durable st -> keeps io st -> "000"%char ∉ u -> "000"%char ∉ n -> is_u64 now ->
  durable (updateShortLink io c u n has now st).2.
Proof.
  intros Hd Hk Hu Hn Hnow. unfold ShortLinks.updateShortLink. split_if; [done|]. destruct (extractSubQuery u) as [q|] eqn:Hq; [|done].
  destruct (load_durable io st Hd) as (Hd1 & Hl & _). apply (keeps_load io io) in Hk. set (st1 := loadLocked io st) in *.
  destruct (records st1 !! c) as [r|] eqn:Hr; [|done]. pose proof Hd1 as [Hok Hw]. rewrite Hl in Hw.
  destruct (Hok _ _ Hr) as (H1 & H2 & H3 & H4 & H5 & H6 & H7 & H8 & H9). destruct (trimName_ok n Hn).
  unfold saveLocked, keeps in *. destruct (write io); simpl.
  - assert (Hnew : records_ok (<[c := mkRecord (code r) u (if has then trimName n else name r) (created_at r) (last_access_at r) now]> (records st1))).
    { apply records_ok_insert; [done|]. unfold record_ok. simpl. rewrite Hq. by destruct has; split_and!. }
    split; simpl; [done|]. rewrite Hl, save_load by done. by apply within_sub.
  - subst. split; simpl; rewrite insert_insert_eq, insert_id by done; [done|]. by rewrite Hl.
Qed.

Lemma delete_durable io c st : durable st -> keeps io st -> durable (deleteShortLink io c st).2.
Proof.
  intros Hd Hk. unfold ShortLinks.deleteShortLink. split_if; [done|]. apply (keeps_load io io) in Hk.
  destruct (load_durable io st Hd) as (Hd1 & Hl & _). destruct (records _ !! c) as [r|] eqn:Hr; [|done].
  pose proof Hd1 as [Hok Hw]. rewrite Hl in Hw. apply save_durable; [done|..]; [|done|].
  - eapply records_ok_sub; [apply delete_subseteq|done].
  - intros _. eapply within_trans; [by apply within_sub, delete_subseteq|done].
Qed.

Lemma prune_durable io n st : durable st -> keeps io st -> durable (pruneShortLinks io n st).
Proof.
  intros Hd Hk. unfold ShortLinks.pruneShortLinks. destruct (load_durable io st Hd) as (Hd1 & Hl & _). apply (keeps_load io io) in Hk.
  pose proof Hd1 as [Hok Hw]. rewrite Hl in Hw. apply save_durable; [done|..]; [|done|].
  - eapply records_ok_sub; [apply prune_sub|done].
  - intros _. eapply within_trans; [by apply within_sub, prune_sub|done].
Qed.

Lemma resolve_durable io c now st : durable st -> keeps io st -> is_u64 now -> durable (resolveShortLink io c now st).2.
Proof.
  intros Hd Hk Hnow. unfold ShortLinks.resolveShortLink. split_if; [done|]. apply (keeps_load io io) in Hk.
  destruct (load_durable io st Hd) as (Hd1 & Hl & _). destruct (records _ !! c) as [r|] eqn:Hr; [|done].
  pose proof Hd1 as [Hok Hw]. rewrite Hl in Hw. apply save_durable; [done|..]; [|done|].
  - apply records_ok_insert; [done|]. destruct (Hok _ _ Hr) as (?&?&?&?&?&?&?&?&?). by split_and!.
  - intros _. eapply within_trans; [|done]. intros d x [[<- <-]|[_ Hx]]%lookup_insert_Some; eauto.
    + exists r. by split.
    + exists x. by split.
Qed.

Lemma posted_clean r u n : posted r = Some (u, n) -> "000"%char ∉ u /\ "000"%char ∉ default [] n.
Proof.
  unfold posted. destruct (json_read _) as [[| | | |members|]|]; try done.
  intros (x & Hx & [= -> ->])%fmap_Some.
  split; [by eapply get_string_clean|]. destruct (get_string (member "name" members)) eqn:E; simpl.
  - by eapply get_string_clean.
  - apply not_elem_of_nil.
Qed.

Lemma step_durable st st' : durable st -> step st st' -> durable st'.
Proof.
  intros Hd Hs. destruct Hs as [env draws io now r Hk Hnow|pw io r|pw io r Hk|pw io now r Hk Hnow|io now r Hk Hnow|io n Hk Hn|].
  - unfold createShortLinkEndpoint. destruct (posted r) as [[u n]|] eqn:Hp; [|done].
    destruct (posted_clean _ _ _ Hp). destruct (createShortLink _ _ _ _ _ _ _) as [res st1] eqn:E.
    eapply create_durable in E as [? _]; eauto. by destruct res.
  - unfold listShortLinksEndpoint. split_if; [done|]. simpl. by apply load_durable.
  - unfold deleteShortLinkEndpoint. split_if; [done|]. destruct (find_arg _ _) as [c|]; [|done].
    pose proof (delete_durable io c st Hd Hk). by destruct (deleteShortLink _ _ _).
  - unfold updateShortLinkEndpoint. split_if; [done|]. destruct (find_arg _ _) as [c|]; [|done].
    destruct (posted r) as [[u n]|] eqn:Hp; [|done]. destruct (posted_clean _ _ _ Hp).
    pose proof (update_durable io c u (default [] n) (bool_decide (is_Some n)) now st Hd Hk) as H1.
    destruct (updateShortLink _ _ _ _ _ _ _) as [[] st1]; by apply H1.
  - unfold resolveShortLinkEndpoint. destruct (find_arg _ _) as [c|]; [|done].
    pose proof (resolve_durable io c now st Hd Hk Hnow). destruct (resolveShortLink _ _ _ _) as [[rec|] st1]; [|done].
    by destruct (shortLinkSubTarget (url rec)).
  - by apply prune_durable.
  - by split; simpl; [apply records_ok_empty|].
Qed.

Lemma initial_durable file : durable (initial file).
Proof. by split; simpl; [apply records_ok_empty|]. Qed.

Lemma reachable_durable file st : rtc (step) (initial file) st -> durable st.
Proof. intros Hr. eapply (invariant_rtc _ durable step_durable); [apply initial_durable|done]. Qed.

(** Whatever the file held at the start and whichever requests and
    restarts followed: every stored link has a valid code, which is its key, an
    address that resolves to a target below /sub? and a name of at most 160
    bytes, and the file has every link that memory has, with the same address,
    name and dates. *)
Theorem storage_wellformed file st :
  rtc (step) (initial file) st ->
  (forall c r, records st !! c = Some r ->
     code r = c /\ validCode c = true /\ (exists q, shortLinkSubTarget (url r) = Some ("/sub?" ++ q)) /\
     (length (name r) <= 160)%nat) /\
  (loaded st = true -> forall c r, records st !! c = Some r ->
     exists r', file_records (disk st) !! c = Some r' /\ same_link r r').
Proof.
  intros [Hok Hw]%reachable_durable. split.
  - intros c r Hr. destruct (Hok _ _ Hr) as (? & ? & [q Hq] & _ & _ & ? & _). split_and!; try done.
    exists q. unfold shortLinkSubTarget. by rewrite Hq.
  - intros Hl. by rewrite Hl in Hw.
Qed.

Lemma resolve_found io c now st r :
  validCode c = true -> records (loadLocked io st) !! c = Some r ->
  exists r', (resolveShortLink io c now st).1 = Some r' /\ url r' = url r.
Proof. intros Hv Hr. unfold ShortLinks.resolveShortLink. rewrite Hv. simpl. rewrite Hr. eauto. Qed.

(** C20: a link that was given out resolves to the address it was created for,
    by the running process, in every reachable state, and after a restart when
    the file is below the working directory and can be read; when the path of
    the file is not below the working directory the restarted process has no
    link at all.  The target is the query of the address below /sub? and is
    its own target. *)
Theorem link_survives_restart file st max_env draws io u n now c path st' :
  rtc step (initial file) st -> keeps io st -> "000"%char ∉ u -> "000"%char ∉ n -> is_u64 now ->
  createShortLink max_env draws io u n now st = (LinkOk c path, st') ->
  path = "/s?id=" ++ c /\
  (forall io' now', exists r, (resolveShortLink io' c now' st').1 = Some r /\ url r = u) /\
  (forall io' now', let restarted := mkStorage ∅ false (disk st') in
     if in_scope then readable io' = true -> exists r, (resolveShortLink io' c now' restarted).1 = Some r /\ url r = u
     else (resolveShortLink io' c now' restarted).1 = None) /\
  exists q t, u = q ++ t /\ shortLinkSubTarget u = Some t /\ shortLinkSubTarget t = Some t /\
              starts_with "/sub?" t = true.
Proof.
  intros Hr Hk Hu Hn Hnow Hc. pose proof (reachable_durable _ _ Hr) as Hd.
  destruct (create_durable _ _ _ _ _ _ _ _ _ Hd Hk Hu Hn Hnow Hc) as [[Hok Hw] Hres].
  destruct (Hres c path eq_refl) as (-> & Hl & r & Hrc & Hru). rewrite Hl in Hw.
  destruct (Hok _ _ Hrc) as (_ & Hv & [q Hq] & _). rewrite Hru in Hq. split_and!; [done|..].
  - intros io' now'. destruct (resolve_found io' c now' st' r) as (r' & ? & ?); [done|by rewrite load_id|].
    exists r'. split; congruence.
  - intros io' now'. cbv zeta. destruct in_scope eqn:Es.
    + intros Hread. destruct (Hw _ _ Hrc) as (r1 & Hr1 & _ & Hu1 & _).
      destruct (resolve_found io' c now' (mkStorage ∅ false (disk st')) r1) as (r' & Hx & ?); [done| |].
      { rewrite load_unloaded. unfold scoped_read. by rewrite Es, Hread. }
      rewrite Es in Hx. exists r'. split; congruence.
    + pose proof (load_unloaded io' ∅ (disk st')) as Hload. unfold scoped_read in Hload. rewrite Es in Hload. cbn [andb] in Hload.
      unfold ShortLinks.resolveShortLink. rewrite Hv, Hload. done.
  - destruct (extract_shape _ _ Hq) as ((p & ->) & _). exists p, ("/sub?" ++ q). split_and!; [done|..].
    + unfold shortLinkSubTarget. by rewrite Hq.
    + apply subTarget_fixed with (p ++ "/sub?" ++ q). unfold shortLinkSubTarget. by rewrite Hq.
    + apply starts_with_app.
Qed.

(** The record that a creation adds, and the links that the pruning for it
    leaves. *)
Definition new_record (c u n : str) (now : Z) : ShortLinkRecord := mkRecord c u (trimName n) now 0 now.
Definition pruned (max_env : option str) (c u n : str) (now : Z) (m : Records) : Records :=
  pruneLocked iterate (configuredMaxEntries max_env) (<[c := new_record c u n now]> m).

Lemma pruned_room max_env c u n now m : m !! c = None -> (Z.of_nat (size m) < configuredMaxEntries max_env)%Z ->
  pruned max_env c u n now m = <[c := new_record c u n now]> m.
Proof.
  intros Hc Hs. unfold pruned. destruct (prune_cases (configuredMaxEntries max_env) (<[c := new_record c u n now]> m)) as [E|(_ & Hlt & _)]; [done|].
  rewrite map_size_insert_None in Hlt by done. lia.
Qed.

(** C34: what a creation or an update that fails leaves behind, and why it
    failed.  A creation: a refused address changes nothing; without a free
    code, and without an error of the disk, the links are as they were read;
    otherwise the links are exactly those that pruning for the new link left,
    without the new one, all of them if there was room for one more; the error
    is that of the disk exactly when the new link survived the pruning, and
    then the write failed.  An update never changes a link and reports, in
    this order, an invalid code, a refused address, an unknown code and an
    unwritable file.  The file is only touched by a write that failed. *)
Theorem failed_changes max_env draws io u n now c has st :
  (forall error st', createShortLink max_env draws io u n now st = (LinkError error, st') ->
     match extractSubQuery u, makeCodeLocked draws (records (loadLocked io st)) with
     | None, _ => error = "invalid-url"%str /\ st' = st
     | Some _, [] => error = "code-exhausted"%str /\ st' = loadLocked io st
     | Some _, code =>
         let left_over := pruned max_env code u n now (records (loadLocked io st)) in
         records st' = delete code left_over /\
         ((Z.of_nat (size (records (loadLocked io st))) < configuredMaxEntries max_env)%Z ->
            records st' = records (loadLocked io st)) /\
         match left_over !! code, write io with
         | None, _ => error = "code-exhausted"%str /\ disk st' = disk st
         | Some _, Unwritten contents => error = "storage-unavailable"%str /\ disk st' = contents
         | Some _, Written => False
         end
     end) /\
  (forall error st', updateShortLink io c u n has now st = (LinkError error, st') ->
     records (loadLocked io st') = records (loadLocked io st) /\
     if negb (validCode c) then error = "not-found"%str /\ st' = st
     else if bool_decide (extractSubQuery u = None) then error = "invalid-url"%str /\ st' = st
     else if bool_decide (records (loadLocked io st) !! c = None) then error = "not-found"%str /\ disk st' = disk st
     else error = "storage-unavailable"%str /\ exists contents, write io = Unwritten contents /\ disk st' = contents).
Proof.
  destruct (load_loaded io st) as [Hload Hdisk]. split; intros error st'.
  - unfold ShortLinks.createShortLink. destruct (extractSubQuery u) as [q|]; [|by intros [= <- <-]].
    destruct (list_find _ _) as [[? []]|]; [done|].
    destruct (makeCodeLocked draws _) as [|x k] eqn:Hk; [by intros [= <- <-]|].
    destruct (makeCode_fresh _ _ _ _ _ Hk) as [_ Hfresh]; [done|]. cbv zeta. set (code := x :: k) in *.
    pose proof (pruned_room max_env code u n now _ Hfresh) as Hroom. unfold pruned, new_record in *.
    set (m2 := pruneLocked _ _ _) in *. cbn [set_records records].
    assert (Hall : (Z.of_nat (size (records (loadLocked io st))) < configuredMaxEntries max_env)%Z ->
      delete code m2 = records (loadLocked io st)) by (intros Hs%Hroom; rewrite Hs; by apply delete_insert_id).
    destruct (m2 !! code) eqn:Hm.
    + unfold saveLocked. destruct (write io); [done|]. by intros [= <- <-].
    + intros [= <- <-]. cbn [records set_records disk]. rewrite <- (delete_id m2 code Hm) at 1. split_and!; try done.
      by rewrite (delete_id m2 code Hm) in Hall.
  - unfold ShortLinks.updateShortLink. destruct (validCode c); cbn [negb]; [|by intros [= <- <-]].
    destruct (extractSubQuery u) as [q|]; [|by intros [= <- <-]]. rewrite (bool_decide_false (Some q = None)) by done.
    destruct (records (loadLocked io st) !! c) as [r|] eqn:Hr; [|intros [= <- <-]; by rewrite load_idem].
    rewrite (bool_decide_false (Some r = None)) by done. unfold saveLocked. destruct (write io) as [|contents]; [done|].
    intros [= <- <-]. cbn [records set_records disk]. rewrite insert_insert_eq, insert_id by done. rewrite load_id by done.
    split; [done|]. split; [done|]. by exists contents.
Qed.

End Storage_facts.

(** ** An instance of [JsonText] *)

(** Documents as trees, trees as numbers, numbers as binary digits. *)
Notation json_tree := (gen_tree (str + (Z + bool))).
Fixpoint tree_of (j : Json) : json_tree :=
  match j with
  | JString s => GenLeaf (inl s)
  | JInteger n => GenLeaf (inr (inl n))
  | JBool b => GenLeaf (inr (inr b))
  | JArray l => GenNode 0 (map tree_of l)
  | JObject l => GenNode 1 (map (fun m => GenNode 2 [GenLeaf (inl m.1); tree_of m.2]) l)
  | JOther => GenNode 3 []
  end.
Fixpoint json_of (t : json_tree) : Json :=
  match t with
  | GenLeaf (inl s) => JString s
  | GenLeaf (inr (inl n)) => JInteger n
  | GenLeaf (inr (inr b)) => JBool b
  | GenNode 0 l => JArray (map json_of l)
  | GenNode 1 l =>
      JObject (map (fun t => match t with GenNode _ [GenLeaf (inl k); v] => (k, json_of v) | _ => ([], JOther) end) l)
  | _ => JOther
  end.

Lemma json_of_tree : forall j, json_of (tree_of j) = j.
Proof.
  fix IH 1. intros [s|n|b|l|l|]; simpl; try done; f_equal.
  - induction l as [|x l IHl]; simpl; [done|]. by rewrite IH, IHl.
  - induction l as [|[k x] l IHl]; simpl; [done|]. by rewrite IH, IHl.
Qed.

Fixpoint positive_text (p : positive) : str :=
  match p with xH => "." | xO p => "0" ++ positive_text p | xI p => "1" ++ positive_text p end.
Fixpoint text_positive (s : str) : positive :=
  match s with
  | c :: s => if is_char "0" c then xO (text_positive s) else if is_char "1" c then xI (text_positive s) else xH
  | [] => xH
  end.

Lemma text_positive_text p : text_positive (positive_text p) = p.
Proof. induction p as [p IH|p IH|]; [by rewrite <- IH at 2|by rewrite <- IH at 2|done]. Qed.

Lemma positive_text_clean p : "000"%char ∉ positive_text p.
Proof. induction p; simpl; rewrite ?not_elem_of_cons; split_and?; try done; apply not_elem_of_nil. Qed.

#[export] Instance TreeText : JsonText :=
  { json_write j := positive_text (encode (tree_of j));
    json_read s := json_of <$> decode (text_positive s) }.

#[export] Instance TreeLaws : JsonLaws TreeText.
Proof.
  split; intros j; simpl; rewrite c_str_id by apply positive_text_clean.
  - intros _. rewrite text_positive_text, decode_encode. simpl. by rewrite json_of_tree.
  - by destruct (encode _).
Qed.

(** ** Examples *)

Definition example_url : str := "https://host/sub?target=clash&url=x".
Definition example_draws (attempt index : nat) : fin 57 := 0%fin.
Definition example_file : Storage := initial [].

Example example_code : makeCodeLocked example_draws ∅ = "aaaaaaaa"%str.
Proof. reflexivity. Qed.
Example example_target : shortLinkSubTarget example_url = Some "/sub?target=clash&url=x"%str.
Proof. reflexivity. Qed.
Example example_limits : configuredMaxEntries <$> [None; Some "7"%str; Some "7x"%str; Some "0"%str; Some "-1"%str] = [500; 7; 500; 500; UINT64_MAX].
Proof. reflexivity. Qed.

Definition example_record : ShortLinkRecord := mkRecord "aaaaaaaa" example_url "home" 5 0 5.
Definition example_stored : Storage :=
  mkStorage {[ "aaaaaaaa"%str := example_record ]} true
    (c_str (json_write (JObject [record_json ("aaaaaaaa"%str, example_record)]))).

Definition written : Io := mkIo true Written.

Lemma example_created :
  createShortLink map_to_list true None example_draws written example_url "home" 5 example_file =
  (LinkOk "aaaaaaaa" "/s?id=aaaaaaaa", example_stored).
Proof. vm_compute. reflexivity. Qed.

Lemma example_reachable_links : rtc (step map_to_list true) (initial []) example_stored.
Proof.
  set (r := mkRequest [] [] (json_write (JObject [("url"%str, JString example_url); ("name"%str, JString "home")]))).
  apply rtc_once.
  replace example_stored with (createShortLinkEndpoint map_to_list true None example_draws written 5 r (initial [])).2
    by (vm_compute; reflexivity).
  by apply step_create.
Qed.

Lemma storage_wellformed_witness :
  exists r', file_records (disk example_stored) !! "aaaaaaaa"%str = Some r' /\ same_link example_record r'.
Proof.
  eapply (proj2 (storage_wellformed map_to_list true (fun m => Permutation_refl _) [] example_stored example_reachable_links));
    reflexivity.
Defined.

Lemma link_survives_restart_witness :
  exists r, (resolveShortLink map_to_list true written "aaaaaaaa" 9 (mkStorage ∅ false (disk example_stored))).1 = Some r /\
            url r = example_url.
Proof.
  destruct (link_survives_restart map_to_list true (fun m => Permutation_refl _) [] example_file None example_draws written
    example_url "home" 5 "aaaaaaaa" "/s?id=aaaaaaaa" example_stored) as (_ & _ & H & _).
  - apply rtc_refl.
  - exact I.
  - by apply (bool_decide_unpack _).
  - by apply (bool_decide_unpack _).
  - done.
  - apply example_created.
  - by apply (H written 9).
Defined.

(** A first read that fails leaves an empty memory, and the next change
    replaces the file: the links that it had are gone. *)
Lemma failed_read_loses_links :
  let '(_, st) := createShortLink map_to_list true None (fun _ _ => 1%fin) (mkIo false Written)
    "/sub?target=clash&url=y" "new" 9 (mkStorage ∅ false (disk example_stored)) in
  file_records (disk example_stored) !! "aaaaaaaa"%str <> None /\ file_records (disk st) !! "aaaaaaaa"%str = None.
Proof. vm_compute. by split. Qed.

Lemma prune_keeps_recent_witness :
  size (pruneLocked map_to_list 1 {[ "a"%str := mkRecord "a" example_url [] 1 0 1;
                                     "b"%str := mkRecord "b" example_url [] 0 7 1 ]}) = 1%nat.
Proof.
  apply (prune_keeps_recent map_to_list (fun m => Permutation_refl _) 1); reflexivity.
Defined.

Definition full_disk : Io := mkIo true (Unwritten []).

Lemma failed_changes_witness :
  records (createShortLink map_to_list true None example_draws full_disk example_url "home" 5 example_file).2 = ∅ /\
  records (loadLocked true full_disk (updateShortLink map_to_list true full_disk "aaaaaaaa" "/sub?target=a&url=b" [] false 7
    example_stored).2) = records (loadLocked true full_disk example_stored).
Proof.
  split.
  - pose proof (proj1 (failed_changes map_to_list true None example_draws full_disk
      example_url "home" 5 [] false example_file) "storage-unavailable"%str
      (createShortLink map_to_list true None example_draws full_disk example_url "home" 5 example_file).2) as H.
    assert (H' := H ltac:(vm_compute; reflexivity)). clear H. cbv zeta in H'.
    assert (E : extractSubQuery example_url = Some "target=clash&url=x"%str) by (vm_compute; reflexivity). rewrite E in H'.
    assert (Ec : makeCodeLocked example_draws (records (loadLocked true full_disk example_file)) = "aaaaaaaa"%str)
      by (vm_compute; reflexivity).
    rewrite Ec in H'. destruct H' as (_ & H & _).
    assert (Er : records (loadLocked true full_disk example_file) = ∅) by (vm_compute; reflexivity). rewrite Er in H.
    apply H. vm_compute. reflexivity.
  - pose proof (proj2 (failed_changes map_to_list true None example_draws full_disk
      "/sub?target=a&url=b" [] 7 "aaaaaaaa" false example_stored) "storage-unavailable"%str
      (updateShortLink map_to_list true full_disk "aaaaaaaa" "/sub?target=a&url=b" [] false 7 example_stored).2) as H.
    destruct (H ltac:(vm_compute; reflexivity)) as [H' _]. exact H'.
Defined.
