(* ===== verification/Ruleset.v ===== *)
(** * config/ruleset.cpp, ruleset.h and ruleset_comment.h

    The lines that configure rulesets ("group,url,interval|options"), the
    reference to a ruleset in a Clash configuration, the option no-resolve of
    an address rule, and the removal of comments from the lines of a
    ruleset. *)

From S2P Require Import Prelude Str StringUtil.
Open Scope nat_scope.

(** ** Data *)

(** src/src/config/ruleset.h:6-13 [ruleset_type] *)
Inductive ruleset_type :=
  | RULESET_SURGE | RULESET_QUANX | RULESET_CLASH_DOMAIN | RULESET_CLASH_IPCIDR | RULESET_CLASH_CLASSICAL.

#[export] Instance ruleset_type_eq_dec : EqDecision ruleset_type.
Proof. solve_decision. Defined.

(** src/src/config/ruleset.h:15-24 [RulesetOptions] *)
Record RulesetOptions := mkOptions { no_resolve : bool; stash_format : str }.
Definition default_options : RulesetOptions := mkOptions false [].

(** src/src/config/ruleset.h:26-31 [ParsedRulesetInterval] *)
Record ParsedRulesetInterval := mkInterval { interval : Z; options : RulesetOptions; unknown_options : list str }.

(** src/src/config/ruleset.h:33-44 [RulesetConfig] *)
Record RulesetConfig := mkConfig { Group : str; Url : str; Interval : Z; Options : RulesetOptions }.

(** ** Texts *)

Definition rstrip (s : str) : str := rev (skip_spaces (rev s)).

(** src/src/config/ruleset.cpp:11-22 [trimAscii] *)
Definition trimAscii (value : str) : str := rstrip (skip_spaces value).

(** src/src/config/ruleset.cpp:24-31 [lowerAscii] *)
Definition lowerAscii (value : str) : str := tolower <$> value.

(** src/src/config/ruleset.cpp:33-40 [upperAscii] *)
Definition upperAscii (value : str) : str := toupper <$> value.

(** src/src/config/ruleset.cpp:42-57 [splitOptions]
    Every turn but the last moves past a separator. *)
Fixpoint pieces_loop (fuel : nat) (sep : ascii) (value : str) (begin : nat) : list str :=
  match fuel with
  | O => []
  | S fuel =>
      if begin <=? length value then
        match find_char sep value begin with
        | None => [substr value begin (length value - begin)]
        | Some end_ => substr value begin (end_ - begin) :: pieces_loop fuel sep value (end_ + 1)
        end
      else []
  end.
Definition splitOptions (value : str) : list str := pieces_loop (S (S (length value))) "|" value 0.

(** src/src/config/ruleset.cpp:59-75 [hasNoResolveOption] *)
Definition hasNoResolveOption (rule : str) : bool :=
  existsb (fun token => bool_decide (lowerAscii (trimAscii token) = "no-resolve"%str))
    (pieces_loop (S (S (length rule))) "," rule 0).

(** ** Configuration lines *)

(** src/src/config/ruleset.cpp:83-110 [parseRulesetOptions, one option] *)
Definition parse_option (state : RulesetOptions * list str) (raw_option : str) : RulesetOptions * list str :=
  let '(result, unknown) := state in
  let option := lowerAscii (trimAscii raw_option) in
  if bool_decide (option = []) then state
  else if bool_decide (option = "no-resolve"%str) then (mkOptions true (stash_format result), unknown)
  else
    let add := (result, if bool_decide (option ∈ unknown) then unknown else unknown ++ [option]) in
    if starts_with "stash-format=" option then
      let format := drop 13 option in
      if bool_decide (format ∈ ["yaml"%str; "text"%str; "mrs"%str]) then
        (mkOptions (no_resolve result)
           (if bool_decide (stash_format result = []) || bool_decide (stash_format result = format)
            then format else "invalid"%str), unknown)
      else add
    else add.

(** src/src/config/ruleset.cpp:79-112 [parseRulesetOptions]
    The second component is the list of unknown options, which a caller that
    passes no list drops. *)
Definition parseRulesetOptions (raw_options : list str) (unknown : list str) : RulesetOptions * list str :=
  foldl parse_option (default_options, unknown) raw_options.

(** src/src/config/ruleset.cpp:114-130 [parseRulesetInterval] *)
Definition parseRulesetInterval (raw_interval : str) : ParsedRulesetInterval :=
  match splitOptions raw_interval with
  | [] => mkInterval 0 default_options []
  | front :: raw_options =>
      match raw_options with
      | [] => mkInterval (atoi front) default_options []
      | _ => let '(o, unknown) := parseRulesetOptions raw_options [] in mkInterval (atoi front) o unknown
      end
  end.

(** src/src/config/ruleset.cpp:132-166 [parseRulesetConfigLine]
    [None] when the line is refused; the unknown options come second. *)
Definition parseRulesetConfigLine (line : str) : option (RulesetConfig * list str) :=
  match find_char "," line 0 with
  | None => None
  | Some first_separator =>
      let Group := substr line 0 first_separator in
      if bool_decide (substr line (first_separator + 1) 2 = "[]"%str)
      then Some (mkConfig Group (drop (first_separator + 1) line) 86400 default_options, [])
      else
        match last_index_if (is_char ",") line with
        | Some last_separator =>
            if first_separator =? last_separator
            then Some (mkConfig Group (drop (first_separator + 1) line) 86400 default_options, [])
            else
              let i := parseRulesetInterval (drop (last_separator + 1) line) in
              Some (mkConfig Group (substr line (first_separator + 1) (last_separator - first_separator - 1))
                      (interval i) (options i), unknown_options i)
        | None => None   (* there is a separator *)
        end
  end.

(** ** References *)

(** src/src/config/ruleset.cpp:168-177 [buildClashRuleSetReference] *)
Definition buildClashRuleSetReference (provider_name group : str) (type : ruleset_type) (o : RulesetOptions) : str :=
  "RULE-SET," ++ provider_name ++ "," ++ group ++
  (if bool_decide (type = RULESET_CLASH_IPCIDR) && no_resolve o then ",no-resolve" else []).

(** src/src/config/ruleset.cpp:179-194 [appendClashIpCidrNoResolve] *)
Definition appendClashIpCidrNoResolve (rule : str) (type : ruleset_type) (o : RulesetOptions) : str :=
  if negb (bool_decide (type = RULESET_CLASH_IPCIDR)) || negb (no_resolve o) then rule
  else
    let rule_type := upperAscii (trimAscii (match find_char "," rule 0 with
                                            | Some separator => substr rule 0 separator
                                            | None => rule end)) in
    if negb (bool_decide (rule_type = "IP-CIDR"%str)) && negb (bool_decide (rule_type = "IP-CIDR6"%str)) then rule
    else if hasNoResolveOption rule then rule
    else rule ++ ",no-resolve".

(** ** Comments *)

(** src/src/config/ruleset_comment.h:9-12 [isSpace] *)
Definition isSpace (c : ascii) : bool := is_char " " c || between 9 13 c.

(** src/src/config/ruleset_comment.h:41-48 [stripAt, rule types with an inline comment] *)
Definition structured_types : list str :=
  ["DOMAIN"; "DOMAIN-SUFFIX"; "DOMAIN-KEYWORD"; "IP-CIDR"; "IP-CIDR6";
   "IP6-CIDR"; "SRC-IP-CIDR"; "SRC-IP"; "IP-SUFFIX"; "SRC-IP-SUFFIX";
   "GEOIP"; "SRC-GEOIP"; "GEOSITE"; "IP-ASN"; "SRC-IP-ASN";
   "SRC-PORT"; "DST-PORT"; "DEST-PORT"; "IN-PORT"; "PORT"; "PORT-RANGE";
   "SRC-PORT-RANGE"; "IP-VERSION"; "NETWORK"; "PROTOCOL"; "DSCP"; "UID";
   "USER-ID"; "MATCH"; "FINAL"; "HOST"; "HOST-SUFFIX"; "HOST-KEYWORD"]%str.

(** The byte before a position. *)
Definition space_before (line : str) (i : nat) : bool :=
  match line !! (i - 1) with Some c => isSpace c | None => false end.

(** src/src/config/ruleset_comment.h:24-26 [stripAt, search for a comment]
    The next // is looked for behind the one that was found. *)
Fixpoint comment_start (fuel : nat) (line : str) (slash : option nat) : option nat :=
  match fuel, slash with
  | S fuel, Some i => if space_before line i then Some i else comment_start fuel line (find "//" line (i + 2))
  | _, _ => None
  end.

Fixpoint drop_spaces (s : str) : str :=
  match s with c :: t => if isSpace c then drop_spaces t else s | [] => [] end.
(** [while(end > 0 && isSpace(line[end - 1])) --end] and the text before [end]. *)
Definition text_before (line : str) (end_ : nat) : str := rev (drop_spaces (rev (take end_ line))).

(** [line.find(c, first) >= slash], where [npos] is the largest number. *)
Definition not_before (c : ascii) (line : str) (first slash : nat) : bool :=
  match find_char c line first with Some i => slash <=? i | None => true end.

(** src/src/config/ruleset_comment.h:71-95 [stripAt, search outside quotes]
    The loop runs over [rest], the part of [line] from [i] on. *)
Fixpoint strip_scan (line rest : str) (first i : nat) (quote : option ascii) (escaped : bool) : str :=
  match rest with
  | c :: ((next :: _) as rest') =>
      if escaped then strip_scan line rest' first (S i) quote false
      else if is_char "\" c then strip_scan line rest' first (S i) quote true
      else match quote with
      | Some q => strip_scan line rest' first (S i) (if bool_decide (c = q) then None else quote) false
      | None =>
          if is_char "'" c || is_char "034" c then strip_scan line rest' first (S i) (Some c) false
          else if is_char "/" c && is_char "/" next && (first <? i) && space_before line i then text_before line i
          else strip_scan line rest' first (S i) None false
      end
  | _ => line
  end.

(** src/src/config/ruleset_comment.h:14-96 [stripAt] *)
Definition stripAt (line : str) (slash : nat) (raw_value : bool) : str :=
  let first := length line - length (drop_spaces line) in
  if first =? slash then []
  else match comment_start (S (length line)) line (Some slash) with
  | None => line
  | Some slash =>
      let end_ := match find_char "," line first with Some e => if slash <? e then slash else e | None => slash end in
      let type := text_before (drop first line) (end_ - first) in
      if negb raw_value && negb (bool_decide (type ∈ structured_types)) then line
      else if not_before "034" line first slash && not_before "'" line first slash && not_before "\" line first slash
      then text_before line slash
      else strip_scan line (drop first line) first first None false
  end.

(** src/src/config/ruleset_comment.h:100-105 [stripRulesetComment] *)
Definition stripRulesetComment (line : str) (raw_value : bool) : str :=
  match find "//" line 0 with Some slash => stripAt line slash raw_value | None => line end.

(** ** Lemmas: pieces *)

Lemma pieces_loop_fields fuel sep s b :
  b <= length s -> length s - b < fuel -> pieces_loop fuel sep s b = fields sep (drop b s).
Proof.
  revert b. induction fuel as [|fuel IH]; intros b Hb Hf; [lia|]. cbn [pieces_loop].
  rewrite (proj2 (Nat.leb_le _ _)) by done. rewrite find_char_drop.
  destruct (find_char sep (drop b s) 0) as [i|] eqn:Hi; simpl.
  - apply find_char_Some in Hi as (Hlt & Heq & Hno). rewrite length_drop in Hlt.
    rewrite IH by lia. rewrite Heq, fields_cons by done. unfold substr.
    replace (b + i - b) with i by lia. rewrite drop_drop. do 3 f_equal. lia.
  - apply find_char_None in Hi. rewrite fields_one by done. unfold substr.
    rewrite take_ge; [done|]. rewrite length_drop. lia.
Qed.

Lemma splitOptions_fields s : splitOptions s = fields "|" s.
Proof. unfold splitOptions. rewrite pieces_loop_fields by lia. by rewrite drop_0. Qed.

Lemma hasNoResolve_fields s :
  hasNoResolveOption s = existsb (fun t => bool_decide (lowerAscii (trimAscii t) = "no-resolve"%str)) (fields "," s).
Proof. unfold hasNoResolveOption. rewrite pieces_loop_fields by lia. by rewrite drop_0. Qed.

(** Appending the option no-resolve to an address rule: applied to a rule
    of an address ruleset that asks for it, the result carries the option; a
    rule is otherwise unchanged; doing it twice is doing it once. *)
Theorem no_resolve_idempotent rule type o :
  let r := appendClashIpCidrNoResolve rule type o in
  (r = rule \/ r = rule ++ ",no-resolve" /\ hasNoResolveOption rule = false) /\
  appendClashIpCidrNoResolve r type o = r /\
  (type = RULESET_CLASH_IPCIDR -> no_resolve o = true ->
   upperAscii (trimAscii (hd [] (fields "," rule))) ∈ ["IP-CIDR"%str; "IP-CIDR6"%str] -> hasNoResolveOption r = true).
Proof.
  assert (Hhd : forall s, match find_char "," s 0 with Some p => substr s 0 p | None => s end = hd [] (fields "," s)).
  { intros s. destruct (find_char "," s 0) as [i|] eqn:Hi.
    - apply find_char_Some in Hi as (_ & Heq & Hno). rewrite Heq at 2. by rewrite fields_cons.
    - apply find_char_None in Hi. by rewrite fields_one. }
  assert (Hc : ","%char ∉ "no-resolve"%str) by (by apply (bool_decide_unpack _); vm_compute).
  assert (Hadd : hasNoResolveOption (rule ++ ",no-resolve") = true).
  { rewrite hasNoResolve_fields. change ",no-resolve"%str with (","%char :: "no-resolve"%str).
    rewrite fields_snoc, existsb_app, orb_true_iff; [by right|done]. }
  assert (Hsame : hd [] (fields "," (rule ++ ",no-resolve")) = hd [] (fields "," rule)).
  { change ",no-resolve"%str with (","%char :: "no-resolve"%str). rewrite fields_snoc by done.
    destruct rule as [|c rule]; [done|]. simpl. destruct (is_char "," c); [done|].
    pose proof (fields_nonempty "," rule). by destruct (fields "," rule). }
  assert (Hun : forall s, appendClashIpCidrNoResolve s type o =
    if negb (bool_decide (type = RULESET_CLASH_IPCIDR)) || negb (no_resolve o) ||
       negb (bool_decide (upperAscii (trimAscii (hd [] (fields "," s))) ∈ ["IP-CIDR"%str; "IP-CIDR6"%str])) ||
       hasNoResolveOption s then s else s ++ ",no-resolve").
  { intros s. unfold appendClashIpCidrNoResolve. cbv zeta. rewrite Hhd. destruct (_ || _); [done|]. cbn [orb].
    set (t := upperAscii _).
    assert (bool_decide (t ∈ ["IP-CIDR"%str; "IP-CIDR6"%str]) =
            bool_decide (t = "IP-CIDR"%str) || bool_decide (t = "IP-CIDR6"%str)) as ->.
    { rewrite <- bool_decide_or. apply bool_decide_ext. set_solver. }
    rewrite <- negb_orb. by destruct (_ || _). }
  cbv zeta. rewrite !Hun. clear Hun. destruct (_ || _) eqn:E.
  - rewrite E. split_and!; [by left|done|]. intros Ht Ho Hin.
    rewrite (bool_decide_true _ Ht), Ho, (bool_decide_true _ Hin) in E. by destruct (hasNoResolveOption rule).
  - rewrite Hsame, Hadd, orb_true_r. bools. by split_and!; [right|..].
Qed.

Lemma no_resolve_idempotent_witness :
  hasNoResolveOption (appendClashIpCidrNoResolve "ip-cidr,10.0.0.0/8,DIRECT" RULESET_CLASH_IPCIDR (mkOptions true [])) = true.
Proof.
  apply (no_resolve_idempotent "ip-cidr,10.0.0.0/8,DIRECT" RULESET_CLASH_IPCIDR (mkOptions true [])); [done|done|].
  apply (bool_decide_unpack _). vm_compute. exact I.
Defined.

(** ** Lemmas: comments *)

Definition spaces (s : str) : Prop := Forall (fun c => isSpace c = true) s.
Definition no_space_end (s : str) : Prop := forall a c, s = a ++ [c] -> isSpace c = false.

Lemma drop_spaces_split s : exists ws, s = ws ++ drop_spaces s /\ spaces ws.
Proof.
  induction s as [|c s IH]; simpl; [by exists []; split; [|constructor]|].
  destruct (isSpace c) eqn:Hc; [|by exists []; split; [|constructor]].
  destruct IH as (ws & Heq & Hws). exists (c :: ws). split; [by rewrite Heq at 1|by constructor].
Qed.

Lemma drop_spaces_head s c t : drop_spaces s = c :: t -> isSpace c = false.
Proof.
  induction s as [|d s IH]; simpl; [done|]. destruct (isSpace d) eqn:Hd; [done|]. by intros [= -> ->].
Qed.

Lemma drop_spaces_app ws s : spaces ws -> drop_spaces (ws ++ s) = drop_spaces s.
Proof. induction 1 as [|c ws Hc Hws IH]; [done|]. simpl. by rewrite Hc. Qed.

Lemma text_before_split line i :
  exists ws, take i line = text_before line i ++ ws /\ spaces ws /\ no_space_end (text_before line i).
Proof.
  unfold text_before. destruct (drop_spaces_split (rev (take i line))) as (ws & Heq & Hws).
  exists (rev ws). split_and!.
  - apply (f_equal (@rev ascii)) in Heq. by rewrite rev_involutive, rev_app_distr in Heq.
  - apply Forall_rev. done.
  - intros a c Ha. apply (f_equal (@rev ascii)) in Ha. rewrite rev_involutive, rev_app_distr in Ha.
    simpl in Ha. by eapply drop_spaces_head.
Qed.

Lemma text_before_app r ws s :
  no_space_end r -> spaces ws -> text_before (r ++ ws ++ s) (length (r ++ ws)) = r.
Proof.
  intros Hr Hws. unfold text_before. rewrite app_assoc, take_app_length, rev_app_distr.
  rewrite drop_spaces_app by by apply List.Forall_rev. destruct (rev r) as [|c t] eqn:E.
  - simpl. apply (f_equal (@rev ascii)) in E. by rewrite rev_involutive in E.
  - apply (f_equal (@rev ascii)) in E. rewrite rev_involutive in E. simpl in E |- *. by rewrite (Hr _ _ E).
Qed.

Lemma first_split line :
  drop (length line - length (drop_spaces line)) line = drop_spaces line /\
  spaces (take (length line - length (drop_spaces line)) line).
Proof.
  destruct (drop_spaces_split line) as (ws & Heq & Hws). set (d := drop_spaces line) in *. clearbody d.
  rewrite Heq, length_app. replace (length ws + length d - length d) with (length ws) by lia.
  by rewrite drop_app_length, take_app_length.
Qed.

(** A comment starts at [i]. *)
Definition comment_at (line : str) (i : nat) : Prop :=
  starts_with "//" (drop i line) = true /\ space_before line i = true /\ 0 < i.

Lemma text_before_comment line i :
  comment_at line i ->
  exists ws tail, line = text_before line i ++ ws ++ "//" ++ tail /\ ws <> [] /\ spaces ws /\ no_space_end (text_before line i).
Proof.
  intros (Hs & Hb & Hi). destruct (text_before_split line i) as (ws & Ht & Hws & Hend).
  apply starts_with_spec in Hs as (tail & Hd). exists ws, tail. split_and!; [| |done..].
  - rewrite <- (take_drop i line) at 1. by rewrite Ht, Hd, <- app_assoc.
  - intros ->. rewrite app_nil_r in Ht. unfold space_before in Hb. destruct (line !! (i - 1)) as [c|] eqn:Hc; [|done].
    assert (take i line = take (i - 1) line ++ [c]) as Heq.
    { replace i with (S (i - 1)) at 1 by lia. by apply take_S_r. }
    rewrite (Hend _ _ (eq_trans (eq_sym Ht) Heq)) in Hb. done.
Qed.

Lemma comment_start_spec fuel line s :
  length line < fuel + s -> 0 < s -> starts_with "//" (drop s line) = true ->
  (forall k, k < s -> ~ comment_at line k) ->
  match comment_start fuel line (Some s) with
  | Some i => comment_at line i /\ forall k, k < i -> ~ comment_at line k
  | None => forall k, ~ comment_at line k
  end.
Proof.
  revert s. induction fuel as [|fuel IH]; intros s Hf Hs Hd Hno.
  { exfalso. rewrite drop_ge in Hd by lia. done. }
  cbn [comment_start]. destruct (space_before line s) eqn:Hb; [done|].
  assert (Hno2 : forall k, k < s + 2 -> ~ comment_at line k).
  { intros k Hk (H1 & H2 & H3). destruct (decide (k < s)); [by eapply Hno|]. destruct (decide (k = s)) as [->|]; [congruence|].
    assert (k = s + 1) as -> by lia. unfold space_before in H2. replace (s + 1 - 1) with s in H2 by lia.
    apply starts_with_spec in Hd as (t & Ht). rewrite <- (Nat.add_0_r s), <- lookup_drop, Ht in H2. done. }
  destruct (find "//" line (s + 2)) as [j|] eqn:Hj.
  - apply find_Some in Hj as (Hr & Hj & Hmin). apply IH; [lia|lia|done|].
    intros k Hk (H1 & H2 & H3). destruct (decide (k < s + 2)); [by eapply Hno2|].
    rewrite Hmin in H1; [done|lia].
  - replace (comment_start fuel line None) with (@None nat) by by destruct fuel.
    intros k Hc. destruct (decide (k < s + 2)); [by eapply Hno2|]. destruct Hc as (H1 & _).
    destruct (decide (k <= length line)); [by rewrite (find_None _ _ _ Hj) in H1 by lia|].
    by rewrite drop_ge in H1 by lia.
Qed.

Lemma strip_scan_cons line c next rest first i quote escaped :
  strip_scan line (c :: next :: rest) first i quote escaped =
  let continue := strip_scan line (next :: rest) first (S i) in
  if escaped then continue quote false
  else if is_char "\" c then continue quote true
  else match quote with
  | Some q => continue (if bool_decide (c = q) then None else quote) false
  | None =>
      if is_char "'" c || is_char "034" c then continue (Some c) false
      else if is_char "/" c && is_char "/" next && (first <? i) && space_before line i then text_before line i
      else continue None false
  end.
Proof. reflexivity. Qed.

Lemma strip_scan_shape line rest first i q e :
  rest = drop i line ->
  strip_scan line rest first i q e = line \/
  exists k, comment_at line k /\ strip_scan line rest first i q e = text_before line k.
Proof.
  revert i q e. induction rest as [|c rest IH]; intros i q e Hr; [by left|].
  assert (Hnext : rest = drop (S i) line).
  { change rest with (drop 1 (c :: rest)). rewrite Hr, drop_drop. f_equal. lia. }
  destruct rest as [|next rest']; [by left|]. rewrite strip_scan_cons. cbv zeta.
  destruct e; [by apply IH|]. destruct (is_char "\" c); [by apply IH|]. destruct q; [by apply IH|].
  destruct (is_char "'" c || is_char "034" c); [by apply IH|]. destruct (_ && _) eqn:E; [|by apply IH].
  right. exists i. split; [|done]. rewrite !andb_true_iff, Nat.ltb_lt in E. unfold is_char in E.
  rewrite !bool_decide_eq_true in E. destruct E as [[[-> ->] Hlt] Hb]. split_and!; [by rewrite <- Hr|done|lia].
Qed.

(** The texts that have no comment behind white space and no quoting. *)
Definition plain (s : str) : Prop :=
  (forall i, ~ comment_at s i) /\ "034"%char ∉ s /\ "'"%char ∉ s /\ "\"%char ∉ s.

(** A text without the white space at its end, and the rule type of a line. *)
Definition rtrim (s : str) : str := rev (drop_spaces (rev s)).
Definition line_type (s : str) : str := rtrim (hd [] (fields "," (drop_spaces s))).

Lemma starts_two s : starts_with "//" s = true <-> s !! 0 = Some "/"%char /\ s !! 1 = Some "/"%char.
Proof.
  destruct s as [|a [|b s]]; simpl; rewrite ?andb_true_iff, ?bool_decide_eq_true; [naive_solver..|].
  split; [intros (<- & <- & _); done|]. by intros [[= ->] [= ->]].
Qed.

Lemma comment_at_lookup s i :
  comment_at s i <-> s !! i = Some "/"%char /\ s !! (S i) = Some "/"%char /\ space_before s i = true /\ 0 < i.
Proof. unfold comment_at. rewrite starts_two, !lookup_drop, Nat.add_0_r, Nat.add_1_r. tauto. Qed.

Lemma spaces_lookup ws j c : spaces ws -> ws !! j = Some c -> isSpace c = true.
Proof. intros Hws Hj. unfold spaces in Hws. rewrite Forall_lookup in Hws. eauto. Qed.

Lemma comment_at_app r ws t k :
  spaces ws -> ws <> [] -> (forall i, ~ comment_at r i) -> k < length (r ++ ws) -> ~ comment_at (r ++ ws ++ t) k.
Proof.
  intros Hws Hne Hr Hk (H1 & H2 & H3 & H4)%comment_at_lookup. rewrite app_assoc in *.
  rewrite lookup_app_l in H1 by done. destruct (decide (length r <= k)) as [Hle|Hlt].
  - rewrite lookup_app_r in H1 by done. by apply (spaces_lookup _ _ _ Hws) in H1.
  - rewrite lookup_app_l in H1 by lia. rewrite lookup_app_l in H2 by (rewrite length_app in *; destruct ws; simpl in *; [done|lia]).
    destruct (decide (S k = length r)) as [Heq|].
    + rewrite lookup_app_r in H2 by lia. by apply (spaces_lookup _ _ _ Hws) in H2.
    + rewrite lookup_app_l in H2 by lia. apply (Hr k), comment_at_lookup. split_and!; try done.
      unfold space_before in *. by rewrite <- app_assoc, lookup_app_l in H3 by lia.
Qed.

Lemma comment_at_own r ws t :
  spaces ws -> ws <> [] -> comment_at (r ++ ws ++ "//" ++ t) (length (r ++ ws)).
Proof.
  intros Hws Hne. split_and!.
  - rewrite app_assoc, drop_app_length. apply starts_with_app.
  - unfold space_before. destruct (exists_last Hne) as (w & c & ->). rewrite !length_app. simpl.
    rewrite lookup_app_r by lia. rewrite lookup_app_l by (rewrite length_app; simpl; lia).
    rewrite lookup_app_r by lia. replace (_ - _ - _) with 0 by lia. simpl.
    apply Forall_app in Hws as [_ H]. by inversion H.
  - rewrite length_app. destruct ws; [done|]. simpl. lia.
Qed.

Lemma rtrim_app s ws : spaces ws -> rtrim (s ++ ws) = rtrim s.
Proof. intros H. unfold rtrim. rewrite rev_app_distr, drop_spaces_app; [done|]. by apply List.Forall_rev. Qed.

Lemma not_before_absent c r ws t first :
  c ∉ r -> isSpace c = false -> spaces ws -> not_before c (r ++ ws ++ t) first (length (r ++ ws)) = true.
Proof.
  intros Hc Hsp Hws. unfold not_before. rewrite find_char_drop.
  destruct (find_char c (drop first (r ++ ws ++ t)) 0) as [i|] eqn:Hi; [|done]. simpl. apply Nat.leb_le.
  destruct (decide (length (r ++ ws) <= first + i)); [done|exfalso].
  apply find_char_Some in Hi as (Hlt & Heq & _). rewrite length_drop in Hlt.
  assert ((r ++ ws ++ t) !! (first + i) = Some c) as Hl.
  { rewrite <- lookup_drop, Heq, lookup_app_r by (rewrite length_take, length_drop; lia).
    rewrite length_take, length_drop. by replace (_ - _) with 0 by lia. }
  rewrite app_assoc, lookup_app_l in Hl by lia. apply list_elem_of_lookup_2, elem_of_app in Hl as [?|Hl]; [done|].
  unfold spaces in Hws. rewrite Forall_forall in Hws. apply Hws in Hl. congruence.
Qed.

Lemma text_before_rtrim s i : text_before s i = rtrim (take i s).
Proof. done. Qed.

(** The end of the rule type that [stripAt] finds in front of a comment. *)
Lemma type_end D ws t :
  spaces ws ->
  rtrim (take (match find_char "," (D ++ ws ++ t) 0 with
               | Some e => if length (D ++ ws) <? e then length (D ++ ws) else e
               | None => length (D ++ ws) end) (D ++ ws ++ t)) = rtrim (hd [] (fields "," D)).
Proof.
  intros Hws. destruct (decide (","%char ∈ D)) as [Hin|Hno].
  - assert (exists x y, D = x ++ ","%char :: y /\ ","%char ∉ x) as (x & y & -> & Hx).
    { destruct (find_char "," D 0) as [j|] eqn:Hj; [|by apply find_char_None in Hj].
      apply find_char_Some in Hj as (_ & Heq & Hno). eauto. }
    rewrite <- app_assoc, <- app_comm_cons, find_char_app, fields_cons by done.
    rewrite (proj2 (Nat.ltb_ge _ _)) by (rewrite !length_app; lia). by rewrite take_app_length.
  - rewrite fields_one by done. simpl.
    pose proof (not_before_absent "," D ws t 0 Hno eq_refl Hws) as Hb. unfold not_before in Hb.
    assert (take (length (D ++ ws)) (D ++ ws ++ t) = D ++ ws) as Ht by (by rewrite app_assoc, take_app_length).
    destruct (find_char "," _ 0) as [e|]; [|by rewrite Ht, rtrim_app]. apply Nat.leb_le in Hb.
    destruct (Nat.ltb_spec (length (D ++ ws)) e); [by rewrite Ht, rtrim_app|].
    replace e with (length (D ++ ws)) by lia. by rewrite Ht, rtrim_app.
Qed.

(** The scan for a comment finds the first one, when the line does not begin
    with it. *)
Lemma comment_start_first line slash :
  find "//" line 0 = Some slash -> length line - length (drop_spaces line) <> slash ->
  match comment_start (S (length line)) line (Some slash) with
  | Some i => comment_at line i /\ forall k, k < i -> ~ comment_at line k
  | None => forall k, ~ comment_at line k
  end.
Proof.
  intros Hf Hne. apply find_Some in Hf as (Hr & Hs & Hmin).
  apply comment_start_spec; [lia| |done|].
  - destruct slash; [|lia]. exfalso. apply Hne. rewrite drop_0 in Hs. apply starts_with_spec in Hs as [t ->]. simpl. lia.
  - intros k Hk (H1 & _). rewrite Hmin in H1; [done|lia].
Qed.

Lemma strip_shape line raw :
  let r := stripRulesetComment line raw in
  r = line \/
  (r = [] /\ exists ws tail, line = ws ++ "//" ++ tail /\ spaces ws) \/
  (exists ws tail, line = r ++ ws ++ "//" ++ tail /\ ws <> [] /\ spaces ws /\ no_space_end r).
Proof.
  cbv zeta. unfold stripRulesetComment. destruct (find "//" line 0) as [slash|] eqn:Hf; [|by left].
  unfold stripAt. cbv zeta.
  destruct (Nat.eqb_spec (length line - length (drop_spaces line)) slash) as [Heq|Hne].
  + right. left. split; [done|]. apply find_Some in Hf as (_ & Hs & _). apply starts_with_spec in Hs as [tail Ht].
    exists (take slash line), tail. rewrite <- Ht, take_drop. split; [done|]. subst slash. apply first_split.
  + pose proof (comment_start_first _ _ Hf Hne) as Hstart. destruct (comment_start _ _ _) as [i|]; [|by left]. destruct Hstart as [Hi _].
    destruct (_ && _); [by left|]. destruct (_ && _); [right; right; by apply text_before_comment|].
    destruct (strip_scan_shape line (drop (length line - length (drop_spaces line)) line)
      (length line - length (drop_spaces line)) (length line - length (drop_spaces line)) None false eq_refl)
      as [->|(k & Hk & ->)]; [by left|right; right; by apply text_before_comment].
Qed.

(** Removing the comment of a line: what is left is the line, nothing (the
    line is a comment), or the text in front of white space and //, without
    that white space.  In a line without quotes whose value is raw, or whose
    rule type has structured values, the first // behind white space starts
    the comment. *)
Theorem stripRulesetComment_spec line raw :
  (let r := stripRulesetComment line raw in
   r = line \/
   (r = [] /\ exists ws tail, line = ws ++ "//" ++ tail /\ spaces ws) \/
   (exists ws tail, line = r ++ ws ++ "//" ++ tail /\ ws <> [] /\ spaces ws /\ no_space_end r)) /\
  (forall r ws tail, line = r ++ ws ++ "//" ++ tail -> ws <> [] -> spaces ws -> no_space_end r ->
     plain r -> drop_spaces r <> [] -> starts_with "//" (drop_spaces r) = false ->
     raw = true \/ line_type r ∈ structured_types -> stripRulesetComment line raw = r).
Proof.
  split; [apply strip_shape|].
  intros r ws tail Hline Hne Hws Hend (Hplain & Hq1 & Hq2 & Hq3) Hr Hr2 Htype.
  pose proof (comment_at_own r ws tail Hws Hne) as Hown. rewrite <- Hline in Hown.
  assert (Hno : forall k, k < length (r ++ ws) -> ~ comment_at line k).
  { intros k Hk. rewrite Hline. by apply comment_at_app. }
  assert (Hfirst : exists a, drop_spaces line = drop_spaces r ++ a /\ a = ws ++ "//" ++ tail).
  { eexists. split; [|done]. rewrite Hline. destruct (drop_spaces_split r) as (w & Heq & Hw).
    rewrite Heq at 1. rewrite <- app_assoc, drop_spaces_app by done.
    destruct (drop_spaces r) as [|c u] eqn:E; [done|]. simpl. by rewrite (drop_spaces_head _ _ _ E). }
  destruct Hfirst as (a & Hd & Ha). destruct (first_split line) as [Hdrop _].
  set (first := length line - length (drop_spaces line)) in *.
  unfold stripRulesetComment. destruct (find "//" line 0) as [slash|] eqn:Hf.
  2:{ destruct Hown as (H1 & _). by rewrite (find_None _ _ _ Hf) in H1 by (rewrite Hline, !length_app; lia). }
  unfold stripAt. cbv zeta. fold first.
  assert (Hns : first <> slash).
  { intros <-. apply find_Some in Hf as (_ & H1 & _). rewrite Hdrop, Hd in H1.
    rewrite starts_two in H1. destruct H1 as [H1 H2]. apply not_true_iff_false in Hr2. apply Hr2, starts_two.
    destruct (drop_spaces r) as [|c [|d u]]; [done| |done]. exfalso. subst a. destruct ws as [|w ws]; [done|].
    simpl in H2. simplify_eq. inversion Hws. done. }
  rewrite (proj2 (Nat.eqb_neq _ _) Hns). pose proof (comment_start_first _ _ Hf Hns) as Hstart.
  destruct (comment_start _ _ _) as [i|]; [|by destruct (Hstart _ Hown)]. destruct Hstart as [Hi Hmin].
  assert (i = length (r ++ ws)) as ->.
  { destruct (Nat.lt_trichotomy i (length (r ++ ws))) as [Hlt|[|Hlt]]; [|done|].
    - by destruct (Hno _ Hlt). - by destruct (Hmin _ Hlt). }
  assert (Hlen : first = length r - length (drop_spaces r) /\ length (drop_spaces r) <= length r).
  { unfold first. rewrite Hd. subst a. rewrite Hline, !length_app.
    destruct (drop_spaces_split r) as (w & Heq & _). apply (f_equal length) in Heq. rewrite length_app in Heq. lia. }
  assert (Hty : text_before (drop first line) (match find_char "," line first with
    | Some e => if length (r ++ ws) <? e then length (r ++ ws) else e | None => length (r ++ ws) end - first) = line_type r).
  { rewrite text_before_rtrim, Hdrop, Hd, Ha, find_char_drop, Hdrop, Hd, Ha. unfold line_type.
    rewrite <- (type_end (drop_spaces r) ws ("//" ++ tail) Hws). do 2 f_equal.
    rewrite !length_app. destruct (find_char "," _ 0) as [e|]; simpl; [|lia].
    destruct (Nat.ltb_spec (length r + length ws) (first + e)), (Nat.ltb_spec (length (drop_spaces r) + length ws) e); lia. }
  rewrite Hty. assert (negb raw && negb (bool_decide (line_type r ∈ structured_types)) = false) as ->.
  { destruct Htype as [->|Hin]; [done|]. rewrite (bool_decide_true _ Hin). apply andb_false_r. }
  rewrite Hline at 1 2 3. rewrite !not_before_absent by done. cbn [andb]. rewrite Hline. by apply text_before_app.
Qed.

(** Comments on lines with structured values, regular expressions and quotes. *)
Example strip_examples :
  stripRulesetComment "DOMAIN,a.com // note" false = "DOMAIN,a.com"%str /\
  stripRulesetComment "URL-REGEX,^https://x // y" false = "URL-REGEX,^https://x // y"%str /\
  stripRulesetComment "  // all of it" false = [] /\
  stripRulesetComment "DOMAIN,'a // b' // c" false = "DOMAIN,'a // b'"%str.
Proof. by vm_compute. Qed.

Lemma stripRulesetComment_spec_witness : stripRulesetComment "DOMAIN,a.com // note" false = "DOMAIN,a.com"%str.
Proof.
  assert (Hi : forall i, ~ comment_at "DOMAIN,a.com" i).
  { intros i (Hc & _). unfold starts_with in Hc. do 13 (destruct i as [|i]; [vm_compute in Hc; discriminate|]).
    vm_compute in Hc. discriminate. }
  apply (proj2 (stripRulesetComment_spec "DOMAIN,a.com // note" false) "DOMAIN,a.com" " " " note"); try done.
  - by constructor.
  - intros a c H. apply (f_equal (@rev ascii)) in H. rewrite rev_app_distr in H. by simplify_eq/=.
  - split_and!; [done|by apply (bool_decide_unpack _); vm_compute..].
  - right. apply (bool_decide_unpack _). by vm_compute.
Defined.
