(* ===== verification/ExternalRules.v ===== *)
(** * generator/config/external_rules.cpp: rules from external sources

    Parsing and validation of the Clash rules of an external source, and the
    order in which the rules of all origins are merged.  A document of yaml-cpp
    is a [Yaml] value and its loader a parameter ([None] when it throws). *)

From S2P Require Import Prelude Str StringUtil Ruleset.
Open Scope nat_scope.

(** ** YAML documents *)

Inductive Yaml :=
  | YNull
  | YScalar (s : str)
  | YSequence (l : list Yaml)
  | YMap (l : list (str * Yaml)).

(** [node[key]] of a map. *)
Definition yaml_get (key : str) (l : list (str * Yaml)) : option Yaml :=
  snd ∘ snd <$> list_find (fun m => m.1 = key) l.

(** ** Top-level commas *)

(** src/src/generator/config/external_rules.cpp:45-49 [splitTopLevelCommas, state of the scan] *)
Record Scan := mkScan { round_depth : Z; square_depth : Z; brace_depth : Z; quote : option ascii; escaped : bool }.
Definition scan_start : Scan := mkScan 0 0 0 None false.

(** src/src/generator/config/external_rules.cpp:52-92 [splitTopLevelCommas, one byte]
    [None] when a bracket closes that was not open; the second component tells
    that the byte is a separator. *)
Definition scan_char (s : Scan) (ch : ascii) : option (Scan * bool) :=
  match quote s with
  | Some q =>
      let set q e := Some (mkScan (round_depth s) (square_depth s) (brace_depth s) q e, false) in
      if escaped s then set (Some q) false
      else if is_char "\" ch then set (Some q) true
      else if bool_decide (ch = q) then set None false
      else set (Some q) false
  | None =>
      if is_char "'" ch || is_char "034" ch then
        Some (mkScan (round_depth s) (square_depth s) (brace_depth s) (Some ch) (escaped s), false)
      else
        let '(r, q, b) :=
          if is_char "(" ch then (round_depth s + 1, square_depth s, brace_depth s)
          else if is_char ")" ch then (round_depth s - 1, square_depth s, brace_depth s)
          else if is_char "[" ch then (round_depth s, square_depth s + 1, brace_depth s)
          else if is_char "]" ch then (round_depth s, square_depth s - 1, brace_depth s)
          else if is_char "{" ch then (round_depth s, square_depth s, brace_depth s + 1)
          else if is_char "}" ch then (round_depth s, square_depth s, brace_depth s - 1)
          else (round_depth s, square_depth s, brace_depth s) in
        if (r <? 0) || (q <? 0) || (b <? 0) then None
        else Some (mkScan r q b None (escaped s), is_char "," ch && (r =? 0) && (q =? 0) && (b =? 0))
  end%Z.

(** [quote || round_depth != 0 || square_depth != 0 || brace_depth != 0] *)
Definition unbalanced (s : Scan) : bool :=
  bool_decide (is_Some (quote s)) || negb (round_depth s =? 0)%Z || negb (square_depth s =? 0)%Z || negb (brace_depth s =? 0)%Z.

Fixpoint split_top (rule : str) (s : Scan) (field : str) : option (list str) :=
  match rule with
  | [] => if unbalanced s then None else Some [trimAscii field]
  | ch :: rest =>
      match scan_char s ch with
      | None => None
      | Some (s', true) => cons (trimAscii field) <$> split_top rest s' []
      | Some (s', false) => split_top rest s' (field ++ [ch])
      end
  end.

(** src/src/generator/config/external_rules.cpp:42-101 [splitTopLevelCommas]
    [None] is a result that is not [ok]. *)
Definition splitTopLevelCommas (rule : str) : option (list str) := split_top rule scan_start [].

(** ** Validation *)

(** src/src/generator/config/external_rules.cpp:24-27 [isComment] *)
Definition isComment (line : str) : bool := startsWith line "#" || startsWith line ";" || startsWith line "//".

(** src/src/generator/config/external_rules.cpp:103-112 [locationError] *)
Definition locationError (source_identifier location english chinese : str) : str :=
  "Invalid external Clash rule from " ++ source_identifier ++ " (" ++ location ++ "): " ++ english ++ "." ++ ["010"%char]
  ++ "来自 " ++ source_identifier ++ "（" ++ location ++ "）的外部 Clash 规则无效：" ++ chinese ++ "。".

Definition terminal_type (type : str) : bool := bool_decide (type = "MATCH"%str) || bool_decide (type = "FINAL"%str).

(** src/src/generator/config/external_rules.cpp:114-155 [validateRule]
    The text of the error, empty if there is none. *)
Definition validateRule (rule source_identifier location : str) (allowed_rule_types : list str) (require_target : bool) : str :=
  let error := locationError source_identifier location in
  match splitTopLevelCommas rule with
  | None => error "unbalanced brackets or quotes" "括号或引号不匹配"
  | Some fields =>
      let type := hd [] fields in
      if negb (bool_decide (type ∈ allowed_rule_types)) then
        error ("unknown rule type '" ++ type ++ "'") ("未知规则类型 '" ++ type ++ "'")
      else if terminal_type type then
        error (type ++ " rules are not allowed") ("不允许导入 " ++ type ++ " 规则")
      else if (length fields <? 2) || bool_decide (nth 1 fields [] = []) then
        error "matching content is missing" "缺少匹配内容"
      else if negb require_target then []
      else if length fields <? 3 then error "target policy is missing" "缺少目标策略"
      else
        let target_index :=
          if (4 <=? length fields) && bool_decide (lowerAscii (List.last fields []) = "no-resolve"%str)
          then length fields - 2 else length fields - 1 in
        if bool_decide (nth target_index fields [] = []) then error "target policy is empty" "目标策略为空" else []
  end.

(** src/src/generator/config/external_rules.h:10-14 [ExternalRuleParseResult]
    The rules, or the error. *)
Definition ExternalRuleParseResult : Type := list str + str.

(** src/src/generator/config/external_rules.cpp:157-177 [parseRuleList] *)
Fixpoint parseRuleList (candidates locations : list str) (source_identifier : str) (allowed_rule_types : list str)
    (require_target : bool) : ExternalRuleParseResult :=
  match candidates, locations with
  | candidate :: candidates, location :: locations =>
      let rule := trimAscii candidate in
      let rest := parseRuleList candidates locations source_identifier allowed_rule_types require_target in
      if bool_decide (rule = []) || isComment rule then rest
      else
        match validateRule rule source_identifier location allowed_rule_types require_target with
        | [] => match rest with inl rules => inl (rule :: rules) | inr e => inr e end
        | error => inr error
        end
  | _, _ => inl []
  end.

(** The scalars of a sequence, or the index of the first other node. *)
Fixpoint scalars (l : list Yaml) (i : nat) : list str + nat :=
  match l with
  | YScalar s :: l => match scalars l (S i) with inl r => inl (s :: r) | inr k => inr k end
  | _ :: _ => inr i
  | [] => inl []
  end.

Definition strip_cr (line : str) : str :=
  match last line with Some c => if is_char "013" c then removelast line else line | None => line end.

Section Parse.
Context (yaml_load : str -> option Yaml).

(** src/src/generator/config/external_rules.cpp:194-270 [parseExternalClashRules] *)
Definition parseExternalClashRules (content source_identifier : str) (allowed_rule_types : list str)
    (require_target : bool) : ExternalRuleParseResult :=
  let number (i : nat) := to_string (Z.of_nat i) in
  if bool_decide (trimAscii content = []) then
    inr ("External rule source " ++ source_identifier ++ " returned empty content." ++ ["010"%char]
         ++ "外部规则来源 " ++ source_identifier ++ " 返回了空内容。")
  else match yaml_load content with
  | Some (YMap root) =>
      match yaml_get "payload" root with
      | Some _ =>
          inr ("Invalid external rule source " ++ source_identifier
               ++ ": YAML payload: format is not supported; use a root rules: sequence." ++ ["010"%char]
               ++ "外部规则来源 " ++ source_identifier ++ " 无效：不支持 YAML payload: 格式，请使用根节点 rules: 数组。")
      | None =>
          match yaml_get "rules" root with
          | Some (YSequence l) =>
              match scalars l 0 with
              | inl rules =>
                  parseRuleList rules ((fun i => "rules[" ++ number i ++ "]") <$> seq 0 (length l))
                    source_identifier allowed_rule_types require_target
              | inr i =>
                  inr ("Invalid external rule source " ++ source_identifier ++ ": rules[" ++ number i
                       ++ "] must be a string." ++ ["010"%char] ++ "外部规则来源 " ++ source_identifier
                       ++ " 无效：rules[" ++ number i ++ "] 必须是字符串。")
              end
          | _ =>
              inr ("Invalid external rule source " ++ source_identifier
                   ++ ": YAML root must contain a rules: sequence." ++ ["010"%char]
                   ++ "外部规则来源 " ++ source_identifier ++ " 无效：YAML 根节点必须包含 rules: 数组。")
          end
      end
  | _ =>
      let lines := strip_cr <$> getlines "010" content in
      parseRuleList lines ((fun i => "line " ++ number (S i)) <$> seq 0 (length lines))
        source_identifier allowed_rule_types require_target
  end.
End Parse.

(** ** Merging *)

(** src/src/generator/config/external_rules.cpp:179-183 [isTerminalRule] *)
Definition isTerminalRule (rule : str) : bool :=
  terminal_type (trimAscii (match find_char "," rule 0 with Some comma => substr rule 0 comma | None => rule end)).

(** src/src/generator/config/external_rules.cpp:185-190 [splitAtFirstTerminal] *)
Fixpoint splitAtFirstTerminal (rules : list str) : list str * list str :=
  match rules with
  | rule :: rest =>
      if isTerminalRule rule then ([], rules)
      else let '(a, b) := splitAtFirstTerminal rest in (rule :: a, b)
  | [] => ([], [])
  end.

(** src/src/generator/config/external_rules.cpp:272-297 [mergeClashRules] *)
Definition mergeClashRules (user_prepend prepend original generated append : list str) : list str :=
  let '(original_non_terminal, original_terminal) := splitAtFirstTerminal original in
  let '(generated_non_terminal, generated_terminal) := splitAtFirstTerminal generated in
  user_prepend ++ prepend ++ original_non_terminal ++ generated_non_terminal ++ append
  ++ original_terminal ++ generated_terminal.

(** src/src/generator/config/external_rules.cpp:299-309 [mergeClashRulesWithinLimit]
    [size_t] counts. *)
Definition mergeClashRulesWithinLimit (user_prepend prepend original generated append : list str) (max_rules : nat)
    : bool * list str :=
  let result := mergeClashRules user_prepend prepend original generated append in
  ((max_rules =? 0) || (length result <=? max_rules), result).

(** ** Lemmas: the scan *)

(** The state after a text that has no separator outside brackets and quotes. *)
Fixpoint run (s : Scan) (a : str) : option Scan :=
  match a with
  | [] => Some s
  | ch :: a => match scan_char s ch with Some (s', false) => run s' a | _ => None end
  end.

(** A text that closes what it opens and has no separator of its own. *)
Definition self_contained (a : str) : Prop := run scan_start a = Some scan_start.

(** A backslash only counts within quotes. *)
Definition good (s : Scan) : Prop := quote s = None -> escaped s = false.

Lemma scan_char_good s ch s' b :
  scan_char s ch = Some (s', b) -> good s -> good s' /\ (b = true -> ch = ","%char /\ s = scan_start /\ s' = scan_start).
Proof.
  unfold scan_char, good. intros H Hs. destruct s as [r q d qu e]. simpl in *. destruct qu as [qc|].
  - destruct e; [by simplify_eq/=|]. destruct (is_char "\" ch); [by simplify_eq/=|].
    destruct (bool_decide _); by simplify_eq/=.
  - rewrite Hs in * by done. destruct (is_char "'" ch || is_char "034" ch); [by simplify_eq/=|].
    destruct (is_char "," ch) eqn:Hcomma.
    + unfold is_char in Hcomma. apply bool_decide_eq_true in Hcomma. subst ch. simpl in H.
      destruct (_ || _) eqn:E in H; [done|]. simplify_eq/=. split; [done|]. intros Hb.
      rewrite !andb_true_iff, !Z.eqb_eq in Hb. by destruct Hb as [[-> ->] ->].
    + destruct (if is_char "(" ch then _ else _) as [[r' q'] d']. destruct (_ || _) in H; [done|]. by simplify_eq/=.
Qed.

Lemma balanced_start s : unbalanced s = false -> good s -> s = scan_start.
Proof.
  unfold unbalanced, good. destruct s as [r q b qu e]. simpl. rewrite !orb_false_iff, !negb_false_iff, !Z.eqb_eq.
  intros [[[Hq ->] ->] ->] Hg. apply bool_decide_eq_false in Hq. destruct qu; [by destruct Hq|]. by rewrite Hg.
Qed.

Lemma split_top_run a s s' f rest :
  run s a = Some s' -> split_top (a ++ rest) s f = split_top rest s' (f ++ a).
Proof.
  revert s f. induction a as [|ch a IH]; intros s f; simpl; [intros [= ->]; by rewrite app_nil_r|].
  destruct (scan_char s ch) as [[s1 []]|]; [done| |done]. intros H. rewrite (IH _ _ H), <- app_assoc. done.
Qed.

Lemma split_top_join raws f a :
  Forall self_contained (a :: raws) ->
  split_top (join (a :: raws) ",") scan_start f = Some (trimAscii (f ++ a) :: (trimAscii <$> raws)).
Proof.
  revert f a. induction raws as [|b raws IH]; intros f a [Ha Hr]%Forall_cons.
  - simpl. rewrite <- (app_nil_r a) at 1. by rewrite (split_top_run _ _ _ _ _ Ha).
  - rewrite join_cons by done. rewrite (split_top_run _ _ _ _ _ Ha).
    change (","%str ++ join (b :: raws) ","%str) with (","%char :: join (b :: raws) ","%str).
    cbn [split_top]. replace (scan_char scan_start ",") with (Some (scan_start, true)) by done.
    by rewrite IH.
Qed.

Lemma split_top_sound rule s f fs :
  split_top rule s f = Some fs -> good s ->
  exists a raws, rule = join (a :: raws) "," /\ run s a = Some scan_start /\ Forall self_contained raws /\
    fs = trimAscii (f ++ a) :: (trimAscii <$> raws).
Proof.
  revert s f fs. induction rule as [|ch rule IH]; intros s f fs; cbn [split_top].
  - destruct (unbalanced s) eqn:Hu; [done|]. intros [= <-] Hg. exists [], []. rewrite (balanced_start _ Hu Hg), app_nil_r.
    by split_and!.
  - destruct (scan_char s ch) as [[s' []]|] eqn:Hc; [| |done]; intros H Hg;
      destruct (scan_char_good _ _ _ _ Hc Hg) as [Hg' Hb].
    + apply fmap_Some in H as (fs' & H & ->). destruct (IH _ _ _ H Hg') as (a & raws & -> & Ha & Hr & ->).
      destruct (Hb eq_refl) as (-> & -> & ->). exists [], (a :: raws). rewrite (join_cons [] (a :: raws)), app_nil_r by done.
      split_and!; [done|done|by constructor|done].
    + destruct (IH _ _ _ H Hg') as (a & raws & Heq & Ha & Hr & ->). exists (ch :: a), raws. split_and!.
      * rewrite Heq. destruct raws; [done|]. by rewrite (join_cons a), (join_cons (ch :: a)) by done.
      * simpl. by rewrite Hc.
      * done.
      * by rewrite <- app_assoc.
Qed.

(** A rule is split exactly at the commas that no bracket and no quote
    encloses: the fields of a joined list of self-contained texts are these
    texts without outer white space, and whatever is split successfully is
    such a list. *)
Theorem split_top_level_spec rule :
  (forall raws, raws <> [] -> Forall self_contained raws -> rule = join raws "," ->
     splitTopLevelCommas rule = Some (trimAscii <$> raws)) /\
  (forall fs, splitTopLevelCommas rule = Some fs ->
     exists raws, raws <> [] /\ Forall self_contained raws /\ rule = join raws "," /\ fs = trimAscii <$> raws).
Proof.
  unfold splitTopLevelCommas. split.
  - intros [|a raws] Hne Hr ->; [done|]. by rewrite split_top_join.
  - intros fs H. destruct (split_top_sound _ _ _ _ H) as (a & raws & -> & Ha & Hr & ->); [done|].
    exists (a :: raws). by split_and!; [|constructor|..].
Qed.

Lemma split_top_level_spec_witness :
  splitTopLevelCommas "AND, ((DOMAIN,a),(NETWORK,udp)) ,P" = Some ["AND"; "((DOMAIN,a),(NETWORK,udp))"; "P"]%str.
Proof.
  apply (proj1 (split_top_level_spec "AND, ((DOMAIN,a),(NETWORK,udp)) ,P")
    ["AND"; " ((DOMAIN,a),(NETWORK,udp)) "; "P"]%str); [done| |done].
  repeat constructor.
Defined.

(** ** Lemmas: terminal rules *)

#[export] Instance scan_eq_dec : EqDecision Scan.
Proof. solve_decision. Defined.

Lemma isSpace_isspace c : isSpace c = isspace c.
Proof.
  apply eqb_prop. revert c. apply (all_bytes_spec (fun c => Bool.eqb (isSpace c) (isspace c))). by vm_compute.
Qed.

Lemma skip_drop_spaces s : skip_spaces s = drop_spaces s.
Proof. induction s as [|c s IH]; [done|]. simpl. by rewrite <- isSpace_isspace, IH. Qed.

Lemma trimAscii_split a : exists x y, a = x ++ trimAscii a ++ y /\ spaces x /\ spaces y.
Proof.
  unfold trimAscii, rstrip. rewrite !skip_drop_spaces. destruct (drop_spaces_split a) as (x & Hx & Hsx).
  destruct (drop_spaces_split (rev (drop_spaces a))) as (y & Hy & Hsy). exists x, (rev y). split_and!; [|done|by apply List.Forall_rev].
  apply (f_equal (@rev ascii)) in Hy. rewrite rev_involutive, rev_app_distr in Hy. by rewrite <- Hy.
Qed.

Definition neutral (c : ascii) : Prop := scan_char scan_start c = Some (scan_start, false).

Lemma space_neutral c : isSpace c = true -> neutral c.
Proof.
  assert (implb (isSpace c) (bool_decide (neutral c)) = true) as H.
  { revert c. apply all_bytes_spec. by vm_compute. }
  intros Hc. rewrite Hc in H. by apply bool_decide_eq_true in H.
Qed.

Lemma run_neutral a : Forall neutral a -> self_contained a.
Proof.
  unfold self_contained. induction 1 as [|c a Hc Ha IH]; [done|]. simpl. unfold neutral in Hc. by rewrite Hc.
Qed.

Lemma terminal_neutral a : terminal_type (trimAscii a) = true -> Forall neutral a.
Proof.
  intros Ht. destruct (trimAscii_split a) as (x & y & Ha & Hx & Hy). rewrite Ha, !Forall_app.
  assert (Hsp : forall s, spaces s -> Forall neutral s) by (intros s Hs; eapply Forall_impl; [exact Hs|apply space_neutral]).
  split_and!; [by apply Hsp| |by apply Hsp]. unfold terminal_type in Ht. apply orb_true_iff in Ht.
  rewrite !bool_decide_eq_true in Ht. destruct Ht as [-> | ->]; repeat constructor.
Qed.

Lemma terminal_first_field rule fs :
  isTerminalRule rule = true -> splitTopLevelCommas rule = Some fs -> terminal_type (hd [] fs) = true.
Proof.
  unfold isTerminalRule, splitTopLevelCommas. destruct (find_char "," rule 0) as [i|] eqn:Hi.
  - apply find_char_Some in Hi as (_ & Heq & Hno). unfold substr. rewrite drop_0. intros Ht.
    pose proof (run_neutral _ (terminal_neutral _ Ht)) as Hrun. rewrite Heq, (split_top_run _ _ _ _ _ Hrun).
    cbn [split_top]. replace (scan_char scan_start ",") with (Some (scan_start, true)) by done.
    by intros (fs' & _ & ->)%fmap_Some.
  - intros Ht. pose proof (run_neutral _ (terminal_neutral _ Ht)) as Hrun. rewrite <- (app_nil_r rule) at 1.
    rewrite (split_top_run _ _ _ _ _ Hrun). by intros [= <-].
Qed.

(** ** What is imported *)

(** [p] is the policy of a rule with these fields: the last field behind type
    and content, or the one in front of the option [no-resolve].  The option is
    taken for the policy only in a rule of three fields. *)
Definition policy_of (fs : list str) (p : str) : Prop :=
  p <> [] /\ exists front, 2 <= length front /\
    (fs = front ++ [p] /\ (lowerAscii p = "no-resolve"%str -> length fs = 3) \/
     exists option, fs = front ++ [p; option] /\ lowerAscii option = "no-resolve"%str).

(** A rule that may be imported: of an allowed type that is not a terminal
    one, with matching content and, if required, a target policy. *)
Definition imported (allowed : list str) (require_target : bool) (rule : str) : Prop :=
  exists fs, splitTopLevelCommas rule = Some fs /\ hd [] fs ∈ allowed /\
    hd [] fs <> "MATCH"%str /\ hd [] fs <> "FINAL"%str /\ nth 1 fs [] <> [] /\
    (require_target = true -> exists p, policy_of fs p).

Lemma last_two {A} (fs : list A) : 2 <= length fs -> exists front x y, fs = front ++ [x; y].
Proof.
  intros Hl. destruct (exists_last (l := fs)) as (l & y & ->); [by intros ->; simpl in Hl; lia|].
  destruct (exists_last (l := l)) as (front & x & ->); [intros ->; simpl in Hl; lia|]. exists front, x, y. by rewrite <- app_assoc.
Qed.

Lemma policy_index fs : 3 <= length fs ->
  let i := if (4 <=? length fs) && bool_decide (lowerAscii (List.last fs []) = "no-resolve"%str)
           then length fs - 2 else length fs - 1 in
  nth i fs [] <> [] <-> exists p, policy_of fs p.
Proof.
  intros Hl. cbv zeta. destruct (last_two fs) as (front & x & y & ->); [lia|]. rewrite length_app in *. cbn [length] in *.
  assert (List.last (front ++ [x; y]) [] = y) as ->.
  { change (front ++ [x; y]) with (front ++ [x] ++ [y]). rewrite app_assoc. apply last_last. }
  assert (Hx : nth (length front + 2 - 2) (front ++ [x; y]) [] = x).
  { replace (length front + 2 - 2) with (length front + 0) by lia. by rewrite app_nth2_plus. }
  assert (Hy : nth (length front + 2 - 1) (front ++ [x; y]) [] = y).
  { replace (length front + 2 - 1) with (length front + 1) by lia. by rewrite app_nth2_plus. }
  assert (Hsnoc : forall front' p, front ++ [x; y] = front' ++ [p] -> p = y).
  { intros front' p E. change (front ++ [x; y]) with (front ++ [x] ++ [y]) in E. rewrite app_assoc in E. by apply app_inj_tail in E as [_ ->]. }
  assert (Hpair : forall front' p q, front ++ [x; y] = front' ++ [p; q] -> p = x /\ q = y).
  { intros front' p q E. change (front ++ [x] ++ [y] = front' ++ [p] ++ [q]) in E. rewrite !app_assoc in E.
    apply app_inj_tail in E as [E ->]. by apply app_inj_tail in E as [_ ->]. }
  destruct (Nat.leb_spec 4 (length front + 2)) as [H4|H4]; cbn [andb]; [case_bool_decide as Ho|].
  - rewrite Hx. split.
    + intros Hne. exists x. split; [done|]. exists front. split; [lia|]. right. by exists y.
    + intros (p & Hp & front' & _ & [[E H3]|(o & E & _)]); [|by apply Hpair in E as [-> _]].
      apply Hsnoc in E as ->. specialize (H3 Ho). rewrite length_app in H3. simpl in H3. lia.
  - rewrite Hy. split.
    + intros Hne. exists y. split; [done|]. exists (front ++ [x]). rewrite length_app. split; [simpl; lia|]. left.
      by rewrite <- app_assoc.
    + intros (p & Hp & front' & _ & [[E _]|(o & E & Ho')]); [by apply Hsnoc in E as ->|]. by apply Hpair in E as [_ ->].
  - rewrite Hy. split.
    + intros Hne. exists y. split; [done|]. exists (front ++ [x]). rewrite length_app. split; [simpl; lia|]. left.
      split; [by rewrite <- app_assoc|]. intros _. rewrite length_app. simpl. lia.
    + intros (p & Hp & front' & Hf & [[E _]|(o & E & _)]); [by apply Hsnoc in E as ->|].
      apply (f_equal length) in E. rewrite !length_app in E. simpl in E. lia.
Qed.

Lemma locationError_ne src loc english chinese : locationError src loc english chinese <> [].
Proof. done. Qed.

Lemma policy_length fs p : policy_of fs p -> 3 <= length fs.
Proof. intros (_ & front & Hf & [[-> _]|(o & -> & _)]); rewrite length_app; simpl; lia. Qed.

Lemma validate_imported rule src loc allowed req :
  validateRule rule src loc allowed req = [] <-> imported allowed req rule.
Proof.
  unfold validateRule, imported. cbv zeta. destruct (splitTopLevelCommas rule) as [fs|] eqn:Hs.
  2:{ split; [done|]. by intros (? & [=] & _). }
  assert (Hex : forall P : list str -> Prop, (exists gs, Some fs = Some gs /\ P gs) <-> P fs).
  { intros P. split; [by intros (? & [= <-] & ?)|by exists fs]. }
  rewrite Hex. case_bool_decide as Ha; cbn [negb]; [|split; [done|tauto]].
  unfold terminal_type. case_bool_decide as Hm; cbn [orb]; [split; [done|tauto]|].
  case_bool_decide as Hf; cbn [orb]; [split; [done|tauto]|].
  case_bool_decide as Hn; [rewrite orb_true_r; split; [done|tauto]|].
  destruct (Nat.ltb_spec (length fs) 2) as [H2|H2]; cbn [orb].
  { split; [done|]. destruct fs as [|? [|? ?]]; simpl in *; try lia; tauto. }
  destruct req; cbn [negb]; [|split; [intros _; by split_and!|done]].
  destruct (Nat.ltb_spec (length fs) 3) as [H3|H3].
  { split; [done|]. intros (_ & _ & _ & _ & Hp). destruct (Hp eq_refl) as [p Hpol]. apply policy_length in Hpol. lia. }
  pose proof (policy_index fs H3) as Hp. cbv zeta in Hp.
  match type of Hp with nth ?i fs [] <> [] <-> _ => set (j := i) in *; destruct (decide (nth j fs [] = [])) as [Hi|Hi] end.
  - rewrite bool_decide_true by done. split; [done|]. intros (_ & _ & _ & _ & Hpol). by apply Hp in Hpol.
  - rewrite bool_decide_false by done. split; [|done]. intros _. split_and!; try done. intros _. by apply Hp.
Qed.

(** No imported rule matches everything. *)
Lemma imported_not_terminal allowed req rule : imported allowed req rule -> isTerminalRule rule = false.
Proof.
  intros (fs & Hs & _ & Hm & Hf & _). apply not_true_is_false. intros Ht. pose proof (terminal_first_field _ _ Ht Hs) as H.
  unfold terminal_type in H. rewrite !bool_decide_false in H by done. done.
Qed.

(** The candidates that are rules. *)
Definition is_candidate (line : str) : Prop := line <> [] /\ isComment line = false.
#[export] Instance is_candidate_dec line : Decision (is_candidate line).
Proof. unfold is_candidate. apply _. Defined.

Lemma parseRuleList_exact cands locs src allowed req rules :
  length locs = length cands ->
  parseRuleList cands locs src allowed req = inl rules <->
  rules = filter is_candidate (trimAscii <$> cands) /\ Forall (imported allowed req) rules.
Proof.
  revert locs rules. induction cands as [|c cands IH]; intros [|loc locs] rules; try done.
  { intros _. cbn. split; [by intros [= <-]|by intros [-> _]]. }
  intros [= Hlen]. cbn [parseRuleList fmap list_fmap]. specialize (IH locs). destruct (_ || _) eqn:E.
  - rewrite filter_cons_False; [by apply IH|]. intros [H1 H2]. apply orb_true_iff in E as [E|E]; bools; congruence.
  - bools. rewrite filter_cons_True by done. destruct (validateRule _ _ _ _ _) as [|] eqn:Hv.
    + apply validate_imported in Hv. destruct (parseRuleList cands _ _ _ _) as [rs|e].
      * destruct (proj1 (IH rs Hlen) eq_refl) as [Hrs HF]. rewrite <- Hrs. split.
        { intros [= <-]. split; [done|by constructor]. }
        { by intros [-> _]. }
      * split; [done|]. intros [-> HF]. apply Forall_cons in HF as [_ HF].
        by pose proof (proj2 (IH _ Hlen) (conj eq_refl HF)).
    + split; [done|]. intros [-> [Hi _]%Forall_cons]. apply (validate_imported _ src loc) in Hi. by rewrite Hv in Hi.
Qed.

#[local] Instance scalar_inj : Inj (=) (=) YScalar.
Proof. by intros s s' [=]. Qed.

Lemma scalars_spec l i rs : scalars l i = inl rs <-> l = YScalar <$> rs.
Proof.
  revert i rs. induction l as [|y l IH]; intros i rs; cbn [scalars].
  - split; [by intros [= <-]|]. by destruct rs.
  - destruct y as [|s| |]; try (split; [done|by destruct rs]). specialize (IH (S i)). destruct (scalars l (S i)) as [r|k].
    + rewrite (proj1 (IH r) eq_refl). split; [by intros [= <-]|]. destruct rs as [|t rs]; [done|]. intros [= -> E].
      by apply (inj (fmap YScalar)) in E as ->.
    + split; [done|]. destruct rs as [|t rs]; [done|]. intros [= -> E]. by apply IH in E.
Qed.

(** The texts that an external source offers as rules: the scalars of the
    sequence under [rules] of a YAML map without [payload], and the lines of
    every other text, be it YAML or not. *)
Definition offered (loaded : option Yaml) (content : str) (cands : list str) : Prop :=
  match loaded with
  | Some (YMap root) => yaml_get "payload" root = None /\ yaml_get "rules" root = Some (YSequence (YScalar <$> cands))
  | _ => cands = strip_cr <$> getlines "010" content
  end.

(** C19: a source is imported exactly when its text is not blank and every
    rule it offers may be imported, and then the result is what it offers
    without white space around it, except blank lines and comments, in order.
    A rule may be imported when its brackets and quotes are balanced, its type
    is allowed and not MATCH or FINAL, its content is not empty and, if
    required, its target policy is not empty: the last field, or the one in
    front of [no-resolve] (which counts as the policy in a rule of three
    fields only).  Whatever the loader of YAML answers. *)
Theorem parse_external_sound yaml_load content src allowed req rules :
  parseExternalClashRules yaml_load content src allowed req = inl rules <->
  trimAscii content <> [] /\
  exists cands, offered (yaml_load content) content cands /\
    rules = filter is_candidate (trimAscii <$> cands) /\ Forall (imported allowed req) rules.
Proof.
  unfold parseExternalClashRules, offered. cbv zeta. case_bool_decide as Hb; [split; [done|tauto]|].
  assert (Hone : forall (c : list str) (P : list str -> Prop), (exists cands, cands = c /\ P cands) <-> P c).
  { intros c P. split; [by intros (? & -> & ?)|by exists c]. }
  assert (Htext : parseRuleList (strip_cr <$> getlines "010" content)
      ((fun i => "line " ++ to_string (Z.of_nat (S i))) <$> seq 0 (length (strip_cr <$> getlines "010" content)))%str src allowed req = inl rules <->
    trimAscii content <> [] /\ exists cands, cands = strip_cr <$> getlines "010" content /\
      rules = filter is_candidate (trimAscii <$> cands) /\ Forall (imported allowed req) rules).
  { rewrite parseRuleList_exact by (by rewrite length_fmap, length_seq). rewrite Hone. tauto. }
  destruct (yaml_load content) as [[| | |root]|]; try exact Htext.
  destruct (yaml_get "payload" root); [split; [done|by intros (_ & ? & [[=] _] & _)]|].
  destruct (yaml_get "rules" root) as [[| |l|]|]; try (split; [done|by intros (_ & ? & [_ [=]] & _)]).
  destruct (scalars l 0) as [rs|k] eqn:Hs.
  - pose proof (proj1 (scalars_spec _ _ _) Hs) as ->. rewrite parseRuleList_exact by (by rewrite length_fmap, length_seq, length_fmap). split.
    + intros [H1 H2]. split; [done|]. by exists rs.
    + intros (_ & cands & [_ [= E]] & H1 & H2). assert (rs = cands) as ->; [|done].
      by apply (inj (fmap YScalar)) in E.
  - split; [done|]. intros (_ & cands & [_ [= E]] & _). apply (scalars_spec _ 0) in E. congruence.
Qed.

(** ** Merging *)

Lemma splitAtFirstTerminal_spec rules :
  let '(a, b) := splitAtFirstTerminal rules in
  rules = a ++ b /\ Forall (fun r => isTerminalRule r = false) a /\
  match b with [] => True | r :: _ => isTerminalRule r = true end.
Proof.
  induction rules as [|r rules IH]; simpl; [done|]. destruct (isTerminalRule r) eqn:Hr; [done|].
  destruct (splitAtFirstTerminal rules) as [a b]. destruct IH as (-> & Ha & Hb). by split_and!; [|constructor|].
Qed.

(** Merging keeps every rule of every origin once and in the order of its
    origin.  When the rules of the user, the prepended and the appended ones
    have no terminal rule (imported rules have none), everything in front of
    the first terminal rule of the result is exactly these and the rules in
    front of the first terminal rule of each of the two other lists, so no
    imported rule is behind a rule that matches everything.  The limit counts
    all of them. *)
Theorem merge_order user_prepend prepend original generated append max_rules :
  let result := mergeClashRules user_prepend prepend original generated append in
  (result ≡ₚ user_prepend ++ prepend ++ original ++ generated ++ append /\
   Forall (fun l => l `sublist_of` result) [user_prepend; prepend; original; generated; append]) /\
  (Forall (fun r => isTerminalRule r = false) (user_prepend ++ prepend ++ append) ->
   splitAtFirstTerminal result =
     (user_prepend ++ prepend ++ (splitAtFirstTerminal original).1 ++ (splitAtFirstTerminal generated).1 ++ append,
      (splitAtFirstTerminal original).2 ++ (splitAtFirstTerminal generated).2)) /\
  mergeClashRulesWithinLimit user_prepend prepend original generated append max_rules =
    (bool_decide (max_rules = 0 \/
       length user_prepend + length prepend + length original + length generated + length append <= max_rules), result).
Proof.
  cbv zeta. unfold mergeClashRulesWithinLimit, mergeClashRules.
  pose proof (splitAtFirstTerminal_spec original) as Ho. pose proof (splitAtFirstTerminal_spec generated) as Hg.
  destruct (splitAtFirstTerminal original) as [on ot] eqn:Eo, (splitAtFirstTerminal generated) as [gn gt] eqn:Eg.
  destruct Ho as (-> & Hon & Hot), Hg as (-> & Hgn & Hgt). simpl.
  split_and!.
  - solve_Permutation.
  - rewrite !Forall_cons. split_and!; try done.
    + by apply sublist_inserts_r.
    + by apply sublist_inserts_l, sublist_inserts_r.
    + apply sublist_inserts_l, sublist_inserts_l, sublist_app; [done|]. by apply sublist_inserts_l, sublist_inserts_l, sublist_inserts_r.
    + do 3 apply sublist_inserts_l. apply sublist_app; [done|]. by do 2 apply sublist_inserts_l.
    + do 4 apply sublist_inserts_l. by apply sublist_inserts_r.
  - rewrite !Forall_app. intros (Hu & Hp & Ha).
    assert (Happ : forall a b, Forall (fun r => isTerminalRule r = false) a ->
      splitAtFirstTerminal (a ++ b) = (a ++ (splitAtFirstTerminal b).1, (splitAtFirstTerminal b).2)).
    { intros a b Hf. induction Hf as [|r a Hr Hf IH]; simpl; [by destruct (splitAtFirstTerminal b)|].
      rewrite Hr, IH. done. }
    assert (Hend : splitAtFirstTerminal (ot ++ gt) = ([], ot ++ gt)).
    { destruct ot as [|r ot]; simpl in *; [|by rewrite Hot]. destruct gt as [|r gt]; simpl in *; [done|by rewrite Hgt]. }
    rewrite !Happ, Hend by done. simpl. by rewrite app_nil_r.
  - f_equal. rewrite !length_app. destruct (Nat.eqb_spec max_rules 0); simpl.
    + by rewrite bool_decide_true by auto.
    + destruct (Nat.leb_spec (length user_prepend + (length prepend + (length on + (length gn + (length append + (length ot + length gt)))))) max_rules).
      * rewrite bool_decide_true; [done|]. right. lia.
      * rewrite bool_decide_false; [done|]. intros [?|?]; lia.
Qed.

Lemma merge_order_witness :
  splitAtFirstTerminal (mergeClashRules ["A,a,P"] ["B,b,P"] ["C,c,P"; "MATCH,P"] ["D,d,P"; "FINAL,P"] ["E,e,P"])%str =
  (["A,a,P"; "B,b,P"; "C,c,P"; "D,d,P"; "E,e,P"], ["MATCH,P"; "FINAL,P"])%str.
Proof.
  apply (proj1 (proj2 (merge_order ["A,a,P"] ["B,b,P"] ["C,c,P"; "MATCH,P"] ["D,d,P"; "FINAL,P"] ["E,e,P"] 0)%str)).
  by repeat constructor.
Defined.

(** A rule without a policy whose third field is an option is accepted. *)
Lemma option_taken_for_target :
  validateRule "IP-CIDR,10.0.0.0/8,no-resolve" "src" "line 1" ["IP-CIDR"%str] true = [].
Proof. reflexivity. Qed.
