(* ===== verification/RuleConvert.v ===== *)
(** * generator/config/ruleconvert.cpp: rulesets to the rules of a client

    Conversion of ruleset texts, the target of a Clash rule and the two
    generators of Clash rules.  The
    regular expressions of PCRE2 ([regFind], [regMatch], [regReplace] with its
    flags global and multiline) and the MD5 digest are parameters; the content
    of a ruleset is the text its future yields; [cache] is what the conversion
    cache holds when it is asked (see [LruCache]). *)

From S2P Require Import Prelude Str StringUtil Ruleset ExternalRules.
Open Scope nat_scope.

(** ** Data *)

(** src/src/generator/config/ruleconvert.h:16-20 [RulesetDelivery] *)
Inductive RulesetDelivery := ServerFetched | NativeStashProvider.
#[export] Instance delivery_eq_dec : EqDecision RulesetDelivery.
Proof. solve_decision. Defined.

(** src/src/generator/config/ruleconvert.h:28-38 [RulesetContent] *)
Record RulesetContent := mkContent {
  rule_group : str; rule_path : str; rule_path_typed : str; rule_type : ruleset_type; rule_content : str;
  update_interval : Z; content_options : RulesetOptions; delivery : RulesetDelivery
}.

(** src/src/generator/config/ruleconvert.cpp:26-29 [basic_types, ClashRuleTypes] *)
Definition ClashRuleTypes : list str :=
  ["DOMAIN"; "DOMAIN-SUFFIX"; "DOMAIN-KEYWORD"; "IP-CIDR"; "SRC-IP-CIDR"; "GEOIP"; "MATCH"; "FINAL"; "IP-CIDR6";
   "SRC-PORT"; "DST-PORT"; "PROCESS-NAME"; "DOMAIN-REGEX"; "GEOSITE"; "IP-SUFFIX"; "IP-ASN"; "SRC-GEOIP"; "SRC-IP-ASN";
   "SRC-IP-SUFFIX"; "IN-PORT"; "IN-TYPE"; "IN-USER"; "IN-NAME"; "PROCESS-PATH-REGEX"; "PROCESS-PATH";
   "PROCESS-NAME-REGEX"; "UID"; "NETWORK"; "DSCP"; "SUB-RULE"; "RULE-SET"; "AND"; "OR"; "NOT"]%str.

(** The index of an enumerator. *)
Definition type_index (t : ruleset_type) : Z :=
  match t with
  | RULESET_SURGE => 0 | RULESET_QUANX => 1 | RULESET_CLASH_DOMAIN => 2 | RULESET_CLASH_IPCIDR => 3
  | RULESET_CLASH_CLASSICAL => 4
  end.

(** The tests on a line that the generators share: blank or a comment. *)
Definition ignored (line : str) : bool :=
  match line with
  | [] => true
  | c :: rest => is_char ";" c || is_char "#" c || (is_char "/" c && match rest with d :: _ => is_char "/" d | [] => false end)
  end.

Section RuleConvert.
Context (regFind regMatch : str -> str -> bool) (regReplace : str -> str -> str -> bool -> bool -> str).
Context (getMD5 : str -> str).

(** ** Conversion of a text *)

(** src/src/utils/network.cpp:45-48 [isIPv4] *)
Definition isIPv4 (address : str) : bool :=
  regMatch address "^(25[0-5]|2[0-4]\d|[0-1]?\d?\d)(\.(25[0-5]|2[0-4]\d|[0-1]?\d?\d)){3}$".

(** src/src/generator/config/ruleconvert.cpp:81-85 [convertRulesetUncached, removal of a suffix] *)
Fixpoint strip_wildcards (fuel : nat) (line : str) (keyword_flag : bool) : str * bool :=
  match fuel with
  | O => (line, keyword_flag)
  | S fuel => if endsWith line ".*" then strip_wildcards fuel (take (length line - 2) line) true else (line, keyword_flag)
  end.

(** src/src/generator/config/ruleconvert.cpp:57-99 [convertRulesetUncached, one line of a payload]
    [lineSize] is the size before the comment is removed. *)
Definition payload_line (line : str) : str :=
  let line := trim line true true in
  let line := match last line with Some c => if is_char "013" c then removelast line else line | None => line end in
  let lineSize := length line in
  let line := stripRulesetComment line true in
  let first := nth 0 line "000"%char in
  let second := nth 1 line "000"%char in
  if negb (bool_decide (line = [])) &&
     (negb (is_char ";" first) && negb (is_char "#" first) && negb ((2 <=? lineSize) && is_char "/" first && is_char "/" second))
  then
    match find_char "/" line 0 with
    | Some pos => (if isIPv4 (substr line 0 pos) then "IP-CIDR," else "IP-CIDR6,") ++ line ++ ["010"%char]
    | None =>
        if is_char "." first || ((2 <=? lineSize) && is_char "+" first && is_char "." second) then
          let '(stripped, keyword_flag) := strip_wildcards (length line) line false in
          "DOMAIN-" ++ (if (keyword_flag : bool) then "KEYWORD," else "SUFFIX,")
          ++ drop (if is_char "." (nth 0 stripped "000"%char) then 1 else 2) stripped ++ ["010"%char]
        else "DOMAIN," ++ line ++ ["010"%char]
    end
  else line ++ ["010"%char].

(** src/src/generator/config/ruleconvert.cpp:36-108 [convertRulesetUncached] *)
Definition convertRulesetUncached (content : str) (type : ruleset_type) : str :=
  if bool_decide (type = RULESET_SURGE) then content
  else if regFind content "^payload:\r?\n" then
    let output :=
      regReplace (regReplace content "payload:\r?\n" [] true true)
        ("\s?^\s*-\s+('|" ++ ["034"%char] ++ "?)(.*)\1$") (["010"%char] ++ "$2") true true in
    if bool_decide (type = RULESET_CLASH_CLASSICAL) then output
    else concat (payload_line <$> getlines (getLineBreak output) output)
  else
    let output := regReplace (regReplace content "^(?i:host)" "DOMAIN" true true) "^(?i:ip6-cidr)" "IP-CIDR6" true true in
    regReplace output "^((?i:DOMAIN(?:-(?:SUFFIX|KEYWORD))?|IP-CIDR6?|USER-AGENT),)\s*?(\S*?)(?:,(?!no-resolve).*?)(,no-resolve)?$"
      "\U$1\E$2${3:-}" true true.

(** src/src/generator/config/ruleconvert.cpp:119-132 [convertRuleset] *)
Definition convertRuleset (cache : str -> option str) (content : str) (type : ruleset_type) : str :=
  if bool_decide (type = RULESET_SURGE) then content
  else
    let key := getMD5 content ++ ":" ++ to_string (type_index type) in
    match cache key with Some value => value | None => convertRulesetUncached content type end.

(** ** Clash rules *)

(** src/src/generator/config/ruleconvert.cpp:144-149 [isClashCommaPayloadRule] *)
Definition isClashCommaPayloadRule (rule_type : str) : bool :=
  bool_decide (rule_type ∈ ["AND"; "OR"; "NOT"; "SUB-RULE"; "DOMAIN-REGEX"; "PROCESS-NAME-REGEX"; "PROCESS-PATH-REGEX"]%str).

(** src/src/generator/config/ruleconvert.cpp:151-176 [appendClashRuleTarget] *)
Definition appendClashRuleTarget (rule target : str) (no_resolve_only : bool) : str :=
  let strLine := trimWhitespace rule true true in
  let pos := find_char "," strLine 0 in
  let rule_type := toUpper (trimWhitespace (match pos with None => strLine | Some p => substr strLine 0 p end) true true) in
  if bool_decide (rule_type = "FINAL"%str) || bool_decide (rule_type = "MATCH"%str) then "MATCH," ++ target
  else if bool_decide (pos = None) || isClashCommaPayloadRule rule_type then strLine ++ "," ++ target
  else match split_view strLine "," with
  | t0 :: t1 :: rest =>
      t0 ++ "," ++ t1 ++ "," ++ target ++
      match rest with
      | t2 :: _ =>
          let option := trimWhitespace t2 true true in
          if negb no_resolve_only || bool_decide (option = "no-resolve"%str) then "," ++ option else []
      | [] => []
      end
  | _ => strLine ++ "," ++ target
  end.

(** src/src/generator/config/ruleconvert.cpp:178-203 [transformRuleToCommon]
    [None] when the text has no field at all, where the code reads past the
    end of an empty vector. *)
Definition transformRuleToCommon (input group : str) (no_resolve_only : bool) : option str :=
  match split_view input "," with
  | [] => None
  | [t0] => Some (t0 ++ "," ++ group)
  | t0 :: t1 :: rest =>
      Some (t0 ++ "," ++ t1 ++ "," ++ group ++
            match rest with
            | t2 :: _ => if negb no_resolve_only || bool_decide (t2 = "no-resolve"%str) then "," ++ t2 else []
            | [] => []
            end)
  end.

Context (cache : str -> option str) (max_allowed_rules : nat).

Definition over_limit (total_rules : nat) : bool := negb (max_allowed_rules =? 0) && (max_allowed_rules <? total_rules).

(** src/src/generator/config/ruleconvert.cpp:634-651 [rulesetToClash, the lines of a ruleset] *)
Fixpoint clash_lines (x : RulesetContent) (lines : list str) (allRules : list str) (total_rules : nat) : list str * nat :=
  match lines with
  | [] => (allRules, total_rules)
  | strLine :: lines =>
      if over_limit total_rules then (allRules, total_rules)
      else
        let strLine := trimWhitespace strLine true true in
        if ignored strLine then clash_lines x lines allRules total_rules
        else if negb (existsb (startsWith strLine) ClashRuleTypes) then clash_lines x lines allRules total_rules
        else
          let strLine := stripRulesetComment strLine false in
          let strLine := appendClashRuleTarget strLine (rule_group x) false in
          let strLine := appendClashIpCidrNoResolve strLine (rule_type x) (content_options x) in
          clash_lines x lines (allRules ++ [strLine]) (S total_rules)
  end.

(** src/src/generator/config/ruleconvert.cpp:607-652 [rulesetToClash, the rulesets] *)
Fixpoint clash_rulesets (contents : list RulesetContent) (allRules : list str) (total_rules : nat) : list str * nat :=
  match contents with
  | [] => (allRules, total_rules)
  | x :: contents =>
      if over_limit total_rules then (allRules, total_rules)
      else match rule_content x with
      | [] => clash_rulesets contents allRules total_rules
      | retrieved_rules =>
          if startsWith retrieved_rules "[]" then
            clash_rulesets contents (allRules ++ [appendClashRuleTarget (drop 2 retrieved_rules) (rule_group x) false])
              (S total_rules)
          else
            let retrieved_rules := convertRuleset cache retrieved_rules (rule_type x) in
            let '(allRules, total_rules) :=
              clash_lines x (getlines (getLineBreak retrieved_rules) retrieved_rules) allRules total_rules in
            clash_rulesets contents allRules total_rules
      end
  end.

(** [node.push_back(s)] of yaml-cpp: a null node becomes a sequence, a scalar or
    a map throws. *)
Definition push_back (node : Yaml) (s : str) : option Yaml :=
  match node with
  | YNull => Some (YSequence [YScalar s])
  | YSequence l => Some (YSequence (l ++ [YScalar s]))
  | _ => None
  end.

(** src/src/generator/config/ruleconvert.cpp:601-605 [rulesetToClash, the old rules]
    The rules field of the base, if it is defined and kept, and a null node
    otherwise. *)
Definition kept (base : option Yaml) (overwrite_original_rules : bool) : Yaml :=
  if overwrite_original_rules then YNull else default YNull base.

(** src/src/generator/config/ruleconvert.cpp:593-662 [rulesetToClash]
    [base] is the rules field, if it is defined; the result are its new value
    and the number of rules that were added, or [None] when yaml-cpp throws. *)
Definition rulesetToClash (base : option Yaml) (contents : list RulesetContent) (overwrite_original_rules : bool)
    : option (Yaml * nat) :=
  let '(allRules, total_rules) := clash_rulesets contents [] 0 in
  rules ← foldl (fun rules x => node ← rules; push_back node x) (Some (kept base overwrite_original_rules)) allRules;
  Some (rules, total_rules).

(** [node[i]] for the indices below [node.size()]: the entries of a sequence; of
    a map the values of the keys that read as these numbers, where there are
    any. *)
Definition yaml_items (node : Yaml) : list Yaml :=
  match node with
  | YSequence l => l
  | YMap m => (fun i => default YNull (yaml_get (to_string (Z.of_nat i)) m)) <$> seq 0 (length m)
  | _ => []
  end.

(** [safe_as<std::string>]; [None] when it throws. *)
Definition safe_as (node : Yaml) : option str :=
  match node with YNull => Some [] | YScalar s => Some s | _ => None end.

(** src/src/generator/config/ruleconvert.cpp:708-726 [rulesetToClashStr, the lines of a ruleset] *)
Fixpoint clash_str_lines (x : RulesetContent) (lines : list str) (output_content : str) (total_rules : nat) : str * nat :=
  match lines with
  | [] => (output_content, total_rules)
  | strLine :: lines =>
      if over_limit total_rules then (output_content, total_rules)
      else
        let strLine := trimWhitespace strLine true true in
        if ignored strLine then clash_str_lines x lines output_content total_rules
        else if negb (existsb (startsWith strLine) ClashRuleTypes) then clash_str_lines x lines output_content total_rules
        else
          let strLine := stripRulesetComment strLine false in
          let strLine := appendClashRuleTarget strLine (rule_group x) false in
          let strLine := appendClashIpCidrNoResolve strLine (rule_type x) (content_options x) in
          clash_str_lines x lines (output_content ++ "  - " ++ strLine ++ ["010"%char]) (S total_rules)
  end.

(** src/src/generator/config/ruleconvert.cpp:681-727 [rulesetToClashStr, the rulesets] *)
Fixpoint clash_str_rulesets (contents : list RulesetContent) (output_content : str) (total_rules : nat) : str * nat :=
  match contents with
  | [] => (output_content, total_rules)
  | x :: contents =>
      if over_limit total_rules then (output_content, total_rules)
      else match rule_content x with
      | [] => clash_str_rulesets contents output_content total_rules
      | retrieved_rules =>
          if startsWith retrieved_rules "[]" then
            let strLine := appendClashRuleTarget (drop 2 retrieved_rules) (rule_group x) false in
            clash_str_rulesets contents (output_content ++ "  - " ++ strLine ++ ["010"%char]) (S total_rules)
          else
            let retrieved_rules := convertRuleset cache retrieved_rules (rule_type x) in
            let '(output_content, total_rules) :=
              clash_str_lines x (getlines (getLineBreak retrieved_rules) retrieved_rules) output_content total_rules in
            clash_str_rulesets contents output_content total_rules
      end
  end.

(** src/src/generator/config/ruleconvert.cpp:664-731 [rulesetToClashStr]
    [None] when an entry of the base is neither a scalar nor null. *)
Definition rulesetToClashStr (base : option Yaml) (contents : list RulesetContent)
    (overwrite_original_rules new_field_name : bool) : option (str * nat) :=
  let field_name := if new_field_name then "rules"%str else "Rule"%str in
  let output_content := ["010"%char] ++ field_name ++ ":" ++ ["010"%char] in
  originals ← mapM safe_as (yaml_items (kept base overwrite_original_rules));
  let output_content := foldl (fun o s => o ++ "  - " ++ s ++ ["010"%char]) output_content originals in
  Some (clash_str_rulesets contents output_content 0).

End RuleConvert.

(** ** The two generators agree *)

Section Agree.
Context (regFind regMatch : str -> str -> bool) (regReplace : str -> str -> str -> bool -> bool -> str).
Context (getMD5 : str -> str) (cache : str -> option str) (max : nat).

Notation clash_rulesets := (clash_rulesets regFind regMatch regReplace getMD5 cache max).
Notation clash_str_rulesets := (clash_str_rulesets regFind regMatch regReplace getMD5 cache max).
Notation rulesetToClash := (rulesetToClash regFind regMatch regReplace getMD5 cache max).
Notation rulesetToClashStr := (rulesetToClashStr regFind regMatch regReplace getMD5 cache max).

(** The line of a rule in the text. *)
Definition rule_line (rule : str) : str := "  - " ++ rule ++ ["010"%char].

Definition text_of (out : str) (rules : list str) : str := out ++ concat (rule_line <$> rules).

Lemma text_of_snoc out rules r : text_of out (rules ++ [r]) = text_of out rules ++ rule_line r.
Proof. unfold text_of. rewrite fmap_app, concat_app. simpl. by rewrite app_nil_r, app_assoc. Qed.

Lemma lines_agree x lines out all n :
  clash_str_lines max x lines (text_of out all) n =
  let '(all', n') := clash_lines max x lines all n in (text_of out all', n').
Proof.
  revert all n. induction lines as [|l lines IH]; intros all n; cbn [clash_str_lines clash_lines]; [done|].
  destruct (over_limit max n); [done|]. cbv zeta. destruct (ignored _); [apply IH|].
  destruct (negb _); [apply IH|]. by rewrite <- IH, text_of_snoc.
Qed.

Lemma rulesets_agree contents out all n :
  clash_str_rulesets contents (text_of out all) n =
  let '(all', n') := clash_rulesets contents all n in (text_of out all', n').
Proof.
  revert all n. induction contents as [|x contents IH]; intros all n;
    cbn [RuleConvert.clash_rulesets RuleConvert.clash_str_rulesets]; [done|].
  destruct (over_limit max n); [done|]. destruct (rule_content x) as [|c t] eqn:Hx; [apply IH|].
  destruct (startsWith (c :: t) "[]").
  { set (r := appendClashRuleTarget _ _ _). change (text_of out all ++ _) with (text_of out all ++ rule_line r).
    rewrite <- text_of_snoc. apply IH. }
  cbv zeta. rewrite lines_agree. destruct (clash_lines _ _ _ _ _) as [all' n']. apply IH.
Qed.

Lemma foldl_lines (l : list str) out :
  foldl (fun o s => o ++ "  - " ++ s ++ ["010"%char]) out l = text_of out l.
Proof.
  revert out. induction l as [|s l IH]; intros out; simpl; [unfold text_of; simpl; by rewrite app_nil_r|].
  rewrite IH. unfold text_of. csimpl. by rewrite <- app_assoc.
Qed.

Lemma lines_count x lines all n :
  let '(all', n') := clash_lines max x lines all n in
  length all' + n = length all + n' /\ (max <> 0 -> n <= S max -> n' <= S max).
Proof.
  revert all n. induction lines as [|l lines IH]; intros all n; cbn [clash_lines]; [split; [lia|auto]|].
  destruct (over_limit max n) eqn:Ho; [split; [lia|auto]|]. cbv zeta. destruct (ignored _); [apply IH|].
  destruct (negb _); [apply IH|]. match goal with |- context [clash_lines _ _ _ (all ++ [?r]) _] => specialize (IH (all ++ [r]) (S n)) end.
  destruct (clash_lines _ _ _ _ _) as [all' n']. rewrite length_app in IH. simpl in IH. destruct IH as [IH1 IH2].
  split; [lia|]. intros Hm Hn. apply IH2; [done|]. unfold over_limit in Ho. bools.
  destruct Ho as [Ho|Ho]; bools; [apply Nat.eqb_eq in Ho; lia|apply Nat.ltb_ge in Ho; lia].
Qed.

Lemma rulesets_count contents all n :
  let '(all', n') := clash_rulesets contents all n in
  length all' + n = length all + n' /\ (max <> 0 -> n <= S max -> n' <= S max).
Proof.
  revert all n. induction contents as [|x contents IH]; intros all n;
    cbn [RuleConvert.clash_rulesets]; [split; [lia|auto]|].
  destruct (over_limit max n) eqn:Ho; [split; [lia|auto]|].
  assert (Hn : max <> 0 -> S n <= S max).
  { intros Hm. unfold over_limit in Ho. bools. destruct Ho as [Ho|Ho]; bools; [apply Nat.eqb_eq in Ho|apply Nat.ltb_ge in Ho]; lia. }
  destruct (rule_content x) as [|c t]; [apply IH|]. destruct (startsWith (c :: t) "[]").
  - match goal with |- context [clash_rulesets _ (all ++ [?r]) _] => specialize (IH (all ++ [r]) (S n)) end.
    destruct (clash_rulesets _ _ _) as [all' n']. rewrite length_app in IH. simpl in IH. destruct IH. split; [lia|auto].
  - cbv zeta. match goal with |- context [clash_lines max x ?ls all n] => pose proof (lines_count x ls all n) as Hl end.
    destruct (clash_lines _ _ _ _ _) as [all1 n1]. specialize (IH all1 n1).
    destruct (clash_rulesets _ _ _) as [all' n']. destruct Hl, IH. split; [lia|auto].
Qed.

Lemma push_all l all : foldl (fun rules x => node ← rules; push_back node x) (Some (YSequence l)) all =
  Some (YSequence (l ++ (YScalar <$> all))).
Proof.
  revert l. induction all as [|a all IH]; intros l; [by rewrite app_nil_r|]. cbn [foldl mbind option_bind push_back].
  by rewrite IH, <- app_assoc.
Qed.

Lemma push_null all : foldl (fun rules x => node ← rules; push_back node x) (Some YNull) all =
  Some (match all with [] => YNull | _ => YSequence (YScalar <$> all) end).
Proof. destruct all as [|a all]; [done|]. cbn [foldl mbind option_bind push_back]. by rewrite push_all. Qed.

Lemma push_none all : foldl (fun rules x => node ← rules; push_back node x) None all = None.
Proof. by induction all. Qed.

(** The rules of the rulesets. *)
Definition generated (contents : list RulesetContent) : list str := (clash_rulesets contents [] 0).1.

(** The document after a base that is null or a sequence. *)
Lemma clash_document base contents overwrite :
  match kept base overwrite with YScalar _ | YMap _ => False | _ => True end ->
  exists doc, rulesetToClash base contents overwrite = Some (doc, (clash_rulesets contents [] 0).2) /\
    yaml_items doc = yaml_items (kept base overwrite) ++ (YScalar <$> generated contents).
Proof.
  unfold rulesetToClash, generated. destruct (clash_rulesets contents [] 0) as [all n]. cbn [fst snd].
  destruct (kept base overwrite) as [| |l|]; try done; intros _.
  - rewrite push_null. eexists. split; [done|]. by destruct all.
  - rewrite push_all. eexists. by split.
Qed.

(** C22: the generator of the text writes exactly the rules of the generator
    of the document, the entries of the base first, one per line below the
    field, and counts the same.  This holds when the rules field of the base
    is missing, null, a list or dropped; when a scalar or a map is kept, the
    generator of the document throws as soon as there is a rule to add, and
    leaves the field as it is otherwise. *)
Theorem clash_outputs_agree base contents overwrite new_field_name :
  match kept base overwrite with
  | YScalar _ | YMap _ =>
      rulesetToClash base contents overwrite =
        match generated contents with [] => Some (kept base overwrite, 0) | _ => None end
  | _ =>
      exists doc n, rulesetToClash base contents overwrite = Some (doc, n) /\
        yaml_items doc = yaml_items (kept base overwrite) ++ (YScalar <$> generated contents) /\
        n = length (generated contents) /\
        rulesetToClashStr base contents overwrite new_field_name =
        (fun texts => (text_of (["010"%char] ++ (if new_field_name then "rules" else "Rule") ++ ":" ++ ["010"%char]) texts, n))
          <$> mapM safe_as (yaml_items doc)
  end.
Proof.
  pose proof (rulesets_count contents [] 0) as Hcount.
  destruct (clash_rulesets contents [] 0) as [all n] eqn:Hc. destruct Hcount as [Hn _]. simpl in Hn.
  assert (Hg : generated contents = all) by (unfold generated; by rewrite Hc).
  assert (Hrun : match kept base overwrite with YScalar _ | YMap _ => False | _ => True end ->
    exists doc k, rulesetToClash base contents overwrite = Some (doc, k) /\
      yaml_items doc = yaml_items (kept base overwrite) ++ (YScalar <$> generated contents) /\
      k = length (generated contents) /\
      rulesetToClashStr base contents overwrite new_field_name =
      (fun texts => (text_of (["010"%char] ++ (if new_field_name then "rules" else "Rule") ++ ":" ++ ["010"%char]) texts, k))
        <$> mapM safe_as (yaml_items doc)).
  { intros Hk. destruct (clash_document base contents overwrite Hk) as (doc & -> & Hd). exists doc, n. rewrite Hc. cbn [snd].
    split_and!; [done|done|rewrite Hg; lia|]. rewrite Hd, Hg. unfold rulesetToClashStr. set (b := yaml_items (kept base overwrite)).
    assert (Hs : forall l, mapM safe_as (l ++ (YScalar <$> all)) = (fun o => o ++ all) <$> mapM safe_as l).
    { intros l. induction l as [|y l IH]; cbn.
      - clear. induction all as [|a all IH]; cbn; [done|]. by rewrite IH.
      - destruct (safe_as y); [|done]. cbn. rewrite IH. by destruct (mapM safe_as l). }
    rewrite Hs. destruct (mapM safe_as b) as [os|]; [|done]. cbn. f_equal.
    rewrite foldl_lines, <- (app_nil_r (text_of _ os)).
    change (text_of ?o os ++ []) with (text_of (text_of o os) []).
    rewrite rulesets_agree, Hc. f_equal. unfold text_of. rewrite <- app_assoc, fmap_app, concat_app. done. }
  rewrite Hg in *. destruct (kept base overwrite) as [|s|l|m] eqn:Hk; [by apply Hrun| |by apply Hrun|];
    unfold rulesetToClash; rewrite Hc, Hk; destruct all as [|a all]; cbn in Hn |- *; try (by rewrite push_none);
    by replace n with 0 by lia.
Qed.

(** ** The limit *)

(** The number of generated rules, which is counted exactly, exceeds a
    configured limit by at most one. *)
Theorem clash_rules_limited contents :
  length (generated contents) = (clash_rulesets contents [] 0).2 /\
  (max <> 0 -> (clash_rulesets contents [] 0).2 <= S max).
Proof.
  unfold generated. pose proof (rulesets_count contents [] 0) as H.
  destruct (clash_rulesets contents [] 0) as [all n]. destruct H as [H1 H2]. simpl in *. split; [lia|].
  intros Hm. apply H2; [done|lia].
Qed.

End Agree.

(** With a limit of one rule two are generated. *)
Definition example_ruleset : RulesetContent :=
  mkContent "DIRECT" "list" "list" RULESET_SURGE ("DOMAIN,a.com" ++ ["010"%char] ++ "DOMAIN,b.com // b" ++ ["010"%char] ++ "DOMAIN,c.com" ++ ["010"%char])
    0 default_options ServerFetched.

Lemma limit_exceeded :
  rulesetToClash (fun _ _ => false) (fun _ _ => false) (fun s _ _ _ _ => s) (fun s => s) (fun _ => None) 1
    (Some (YSequence [YScalar "DOMAIN,x,PROXY"])) [example_ruleset] false =
  Some (YSequence [YScalar "DOMAIN,x,PROXY"; YScalar "DOMAIN,a.com,DIRECT"; YScalar "DOMAIN,b.com,DIRECT"], 2).
Proof. vm_compute. reflexivity. Qed.
