(* ===== verification/StashRules.v ===== *)
(** * generator/config/ruleconvert.cpp: rules and rule-providers of Stash

    The contract of a native rule-provider, the safe values, the normal form of
    a rule and the generator, which either refuses with an error or returns
    the new base.  Names and paths of providers are compared in lower case. *)

From S2P Require Import Prelude Str StringUtil Ruleset ExternalRules RuleConvert ProviderName.
Open Scope nat_scope.

(** ** Values and rules *)

(** src/src/generator/config/ruleconvert.cpp:222-227 [StashNativeRulesetContract] *)
Record StashNativeRulesetContract := mkContract { behavior : str; format : str; extension : str }.

(** [find_last_of(c)] *)
Definition rfind_char (c : ascii) (s : str) : option nat := last_index_if (is_char c) s.
(** A URL without its query and fragment. *)
Definition without_query (url : str) : str :=
  match find_if (one_of "?#") url 0 with Some query => take query url | None => url end.

(** src/src/generator/config/ruleconvert.cpp:229-289 [inferStashNativeRulesetContract] *)
Definition inferStashNativeRulesetContract (x : RulesetContent) : option StashNativeRulesetContract :=
  if negb (bool_decide (delivery x = NativeStashProvider)) ||
     (negb (startsWith (rule_path x) "https://") && negb (startsWith (rule_path x) "http://")) then None
  else
    behavior ← match rule_type x with
               | RULESET_CLASH_DOMAIN => Some "domain"%str
               | RULESET_CLASH_IPCIDR => Some "ipcidr"%str
               | RULESET_CLASH_CLASSICAL => Some "classical"%str
               | _ => None
               end;
    let path := without_query (rule_path x) in
    let explicit_format := stash_format (content_options x) in
    let extension :=
      match rfind_char "." path with
      | None => []
      | Some dot =>
          match rfind_char "/" path with
          | Some slash => if dot <? slash + 1 then [] else toLower (drop dot path)
          | None => toLower (drop dot path)
          end
      end in
    let explicit := negb (bool_decide (explicit_format = [])) in
    if negb explicit && bool_decide (extension = []) then None
    else if bool_decide (explicit_format = "mrs"%str) || (negb explicit && bool_decide (extension = ".mrs"%str)) then
      if bool_decide (behavior = "classical"%str) then None else Some (mkContract behavior "mrs" ".mrs")
    else if bool_decide (explicit_format = "yaml"%str)
            || (negb explicit && (bool_decide (extension = ".yaml"%str) || bool_decide (extension = ".yml"%str)))
    then Some (mkContract behavior "yaml" ".yaml")
    else if bool_decide (explicit_format = "text"%str) then Some (mkContract behavior "text" ".txt")
    else None.

(** src/src/generator/config/ruleconvert.cpp:306-320 [stashRulesetStem, the loop] *)
Fixpoint stem_loop (name safe : str) (last_separator : bool) : str :=
  match name with
  | [] => safe
  | ch :: name =>
      if 48 <=? length safe then safe
      else if isalnum ch || is_char "-" ch || is_char "_" ch then stem_loop name (safe ++ [ch]) false
      else if negb (bool_decide (safe = [])) && negb last_separator then stem_loop name (safe ++ ["_"%char]) true
      else stem_loop name safe last_separator
  end.
Fixpoint drop_underscores (s : str) : str :=
  match s with c :: t => if is_char "_" c then drop_underscores t else s | [] => [] end.

(** src/src/generator/config/ruleconvert.cpp:291-324 [stashRulesetStem] *)
Definition stashRulesetStem (url : str) : str :=
  let path := without_query url in
  let name := match rfind_char "/" path with Some slash => drop (slash + 1) path | None => path end in
  let name := match rfind_char "." name with Some dot => take dot name | None => name end in
  let safe := rev (drop_underscores (rev (stem_loop name [] false))) in
  if bool_decide (safe = []) then "SubConverter_Rule" else safe.

(** src/src/generator/config/ruleconvert.cpp:326-333 [stashRulesetScalarIsSafe] *)
Definition stashRulesetScalarIsSafe (value : str) : bool :=
  negb (bool_decide (value = [])) && bool_decide (value = trimWhitespace value true true) &&
  forallb (fun ch => negb ((code ch <? 32)%Z || (code ch =? 127)%Z)) value.

(** src/src/generator/config/ruleconvert.cpp:335-339 [stashRulesetGroupIsSafe] *)
Definition stashRulesetGroupIsSafe (value : str) : bool :=
  stashRulesetScalarIsSafe value && bool_decide (find_char "," value 0 = None).

(** src/src/generator/config/ruleconvert.cpp:357-362 [normalizeStashRule, allowed_types] *)
Definition stash_types : list str :=
  ["DOMAIN"; "DOMAIN-SUFFIX"; "DOMAIN-KEYWORD"; "DOMAIN-WILDCARD"; "DOMAIN-REGEX"; "GEOSITE"; "IP-CIDR"; "IP-CIDR6";
   "IP-ASN"; "GEOIP"; "PROCESS-NAME"; "PROCESS-PATH"; "USER-AGENT"; "URL-REGEX"; "NETWORK"; "PROTOCOL"; "DST-PORT";
   "MATCH"; "FINAL"]%str.

(** src/src/generator/config/ruleconvert.cpp:377-390 [normalizeStashRule, the options]
    The flags are no_resolve, explicit_no_resolve and no_track. *)
Fixpoint stash_options (supports_no_resolve : bool) (fields : list str) (flags : bool * bool * bool) : option (bool * bool * bool) :=
  match fields with
  | [] => Some flags
  | field :: fields =>
      let option := toLower field in
      let '(no_resolve, explicit_no_resolve, no_track) := flags in
      if bool_decide (option = "no-resolve"%str) && supports_no_resolve && negb explicit_no_resolve
      then stash_options supports_no_resolve fields (true, true, no_track)
      else if bool_decide (option = "no-track"%str) && negb no_track
      then stash_options supports_no_resolve fields (no_resolve, explicit_no_resolve, true)
      else None
  end.

(** src/src/generator/config/ruleconvert.cpp:341-409 [normalizeStashRule] *)
Definition normalizeStashRule (rule group : str) (o : RulesetOptions) : option str :=
  let rule := trimWhitespace rule true true in
  if bool_decide (rule = []) then None
  else
    parts ← split rule ",";
    let fields := (fun f => trimWhitespace f true true) <$> parts in
    if negb (forallb stashRulesetScalarIsSafe fields) then None
    else match fields with
    | [] => None
    | f0 :: rest =>
        let type := toUpper f0 in
        if negb (bool_decide (type ∈ stash_types)) then None
        else
          let terminal_rule := bool_decide (type = "MATCH"%str) || bool_decide (type = "FINAL"%str) in
          let f1 := hd [] rest in
          if (terminal_rule && negb (length fields =? 1)) || (negb terminal_rule && ((length fields <? 2) || bool_decide (f1 = [])))
          then None
          else
            let supports_no_resolve := bool_decide (type ∈ ["GEOIP"; "IP-CIDR"; "IP-CIDR6"; "IP-ASN"]%str) in
            '(no_resolve, _, no_track) ← stash_options supports_no_resolve (tl rest) (no_resolve o && supports_no_resolve, false, false);
            if bool_decide (type = "GEOIP"%str) && negb ((length f1 =? 2) && forallb isalpha f1) then None
            else
              Some ((if terminal_rule then "MATCH," ++ group else type ++ "," ++ f1 ++ "," ++ group)
                    ++ (if (no_resolve : bool) then ",no-resolve" else []) ++ (if (no_track : bool) then ",no-track" else []))
    end.

(** ** The generator *)

(** src/src/generator/config/ruleconvert.h:49-59 [StashRuleConversionStats] *)
Record StashRuleConversionStats := mkStats {
  input_sources : nat; inline_sources : nat; expanded_sources : nat; providerized_sources : nat;
  final_provider_count : nat; emitted_rules : nat; provider_references : nat; unsupported_sources : nat
}.

(** What the generator accumulates: the rules and the providers, the names and
    paths in use, the counts (sources inline, expanded and as providers, and
    rules). *)
Record StashState := mkState {
  st_rules : list Yaml; st_providers : list (str * Yaml); provider_names : gset str; provider_paths : gset str;
  inline_count : nat; expanded_count : nat; provider_count : nat; rule_count : nat
}.

(** An error: its English and its Chinese text. *)
Definition StashError : Type := str * str.

(** src/src/generator/config/ruleconvert.cpp:425-429 [rulesetToStash, fail] *)
Definition fail_text (e : StashError) : str :=
  "Invalid request: " ++ e.1 ++ "." ++ ["010"%char] ++ "无效请求：" ++ e.2 ++ "。".

Definition limit_error : StashError :=
  ("the final Stash rule count exceeds max_allowed_rules"%str, "最终 Stash 规则数量超过 max_allowed_rules 限制"%str).

(** src/src/generator/config/ruleconvert.cpp:436-451 [rulesetToStash, the rules of the base]
    The rules in front of the first terminal one and the others. *)
Fixpoint base_rules (entries : list Yaml) (terminal_seen : bool) (rules terminal_rules : list Yaml)
    : option (list Yaml * list Yaml) :=
  match entries with
  | [] => Some (rules, terminal_rules)
  | YScalar s as entry :: entries =>
      let value := trimWhitespace s true true in
      let type := toUpper (trimWhitespace (match find_char "," value 0 with
                                           | None => value | Some separator => substr value 0 separator end) true true) in
      let terminal_seen := terminal_seen || bool_decide (type = "MATCH"%str) || bool_decide (type = "FINAL"%str) in
      if terminal_seen then base_rules entries terminal_seen rules (terminal_rules ++ [entry])
      else base_rules entries terminal_seen (rules ++ [entry]) terminal_rules
  | _ :: _ => None
  end.

(** src/src/generator/config/ruleconvert.cpp:470-487 [rulesetToStash, the providers of the base] *)
Fixpoint base_providers (entries : list (str * Yaml)) (names paths : gset str) : gset str * gset str + StashError :=
  match entries with
  | [] => inl (names, paths)
  | (name, YMap fields) :: entries =>
      if bool_decide (toLower name ∈ names) then
        inr ("the selected Stash base contains duplicate rule-provider names"%str,
             "所选 Stash 基础模板包含重复的 rule-provider 名称"%str)
      else
        let names := {[toLower name]} ∪ names in
        let conflict := inr ("the selected Stash base contains conflicting rule-provider paths"%str,
                             "所选 Stash 基础模板包含冲突的 rule-provider 路径"%str) in
        match yaml_get "path" fields with
        | None | Some YNull => base_providers entries names paths
        | Some (YScalar path) =>
            if bool_decide (toLower path ∈ paths) then conflict
            else base_providers entries names ({[toLower path]} ∪ paths)
        | Some _ => conflict
        end
  | _ :: _ => inr ("the selected Stash base contains an invalid rule-provider"%str,
                   "所选 Stash 基础模板包含无效的 rule-provider"%str)
  end.

(** The names that are tried for a provider: the stem, then with 2, 3, ... *)
Definition stash_candidate (stem : str) (index : Z) : str := if (index <? 2)%Z then stem else stem ++ suffix index.

(** [node[key] = value] of a map. *)
Fixpoint yaml_set (key : str) (value : Yaml) (l : list (str * Yaml)) : list (str * Yaml) :=
  match l with
  | [] => [(key, value)]
  | (k, v) :: l => if bool_decide (k = key) then (k, value) :: l else (k, v) :: yaml_set key value l
  end.

(** src/src/generator/config/ruleconvert.cpp:517-524 [rulesetToStash, the item of a provider] *)
Definition provider_item (c : StashNativeRulesetContract) (x : RulesetContent) (path : str) : Yaml :=
  YMap ([("behavior"%str, YScalar (behavior c)); ("format"%str, YScalar (format c)); ("url"%str, YScalar (rule_path x));
         ("path"%str, YScalar path)]
        ++ if (0 <? update_interval x)%Z then [("interval"%str, YScalar (to_string (update_interval x)))] else []).

Section Stash.
Context (regFind regMatch : str -> str -> bool) (regReplace : str -> str -> str -> bool -> bool -> str).
Context (getMD5 : str -> str) (cache : str -> option str) (max_allowed_rules : nat).

(** [terminal] is the number of terminal rules of the base. *)
Definition at_limit (terminal : nat) (s : StashState) : bool :=
  negb (max_allowed_rules =? 0) && (max_allowed_rules <=? length (st_rules s) + terminal).

(** src/src/generator/config/ruleconvert.cpp:497-533 [rulesetToStash, a native provider]
    The search for a name takes at most one turn more than there are names. *)
Definition stash_native (x : RulesetContent) (s : StashState) : StashState + StashError :=
  match inferStashNativeRulesetContract x with
  | Some contract =>
      if stashRulesetScalarIsSafe (rule_path x) && stashRulesetGroupIsSafe (rule_group x) then
        let stem := stashRulesetStem (rule_path x) in
        match reserve_loop toLower (stash_candidate stem) (S (size (provider_names s))) 1 (provider_names s) with
        | Some (name, names) =>
            let path := "./rules/" ++ name ++ extension contract in
            if bool_decide (toLower path ∈ provider_paths s) then
              inr ("generated Stash rule-provider paths conflict"%str, "生成的 Stash rule-provider 路径发生冲突"%str)
            else
              inl (mkState (st_rules s ++ [YScalar (buildClashRuleSetReference name (rule_group x) (rule_type x) (content_options x))])
                     (yaml_set name (provider_item contract x path) (st_providers s)) names ({[toLower path]} ∪ provider_paths s)
                     (inline_count s) (expanded_count s) (S (provider_count s)) (S (rule_count s)))
        | None => inr ([], [])   (* a free name is always found *)
        end
      else inr ("a Stash rule-provider source has an unsupported format or unsafe value"%str,
                "Stash rule-provider 来源的格式不受支持或包含不安全值"%str)
  | None => inr ("a Stash rule-provider source has an unsupported format or unsafe value"%str,
                 "Stash rule-provider 来源的格式不受支持或包含不安全值"%str)
  end.

(** src/src/generator/config/ruleconvert.cpp:558-577 [rulesetToStash, the lines of a ruleset] *)
Fixpoint stash_lines (terminal : nat) (x : RulesetContent) (lines : list str) (emitted : bool) (s : StashState)
    : StashState * bool + StashError :=
  match lines with
  | [] => inl (s, emitted)
  | line :: lines =>
      let line := trimWhitespace line true true in
      if ignored line then stash_lines terminal x lines emitted s
      else match normalizeStashRule line (rule_group x) (content_options x) with
      | None => inr ("a Stash ruleset contains an unsupported or invalid rule"%str, "Stash 规则集包含不受支持或无效的规则"%str)
      | Some normalized =>
          if at_limit terminal s then inr limit_error
          else
            stash_lines terminal x lines true
              (mkState (st_rules s ++ [YScalar normalized]) (st_providers s) (provider_names s) (provider_paths s)
                 (inline_count s) (expanded_count s) (provider_count s) (S (rule_count s)))
      end
  end.

(** src/src/generator/config/ruleconvert.cpp:535-580 [rulesetToStash, a fetched ruleset] *)
Definition stash_fetched (terminal : nat) (x : RulesetContent) (s : StashState) : StashState + StashError :=
  let retrieved := rule_content x in
  if negb (stashRulesetGroupIsSafe (rule_group x)) then
    inr ("a Stash ruleset policy name contains an unsafe value"%str, "Stash 规则集的策略名称包含不安全值"%str)
  else if bool_decide (retrieved = []) then
    inr ("a Stash ruleset could not be fetched or was empty"%str, "Stash 规则集获取失败或内容为空"%str)
  else
    let inline := bool_decide (rule_path x = []) in
    let s := mkState (st_rules s) (st_providers s) (provider_names s) (provider_paths s)
               (if inline then S (inline_count s) else inline_count s)
               (if inline then expanded_count s else S (expanded_count s)) (provider_count s) (rule_count s) in
    let retrieved :=
      if startsWith retrieved "[]" then drop 2 retrieved
      else convertRuleset regFind regMatch regReplace getMD5 cache retrieved (rule_type x) in
    match stash_lines terminal x (getlines (getLineBreak retrieved) retrieved) false s with
    | inr e => inr e
    | inl (s, true) => inl s
    | inl (_, false) => inr ("a Stash ruleset did not contain any supported rules"%str, "Stash 规则集不包含任何受支持的规则"%str)
    end.

(** src/src/generator/config/ruleconvert.cpp:490-581 [rulesetToStash, the rulesets] *)
Fixpoint stash_rulesets (terminal : nat) (contents : list RulesetContent) (s : StashState) : StashState + StashError :=
  match contents with
  | [] => inl s
  | x :: contents =>
      if at_limit terminal s then inr limit_error
      else match (if bool_decide (delivery x = NativeStashProvider) then stash_native x s else stash_fetched terminal x s) with
      | inl s => stash_rulesets terminal contents s
      | inr e => inr e
      end
  end.

(** src/src/generator/config/ruleconvert.cpp:413-591 [rulesetToStash]
    The new base and the counts, or the error, with which the base stays. *)
Definition rulesetToStash (base_rule : list (str * Yaml)) (contents : list RulesetContent) (overwrite_original_rules : bool)
    : (list (str * Yaml) * StashRuleConversionStats) + str :=
  match (match yaml_get "rules" base_rule with
         | Some (YSequence entries) => if overwrite_original_rules then Some ([], []) else base_rules entries false [] []
         | _ => Some ([], [])
         end) with
  | None => inr (fail_text ("the selected Stash base contains a non-scalar rule"%str, "所选 Stash 基础模板包含非标量规则"%str))
  | Some (rules, terminal_rules) =>
      if negb (max_allowed_rules =? 0) && (max_allowed_rules <? length rules + length terminal_rules) then
        inr (fail_text ("the selected Stash base exceeds max_allowed_rules"%str, "所选 Stash 基础模板超过 max_allowed_rules 限制"%str))
      else match yaml_get "rule-providers" base_rule with
      | Some (YScalar _) | Some (YSequence _) =>
          inr (fail_text ("the selected Stash base has an invalid rule-providers field"%str,
                          "所选 Stash 基础模板的 rule-providers 字段无效"%str))
      | field =>
          let providers := match field with Some (YMap l) => l | _ => [] end in
          match base_providers providers ∅ ∅ with
          | inr e => inr (fail_text e)
          | inl (names, paths) =>
              match stash_rulesets (length terminal_rules) contents (mkState rules providers names paths 0 0 0 0) with
              | inr e => inr (fail_text e)
              | inl s =>
                  inl (yaml_set "rule-providers" (YMap (st_providers s))
                         (yaml_set "rules" (YSequence (st_rules s ++ terminal_rules)) base_rule),
                       mkStats (length contents) (inline_count s) (expanded_count s) (provider_count s)
                         (length (st_providers s)) (rule_count s) (provider_count s) 0)
              end
          end
      end
  end.

End Stash.

(** ** Lemmas: maps of YAML *)

Lemma yaml_get_cons k k' v l : yaml_get k ((k', v) :: l) = if bool_decide (k' = k) then Some v else yaml_get k l.
Proof.
  unfold yaml_get. simpl. destruct (decide (k' = k)) as [->|Hne].
  - by rewrite bool_decide_true.
  - rewrite bool_decide_false by done. by destruct (list_find _ l).
Qed.

Lemma yaml_get_set k v l : yaml_get k (yaml_set k v l) = Some v.
Proof.
  induction l as [|[k' v'] l IH]; simpl.
  - by rewrite yaml_get_cons, bool_decide_true.
  - destruct (bool_decide (k' = k)) eqn:E; rewrite yaml_get_cons, E; done.
Qed.

Lemma yaml_get_set_ne k k' v l : k <> k' -> yaml_get k (yaml_set k' v l) = yaml_get k l.
Proof.
  intros Hne. induction l as [|[j w] l IH]; simpl.
  - by rewrite yaml_get_cons, bool_decide_false.
  - destruct (bool_decide (j = k')) eqn:E; rewrite !yaml_get_cons; bools; subst; [|by rewrite IH].
    by rewrite bool_decide_false.
Qed.

Lemma yaml_set_new k v l : k ∉ l.*1 -> yaml_set k v l = l ++ [(k, v)].
Proof.
  induction l as [|[j w] l IH]; simpl; [done|]. intros [Hj Hl]%not_elem_of_cons.
  rewrite bool_decide_false by congruence. by rewrite IH.
Qed.

(** ** Lemmas: providers *)

(** The path of a provider, in lower case. *)
Definition provider_path (p : str * Yaml) : option str :=
  match p.2 with
  | YMap fields => match yaml_get "path" fields with Some (YScalar path) => Some (toLower path) | _ => None end
  | _ => None
  end.

(** Names and paths are known and distinct. *)
Definition providers_ok (ps : list (str * Yaml)) (names paths : gset str) : Prop :=
  NoDup (toLower <$> ps.*1) /\ (forall k, k ∈ names <-> k ∈ toLower <$> ps.*1) /\
  NoDup (omap provider_path ps) /\ (forall p, p ∈ paths <-> p ∈ omap provider_path ps).

Lemma providers_add ps names paths name item :
  providers_ok ps names paths -> toLower name ∉ names ->
  (forall p, provider_path (name, item) = Some p -> p ∉ paths) ->
  providers_ok (ps ++ [(name, item)]) ({[toLower name]} ∪ names)
    (match provider_path (name, item) with Some p => {[p]} ∪ paths | None => paths end).
Proof.
  intros (H1 & H2 & H3 & H4) Hn Hp. unfold providers_ok. rewrite !fmap_app, omap_app. simpl.
  split_and!.
  - apply NoDup_app. split_and!; [done| |apply NoDup_singleton].
    intros x Hx Hx1%list_elem_of_singleton. subst. by apply Hn, H2.
  - intros k. rewrite elem_of_app, elem_of_union, elem_of_singleton, list_elem_of_singleton, H2. tauto.
  - destruct (provider_path (name, item)) as [p|] eqn:E; [|by rewrite app_nil_r].
    apply NoDup_app. split_and!; [done| |apply NoDup_singleton].
    intros x Hx Hx1%list_elem_of_singleton. subst. by apply (Hp p), H4.
  - intros k. rewrite elem_of_app, <- H4. destruct (provider_path (name, item)) as [p|]; set_solver.
Qed.

Lemma base_providers_ok entries ps names paths names' paths' :
  providers_ok ps names paths -> base_providers entries names paths = inl (names', paths') ->
  providers_ok (ps ++ entries) names' paths'.
Proof.
  revert ps names paths. induction entries as [|[name item] entries IH]; intros ps names paths Hok; cbn [base_providers].
  - intros [= <- <-]. by rewrite app_nil_r.
  - destruct item as [| | |fields]; try done. destruct (bool_decide (toLower name ∈ names)) eqn:Hn; [done|]. bools. cbv zeta.
    intros H. replace (ps ++ (name, YMap fields) :: entries) with ((ps ++ [(name, YMap fields)]) ++ entries)
      by (by rewrite <- app_assoc).
    pose proof (providers_add ps names paths name (YMap fields) Hok Hn) as Hadd. unfold provider_path in Hadd. simpl in Hadd.
    destruct (yaml_get "path" fields) as [[|path| |]|] eqn:Hp; try done;
      try (eapply IH; [|exact H]; by apply Hadd).
    destruct (bool_decide (toLower path ∈ paths)) eqn:Hin; [done|]. bools.
    eapply IH; [|exact H]. apply Hadd. intros p [= <-]. done.
Qed.

Lemma item_path name c x path : provider_path (name, provider_item c x path) = Some (toLower path).
Proof. done. Qed.

(** ** Lemmas: the loops *)

Section Wellformed.
Context (regFind regMatch : str -> str -> bool) (regReplace : str -> str -> str -> bool -> bool -> str).
Context (getMD5 : str -> str) (cache : str -> option str) (max : nat) (initial_rules : list Yaml) (terminal : nat).

Notation at_limit := (at_limit max).
Notation stash_lines := (stash_lines max terminal).
Notation stash_fetched := (stash_fetched regFind regMatch regReplace getMD5 cache max terminal).
Notation stash_rulesets := (stash_rulesets regFind regMatch regReplace getMD5 cache max terminal).

(** What the generator keeps true. *)
Record state_ok (s : StashState) : Prop := {
  ok_providers : providers_ok (st_providers s) (provider_names s) (provider_paths s);
  ok_limit : max <> 0 -> length (st_rules s) + terminal <= max;
  ok_count : exists generated, st_rules s = initial_rules ++ generated /\ length generated = rule_count s
}.

Definition grows (s s' : StashState) : Prop :=
  st_rules s `prefix_of` st_rules s' /\ st_providers s `prefix_of` st_providers s'.

#[local] Instance grows_preorder : PreOrder grows.
Proof. split; [by split|]. intros a b c [? ?] [? ?]. split; by etrans. Qed.

(** The provider of a source and the rule that refers to it. *)
Definition referenced (x : RulesetContent) (s : StashState) : Prop :=
  exists name c, inferStashNativeRulesetContract x = Some c /\
    (name, provider_item c x ("./rules/" ++ name ++ extension c)) ∈ st_providers s /\
    YScalar (buildClashRuleSetReference name (rule_group x) (rule_type x) (content_options x)) ∈ st_rules s.

Lemma referenced_grows x s s' : grows s s' -> referenced x s -> referenced x s'.
Proof.
  intros [[r Hr] [p Hp]] (name & c & Hc & H1 & H2). exists name, c. rewrite Hr, Hp, !elem_of_app. auto.
Qed.

Lemma below_limit s : at_limit terminal s = false -> max <> 0 -> S (length (st_rules s)) + terminal <= max.
Proof.
  unfold StashRules.at_limit. intros H Hm. apply andb_false_iff in H as [H|H].
  - apply negb_false_iff, Nat.eqb_eq in H. lia.
  - apply Nat.leb_gt in H. lia.
Qed.

(** One more rule. *)
Lemma ok_add s rule ps names paths i e p :
  state_ok s -> at_limit terminal s = false -> providers_ok ps names paths ->
  state_ok (mkState (st_rules s ++ [rule]) ps names paths i e p (S (rule_count s))).
Proof.
  intros [_ _ (g & Hg & Hlen)] Hl Hp. split; simpl; [done|..].
  - intros Hm. rewrite length_app. simpl. pose proof (below_limit _ Hl Hm). lia.
  - exists (g ++ [rule]). rewrite Hg, <- app_assoc, length_app. simpl. split; [done|lia].
Qed.

Lemma stash_native_ok x s s' :
  state_ok s -> at_limit terminal s = false -> stash_native x s = inl s' ->
  state_ok s' /\ grows s s' /\ referenced x s'.
Proof.
  intros Hok Hl. unfold stash_native. destruct (inferStashNativeRulesetContract x) as [c|] eqn:Hc; [|done].
  destruct (_ && _); [|done]. cbv zeta. destruct (reserve_loop _ _ _ _ _) as [[name names]|] eqn:Hr; [|done].
  apply reserve_loop_Some in Hr as (k & _ & _ & Hnew & ->).
  set (path := "./rules/" ++ name ++ extension c).
  destruct (bool_decide (toLower path ∈ provider_paths s)) eqn:Hp; [done|]. bools. intros [= <-].
  pose proof (ok_providers _ Hok) as Hps.
  assert (Hset : yaml_set name (provider_item c x path) (st_providers s) = st_providers s ++ [(name, provider_item c x path)]).
  { apply yaml_set_new. intros Hin. apply Hnew. destruct Hps as (_ & -> & _). by apply list_elem_of_fmap_2. }
  rewrite Hset. split_and!.
  - apply ok_add; [done..|]. eapply (providers_add _ _ _ name (provider_item c x path)); [done..|].
    rewrite item_path. by intros p [= <-].
  - split; simpl; by apply prefix_app_r.
  - exists name, c. simpl. rewrite !elem_of_app, !list_elem_of_singleton. auto.
Qed.

Lemma stash_lines_ok x lines emitted s s' b :
  state_ok s -> stash_lines x lines emitted s = inl (s', b) -> state_ok s' /\ grows s s'.
Proof.
  revert emitted s. induction lines as [|l lines IH]; intros emitted s Hok; cbn [StashRules.stash_lines].
  - by intros [= <- <-].
  - destruct (ignored _); [by apply IH|]. destruct (normalizeStashRule _ _ _) as [r|]; [|done].
    destruct (at_limit terminal s) eqn:Hl; [done|]. intros H. apply IH in H as [H1 H2]; [split; [done|]|].
    + etrans; [|exact H2]. split; simpl; [by apply prefix_app_r|done].
    + apply ok_add; [done..|]. apply Hok.
Qed.

Lemma stash_fetched_ok x s s' : state_ok s -> stash_fetched x s = inl s' -> state_ok s' /\ grows s s'.
Proof.
  intros Hok. unfold StashRules.stash_fetched. destruct (negb _); [done|]. destruct (bool_decide (rule_content x = [])); [done|].
  cbv zeta. destruct (StashRules.stash_lines _ _ _ _ _ _) as [[s1 []]|e] eqn:H; [|done..]. intros [= <-].
  apply stash_lines_ok in H as [H1 [H2 H3]]; [split; [done|by split]|].
  destruct Hok. by split.
Qed.

Lemma stash_rulesets_ok contents s s' :
  state_ok s -> stash_rulesets contents s = inl s' ->
  state_ok s' /\ grows s s' /\ forall x, x ∈ contents -> delivery x = NativeStashProvider -> referenced x s'.
Proof.
  revert s. induction contents as [|x contents IH]; intros s Hok; cbn [StashRules.stash_rulesets].
  - intros [= <-]. split_and!; [done..|]. by intros x ?%not_elem_of_nil.
  - destruct (at_limit terminal s) eqn:Hl; [done|].
    destruct (bool_decide (delivery x = NativeStashProvider)) eqn:Hd; bools.
    + destruct (stash_native x s) as [s1|] eqn:Hs; [|done]. intros H.
      destruct (stash_native_ok _ _ _ Hok Hl Hs) as (H1 & H2 & H3). destruct (IH _ H1 H) as (H4 & H5 & H6).
      split_and!; [done|by etrans|]. intros y [->|Hy]%elem_of_cons Hn; [by eapply referenced_grows|auto].
    + destruct (stash_fetched x s) as [s1|] eqn:Hs; [|done]. intros H.
      destruct (stash_fetched_ok _ _ _ Hok Hs) as (H1 & H2). destruct (IH _ H1 H) as (H4 & H5 & H6).
      split_and!; [done|by etrans|]. intros y [->|Hy]%elem_of_cons Hn; [done|auto].
Qed.
End Wellformed.

Lemma base_rules_split entries seen rs ts rs' ts' :
  base_rules entries seen rs ts = Some (rs', ts') ->
  (seen = false -> ts = []) -> rs' ++ ts' = rs ++ ts ++ entries.
Proof.
  revert seen rs ts. induction entries as [|[|v| |] entries IH]; intros seen rs ts; cbn [base_rules]; try done.
  - intros [= <- <-] _. by rewrite app_nil_r.
  - cbv zeta. set (b := _ || _ || _). destruct b eqn:Hb; intros H Hs.
    + rewrite (IH _ _ _ H) by done. by rewrite <- app_assoc.
    + assert (seen = false) as -> by (unfold b in Hb; by destruct seen).
      rewrite (IH _ _ _ H) by auto. rewrite Hs by done. by rewrite <- app_assoc.
Qed.

(** A rule of the base that matches everything. *)
Definition terminal_entry (entry : Yaml) : bool :=
  match entry with
  | YScalar s =>
      let value := trimWhitespace s true true in
      let type := toUpper (trimWhitespace (match find_char "," value 0 with
                                           | Some separator => substr value 0 separator | None => value end) true true) in
      bool_decide (type = "MATCH"%str) || bool_decide (type = "FINAL"%str)
  | _ => false
  end.

Lemma base_rules_terminal entries seen rs ts rs' ts' :
  base_rules entries seen rs ts = Some (rs', ts') ->
  Forall (fun e => terminal_entry e = false) rs ->
  (if seen then exists e rest, ts = e :: rest /\ terminal_entry e = true else ts = []) ->
  Forall (fun e => terminal_entry e = false) rs' /\ match ts' with [] => True | e :: _ => terminal_entry e = true end.
Proof.
  revert seen rs ts. induction entries as [|[|v| |] entries IH]; intros seen rs ts; cbn [base_rules]; try done.
  - intros [= <- <-] Hrs Hts. split; [done|]. destruct seen; [by destruct Hts as (e & rest & -> & ?)|by subst].
  - cbv zeta. intros H Hrs Hts. revert H. set (term := terminal_entry (YScalar v)).
    assert (Ht : term = terminal_entry (YScalar v)) by done. unfold terminal_entry in term. cbv zeta in term.
    match goal with |- (if ?b then _ else _) = _ -> _ => replace b with (seen || term) by (unfold term; by rewrite orb_assoc) end.
    destruct seen; cbn [orb].
    + intros H. apply (IH _ _ _ H); [done|]. destruct Hts as (e & rest & -> & He). by exists e, (rest ++ [YScalar v]).
    + subst ts. destruct term; intros H; apply (IH _ _ _ H); try done; [by exists (YScalar v), []|].
      apply Forall_app. split; [done|]. by constructor.
Qed.

(** C6: a successful conversion for Stash: the new base has the rules of the
    old base (or none of them) around the generated ones: in front those
    before its first rule MATCH or FINAL, behind that rule and all after it;
    the limit on rules holds; names of providers, and paths of
    providers, are distinct without regard to case; and every source to be
    delivered as a native provider has a provider with its address and a rule
    that refers to it. *)
Theorem stash_rules_wellformed regFind regMatch regReplace getMD5 cache max base contents overwrite base' stats :
  rulesetToStash regFind regMatch regReplace getMD5 cache max base contents overwrite = inl (base', stats) ->
  exists front generated back ps,
    yaml_get "rules" base' = Some (YSequence (front ++ generated ++ back)) /\
    yaml_get "rule-providers" base' = Some (YMap ps) /\
    front ++ back = (if overwrite then [] else match yaml_get "rules" base with Some (YSequence l) => l | _ => [] end) /\
    Forall (fun e => terminal_entry e = false) front /\ (match back with [] => True | e :: _ => terminal_entry e = true end) /\
    length generated = emitted_rules stats /\
    (max <> 0 -> length (front ++ generated ++ back) <= max) /\
    NoDup (toLower <$> ps.*1) /\ NoDup (omap provider_path ps) /\
    forall x, x ∈ contents -> delivery x = NativeStashProvider ->
      exists name c, inferStashNativeRulesetContract x = Some c /\
        (name, provider_item c x ("./rules/" ++ name ++ extension c)) ∈ ps /\
        YScalar (buildClashRuleSetReference name (rule_group x) (rule_type x) (content_options x)) ∈ front ++ generated.
Proof.
  unfold rulesetToStash. destruct (match yaml_get "rules" base with Some _ => _ | None => _ end) as [[front back]|] eqn:Hb; [|done].
  destruct (_ && _) eqn:Hlim; [done|]. intros H.
  assert (exists ps0 names paths s,
    base_providers ps0 ∅ ∅ = inl (names, paths) /\
    stash_rulesets regFind regMatch regReplace getMD5 cache max (length back) contents (mkState front ps0 names paths 0 0 0 0) = inl s /\
    base' = yaml_set "rule-providers" (YMap (st_providers s)) (yaml_set "rules" (YSequence (st_rules s ++ back)) base) /\
    emitted_rules stats = rule_count s) as (ps0 & names & paths & s & Hp & Hs & -> & Hcount).
  { destruct (yaml_get "rule-providers" base) as [[| | |l]|]; try done;
      (match type of H with context [base_providers ?l ∅ ∅] => destruct (base_providers l ∅ ∅) as [[names paths]|] eqn:Hp end; [|done]);
      (destruct (stash_rulesets _ _ _ _ _ _ _ _ _) as [s|] eqn:Hs in H; [|done]); injection H as <- <-;
      by repeat eexists. }
  assert (Hok0 : state_ok max front (length back) (mkState front ps0 names paths 0 0 0 0)).
  { split; simpl.
    - apply (base_providers_ok ps0 [] ∅ ∅); [|done]. split_and!; try apply NoDup_nil_2; set_solver.
    - intros Hm. apply andb_false_iff in Hlim as [Hl|Hl]; [by apply negb_false_iff, Nat.eqb_eq in Hl|].
      by apply Nat.ltb_ge in Hl.
    - exists []. by rewrite app_nil_r. }
  destruct (stash_rulesets_ok _ _ _ _ _ _ _ _ _ _ _ Hok0 Hs) as ([(H1 & _ & H3 & _) H5 (g & Hg & Hlen)] & _ & Href).
  exists front, g, back, (st_providers s). rewrite Hg in *. split_and!; try done.
  - rewrite yaml_get_set_ne by done. by rewrite yaml_get_set, <- app_assoc.
  - by rewrite yaml_get_set.
  - destruct (yaml_get "rules" base) as [[| |l|]|], overwrite; simplify_eq; try done.
    apply base_rules_split in Hb; [|done]. by simpl in Hb.
  - destruct (yaml_get "rules" base) as [[| |l|]|], overwrite; simplify_eq; try constructor.
    by apply (base_rules_terminal _ _ _ _ _ _ Hb).
  - destruct (yaml_get "rules" base) as [[| |l|]|], overwrite; simplify_eq; try done.
    by apply (base_rules_terminal _ _ _ _ _ _ Hb).
  - congruence.
  - intros Hm. specialize (H5 Hm). rewrite !length_app in *. lia.
  - intros x Hx Hd. destruct (Href x Hx Hd) as (name & c & ? & ? & Hr). rewrite Hg in Hr. eauto 10.
Qed.

(** ** Lemmas: the search for a name *)

(** The search for a provider's name always succeeds. *)
Lemma stash_name_found (stem : str) (names : gset str) :
  (Z.of_nat (size names) < 2 ^ 63)%Z ->
  is_Some (reserve_loop toLower (stash_candidate stem) (S (size names)) 1 names).
Proof.
  intros Hsize. apply reserve_loop_total. intros x y Hx Hy. unfold stash_candidate.
  assert (Hlen : forall i, 0 < length (suffix i)) by (intros i; unfold suffix; rewrite length_app; simpl; lia).
  assert (Hu : forall i, (1 <= i <= 1 + Z.of_nat (size names))%Z -> is_u64 i) by (unfold is_u64; lia).
  destruct (Z.ltb_spec x 2), (Z.ltb_spec y 2); intros Heq; try lia.
  - apply (f_equal length) in Heq. unfold toLower in Heq. rewrite !length_fmap, length_app in Heq. specialize (Hlen y). lia.
  - apply (f_equal length) in Heq. unfold toLower in Heq. rewrite !length_fmap, length_app in Heq. specialize (Hlen x). lia.
  - rewrite !toLower_app, !toLower_suffix in Heq by auto. eapply suffix_inj in Heq; auto.
Qed.

(** ** An example *)

Definition example_source (group path : str) : RulesetContent :=
  mkContent group path path RULESET_CLASH_DOMAIN [] 86400 default_options NativeStashProvider.
Definition example_base : list (str * Yaml) :=
  [("rules"%str, YSequence [YScalar "DOMAIN,x,PROXY"; YScalar "MATCH,PROXY"])].
Definition example_inline : RulesetContent :=
  mkContent "DIRECT" [] [] RULESET_SURGE "[]GEOIP,CN,no-resolve" 0 default_options ServerFetched.

Lemma example_stash :
  rulesetToStash (fun _ _ => false) (fun _ _ => false) (fun s _ _ _ _ => s) (fun s => s) (fun _ => None) 9
    example_base [example_source "A" "https://h/Ads.yaml"; example_source "B" "https://h/ads.mrs"; example_inline] false =
  inl ([("rules"%str, YSequence [YScalar "DOMAIN,x,PROXY"; YScalar "RULE-SET,Ads,A"; YScalar "RULE-SET,ads_2,B";
                                 YScalar "GEOIP,CN,DIRECT,no-resolve"; YScalar "MATCH,PROXY"]);
        ("rule-providers"%str, YMap
          [("Ads"%str, YMap [("behavior"%str, YScalar "domain"); ("format"%str, YScalar "yaml");
              ("url"%str, YScalar "https://h/Ads.yaml"); ("path"%str, YScalar "./rules/Ads.yaml"); ("interval"%str, YScalar "86400")]);
           ("ads_2"%str, YMap [("behavior"%str, YScalar "domain"); ("format"%str, YScalar "mrs");
              ("url"%str, YScalar "https://h/ads.mrs"); ("path"%str, YScalar "./rules/ads_2.mrs"); ("interval"%str, YScalar "86400")])])],
       mkStats 3 1 0 2 2 3 2 0).
Proof. vm_compute. reflexivity. Qed.

Lemma stash_rules_wellformed_witness : exists ps : list (str * Yaml), NoDup (toLower <$> ps.*1) /\ ps <> [].
Proof.
  destruct (stash_rules_wellformed _ _ _ _ _ _ _ _ _ _ _ example_stash) as (f & g & b & ps & _ & _ & _ & _ & _ & _ & _ & Hnd & _ & Href).
  exists ps. split; [exact Hnd|]. intros ->.
  destruct (Href (example_source "A" "https://h/Ads.yaml") (list_elem_of_here _ _) eq_refl) as (n & c & _ & Hin & _).
  by apply not_elem_of_nil in Hin.
Defined.
