(* ===== verification/Regexp.v ===== *)
(** * utils/regexp.cpp: regular expressions

    The engine is a library (jpcre2 over PCRE2), so it is the class [Pcre]:
    what compiling, matching and replacing answer.  The wrappers of the file
    are defined over it. *)

From S2P Require Import Prelude Str.
Open Scope nat_scope.

(** The options the file passes: the modifier m is [MULTILINE]. *)
Inductive Pcre2Option := MULTILINE | ANCHORED | ENDANCHORED | UTF | ALT_BSUX.
#[export] Instance Pcre2Option_eq_dec : EqDecision Pcre2Option.
Proof. solve_decision. Defined.

(** A pattern is compiled with options.  [count] is the number of matches of
    a global search, [substrings] the numbered substrings of each match in
    order, and [substitute] the replacement of the first match or of all. *)
Class Pcre := {
  compiles : list Pcre2Option -> str -> bool;
  count : list Pcre2Option -> str -> str -> nat;
  substrings : list Pcre2Option -> str -> str -> list (list str);
  substitute : list Pcre2Option -> str -> bool -> str -> str -> str
}.

Section Regexp.
Context `{!Pcre}.

(** src/src/utils/regexp.h:8-11 *)
Inductive CompiledRegexMode := Search | FullMatch.

(** src/src/utils/regexp.cpp:135-139 [CompiledRegex::Impl] *)
Record CompiledRegex := mkRegex { options : list Pcre2Option; pattern : str; valid_ : bool }.

(** src/src/utils/regexp.cpp:141-155 [CompiledRegex::CompiledRegex] *)
Definition compileRegex (pattern : str) (mode : CompiledRegexMode) : CompiledRegex :=
  let options := match mode with FullMatch => [MULTILINE; ANCHORED; ENDANCHORED; UTF] | Search => [MULTILINE; UTF; ALT_BSUX] end in
  mkRegex options pattern (compiles options pattern).

(** src/src/utils/regexp.cpp:161-164 [CompiledRegex::valid] *)
Definition valid (r : CompiledRegex) : bool := valid_ r.

(** src/src/utils/regexp.cpp:166-169 [CompiledRegex::matches] *)
Definition matches (r : CompiledRegex) (subject : str) : bool :=
  valid r && negb (count (options r) (pattern r) subject =? 0).

(** src/src/utils/regexp.cpp:171-178 *)
Definition regMatch (src match_ : str) : bool :=
  let options := [MULTILINE; ANCHORED; ENDANCHORED; UTF] in
  if negb (compiles options match_) then false else negb (count options match_ src =? 0).

(** src/src/utils/regexp.cpp:180-187 *)
Definition regFind (src match_ : str) : bool :=
  let options := [MULTILINE; UTF; ALT_BSUX] in
  if negb (compiles options match_) then false else negb (count options match_ src =? 0).

(** src/src/utils/regexp.cpp:189-196
    The modifier m names the option the call adds anyway. *)
Definition regReplace (src match_ rep : str) (global multiline : bool) : str :=
  let options := (if multiline then [MULTILINE] else []) ++ [UTF; MULTILINE; ALT_BSUX] in
  if negb (compiles options match_) then src else substitute options match_ global src rep.

(** src/src/utils/regexp.cpp:198-203 *)
Definition regValid (reg : str) : bool := compiles [UTF; ALT_BSUX] reg.

(** src/src/utils/regexp.cpp:240-252 [regGetAllMatch, loop]
    One turn; [fuel] bounds the number of turns. *)
Fixpoint collect_loop (fuel : nat) (vec_num : list (list str)) (begin match_index index : nat) : list str :=
  match fuel with
  | O => []
  | S fuel =>
      match vec_num !! match_index with
      | None => []
      | Some groups =>
          match groups !! index with
          | None => collect_loop fuel vec_num begin (S match_index) begin
          | Some s => s :: collect_loop fuel vec_num begin match_index (S index)
          end
      end
  end.

(** src/src/utils/regexp.cpp:227-255 *)
Definition regGetAllMatch (src match_ : str) (group_only : bool) : list str :=
  let options := [MULTILINE; UTF; ALT_BSUX] in
  let vec_num := if compiles options match_ then substrings options match_ src else [] in
  if length vec_num =? 0 then []
  else
    let begin := if group_only then 1 else 0 in
    collect_loop (S (length vec_num + length (concat vec_num))) vec_num begin 0 begin.

(** src/src/utils/regexp.cpp:205-225
    The texts stored into the arguments in order, or [None] for the result
    -1, where no argument is written. *)
Definition regGetMatch (src match_ : str) (group_count : nat) : option (list str) :=
  let result := regGetAllMatch src match_ false in
  if bool_decide (result = []) then None else Some (take group_count result).

(** src/src/utils/regexp.cpp:259-262 *)
Definition regTrim (src : str) : str := regReplace src "^\s*([\s\S]*)\s*$" "$1" false false.

(** ** Lemmas *)

(** A compiled expression answers what the wrapper that compiles on every
    call answers. *)
Lemma matches_search p s : matches (compileRegex p Search) s = regFind s p.
Proof. unfold matches, regFind, valid. simpl. by destruct (compiles _ p). Qed.

Lemma matches_full p s : matches (compileRegex p FullMatch) s = regMatch s p.
Proof. unfold matches, regMatch, valid. simpl. by destruct (compiles _ p). Qed.

(** What is left to collect at a position. *)
Definition remaining (begin index : nat) (l : list (list str)) : list str :=
  match l with [] => [] | g :: rest => drop index g ++ concat (drop begin <$> rest) end.

Lemma remaining_begin begin l : remaining begin begin l = concat (drop begin <$> l).
Proof. by destruct l. Qed.

Lemma collect_loop_spec fuel vec begin mi index :
  length (remaining begin index (drop mi vec)) + length (drop mi vec) < fuel ->
  collect_loop fuel vec begin mi index = remaining begin index (drop mi vec).
Proof.
  revert mi index. induction fuel as [|fuel IH]; intros mi index Hf; [lia|]. simpl.
  destruct (vec !! mi) as [g|] eqn:Eg.
  - rewrite (drop_S _ _ _ Eg) in *. simpl in *. destruct (g !! index) as [s|] eqn:Es.
    + rewrite (drop_S _ _ _ Es) in *. simpl in *. f_equal. rewrite IH; rewrite (drop_S _ _ _ Eg); simpl; [done|lia].
    + apply lookup_ge_None in Es. rewrite drop_ge in * by done. simpl in *.
      rewrite IH; rewrite remaining_begin; [done|lia].
  - apply lookup_ge_None in Eg. by rewrite drop_ge by done.
Qed.

(** The loop over the matches collects their groups in order. *)
Lemma regGetAllMatch_spec src p group_only :
  regGetAllMatch src p group_only =
  if compiles [MULTILINE; UTF; ALT_BSUX] p
  then concat (drop (if group_only then 1 else 0) <$> substrings [MULTILINE; UTF; ALT_BSUX] p src) else [].
Proof.
  unfold regGetAllMatch. destruct (compiles _ p); [|done].
  set (vec := substrings _ p src). clearbody vec.
  destruct (Nat.eqb_spec (length vec) 0) as [Hz|_]; [by destruct vec|].
  assert (Hlen : forall b l, length (concat (drop b <$> l)) <= length (concat (A:=str) l)).
  { intros b l. induction l as [|x l IH]; csimpl; [done|]. rewrite !length_app, length_drop. lia. }
  rewrite collect_loop_spec; rewrite drop_0, remaining_begin; [done|].
  specialize (Hlen (if group_only then 1 else 0) vec). lia.
Qed.

End Regexp.
