(* ===== verification/NodeSelect.v ===== *)
(** * generator/config/subexport.cpp: selecting and naming nodes

    Range expressions, the matchers of rules such as !!GROUP=..., their
    prepared form that compiles a rule once, the members of a proxy group and
    the names of the nodes in a generated file.  Regular expressions are those
    of [Regexp]; scripts are a parameter. *)

From S2P Require Import Prelude Str StringUtil ProviderName Regexp.
Open Scope nat_scope.

(** ** Nodes *)

(** src/src/parser/config/proxy.h:13-31 *)
Inductive ProxyType :=
  | Unknown | Shadowsocks | ShadowsocksR | VMess | Trojan | Snell | HTTP | HTTPS | SOCKS5 | WireGuard | VLESS
  | Hysteria | Hysteria2 | TUIC | AnyTLS | Naive | Mieru.
#[export] Instance ProxyType_eq_dec : EqDecision ProxyType.
Proof. solve_decision. Defined.

(** src/src/parser/config/proxy.h:43-80 *)
Definition getProxyTypeName (type : ProxyType) : str :=
  match type with
  | Shadowsocks => "SS" | ShadowsocksR => "SSR" | VMess => "VMess" | Trojan => "Trojan" | Snell => "Snell"
  | HTTP => "HTTP" | HTTPS => "HTTPS" | SOCKS5 => "SOCKS5" | WireGuard => "WireGuard" | VLESS => "Vless"
  | Hysteria => "Hysteria" | Hysteria2 => "Hysteria2" | TUIC => "Tuic" | AnyTLS => "AnyTLS" | Naive => "Naive"
  | Mieru => "Mieru" | Unknown => "Unknown"
  end.

(** src/src/parser/config/proxy_utils.h:12-18 [all_types] *)
Definition all_types : list ProxyType :=
  [Shadowsocks; ShadowsocksR; VMess; Trojan; Snell; HTTP; HTTPS; SOCKS5; WireGuard; VLESS; Hysteria; Hysteria2; TUIC;
   AnyTLS; Naive; Mieru].

(** src/src/parser/config/proxy_utils.h:11-38 *)
Definition getProxyTypeFromString (typeStr : str) : ProxyType :=
  default Unknown (head (filter (fun type => toLower typeStr = toLower (getProxyTypeName type)) all_types)).

(** src/src/parser/config/proxy.h:82-90 [Proxy]
    [rest] stands for the protocol fields, which selection and renaming hand
    on without reading them. *)
Record Proxy {X : Type} := mkProxy {
  Type_ : ProxyType; Id : Z; GroupId : Z; Group : str; Remark : str; Hostname : str; Port : Z; rest : X
}.
Arguments Proxy X : clear implicits.
Arguments mkProxy {X}.

(** The widths of the fields. *)
Definition proxy_ok {X} (node : Proxy X) : Prop :=
  is_u32 (Id node) /\ is_u32 (GroupId node) /\ (0 <= Port node < 2 ^ 16)%Z.

Definition INT_MIN : Z := (- 2 ^ 31)%Z.

Section Select.
Context `{!Pcre} {X : Type}.
Notation Proxy := (Proxy X).

(** ** Range expressions *)

Definition reg_num : str := "-?\d+".
Definition reg_range : str := "(\d+)-(\d+)".
Definition reg_not : str := "\!-?(\d+)".
Definition reg_not_range : str := "\!(\d+)-(\d+)".
Definition reg_less : str := "(\d+)-".
Definition reg_more : str := "(\d+)\+".

(** [regGetMatch(x, re, 3, 0, &a, &b)]: the arguments keep their values when
    nothing is stored into them. *)
Definition match_pair (x re : str) (old : str * str) : str * str :=
  match regGetMatch x re 3 with
  | Some stored => (default old.1 (stored !! 1), default old.2 (stored !! 2))
  | None => old
  end.

(** src/src/generator/config/subexport.cpp:993-1021 [matchRange, one term]
    The two strings live across the loop. *)
Definition range_term (target : Z) (state : bool * (str * str)) (x : str) : bool * (str * str) :=
  let '(m, strs) := state in
  if regMatch x reg_num then (if to_int x INT_MAX =? target then true else m, strs)%Z
  else if regMatch x reg_range then
    let strs := match_pair x reg_range strs in
    let range_begin := to_int strs.1 INT_MAX in
    let range_end := to_int strs.2 INT_MIN in
    (if (range_begin <=? target) && (target <=? range_end) then true else m, strs)%Z
  else if regMatch x reg_not then
    (if to_int (regReplace x reg_not "$1" true true) INT_MAX =? target then false else true, strs)%Z
  else if regMatch x reg_not_range then
    let strs := match_pair x reg_range strs in
    let range_begin := to_int strs.1 INT_MAX in
    let range_end := to_int strs.2 INT_MIN in
    (if (range_begin <=? target) && (target <=? range_end) then false else true, strs)%Z
  else if regMatch x reg_less then
    (if target <=? to_int (regReplace x reg_less "$1" true true) INT_MAX then true else m, strs)%Z
  else if regMatch x reg_more then
    (if to_int (regReplace x reg_more "$1" true true) INT_MIN <=? target then true else m, strs)%Z
  else state.

(** [split(range, ",")], which ends because the separator is not empty. *)
Definition commas (range : str) : list str := default [] (split range ",").

(** src/src/generator/config/subexport.cpp:984-1023 *)
Definition matchRange (range : str) (target : Z) : bool :=
  (foldl (range_term target) (false, ([], [])) (commas range)).1.

(** src/src/generator/config/subexport.cpp:867-880 [TermKind, Term] *)
Inductive TermKind := Equal | Range | NotEqual | NotRange | LessOrEqual | GreaterOrEqual.
Record Term := mkTerm { kind : TermKind; first : Z; second : Z }.

(** src/src/generator/config/subexport.cpp:800-832 [PreparedRangeMatcher, one value] *)
Definition prepare_term (state : list Term * (str * str)) (value : str) : list Term * (str * str) :=
  let '(terms, strs) := state in
  if regMatch value reg_num then (terms ++ [mkTerm Equal (to_int value INT_MAX) 0], strs)
  else if regMatch value reg_range then
    let strs := match_pair value reg_range strs in
    (terms ++ [mkTerm Range (to_int strs.1 INT_MAX) (to_int strs.2 INT_MIN)], strs)
  else if regMatch value reg_not then
    (terms ++ [mkTerm NotEqual (to_int (regReplace value reg_not "$1" true true) INT_MAX) 0], strs)
  else if regMatch value reg_not_range then
    let strs := match_pair value reg_range strs in
    (terms ++ [mkTerm NotRange (to_int strs.1 INT_MAX) (to_int strs.2 INT_MIN)], strs)
  else if regMatch value reg_less then
    (terms ++ [mkTerm LessOrEqual (to_int (regReplace value reg_less "$1" true true) INT_MAX) 0], strs)
  else if regMatch value reg_more then
    (terms ++ [mkTerm GreaterOrEqual (to_int (regReplace value reg_more "$1" true true) INT_MIN) 0], strs)
  else state.

(** src/src/generator/config/subexport.cpp:791-833 [PreparedRangeMatcher] *)
Definition prepareRange (range : str) : list Term := (foldl prepare_term ([], ([], [])) (commas range)).1.

(** src/src/generator/config/subexport.cpp:837-862 [matches, one term] *)
Definition term_matches (target : Z) (m : bool) (t : Term) : bool :=
  match kind t with
  | Equal => if first t =? target then true else m
  | Range => if (first t <=? target) && (target <=? second t) then true else m
  | NotEqual => negb (first t =? target)
  | NotRange => negb ((first t <=? target) && (target <=? second t))
  | LessOrEqual => if target <=? first t then true else m
  | GreaterOrEqual => if first t <=? target then true else m
  end%Z.

(** src/src/generator/config/subexport.cpp:835-864 [PreparedRangeMatcher::matches] *)
Definition range_matches (terms : list Term) (target : Z) : bool := foldl (term_matches target) false terms.

Lemma range_matches_snoc terms t target :
  range_matches (terms ++ [t]) target = term_matches target (range_matches terms target) t.
Proof. unfold range_matches. by rewrite foldl_app. Qed.

Lemma prepare_term_matches target terms strs x :
  let p := prepare_term (terms, strs) x in
  range_term target (range_matches terms target, strs) x = (range_matches p.1 target, p.2).
Proof.
  cbv zeta. unfold prepare_term, range_term.
  destruct (regMatch x reg_num); [|destruct (regMatch x reg_range); [|destruct (regMatch x reg_not);
    [|destruct (regMatch x reg_not_range); [|destruct (regMatch x reg_less); [|destruct (regMatch x reg_more); [|done]]]]]];
    cbv zeta; cbn [fst snd]; rewrite range_matches_snoc; unfold term_matches; cbn [kind first second];
    f_equal; by case_match.
Qed.

(** A prepared range answers what [matchRange] answers. *)
Lemma prepareRange_matches range target : range_matches (prepareRange range) target = matchRange range target.
Proof.
  unfold matchRange, prepareRange. change false with (range_matches [] target).
  generalize (@nil Term), (@nil ascii, @nil ascii). induction (commas range) as [|x l IH]; intros terms strs; [done|].
  cbn [foldl]. rewrite prepare_term_matches. destruct (prepare_term (terms, strs) x). apply IH.
Qed.

(** ** Matchers *)

Definition group_regex : str := "^!!(?:GROUP)=(.+?)(?:!!(.*))?$".
Definition groupid_regex : str := "^!!(?:GROUPID|INSERT)=([\d\-+!,]+)(?:!!(.*))?$".
Definition type_regex : str := "^!!(?:TYPE)=(.+?)(?:!!(.*))?$".
Definition port_regex : str := "^!!(?:PORT)=(.+?)(?:!!(.*))?$".
Definition server_regex : str := "^!!(?:SERVER)=(.+?)(?:!!(.*))?$".

(** src/src/generator/config/subexport.cpp:1034-1042 [types]
    [types.at] throws for [Unknown], which its callers exclude. *)
Definition types (t : ProxyType) : str :=
  match t with
  | Shadowsocks => "SS" | ShadowsocksR => "SSR" | VMess => "VMESS" | Trojan => "TROJAN" | Snell => "SNELL"
  | HTTP => "HTTP" | HTTPS => "HTTPS" | SOCKS5 => "SOCKS5" | WireGuard => "WIREGUARD" | VLESS => "VLESS"
  | Hysteria => "HYSTERIA" | Hysteria2 => "HYSTERIA2" | TUIC => "TUIC" | AnyTLS => "ANYTLS" | Naive => "NAIVE"
  | Mieru => "MIERU" | Unknown => []
  end.

(** The conversion of the [uint32_t] product or negation to [int]. *)
Definition group_number (dir : Z) (group : Z) : Z := int32 (u32 (dir * group)).

(** src/src/generator/config/subexport.cpp:1025-1069
    The answer and the new value of [real_rule]. *)
Definition applyMatcher (rule : str) (node : Proxy) : bool * str :=
  if startsWith rule "!!GROUP=" then
    let '(target, ret) := match_pair rule group_regex ([], []) in (regFind (Group node) target, ret)
  else if startsWith rule "!!GROUPID=" || startsWith rule "!!INSERT=" then
    let dir := if startsWith rule "!!INSERT=" then (-1)%Z else 1%Z in
    let '(target, ret) := match_pair rule groupid_regex ([], []) in (matchRange target (group_number dir (GroupId node)), ret)
  else if startsWith rule "!!TYPE=" then
    let '(target, ret) := match_pair rule type_regex ([], []) in
    (if bool_decide (Type_ node = Unknown) then false else regMatch (types (Type_ node)) target, ret)
  else if startsWith rule "!!PORT=" then
    let '(target, ret) := match_pair rule port_regex ([], []) in (matchRange target (Port node), ret)
  else if startsWith rule "!!SERVER=" then
    let '(target, ret) := match_pair rule server_regex ([], []) in (regFind (Hostname node) target, ret)
  else (true, rule).

(** src/src/generator/config/subexport.cpp:942 [PreparedGroupRule::Kind] *)
Inductive Kind := KPlain | KGroup | KGroupId | KInsert | KType | KPort | KServer.

(** src/src/generator/config/subexport.cpp:975-979 [PreparedGroupRule, members] *)
Record PreparedGroupRule := mkPrepared {
  kind_ : Kind; real_rule_ : str; selector_regex_ : option CompiledRegex; range_matcher_ : option (list Term);
  remark_regex_ : option CompiledRegex
}.

(** src/src/generator/config/subexport.cpp:887-929 [PreparedGroupRule::PreparedGroupRule] *)
Definition prepareRule (rule : str) : PreparedGroupRule :=
  let with_regex k re mode :=
    let '(target, real) := match_pair rule re ([], []) in mkPrepared k real (Some (compileRegex target mode)) None None in
  let with_range k re :=
    let '(target, real) := match_pair rule re ([], []) in mkPrepared k real None (Some (prepareRange target)) None in
  if startsWith rule "!!GROUP=" then with_regex KGroup group_regex Search
  else if startsWith rule "!!GROUPID=" || startsWith rule "!!INSERT=" then
    with_range (if startsWith rule "!!INSERT=" then KInsert else KGroupId) groupid_regex
  else if startsWith rule "!!TYPE=" then with_regex KType type_regex FullMatch
  else if startsWith rule "!!PORT=" then with_range KPort port_regex
  else if startsWith rule "!!SERVER=" then with_regex KServer server_regex Search
  else mkPrepared KPlain rule None None None.

(** [regex && regex->matches(s)], and the same for a range. *)
Definition opt_matches (r : option CompiledRegex) (s : str) : bool := match r with Some r => matches r s | None => false end.
Definition opt_range (r : option (list Term)) (n : Z) : bool := match r with Some r => range_matches r n | None => false end.

(** src/src/generator/config/subexport.cpp:944-973 *)
Definition matchesSelector (p : PreparedGroupRule) (node : Proxy) : bool :=
  match kind_ p with
  | KPlain => true
  | KGroup => opt_matches (selector_regex_ p) (Group node)
  | KGroupId => opt_range (range_matcher_ p) (int32 (GroupId node))
  | KInsert => opt_range (range_matcher_ p) (int32 (u32 (- GroupId node)))
  | KType => negb (bool_decide (Type_ node = Unknown)) && opt_matches (selector_regex_ p) (types (Type_ node))
  | KPort => opt_range (range_matcher_ p) (Port node)
  | KServer => opt_matches (selector_regex_ p) (Hostname node)
  end.

(** src/src/generator/config/subexport.cpp:931-939 [PreparedGroupRule::matches]
    The expression for the name is compiled on its first use. *)
Definition rule_matches (p : PreparedGroupRule) (node : Proxy) : bool * PreparedGroupRule :=
  if negb (matchesSelector p node) then (false, p)
  else if bool_decide (real_rule_ p = []) then (true, p)
  else
    let r := default (compileRegex (real_rule_ p) Search) (remark_regex_ p) in
    (matches r (Remark node), mkPrepared (kind_ p) (real_rule_ p) (selector_regex_ p) (range_matcher_ p) (Some r)).

(** ** Members of a group *)

(** src/src/generator/config/subexport.cpp:1160-1169 [groupGenerate, matching nodes] *)
Fixpoint select_loop (prepared : PreparedGroupRule) (seen : gset str) (filtered : list str) (nodelist : list Proxy) :
    list str :=
  match nodelist with
  | [] => filtered
  | x :: nodelist =>
      let '(m, prepared) := rule_matches prepared x in
      if m && negb (bool_decide (Remark x ∈ seen)) then
        select_loop prepared ({[Remark x]} ∪ seen) (filtered ++ [Remark x]) nodelist
      else select_loop prepared seen filtered nodelist
  end.

(** src/src/generator/config/subexport.cpp:1136-1171
    [run_filter] is the text a filter script returns, [None] when it throws. *)
Definition groupGenerate (run_filter : str -> list Proxy -> option str) (rule : str) (nodelist : list Proxy)
    (filtered_nodelist : list str) (add_direct authorized : bool) : list str :=
  if startsWith rule "[]" && add_direct then filtered_nodelist ++ [drop 2 rule]
  else if startsWith rule "script:" && authorized then
    match run_filter (drop 7 rule) nodelist with
    | Some result => default [] (split (regTrim result) ["010"%char])
    | None => filtered_nodelist
    end
  else select_loop (prepareRule rule) (list_to_set filtered_nodelist) filtered_nodelist nodelist.

(** ** Names *)

(** src/src/generator/config/subexport.cpp:1115-1133 [processRemark, free name]
    [cnt] counts from 2 and stays below the number of names in use plus 3. *)
Fixpoint remark_loop (fuel : nat) (remark tempRemark : str) (cnt : Z) (used_remarks : gset str) : option str :=
  match fuel with
  | O => None
  | S fuel =>
      if bool_decide (tempRemark ∈ used_remarks) then
        remark_loop fuel remark (remark ++ " " ++ to_string cnt) (cnt + 1) used_remarks
      else Some tempRemark
  end.

(** src/src/generator/config/subexport.cpp:1113-1134 *)
Definition processRemark (remark : str) (used_remarks : gset str) (proc_comma : bool) : option str :=
  let remark := replace_char "=" "-" remark in
  let remark :=
    if proc_comma && bool_decide (is_Some (find_char "," remark 0)) then "034"%char :: remark ++ ["034"%char] else remark in
  remark_loop (S (S (size used_remarks))) remark remark 2 used_remarks.

(** src/src/generator/config/subexport.cpp:1206-1215 [proxyToClash, naming]
    The naming that every generator repeats: the type in front when asked
    for, a free name, and the name taken once the node is emitted, which the
    rest of the generator decides ([emitted]).  The names of the emitted
    nodes in order. *)
Fixpoint name_nodes (append_proxy_type proc_comma : bool) (nodes : list (Proxy * bool)) (used_remarks : gset str) :
    option (list str) :=
  match nodes with
  | [] => Some []
  | (x, emitted) :: nodes =>
      let remark := if append_proxy_type then "[" ++ getProxyTypeName (Type_ x) ++ "] " ++ Remark x else Remark x in
      name ← processRemark remark used_remarks proc_comma;
      if (emitted : bool) then cons name <$> name_nodes append_proxy_type proc_comma nodes ({[name]} ∪ used_remarks)
      else name_nodes append_proxy_type proc_comma nodes used_remarks
  end.

(** ** Lemmas: prepared rules *)

Lemma int32_u32 z : int32 (u32 z) = int32 z.
Proof. unfold int32, u32. f_equal. by rewrite Z.add_mod_idemp_l. Qed.

(** A node is selected by a rule in the sense of [applyMatcher]. *)
Definition selected (rule : str) (node : Proxy) : bool :=
  let '(ok, real_rule) := applyMatcher rule node in
  ok && (bool_decide (real_rule = []) || regFind (Remark node) real_rule).

Lemma matchesSelector_spec rule node :
  applyMatcher rule node = (matchesSelector (prepareRule rule) node, real_rule_ (prepareRule rule)).
Proof.
  unfold applyMatcher, prepareRule. cbv zeta.
  destruct (startsWith rule "!!GROUP="); [|destruct (startsWith rule "!!GROUPID=" || _);
    [|destruct (startsWith rule "!!TYPE="); [|destruct (startsWith rule "!!PORT=");
    [|destruct (startsWith rule "!!SERVER="); [|done]]]]];
    destruct (match_pair _ _ _) as [target ret]; cbn [matchesSelector].
  - unfold matchesSelector. cbn. by rewrite matches_search.
  - unfold matchesSelector, group_number.
    destruct (startsWith rule "!!INSERT="); cbn [kind_ range_matcher_ opt_range real_rule_];
      rewrite prepareRange_matches, !int32_u32; do 2 f_equal; f_equal; lia.
  - unfold matchesSelector. cbn. rewrite matches_full. by case_bool_decide.
  - unfold matchesSelector. cbn. by rewrite prepareRange_matches.
  - unfold matchesSelector. cbn. by rewrite matches_search.
Qed.

(** The states a prepared rule goes through: at most the expression for the
    name is filled in. *)
Definition prepared_for (rule : str) (p : PreparedGroupRule) : Prop :=
  kind_ p = kind_ (prepareRule rule) /\ real_rule_ p = real_rule_ (prepareRule rule) /\
  selector_regex_ p = selector_regex_ (prepareRule rule) /\ range_matcher_ p = range_matcher_ (prepareRule rule) /\
  (remark_regex_ p = None \/ remark_regex_ p = Some (compileRegex (real_rule_ p) Search)).

Lemma prepareRule_prepared rule : prepared_for rule (prepareRule rule).
Proof.
  split_and!; try done. left. unfold prepareRule. cbv zeta.
  repeat (case_match; [by destruct (match_pair _ _ _)|]). done.
Qed.

Lemma rule_matches_spec rule p node :
  prepared_for rule p ->
  (rule_matches p node).1 = selected rule node /\ prepared_for rule (rule_matches p node).2.
Proof.
  intros Hp. pose proof Hp as (Hk & Hr & Hs & Hm & Hx). unfold selected. rewrite matchesSelector_spec.
  assert (Hsel : matchesSelector p node = matchesSelector (prepareRule rule) node).
  { unfold matchesSelector. by rewrite Hk, Hs, Hm. }
  unfold rule_matches. rewrite <- Hsel, <- Hr. destruct (matchesSelector p node); [|by split]. cbn [negb andb].
  case_bool_decide; [by split|]. cbn [orb]. rewrite <- matches_search.
  assert (default (compileRegex (real_rule_ p) Search) (remark_regex_ p) = compileRegex (real_rule_ p) Search) as ->
    by (by destruct Hx as [-> | ->]).
  split; [done|]. split_and!; try done. by right.
Qed.

(** The loop over the nodes: what it adds, in order and once. *)
Lemma select_loop_spec (rule : str) (nodes : list Proxy) (p : PreparedGroupRule) (filtered : list str) (seen : gset str) :
  prepared_for rule p -> seen = list_to_set filtered ->
  exists added, select_loop p seen filtered nodes = filtered ++ added /\ NoDup added /\
    (forall r, r ∈ added <-> r ∉ filtered /\ exists x, x ∈ nodes /\ selected rule x = true /\ Remark x = r) /\
    added `sublist_of` (Remark <$> filter (fun x => selected rule x = true) nodes).
Proof.
  revert p filtered seen. induction nodes as [|x nodes IH]; intros p filtered seen Hp ->; cbn [select_loop].
  { exists []. rewrite app_nil_r. split_and!; [done|constructor| |constructor].
    intros r. split; [by intros ?%elem_of_nil|]. intros (_ & y & Hy & _). by apply elem_of_nil in Hy. }
  destruct (rule_matches_spec rule p x Hp) as [Hsel Hp']. destruct (rule_matches p x) as [m p']. cbn in Hsel, Hp'. subst m.
  rewrite filter_cons. destruct (selected rule x) eqn:Esel; cbn [andb].
  - rewrite decide_True by done. case_bool_decide as Hin; cbn [negb]; rewrite elem_of_list_to_set in Hin.
    + destruct (IH p' filtered (list_to_set filtered) Hp' eq_refl) as (added & -> & Hnd & Hadd & Hsub).
      exists added. split_and!; [done|done| |by constructor]. intros r. rewrite Hadd. setoid_rewrite elem_of_cons.
      naive_solver.
    + destruct (IH p' (filtered ++ [Remark x]) ({[Remark x]} ∪ list_to_set filtered) Hp') as (added & -> & Hnd & Hadd & Hsub);
        [set_solver|].
      exists (Remark x :: added). rewrite <- app_assoc. split_and!; [done| | |by constructor].
      * constructor; [|done]. rewrite Hadd. set_solver.
      * intros r. rewrite elem_of_cons, Hadd. setoid_rewrite elem_of_cons. setoid_rewrite elem_of_app.
        setoid_rewrite list_elem_of_singleton. destruct (decide (r = Remark x)); naive_solver.
  - rewrite decide_False by done.
    destruct (IH p' filtered (list_to_set filtered) Hp' eq_refl) as (added & -> & Hnd & Hadd & Hsub).
    exists added. split_and!; [done|done| |done]. intros r. rewrite Hadd. setoid_rewrite elem_of_cons. naive_solver congruence.
Qed.

(** ** Lemmas: names *)

Definition numbered (remark : str) (cnt : Z) : str := remark ++ " " ++ to_string cnt.

Lemma remark_loop_reserve fuel remark temp cnt used :
  remark_loop (S fuel) remark temp cnt used =
  if bool_decide (temp ∈ used) then fst <$> reserve_loop id (numbered remark) fuel cnt used else Some temp.
Proof.
  revert temp cnt. induction fuel as [|fuel IH]; intros temp cnt; [by simpl; case_bool_decide|].
  change (remark_loop (S (S fuel)) remark temp cnt used) with
    (if bool_decide (temp ∈ used) then remark_loop (S fuel) remark (numbered remark cnt) (cnt + 1) used else Some temp).
  rewrite IH. cbn [reserve_loop]. unfold id. by repeat case_bool_decide.
Qed.

Lemma numbered_inj remark i j : is_u64 i -> is_u64 j -> numbered remark i = numbered remark j -> i = j.
Proof. unfold numbered. intros Hi Hj Heq. apply app_inv_head in Heq. by apply to_string_inj; [..|injection Heq]. Qed.

Definition no_equals (s : str) : Prop := "="%char ∉ s.

Lemma no_equals_quote s : no_equals s -> no_equals ("034"%char :: s ++ ["034"%char]).
Proof. unfold no_equals. rewrite elem_of_cons, elem_of_app, list_elem_of_singleton. naive_solver. Qed.

Lemma no_equals_numbered s i : is_u64 i -> no_equals s -> no_equals (numbered s i).
Proof.
  unfold no_equals, numbered. intros Hi Hs. rewrite !elem_of_app. intros [?|[Hc|Hc]]; [done| |].
  - by apply list_elem_of_singleton in Hc.
  - destruct (to_string_ok i Hi) as (Hd & _). rewrite Forall_forall in Hd. by apply Hd in Hc.
Qed.

Lemma no_equals_replace s : no_equals (replace_char "=" "-" s).
Proof.
  unfold no_equals, replace_char. intros (c & Heq & _)%list_elem_of_fmap. unfold is_char in Heq. by case_bool_decide.
Qed.

(** A free name is found, and it is one the clients can read. *)
Lemma processRemark_free remark used pc :
  (Z.of_nat (size used) < 2 ^ 31 - 2)%Z ->
  exists name, processRemark remark used pc = Some name /\ name ∉ used /\ no_equals name.
Proof.
  intros Hsize. unfold processRemark. set (r := if _ && _ then _ else _).
  assert (Hr : no_equals r).
  { subst r. pose proof (no_equals_replace remark). split_if; [by apply no_equals_quote|done]. }
  clearbody r. rewrite remark_loop_reserve. case_bool_decide as Hin; [|by eauto].
  destruct (reserve_loop_total id (numbered r) 2 used) as [[name used'] Hres].
  { intros x y Hx Hy Heq. eapply numbered_inj; [..|exact Heq]; unfold is_u64; lia. }
  rewrite Hres. apply reserve_loop_Some in Hres as (k & Hk & -> & Hfree & _).
  exists (numbered r k). split_and!; [done|done|]. apply no_equals_numbered; [unfold is_u64; lia|done].
Qed.

Lemma name_nodes_spec (append pc : bool) (nodes : list (Proxy * bool)) (used : gset str) :
  (Z.of_nat (size used) + Z.of_nat (length nodes) < 2 ^ 31 - 2)%Z ->
  exists names, name_nodes append pc nodes used = Some names /\ NoDup names /\
    length names = length (filter (fun n => n.2 = true) nodes) /\ Forall (fun n => n ∉ used /\ no_equals n) names.
Proof.
  revert used. induction nodes as [|[x emitted] nodes IH]; intros used Hlen; cbn [name_nodes length] in *.
  { exists []. split_and!; [done|constructor|done|constructor]. }
  destruct (processRemark_free (if append then "[" ++ getProxyTypeName (Type_ x) ++ "] " ++ Remark x else Remark x) used pc)
    as (name & -> & Hfree & Heq); [lia|]. cbn [mbind option_bind].
  rewrite filter_cons. destruct emitted; cbn [snd].
  - rewrite decide_True by done.
    destruct (IH ({[name]} ∪ used)) as (names & -> & Hnd & Hl & Hall).
    { rewrite size_union, size_singleton by set_solver. lia. }
    exists (name :: names). split_and!; [done| |by simpl; f_equal|].
    + constructor; [|done]. intros Hin. rewrite Forall_forall in Hall. apply Hall in Hin. set_solver.
    + constructor; [done|]. eapply Forall_impl; [exact Hall|]. set_solver.
  - rewrite decide_False by done. destruct (IH used) as (names & -> & Hnd & Hl & Hall); [lia|]. by exists names.
Qed.

(** ** Theorems *)

(** C28: The members of a group: a rule that is neither a literal entry nor a
    script adds to the list, in the order of the nodes and each once, exactly
    the names of the nodes that the rule selects and the list does not have;
    the prepared rule, its compiled expressions and its set of seen names
    change nothing. *)
Theorem groupGenerate_members run_filter (rule : str) (nodelist : list Proxy) (filtered : list str) (add_direct authorized : bool) :
  startsWith rule "[]" && add_direct = false -> startsWith rule "script:" && authorized = false ->
  exists added, groupGenerate run_filter rule nodelist filtered add_direct authorized = filtered ++ added /\ NoDup added /\
    (forall r, r ∈ added <-> r ∉ filtered /\ exists x, x ∈ nodelist /\ selected rule x = true /\ Remark x = r) /\
    added `sublist_of` (Remark <$> filter (fun x => selected rule x = true) nodelist).
Proof.
  intros Hd Hs. unfold groupGenerate. rewrite Hd, Hs. apply select_loop_spec; [apply prepareRule_prepared|done].
Qed.

(** The names of the emitted nodes of a generated file are distinct and free
    of the equals sign, whichever nodes the generator emits. *)
Theorem emitted_names_distinct (append pc : bool) (nodes : list (Proxy * bool)) :
  (Z.of_nat (length nodes) < 2 ^ 31 - 2)%Z ->
  exists names, name_nodes append pc nodes ∅ = Some names /\ NoDup names /\
    length names = length (filter (fun n => n.2 = true) nodes) /\ Forall no_equals names.
Proof.
  intros Hlen. destruct (name_nodes_spec append pc nodes ∅) as (names & Hn & Hnd & Hl & Hall).
  { rewrite size_empty. lia. }
  exists names. split_and!; [done..|]. eapply Forall_impl; [exact Hall|]. by intros n [].
Qed.
End Select.

(** ** An engine for examples

    It knows the range expressions and the group rules, and searches every
    other pattern as plain text. *)
Definition all_digits (s : str) : bool := forallb isdigit s && bool_decide (s <> []).
Definition literal_count (opts : list Pcre2Option) (p s : str) : nat :=
  let digits_around sep := match find_char sep s 0 with
    | Some i => all_digits (take i s) && all_digits (drop (S i) s) | None => false end in
  if (if bool_decide (p = reg_num) then all_digits s
      else if bool_decide (p = reg_range) then digits_around "-"%char
      else if bool_decide (p = reg_not) then startsWith s "!" && all_digits (drop 1 s)
      else if bool_decide (ANCHORED ∈ opts) then bool_decide (s = p) else strFind s p) then 1 else 0.
#[export] Instance literal_pcre : Pcre := {
  compiles _ _ := true;
  count := literal_count;
  substrings _ p s :=
    if bool_decide (p = reg_range) then
      match find_char "-" s 0 with Some i => [[s; take i s; drop (S i) s]] | None => [] end
    else if bool_decide (p = group_regex) then [s :: split_view (drop 8 s) "!"]
    else if bool_decide (p = groupid_regex) then [s :: split_view (drop 10 s) "!"]
    else [[s]];
  substitute _ p _ s _ := if bool_decide (p = reg_not) then drop 1 s else s
}.

Definition node_hk : Proxy unit := mkProxy VMess 0 1 "Air" "HK 01" "hk.example" 443 tt.
Definition node_us : Proxy unit := mkProxy Trojan 1 2 "Air" "US 01" "us.example" 443 tt.
Definition node_own : Proxy unit := mkProxy Trojan 2 2 "Own" "US 01" "own.example" 443 tt.

Example range_example : matchRange "1-3,!2" 1 = true /\ matchRange "1-3,!2" 2 = false /\ matchRange "!2,2" 2 = true.
Proof. by vm_compute. Qed.

Lemma groupGenerate_members_witness :
  exists added, groupGenerate (fun _ _ => None) "!!GROUPID=2" [node_hk; node_us; node_own] ["DIRECT"%str] true false
    = "DIRECT"%str :: added /\ ("US 01"%str ∈ added) /\ NoDup added.
Proof.
  destruct (groupGenerate_members (fun _ _ => None) "!!GROUPID=2" [node_hk; node_us; node_own] ["DIRECT"%str] true false
    eq_refl eq_refl) as (added & Heq & Hnd & Hin & _).
  exists added. split_and!; [exact Heq| |exact Hnd]. apply Hin. split; [by apply (bool_decide_unpack _); vm_compute|].
  exists node_us. split_and!; [by right; left|by vm_compute|done].
Defined.

Lemma emitted_names_distinct_witness :
  name_nodes false true [(node_us, true); (node_own, true); (node_hk, false)] ∅ = Some ["US 01"; "US 01 2"]%str /\
  NoDup ["US 01"; "US 01 2"]%str.
Proof.
  destruct (emitted_names_distinct false true [(node_us, true); (node_own, true); (node_hk, false)]) as (names & Hn & Hnd & _);
    [by vm_compute|].
  assert (Hc : name_nodes false true [(node_us, true); (node_own, true); (node_hk, false)] ∅ = Some ["US 01"; "US 01 2"]%str)
    by by vm_compute.
  split; [exact Hc|]. rewrite Hc in Hn. by injection Hn as <-.
Defined.
