(* ===== verification/NodeManip.v ===== *)
(** * generator/config/nodemanip.cpp: adding, filtering, renaming and sorting nodes

    Links are classified and turned into nodes, filtered in place, renamed and
    sorted.  What a link's content means is a parameter (the parsers of
    parser/subparser.cpp and the Mihomo bridge), as are the network, the file
    system and the scripts; [Event] records each use of one of the latter
    three. *)

From S2P Require Import Prelude Str StringUtil Codec Regexp NodeSelect.
Open Scope nat_scope.

(** src/src/config/regmatch.h:6-11 [RegexMatchConfig] *)
Record RegexMatchConfig := mkMatch { Match : str; Replace : str; Script : str }.

(** ** Sorting *)

(** [std::stable_sort] with a strict weak order, the only result the standard
    allows: each element goes in front of the first one it is not greater
    than. *)
Fixpoint stable_insert {A} (lt : A -> A -> bool) (x : A) (l : list A) : list A :=
  match l with
  | [] => [x]
  | y :: l => if lt y x then y :: stable_insert lt x l else x :: y :: l
  end.
Definition stable_sort {A} (lt : A -> A -> bool) (l : list A) : list A := foldr (stable_insert lt) [] l.

(** ** Links *)

(** src/src/utils/network.h:15-18 *)
Definition isLink (url : str) : bool := startsWith url "https://" || startsWith url "http://" || startsWith url "data:".

(** src/src/parser/mihomo_schemes.h:10-29 *)
Definition SUPPORTED_SCHEMES : list str :=
  ["hysteria"; "hysteria2"; "hy2"; "hysteria2+realm"; "hy2+realm"; "tuic"; "trojan"; "vless"; "vmess"; "ss"; "ssr"; "socks";
   "socks5"; "socks5h"; "http"; "https"; "anytls"; "mierus"]%str.

(** src/src/parser/mihomo_scheme_utils.h:11-15 *)
Definition normalizeScheme (scheme : str) : str := tolower <$> scheme.

(** src/src/parser/mihomo_scheme_utils.h:17-22 *)
Definition extractHierarchicalScheme (link : str) : str :=
  match find "://" link 0 with None => [] | Some pos => normalizeScheme (substr link 0 pos) end.

(** src/src/parser/mihomo_scheme_utils.h:24-26 *)
Definition isHttpScheme (scheme : str) : bool := bool_decide (scheme = "http"%str) || bool_decide (scheme = "https"%str).

(** src/src/parser/mihomo_scheme_utils.h:28-30 *)
Definition isHttpSchemeLink (link : str) : bool := isHttpScheme (extractHierarchicalScheme link).

(** src/src/parser/mihomo_scheme_utils.h:32-41 *)
Definition isSupportedSchemeName (scheme : str) : bool :=
  let normalized := normalizeScheme scheme in
  if bool_decide (normalized = "mieru"%str) then true else bool_decide (normalized ∈ SUPPORTED_SCHEMES).

(** src/src/parser/mihomo_scheme_utils.h:43-46 *)
Definition isSupportedSchemeLink (link : str) : bool :=
  let scheme := extractHierarchicalScheme link in
  negb (bool_decide (scheme = [])) && isSupportedSchemeName scheme.

(** src/src/generator/config/nodemanip.cpp:161-176 *)
Definition isBrowserUA (ua : str) : bool :=
  existsb (fun keyword => bool_decide (is_Some (find keyword ua 0)))
    ["Mozilla/"; "AppleWebKit/"; "Chrome/"; "Safari/"; "Firefox/"; "Edg/"; "Edge/"; "OPR/"; "Opera/"; "Brave/"; "Vivaldi/";
     "YaBrowser/"; "SamsungBrowser/"; "UCBrowser/"; "Maxthon/"; "QQBrowser/"; "Sogou/"; "360SE"; "360EE"; "Whale/";
     "MSIE "]%str.

(** src/src/handler/user_agent.cpp:141-146 *)
Definition subscriptionFetchUserAgent (user_agent : str) : str :=
  if bool_decide (is_Some (find "mihomo" (tolower <$> user_agent) 0)) then "clash.meta" else user_agent.

(** src/src/generator/config/nodemanip.cpp:178-199
    The User-Agent among the headers to forward; [None] when there are no
    headers or no such header. *)
Definition normalizeSubscriptionFetchHeaders (ua : option str) : option str :=
  match ua with
  | None => None
  | Some ua => Some (if isBrowserUA ua then "clash.meta" else subscriptionFetchUserAgent ua)
  end.

(** src/src/parser/subparser.cpp:1830-1842 [isLegacyHttpProxyUri, query items] *)
Fixpoint legacy_items (items : list str) (has_legacy_metadata : bool) : option bool :=
  match items with
  | [] => Some has_legacy_metadata
  | [] :: items => legacy_items items has_legacy_metadata
  | item :: items =>
      let key := match find_char "=" item 0 with Some equals => substr item 0 equals | None => item end in
      if bool_decide (key = "remarks"%str) || bool_decide (key = "group"%str) then legacy_items items true else None
  end.

(** src/src/parser/subparser.cpp:1816-1854
    [candidate] tells whether [explodeHTTPSub] reads the link as an HTTP
    proxy with a host and a port. *)
Definition isLegacyHttpProxyUri (candidate : str -> bool) (link : str) : bool :=
  if negb (startsWith link "http://") && negb (startsWith link "https://") then false
  else
    let scheme_end := default 0 (find "://" link 0) + 3 in
    let query_start := find_char "?" link scheme_end in
    if bool_decide (is_Some (find_char "#" link scheme_end)) then false
    else
      let authority_end := default (length link) query_start in
      if (authority_end =? scheme_end) ||
         match find_char "/" link scheme_end with Some slash => slash <? authority_end | None => false end
      then false
      else
        match (match query_start with
               | None => Some false
               | Some q => legacy_items (default [] (split (drop (q + 1) link) "&")) false end) with
        | None => false
        | Some has_legacy_metadata => if candidate link then true else has_legacy_metadata
        end.

(** The kinds of link: src/src/parser/subparser.h [ConfType], as far as
    [addNodes] distinguishes them. *)
Inductive LinkType := LSub | LLocal | LDirect.

(** src/src/generator/config/nodemanip.cpp:314-330 [addNodes, linkType]
    The types HTTP, SOCKS, Netch and Unknow all take the default branch. *)
Definition link_type (candidate file_exists : str -> bool) (force_direct use_mihomo isMihomoScheme : bool) (link : str) : LinkType :=
  if force_direct then LDirect
  else if negb use_mihomo && isLegacyHttpProxyUri candidate link then LDirect
  else if startsWith link "https://t.me/socks" || startsWith link "tg://socks" then LDirect
  else if startsWith link "https://t.me/http" || startsWith link "tg://http" then LDirect
  else if isLink link || startsWith link "surge:///install-config" || isMihomoScheme then LSub
  else if startsWith link "Netch://" then LDirect
  else if file_exists link then LLocal
  else LDirect.

(** src/src/generator/config/nodemanip.cpp:351-409 [addNodes, isSubscription and isNodeLink] *)
Definition subscription_or_node (link : str) : bool * bool :=
  if startsWith link "surge:///install-config" then (true, false)
  else if isHttpSchemeLink link then
    let protocolEnd := default 0 (find "://" link 0) + 3 in
    match find_char "?" link protocolEnd with
    | Some _ => (true, false)
    | None =>
        match find_char "/" link protocolEnd with
        | Some pathStart => if 1 <? length (drop pathStart link) then (true, false) else (false, true)
        | None => (false, true)
        end
    end
  else if bool_decide (find "://" link 0 = None) then (true, false)
  else (false, true).

(** ** Filtering and renaming *)

Section Nodes.
Context `{!Pcre} {X : Type}.
Notation Proxy := (Proxy X).

Definition set_remark (x : Proxy) (remark : str) : Proxy :=
  mkProxy (Type_ x) (Id x) (GroupId x) (Group x) remark (Hostname x) (Port x) (rest x).
Definition set_ids (id group : Z) (x : Proxy) : Proxy :=
  mkProxy (Type_ x) id group (Group x) (Remark x) (Hostname x) (Port x) (rest x).

(** src/src/generator/config/nodemanip.cpp:629-637 [chkIgnore, one pattern] *)
Definition pattern_hits (node : Proxy) (x : str) : bool :=
  let '(ok, real_rule) := applyMatcher x node in
  if ok then (if bool_decide (real_rule = []) then true else regFind (Remark node) real_rule) else false.

(** src/src/generator/config/nodemanip.cpp:622-655 *)
Definition chkIgnore (node : Proxy) (exclude_remarks include_remarks : list str) : bool :=
  let excluded := existsb (pattern_hits node) exclude_remarks in
  let included :=
    if negb (length include_remarks =? 0) then existsb (pattern_hits node) include_remarks else true in
  excluded || negb included.

(** src/src/generator/config/nodemanip.cpp:663-675 [filterNodes, loop]
    The vector is compacted in place: a slot is [None] once its node has been
    moved away.  [None] as a result means that a moved node was read. *)
Fixpoint filter_loop (turns : nat) (exclude_remarks include_remarks : list str) (groupID : Z) (nodes : list (option Proxy))
    (iter write_iter : nat) (node_index : Z) : option (list (option Proxy) * nat) :=
  match turns with
  | O => Some (nodes, write_iter)
  | S turns =>
      x ← nodes !! iter ≫= id;
      if chkIgnore x exclude_remarks include_remarks then
        filter_loop turns exclude_remarks include_remarks groupID nodes (S iter) write_iter node_index
      else
        let x := set_ids (u32 node_index) (u32 groupID) x in
        let nodes := <[iter := Some x]> nodes in
        let nodes := if write_iter =? iter then nodes else <[write_iter := Some x]> (<[iter := None]> nodes) in
        filter_loop turns exclude_remarks include_remarks groupID nodes (S iter) (S write_iter) (node_index + 1)
  end.

(** src/src/generator/config/nodemanip.cpp:657-680 *)
Definition filterNodes (nodes : list Proxy) (exclude_remarks include_remarks : list str) (groupID : Z) : option (list Proxy) :=
  '(nodes, write_iter) ← filter_loop (length nodes) exclude_remarks include_remarks groupID (Some <$> nodes) 0 0 0;
  mapM id (take write_iter nodes).

(** Scripts: [rename script node] and [getEmoji script node] are what the
    functions of a script return ([None] when it throws); [sort_by script
    nodes] is whether sorting by its comparison completed, and the nodes as it
    left them. *)
Context (fileGet : str -> bool -> str) (rename getEmoji : str -> Proxy -> option str)
        (sort_by : str -> list Proxy -> bool * list Proxy).

(** src/src/generator/config/nodemanip.cpp:788-790 [nodeRename, script text]
    [addEmoji] and [preprocessNodes] have the same lines; the last reads
    without the restriction to the scope. *)
Definition script_text (script : str) (scope_limit : bool) : str :=
  if startsWith script "path:" then fileGet (drop 5 script) scope_limit else script.

(** src/src/generator/config/nodemanip.cpp:783-807 [nodeRename, one rule] *)
Definition rename_step (authorized : bool) (node : Proxy) (x : RegexMatchConfig) : Proxy :=
  if negb (bool_decide (Script x = [])) && authorized then
    match rename (script_text (Script x) true) node with
    | Some ((_ :: _) as returned) => set_remark node returned
    | _ => node
    end
  else
    let '(ok, real_rule) := applyMatcher (Match x) node in
    if ok && negb (bool_decide (real_rule = [])) then
      set_remark node (regReplace (Remark node) real_rule (Replace x) true true)
    else node.

(** src/src/generator/config/nodemanip.cpp:778-811 *)
Definition nodeRename (node : Proxy) (rename_array : list RegexMatchConfig) (authorized : bool) : Proxy :=
  let original_remark := Remark node in
  let node := foldl (rename_step authorized) node rename_array in
  if bool_decide (Remark node = []) then set_remark node original_remark else node.

(** src/src/generator/config/nodemanip.cpp:816-821 [removeEmoji, loop]
    An emoji is taken to be four bytes that begin with F0 9F; reading behind
    the end of a text gives a zero byte. *)
Fixpoint strip_emoji (fuel : nat) (remark : str) : str :=
  match fuel with
  | O => remark
  | S fuel =>
      if is_char "240" (nth 0 remark "000"%char) && is_char "159" (nth 1 remark "000"%char)
      then strip_emoji fuel (drop 4 remark) else remark
  end.

(** src/src/generator/config/nodemanip.cpp:813-825 *)
Definition removeEmoji (orig_remark : str) : str :=
  let remark := strip_emoji (length orig_remark) orig_remark in
  if bool_decide (remark = []) then orig_remark else remark.

(** src/src/generator/config/nodemanip.cpp:827-864 *)
Fixpoint addEmoji (node : Proxy) (emoji_array : list RegexMatchConfig) (authorized : bool) : str :=
  match emoji_array with
  | [] => Remark node
  | x :: emoji_array =>
      if negb (bool_decide (Script x = [])) && authorized then
        match getEmoji (script_text (Script x) true) node with
        | Some ((_ :: _) as ret) => ret ++ " " ++ Remark node
        | _ => addEmoji node emoji_array authorized
        end
      else if bool_decide (Replace x = []) then addEmoji node emoji_array authorized
      else
        let '(ok, real_rule) := applyMatcher (Match x) node in
        if ok && negb (bool_decide (real_rule = [])) && regFind (Remark node) real_rule
        then Replace x ++ " " ++ Remark node
        else addEmoji node emoji_array authorized
  end.

(** The settings [preprocessNodes] reads. *)
Record RenameSettings := mkRename {
  remove_emoji : bool; add_emoji : bool; sort_flag : bool; sort_script : str; rename_array : list RegexMatchConfig;
  emoji_array : list RegexMatchConfig; authorized_ : bool
}.

(** src/src/generator/config/nodemanip.cpp:867-875 [preprocessNodes, one node] *)
Definition preprocess_node (ext : RenameSettings) (x : Proxy) : Proxy :=
  let x := if remove_emoji ext then set_remark x (trim (removeEmoji (Remark x)) true true) else x in
  let x := nodeRename x (rename_array ext) (authorized_ ext) in
  if add_emoji ext then set_remark x (addEmoji x (emoji_array ext) (authorized_ ext)) else x.

(** [a.Remark < b.Remark] *)
Definition remark_lt (a b : Proxy) : bool := negb (str_leb (Remark b) (Remark a)).

(** src/src/generator/config/nodemanip.cpp:866-911 *)
Definition preprocessNodes (ext : RenameSettings) (nodes : list Proxy) : list Proxy :=
  let nodes := preprocess_node ext <$> nodes in
  if sort_flag ext then
    let '(failed, nodes) :=
      if negb (bool_decide (sort_script ext = [])) && authorized_ ext then
        let '(completed, nodes) := sort_by (script_text (sort_script ext) false) nodes in (negb completed, nodes)
      else (true, nodes) in
    if failed then stable_sort remark_lt nodes else nodes
  else nodes.

(** ** Adding the nodes of a link *)

(** What [addNodes] does outside of the process memory. *)
Inductive Event := Fetch (url : str) | ReadFile (path : str) | RunScript (script : str).

(** src/src/generator/config/nodemanip.h:30-49 [parse_settings]
    The settings [addNodes] only reads, with its argument [groupID]. *)
Record ParseSettings := mkParse {
  exclude_remarks : list str; include_remarks : list str; authorized : bool; use_mihomo_parser : bool;
  force_direct_link : bool; groupID : Z
}.

(** What [addNodes] writes: the nodes, the subscription information, the
    statistics, the User-Agent to forward, and the events. *)
Record AddState := mkAdd {
  allNodes : list Proxy; sub_info : str; invocations : Z; failures : Z; user_agent : option str; events : list Event
}.

Definition log (e : Event) (s : AddState) : AddState :=
  mkAdd (allNodes s) (sub_info s) (invocations s) (failures s) (user_agent s) (events s ++ [e]).
Definition with_ua (ua : option str) (s : AddState) : AddState :=
  mkAdd (allNodes s) (sub_info s) (invocations s) (failures s) ua (events s).
Definition with_info (info : str) (s : AddState) : AddState :=
  mkAdd (allNodes s) info (invocations s) (failures s) (user_agent s) (events s).

(** src/src/generator/config/nodemanip.cpp:292-295 [addNodes, recordParserInvocation] *)
Definition recordParserInvocation (s : AddState) : AddState :=
  mkAdd (allNodes s) (sub_info s) (invocations s + 1) (failures s) (user_agent s) (events s).

(** src/src/generator/config/nodemanip.cpp:296-299 [addNodes, recordParserFailure]
    Every failure is followed by the return of -1. *)
Definition parser_failure (s : AddState) : Z * AddState :=
  (-1, mkAdd (allNodes s) (sub_info s) (invocations s) (failures s + 1) (user_agent s) (events s))%Z.

(** src/src/generator/config/nodemanip.cpp:40-42 [copyNodes] *)
Definition copyNodes (source : list Proxy) (s : AddState) : AddState :=
  mkAdd (allNodes s ++ source) (sub_info s) (invocations s) (failures s) (user_agent s) (events s).

(** The outside: the files, the network ([webGet url user_agent] is the
    content and the headers), the scripts ([run_parse script first others]),
    and the parsers, of which [mihomo] is [None] when it throws. *)
Context (file_exists : str -> bool) (file_get : str -> str) (run_parse : str -> str -> list str -> option str)
        (webGet : str -> option str -> str * str) (mihomo : str -> option (list Proxy))
        (explodeConfContent : str -> Z * list Proxy) (explodeMierusNodes : str -> list Proxy) (explode : str -> Proxy)
        (candidate : str -> bool) (info_from_ssd : str -> str -> str) (info_from_header : str -> option str)
        (info_from_nodes : list Proxy -> str -> str) (default_rest : X).

Section AddNodes.
Context (parse_set : ParseSettings).

(** src/src/generator/config/nodemanip.cpp:220-257 [addNodes, script] *)
Definition run_script_link (link : str) (s : AddState) : str * AddState :=
  if authorized parse_set && startsWith link "script:" then
    match default [] (split (drop 7 link) ",") with
    | [] => (link, s)
    | path :: args =>
        let s := log (ReadFile path) s in
        let script := file_get path in
        let s := log (RunScript script) s in
        let '(first, others) := match args with [] => ([], []) | a :: args => (a, args) end in
        (default link (run_parse script first others), s)
    end
  else (link, s).

(** src/src/generator/config/nodemanip.cpp:274-281 [addNodes, tag] *)
Definition split_tag (link : str) : str * str :=
  if startsWith link "tag:" then
    match find "," link 0 with
    | Some pos => (substr link 4 (pos - 4), drop (pos + 1) link)
    | None => ([], link)
    end
  else ([], link).

(** [x.GroupId = groupID; if (!custom_group.empty()) x.Group = custom_group;] *)
Definition in_group (custom_group : str) (x : Proxy) : Proxy :=
  mkProxy (Type_ x) (Id x) (u32 (groupID parse_set)) (if bool_decide (custom_group = []) then Group x else custom_group)
    (Remark x) (Hostname x) (Port x) (rest x).

(** Filtering and copying of a source's nodes. *)
Definition filter_and_copy (custom_group : str) (nodes : list Proxy) (s : AddState) : Z * AddState :=
  let nodes := default [] (filterNodes nodes (exclude_remarks parse_set) (include_remarks parse_set) (groupID parse_set)) in
  (0%Z, copyNodes (in_group custom_group <$> nodes) s).

(** src/src/generator/config/nodemanip.cpp:411-436 [addNodes, source text]
    The last branch of the source is never reached
    ([subscription_or_node_total]). *)
Definition source_text (link : str) (s : AddState) : str * str * AddState :=
  let fetch :=
    let link := if startsWith link "surge:///install-config" then urlDecode (getUrlArg link "url") else link in
    let s := with_ua (normalizeSubscriptionFetchHeaders (user_agent s)) s in
    let '(body, headers) := webGet link (user_agent s) in (body, headers, log (Fetch link) s) in
  let '(isSubscription, isNodeLink) := subscription_or_node link in
  if (isSubscription : bool) then fetch else if (isNodeLink : bool) then (link, [], s) else fetch.

(** src/src/generator/config/nodemanip.cpp:450-521 [addNodes, case SUB] *)
Definition add_sub (custom_group link : str) (s : AddState) : Z * AddState :=
  let '(strSub, extra_headers, s) := source_text link s in
  if bool_decide (strSub = []) then (-1, s)%Z
  else
    let s := recordParserInvocation s in
    match (if use_mihomo_parser parse_set then
             match mihomo strSub with Some ((_ :: _) as nodes) => Some nodes | _ => None end
           else let '(count, nodes) := explodeConfContent strSub in if (count =? 0)%Z then None else Some nodes) with
    | None => parser_failure s
    | Some nodes =>
        let s := if startsWith strSub "ssd://" then with_info (info_from_ssd strSub (sub_info s)) s
                 else match info_from_header extra_headers with
                      | Some info => with_info info s
                      | None => with_info (info_from_nodes nodes (sub_info s)) s
                      end in
        filter_and_copy custom_group nodes s
    end.

(** src/src/generator/config/nodemanip.cpp:523-548 [addNodes, case Local]
    The text [strSub] of the test for ssd:// is still empty here. *)
Definition add_local (custom_group link : str) (s : AddState) : Z * AddState :=
  if negb (authorized parse_set) then (-1, s)%Z
  else
    let s := log (ReadFile link) (recordParserInvocation s) in
    let '(count, nodes) := explodeConfContent (file_get link) in
    if (count =? 0)%Z then parser_failure s
    else filter_and_copy custom_group nodes (with_info (info_from_nodes nodes (sub_info s)) s).

(** src/src/generator/config/nodemanip.cpp:549-617 [addNodes, default case] *)
Definition add_direct (custom_group link : str) (s : AddState) : Z * AddState :=
  let s := recordParserInvocation s in
  let add nodes := match nodes with [] => parser_failure s | _ => (0%Z, copyNodes (in_group custom_group <$> nodes) s) end in
  if use_mihomo_parser parse_set then add (default [] (mihomo link))
  else if startsWith link "mierus://" then add (explodeMierusNodes link)
  else let node := explode link in if bool_decide (Type_ node = Unknown) then parser_failure s else add [node].

(** [for (const auto &l : links) { if (l.empty()) continue; addNodes(l, ...); }] *)
Fixpoint for_links (add : str -> AddState -> option (Z * AddState)) (links : list str) (s : AddState) : option AddState :=
  match links with
  | [] => Some s
  | [] :: links => for_links add links s
  | l :: links => '(_, s) ← add l s; for_links add links s
  end.

Definition has_pipe (link : str) : bool := bool_decide (is_Some (find_char "|" link 0)).

Definition placeholder : Proxy := mkProxy Unknown 0 0 [] [] [] 0 default_rest.

(** src/src/generator/config/nodemanip.cpp:201-620 [addNodes]
    The recursion over the parts of a link with separators has [fuel]. *)
Fixpoint addNodes (fuel : nat) (link : str) (s : AddState) : option (Z * AddState) :=
  match fuel with
  | O => None
  | S fuel =>
      let link := default link (replaceAllDistinct link ["034"%char] []) in
      let '(link, s) := run_script_link link s in
      let '(custom_group, link) := split_tag link in
      if bool_decide (link = "nullnode"%str) then Some (0%Z, copyNodes [placeholder] s)
      else
        let isMihomoScheme := use_mihomo_parser parse_set && isSupportedSchemeLink link in
        let parts := s ← for_links (addNodes fuel) (default [] (split link "|")) s; Some (0%Z, s) in
        if has_pipe link && (isLink link || isMihomoScheme) then parts
        else
          match link_type candidate file_exists (force_direct_link parse_set) (use_mihomo_parser parse_set) isMihomoScheme link with
          | LSub => if has_pipe link then parts else Some (add_sub custom_group link s)
          | LLocal => Some (add_local custom_group link s)
          | LDirect => Some (add_direct custom_group link s)
          end
  end.
End AddNodes.

(** ** Lemmas: filtering *)

(** The specification of the filter: the kept nodes, numbered from 0. *)
Definition kept (exclude_remarks include_remarks : list str) (groupID : Z) (nodes : list Proxy) : list Proxy :=
  imap (fun i x => set_ids (u32 (Z.of_nat i)) (u32 groupID) x)
    (filter (fun x => chkIgnore x exclude_remarks include_remarks = false) nodes).

Fixpoint keep_from (k : nat) (ex inc : list str) (groupID : Z) (nodes : list Proxy) : list Proxy :=
  match nodes with
  | [] => []
  | x :: nodes =>
      if chkIgnore x ex inc then keep_from k ex inc groupID nodes
      else set_ids (u32 (Z.of_nat k)) (u32 groupID) x :: keep_from (S k) ex inc groupID nodes
  end.

Lemma keep_from_kept k ex inc groupID nodes :
  keep_from k ex inc groupID nodes =
  imap (fun i x => set_ids (u32 (Z.of_nat (k + i))) (u32 groupID) x) (filter (fun x => chkIgnore x ex inc = false) nodes).
Proof.
  revert k. induction nodes as [|x nodes IH]; intros k; [done|]. cbn [keep_from]. rewrite filter_cons.
  destruct (chkIgnore x ex inc).
  - by rewrite decide_False by done.
  - rewrite decide_True by done. cbn [imap]. rewrite Nat.add_0_r, IH. f_equal. apply imap_ext. intros i y _. simpl.
    by rewrite Nat.add_succ_r.
Qed.

(** Moving an element from behind a gap to its front. *)
Lemma move_forward {A} (front gap back : list (option A)) x g :
  <[length front := Some x]> (<[length front + length (g :: gap) := None]> (front ++ (g :: gap) ++ Some x :: back))
  = (front ++ [Some x]) ++ (gap ++ [None]) ++ back.
Proof.
  rewrite insert_app_r_alt by lia. rewrite Nat.add_comm, Nat.add_sub.
  rewrite insert_app_r_alt by lia. rewrite Nat.sub_diag. cbn [insert list_insert].
  rewrite insert_app_r_alt by lia. rewrite Nat.sub_diag. cbn [insert list_insert app].
  by rewrite <- !app_assoc.
Qed.

Lemma filter_loop_spec ex inc groupID (nodes done_ : list Proxy) (gap : list (option Proxy)) :
  let out := done_ ++ keep_from (length done_) ex inc groupID nodes in
  exists tail, filter_loop (length nodes) ex inc groupID ((Some <$> done_) ++ gap ++ (Some <$> nodes))
      (length done_ + length gap) (length done_) (Z.of_nat (length done_)) = Some ((Some <$> out) ++ tail, length out).
Proof.
  cbv zeta. revert done_ gap. induction nodes as [|x nodes IH]; intros done_ gap.
  { exists gap. cbn. by rewrite !app_nil_r. }
  cbn [length filter_loop keep_from]. rewrite fmap_cons.
  assert (((Some <$> done_) ++ gap ++ Some x :: (Some <$> nodes)) !! (length done_ + length gap) = Some (Some x)) as ->.
  { rewrite app_assoc, lookup_app_r by (rewrite length_app, length_fmap; lia).
    by rewrite length_app, length_fmap, Nat.sub_diag. }
  cbn [mbind option_bind id]. destruct (chkIgnore x ex inc) eqn:Ech.
  { destruct (IH done_ (gap ++ [Some x])) as [tail Ht]. exists tail. rewrite <- Ht, <- !app_assoc, length_app.
    cbn [length app]. f_equal. lia. }
  set (x' := set_ids _ _ x). destruct (IH (done_ ++ [x']) (drop 1 gap ++ match gap with [] => [] | _ => [None] end)) as [tail Ht].
  exists tail. assert (Hl : length (done_ ++ [x']) = S (length done_)) by (rewrite length_app; simpl; lia).
  rewrite Hl in Ht. rewrite (cons_middle x'), (app_assoc done_), <- Ht.
  assert (Hset : <[length done_ + length gap := Some x']> ((Some <$> done_) ++ gap ++ Some x :: (Some <$> nodes))
    = (Some <$> done_) ++ gap ++ Some x' :: (Some <$> nodes)).
  { rewrite app_assoc, insert_app_r_alt by (rewrite length_app, length_fmap; lia).
    rewrite length_app, length_fmap, Nat.sub_diag, <- app_assoc. done. }
  rewrite Hset. destruct gap as [|g gap].
  - rewrite Nat.add_0_r, Nat.eqb_refl, fmap_app, <- app_assoc. cbn [length drop app fmap list_fmap]. f_equal; lia.
  - destruct (Nat.eqb_spec (length done_) (length done_ + length (g :: gap))) as [Heq|_]; [simpl in Heq; lia|].
    pose proof (move_forward (Some <$> done_) gap (Some <$> nodes) x' g) as Hm. rewrite length_fmap in Hm. rewrite Hm.
    rewrite fmap_app. change (drop 1 (g :: gap)) with gap. rewrite length_app. cbn [length]. f_equal; lia.
Qed.

Lemma mapM_id_Some {A} (l : list A) : mapM id (Some <$> l) = Some l.
Proof. apply mapM_Some_2, Forall2_fmap_l. induction l; by constructor. Qed.

(** ** Lemmas: sorting and renaming *)

Section StableSort.
Context {A K : Type} (key : A -> str).
Notation lt := (fun a b => negb (str_leb (key b) (key a))).

Lemma stable_insert_Permutation (x : A) l : stable_insert lt x l ≡ₚ x :: l.
Proof. induction l as [|y l IH]; [done|]. cbn [stable_insert]. case_match; [|done]. rewrite IH. apply Permutation_swap. Qed.

Lemma stable_sort_Permutation (l : list A) : stable_sort lt l ≡ₚ l.
Proof. induction l as [|x l IH]; [done|]. cbn. by rewrite stable_insert_Permutation, IH. Qed.

Definition key_le (a b : A) : Prop := str_le (key a) (key b).

Lemma stable_insert_Sorted x l : Sorted key_le l -> Sorted key_le (stable_insert lt x l).
Proof.
  induction 1 as [|y l Hl IH Hy]; cbn [stable_insert]; [by repeat constructor|].
  destruct (str_leb (key x) (key y)) eqn:E; cbn [negb]; [by repeat constructor|].
  assert (Hyx : key_le y x).
  { unfold key_le. destruct (total str_le (key x) (key y)) as [Hc|]; [|done]. unfold str_le in Hc. congruence. }
  constructor; [exact IH|]. destruct l as [|z l]; cbn [stable_insert]; [by constructor|].
  case_match; constructor; [by inversion Hy|done].
Qed.

Lemma stable_sort_Sorted l : Sorted key_le (stable_sort lt l).
Proof. induction l as [|x l IH]; [constructor|]. by apply stable_insert_Sorted. Qed.

(** Elements with one key keep their order. *)
Lemma stable_insert_filter k x l :
  Sorted key_le l ->
  filter (fun a => key a = k) (stable_insert lt x l) = filter (fun a => key a = k) (x :: l).
Proof.
  induction l as [|y l IH]; [done|]. intros Hs. cbn [stable_insert].
  destruct (str_leb (key x) (key y)) eqn:E; cbn [negb]; [done|].
  rewrite (filter_cons _ y), IH by (by inversion Hs). rewrite !filter_cons.
  destruct (decide (key y = k)) as [Hy|], (decide (key x = k)) as [Hx|]; try done.
  exfalso. rewrite Hx, Hy, str_leb_refl in E. done.
Qed.

Lemma stable_sort_stable k l : filter (fun a => key a = k) (stable_sort lt l) = filter (fun a => key a = k) l.
Proof.
  induction l as [|x l IH]; [done|]. cbn [stable_sort foldr]. rewrite stable_insert_filter by apply stable_sort_Sorted.
  rewrite !filter_cons. unfold stable_sort in IH. by rewrite IH.
Qed.
End StableSort.

(** ** Lemmas: adding *)

Section AddFacts.
Context (parse_set : ParseSettings).

Lemma subscription_or_node_total link : (subscription_or_node link).2 = negb (subscription_or_node link).1.
Proof. unfold subscription_or_node. by repeat case_match. Qed.

(** The URLs that may be fetched: http and https URLs, data URLs, the argument
    of a Surge install link, and links without a scheme, which rule 2 of the
    classification calls subscriptions. *)
Definition remote_url (u : str) : Prop :=
  isHttpSchemeLink u = true \/ startsWith u "data:" = true \/ find "://" u 0 = None \/
  exists link, startsWith link "surge:///install-config" = true /\ u = urlDecode (getUrlArg link "url").

(** A link that is [nullnode], without quotes and tag, or has such a part. *)
Fixpoint names_nullnode (fuel : nat) (link : str) : Prop :=
  match fuel with
  | O => False
  | S fuel =>
      let link := (split_tag (default link (replaceAllDistinct link ["034"%char] []))).2 in
      link = "nullnode"%str \/ exists part, part ∈ default [] (split link "|") /\ names_nullnode fuel part
  end.

(** A node belongs to the group of the request, or is the placeholder if [null]. *)
Definition from_group (null : Prop) (x : Proxy) : Prop := GroupId x = u32 (groupID parse_set) \/ null /\ x = placeholder.

(** What a call may do: nodes are only added, and none when it fails; an
    unauthorised call only fetches. *)
Definition grown (null : Prop) (r : Z) (s s' : AddState) : Prop :=
  exists added evs, allNodes s' = allNodes s ++ added /\ events s' = events s ++ evs /\
    Forall (from_group null) added /\ (r <> 0%Z -> added = []) /\
    (authorized parse_set = false -> Forall (fun e => exists u, e = Fetch u /\ remote_url u) evs).

Lemma grown_null (null null' : Prop) r s s' : (null -> null') -> grown null r s s' -> grown null' r s s'.
Proof.
  intros Hn (a & e & Ha & He & Hg & Hr & Hf). exists a, e. split_and!; try done. eapply Forall_impl; [exact Hg|].
  intros x [?|[? ?]]; [by left|right; auto].
Qed.

Lemma grown_refl null r s : grown null r s s.
Proof. exists [], []. rewrite !app_nil_r. split_and!; done. Qed.

Lemma grown_trans null r s1 s2 s3 : grown null 0 s1 s2 -> grown null r s2 s3 -> grown null 0 s1 s3.
Proof.
  intros (a1 & e1 & Ha1 & He1 & Hg1 & _ & Hf1) (a2 & e2 & Ha2 & He2 & Hg2 & _ & Hf2).
  exists (a1 ++ a2), (e1 ++ e2). rewrite Ha2, Ha1, He2, He1, !app_assoc. split_and!; try done.
  - by apply Forall_app.
  - intros Hauth. apply Forall_app. auto.
Qed.

Lemma in_group_from null custom nodes : Forall (from_group null) (in_group parse_set custom <$> nodes).
Proof. apply Forall_fmap, Forall_forall. intros x _. by left. Qed.

(** A state that differs in the fields that [grown] does not mention, before
    a copy or an end. *)
Lemma grown_copy null r s s' s'' nodes evs :
  allNodes s' = allNodes s -> events s' = events s ++ evs ->
  (authorized parse_set = false -> Forall (fun e => exists u, e = Fetch u /\ remote_url u) evs) ->
  allNodes s'' = allNodes s' ++ nodes -> events s'' = events s' -> Forall (from_group null) nodes -> (r <> 0%Z -> nodes = []) ->
  grown null r s s''.
Proof. intros Ha He Hf Hn He' Hg Hr. exists nodes, evs. rewrite Hn, He', Ha, He. split_and!; done. Qed.

Lemma source_text_spec link s strSub hd s' :
  isLink link || startsWith link "surge:///install-config" || (use_mihomo_parser parse_set && isSupportedSchemeLink link) = true ->
  source_text link s = (strSub, hd, s') ->
  allNodes s' = allNodes s /\ exists evs, events s' = events s ++ evs /\
    Forall (fun e => exists u, e = Fetch u /\ remote_url u) evs.
Proof.
  intros Htype. unfold source_text. pose proof (subscription_or_node_total link) as Htot.
  destruct (subscription_or_node link) as [sub nod] eqn:Esub. cbn in Htot. subst nod.
  destruct sub; cbn [negb].
  2: { intros [= <- <- <-]. split; [done|]. exists []. by rewrite app_nil_r. }
  assert (Hend : forall u, remote_url u ->
    (let s := with_ua (normalizeSubscriptionFetchHeaders (user_agent s)) s in
     let '(body, headers) := webGet u (user_agent s) in (body, headers, log (Fetch u) s)) = (strSub, hd, s') ->
    allNodes s' = allNodes s /\ exists evs, events s' = events s ++ evs /\
      Forall (fun e => exists u, e = Fetch u /\ remote_url u) evs).
  { intros u Hu. cbv zeta. destruct (webGet _ _) as [body headers]. intros [= <- <- <-]. split; [done|].
    exists [Fetch u]. split; [done|]. constructor; [by exists u|constructor]. }
  destruct (startsWith link "surge:///install-config") eqn:Esurge; apply Hend; [do 3 right; by exists link|].
  unfold subscription_or_node in Esub. rewrite Esurge in Esub.
  destruct (isHttpSchemeLink link) eqn:Ehttp; [by left|]. right; left.
  case_bool_decide as Hnone; [|done]. rewrite orb_false_r in Htype. apply orb_true_iff in Htype as [Hl|Hm].
  - unfold isLink in Hl. destruct (startsWith link "data:"); [done|]. rewrite orb_false_r in Hl.
    exfalso. pose proof (find_None _ _ _ Hnone) as Hn.
    apply orb_true_iff in Hl as [Hl|Hl]; unfold startsWith in Hl; apply starts_with_spec in Hl as [t ->].
    + assert (Hc := Hn 5 ltac:(simpl; lia)). change (starts_with "://" ("://" ++ t) = false) in Hc. by rewrite starts_with_app in Hc.
    + assert (Hc := Hn 4 ltac:(simpl; lia)). change (starts_with "://" ("://" ++ t) = false) in Hc. by rewrite starts_with_app in Hc.
  - apply andb_true_iff in Hm as [_ Hm]. unfold isSupportedSchemeLink, extractHierarchicalScheme in Hm.
    by rewrite Hnone in Hm.
Qed.
Lemma grown_end null r s s' evs :
  allNodes s' = allNodes s -> events s' = events s ++ evs ->
  (authorized parse_set = false -> Forall (fun e => exists u, e = Fetch u /\ remote_url u) evs) -> grown null r s s'.
Proof. intros Ha He Hf. exists [], evs. rewrite app_nil_r. split_and!; done. Qed.

Lemma add_sub_grown null custom link s :
  isLink link || startsWith link "surge:///install-config" || (use_mihomo_parser parse_set && isSupportedSchemeLink link) = true ->
  grown null (add_sub parse_set custom link s).1 s (add_sub parse_set custom link s).2.
Proof.
  intros Htype. unfold add_sub. destruct (source_text link s) as [[strSub hd] s1] eqn:Es.
  destruct (source_text_spec _ _ _ _ _ Htype Es) as (Ha & evs & He & Hf).
  case_bool_decide; [by eapply grown_end|]. case_match; [|by eapply grown_end].
  set (s2 := if startsWith strSub "ssd://" then _ else _).
  assert (H2 : allNodes s2 = allNodes s1 /\ events s2 = events s1) by (subst s2; by repeat case_match).
  destruct H2 as [Ha2 He2]. eapply (grown_copy _ _ s s2); [by rewrite Ha2|by rewrite He2| |done|done|apply in_group_from|done].
  done.
Qed.

Lemma add_local_grown null custom link s :
  grown null (add_local parse_set custom link s).1 s (add_local parse_set custom link s).2.
Proof.
  unfold add_local. destruct (authorized parse_set) eqn:Hauth; cbn [negb]; [|apply grown_refl].
  destruct (explodeConfContent (file_get link)) as [count nodes]. case_match.
  - eapply (grown_end _ _ _ _ [ReadFile link]); [done|done|congruence].
  - eapply (grown_copy _ _ s (log (ReadFile link) s) _ _ [ReadFile link]); [done|done|congruence|done|done|apply in_group_from|done].
Qed.

Lemma add_direct_grown null custom link s :
  grown null (add_direct parse_set custom link s).1 s (add_direct parse_set custom link s).2.
Proof.
  assert (Hadd : forall nodes, let r := match nodes with [] => parser_failure (recordParserInvocation s)
    | _ => (0%Z, copyNodes (in_group parse_set custom <$> nodes) (recordParserInvocation s)) end in grown null r.1 s r.2).
  { intros [|x nodes]; cbv zeta.
    - apply (grown_end _ _ _ _ []); [done|by rewrite app_nil_r|by constructor].
    - eapply (grown_copy _ _ s s _ _ []); [done|by rewrite app_nil_r|by constructor|done|done|apply in_group_from|done]. }
  unfold add_direct. cbv zeta. case_match; [apply Hadd|]. case_match; [apply Hadd|].
  case_bool_decide; [apply (Hadd [])|apply (Hadd [explode link])].
Qed.

Lemma no_script_link link s : authorized parse_set = false -> run_script_link parse_set link s = (link, s).
Proof. unfold run_script_link. by intros ->. Qed.

Lemma for_links_grown null add links s s' :
  (forall l s r s', l ∈ links -> add l s = Some (r, s') -> grown null r s s') -> for_links add links s = Some s' -> grown null 0 s s'.
Proof.
  revert s. induction links as [|l links IH]; intros s Hadd; cbn [for_links]; [intros [= ->]; apply grown_refl|].
  assert (Hadd' : forall l' s r s', l' ∈ links -> add l' s = Some (r, s') -> grown null r s s')
    by (intros l' s1 r s2 Hl; apply Hadd; by right).
  destruct l as [|c l]; [by apply IH|]. destruct (add (c :: l) s) as [[r s1]|] eqn:E; [|done]. cbn [mbind option_bind].
  intros Hrest. eapply grown_trans; [|by apply IH]. apply Hadd in E as (a & e & Ha & He & Hg & _ & Hf); [|by left].
  exists a, e. split_and!; done.
Qed.

Lemma link_type_sub force mih scheme link :
  link_type candidate file_exists force mih scheme link = LSub ->
  isLink link || startsWith link "surge:///install-config" || scheme = true.
Proof. unfold link_type. by repeat case_match. Qed.

Lemma addNodes_grown fuel link s r s' : authorized parse_set = false ->
  addNodes parse_set fuel link s = Some (r, s') -> grown (names_nullnode fuel link) r s s'.
Proof.
  intros Hauth. revert link s r s'. induction fuel as [|fuel IH]; intros link s r s'; [done|]. cbn [addNodes names_nullnode]. cbv zeta.
  rewrite no_script_link by done. destruct (split_tag _) as [custom link2]. cbn [snd].
  case_bool_decide as Hnull.
  { intros [= <- <-]. eapply (grown_copy _ _ s s _ [placeholder] []); [done|by rewrite app_nil_r|by constructor|done|done| |done].
    constructor; [right; by split; [left|]|constructor]. }
  assert (Hparts : (s ← for_links (addNodes parse_set fuel) (default [] (split link2 "|")) s; Some (0%Z, s)) = Some (r, s') ->
    grown (link2 = "nullnode"%str \/ exists part, part ∈ default [] (split link2 "|") /\ names_nullnode fuel part) r s s').
  { destruct (for_links _ _ s) as [s2|] eqn:El; [|done]. intros [= <- <-].
    eapply for_links_grown; [|exact El]. intros l s1 r' s3 Hl Hrun. eapply grown_null; [|by apply IH]. intros Hn. right. by exists l. }
  case_match; [apply Hparts|]. destruct (link_type _ _ _ _ _ _) eqn:Et.
  - case_match; [apply Hparts|]. intros Hrun. apply link_type_sub in Et.
    pose proof (add_sub_grown (link2 = "nullnode"%str \/ exists part, part ∈ default [] (split link2 "|") /\ names_nullnode fuel part)
      custom link2 s Et) as Hg. injection Hrun as Hrun. by rewrite Hrun in Hg.
  - intros Hrun. pose proof (add_local_grown (link2 = "nullnode"%str \/ exists part, part ∈ default [] (split link2 "|") /\
      names_nullnode fuel part) custom link2 s) as Hg. injection Hrun as Hrun. by rewrite Hrun in Hg.
  - intros Hrun. pose proof (add_direct_grown (link2 = "nullnode"%str \/ exists part, part ∈ default [] (split link2 "|") /\
      names_nullnode fuel part) custom link2 s) as Hg. injection Hrun as Hrun. by rewrite Hrun in Hg.
Qed.

(** A link without separators needs no recursion, and the parts of a link
    have none. *)
Lemma addNodes_single fuel link s :
  authorized parse_set = false -> "|"%char ∉ link -> is_Some (addNodes parse_set (S fuel) link s).
Proof.
  intros Hauth Hlink. cbn [addNodes]. cbv zeta.
  pose proof (delete_all_bytes link ["034"%char] _ ltac:(done) Hlink) as H0. set (link0 := default link _) in *.
  rewrite no_script_link by done.
  assert (H1 : "|"%char ∉ (split_tag link0).2).
  { unfold split_tag. case_match; [|done]. case_match; [|done]. cbn. intros Hc. apply H0.
    rewrite <- (take_drop (n + 1) link0). apply elem_of_app. by right. }
  destruct (split_tag link0) as [custom link2]. cbn in H1. case_bool_decide; [done|].
  assert (Hp : has_pipe link2 = false).
  { unfold has_pipe. rewrite (proj2 (find_char_None "|" link2)) by done. by rewrite bool_decide_false by (by intros []). }
  rewrite Hp. cbn [andb]. by destruct (link_type _ _ _ _ _ _).
Qed.

Lemma for_links_total add links s :
  Forall (fun l => forall s, is_Some (add l s)) links -> is_Some (for_links add links s).
Proof.
  intros Hall. revert s. induction Hall as [|l links Hl _ IH]; intros s; cbn [for_links]; [done|].
  destruct l as [|c l]; [apply IH|]. destruct (Hl s) as [[r s1] ->]. cbn [mbind option_bind]. apply IH.
Qed.

Lemma addNodes_total link s : authorized parse_set = false -> is_Some (addNodes parse_set 2 link s).
Proof.
  intros Hauth. change (addNodes parse_set 2 link s) with
    (let link := default link (replaceAllDistinct link ["034"%char] []) in
      let '(link, s) := run_script_link parse_set link s in
      let '(custom_group, link) := split_tag link in
      if bool_decide (link = "nullnode"%str) then Some (0%Z, copyNodes [placeholder] s)
      else
        let isMihomoScheme := use_mihomo_parser parse_set && isSupportedSchemeLink link in
        let parts := s ← for_links (addNodes parse_set 1) (default [] (split link "|")) s; Some (0%Z, s) in
        if has_pipe link && (isLink link || isMihomoScheme) then parts
        else
          match link_type candidate file_exists (force_direct_link parse_set) (use_mihomo_parser parse_set) isMihomoScheme link with
          | LSub => if has_pipe link then parts else Some (add_sub parse_set custom_group link s)
          | LLocal => Some (add_local parse_set custom_group link s)
          | LDirect => Some (add_direct parse_set custom_group link s)
          end). cbv zeta.
  destruct (run_script_link parse_set _ s) as [link1 s1]. destruct (split_tag link1) as [custom link2].
  assert (Hparts : is_Some (s ← for_links (addNodes parse_set 1) (default [] (split link2 "|")) s1; Some (0%Z, s))).
  { destruct (for_links_total (addNodes parse_set 1) (default [] (split link2 "|")) s1) as [s2 ->]; [|done].
    eapply Forall_impl; [apply split_char|]. intros l Hl s2. by apply addNodes_single. }
  case_bool_decide; [done|]. case_match; [done|]. destruct (link_type _ _ _ _ _ _); [case_match|..]; done.
Qed.
End AddFacts.

(** ** Lemmas: names never vanish *)

Lemma removeEmoji_nonempty r : r <> [] -> removeEmoji r <> [].
Proof. unfold removeEmoji. intros Hr. by case_bool_decide. Qed.

Lemma nodeRename_nonempty (x : Proxy) arr auth : Remark x <> [] -> Remark (nodeRename x arr auth) <> [].
Proof. unfold nodeRename. intros Hr. by case_bool_decide. Qed.

Lemma addEmoji_nonempty (x : Proxy) arr auth : Remark x <> [] -> addEmoji x arr auth <> [].
Proof.
  intros Hr. induction arr as [|c arr IH]; cbn [addEmoji]; [done|]. destruct (negb _ && auth).
  - destruct (getEmoji _ _) as [[|? ?]|]; done.
  - destruct (bool_decide_reflect (Replace c = [])) as [|Hc]; [done|].
    destruct (applyMatcher _ _) as [ok real]. destruct (ok && _ && _); [|done]. by destruct (Replace c).
Qed.

Lemma preprocess_node_nonempty ext (x : Proxy) : Remark x <> [] -> Remark (preprocess_node ext x) <> [].
Proof.
  intros Hr. unfold preprocess_node. cbv zeta. set (y := if remove_emoji ext then _ else _).
  assert (Hy : Remark y <> []).
  { subst y. case_match; [|done]. by apply trimOf_nonempty, removeEmoji_nonempty. }
  pose proof (nodeRename_nonempty y (rename_array ext) (authorized_ ext) Hy) as Hn.
  case_match; [by apply addEmoji_nonempty|done].
Qed.

(** ** Theorems *)

(** C26: a call for an unauthorised request ends, only adds nodes, and adds
    none when it fails; each is of the request's group, or the placeholder,
    which is added only for a link or part [nullnode].  It runs no script and
    reads no file, and it fetches nothing but http, https and data URLs, the
    argument of a Surge install link, and links without a scheme, whatever the
    parsers, the network and the file system answer. *)
Theorem addNodes_unauthorised parse_set link s :
  authorized parse_set = false ->
  exists r s' added evs, addNodes parse_set 2 link s = Some (r, s') /\
    allNodes s' = allNodes s ++ added /\ (r <> 0%Z -> added = []) /\
    Forall (fun x => GroupId x = u32 (groupID parse_set) \/ names_nullnode 2 link /\ x = placeholder) added /\
    events s' = events s ++ evs /\ Forall (fun e => exists u, e = Fetch u /\ remote_url u) evs.
Proof.
  intros Hauth. destruct (addNodes_total parse_set link s Hauth) as [[r s'] Hrun].
  destruct (addNodes_grown _ _ _ _ _ _ Hauth Hrun) as (added & evs & Ha & He & Hg & Hn & Hf).
  exists r, s', added, evs. split_and!; auto.
Qed.

(** C40: The in-place filter never reads a node it has moved, and yields the nodes
    that are not ignored, in order and numbered from 0. *)
Theorem filterNodes_spec ex inc groupID (nodes : list Proxy) :
  filterNodes nodes ex inc groupID = Some (kept ex inc groupID nodes).
Proof.
  unfold filterNodes, kept. destruct (filter_loop_spec ex inc groupID nodes [] []) as [tail Ht].
  cbn [fmap list_fmap app length] in Ht. rewrite Nat.add_0_r in Ht. change (Z.of_nat 0) with 0%Z in Ht. rewrite Ht.
  cbn [mbind option_bind].
  rewrite take_app_le by (by rewrite length_fmap). rewrite take_ge by (by rewrite length_fmap).
  rewrite mapM_id_Some, keep_from_kept. done.
Qed.

(** Renaming and sorting without a comparison script: the nodes are a
    permutation of the renamed ones, sorted by name, those of one name in
    their old order, and no name becomes empty. *)
Theorem preprocessNodes_sorted ext (nodes : list Proxy) :
  sort_flag ext = true -> sort_script ext = [] \/ authorized_ ext = false ->
  let r := preprocessNodes ext nodes in
  r ≡ₚ preprocess_node ext <$> nodes /\ Sorted (key_le Remark) r /\
  (forall k, filter (fun x => Remark x = k) r = filter (fun x => Remark x = k) (preprocess_node ext <$> nodes)) /\
  (Forall (fun x => Remark x <> []) nodes -> Forall (fun x => Remark x <> []) r).
Proof.
  intros Hsort Hscript. cbv zeta. unfold preprocessNodes. cbv zeta. rewrite Hsort.
  assert (negb (bool_decide (sort_script ext = [])) && authorized_ ext = false) as ->.
  { destruct Hscript as [-> | ->]; [done|apply andb_false_r]. }
  split_and!; [apply stable_sort_Permutation|apply stable_sort_Sorted|intros k; apply stable_sort_stable|].
  intros Hall. rewrite (stable_sort_Permutation Remark). apply Forall_fmap. eapply Forall_impl; [exact Hall|].
  intros x. apply preprocess_node_nonempty.
Qed.
End Nodes.

(** ** Examples *)

(** Parsers and a network that know one subscription. *)
Definition no_script : str -> Proxy unit -> option str := fun _ _ => None.
Definition example_fetch (url : str) (ua : option str) : str * str :=
  if bool_decide (url = "https://air.example/sub?token=1"%str) then ("vmess://x", []) else ([], []).
Definition example_nodes (content : str) : Z * list (Proxy unit) :=
  if bool_decide (content = "vmess://x"%str) then (2%Z, [node_hk; node_us]) else (0%Z, []).
Definition example_add (set : ParseSettings) : str -> AddState (X:=unit) -> option (Z * AddState) :=
  addNodes (fun path => bool_decide (path = "nodes.conf"%str)) (fun _ => "vmess://x") (fun _ _ _ => None) example_fetch
    (fun _ => None) example_nodes (fun _ => []) (fun _ => mkProxy Unknown 0 0 [] [] [] 0 tt) (fun _ => false)
    (fun _ i => i) (fun _ => None) (fun _ i => i) tt set 2.
Definition example_settings : ParseSettings := mkParse ["US"%str] [] false false false 3.
Definition empty_state : AddState := mkAdd (@nil (Proxy unit)) [] 0 0 (Some "Mozilla/5.0"%str) [].

(** Two parts, one of which is a file that the request may not read; a source
    without a scheme is not fetched. *)
Example add_example :
  (fun '(r, s) => (r, Remark <$> allNodes s, events s)) <$>
    example_add example_settings "tag:Air,https://air.example/sub?token=1|nodes.conf" empty_state
  = Some (0%Z, ["HK 01"%str], [Fetch "https://air.example/sub?token=1"]) /\
  (fun '(r, s) => (r, events s)) <$> example_add example_settings "air.example/sub" empty_state = Some ((-1)%Z, []) /\
  (fun '(r, s) => (r, events s)) <$> example_add example_settings "nodes.conf" empty_state = Some ((-1)%Z, []).
Proof. by vm_compute. Qed.

Lemma addNodes_unauthorised_witness :
  exists r s' evs, example_add example_settings "https://air.example/sub?token=1" empty_state = Some (r, s') /\
    events s' = [] ++ evs /\ Forall (fun e => exists u, e = Fetch u /\ remote_url u) evs.
Proof.
  destruct (addNodes_unauthorised (fun path => bool_decide (path = "nodes.conf"%str)) (fun _ => "vmess://x"%str)
    (fun _ _ _ => None) example_fetch (fun _ => None) example_nodes (fun _ => []) (fun _ => mkProxy Unknown 0 0 [] [] [] 0 tt)
    (fun _ => false) (fun _ i => i) (fun _ => None) (fun _ i => i) tt example_settings "https://air.example/sub?token=1"
    empty_state eq_refl) as (r & s' & added & evs & Hrun & _ & _ & _ & He & Hf).
  exists r, s', evs. split_and!; [exact Hrun|exact He|exact Hf].
Defined.

Definition example_rename : RenameSettings := mkRename true false true [] [mkMatch "HK" "Hong Kong" []] [] false.

Lemma preprocessNodes_sorted_witness :
  let r := preprocessNodes (fun _ _ => []) no_script no_script (fun _ l => (true, l)) example_rename
    [node_us; node_hk; node_own] in
  Sorted (key_le Remark) r /\ length r = 3.
Proof.
  destruct (preprocessNodes_sorted (fun _ _ => []) no_script no_script (fun _ l => (true, l)) example_rename
    [node_us; node_hk; node_own] eq_refl (or_introl eq_refl)) as (Hp & Hs & _).
  split; [exact Hs|]. by rewrite Hp.
Defined.
