(* ===== verification/SurgeRules.v ===== *)
(** * generator/config/ruleconvert.cpp and handler/ruleset_output.cpp: rules as text

    The rules for Surge and the clients with its syntax (Surfboard, Loon,
    Quantumult, Quantumult X, Mellow), and the output of the ruleset handler.
    Changes of the INI document are a list of operations; whether a path is a
    file, the conversion cache and the digest are parameters. *)

From S2P Require Import Prelude Str StringUtil Codec Ruleset ExternalRules RuleConvert Regexp NodeSelect NodeManip.
Open Scope nat_scope.

Definition nl : str := ["010"%char].

(** ** Types of rules *)

(** src/src/generator/config/ruleconvert.cpp:26-33 [basic_types and the lists of types] *)
Definition basic_types : list str :=
  ["DOMAIN"; "DOMAIN-SUFFIX"; "DOMAIN-KEYWORD"; "IP-CIDR"; "SRC-IP-CIDR"; "GEOIP"; "MATCH"; "FINAL"]%str.
Definition Surge2RuleTypes : list str :=
  basic_types ++ ["IP-CIDR6"; "USER-AGENT"; "URL-REGEX"; "PROCESS-NAME"; "IN-PORT"; "DEST-PORT"; "SRC-IP"]%str.
Definition SurgeRuleTypes : list str :=
  basic_types ++ ["IP-CIDR6"; "USER-AGENT"; "URL-REGEX"; "AND"; "OR"; "NOT"; "PROCESS-NAME"; "IN-PORT"; "DEST-PORT"; "SRC-IP"]%str.
Definition QuanXRuleTypes : list str := basic_types ++ ["USER-AGENT"; "HOST"; "HOST-SUFFIX"; "HOST-KEYWORD"]%str.
Definition SurfRuleTypes : list str := basic_types ++ ["IP-CIDR6"; "PROCESS-NAME"; "IN-PORT"; "DEST-PORT"; "SRC-IP"]%str.

(** ** The ruleset handler's output *)

Section Output.
Context `{!Pcre}.

(** src/src/handler/ruleset_output.cpp:20-33 [filterLine]
    The first field behind the type: its text, or [None] without one. *)
Definition filterLine (strLine : str) : option (nat * str) :=
  match find_char "," strLine 0 with
  | None => None
  | Some pose =>
      let posb := pose + 1 in
      let pose := match find_char "," strLine posb with
                  | Some p => p
                  | None => let n := length strLine in
                      match strLine !! (n - 1) with Some c => if is_char "013" c then n - 1 else n | None => n end
                  end in
      Some (posb, substr strLine posb (pose - posb))
  end.

(** The byte in front of the comma tells DOMAIN-SUFFIX from DOMAIN. *)
Definition is_suffix_rule (strLine : str) (posb : nat) : bool :=
  match strLine !! (posb - 2) with Some c => is_char "X" c | None => false end.

(** src/src/handler/ruleset_output.cpp:105-124 [formatRulesetOutput, a line that is kept whole] *)
Definition output_line (type : Z) (group strLine : str) : str :=
  let strLine := match last strLine with Some c => if is_char "013" c then removelast strLine else strLine | None => strLine end in
  (if negb (ignored strLine) && (type =? 2)%Z then
     let strLine := if startsWith strLine "IP-CIDR6" then replace strLine 0 8 "IP6-CIDR" else strLine in
     let strLine := strLine ++ "," ++ group in
     let re := "^(.*?,.*?)(,.*)(,.*)$"%str in
     if count_least strLine "," 3 && bool_decide (regReplace strLine re "$2" true true = ",no-resolve"%str)
     then regReplace strLine re "$1$3$2" true true else regReplace strLine re "$1$3" true true
   else strLine) ++ nl.

(** src/src/handler/ruleset_output.cpp:41-125 [formatRulesetOutput, one line] *)
Definition output_step (type : Z) (group : str) (clash surge quanx : list str) (strLine : str) : str :=
  let strLine := stripRulesetComment strLine false in
  let starts_any l := existsb (startsWith strLine) l in
  if (type =? 2)%Z && negb (starts_any quanx) then []
  else if (type =? 1)%Z && negb (starts_any surge) then []
  else if (type =? 3)%Z then
    if negb (startsWith strLine "DOMAIN-SUFFIX,") && negb (startsWith strLine "DOMAIN,") then []
    else match filterLine strLine with
    | None => []
    | Some (posb, field) => "  - '" ++ (if is_suffix_rule strLine posb then "+." else []) ++ field ++ "'" ++ nl
    end
  else if (type =? 4)%Z then
    if negb (startsWith strLine "IP-CIDR,") && negb (startsWith strLine "IP-CIDR6,") then []
    else match filterLine strLine with None => [] | Some (_, field) => "  - '" ++ field ++ "'" ++ nl end
  else if (type =? 5)%Z then
    if negb (startsWith strLine "DOMAIN-SUFFIX,") && negb (startsWith strLine "DOMAIN,") then []
    else match filterLine strLine with
    | None => []
    | Some (posb, field) => (if is_suffix_rule strLine posb then "." else []) ++ field ++ nl
    end
  else if (type =? 6)%Z then
    if negb (starts_any clash) then [] else "  - " ++ output_line type group strLine
  else output_line type group strLine.

Definition payload_header : str := "payload:" ++ nl.

(** src/src/handler/ruleset_output.cpp:10-140 [formatRulesetOutput] *)
Definition formatRulesetOutput (converted_content : str) (type : Z) (group : str) (clash surge quanx : list str) : str :=
  let output_content := if (type =? 3)%Z || (type =? 4)%Z || (type =? 6)%Z then payload_header else [] in
  let output_content := foldl (fun out line => out ++ output_step type group clash surge quanx line) output_content
    (getlines (getLineBreak converted_content) converted_content) in
  if bool_decide (output_content = payload_header) then
    output_content ++
    (if (type =? 3)%Z then "  - '--placeholder--'" else if (type =? 4)%Z then "  - '0.0.0.0/32'"
     else if (type =? 6)%Z then "  - 'DOMAIN,--placeholder--'" else [])
  else output_content.
End Output.

(** ** Rules for Surge *)

Section Surge.
Context `{!Pcre} (getMD5 : str -> str) (cache : str -> option str) (max_allowed_rules : nat) (fileExist : str -> bool).

(** What happens to the INI document. *)
Inductive IniOp := SetCurrentSection (section : str) | EraseCurrent | EraseSection (section : str) | SetItem (section item value : str).

(** The state of the generator: the rules, the number that counts against
    the limit, the statistics, and the items of other sections. *)
Record SurgeState := mkSurge { allRules : list str; total_rules : nat; local_rules : nat; remote_items : list IniOp }.

(** src/src/generator/config/ruleconvert.cpp:743-756 [rulesetToSurge, current section] *)
Definition surge_section (surge_ver : Z) : str :=
  if (surge_ver =? 0)%Z then "RoutingRule" else if (surge_ver =? -1)%Z then "filter_local"
  else if (surge_ver =? -2)%Z then "TCP" else "Rule".

(** src/src/generator/config/ruleconvert.cpp:758-772 [rulesetToSurge, sections] *)
Definition surge_sections (surge_ver : Z) (overwrite_original_rules : bool) : list IniOp :=
  [SetCurrentSection (surge_section surge_ver)]
  ++ (if overwrite_original_rules then
        EraseCurrent :: (if (surge_ver =? -1)%Z then [EraseSection "filter_remote"]
                         else if (surge_ver =? -4)%Z then [EraseSection "Remote Rule"] else [])
      else []).

(** src/src/generator/config/ruleconvert.cpp:905-930 [rulesetToSurge, supported types] *)
Definition surge_types (surge_ver : Z) : list str :=
  if (surge_ver =? -2)%Z || (surge_ver =? -1)%Z then QuanXRuleTypes
  else if (surge_ver =? -3)%Z then SurfRuleTypes
  else if (2 <? surge_ver)%Z then SurgeRuleTypes else Surge2RuleTypes.
Definition surge_supported (surge_ver : Z) (strLine : str) : bool :=
  negb ((surge_ver =? -2)%Z && startsWith strLine "IP-CIDR6") && existsb (startsWith strLine) (surge_types surge_ver).

Definition is_logical (strLine : str) : bool := startsWith strLine "AND" || startsWith strLine "OR" || startsWith strLine "NOT".
Definition is_quantumult (surge_ver : Z) : bool := (surge_ver =? -1)%Z || (surge_ver =? -2)%Z.

(** src/src/generator/config/ruleconvert.cpp:791-799 [rulesetToSurge, the rule with its policy] *)
Definition surge_rule (surge_ver : Z) (rule_group strLine : str) : option str :=
  if is_quantumult surge_ver then transformRuleToCommon strLine rule_group true
  else if is_logical strLine then Some strLine else transformRuleToCommon strLine rule_group false.

(** src/src/generator/config/ruleconvert.cpp:895-948 [rulesetToSurge, the lines of a ruleset] *)
Fixpoint surge_lines (surge_ver : Z) (rule_group : str) (lines : list str) (st : SurgeState) : option SurgeState :=
  match lines with
  | [] => Some st
  | strLine :: lines =>
      if over_limit max_allowed_rules (total_rules st) then Some st
      else
        let strLine := trimWhitespace strLine true true in
        if ignored strLine then surge_lines surge_ver rule_group lines st
        else if negb (surge_supported surge_ver strLine) then surge_lines surge_ver rule_group lines st
        else
          let strLine := stripRulesetComment strLine false in
          let strLine := if is_quantumult surge_ver && startsWith strLine "IP-CIDR6" then replace strLine 0 8 "IP6-CIDR" else strLine in
          strLine ← surge_rule surge_ver rule_group strLine;
          surge_lines surge_ver rule_group lines
            (mkSurge (allRules st ++ [strLine]) (S (total_rules st)) (S (local_rules st)) (remote_items st))
  end.

(** The three ways to refer to a ruleset instead of reading it. *)
Definition add_rule (rule : str) (st : SurgeState) : SurgeState :=
  mkSurge (allRules st ++ [rule]) (total_rules st) (S (local_rules st)) (remote_items st).
Definition add_remote (section value : str) (st : SurgeState) : SurgeState :=
  mkSurge (allRules st) (total_rules st) (S (local_rules st)) (remote_items st ++ [SetItem section "{NONAME}" value]).

Definition encoded (s : str) : str := default [] (urlSafeBase64Encode s).
Definition interval_option (x : RulesetContent) : str :=
  if (update_interval x =? 0)%Z then [] else ",update-interval=" ++ to_string (update_interval x).
Definition surge_reference (prefix : str) (x : RulesetContent) : str :=
  "RULE-SET," ++ prefix ++ "/getruleset?type=1&url=" ++ encoded (rule_path_typed x) ++ "," ++ rule_group x ++ interval_option x.
Definition quanx_reference (prefix : str) (x : RulesetContent) : str :=
  prefix ++ "/getruleset?type=2&url=" ++ encoded (rule_path_typed x) ++ "&group=" ++ encoded (rule_group x)
  ++ ", tag=" ++ rule_group x ++ ", enabled=true".

(** src/src/generator/config/ruleconvert.cpp:881-895 [rulesetToSurge, a ruleset that is read] *)
Definition surge_content (surge_ver : Z) (x : RulesetContent) (st : SurgeState) : option SurgeState :=
  match rule_content x with
  | [] => Some st
  | retrieved_rules =>
      let retrieved_rules := convertRuleset regFind regMatch regReplace getMD5 cache retrieved_rules (rule_type x) in
      surge_lines surge_ver (rule_group x) (getlines (getLineBreak retrieved_rules) retrieved_rules) st
  end.

(** src/src/generator/config/ruleconvert.cpp:784-801 [rulesetToSurge, an inline rule]
    [None] where the code has no defined behaviour: a rule without text, whose
    first field it reads. *)
Definition inline_rule (surge_ver : Z) (x : RulesetContent) : option str :=
  let strLine := drop 2 (rule_content x) in
  let strLine := if bool_decide (strLine = "MATCH"%str) then "FINAL"%str else strLine in
  strLine ← surge_rule surge_ver (rule_group x) strLine;
  Some (default strLine (replaceAllDistinct strLine ",," ",")).

(** src/src/generator/config/ruleconvert.cpp:781-880 [rulesetToSurge, one ruleset] *)
Definition surge_ruleset (surge_ver : Z) (prefix : str) (x : RulesetContent) (st : SurgeState) : option SurgeState :=
  let has_prefix := negb (bool_decide (prefix = [])) in
  if bool_decide (rule_path x = []) then
    strLine ← inline_rule surge_ver x;
    Some (mkSurge (allRules st ++ [strLine]) (S (total_rules st)) (S (local_rules st)) (remote_items st))
  else if (surge_ver =? -1)%Z && bool_decide (rule_type x = RULESET_QUANX) && isLink (rule_path x) then
    Some (add_remote "filter_remote"
      (rule_path x ++ ", tag=" ++ rule_group x ++ ", force-policy=" ++ rule_group x ++ ", enabled=true") st)
  else if fileExist (rule_path x) then
    if (2 <? surge_ver)%Z && has_prefix then Some (add_rule (surge_reference prefix x) st)
    else if (surge_ver =? -1)%Z && has_prefix then Some (add_remote "filter_remote" (quanx_reference prefix x) st)
    else if (surge_ver =? -4)%Z && has_prefix then
      Some (add_remote "Remote Rule"
        (prefix ++ "/getruleset?type=1&url=" ++ encoded (rule_path_typed x) ++ "," ++ rule_group x) st)
    else surge_content surge_ver x st
  else if isLink (rule_path x) then
    if (2 <? surge_ver)%Z then
      if bool_decide (rule_type x = RULESET_SURGE) then
        Some (add_rule ("RULE-SET," ++ rule_path x ++ "," ++ rule_group x ++ interval_option x) st)
      else if has_prefix then Some (add_rule (surge_reference prefix x) st)
      else Some st
    else if (surge_ver =? -1)%Z && has_prefix then Some (add_remote "filter_remote" (quanx_reference prefix x) st)
    else if (surge_ver =? -4)%Z then Some (add_remote "Remote Rule" (rule_path x ++ "," ++ rule_group x) st)
    else surge_content surge_ver x st
  else Some st.

(** src/src/generator/config/ruleconvert.cpp:777-781 [rulesetToSurge, the rulesets] *)
Fixpoint surge_rulesets (surge_ver : Z) (prefix : str) (contents : list RulesetContent) (st : SurgeState) : option SurgeState :=
  match contents with
  | [] => Some st
  | x :: contents =>
      if over_limit max_allowed_rules (total_rules st) then Some st
      else st ← surge_ruleset surge_ver prefix x st; surge_rulesets surge_ver prefix contents st
  end.

(** src/src/generator/config/ruleconvert.cpp:733-958 [rulesetToSurge]
    The operations on the document in order, and the number of rules for the
    statistics. *)
Definition rulesetToSurge (contents : list RulesetContent) (surge_ver : Z) (overwrite_original_rules : bool)
    (remote_path_prefix : str) : option (list IniOp * nat) :=
  st ← surge_rulesets surge_ver remote_path_prefix contents (mkSurge [] 0 0 []);
  Some (surge_sections surge_ver overwrite_original_rules ++ remote_items st
        ++ (SetItem (surge_section surge_ver) "{NONAME}" <$> allRules st), local_rules st).

(** ** Lemmas: the type of a rule *)

(** A text that names a type: no white space, comma or slash. *)
Definition type_word (T : str) : bool :=
  negb (bool_decide (T = [])) && forallb (fun c => negb (isSpace c || is_char "," c || is_char "/" c)) T.

Lemma type_word_byte T c : type_word T = true -> c ∈ T -> isSpace c = false /\ c <> ","%char /\ c <> "/"%char.
Proof.
  unfold type_word. rewrite andb_true_iff, forallb_forall. intros [_ Hall] Hc.
  specialize (Hall c (proj1 (list_elem_of_In _ _) Hc)). apply negb_true_iff, orb_false_iff in Hall as [Hall H3].
  apply orb_false_iff in Hall as [H1 H2]. unfold is_char in *. by repeat case_bool_decide.
Qed.

Lemma type_word_nonempty T : type_word T = true -> T <> [].
Proof. unfold type_word. intros H' ->. by simpl in H'. Qed.

(** A type in front stays in front when what follows is cut off at a byte
    that no type has. *)
Lemma type_prefix (T r : str) (c : ascii) (rest_ : str) : T `prefix_of` r ++ c :: rest_ -> c ∉ T -> T `prefix_of` r.
Proof.
  intros [t Ht] Hc. symmetry in Ht. apply app_eq_inv in Ht as [(k & -> & Hk)|(k & -> & Hk)]; [|by exists k].
  destruct k as [|d k]; [by rewrite app_nil_r|]. simplify_eq/=. exfalso. apply Hc, elem_of_app. right. by left.
Qed.

Lemma starts_with_prefix T s : starts_with T s = true <-> T `prefix_of` s.
Proof. rewrite starts_with_spec. done. Qed.

Lemma strip_keeps_type T line raw :
  type_word T = true -> startsWith line T = true -> startsWith (stripRulesetComment line raw) T = true.
Proof.
  unfold startsWith. rewrite !starts_with_prefix. intros HT Hp.
  destruct (strip_shape line raw) as [->|[(-> & ws & tail & Heq & Hws)|(ws & tail & Heq & Hne & Hws & _)]]; [done| |].
  - exfalso. pose proof (type_word_nonempty T HT). destruct T as [|c T]; [done|].
    destruct (type_word_byte _ c HT ltac:(by left)) as (Hs & _ & Hslash). destruct Hp as [t ->].
    destruct ws as [|w ws]; simplify_eq/=. apply Forall_cons in Hws as [Hw _]. congruence.
  - destruct ws as [|w ws]; [done|]. apply Forall_cons in Hws as [Hw _]. rewrite Heq in Hp.
    eapply type_prefix; [exact Hp|]. intros Hin. destruct (type_word_byte _ w HT Hin). congruence.
Qed.

Lemma transform_keeps_type T line group nro :
  type_word T = true -> startsWith line T = true ->
  exists rule, transformRuleToCommon line group nro = Some rule /\ startsWith rule T = true.
Proof.
  unfold startsWith. rewrite starts_with_prefix. intros HT Hp. unfold transformRuleToCommon.
  assert (Hc : ","%char ∉ T) by (intros Hin; by destruct (type_word_byte _ _ HT Hin) as (_ & ? & _)).
  destruct (split_view_spec line ",") as [[-> _]|(Hne & Hjoin & _)].
  { exfalso. pose proof (type_word_nonempty T HT). destruct Hp as [t Ht]. by destruct T. }
  destruct (split_view line ",") as [|t0 fs]; [done|].
  assert (Ht0 : T `prefix_of` t0).
  { assert (exists s, line = t0 \/ line = t0 ++ ","%char :: s) as [s Hs].
    { destruct fs as [|t1 fs].
      - destruct Hjoin as [->| ->]; [exists []; by left|]. exists []. by right.
      - destruct Hjoin as [-> | ->]; rewrite join_cons by done; rewrite <- ?app_assoc; simpl; eexists; by right. }
    destruct Hs as [-> | ->]; [done|]. by eapply type_prefix. }
  assert (Hall : forall s, starts_with T (t0 ++ s) = true).
  { intros s. apply starts_with_prefix. destruct Ht0 as [k ->]. exists (k ++ s). by rewrite app_assoc. }
  destruct fs as [|t1 fs]; eexists; (split; [done|apply Hall]).
Qed.

Lemma all_type_words ver T : T ∈ surge_types ver -> type_word T = true.
Proof.
  assert (Hall : Forall (fun T => type_word T = true) (Surge2RuleTypes ++ SurgeRuleTypes ++ QuanXRuleTypes ++ SurfRuleTypes)).
  { apply (bool_decide_unpack _). by vm_compute. }
  rewrite !Forall_app, !Forall_forall in Hall. destruct Hall as (H1 & H2 & H3 & H4).
  unfold surge_types. repeat case_match; auto.
Qed.

(** What a rule read from a ruleset begins with. *)
Definition typed_rule (ver : Z) (r : str) : Prop :=
  (exists T, T ∈ surge_types ver /\ startsWith r T = true) \/ (is_quantumult ver = true /\ startsWith r "IP6-CIDR" = true).

Lemma surge_rule_typed ver group line T :
  type_word T = true -> startsWith line T = true ->
  exists rule, surge_rule ver group line = Some rule /\ startsWith rule T = true.
Proof.
  intros HT Hl. unfold surge_rule. case_match; [by apply transform_keeps_type|].
  case_match; [by exists line|by apply transform_keeps_type].
Qed.

(** ** Lemmas: the generator *)

(** The generator only adds rules and remote items, and counts them all. *)
Definition extends (P : str -> Prop) (st st' : SurgeState) : Prop :=
  exists rules items, allRules st' = allRules st ++ rules /\ remote_items st' = remote_items st ++ items /\
    local_rules st' = local_rules st + length rules + length items /\ Forall P rules.

Lemma extends_refl P st : extends P st st.
Proof. exists [], []. rewrite !app_nil_r. split_and!; [done..|simpl; lia|constructor]. Qed.

Lemma extends_trans P st1 st2 st3 : extends P st1 st2 -> extends P st2 st3 -> extends P st1 st3.
Proof.
  intros (r1 & i1 & Ha1 & Hi1 & Hl1 & Hr1) (r2 & i2 & Ha2 & Hi2 & Hl2 & Hr2). exists (r1 ++ r2), (i1 ++ i2).
  rewrite Ha2, Ha1, Hi2, Hi1, Hl2, Hl1, !length_app, !app_assoc. split_and!; [done..|lia|by apply Forall_app].
Qed.

Lemma extends_rule (P : str -> Prop) st r total :
  P r -> extends P st (mkSurge (allRules st ++ [r]) total (S (local_rules st)) (remote_items st)).
Proof. intros Hr. exists [r], []. rewrite app_nil_r. split_and!; [done..|simpl; lia|by repeat constructor]. Qed.

Lemma extends_remote P st section v : extends P st (add_remote section v st).
Proof. exists [], [SetItem section "{NONAME}" v]. rewrite app_nil_r. split_and!; [done..|simpl; lia|constructor]. Qed.

Lemma extends_mono (P Q : str -> Prop) st st' : (forall r, P r -> Q r) -> extends P st st' -> extends Q st st'.
Proof. intros HPQ (r & i & ? & ? & ? & Hr). exists r, i. split_and!; try done. by eapply Forall_impl. Qed.

Lemma surge_lines_spec ver group lines st :
  exists st', surge_lines ver group lines st = Some st' /\ extends (typed_rule ver) st st'.
Proof.
  revert st. induction lines as [|line lines IH]; intros st; cbn [surge_lines]; [by eexists; split; [|apply extends_refl]|].
  destruct (over_limit _ _); [by eexists; split; [|apply extends_refl]|]. cbv zeta.
  set (line' := trimWhitespace line true true). destruct (ignored line'); [apply IH|].
  destruct (surge_supported ver line') eqn:Esup; cbn [negb]; [|apply IH].
  apply andb_true_iff in Esup as [_ Hex]. apply existsb_exists in Hex as (T & HT & Hp). apply list_elem_of_In in HT.
  pose proof (strip_keeps_type T line' false (all_type_words _ _ HT) Hp) as Hp2.
  set (line2 := stripRulesetComment line' false) in *. set (line3 := if _ && _ then _ else _).
  assert (Hrule : exists rule, surge_rule ver group line3 = Some rule /\ typed_rule ver rule).
  { subst line3. destruct (is_quantumult ver && startsWith line2 "IP-CIDR6") eqn:E6.
    - apply andb_true_iff in E6 as [Hq _].
      destruct (surge_rule_typed ver group (replace line2 0 8 "IP6-CIDR") "IP6-CIDR" eq_refl) as (rule & -> & Hr);
        [by apply (starts_with_app "IP6-CIDR")|]. exists rule. split; [done|]. by right.
    - destruct (surge_rule_typed ver group line2 T (all_type_words _ _ HT) Hp2) as (rule & -> & Hr).
      exists rule. split; [done|]. left. by exists T. }
  destruct Hrule as (rule & -> & Hr). cbn [mbind option_bind].
  match goal with |- exists st', surge_lines _ _ _ ?s1 = _ /\ _ => destruct (IH s1) as (st' & -> & Hext) end.
  exists st'. split; [done|]. eapply extends_trans; [by apply extends_rule|exact Hext].
Qed.

(** The rules of a generated section. *)
Definition surge_ok (ver : Z) (contents : list RulesetContent) (r : str) : Prop :=
  typed_rule ver r \/ ((2 < ver)%Z /\ startsWith r "RULE-SET," = true) \/
  exists x, x ∈ contents /\ rule_path x = [] /\ inline_rule ver x = Some r.

(** An inline rule has a text behind its mark. *)
Definition inline_ok (x : RulesetContent) : Prop := rule_path x = [] -> 2 < length (rule_content x).

Lemma split_view_nonempty s c : s <> [] -> split_view s c <> [].
Proof. intros Hs. by destruct (split_view_spec s c) as [[-> _]|[? _]]. Qed.

Lemma inline_rule_some ver x : inline_ok x -> rule_path x = [] -> is_Some (inline_rule ver x).
Proof.
  intros Hok Hp. specialize (Hok Hp). unfold inline_rule. cbv zeta. set (s := if bool_decide _ then _ else _).
  assert (Hs : s <> []).
  { subst s. case_bool_decide; [done|]. intros Hd. apply (f_equal length) in Hd. rewrite length_drop in Hd. simpl in Hd. lia. }
  assert (Htr : forall nro, is_Some (transformRuleToCommon s (rule_group x) nro)).
  { intros nro. unfold transformRuleToCommon. pose proof (split_view_nonempty s "," Hs).
    by destruct (split_view s ",") as [|t0 [|t1 fs]]. }
  assert (is_Some (surge_rule ver (rule_group x) s)) as [r ->]; [|done].
  unfold surge_rule. case_match; [done|]. case_match; done.
Qed.

Lemma surge_content_spec ver contents x st :
  exists st', surge_content ver x st = Some st' /\ extends (surge_ok ver contents) st st'.
Proof.
  unfold surge_content. destruct (rule_content x) as [|c s]; [by eexists; split; [|apply extends_refl]|].
  match goal with |- exists st', surge_lines ?v ?g ?l ?s = _ /\ _ => destruct (surge_lines_spec v g l s) as (st' & -> & Hext) end.
  exists st'. split; [done|]. eapply extends_mono; [|exact Hext]. intros r. by left.
Qed.

Lemma surge_ruleset_spec ver prefix contents x st :
  inline_ok x -> x ∈ contents ->
  exists st', surge_ruleset ver prefix x st = Some st' /\ extends (surge_ok ver contents) st st'.
Proof.
  intros Hok Hx. unfold surge_ruleset. cbv zeta. case_bool_decide as Hpath.
  { destruct (inline_rule_some ver x Hok Hpath) as [r Hr]. rewrite Hr. cbn [mbind option_bind].
    eexists. split; [done|]. apply extends_rule. right; right. by exists x. }
  assert (Href : forall u, (2 <? ver)%Z = true -> surge_ok ver contents ("RULE-SET," ++ u)).
  { intros u Hv%Z.ltb_lt. right; left. split; [done|]. apply starts_with_app. }
  assert (Hadd : forall st', extends (surge_ok ver contents) st st' -> exists st'', Some st' = Some st'' /\
    extends (surge_ok ver contents) st st'') by eauto.
  assert (Hrem : forall sec v, exists st', Some (add_remote sec v st) = Some st' /\ extends (surge_ok ver contents) st st')
    by (intros; apply Hadd, extends_remote).
  assert (Hrule : forall u, (2 <? ver)%Z = true -> exists st', Some (add_rule ("RULE-SET," ++ u) st) = Some st' /\
    extends (surge_ok ver contents) st st') by (intros u Hv; by apply Hadd, extends_rule, Href).
  destruct (_ && isLink (rule_path x)); [apply Hrem|].
  destruct (fileExist (rule_path x)); [|destruct (isLink (rule_path x)); [|by apply Hadd, extends_refl]];
    destruct (2 <? ver)%Z; cbn [andb]; destruct (negb (bool_decide (prefix = []))); rewrite ?andb_true_r, ?andb_false_r;
    repeat case_match; first [by apply Hrem|by apply Hrule|by apply surge_content_spec|by apply Hadd, extends_refl].
Qed.

Lemma surge_rulesets_spec ver prefix all contents st :
  Forall inline_ok contents -> contents ⊆ all ->
  exists st', surge_rulesets ver prefix contents st = Some st' /\ extends (surge_ok ver all) st st'.
Proof.
  intros Hok. revert st. induction Hok as [|x contents Hx _ IH]; intros st Hsub; cbn [surge_rulesets].
  { eexists. split; [done|apply extends_refl]. }
  destruct (over_limit _ _); [eexists; split; [done|apply extends_refl]|].
  destruct (surge_ruleset_spec ver prefix all x st Hx) as (st1 & -> & H1); [apply Hsub; by left|]. cbn [mbind option_bind].
  destruct (IH st1) as (st2 & -> & H2); [intros y Hy; apply Hsub; by right|]. eexists. split; [done|].
  by eapply extends_trans.
Qed.

(** ** Theorem: the generated section *)

(** C30: When every inline rule has a text the generator has a defined result: the
    operations on the sections, then items of other sections, then the rules
    of this one, all of them counted; a rule that comes out of a ruleset
    begins with a type the client supports, a reference to a ruleset is made
    for Surge from version 3 on only, and every other rule is an inline one. *)
Theorem surge_rules_supported contents ver overwrite prefix :
  Forall inline_ok contents ->
  exists remote rules, rulesetToSurge contents ver overwrite prefix =
      Some (surge_sections ver overwrite ++ remote ++ (SetItem (surge_section ver) "{NONAME}" <$> rules),
            length rules + length remote) /\
    Forall (surge_ok ver contents) rules.
Proof.
  intros Hok. unfold rulesetToSurge.
  destruct (surge_rulesets_spec ver prefix contents contents (mkSurge [] 0 0 []) Hok) as (st & -> & Hext); [done|].
  destruct Hext as (rules & remote & Ha & Hi & Hl & Hr). simpl in Ha, Hi, Hl. exists remote, rules. cbn [mbind option_bind].
  by rewrite Ha, Hi, Hl.
Qed.
End Surge.

(** ** The payload of a Clash provider *)

Section Payload.
Context `{!Pcre}.

Lemma output_step_entry type group clash surge quanx line :
  type = 3%Z \/ type = 4%Z \/ type = 6%Z ->
  output_step type group clash surge quanx line = [] \/
  exists e, output_step type group clash surge quanx line = "  - " ++ e.
Proof.
  intros Htype. unfold output_step. cbv zeta.
  destruct Htype as [->|[->| ->]]; cbn [Z.eqb Pos.eqb andb]; (case_match; [by left|]).
  - destruct (filterLine _) as [[posb f]|]; [right|by left]. by eexists ("'" ++ _).
  - destruct (filterLine _) as [[posb f]|]; [right|by left]. by eexists ("'" ++ _).
  - right. by eexists.
Qed.

(** The answer to a request for a Clash provider (types 3, 4 and 6) is a
    payload with at least one entry, and nothing else. *)
Theorem payload_wellformed content type group clash surge quanx :
  type = 3%Z \/ type = 4%Z \/ type = 6%Z ->
  exists entries, entries <> [] /\
    formatRulesetOutput content type group clash surge quanx = payload_header ++ concat entries /\
    Forall (fun e => exists e', e = "  - " ++ e') entries.
Proof.
  intros Htype. unfold formatRulesetOutput. set (lines := getlines _ _). clearbody lines.
  assert ((if (type =? 3)%Z || (type =? 4)%Z || (type =? 6)%Z then payload_header else []) = payload_header) as ->
    by (by destruct Htype as [->|[->| ->]]).
  assert (Hfold : forall out, exists entries,
    foldl (fun out line => out ++ output_step type group clash surge quanx line) out lines = out ++ concat entries /\
    Forall (fun e => exists e', e = "  - " ++ e') entries).
  { induction lines as [|l lines IH]; intros out; cbn [foldl]; [exists []; by rewrite app_nil_r|].
    destruct (IH (out ++ output_step type group clash surge quanx l)) as (entries & -> & Hall).
    destruct (output_step_entry type group clash surge quanx l Htype) as [-> |[e ->]].
    - exists entries. by rewrite app_nil_r.
    - exists (("  - " ++ e) :: entries). split; [by rewrite <- app_assoc|]. constructor; [by exists e|done]. }
  destruct (Hfold payload_header) as (entries & -> & Hall). case_bool_decide as Hempty.
  - assert (concat entries = []) as Hc.
    { apply (f_equal length) in Hempty. rewrite length_app in Hempty. destruct (concat entries); [done|simpl in Hempty; lia]. }
    rewrite Hc, app_nil_r.
    exists [(if (type =? 3)%Z then "  - '--placeholder--'" else if (type =? 4)%Z then "  - '0.0.0.0/32'"
             else if (type =? 6)%Z then "  - 'DOMAIN,--placeholder--'" else [])].
    split_and!; [done|cbn [concat]; by rewrite app_nil_r|]. constructor; [|constructor].
    destruct Htype as [->|[->| ->]]; by eexists.
  - exists entries. split_and!; [|done|done]. intros ->. apply Hempty, app_nil_r.
Qed.
End Payload.

(** ** Examples *)

Definition example_contents : list RulesetContent :=
  [mkContent "Proxy" [] [] RULESET_SURGE "[]GEOIP,CN" 0 default_options ServerFetched;
   mkContent "Ads" "https://rules.example/ads.list" "surge:https://rules.example/ads.list" RULESET_SURGE
     ("DOMAIN,a.com // note" ++ nl ++ "PORT,80" ++ nl ++ "IP-CIDR6,::/0,no-resolve") 86400 default_options ServerFetched].

Example surge_example :
  rulesetToSurge (fun _ => []) (fun _ => None) 0 (fun _ => false) example_contents 4 true [] =
    Some ([SetCurrentSection "Rule"; EraseCurrent; SetItem "Rule" "{NONAME}" "GEOIP,CN,Proxy";
           SetItem "Rule" "{NONAME}" "RULE-SET,https://rules.example/ads.list,Ads,update-interval=86400"], 2) /\
  rulesetToSurge (fun _ => []) (fun _ => None) 0 (fun _ => false) example_contents (-1) false [] =
    Some ([SetCurrentSection "filter_local"; SetItem "filter_local" "{NONAME}" "GEOIP,CN,Proxy";
           SetItem "filter_local" "{NONAME}" "DOMAIN,a.com,Ads";
           SetItem "filter_local" "{NONAME}" "IP6-CIDR,::/0,Ads,no-resolve"], 3).
Proof. by vm_compute. Qed.

(** A logical rule keeps the text of the ruleset: no policy is appended to it
    for Surge, while the generators for Clash append the group. *)
Example surge_logical_rule :
  surge_rule 4 "Ads" "AND,((DOMAIN,a.com),(DEST-PORT,443))" = Some "AND,((DOMAIN,a.com),(DEST-PORT,443))"%str /\
  appendClashRuleTarget "AND,((DOMAIN,a.com),(DST-PORT,443))" "Ads" false = "AND,((DOMAIN,a.com),(DST-PORT,443)),Ads"%str.
Proof. by vm_compute. Qed.

Lemma surge_rules_supported_witness :
  exists remote rules,
    rulesetToSurge (fun _ => []) (fun _ => None) 0 (fun _ => false) example_contents 4 true [] =
      Some (surge_sections 4 true ++ remote ++ (SetItem (surge_section 4) "{NONAME}" <$> rules), length rules + length remote) /\
    Forall (surge_ok 4 example_contents) rules.
Proof.
  apply (surge_rules_supported (fun _ => []) (fun _ => None) 0 (fun _ => false) example_contents 4 true []).
  constructor; [intros _; simpl; lia|]. constructor; [intros H; discriminate H|]. constructor.
Defined.

Lemma payload_wellformed_witness :
  exists entries, entries <> [] /\
    formatRulesetOutput ("DOMAIN-SUFFIX,a.com" ++ nl ++ "DOMAIN,b.com") 3 "Ads" [] [] [] = payload_header ++ concat entries /\
    Forall (fun e => exists e', e = "  - " ++ e') entries.
Proof. apply (payload_wellformed ("DOMAIN-SUFFIX,a.com" ++ nl ++ "DOMAIN,b.com") 3 "Ads" [] [] []). by left. Defined.

Example payload_example :
  formatRulesetOutput ("DOMAIN-SUFFIX,a.com" ++ nl ++ "DOMAIN,b.com") 3 "Ads" [] [] [] =
  payload_header ++ "  - '+.a.com'" ++ nl ++ "  - 'b.com'" ++ nl.
Proof. by vm_compute. Qed.
