(* ===== verification/SingBox.v ===== *)
(** * generator/config/ruleconvert.cpp: rules for sing-box

    The rules of a ruleset are collected in buckets, one per field of a
    sing-box rule, and each bucket becomes one rule; references to rule sets
    are defined at the end.  The document is a [Json] value; the regular
    expressions are those of [Regexp], the conversion cache and the digest are
    parameters. *)

From S2P Require Import Prelude Str StringUtil Ruleset RuleConvert ShortLinks Regexp NodeSelect SurgeRules.
Open Scope nat_scope.

(** src/src/generator/config/ruleconvert.cpp:34 *)
Definition SingBoxRuleTypes : list str :=
  basic_types ++ ["IP-VERSION"; "INBOUND"; "PROTOCOL"; "NETWORK"; "GEOSITE"; "SRC-GEOIP"; "DOMAIN-REGEX"; "PROCESS-NAME";
    "PROCESS-PATH"; "PACKAGE-NAME"; "PORT"; "PORT-RANGE"; "SRC-PORT"; "SRC-PORT-RANGE"; "USER"; "USER-ID"]%str.

(** src/src/generator/config/ruleconvert.cpp:962 *)
Inductive SingBoxRuleValueKind := KString | KInteger | KBoolean.
#[export] Instance kind_eq_dec : EqDecision SingBoxRuleValueKind.
Proof. solve_decision. Defined.

(** src/src/generator/config/ruleconvert.cpp:964-969 *)
Record SingBoxRuleBucket := mkBucket {
  field : str; bucket_kind : SingBoxRuleValueKind; match_rule_set_source : bool; values : list str
}.

(** src/src/generator/config/ruleconvert.cpp:981-990
    [std::from_chars] on an unsigned number reads digits only and fails when
    the number does not fit. *)
Definition parseSingBoxRuleInteger (value : str) (maximum : Z) : option Z :=
  if bool_decide (value = []) then None
  else if forallb isdigit value && (digits_value 0 value <=? UINT32_MAX)%Z && (digits_value 0 value <=? maximum)%Z
  then Some (digits_value 0 value) else None.

(** src/src/generator/config/ruleconvert.cpp:976-979 *)
Definition singBoxRuleSetTag (family value : str) : str := family ++ "-" ++ value.

(** What one rule asks for: the field, the kind of its value, whether rule
    sets match the source, the value, and the code of a rule set. *)
Inductive RuleSetFamily := Geosite | Geoip.
Record Entry := mkEntry {
  e_field : str; e_kind : SingBoxRuleValueKind; e_source : bool; e_value : str; e_code : option (RuleSetFamily * str)
}.

Section SingBox.
Context `{!Pcre}.

(** src/src/generator/config/ruleconvert.cpp:971-974 *)
Definition singBoxRuleSetCodeSafe (value : str) : bool :=
  negb (bool_decide (value = [])) && regMatch value "^[a-z0-9][a-z0-9._@!+-]*$".

Definition plain_entry (field value : str) : option Entry := Some (mkEntry field KString false value None).
Definition integer_entry (field value : str) (maximum : Z) : option Entry :=
  _ ← parseSingBoxRuleInteger value maximum; Some (mkEntry field KInteger false value None).

(** src/src/generator/config/ruleconvert.cpp:1015-1087 [appendSingBoxRule, the entry of a rule] *)
Definition sing_box_entry (type value : str) : option Entry :=
  let typed t := bool_decide (type = t) in
  if typed "DOMAIN"%str then plain_entry "domain" value
  else if typed "DOMAIN-SUFFIX"%str then plain_entry "domain_suffix" value
  else if typed "DOMAIN-KEYWORD"%str then plain_entry "domain_keyword" value
  else if typed "DOMAIN-REGEX"%str then plain_entry "domain_regex" value
  else if typed "IP-CIDR"%str || typed "IP-CIDR6"%str then plain_entry "ip_cidr" value
  else if typed "SRC-IP-CIDR"%str then plain_entry "source_ip_cidr" value
  else if typed "IP-VERSION"%str then
    if bool_decide (value = "4"%str) || bool_decide (value = "6"%str) then integer_entry "ip_version" value 6 else None
  else if typed "INBOUND"%str then plain_entry "inbound" value
  else if typed "PROTOCOL"%str then plain_entry "protocol" value
  else if typed "NETWORK"%str then plain_entry "network" value
  else if typed "PROCESS-NAME"%str then plain_entry "process_name" value
  else if typed "PROCESS-PATH"%str then plain_entry "process_path" value
  else if typed "PACKAGE-NAME"%str then plain_entry "package_name" value
  else if typed "PORT"%str then integer_entry "port" value 65535
  else if typed "SRC-PORT"%str then integer_entry "source_port" value 65535
  else if typed "USER-ID"%str then integer_entry "user_id" value UINT32_MAX
  else if typed "PORT-RANGE"%str then plain_entry "port_range" value
  else if typed "SRC-PORT-RANGE"%str then plain_entry "source_port_range" value
  else if typed "USER"%str then plain_entry "auth_user" value
  else if typed "GEOSITE"%str then
    if singBoxRuleSetCodeSafe value
    then Some (mkEntry "rule_set" KString false (singBoxRuleSetTag "geosite" value) (Some (Geosite, value))) else None
  else if typed "GEOIP"%str || typed "SRC-GEOIP"%str then
    let source := typed "SRC-GEOIP"%str in
    if bool_decide (value = "private"%str) then
      Some (mkEntry (if source then "source_ip_is_private" else "ip_is_private") KBoolean false "true" None)
    else if singBoxRuleSetCodeSafe value
    then Some (mkEntry "rule_set" KString source (singBoxRuleSetTag "geoip" value) (Some (Geoip, value))) else None
  else None.

(** The key of a bucket. *)
Definition bucket_key (e : Entry) : str := e_field e ++ (if e_source e then ":source" else ":destination").

(** src/src/generator/config/ruleconvert.cpp:1089-1098 [appendSingBoxRule, bucket]
    The map is a list in the order of its keys. *)
Fixpoint bucket_add (e : Entry) (buckets : list (str * SingBoxRuleBucket)) : list (str * SingBoxRuleBucket) :=
  let new old := mkBucket (e_field e) (e_kind e) (e_source e) (if bool_decide (e_value e ∈ old) then old else old ++ [e_value e]) in
  match buckets with
  | [] => [(bucket_key e, new [])]
  | (k, b) :: buckets' =>
      if bool_decide (k = bucket_key e) then (k, new (values b)) :: buckets'
      else if str_leb (bucket_key e) k then (bucket_key e, new []) :: buckets
      else (k, b) :: bucket_add e buckets'
  end.

(** [std::set::emplace]. *)
Fixpoint code_add (c : str) (l : list str) : list str :=
  match l with
  | [] => [c]
  | d :: l' => if bool_decide (d = c) then l else if str_leb c d then c :: l else d :: code_add c l'
  end.

(** What the generator keeps: the buckets of the ruleset, the codes of all
    rule sets, the final outbound. *)
Record SingBoxState := mkSing {
  buckets : list (str * SingBoxRuleBucket); geosite_codes : list str; geoip_codes : list str; final : str
}.

Definition add_code (code : option (RuleSetFamily * str)) (st : SingBoxState) : SingBoxState :=
  match code with
  | Some (Geosite, c) => mkSing (buckets st) (code_add c (geosite_codes st)) (geoip_codes st) (final st)
  | Some (Geoip, c) => mkSing (buckets st) (geosite_codes st) (code_add c (geoip_codes st)) (final st)
  | None => st
  end.

(** src/src/generator/config/ruleconvert.cpp:998-1004 [appendSingBoxRule, the fields]
    The type and the value of a rule with at least two fields. *)
Definition rule_fields (rule : str) : option (str * str) :=
  match split_view rule "," with
  | t :: v :: _ => Some (toUpper (trimWhitespace t false true), toLower (trimWhitespace v false true))
  | _ => None
  end.

(** src/src/generator/config/ruleconvert.cpp:992-1101
    Whether the rule counts, and the new state. *)
Definition appendSingBoxRule (rule rule_group : str) (st : SingBoxState) : bool * SingBoxState :=
  match rule_fields rule with
  | None => (false, st)
  | Some (type, value) =>
      if negb (bool_decide (type ∈ SingBoxRuleTypes)) then (false, st)
      else if bool_decide (type = "MATCH"%str) || bool_decide (type = "FINAL"%str) then
        (true, mkSing (buckets st) (geosite_codes st) (geoip_codes st) rule_group)
      else match sing_box_entry type value with
      | None => (false, st)
      | Some e =>
          let st := add_code (e_code e) st in
          (true, mkSing (bucket_add e (buckets st)) (geosite_codes st) (geoip_codes st) (final st))
      end
  end.

(** ** Emission *)

(** [rapidjson::Value(text.c_str(), allocator)] *)
Definition json_text (s : str) : Json := JString (c_str s).
Definition json_integer (value : str) : Json := JInteger (default 0%Z (parseSingBoxRuleInteger value UINT32_MAX)).

(** src/src/generator/config/ruleconvert.cpp:1109-1140 [emitSingBoxRuleBuckets, one bucket] *)
Definition emit_bucket (outbound : str) (bucket : SingBoxRuleBucket) : Json :=
  JObject ([(c_str (field bucket),
     match bucket_kind bucket, values bucket with
     | KBoolean, _ => JBool true
     | KInteger, [value] => json_integer value
     | KInteger, values => JArray (json_integer <$> values)
     | KString, values => JArray (json_text <$> values)
     end)]
   ++ (if match_rule_set_source bucket then [("rule_set_ip_cidr_match_source"%str, JBool true)] else [])
   ++ [("action"%str, JString "route"); ("outbound"%str, json_text outbound)]).

(** src/src/generator/config/ruleconvert.cpp:1103-1142 *)
Definition emitSingBoxRuleBuckets (buckets : list (str * SingBoxRuleBucket)) (outbound : str) : list Json :=
  emit_bucket outbound ∘ snd <$> buckets.

(** src/src/generator/config/ruleconvert.cpp:1144-1163 *)
Definition appendSingBoxRemoteRuleSet (family code : str) (acc : list Json * gset str) : list Json * gset str :=
  let '(rule_sets, existing_tags) := acc in
  let tag := singBoxRuleSetTag family code in
  if bool_decide (tag ∈ existing_tags) then acc
  else
    (rule_sets ++ [JObject [("type"%str, JString "remote"); ("tag"%str, json_text tag); ("format"%str, JString "binary");
       ("url"%str, json_text ("https://raw.githubusercontent.com/SagerNet/sing-" ++ family ++ "/rule-set/" ++ tag ++ ".srs"));
       ("download_detour"%str, JString "DIRECT")]],
     {[tag]} ∪ existing_tags).

(** src/src/generator/config/ruleconvert.cpp:1165-1172 *)
Definition preserveSingBoxBaseActionRule (rule : Json) : bool :=
  match rule with
  | JObject m =>
      match get_string (member "action" m) with
      | Some action => bool_decide (action ∈ ["sniff"; "hijack-dns"; "resolve"; "route-options"]%str)
      | None => false
      end
  | _ => false
  end.

(** ** The generator *)

Context (getMD5 : str -> str) (cache : str -> option str) (max_allowed_rules : nat).

(** src/src/generator/config/ruleconvert.cpp:1258-1273 [rulesetToSingBox, the lines of a ruleset] *)
Fixpoint sing_lines (rule_group : str) (lines : list str) (st : SingBoxState) (total_rules : nat) : SingBoxState * nat :=
  match lines with
  | [] => (st, total_rules)
  | strLine :: lines =>
      if over_limit max_allowed_rules total_rules then (st, total_rules)
      else
        let strLine := trimWhitespace strLine true true in
        if ignored strLine then sing_lines rule_group lines st total_rules
        else
          let '(added, st) := appendSingBoxRule (stripRulesetComment strLine false) rule_group st in
          sing_lines rule_group lines st (if (added : bool) then S total_rules else total_rules)
  end.

(** Every ruleset starts with buckets of its own. *)
Definition fresh (st : SingBoxState) : SingBoxState := mkSing [] (geosite_codes st) (geoip_codes st) (final st).

(** src/src/generator/config/ruleconvert.cpp:1225-1275 [rulesetToSingBox, the rulesets] *)
Fixpoint sing_rulesets (contents : list RulesetContent) (rules : list Json) (st : SingBoxState) (total_rules : nat) :
    list Json * SingBoxState * nat :=
  match contents with
  | [] => (rules, st, total_rules)
  | x :: contents =>
      if over_limit max_allowed_rules total_rules then (rules, st, total_rules)
      else match rule_content x with
      | [] => sing_rulesets contents rules st total_rules
      | retrieved_rules =>
          if startsWith retrieved_rules "[]" then
            let '(added, st) := appendSingBoxRule (drop 2 retrieved_rules) (rule_group x) (fresh st) in
            if (added : bool) then
              sing_rulesets contents (rules ++ emitSingBoxRuleBuckets (buckets st) (rule_group x)) st (S total_rules)
            else sing_rulesets contents rules st total_rules
          else
            let retrieved_rules := convertRuleset regFind regMatch regReplace getMD5 cache retrieved_rules (rule_type x) in
            let '(st, total_rules) :=
              sing_lines (rule_group x) (getlines (getLineBreak retrieved_rules) retrieved_rules) (fresh st) total_rules in
            sing_rulesets contents (rules ++ emitSingBoxRuleBuckets (buckets st) (rule_group x)) st total_rules
      end
  end.

(** [RemoveMember]: the last member takes the place of the removed one. *)
Definition remove_member (name : str) (l : list (str * Json)) : list (str * Json) :=
  match list_find (fun m => m.1 = name) l, last l with
  | Some (i, _), Some m => removelast (<[i := m]> l)
  | _, _ => l
  end.

(** src/src/utils/rapidjson_extra.h:108-125 [AddMemberOrReplace] *)
Fixpoint AddMemberOrReplace (name : str) (value : Json) (l : list (str * Json)) : list (str * Json) :=
  match l with
  | [] => [(name, value)]
  | (n, v) :: l => if bool_decide (n = name) then (n, value) :: l else (n, v) :: AddMemberOrReplace name value l
  end.

(** src/src/generator/config/ruleconvert.cpp:1187-1191 [rulesetToSingBox, route]
    The document without a member "route" that is no object, and the members
    of the route. *)
Definition route_of (base_rule : list (str * Json)) : list (str * Json) * list (str * Json) :=
  match member "route" base_rule with
  | Some (JObject route) => (base_rule, route)
  | Some _ => (remove_member "route" base_rule, [])
  | None => (base_rule, [])
  end.

Definition array_of (j : option Json) : option (list Json) := match j with Some (JArray l) => Some l | _ => None end.

(** src/src/generator/config/ruleconvert.cpp:1193-1208 [rulesetToSingBox, rules of the base] *)
Definition base_rules (route : list (str * Json)) (overwrite_original_rules : bool) : list Json :=
  match array_of (member "rules" route) with
  | Some l => if overwrite_original_rules then filter (fun r => preserveSingBoxBaseActionRule r = true) l else l
  | None => []
  end.

(** src/src/generator/config/ruleconvert.cpp:1210-1218 [rulesetToSingBox, modes] *)
Definition clash_modes : list Json :=
  [JObject [("clash_mode"%str, JString "Global"); ("action"%str, JString "route"); ("outbound"%str, JString "GLOBAL")];
   JObject [("clash_mode"%str, JString "Direct"); ("action"%str, JString "route"); ("outbound"%str, JString "DIRECT")]].

(** src/src/generator/config/ruleconvert.cpp:1277-1287 [rulesetToSingBox, tags of the base] *)
Definition rule_set_tags (rule_sets : list Json) : list str :=
  omap (fun r => match r with JObject m => get_string (member "tag" m) | _ => None end) rule_sets.

(** src/src/generator/config/ruleconvert.cpp:1277-1293 [rulesetToSingBox, rule sets] *)
Definition sing_rule_sets (route : list (str * Json)) (st : SingBoxState) : list Json :=
  let rule_sets := default [] (array_of (member "rule_set" route)) in
  let acc := (rule_sets, list_to_set (rule_set_tags rule_sets)) in
  let acc := foldl (fun acc code => appendSingBoxRemoteRuleSet "geosite" code acc) acc (geosite_codes st) in
  (foldl (fun acc code => appendSingBoxRemoteRuleSet "geoip" code acc) acc (geoip_codes st)).1.

(** src/src/generator/config/ruleconvert.cpp:1176-1302
    The new document and the number of rules for the statistics. *)
Definition rulesetToSingBox (base_rule : list (str * Json)) (contents : list RulesetContent)
    (overwrite_original_rules singBoxAddClashModes : bool) : list (str * Json) * nat :=
  let '(base_rule, route) := route_of base_rule in
  let rules := base_rules route overwrite_original_rules ++ (if singBoxAddClashModes then clash_modes else []) in
  let '(rules, st, total_rules) := sing_rulesets contents rules (mkSing [] [] [] []) 0 in
  let route' := AddMemberOrReplace "final" (json_text (final st))
    (AddMemberOrReplace "rule_set" (JArray (sing_rule_sets route st)) (AddMemberOrReplace "rules" (JArray rules) route)) in
  (AddMemberOrReplace "route" (JObject route') base_rule, total_rules).

(** ** Lemmas: entries *)

Definition from_rule (e : Entry) : Prop := exists type value, sing_box_entry type value = Some e.

Definition family_name (f : RuleSetFamily) : str := match f with Geosite => "geosite" | Geoip => "geoip" end.

(** The names of fields are texts of the program, and a reference to a rule
    set comes with its code. *)
Definition entry_ok (e : Entry) : Prop :=
  c_str (e_field e) = e_field e /\
  (e_field e = "rule_set"%str ->
   e_kind e = KString /\ exists f c, e_code e = Some (f, c) /\ e_value e = singBoxRuleSetTag (family_name f) c).

Lemma plain_entry_ok name value e :
  c_str name = name -> name <> "rule_set"%str -> plain_entry name value = Some e -> entry_ok e.
Proof. intros Hc Hn [= <-]. by split. Qed.

Lemma integer_entry_ok name value n e :
  c_str name = name -> name <> "rule_set"%str -> integer_entry name value n = Some e -> entry_ok e.
Proof. unfold integer_entry. intros Hc Hn. destruct (parseSingBoxRuleInteger _ _); [|done]. intros [= <-]. by split. Qed.

Lemma from_rule_ok e : from_rule e -> entry_ok e.
Proof.
  intros (type & value & He). unfold sing_box_entry in He.
  repeat match type of He with
  | (if ?b then _ else _) = Some _ => destruct b eqn:?; [first [by eapply plain_entry_ok; [..|exact He] |
      by eapply integer_entry_ok; [..|exact He] | idtac]|]
  end; try done.
  - injection He as <-. split; [done|]. intros _. split; [done|]. by exists Geosite, value.
  - injection He as <-. by destruct (bool_decide (type = "SRC-GEOIP"%str)).
  - injection He as <-. split; [done|]. intros _. split; [done|]. by exists Geoip, value.
Qed.

Lemma bucket_key_inj e e' : bucket_key e = bucket_key e' -> e_field e = e_field e' /\ e_source e = e_source e'.
Proof.
  unfold bucket_key. destruct (e_source e), (e_source e'); intros Heq.
  - by apply app_inv_tail in Heq.
  - apply (f_equal last) in Heq. rewrite !last_app in Heq. done.
  - apply (f_equal last) in Heq. rewrite !last_app in Heq. done.
  - by apply app_inv_tail in Heq.
Qed.

(** ** Lemmas: buckets *)

Definition has_value (k v : str) (l : list (str * SingBoxRuleBucket)) : Prop := exists b, (k, b) ∈ l /\ v ∈ values b.

(** The codes an entry needs are recorded. *)
Definition recorded (st : SingBoxState) (e : Entry) : Prop :=
  match e_code e with
  | Some (Geosite, c) => c ∈ geosite_codes st
  | Some (Geoip, c) => c ∈ geoip_codes st
  | None => True
  end.

(** A bucket: the attributes of its entries, and their values once each. *)
Definition bucket_ok (st : SingBoxState) (kb : str * SingBoxRuleBucket) : Prop :=
  NoDup (values kb.2) /\
  (exists e0, from_rule e0 /\ kb.1 = bucket_key e0 /\ field kb.2 = e_field e0 /\ bucket_kind kb.2 = e_kind e0 /\
     match_rule_set_source kb.2 = e_source e0) /\
  forall v, v ∈ values kb.2 -> exists e, from_rule e /\ recorded st e /\ bucket_key e = kb.1 /\ e_value e = v.

Definition add_value (v : str) (old : list str) : list str := if bool_decide (v ∈ old) then old else old ++ [v].

Lemma elem_of_add_value v old x : x ∈ add_value v old <-> x = v \/ x ∈ old.
Proof. unfold add_value. case_bool_decide; [naive_solver|]. rewrite elem_of_app, list_elem_of_singleton. naive_solver. Qed.

Lemma NoDup_add_value v old : NoDup old -> NoDup (add_value v old).
Proof. unfold add_value. intros Hn. case_bool_decide; [done|]. apply NoDup_app. split_and!; [done|set_solver|apply NoDup_singleton]. Qed.

Lemma bucket_add_unfold e k b l :
  bucket_add e ((k, b) :: l) =
  if bool_decide (k = bucket_key e) then (k, mkBucket (e_field e) (e_kind e) (e_source e) (add_value (e_value e) (values b))) :: l
  else if str_leb (bucket_key e) k then
    (bucket_key e, mkBucket (e_field e) (e_kind e) (e_source e) [e_value e]) :: (k, b) :: l
  else (k, b) :: bucket_add e l.
Proof. done. Qed.

Lemma has_value_cons k v k' b l : has_value k v ((k', b) :: l) <-> (k = k' /\ v ∈ values b) \/ has_value k v l.
Proof.
  unfold has_value. setoid_rewrite elem_of_cons. split.
  - intros (b' & [[= -> ->]|Hb] & Hv); [by left|right; by exists b'].
  - intros [[-> Hv]|(b' & Hb & Hv)]; [exists b|exists b']; auto.
Qed.

Lemma has_value_nil k v : ~ has_value k v [].
Proof. intros (b & Hb & _). by apply elem_of_nil in Hb. Qed.

Lemma bucket_add_has e l k v : has_value k v (bucket_add e l) <-> has_value k v l \/ (k = bucket_key e /\ v = e_value e).
Proof.
  induction l as [|[k' b'] l IH].
  - simpl. rewrite has_value_cons. simpl. rewrite list_elem_of_singleton. pose proof (has_value_nil k v). naive_solver.
  - rewrite bucket_add_unfold. case_bool_decide as Hk; [subst k'|destruct (str_leb _ _)]; rewrite !has_value_cons; simpl.
    + rewrite elem_of_add_value. naive_solver.
    + rewrite list_elem_of_singleton. naive_solver.
    + rewrite IH. naive_solver.
Qed.

Lemma bucket_add_ok st e l :
  from_rule e -> recorded st e -> Forall (bucket_ok st) l -> Forall (bucket_ok st) (bucket_add e l).
Proof.
  intros He Hr Hall.
  assert (Hnew : bucket_ok st (bucket_key e, mkBucket (e_field e) (e_kind e) (e_source e) [e_value e])).
  { split_and!; [apply NoDup_singleton|by exists e|]. intros v Hv. simpl in Hv. apply list_elem_of_singleton in Hv as ->.
    by exists e. }
  induction Hall as [|[k b] l Hb Hall IH]; [constructor; [exact Hnew|constructor]|]. rewrite bucket_add_unfold.
  case_bool_decide as Hk; [|case_match; (constructor; [done|try done; by constructor])]. constructor; [|done]. subst k.
  destruct Hb as (Hnd & _ & Hv). simpl in Hnd, Hv. split_and!; simpl; [by apply NoDup_add_value|by exists e|].
  intros v [->|Hin]%elem_of_add_value; [by exists e|by apply Hv].
Qed.

(** Keys stay sorted, hence distinct. *)
Definition key_sorted (l : list (str * SingBoxRuleBucket)) : Prop := StronglySorted (fun a b => str_le a b /\ a <> b) (l.*1).

Lemma bucket_add_keys e l k : k ∈ (bucket_add e l).*1 -> k = bucket_key e \/ k ∈ l.*1.
Proof.
  induction l as [|[k' b'] l IH]; [by intros ?%list_elem_of_singleton; left|]. rewrite bucket_add_unfold.
  case_bool_decide; [|case_match]; csimpl; rewrite !elem_of_cons; naive_solver.
Qed.

Lemma bucket_add_sorted e l : key_sorted l -> key_sorted (bucket_add e l).
Proof.
  unfold key_sorted. induction l as [|[k b] l IH]; [by repeat constructor|]. csimpl. intros Hs.
  apply StronglySorted_cons in Hs as [Hall Hs]. case_bool_decide as Hk; [by constructor|].
  destruct (str_leb (bucket_key e) k) eqn:El; csimpl.
  - constructor; [by constructor|]. constructor; [done|]. eapply Forall_impl; [exact Hall|]. intros x [Hx Hne].
    split; [by transitivity k|]. intros Heq. apply Hk. subst x. by apply (anti_symm str_le).
  - constructor; [by apply IH|]. apply Forall_forall. intros x [->|Hx]%bucket_add_keys.
    + split; [|done]. destruct (total str_le k (bucket_key e)) as [|Hc]; [done|]. unfold str_le in Hc. congruence.
    + rewrite Forall_forall in Hall. by apply Hall.
Qed.

(** ** Lemmas: rules and lines *)

(** The entry of a rule, when it has one. *)
Definition rule_entry (rule : str) : option Entry :=
  '(type, value) ← rule_fields rule;
  if bool_decide (type ∈ SingBoxRuleTypes) && negb (bool_decide (type = "MATCH"%str) || bool_decide (type = "FINAL"%str))
  then sing_box_entry type value else None.

(** The codes only grow. *)
Definition codes_le (st st' : SingBoxState) : Prop :=
  geosite_codes st ⊆ geosite_codes st' /\ geoip_codes st ⊆ geoip_codes st'.

#[local] Instance codes_le_preorder : PreOrder codes_le.
Proof. split; [by split|]. intros a b c [] []. split; by etransitivity. Qed.

Lemma elem_of_code_add c d l : d ∈ code_add c l <-> d = c \/ d ∈ l.
Proof.
  induction l as [|x l IH]; cbn [code_add]; [by rewrite list_elem_of_singleton, elem_of_nil; naive_solver|].
  case_bool_decide; [subst; rewrite elem_of_cons; naive_solver|]. case_match; rewrite !elem_of_cons, ?IH; naive_solver.
Qed.

Lemma add_code_spec e st :
  buckets (add_code (e_code e) st) = buckets st /\ final (add_code (e_code e) st) = final st /\
  codes_le st (add_code (e_code e) st) /\ recorded (add_code (e_code e) st) e.
Proof.
  unfold add_code, recorded, codes_le. destruct (e_code e) as [[[|] c]|]; simpl; split_and!; try done;
    try (intros x Hx; apply elem_of_code_add; by right); apply elem_of_code_add; by left.
Qed.

Lemma recorded_mono st st' e : codes_le st st' -> recorded st e -> recorded st' e.
Proof. unfold recorded. intros [H1 H2]. destruct (e_code e) as [[[|] c]|]; auto. Qed.

Lemma bucket_ok_mono st st' kb : codes_le st st' -> bucket_ok st kb -> bucket_ok st' kb.
Proof.
  intros Hle (Hn & He & Hv). split_and!; [done|done|]. intros v Hin. destruct (Hv v Hin) as (e & ? & Hr & ? & ?).
  exists e. split_and!; try done. by eapply recorded_mono.
Qed.

(** The invariant of the state while a ruleset is read. *)
Definition state_ok (st : SingBoxState) : Prop := Forall (bucket_ok st) (buckets st) /\ key_sorted (buckets st).

Lemma fresh_ok st : state_ok (fresh st) /\ codes_le st (fresh st).
Proof. split; [split; [constructor|constructor]|by split]. Qed.

Lemma appendSingBoxRule_spec rule group st :
  let '(_, st') := appendSingBoxRule rule group st in
  (state_ok st -> state_ok st') /\ codes_le st st' /\
  (forall k v, has_value k v (buckets st') <-> has_value k v (buckets st) \/
     exists e, rule_entry rule = Some e /\ k = bucket_key e /\ v = e_value e).
Proof.
  assert (Hsame : rule_entry rule = None -> (state_ok st -> state_ok st) /\ codes_le st st /\
    (forall k v, has_value k v (buckets st) <-> has_value k v (buckets st) \/
     exists e, rule_entry rule = Some e /\ k = bucket_key e /\ v = e_value e)).
  { intros ->. split_and!; [done|reflexivity|]. naive_solver. }
  unfold appendSingBoxRule, rule_entry in *. destruct (rule_fields rule) as [[type value]|]; [|by apply Hsame].
  cbn [mbind option_bind] in *. case_bool_decide; cbn [negb andb] in *; [|by apply Hsame].
  destruct (_ || _) eqn:Efin; cbn [negb] in *; [by apply Hsame|].
  destruct (sing_box_entry type value) as [e|] eqn:Ee; [|by apply Hsame]. clear Hsame. cbv zeta.
  destruct (add_code_spec e st) as (Hb & Hf & Hle & Hr). split_and!; cbn [buckets].
  - intros [Hall Hs]. rewrite Hb. split; cbn [buckets]; [|by apply bucket_add_sorted].
    set (st2 := mkSing _ _ _ _). assert (Hle2 : codes_le st st2) by done.
    apply bucket_add_ok; [by exists type, value|done|]. eapply Forall_impl; [exact Hall|]. intros kb. by apply bucket_ok_mono.
  - done.
  - intros k v. rewrite Hb, bucket_add_has. naive_solver.
Qed.

(** A line of a ruleset: the entry behind white space and comments. *)
Definition line_entry (line : str) : option Entry :=
  let line := trimWhitespace line true true in if ignored line then None else rule_entry (stripRulesetComment line false).

Lemma sing_lines_spec group lines st total :
  let '(st', _) := sing_lines group lines st total in
  (state_ok st -> state_ok st') /\ codes_le st st' /\
  (max_allowed_rules = 0 -> forall k v, has_value k v (buckets st') <-> has_value k v (buckets st) \/
     exists line e, line ∈ lines /\ line_entry line = Some e /\ k = bucket_key e /\ v = e_value e).
Proof.
  revert st total. induction lines as [|line lines IH]; intros st total; cbn [sing_lines].
  { split_and!; [done|reflexivity|]. intros _ k v. split; [by left|]. intros [?|(l & e & Hl & _)]; [done|]. by apply elem_of_nil in Hl. }
  destruct (over_limit max_allowed_rules total) eqn:El.
  { split_and!; [done|reflexivity|]. intros Hm. by rewrite Hm in El. }
  cbv zeta. destruct (ignored (trimWhitespace line true true)) eqn:Ei.
  - specialize (IH st total). destruct (sing_lines group lines st total) as [st' n]. destruct IH as (Hok & Hle & Hv).
    split_and!; [done|done|]. intros Hm k v. rewrite (Hv Hm k v). split.
    + intros [?|(l & e & Hl & He)]; [by left|right; exists l, e]. split; [by right|done].
    + intros [?|(l & e & Hl & He & Hkv)]; [by left|right; exists l, e]. apply elem_of_cons in Hl as [->|Hl]; [|done].
      unfold line_entry in He. cbv zeta in He. by rewrite Ei in He.
  - pose proof (appendSingBoxRule_spec (stripRulesetComment (trimWhitespace line true true) false) group st) as Hstep.
    destruct (appendSingBoxRule _ group st) as [added st1]. destruct Hstep as (Hok1 & Hle1 & Hv1).
    specialize (IH st1 (if added then S total else total)). destruct (sing_lines group lines st1 _) as [st' n].
    destruct IH as (Hok & Hle & Hv). split_and!; [by auto|by etransitivity|]. intros Hm k v. rewrite (Hv Hm k v), Hv1.
    assert (Hline : line_entry line = rule_entry (stripRulesetComment (trimWhitespace line true true) false)).
    { unfold line_entry. cbv zeta. by rewrite Ei. }
    rewrite <- Hline. split.
    + intros [[?|(e & He & Hkv)]|(l & e & Hl & He)]; [by left|right; exists line, e|right; exists l, e];
        (split; [first [by left|by right]|done]).
    + intros [?|(l & e & Hl & He & Hkv)]; [by left; left|]. apply elem_of_cons in Hl as [->|Hl].
      * left; right. by exists e.
      * right. by exists l, e.
Qed.

(** ** Lemmas: references to rule sets *)

Lemma member_cons name n v l : member name ((n, v) :: l) = if bool_decide (n = name) then Some v else member name l.
Proof.
  unfold member. simpl. case_decide as Hd; simpl in Hd.
  - by rewrite bool_decide_true.
  - rewrite bool_decide_false by done. by destruct (list_find _ l) as [[i x]|].
Qed.

Lemma member_add name v l : member name (AddMemberOrReplace name v l) = Some v.
Proof.
  induction l as [|[n w] l IH]; cbn [AddMemberOrReplace]; [by rewrite member_cons, bool_decide_true|].
  case_bool_decide; rewrite member_cons; [by rewrite bool_decide_true|by rewrite bool_decide_false].
Qed.

Lemma member_add_ne name name' v l : name <> name' -> member name (AddMemberOrReplace name' v l) = member name l.
Proof.
  intros Hne. induction l as [|[n w] l IH]; cbn [AddMemberOrReplace].
  - by rewrite member_cons, bool_decide_false.
  - case_bool_decide as Hn; rewrite !member_cons; [subst; by rewrite !bool_decide_false|by rewrite IH].
Qed.

(** The rule sets a rule refers to. *)
Definition rule_set_refs (rule : Json) : list str :=
  match rule with
  | JObject m => match member "rule_set" m with Some (JArray l) => omap (fun v => get_string (Some v)) l | _ => [] end
  | _ => []
  end.

Definition codes (f : RuleSetFamily) (st : SingBoxState) : list str :=
  match f with Geosite => geosite_codes st | Geoip => geoip_codes st end.

(** A tag that the state's codes ask for. *)
Definition requested (st : SingBoxState) (t : str) : Prop :=
  exists f c, c ∈ codes f st /\ t = c_str (singBoxRuleSetTag (family_name f) c).

Lemma requested_mono st st' t : codes_le st st' -> requested st t -> requested st' t.
Proof. intros [H1 H2] ([|] & c & Hc & ->); [exists Geosite, c|exists Geoip, c]; split; auto. Qed.

Lemma emit_bucket_refs st outbound kb t :
  bucket_ok st kb -> t ∈ rule_set_refs (emit_bucket outbound kb.2) -> requested st t.
Proof.
  intros (_ & (e0 & He0 & Hk & Hf & Hkind & Hsrc) & Hv). unfold rule_set_refs, emit_bucket.
  rewrite Hf, Hkind. destruct (from_rule_ok e0 He0) as [Hclean Href]. rewrite Hclean.
  cbn [app]. rewrite member_cons. case_bool_decide as Hname.
  - destruct (Href Hname) as [-> _]. intros (j & Hj & Hg)%list_elem_of_omap.
    apply list_elem_of_fmap in Hj as (v & -> & Hin). destruct (Hv v Hin) as (e & He & Hr & Hke & Hval).
    destruct (from_rule_ok e He) as [_ Href']. rewrite Hk in Hke.
    destruct (Href' ltac:(by rewrite (proj1 (bucket_key_inj _ _ Hke)))) as (_ & f & c & Hcode & Htag).
    simpl in Hg. injection Hg as <-. rewrite c_str_idem. exists f, c. split; [|by rewrite <- Hval, Htag].
    unfold recorded in Hr. rewrite Hcode in Hr. by destruct f.
  - destruct (match_rule_set_source kb.2); cbn [app]; rewrite !member_cons; simpl; intros Ht; by apply elem_of_nil in Ht.
Qed.

Lemma emit_refs st outbound rule t :
  state_ok st -> rule ∈ emitSingBoxRuleBuckets (buckets st) outbound -> t ∈ rule_set_refs rule -> requested st t.
Proof.
  intros [Hall _] Hr Ht. apply list_elem_of_fmap in Hr as (kb & -> & Hkb). rewrite Forall_forall in Hall.
  by eapply emit_bucket_refs; [apply Hall|].
Qed.

Lemma sing_rulesets_spec contents rules st total :
  let '(rules', st', _) := sing_rulesets contents rules st total in
  codes_le st st' /\ exists generated, rules' = rules ++ generated /\
    forall rule t, rule ∈ generated -> t ∈ rule_set_refs rule -> requested st' t.
Proof.
  revert rules st total. induction contents as [|x contents IH]; intros rules st total; cbn [sing_rulesets].
  { split; [reflexivity|]. exists []. rewrite app_nil_r. split; [done|]. by intros rule t Hr%elem_of_nil. }
  destruct (over_limit _ _).
  { split; [reflexivity|]. exists []. rewrite app_nil_r. split; [done|]. by intros rule t Hr%elem_of_nil. }
  assert (Hnext : forall st1 more total', codes_le st st1 ->
    (forall rule t, rule ∈ more -> t ∈ rule_set_refs rule -> requested st1 t) ->
    let '(rules', st', _) := sing_rulesets contents (rules ++ more) st1 total' in
    codes_le st st' /\ exists generated, rules' = rules ++ generated /\
      forall rule t, rule ∈ generated -> t ∈ rule_set_refs rule -> requested st' t).
  { intros st1 more total' Hle1 Hmore. specialize (IH (rules ++ more) st1 total').
    destruct (sing_rulesets contents (rules ++ more) st1 total') as [[rules' st'] n]. destruct IH as (Hle & gen & -> & Hgen).
    split; [by etransitivity|]. exists (more ++ gen). rewrite app_assoc. split; [done|].
    intros rule t [Hr|Hr]%elem_of_app Ht; [|by eapply Hgen]. eapply requested_mono; [exact Hle|by eapply Hmore]. }
  assert (Hskip : forall st1 total', codes_le st st1 ->
    let '(rules', st', _) := sing_rulesets contents rules st1 total' in
    codes_le st st' /\ exists generated, rules' = rules ++ generated /\
      forall rule t, rule ∈ generated -> t ∈ rule_set_refs rule -> requested st' t).
  { intros st1 total' Hle1. pose proof (Hnext st1 [] total' Hle1) as Hn. rewrite app_nil_r in Hn. apply Hn.
    by intros rule t Hr%elem_of_nil. }
  destruct (fresh_ok st) as [Hf0 Hf1]. destruct (rule_content x) as [|c s]; [by apply Hskip|].
  destruct (startsWith (c :: s) "[]").
  - pose proof (appendSingBoxRule_spec (drop 2 (c :: s)) (rule_group x) (fresh st)) as Hstep.
    destruct (appendSingBoxRule _ _ (fresh st)) as [added st1]. destruct Hstep as (Hok & Hle & _).
    destruct added; [apply Hnext|apply Hskip]; [by etransitivity| |by etransitivity].
    intros rule t. by apply emit_refs, Hok.
  - cbv zeta. set (lines := getlines _ _). pose proof (sing_lines_spec (rule_group x) lines (fresh st) total) as Hstep.
    destruct (sing_lines _ lines (fresh st) total) as [st1 n]. destruct Hstep as (Hok & Hle & _).
    apply Hnext; [by etransitivity|]. intros rule t. by apply emit_refs, Hok.
Qed.

Lemma rule_set_tags_app a b : rule_set_tags (a ++ b) = rule_set_tags a ++ rule_set_tags b.
Proof. apply omap_app. Qed.

(** The tags in the set are defined. *)
Definition tags_ok (acc : list Json * gset str) : Prop := forall t, t ∈ acc.2 -> c_str t ∈ rule_set_tags acc.1.

Lemma get_string_c_str j s : get_string j = Some s -> c_str s = s.
Proof. destruct j as [[]|]; simpl; try done. intros [= <-]. apply c_str_idem. Qed.

Lemma append_rule_set_spec family code acc :
  tags_ok acc ->
  let acc' := appendSingBoxRemoteRuleSet family code acc in
  tags_ok acc' /\ acc.2 ⊆ acc'.2 /\ singBoxRuleSetTag family code ∈ acc'.2 /\ (exists more, acc'.1 = acc.1 ++ more).
Proof.
  intros Hok. unfold appendSingBoxRemoteRuleSet. destruct acc as [sets tags]. cbv zeta. case_bool_decide as Hin.
  - split_and!; [done|done|done|]. exists []. by rewrite app_nil_r.
  - split_and!; cbn [fst snd]; [|set_solver|set_solver|by eexists]. intros t Ht. cbn [fst snd] in *. rewrite rule_set_tags_app, elem_of_app.
    apply elem_of_union in Ht as [->%elem_of_singleton|Ht]; [right|left; by apply Hok].
    unfold rule_set_tags. simpl. rewrite c_str_idem. by left.
Qed.

Lemma append_rule_sets_spec family cs acc :
  tags_ok acc ->
  let acc' := foldl (fun acc code => appendSingBoxRemoteRuleSet family code acc) acc cs in
  tags_ok acc' /\ acc.2 ⊆ acc'.2 /\ (forall c, c ∈ cs -> singBoxRuleSetTag family c ∈ acc'.2) /\
  (exists more, acc'.1 = acc.1 ++ more).
Proof.
  revert acc. induction cs as [|c cs IH]; intros acc Hok; cbn [foldl].
  { split_and!; [done|done|by intros c Hc%elem_of_nil|]. exists []. by rewrite app_nil_r. }
  destruct (append_rule_set_spec family c acc Hok) as (Hok1 & Hsub1 & Hc1 & more1 & Hm1).
  destruct (IH _ Hok1) as (Hok2 & Hsub2 & Hc2 & more2 & Hm2). split_and!; [done|set_solver| |].
  - intros d [->|Hd]%elem_of_cons; [by apply Hsub2|by apply Hc2].
  - exists (more1 ++ more2). by rewrite Hm2, Hm1, app_assoc.
Qed.

Lemma sing_rule_sets_spec route st t :
  (requested st t -> t ∈ rule_set_tags (sing_rule_sets route st)) /\
  exists more, sing_rule_sets route st = default [] (array_of (member "rule_set" route)) ++ more.
Proof.
  unfold sing_rule_sets. set (base := default [] _). cbv zeta.
  assert (H0 : tags_ok (base, list_to_set (rule_set_tags base))).
  { intros u Hu. simpl in *. apply elem_of_list_to_set in Hu. unfold rule_set_tags in *.
    assert (Hu' := Hu). apply list_elem_of_omap in Hu as (j & Hj & Hg). destruct j; try done.
    by rewrite (get_string_c_str _ _ Hg). }
  destruct (append_rule_sets_spec "geosite" (geosite_codes st) _ H0) as (Hok1 & Hsub1 & Hc1 & more1 & Hm1).
  destruct (append_rule_sets_spec "geoip" (geoip_codes st) _ Hok1) as (Hok2 & Hsub2 & Hc2 & more2 & Hm2). split.
  - intros (f & c & Hc & ->). apply Hok2. destruct f; [by apply Hsub2, Hc1|by apply Hc2].
  - exists (more1 ++ more2). by rewrite Hm2, Hm1, <- app_assoc.
Qed.

(** ** Theorems *)

(** C29: The new document has a route with the rules of the base that are kept,
    the modes, then the generated rules, and every rule set that a generated
    rule refers to is among the rule sets of the route; those of the base are
    kept in front. *)
Theorem singbox_rule_sets_defined base contents overwrite modes :
  let '(doc, _) := rulesetToSingBox base contents overwrite modes in
  let old := (route_of base).2 in
  exists route generated sets, member "route" doc = Some (JObject route) /\
    member "rules" route = Some (JArray (base_rules old overwrite ++ (if modes then clash_modes else []) ++ generated)) /\
    member "rule_set" route = Some (JArray (default [] (array_of (member "rule_set" old)) ++ sets)) /\
    forall rule t, rule ∈ generated -> t ∈ rule_set_refs rule ->
      t ∈ rule_set_tags (default [] (array_of (member "rule_set" old)) ++ sets).
Proof.
  unfold rulesetToSingBox. destruct (route_of base) as [base' old]. cbn [snd]. cbv zeta.
  set (rules := base_rules old overwrite ++ _).
  pose proof (sing_rulesets_spec contents rules (mkSing [] [] [] []) 0) as Hrun.
  destruct (sing_rulesets contents rules _ 0) as [[rules' st] n]. destruct Hrun as (_ & gen & -> & Hgen).
  destruct (proj2 (sing_rule_sets_spec old st [])) as [sets Hsets]. eexists _, gen, sets. split_and!.
  - apply member_add.
  - rewrite !member_add_ne, member_add by done. subst rules. by rewrite <- app_assoc.
  - rewrite member_add_ne, member_add by done. by rewrite Hsets.
  - intros rule t Hr Ht. rewrite <- Hsets. apply sing_rule_sets_spec. by eapply Hgen.
Qed.

(** Without a limit the buckets of a ruleset hold exactly the values that its
    lines ask for, each once, under distinct keys in order. *)
Theorem singbox_buckets_exact group lines st total :
  max_allowed_rules = 0 ->
  let st' := (sing_lines group lines (fresh st) total).1 in
  key_sorted (buckets st') /\ (forall kb, kb ∈ buckets st' -> NoDup (values kb.2)) /\
  forall k v, has_value k v (buckets st') <->
    exists line e, line ∈ lines /\ line_entry line = Some e /\ k = bucket_key e /\ v = e_value e.
Proof.
  intros Hm. cbv zeta. pose proof (sing_lines_spec group lines (fresh st) total) as Hrun.
  destruct (sing_lines group lines (fresh st) total) as [st' n]. destruct Hrun as (Hok & _ & Hv).
  destruct (Hok (proj1 (fresh_ok st))) as [Hall Hs]. cbn [fst]. split_and!; [done| |].
  - intros kb Hkb. rewrite Forall_forall in Hall. apply (Hall kb Hkb).
  - intros k v. rewrite (Hv Hm k v). split; [intros [Hn|?]; [by apply has_value_nil in Hn|done]|by right].
Qed.

(** A rule without a comma is ignored, so an inline FINAL or MATCH never sets
    the final outbound; a rule of type IP-CIDR6 is ignored as well. *)
Theorem singbox_ignored_rules rule group st :
  ","%char ∉ rule \/ (exists v, rule_fields rule = Some ("IP-CIDR6"%str, v)) ->
  appendSingBoxRule rule group st = (false, st).
Proof.
  intros [Hrule|[v Hrule]]; unfold appendSingBoxRule; [|by rewrite Hrule].
  assert (rule_fields rule = None) as ->; [|done]. unfold rule_fields.
  destruct (split_view_spec rule ",") as [[_ ->]|(_ & Hj & _)]; [done|].
  destruct (split_view rule ",") as [|t [|v rest]]; [done..|]. exfalso. apply Hrule.
  destruct Hj as [Hj|Hj]; rewrite Hj, join_cons by done; rewrite !elem_of_app.
  - right. left. by left.
  - left. right. left. by left.
Qed.
End SingBox.

(** ** Examples *)

Definition sing_contents : list RulesetContent :=
  [mkContent "Ads" "ads" "ads" RULESET_SURGE
     ("DOMAIN,B.com" ++ nl ++ "DOMAIN,a.com // note" ++ nl ++ "DOMAIN,b.com" ++ nl ++ "DEST-PORT,80" ++ nl ++ "PORT,443") 0
     default_options ServerFetched;
   mkContent "Final" [] [] RULESET_SURGE "[]FINAL" 0 default_options ServerFetched].

Definition sing_example : list (str * Json) * nat := rulesetToSingBox (fun _ => []) (fun _ => None) 0 [] sing_contents true false.

(** Two fields of one ruleset, and a final rule that is lost. *)
Example singbox_example :
  sing_example =
  ([("route"%str, JObject
      [("rules"%str, JArray
          [JObject [("domain"%str, JArray [JString "b.com"; JString "a.com"]); ("action"%str, JString "route");
                    ("outbound"%str, JString "Ads")];
           JObject [("port"%str, JInteger 443); ("action"%str, JString "route"); ("outbound"%str, JString "Ads")]]);
       ("rule_set"%str, JArray []); ("final"%str, JString [])])], 4).
Proof. by vm_compute. Qed.

(** The value of a regular expression is lower-cased, which changes it. *)
Example singbox_regex_lowercased :
  rule_entry "DOMAIN-REGEX,^\S+\.com$" = plain_entry "domain_regex" "^\s+\.com$".
Proof. by vm_compute. Qed.

(** White space in front of a value stays: the code of a rule set is then
    refused, and a domain keeps it. *)
Example singbox_leading_blank :
  rule_entry "GEOSITE, cn" = None /\ rule_entry "DOMAIN, b.com" = plain_entry "domain" " b.com".
Proof. by vm_compute. Qed.

Lemma singbox_ignored_rules_witness :
  appendSingBoxRule "FINAL" "Final" (mkSing [] [] [] []) = (false, mkSing [] [] [] []).
Proof. apply (singbox_ignored_rules "FINAL" "Final" (mkSing [] [] [] [])). left. by apply (bool_decide_unpack _); vm_compute. Defined.

Lemma singbox_buckets_exact_witness :
  has_value "domain:destination" "a.com"
    (buckets (sing_lines 0 "Ads" ["DOMAIN,B.com"; "DOMAIN,a.com // note"]%str (fresh (mkSing [] [] [] [])) 0).1).
Proof.
  apply (singbox_buckets_exact (fun _ => []) (fun _ => None) 0 "Ads" ["DOMAIN,B.com"; "DOMAIN,a.com // note"]%str (mkSing [] [] [] []) 0 eq_refl).
  exists "DOMAIN,a.com // note"%str, (mkEntry "domain" KString false "a.com" None).
  split_and!; [set_solver|by vm_compute|done|done].
Defined.
