(* ===== verification/CurlPool.v ===== *)
(** * handler/curl_handle_pool.cpp: the pool of transfer handles

    At most [capacity] handles exist; a thread that finds none waits on the
    condition variable.  A function on [Pool] is a critical section; what lies
    between two of them (creating, resetting and destroying a handle,
    notifying) is a program counter of its own, so that the steps interleave
    as in the code.  Wake-ups may be spurious.  libcurl gives and takes
    handles: it returns one that does not exist at the time. *)

From S2P Require Import Prelude.
Open Scope Z_scope.

Definition Handle := nat.

(** ** Leases *)

(** src/src/handler/curl_handle_pool.h:13-33 [CurlHandleLease]
    [pool_] is whether the pointer to the pool is set. *)
Record CurlHandleLease := mkLease { pool_ : bool; handle_ : option Handle }.
Definition null_lease : CurlHandleLease := mkLease false None.

(** src/src/handler/curl_handle_pool.cpp:10-12 [CurlHandleLease::CurlHandleLease(CurlHandleLease &&)]
    The new lease and what is left of the other. *)
Definition move_construct (other : CurlHandleLease) : CurlHandleLease * CurlHandleLease :=
  (mkLease (pool_ other) (handle_ other), mkLease false None).

(** src/src/handler/curl_handle_pool.cpp:26-31 [CurlHandleLease::reset]
    The handle that is released, and the lease afterwards. *)
Definition reset (l : CurlHandleLease) : option Handle * CurlHandleLease :=
  (if pool_ l then handle_ l else None, mkLease false None).

(** src/src/handler/curl_handle_pool.cpp:14-22 [CurlHandleLease::operator=]
    For two leases that differ: the handle that is released, the target and
    what is left of the other. *)
Definition move_assign (target other : CurlHandleLease) : option Handle * CurlHandleLease * CurlHandleLease :=
  let '(released, target) := reset target in
  let '(target, other) := move_construct other in
  (released, target, other).

(** ** The critical sections *)

(** src/src/handler/curl_handle_pool.h:51-55 [CurlHandlePool] *)
Record Pool := mkPool { capacity_ : Z; idle_ : list Handle; created_ : Z; stopping_ : bool }.

(** src/src/handler/curl_handle_pool.cpp:33-36 [CurlHandlePool::CurlHandlePool] *)
Definition new_pool (capacity : Z) : Pool := mkPool (Z.max 1 capacity) [] 0 false.

(** src/src/handler/curl_handle_pool.cpp:58-60 [CurlHandlePool::acquire, condition] *)
Definition can_proceed (p : Pool) : bool :=
  stopping_ p || negb (bool_decide (idle_ p = [])) || (created_ p <? capacity_ p).

(** What [acquire] does under the lock: wait, return the empty lease, return a
    handle that was idle, or go on to create one. *)
Inductive Acquired := MustWait | NoHandle | Reused (h : Handle) (p : Pool) | MustCreate (p : Pool).

(** src/src/handler/curl_handle_pool.cpp:56-70 [CurlHandlePool::acquire, critical section] *)
Definition acquire (p : Pool) : Acquired :=
  if negb (can_proceed p) then MustWait
  else if stopping_ p then NoHandle
  else
    match last (idle_ p) with
    | Some handle => Reused handle (mkPool (capacity_ p) (removelast (idle_ p)) (created_ p) (stopping_ p))
    | None => MustCreate (mkPool (capacity_ p) (idle_ p) (u64 (created_ p + 1)) (stopping_ p))
    end.

(** src/src/handler/curl_handle_pool.cpp:72-75 [CurlHandlePool::acquire, curl_easy_init failed] *)
Definition creation_failed (p : Pool) : Pool := mkPool (capacity_ p) (idle_ p) (u64 (created_ p - 1)) (stopping_ p).

(** src/src/handler/curl_handle_pool.cpp:88-97 [CurlHandlePool::release, critical section]
    Also returned: whether the handle is to be destroyed. *)
Definition release (handle : Handle) (p : Pool) : Pool * bool :=
  if stopping_ p then (mkPool (capacity_ p) (idle_ p) (u64 (created_ p - 1)) (stopping_ p), true)
  else (mkPool (capacity_ p) (idle_ p ++ [handle]) (created_ p) (stopping_ p), false).

(** src/src/handler/curl_handle_pool.cpp:43-49 [CurlHandlePool::shutdown, critical section]
    The handles to be destroyed. *)
Definition shutdown (p : Pool) : option (list Handle * Pool) :=
  if stopping_ p then None else Some (idle_ p, mkPool (capacity_ p) [] (created_ p) true).

(** The assertion of [shutdown], which a release build leaves out. *)
Definition shutdown_assertion (p : Pool) : bool := created_ p =? Z.of_nat (length (idle_ p)).

(** ** Threads *)

(** What a thread is doing. *)
Inductive pc :=
| Outside
| Entering                                 (* before the lock of acquire *)
| Asleep                                   (* in the condition variable *)
| Notified                                 (* woken by a notification *)
| Creating                                 (* in curl_easy_init *)
| Releasing (h : Handle)                   (* resetting a handle *)
| NotifyOne (returned : list CurlHandleLease)  (* about to notify one thread, then to return *)
| NotifyAll (hs : list Handle)
| CleaningUp (hs : list Handle).           (* destroying handles *)

Record World := mkWorld { pool : Pool; pcs : list pc; leases : list CurlHandleLease; live : gset Handle }.

(** [reset] of a lease: the thread goes on to release its handle. *)
Definition after_reset (released : option Handle) : pc :=
  match released with Some h => Releasing h | None => Outside end.

(** src/src/handler/curl_handle_pool.cpp:10-104 [CurlHandlePool, interleaving of its operations] *)
Inductive step : World -> World -> Prop :=
| s_enter t w : pcs w !! t = Some Outside -> step w (mkWorld (pool w) (<[t := Entering]> (pcs w)) (leases w) (live w))
| s_wait t x w : pcs w !! t = Some x -> x = Entering \/ x = Notified -> acquire (pool w) = MustWait ->
    step w (mkWorld (pool w) (<[t := Asleep]> (pcs w)) (leases w) (live w))
| s_none t x w : pcs w !! t = Some x -> x = Entering \/ x = Notified -> acquire (pool w) = NoHandle ->
    step w (mkWorld (pool w) (<[t := Outside]> (pcs w)) (leases w ++ [null_lease]) (live w))
| s_reuse t x h p w : pcs w !! t = Some x -> x = Entering \/ x = Notified -> acquire (pool w) = Reused h p ->
    step w (mkWorld p (<[t := Outside]> (pcs w)) (leases w ++ [mkLease true (Some h)]) (live w))
| s_create t x p w : pcs w !! t = Some x -> x = Entering \/ x = Notified -> acquire (pool w) = MustCreate p ->
    step w (mkWorld p (<[t := Creating]> (pcs w)) (leases w) (live w))
| s_spurious t w : pcs w !! t = Some Asleep -> step w (mkWorld (pool w) (<[t := Entering]> (pcs w)) (leases w) (live w))
| s_created t h w : pcs w !! t = Some Creating -> h ∉ live w ->
    step w (mkWorld (pool w) (<[t := Outside]> (pcs w)) (leases w ++ [mkLease true (Some h)]) ({[h]} ∪ live w))
| s_failed t w : pcs w !! t = Some Creating ->
    step w (mkWorld (creation_failed (pool w)) (<[t := NotifyOne [null_lease]]> (pcs w)) (leases w) (live w))
| s_move t i l l1 l2 w : pcs w !! t = Some Outside -> leases w !! i = Some l -> move_construct l = (l1, l2) ->
    step w (mkWorld (pool w) (pcs w) (<[i := l2]> (leases w) ++ [l1]) (live w))
| s_assign t i j a b r a' b' w : pcs w !! t = Some Outside -> leases w !! i = Some a -> leases w !! j = Some b -> i <> j ->
    move_assign a b = (r, a', b') ->
    step w (mkWorld (pool w) (<[t := after_reset r]> (pcs w)) (<[i := a']> (<[j := b']> (leases w))) (live w))
| s_drop t i l r l' w : pcs w !! t = Some Outside -> leases w !! i = Some l -> reset l = (r, l') ->
    step w (mkWorld (pool w) (<[t := after_reset r]> (pcs w)) (<[i := l']> (leases w)) (live w))
| s_release t h p cleanup w : pcs w !! t = Some (Releasing h) -> release h (pool w) = (p, cleanup) ->
    step w (mkWorld p (<[t := if cleanup then CleaningUp [h] else NotifyOne []]> (pcs w)) (leases w) (live w))
| s_notify t u ls w : pcs w !! t = Some (NotifyOne ls) -> pcs w !! u = Some Asleep ->
    step w (mkWorld (pool w) (<[t := Outside]> (<[u := Notified]> (pcs w))) (leases w ++ ls) (live w))
| s_notify_none t ls w : pcs w !! t = Some (NotifyOne ls) -> (forall u, pcs w !! u <> Some Asleep) ->
    step w (mkWorld (pool w) (<[t := Outside]> (pcs w)) (leases w ++ ls) (live w))
| s_shutdown t hs p w : pcs w !! t = Some Outside -> shutdown (pool w) = Some (hs, p) ->
    step w (mkWorld p (<[t := NotifyAll hs]> (pcs w)) (leases w) (live w))
| s_notify_all t hs w : pcs w !! t = Some (NotifyAll hs) ->
    step w (mkWorld (pool w) (<[t := CleaningUp hs]> ((fun x => match x with Asleep => Notified | _ => x end) <$> pcs w))
              (leases w) (live w))
| s_cleanup t h hs w : pcs w !! t = Some (CleaningUp (h :: hs)) ->
    step w (mkWorld (pool w) (<[t := CleaningUp hs]> (pcs w)) (leases w) (live w ∖ {[h]}))
| s_cleaned t w : pcs w !! t = Some (CleaningUp []) ->
    step w (mkWorld (pool w) (<[t := Outside]> (pcs w)) (leases w) (live w)).

Definition initial (capacity : Z) (threads : nat) : World :=
  mkWorld (new_pool capacity) (replicate threads Outside) [] ∅.

Definition reachable (capacity : Z) (threads : nat) (w : World) : Prop := rtc step (initial capacity threads) w.

(** ** Where the handles are *)

Definition times (h : Handle) (l : list Handle) : Z := sumZ (fun x => if bool_decide (x = h) then 1 else 0) l.
Definition one_of_option (o : option Handle) : list Handle := match o with Some h => [h] | None => [] end.
Definition lease_handles (l : CurlHandleLease) : list Handle := one_of_option (handle_ l).
Definition pc_handles (x : pc) : list Handle :=
  match x with
  | Releasing h => [h]
  | NotifyOne ls => ls ≫= lease_handles
  | NotifyAll hs | CleaningUp hs => hs
  | _ => []
  end.

(** How often a handle occurs: among the idle ones, with a thread, in a lease. *)
Definition occurrences (h : Handle) (w : World) : Z :=
  times h (idle_ (pool w)) + sumZ (fun x => times h (pc_handles x)) (pcs w)
  + sumZ (fun l => times h (lease_handles l)) (leases w).

(** The handles that are in use or being created. *)
Definition lease_out (l : CurlHandleLease) : Z := Z.of_nat (length (lease_handles l)).
Definition pc_out (x : pc) : Z :=
  match x with Creating | Releasing _ => 1 | NotifyOne ls => sumZ lease_out ls | _ => 0 end.
Definition out (w : World) : Z := sumZ pc_out (pcs w) + sumZ lease_out (leases w).

Definition is_asleep (x : pc) : Z := match x with Asleep => 1 | _ => 0 end.
Definition is_pending (x : pc) : Z := match x with Notified | NotifyOne _ => 1 | _ => 0 end.
Definition is_notify_all (x : pc) : Z := match x with NotifyAll _ => 1 | _ => 0 end.
Definition asleep (w : World) : Z := sumZ is_asleep (pcs w).
Definition pending (w : World) : Z := sumZ is_pending (pcs w).
Definition notifying_all (w : World) : Z := sumZ is_notify_all (pcs w).

(** What a waiting thread could take. *)
Definition available (p : Pool) : Z := Z.of_nat (length (idle_ p)) + (capacity_ p - created_ p).

Definition lease_ok (l : CurlHandleLease) : Prop := pool_ l = bool_decide (is_Some (handle_ l)).
Definition pc_ok (x : pc) : Prop := match x with NotifyOne ls => Forall lease_ok ls | _ => True end.

(** ** Lemmas *)

Lemma times_app h l k : times h (l ++ k) = times h l + times h k.
Proof. apply sumZ_app. Qed.
Lemma times_one h x : times h [x] = if bool_decide (x = h) then 1 else 0.
Proof. unfold times. rewrite sumZ_cons, sumZ_nil. lia. Qed.

Lemma pc_out_nonneg x : 0 <= pc_out x.
Proof. destruct x; simpl; try lia. apply sumZ_nonneg. intros. unfold lease_out. lia. Qed.

Lemma out_nonneg w : 0 <= out w.
Proof.
  unfold out. assert (0 <= sumZ pc_out (pcs w)) by (apply sumZ_nonneg; intros; apply pc_out_nonneg).
  assert (0 <= sumZ lease_out (leases w)) by (apply sumZ_nonneg; intros; unfold lease_out; lia). lia.
Qed.

Lemma times_leases h ls : times h (ls ≫= lease_handles) = sumZ (fun l => times h (lease_handles l)) ls.
Proof.
  induction ls as [|l ls IH]; [done|]. cbn [mbind list_bind]. rewrite times_app, IH. by rewrite sumZ_cons.
Qed.

Lemma last_idle (l : list Handle) h : last l = Some h -> l = removelast l ++ [h].
Proof. intros [k ->]%last_Some. by rewrite removelast_snoc. Qed.

(** The four results of [acquire]. *)
Lemma acquire_spec p :
  match acquire p with
  | MustWait => stopping_ p = false /\ idle_ p = [] /\ capacity_ p <= created_ p
  | NoHandle => stopping_ p = true
  | Reused h p' => stopping_ p = false /\ idle_ p = idle_ p' ++ [h] /\ created_ p' = created_ p /\
      capacity_ p' = capacity_ p /\ stopping_ p' = false
  | MustCreate p' => stopping_ p = false /\ idle_ p = [] /\ created_ p < capacity_ p /\
      p' = mkPool (capacity_ p) [] (u64 (created_ p + 1)) false
  end.
Proof.
  unfold acquire, can_proceed. destruct p as [cap idle created stop]; cbn [stopping_ idle_ created_ capacity_].
  destruct stop; [done|]. destruct (last idle) as [h|] eqn:El.
  - rewrite bool_decide_false by (by intros ->). simpl. by rewrite <- (last_idle _ _ El).
  - apply last_None in El as ->. rewrite bool_decide_true by done. simpl.
    destruct (Z.ltb_spec created cap); simpl; done.
Qed.

Lemma move_assign_ok a b r a' b' : lease_ok a -> lease_ok b -> move_assign a b = (r, a', b') ->
  lease_ok a' /\ lease_ok b' /\ r = handle_ a /\ handle_ a' = handle_ b /\ handle_ b' = None.
Proof.
  unfold lease_ok. intros Ha Hb [= <- <- <-]. simpl. rewrite Ha.
  split_and!; try done. by destruct (handle_ a).
Qed.

Lemma reset_ok l r l' : lease_ok l -> reset l = (r, l') -> r = handle_ l /\ l' = null_lease.
Proof. unfold lease_ok. intros Hl [= <- <-]. rewrite Hl. by destruct (handle_ l). Qed.

(** ** Invariants *)

Record pool_ok (w : World) : Prop := {
  ok_capacity : 1 <= capacity_ (pool w) < 2 ^ 64;
  ok_leases : Forall lease_ok (leases w);
  ok_pcs : Forall pc_ok (pcs w);
  ok_once : forall h, occurrences h w = if bool_decide (h ∈ live w) then 1 else 0;
  ok_created : out w <= created_ (pool w) <= capacity_ (pool w);
  ok_running : stopping_ (pool w) = false -> created_ (pool w) = Z.of_nat (length (idle_ (pool w))) + out w;
  ok_stopped : stopping_ (pool w) = true -> idle_ (pool w) = []
}.

(** Nobody sleeps unless enough notifications are on their way for what is
    available. *)
Definition woken (w : World) : Prop :=
  asleep w = 0 \/ (if stopping_ (pool w) then 0 < notifying_all w else available (pool w) <= pending w).

Lemma null_handles : lease_handles null_lease = [].
Proof. done. Qed.
Lemma lease_handles_mk b o : lease_handles (mkLease b o) = one_of_option o.
Proof. done. Qed.
Lemma times_nil h : times h [] = 0.
Proof. done. Qed.

(** Sums over the threads and leases of an updated world. *)
Ltac sums :=
  cbn [pool pcs leases live idle_ created_ capacity_ stopping_] in *;
  repeat first
    [ erewrite sumZ_insert by (eassumption || (rewrite list_lookup_insert_ne by done; eassumption))
    | rewrite sumZ_app | rewrite sumZ_cons | rewrite sumZ_nil ];
  cbn [pc_out pc_handles is_asleep is_pending is_notify_all] in *; unfold lease_out in *;
  rewrite ?null_handles, ?lease_handles_mk, ?times_app, ?times_nil in *; cbn [one_of_option length] in *; rewrite ?times_one, ?sumZ_cons, ?sumZ_nil in *;
  rewrite ?null_handles in *; cbn [length] in *.

Lemma null_ok : lease_ok null_lease.
Proof. done. Qed.

Lemma step_wf w w' : pool_ok w -> step w w' -> Forall lease_ok (leases w') /\ Forall pc_ok (pcs w').
Proof.
  intros [_ Hl Hp _ _ _ _] Hs.
  assert (Hlease : forall i l, leases w !! i = Some l -> lease_ok l) by (intros i l; by apply Forall_lookup_1).
  assert (Hpc : forall t x, pcs w !! t = Some x -> pc_ok x) by (intros t x; by apply Forall_lookup_1).
  destruct Hs; cbn [pcs leases]; split; try done; try (by apply Forall_insert);
    try (apply Forall_app; split; [done|repeat constructor]).
  - apply Forall_insert; [done|]. by repeat constructor.
  - injection H1 as <- <-. apply Forall_app. split; [by apply Forall_insert; [|apply null_ok]|].
    constructor; [|done]. apply (Hlease _ _ H0).
  - destruct (move_assign_ok a b r a' b') as (Ha & Hb & _); eauto. by apply Forall_insert; [apply Forall_insert|].
  - apply Forall_insert; [done|]. by destruct r.
  - destruct (reset_ok l r l') as [_ ->]; eauto. by apply Forall_insert; [|apply null_ok].
  - apply Forall_insert; [done|]. by destruct r.
  - apply Forall_insert; [done|]. by destruct cleanup; [|constructor].
  - by apply (Hpc t (NotifyOne ls)).
  - apply Forall_insert; [|done]. by apply Forall_insert.
  - by apply (Hpc t (NotifyOne ls)).
  - apply Forall_insert; [|done]. apply Forall_fmap. eapply Forall_impl; [exact Hp|]. by intros [] Hx.
Qed.

Lemma after_reset_handles h r : times h (pc_handles (after_reset r)) = times h (one_of_option r).
Proof. by destruct r. Qed.

Lemma lease_handles_of l o : handle_ l = o -> lease_handles l = one_of_option o.
Proof. by intros <-. Qed.

Lemma occurrences_eq h p ps ls lv :
  occurrences h (mkWorld p ps ls lv) =
  times h (idle_ p) + sumZ (fun x => times h (pc_handles x)) ps + sumZ (fun l => times h (lease_handles l)) ls.
Proof. done. Qed.

Lemma woken_handles h (ps : list pc) :
  sumZ (fun x => times h (pc_handles x)) ((fun x => match x with Asleep => Notified | _ => x end) <$> ps)
  = sumZ (fun x => times h (pc_handles x)) ps.
Proof. rewrite sumZ_fmap. unfold sumZ. induction ps as [|x ps IH]; simpl; [done|]. rewrite IH. by destruct x. Qed.

Lemma times_nonneg h l : 0 <= times h l.
Proof. apply sumZ_nonneg. intros x _. case_bool_decide; lia. Qed.

Lemma held_somewhere h w t x : pcs w !! t = Some x -> times h (pc_handles x) <= occurrences h w.
Proof.
  intros Ht. unfold occurrences. pose proof (times_nonneg h (idle_ (pool w))).
  assert (0 <= sumZ (fun l => times h (lease_handles l)) (leases w)) by (apply sumZ_nonneg; intros; apply times_nonneg).
  pose proof (sumZ_lookup_le (fun x => times h (pc_handles x)) (pcs w) t x) as H1.
  specialize (H1 ltac:(apply Forall_forall; intros; apply times_nonneg) Ht). simpl in H1. lia.
Qed.

(** A step moves a handle from one place to another; only libcurl adds and
    removes one. *)
Lemma step_once w w' h : pool_ok w -> step w w' ->
  occurrences h w' = if bool_decide (h ∈ live w') then 1 else 0.
Proof.
  intros [Hc Hl Hp Ho Hcr _ _] Hs. specialize (Ho h).
  assert (Hlease : forall i l, leases w !! i = Some l -> lease_ok l) by (intros i l; by apply Forall_lookup_1).
  destruct Hs as [t w Ht|t x w Ht Hx Ha|t x w Ht Hx Ha|t x g p w Ht Hx Ha|t x p w Ht Hx Ha|t w Ht|t g w Ht Hg|t w Ht
    |t i l l1 l2 w Ht Hi Hm|t i j a b r a' b' w Ht Hi Hj Hij Hm|t i l r l' w Ht Hi Hm|t g p cl w Ht Hr|t u ls w Ht Hu
    |t ls w Ht Hu|t hs p w Ht Hd|t hs w Ht|t g hs w Ht|t w Ht]; unfold occurrences in *; cbn [pool pcs leases live] in *.
  - sums. lia.
  - destruct Hx as [-> | ->]; sums; lia.
  - destruct Hx as [-> | ->]; sums; lia.
  - pose proof (acquire_spec (pool w)) as Hs. rewrite Ha in Hs. destruct Hs as (_ & Hi & _).
    rewrite Hi, times_app in Ho. destruct Hx as [-> | ->]; sums; lia.
  - pose proof (acquire_spec (pool w)) as Hs. rewrite Ha in Hs. destruct Hs as (_ & Hi & _ & ->).
    rewrite Hi in Ho. destruct Hx as [-> | ->]; sums; lia.
  - sums. lia.
  - sums. repeat case_bool_decide; set_solver by lia.
  - unfold creation_failed. sums. lia.
  - injection Hm as <- <-. sums. unfold lease_handles in *. sums. lia.
  - destruct (move_assign_ok a b r a' b') as (Hoa & Hob & -> & Eb & Eb'); eauto. sums.
    rewrite after_reset_handles, (lease_handles_of _ _ Eb'), (lease_handles_of _ _ Eb).
    fold (lease_handles a) (lease_handles b). sums. lia.
  - destruct (reset_ok l r l') as [-> ->]; eauto. sums. rewrite after_reset_handles. fold (lease_handles l). sums. lia.
  - unfold release in Hr. destruct (stopping_ (pool w)); injection Hr as <- <-; sums; rewrite ?times_app, ?times_nil; lia.
  - assert (u <> t) by (intros ->; congruence). sums. rewrite times_leases. lia.
  - sums. rewrite times_leases. lia.
  - unfold shutdown in Hd. destruct (stopping_ (pool w)); [done|]. injection Hd as <- <-. sums. lia.
  - erewrite sumZ_insert by (rewrite list_lookup_fmap, Ht; done). rewrite woken_handles. sums. lia.
  - pose proof (held_somewhere h _ _ _ Ht) as Hin. unfold occurrences in Hin. cbn [pc_handles] in Hin.
    sums. change (g :: hs) with ([g] ++ hs) in *. rewrite times_app, times_one in *.
    pose proof (times_nonneg h hs). repeat case_bool_decide; try lia; set_solver by lia.
  - sums. lia.
Qed.

Lemma after_reset_out r : pc_out (after_reset r) = Z.of_nat (length (one_of_option r)).
Proof. by destruct r. Qed.

Lemma woken_out (ps : list pc) :
  sumZ pc_out ((fun x => match x with Asleep => Notified | _ => x end) <$> ps) = sumZ pc_out ps.
Proof. rewrite sumZ_fmap. unfold sumZ. induction ps as [|x ps IH]; simpl; [done|]. rewrite IH. by destruct x. Qed.

Lemma creating_out w t x : pcs w !! t = Some x -> pc_out x <= out w.
Proof.
  intros Ht. unfold out. assert (0 <= sumZ lease_out (leases w)) by (apply sumZ_nonneg; intros; unfold lease_out; lia).
  pose proof (sumZ_lookup_le pc_out (pcs w) t x) as H1.
  specialize (H1 ltac:(apply Forall_forall; intros; apply pc_out_nonneg) Ht). lia.
Qed.

(** What [created_] counts. *)
Definition counted (w : World) : Prop :=
  out w <= created_ (pool w) <= capacity_ (pool w) /\
  (stopping_ (pool w) = false -> created_ (pool w) = Z.of_nat (length (idle_ (pool w))) + out w) /\
  (stopping_ (pool w) = true -> idle_ (pool w) = []).

Lemma out_eq p ps ls lv : out (mkWorld p ps ls lv) = sumZ pc_out ps + sumZ (fun l => Z.of_nat (length (lease_handles l))) ls.
Proof. done. Qed.

(** The pool stays as it is and so does what is out. *)
Lemma counted_same w ps ls lv : counted w -> out (mkWorld (pool w) ps ls lv) = out w -> counted (mkWorld (pool w) ps ls lv).
Proof. unfold counted. intros Hw ->. exact Hw. Qed.

Lemma step_counted w w' : pool_ok w -> step w w' -> capacity_ (pool w') = capacity_ (pool w) /\ counted w'.
Proof.
  intros [Hc Hl Hp _ H1 H2 H3] Hs. assert (Hw : counted w) by done. pose proof (out_nonneg w) as H0.
  assert (Hlease : forall i l, leases w !! i = Some l -> lease_ok l) by (intros i l; by apply Forall_lookup_1).
  destruct Hs as [t w Ht|t x w Ht Hx Ha|t x w Ht Hx Ha|t x g p w Ht Hx Ha|t x p w Ht Hx Ha|t w Ht|t g w Ht Hg|t w Ht
    |t i l l1 l2 w Ht Hi Hm|t i j a b r a' b' w Ht Hi Hj Hij Hm|t i l r l' w Ht Hi Hm|t g p cl w Ht Hr|t u ls w Ht Hu
    |t ls w Ht Hu|t hs p w Ht Hd|t hs w Ht|t g hs w Ht|t w Ht].
  - split; [done|]. apply counted_same; [done|]. unfold out. sums. lia.
  - split; [done|]. apply counted_same; [done|]. unfold out. destruct Hx as [-> | ->]; sums; lia.
  - split; [done|]. apply counted_same; [done|]. unfold out. destruct Hx as [-> | ->]; sums; lia.
  - pose proof (acquire_spec (pool w)) as Hs. rewrite Ha in Hs. destruct Hs as (Hst & Hi & E1 & E2 & E3).
    specialize (H2 Hst). rewrite Hi, length_app in H2. split; [done|]. unfold counted, out in *.
    destruct Hx as [-> | ->]; sums; rewrite E1, E2, E3; (split; [lia|split; [lia|done]]).
  - pose proof (acquire_spec (pool w)) as Hs. rewrite Ha in Hs. destruct Hs as (Hst & Hi & E1 & ->).
    specialize (H2 Hst). rewrite Hi in H2. split; [done|]. unfold counted, out in *.
    destruct Hx as [-> | ->]; sums; unwrap; (split; [lia|split; [lia|done]]).
  - split; [done|]. apply counted_same; [done|]. unfold out. sums. lia.
  - split; [done|]. apply counted_same; [done|]. unfold out. sums. lia.
  - pose proof (creating_out w t _ Ht) as Hone. split; [done|]. unfold counted, out, creation_failed in *. sums.
    unwrap. split; [lia|split; [|done]]. intros Hst. specialize (H2 Hst). lia.
  - split; [done|]. apply counted_same; [done|]. unfold out. injection Hm as <- <-. sums. unfold lease_handles in *. simpl. lia.
  - destruct (move_assign_ok a b r a' b') as (Hoa & Hob & -> & Eb & Eb'); eauto.
    split; [done|]. apply counted_same; [done|]. unfold out. sums.
    rewrite after_reset_out, (lease_handles_of _ _ Eb'), (lease_handles_of _ _ Eb).
    fold (lease_handles a) (lease_handles b). simpl. lia.
  - destruct (reset_ok l r l') as [-> ->]; eauto. split; [done|]. apply counted_same; [done|]. unfold out. sums.
    rewrite after_reset_out. fold (lease_handles l). lia.
  - pose proof (creating_out w t _ Ht) as Hone. unfold release in Hr.
    destruct (stopping_ (pool w)) eqn:Hst; injection Hr as <- <-; (split; [done|]); unfold counted, out in *; sums;
      unwrap; rewrite ?length_app; simpl; (split; [lia|split; [lia|auto]]).
    done.
  - assert (u <> t) by (intros ->; congruence). split; [done|]. apply counted_same; [done|]. unfold out. sums. lia.
  - split; [done|]. apply counted_same; [done|]. unfold out. sums. lia.
  - unfold shutdown in Hd. destruct (stopping_ (pool w)) eqn:Hst; [done|]. injection Hd as <- <-.
    split; [done|]. unfold counted, out in *. sums. split; [lia|done].
  - split; [done|]. apply counted_same; [done|]. unfold out. cbn [pcs leases].
    erewrite sumZ_insert by (rewrite list_lookup_fmap, Ht; done). rewrite woken_out. simpl. lia.
  - split; [done|]. apply counted_same; [done|]. unfold out. sums. lia.
  - split; [done|]. apply counted_same; [done|]. unfold out. sums. lia.
Qed.

(** ** Wake-ups *)

Lemma is_asleep_range x : 0 <= is_asleep x <= 1.
Proof. destruct x; simpl; lia. Qed.
Lemma asleep_nonneg w : 0 <= asleep w.
Proof. apply sumZ_nonneg. intros. apply is_asleep_range. Qed.
Lemma pending_nonneg w : 0 <= pending w.
Proof. apply sumZ_nonneg. intros x _. destruct x; simpl; lia. Qed.
Lemma notifying_all_nonneg w : 0 <= notifying_all w.
Proof. apply sumZ_nonneg. intros x _. destruct x; simpl; lia. Qed.

Lemma nobody_asleep w : (forall u, pcs w !! u <> Some Asleep) -> asleep w = 0.
Proof.
  intros Hn. apply sumZ_zero. intros x [u Hu]%list_elem_of_lookup. destruct x; try done. by destruct (Hn u).
Qed.

Lemma woken_asleep (ps : list pc) :
  sumZ is_asleep ((fun x => match x with Asleep => Notified | _ => x end) <$> ps) = 0.
Proof. rewrite sumZ_fmap. apply sumZ_zero. by intros []. Qed.

Lemma threads_somewhere w t x : pcs w !! t = Some x -> is_asleep x <= asleep w /\ is_pending x <= pending w.
Proof.
  intros Ht. split; apply (sumZ_lookup_le _ (pcs w) t x); try done; apply Forall_forall; intros y _; destruct y; simpl; lia.
Qed.

Lemma woken_eq p ps ls lv :
  woken (mkWorld p ps ls lv) <->
  sumZ is_asleep ps = 0 \/ (if stopping_ p then 0 < sumZ is_notify_all ps else available p <= sumZ is_pending ps).
Proof. done. Qed.

Lemma after_reset_wakes r :
  is_asleep (after_reset r) = 0 /\ is_pending (after_reset r) = 0 /\ is_notify_all (after_reset r) = 0.
Proof. by destruct r. Qed.

(** What is available shrinks when a woken thread takes it, and a
    notification follows what becomes available. *)
Lemma step_woken w w' : pool_ok w -> woken w -> step w w' -> woken w'.
Proof.
  intros Hok Hw Hs. pose proof (step_counted w w' Hok Hs) as [_ [Hcr _]]. destruct Hok as [Hc _ _ _ H1 H2 H3].
  pose proof (asleep_nonneg w) as Ha0. pose proof (pending_nonneg w) as Hp0. pose proof (notifying_all_nonneg w) as Hn0.
  pose proof (out_nonneg w) as Ho0.
  destruct Hs as [t w Ht|t x w Ht Hx Ha|t x w Ht Hx Ha|t x g p w Ht Hx Ha|t x p w Ht Hx Ha|t w Ht|t g w Ht Hg|t w Ht
    |t i l l1 l2 w Ht Hi Hm|t i j a b r a' b' w Ht Hi Hj Hij Hm|t i l r l' w Ht Hi Hm|t g p cl w Ht Hr|t u ls w Ht Hu
    |t ls w Ht Hu|t hs p w Ht Hd|t hs w Ht|t g hs w Ht|t w Ht]; apply woken_eq; unfold woken, asleep, pending, notifying_all in *.
  - sums. by rewrite !Z.sub_0_r, !Z.add_0_r.
  - pose proof (acquire_spec (pool w)) as Hs. rewrite Ha in Hs. destruct Hs as (Hst & Hi & E).
    right. rewrite Hst. unfold available. rewrite Hi. destruct Hx as [-> | ->]; sums; [lia|].
    destruct (threads_somewhere w t _ Ht) as [_ Hone]. unfold pending in Hone. simpl in Hone. lia.
  - pose proof (acquire_spec (pool w)) as Hs. rewrite Ha in Hs.
    rewrite Hs in *. destruct Hx as [-> | ->]; sums; lia.
  - pose proof (acquire_spec (pool w)) as Hs. rewrite Ha in Hs. destruct Hs as (Hst & Hi & E1 & E2 & E3).
    rewrite Hst, E3 in *. unfold available in *. rewrite Hi, length_app in Hw. destruct Hx as [-> | ->]; sums; lia.
  - pose proof (acquire_spec (pool w)) as Hs. rewrite Ha in Hs. destruct Hs as (Hst & Hi & E1 & ->).
    specialize (H2 Hst). rewrite Hst, Hi in *. unfold available in *. cbn [stopping_ idle_ capacity_ created_] in *. unwrap.
    destruct Hx as [-> | ->]; sums; rewrite ?Hi in *; simpl in *; lia.
  - destruct (threads_somewhere w t _ Ht) as [Hone _]. unfold asleep in Hone. sums.
    destruct Hw as [Hw|Hw]; [lia|]. right. destruct (stopping_ (pool w)); lia.
  - sums. by rewrite !Z.sub_0_r, !Z.add_0_r.
  - pose proof (creating_out w t _ Ht) as Hone. simpl in Hone. unfold creation_failed, available in *. sums. unwrap.
    destruct (stopping_ (pool w)); lia.
  - done.
  - destruct (after_reset_wakes r) as (E1 & E2 & E3). sums. rewrite E1, E2, E3. by rewrite !Z.sub_0_r, !Z.add_0_r.
  - destruct (after_reset_wakes r) as (E1 & E2 & E3). sums. rewrite E1, E2, E3. by rewrite !Z.sub_0_r, !Z.add_0_r.
  - unfold release in Hr. unfold available in *.
    destruct (stopping_ (pool w)) eqn:Hst; injection Hr as <- <-; sums; rewrite ?Hst, ?length_app in *; simpl in *; lia.
  - assert (u <> t) by (intros ->; congruence). destruct (threads_somewhere w u _ Hu) as [Hone _]. unfold asleep in Hone. sums.
    destruct Hw as [Hw|Hw]; [lia|]. right. destruct (stopping_ (pool w)); lia.
  - pose proof (nobody_asleep w Hu) as H0. unfold asleep in H0. left. sums. lia.
  - unfold shutdown in Hd. destruct (stopping_ (pool w)) eqn:Hst; [done|]. injection Hd as <- <-.
    right. sums. lia.
  - left. erewrite sumZ_insert by (rewrite list_lookup_fmap, Ht; done). rewrite woken_asleep. simpl. lia.
  - sums. by rewrite !Z.sub_0_r, !Z.add_0_r.
  - sums. by rewrite !Z.sub_0_r, !Z.add_0_r.
Qed.

(** ** Reachable states *)

Lemma occurrences_initial h c n : occurrences h (initial c n) = 0.
Proof.
  unfold occurrences, initial. cbn [pool pcs leases idle_ new_pool]. rewrite sumZ_nil.
  assert (sumZ (fun x => times h (pc_handles x)) (replicate n Outside) = 0) as ->; [|by rewrite times_nil].
  apply sumZ_zero. by intros x [-> _]%elem_of_replicate.
Qed.

Lemma initial_ok c n : is_u64 c -> pool_ok (initial c n) /\ woken (initial c n).
Proof.
  intros Hc. unfold is_u64 in Hc.
  assert (Hout : out (initial c n) = 0).
  { unfold out, initial. cbn [pcs leases]. rewrite sumZ_nil, sumZ_zero; [done|]. by intros x [-> _]%elem_of_replicate. }
  split; [split; cbn [initial pool pcs leases live new_pool capacity_ created_ idle_ stopping_]; try done|].
  - lia.
  - by apply Forall_replicate.
  - intros h. rewrite occurrences_initial. by rewrite bool_decide_false by set_solver.
  - change (out (initial c n) <= 0 <= Z.max 1 c). rewrite Hout. lia.
  - left. apply sumZ_zero. by intros x [-> _]%elem_of_replicate.
Qed.

Lemma step_pool w w' : pool_ok w /\ woken w -> step w w' -> pool_ok w' /\ woken w'.
Proof.
  intros [Hok Hw] Hs. split; [|by eapply step_woken].
  destruct (step_wf w w' Hok Hs), (step_counted w w' Hok Hs) as (Hc & ? & ? & ?).
  split; try done; [by rewrite Hc; apply Hok|]. intros h. by apply (step_once w).
Qed.

Lemma reachable_pool c n w : is_u64 c -> reachable c n w -> pool_ok w /\ woken w.
Proof. intros Hc Hr.
  eapply (invariant_rtc step (fun w => pool_ok w /\ woken w)); [apply step_pool|by apply initial_ok|exact Hr]. Qed.

Lemma reachable_capacity c n w : is_u64 c -> reachable c n w -> capacity_ (pool w) = Z.max 1 c.
Proof.
  intros Hc Hr. unfold reachable in Hr.
  assert (H : (pool_ok w /\ woken w) /\ capacity_ (pool w) = Z.max 1 c); [|apply H].
  eapply (invariant_rtc step (fun w => (pool_ok w /\ woken w) /\ capacity_ (pool w) = Z.max 1 c)); [| |exact Hr].
  - intros s s' [Hok E] Hs. split; [by eapply step_pool|]. by rewrite (proj1 (step_counted s s' (proj1 Hok) Hs)).
  - split; [by apply initial_ok|done].
Qed.

Lemma times_elem h l : 0 < times h l <-> h ∈ l.
Proof.
  split.
  - intros (x & Hx & H)%sumZ_pos. case_bool_decide; [by subst|lia].
  - intros (a & b & ->)%list_elem_of_split. change (h :: b) with ([h] ++ b). rewrite !times_app, times_one, bool_decide_true by done.
    pose proof (times_nonneg h a). pose proof (times_nonneg h b). lia.
Qed.

(** With all threads outside and all leases empty only idle handles are left. *)
Lemma quiet_live w :
  pool_ok w -> (forall x, x ∈ pcs w -> x = Outside) -> (forall l, l ∈ leases w -> handle_ l = None) ->
  live w = list_to_set (idle_ (pool w)).
Proof.
  intros Hok Hpc Hl. apply set_eq. intros h. rewrite elem_of_list_to_set, <- times_elem.
  pose proof (ok_once _ Hok h) as Ho. unfold occurrences in Ho.
  rewrite (sumZ_zero (fun x => times h (pc_handles x))) in Ho by (by intros x ->%Hpc).
  rewrite (sumZ_zero (fun l => times h (lease_handles l))) in Ho.
  2: { intros l Hin. by rewrite (lease_handles_of _ _ (Hl l Hin)). }
  case_bool_decide; [split; [lia|done]|split; [done|lia]].
Qed.

(** ** Theorems *)

(** C39: In every interleaving each handle that exists is in exactly one place -
    idle, in one lease, or with the thread that resets or destroys it - and a
    handle that was destroyed is nowhere; [created_] counts the handles that
    are idle or out and never exceeds the capacity; and once every thread is
    done and every lease is empty the idle handles are all there are, none
    after a shutdown. *)
Theorem handles_have_one_owner c n w :
  is_u64 c -> reachable c n w ->
  (forall h, occurrences h w = if bool_decide (h ∈ live w) then 1 else 0) /\
  out w <= created_ (pool w) <= Z.max 1 c /\
  (stopping_ (pool w) = false -> created_ (pool w) = Z.of_nat (length (idle_ (pool w))) + out w) /\
  ((forall x, x ∈ pcs w -> x = Outside) -> (forall l, l ∈ leases w -> handle_ l = None) ->
   live w = list_to_set (idle_ (pool w)) /\ (stopping_ (pool w) = true -> live w = ∅)).
Proof.
  intros Hc Hr. destruct (reachable_pool c n w Hc Hr) as [Hok _].
  split; [apply Hok|]. rewrite <- (reachable_capacity c n w Hc Hr). split; [apply Hok|]. split; [apply Hok|].
  intros Hpc Hl. split; [by apply quiet_live|]. intros Hst. rewrite (quiet_live w Hok Hpc Hl). by rewrite (ok_stopped w Hok Hst).
Qed.

(** C10: No wake-up is lost: when a thread sleeps in [acquire] and no notification
    is under way, the pool is not stopping, no handle is idle, and as many
    handles as the capacity allows are out in leases or with other threads. *)
Theorem no_lost_wakeup c n w :
  is_u64 c -> reachable c n w -> 0 < asleep w -> pending w = 0 -> notifying_all w = 0 ->
  stopping_ (pool w) = false /\ idle_ (pool w) = [] /\ out w = Z.max 1 c.
Proof.
  intros Hc Hr Ha Hp Hn. destruct (reachable_pool c n w Hc Hr) as [Hok [Hw|Hw]]; [lia|].
  destruct (stopping_ (pool w)) eqn:Hst; [lia|]. pose proof (ok_running w Hok Hst) as Hcr.
  rewrite <- (reachable_capacity c n w Hc Hr). pose proof (ok_created w Hok). unfold available in Hw.
  split; [done|]. destruct (idle_ (pool w)); simpl in *; [|lia]. split; [done|lia].
Qed.

(** ** Instances *)

(** Two threads and one handle: the first has it, the second sleeps. *)
Definition example_world : World :=
  mkWorld (mkPool 1 [] 1 false) [Outside; Asleep] [mkLease true (Some 7%nat)] {[7%nat]}.

Lemma example_world_reachable : reachable 1 2 example_world.
Proof.
  unfold reachable. eapply rtc_l; [by apply (s_enter 0)|]. cbn.
  eapply rtc_l; [apply (s_create 0 Entering (mkPool 1 [] 1 false)); [done|by left|by vm_compute]|]. cbn.
  eapply rtc_l; [apply (s_created 0 7%nat); [done|set_solver]|]. cbn.
  eapply rtc_l; [by apply (s_enter 1)|]. cbn.
  eapply rtc_l; [apply (s_wait 1 Entering); [done|by left|by vm_compute]|]. cbn.
  rewrite union_empty_r_L. apply rtc_refl.
Qed.

Lemma handles_have_one_owner_witness :
  reachable 1 2 example_world /\ out example_world <= created_ (pool example_world) <= Z.max 1 1.
Proof.
  split; [apply example_world_reachable|].
  apply (handles_have_one_owner 1 2 example_world ltac:(unfold is_u64; lia) example_world_reachable).
Defined.

Lemma no_lost_wakeup_witness :
  0 < asleep example_world /\ pending example_world = 0 /\ notifying_all example_world = 0 /\ out example_world = Z.max 1 1.
Proof.
  split; [done|]. split; [done|]. split; [done|].
  apply (no_lost_wakeup 1 2 example_world ltac:(unfold is_u64; lia) example_world_reachable eq_refl eq_refl eq_refl).
Defined.

(** The assertion of [shutdown] does not hold while a lease has a handle: a
    debug build stops there although [release] has a branch for this case. *)
Lemma shutdown_assertion_exact c n w :
  is_u64 c -> reachable c n w -> stopping_ (pool w) = false ->
  shutdown_assertion (pool w) = bool_decide (out w = 0).
Proof.
  intros Hc Hr Hst. destruct (reachable_pool c n w Hc Hr) as [Hok _]. pose proof (ok_running w Hok Hst) as E.
  unfold shutdown_assertion. case_bool_decide; [apply Z.eqb_eq; lia|apply Z.eqb_neq; lia].
Qed.
