(* ===== verification/CocrSource.v ===== *)
(** * handler/cocr_source_url.cpp: sources of the official rule repository

    A URL that names a file on the main branch of one repository, at GitHub or
    jsDelivr, is rewritten to the project's mirror; every other URL is left as
    it is. *)

From S2P Require Import Prelude Str StringUtil.
Open Scope str_scope.
Local Open Scope nat_scope.

(** src/src/handler/cocr_source_url.h:6-9 [CocrSourceResolution] *)
Record CocrSourceResolution := mkResolution { effective_url : str; rewritten : bool }.

(** src/src/handler/cocr_source_url.cpp:10-11 [kTargetPrefix] *)
Definition kTargetPrefix : str := "https://git.asailor.org/Custom_OpenClash_Rules/main/".

(** src/src/handler/cocr_source_url.cpp:19-21 [equalsIgnoreCase] *)
Definition equalsIgnoreCase (lhs rhs : str) : bool := bool_decide (toLower lhs = toLower rhs).

(** src/src/handler/cocr_source_url.cpp:36-41 [splitCanonicalPath, bytes] *)
Definition ambiguous_byte (c : ascii) : bool := (code c <? 32)%Z || (code c =? 127)%Z || one_of "\%:"%str c.

(** src/src/handler/cocr_source_url.cpp:34-41 [splitCanonicalPath, one segment] *)
Definition segment_refused (segment : str) : bool :=
  bool_decide (segment = []) || bool_decide (segment = "."%str) || bool_decide (segment = ".."%str)
  || existsb ambiguous_byte segment.

(** src/src/handler/cocr_source_url.cpp:28-47 [splitCanonicalPath, loop] *)
Fixpoint canonical_loop (fuel : nat) (path : str) (start : nat) (segments : list str) : option (list str) :=
  match fuel with
  | O => None
  | S fuel =>
      if start <=? length path then
        let end_ := find_char "/" path start in
        let segment := match end_ with None => drop start path | Some e => substr path start (e - start) end in
        if segment_refused segment then Some []
        else
          match end_ with
          | None => Some (segments ++ [segment])
          | Some e => canonical_loop fuel path (e + 1) (segments ++ [segment])
          end
      else Some segments
  end.

(** src/src/handler/cocr_source_url.cpp:23-48 [splitCanonicalPath] *)
Definition splitCanonicalPath (path : str) : option (list str) :=
  match path with
  | c :: _ => if is_char "/" c then canonical_loop (S (length path)) path 1 [] else Some []
  | [] => Some []
  end.

(** [segments[i]] where the code has checked that there is one. *)
Definition segment_is (segments : list str) (i : nat) (name : str) : bool :=
  match segments !! i with Some s => equalsIgnoreCase s name | None => false end.

(** src/src/handler/cocr_source_url.cpp:50-56 [isOfficialRepository] *)
Definition isOfficialRepository (segments : list str) (offset : nat) : bool :=
  (offset + 1 <? length segments) && segment_is segments offset "Aethersailor"
  && segment_is segments (offset + 1) "Custom_OpenClash_Rules".

(** src/src/handler/cocr_source_url.cpp:58-73 [mainPathStart] *)
Definition mainPathStart (segments : list str) (offset : nat) : option nat :=
  if (offset <? length segments) && segment_is segments offset "main" then
    if offset + 1 <? length segments then Some (offset + 1) else None
  else if (offset + 2 <? length segments) && segment_is segments offset "refs" && segment_is segments (offset + 1) "heads"
          && segment_is segments (offset + 2) "main" then
    if offset + 3 <? length segments then Some (offset + 3) else None
  else None.

(** src/src/handler/cocr_source_url.cpp:75-79 [rawGitHubPath] *)
Definition rawGitHubPath (segments : list str) : option nat :=
  if isOfficialRepository segments 0 then mainPathStart segments 2 else None.

(** src/src/handler/cocr_source_url.cpp:81-88 [githubPath] *)
Definition githubPath (segments : list str) : option nat :=
  if negb (isOfficialRepository segments 0) || (length segments <? 5)
     || (negb (segment_is segments 2 "raw") && negb (segment_is segments 2 "blob")) then None
  else mainPathStart segments 3.

(** src/src/handler/cocr_source_url.cpp:90-108 [jsDelivrPath] *)
Definition jsDelivrPath (segments : list str) : option nat :=
  if (length segments <? 4) || negb (segment_is segments 0 "gh") || negb (segment_is segments 1 "Aethersailor") then None
  else if segment_is segments 2 "Custom_OpenClash_Rules@main" then Some 3
  else if (5 <? length segments) && segment_is segments 2 "Custom_OpenClash_Rules@refs" && segment_is segments 3 "heads"
          && segment_is segments 4 "main" then Some 5
  else None.

(** src/src/handler/cocr_source_url.cpp:110-114 [isJsDelivrHost] *)
Definition isJsDelivrHost (host : str) : bool :=
  bool_decide (host = "jsdelivr.net"%str) || ((13 <? length host) && ends_with ".jsdelivr.net"%str host).

(** src/src/handler/cocr_source_url.cpp:116-125 [joinPath] *)
Definition joinPath (segments : list str) (start : nat) : str :=
  foldl (fun result segment => (match result with [] => result | _ => result ++ "/" end) ++ segment) [] (drop start segments).

(** src/src/handler/cocr_source_url.cpp:163-170 [resolveCocrSourceUrl, the repository] *)
Definition repository_path (host : str) (segments : list str) : option nat :=
  if bool_decide (host = "raw.githubusercontent.com"%str) then rawGitHubPath segments
  else if bool_decide (host = "github.com"%str) then githubPath segments
  else if isJsDelivrHost host then jsDelivrPath segments
  else None.

(** src/src/handler/cocr_source_url.cpp:129-181 [resolveCocrSourceUrl] *)
Definition resolveCocrSourceUrl (url : str) (enabled : bool) : option CocrSourceResolution :=
  let unchanged := Some (mkResolution url false) in
  if negb enabled then unchanged
  else
    match find "://"%str url 0 with
    | None => unchanged
    | Some scheme_end =>
        let scheme := toLower (take scheme_end url) in
        if negb (bool_decide (scheme = "http"%str)) && negb (bool_decide (scheme = "https"%str)) then unchanged
        else
          let authority_start := scheme_end + 3 in
          match find_char "/" url authority_start with
          | None => unchanged
          | Some path_start_pos =>
              let authority := substr url authority_start (path_start_pos - authority_start) in
              if bool_decide (authority = []) || bool_decide (is_Some (find_char "@" authority 0)) then unchanged
              else
                let host := toLower (take (default (length authority) (find_char ":" authority 0)) authority) in
                let suffix_start := find_if (one_of "?#"%str) url path_start_pos in
                let path := match suffix_start with None => drop path_start_pos url
                            | Some s => substr url path_start_pos (s - path_start_pos) end in
                segments ← splitCanonicalPath path;
                if bool_decide (segments = []) then unchanged
                else
                  match repository_path host segments with
                  | None => unchanged
                  | Some repository_path_start =>
                      if length segments <=? repository_path_start then unchanged
                      else Some (mkResolution (kTargetPrefix ++ joinPath segments repository_path_start
                             ++ match suffix_start with None => [] | Some s => drop s url end) true)
                  end
          end
    end.

(** ** The URLs that are meant *)

(** Host and beginning of the path, in lower case. *)
Inductive Spelling : str -> list str -> Prop :=
| sp_raw : Spelling "raw.githubusercontent.com" ["aethersailor"; "custom_openclash_rules"; "main"]%str
| sp_raw_refs : Spelling "raw.githubusercontent.com" ["aethersailor"; "custom_openclash_rules"; "refs"; "heads"; "main"]%str
| sp_github kind : kind = "raw"%str \/ kind = "blob"%str ->
    Spelling "github.com" ["aethersailor"%str; "custom_openclash_rules"%str; kind; "main"%str]
| sp_github_refs kind : kind = "raw"%str \/ kind = "blob"%str ->
    Spelling "github.com" ["aethersailor"%str; "custom_openclash_rules"%str; kind; "refs"%str; "heads"%str; "main"%str]
| sp_cdn host : isJsDelivrHost host = true ->
    Spelling host ["gh"; "aethersailor"; "custom_openclash_rules@main"]%str
| sp_cdn_refs host : isJsDelivrHost host = true ->
    Spelling host ["gh"; "aethersailor"; "custom_openclash_rules@refs"; "heads"; "main"]%str.

(** A name of the path: not empty, no dots that move, no byte that could be
    read in two ways. *)
Definition plain_name (s : str) : Prop :=
  s <> [] /\ s <> "."%str /\ s <> ".."%str /\
  forall c, c ∈ s -> (32 <= code c)%Z /\ code c <> 127%Z /\ c ∉ "\%:"%str.
Definition segment_ok (s : str) : Prop := plain_name s /\ "/"%char ∉ s /\ (forall c, c ∈ s -> one_of "?#"%str c = false).

(** [url] names the file [file] on the main branch of the repository; [suffix]
    is its query and fragment. *)
Definition official (url : str) (file : list str) (suffix : str) : Prop :=
  exists scheme authority pre,
    url = scheme ++ "://" ++ authority ++ concat (cons "/"%char <$> (pre ++ file)) ++ suffix /\
    http_scheme scheme /\ authority <> [] /\ "/"%char ∉ authority /\ "@"%char ∉ authority /\
    Spelling (toLower (take (default (length authority) (find_char ":" authority 0)) authority)) (toLower <$> pre) /\
    Forall segment_ok (pre ++ file) /\ file <> [] /\
    (suffix = [] \/ exists c t, suffix = c :: t /\ one_of "?#"%str c = true).

(** ** Lemmas: paths *)

Lemma ambiguous_byte_spec c : ambiguous_byte c = false <-> (32 <= code c)%Z /\ code c <> 127%Z /\ c ∉ "\%:"%str.
Proof.
  unfold ambiguous_byte, one_of. rewrite !orb_false_iff, Z.ltb_ge, Z.eqb_neq, bool_decide_eq_false. tauto.
Qed.

Lemma segment_refused_spec s : segment_refused s = false <-> plain_name s.
Proof.
  unfold segment_refused, plain_name. rewrite !orb_false_iff, !bool_decide_eq_false, <- not_true_iff_false, existsb_exists.
  split.
  - intros [[[H1 H2] H3] H4]. split; [done|]. split; [done|]. split; [done|]. intros c Hc. apply ambiguous_byte_spec, not_true_iff_false. intros Ha.
    apply H4. exists c. by rewrite <- list_elem_of_In.
  - intros (H1 & H2 & H3 & H4). split_and!; try done. intros (c & Hc & Ha). apply list_elem_of_In in Hc.
    apply H4, ambiguous_byte_spec in Hc. congruence.
Qed.

Lemma canonical_loop_spec fuel path start segments :
  start <= length path -> length path - start < fuel ->
  canonical_loop fuel path start segments =
    Some (if forallb (fun s => negb (segment_refused s)) (fields "/" (drop start path))
          then segments ++ fields "/" (drop start path) else []).
Proof.
  revert start segments. induction fuel as [|fuel IH]; intros start segments Hs Hf; [lia|]. cbn [canonical_loop].
  rewrite (proj2 (Nat.leb_le _ _)) by done. rewrite find_char_drop. cbv zeta.
  destruct (find_char "/" (drop start path) 0) as [i|] eqn:Hi; cbn [fmap option_fmap option_map].
  - apply find_char_Some in Hi as (Hlt & Heq & Hno). rewrite length_drop in Hlt.
    replace (substr path start (start + i - start)) with (take i (drop start path)) by (unfold substr; f_equal; lia).
    rewrite IH by lia. rewrite drop_drop in Heq. replace (start + S i) with (start + i + 1) in Heq by lia.
    generalize dependent (take i (drop start path)). intros seg Heq Hno. rewrite Heq, fields_cons by done. cbn [forallb].
    destruct (segment_refused seg); cbn [negb andb]; [done|]. by rewrite <- app_assoc.
  - apply find_char_None in Hi. rewrite fields_one by done. simpl.
    destruct (segment_refused _); done.
Qed.

Lemma concat_fields c s : concat (cons c <$> fields c s) = c :: s.
Proof.
  induction s as [|d s IH]; [done|]. simpl. destruct (is_char c d) eqn:E.
  - unfold is_char in E. bools. subst d. csimpl. by rewrite IH.
  - pose proof (fields_nonempty c s). destruct (fields c s) as [|f fs]; [done|]. csimpl in *. injection IH as IH. by rewrite IH.
Qed.

Lemma fields_concat c l s : l <> [] -> Forall (fun f => c ∉ f) l -> concat (cons c <$> l) = c :: s -> fields c s = l.
Proof.
  revert s. induction l as [|f l IH]; intros s Hne Hall H; [done|]. apply Forall_cons in Hall as [Hf Hall].
  csimpl in H. injection H as <-. destruct l as [|g l]; csimpl; [by rewrite app_nil_r, fields_one|].
  rewrite fields_cons by done. f_equal. by apply IH.
Qed.

Lemma fields_free c s : Forall (fun f => c ∉ f) (fields c s).
Proof.
  induction s as [|d s IH]; [repeat constructor; apply not_elem_of_nil|]. simpl. destruct (is_char c d) eqn:E; [constructor; [apply not_elem_of_nil|done]|].
  destruct (fields c s) as [|f fs]; [repeat constructor|].
  - unfold is_char in E. bools. rewrite not_elem_of_cons. split; [congruence|apply not_elem_of_nil].
  - apply Forall_cons in IH as [H1 H2]. constructor; [|done]. unfold is_char in E. bools.
    rewrite not_elem_of_cons. split; [congruence|done].
Qed.

(** A path has segments exactly when they are all accepted. *)
Lemma splitCanonicalPath_spec path : exists segs, splitCanonicalPath path = Some segs /\
  (segs <> [] -> path = concat (cons "/"%char <$> segs) /\ Forall (fun s => segment_refused s = false /\ "/"%char ∉ s) segs).
Proof.
  unfold splitCanonicalPath. destruct path as [|c rest]; [by exists []|].
  destruct (is_char "/" c) eqn:Ec; [|by exists []]. unfold is_char in Ec. bools. subst c.
  rewrite canonical_loop_spec by (simpl; lia). simpl drop. rewrite drop_0.
  destruct (forallb _ _) eqn:E; [|by exists []]. exists (fields "/" rest). split; [done|]. intros _.
  split; [by rewrite concat_fields|]. pose proof (fields_free "/" rest) as Hfree.
  rewrite forallb_forall in E. apply Forall_forall. intros s Hs. split.
  - specialize (E s (proj1 (list_elem_of_In _ _) Hs)). by apply negb_true_iff in E.
  - rewrite Forall_forall in Hfree. by apply Hfree.
Qed.

Lemma splitCanonicalPath_concat segs : segs <> [] ->
  Forall (fun s => segment_refused s = false /\ "/"%char ∉ s) segs -> splitCanonicalPath (concat (cons "/"%char <$> segs)) = Some segs.
Proof.
  intros Hne Hall. destruct (concat (cons "/"%char <$> segs)) as [|c rest] eqn:E; [by destruct segs|].
  assert (c = "/"%char) as -> by (destruct segs; csimpl in E; congruence).
  assert (Hf : fields "/" rest = segs).
  { apply fields_concat; [done| |done]. eapply Forall_impl; [exact Hall|]. by intros s [_ Hs]. }
  unfold splitCanonicalPath. replace (is_char "/" "/") with true by done.
  rewrite canonical_loop_spec by (simpl; lia). simpl drop. rewrite drop_0, Hf.
  replace (forallb _ segs) with true; [done|]. symmetry. apply forallb_forall. intros s Hs%list_elem_of_In.
  rewrite Forall_forall in Hall. by rewrite (proj1 (Hall s Hs)).
Qed.

Lemma joinPath_join segs n : Forall (fun s => s <> []) (drop n segs) -> joinPath segs n = join (drop n segs) "/".
Proof.
  unfold joinPath. generalize (drop n segs). intros l Hl. destruct l as [|f l]; [done|].
  apply Forall_cons in Hl as [Hf Hl]. simpl.
  assert (H : forall acc, acc <> [] -> foldl (fun result segment => (match result with [] => result | _ => result ++ "/" end) ++ segment) acc l
            = acc ++ concat (cons "/"%char <$> l)).
  { clear Hf. induction Hl as [|g l Hg Hl IH]; intros acc Hacc; simpl; [by rewrite app_nil_r|].
    destruct acc as [|c acc]; [done|]. rewrite IH by done. by rewrite <- !app_assoc. }
  rewrite H by done. clear. revert f. induction l as [|g l IH]; intros f; [simpl; by rewrite app_nil_r|].
  csimpl. rewrite <- IH. by rewrite <- app_assoc.
Qed.

(** ** Lemmas: the repository *)

Lemma segment_is_spec segs i name : segment_is segs i name = true <-> (toLower <$> segs) !! i = Some (toLower name).
Proof.
  unfold segment_is, equalsIgnoreCase. rewrite list_lookup_fmap. destruct (segs !! i); simpl; [|done].
  rewrite bool_decide_eq_true. split; [by intros ->|by intros [= ->]].
Qed.

(** The segments begin with the given ones, whatever the case. *)
Definition begins (l segs : list str) : Prop := forall i s, l !! i = Some s -> (toLower <$> segs) !! i = Some s.

Lemma begins_split l segs : begins l segs -> length l < length segs ->
  segs = take (length l) segs ++ drop (length l) segs /\ toLower <$> take (length l) segs = l /\ drop (length l) segs <> [].
Proof.
  intros Hb Hl. rewrite take_drop. split; [done|]. split.
  - rewrite fmap_take. apply list_eq_same_length with (length l); [done|by rewrite length_take, length_fmap; lia|].
    intros i x y Hi Hx Hy. rewrite lookup_take_lt in Hx by lia. specialize (Hb i y Hy). congruence.
  - intros E. apply (f_equal length) in E. rewrite length_drop in E. simpl in E. lia.
Qed.

Lemma begins_app pre file : begins (toLower <$> pre) (pre ++ file).
Proof. intros i s Hs. rewrite fmap_app. by apply lookup_app_l_Some. Qed.

(** Reads the tests of a branch as equations on the segments. *)
Ltac segments :=
  repeat match goal with
    | H : (_ && _) = true |- _ => apply andb_true_iff in H; destruct H
    | H : (_ || _) = false |- _ => apply orb_false_iff in H; destruct H
    | H : negb _ = false |- _ => apply negb_false_iff in H
    | H : (_ <? _) = true |- _ => apply Nat.ltb_lt in H
    | H : (_ <? _) = false |- _ => apply Nat.ltb_ge in H
    | H : segment_is _ _ _ = true |- _ => apply segment_is_spec in H
    end.

(** Proves [begins] for a concrete list from the tests. *)
Ltac begins := let i := fresh in let s := fresh in let H := fresh in
  intros i s H; do 6 (destruct i as [|i]; [first [discriminate H | injection H as <-; assumption]|]); discriminate H.

Lemma repository_path_begins host segs n : repository_path host segs = Some n ->
  exists l, begins l segs /\ length l = n /\ Spelling host l.
Proof.
  unfold repository_path. intros H. case_bool_decide as Hh; [subst host|case_bool_decide as Hh2; [subst host|]].
  - unfold rawGitHubPath, isOfficialRepository, mainPathStart in H.
    repeat (case_match; try done); segments; injection H as <-;
      [exists ["aethersailor"; "custom_openclash_rules"; "main"]%str
      |exists ["aethersailor"; "custom_openclash_rules"; "refs"; "heads"; "main"]%str]; (split; [begins|split; [done|constructor]]).
  - unfold githubPath, isOfficialRepository, mainPathStart in H. destruct (_ || _) eqn:E in H; [done|]. segments.
    match goal with H : _ && _ = false |- _ => apply andb_false_iff in H; rewrite !negb_false_iff in H; rename H into Hk end.
    assert (Hkind : exists kind, (kind = "raw"%str \/ kind = "blob"%str) /\ (toLower <$> segs) !! 2 = Some kind).
    { destruct Hk as [Hk|Hk]; apply segment_is_spec in Hk; eexists; (split; [|exact Hk]); [by left|by right]. }
    destruct Hkind as (kind & Hkind & Hk2).
    repeat (case_match; try done); segments; injection H as <-;
      [exists ["aethersailor"%str; "custom_openclash_rules"%str; kind; "main"%str]
      |exists ["aethersailor"%str; "custom_openclash_rules"%str; kind; "refs"%str; "heads"%str; "main"%str]];
      (split; [begins|split; [done|by constructor]]).
  - destruct (isJsDelivrHost host) eqn:Ej; [|done]. unfold jsDelivrPath in H.
    destruct (_ || _) eqn:E in H; [done|]. segments.
    repeat (case_match; try done); segments; injection H as <-;
      [exists ["gh"; "aethersailor"; "custom_openclash_rules@main"]%str
      |exists ["gh"; "aethersailor"; "custom_openclash_rules@refs"; "heads"; "main"]%str];
      (split; [begins|split; [done|by constructor]]).
Qed.

Lemma repository_path_sound host segs n : repository_path host segs = Some n -> n < length segs ->
  exists pre file, segs = pre ++ file /\ length pre = n /\ file <> [] /\ Spelling host (toLower <$> pre).
Proof.
  intros (l & Hb & <- & Hs)%repository_path_begins Hn. destruct (begins_split l segs Hb Hn) as (E1 & E2 & E3).
  exists (take (length l) segs), (drop (length l) segs). split; [done|]. split; [rewrite length_take; lia|]. split; [done|]. by rewrite E2.
Qed.

Lemma segment_is_true l segs i name : begins l segs -> l !! i = Some (toLower name) -> segment_is segs i name = true.
Proof. intros Hb Hl. apply segment_is_spec. by apply Hb. Qed.

Lemma segment_is_false l segs i s name : begins l segs -> l !! i = Some s -> s <> toLower name -> segment_is segs i name = false.
Proof.
  intros Hb Hl Hne. destruct (segment_is segs i name) eqn:E; [|done]. apply segment_is_spec in E.
  rewrite (Hb _ _ Hl) in E. congruence.
Qed.

Lemma repository_path_complete host l segs : Spelling host l -> begins l segs -> length l < length segs ->
  repository_path host segs = Some (length l).
Proof.
  intros Hs Hb Hn. unfold repository_path.
  assert (T : forall i name, l !! i = Some (toLower name) -> segment_is segs i name = true) by (intros; by eapply segment_is_true).
  assert (F : forall i s name, l !! i = Some s -> s <> toLower name -> segment_is segs i name = false) by (intros; by eapply segment_is_false).
  destruct Hs as [| |kind Hk|kind Hk|host Hh|host Hh]; simpl in Hn.
  - rewrite bool_decide_true by done. unfold rawGitHubPath, isOfficialRepository, mainPathStart.
    rewrite !T by done. rewrite !(proj2 (Nat.ltb_lt _ _)) by (simpl; lia). done.
  - rewrite bool_decide_true by done. unfold rawGitHubPath, isOfficialRepository, mainPathStart.
    rewrite (F 2 "refs"%str "main"%str) by done. rewrite !T by done. rewrite !(proj2 (Nat.ltb_lt _ _)) by (simpl; lia). done.
  - rewrite bool_decide_false, bool_decide_true by done. unfold githubPath, isOfficialRepository, mainPathStart.
    rewrite (proj2 (Nat.ltb_ge (length segs) 5)) by lia. rewrite !(proj2 (Nat.ltb_lt _ _)) by (simpl; lia).
    destruct Hk as [-> | ->]; [rewrite (T 2 "raw"%str) by done|rewrite (F 2 "blob"%str "raw"%str), (T 2 "blob"%str) by done];
      cbn [negb andb orb]; by rewrite !T by done.
  - rewrite bool_decide_false, bool_decide_true by done. unfold githubPath, isOfficialRepository, mainPathStart.
    rewrite (proj2 (Nat.ltb_ge (length segs) 5)) by lia. rewrite !(proj2 (Nat.ltb_lt _ _)) by (simpl; lia).
    rewrite (F 3 "refs"%str "main"%str) by done.
    destruct Hk as [-> | ->]; [rewrite (T 2 "raw"%str) by done|rewrite (F 2 "blob"%str "raw"%str), (T 2 "blob"%str) by done];
      cbn [negb andb orb]; by rewrite !T by done.
  - rewrite !bool_decide_false by (intros ->; by vm_compute in Hh). rewrite Hh. unfold jsDelivrPath.
    rewrite (proj2 (Nat.ltb_ge (length segs) 4)) by lia. by rewrite !T by done.
  - rewrite !bool_decide_false by (intros ->; by vm_compute in Hh). rewrite Hh. unfold jsDelivrPath.
    rewrite (proj2 (Nat.ltb_ge (length segs) 4)) by lia. rewrite (F 2 "custom_openclash_rules@refs"%str "Custom_OpenClash_Rules@main"%str) by done.
    rewrite !(proj2 (Nat.ltb_lt _ _)) by (simpl; lia). by rewrite !T by done.
Qed.

(** ** The whole URL *)

Lemma path_segment_bytes segs c : Forall segment_ok segs -> one_of "?#"%str c = true -> c ∉ concat (cons "/"%char <$> segs).
Proof.
  intros Hall Hc Hin. induction Hall as [|s segs (H1 & H2 & H3) Hall IH]; csimpl in Hin; [by apply elem_of_nil in Hin|].
  apply elem_of_cons in Hin as [->|Hin]; [by vm_compute in Hc|]. apply elem_of_app in Hin as [Hin|Hin]; [|by apply IH].
  by rewrite (H3 c Hin) in Hc.
Qed.

(** Where the query or fragment begins. *)
Lemma suffix_split a p suffix :
  (forall c, one_of "?#"%str c = true -> c ∉ p) -> (suffix = [] \/ exists c t, suffix = c :: t /\ one_of "?#"%str c = true) ->
  let url := a ++ p ++ suffix in
  let s := find_if (one_of "?#"%str) url (length a) in
  match s with None => drop (length a) url | Some s => substr url (length a) (s - length a) end = p /\
  match s with None => [] | Some s => drop s url end = suffix.
Proof.
  intros Hp Hs url s. unfold s, url, find_if. rewrite drop_app_length.
  assert (Hnp : forall c, c ∈ p -> one_of "?#"%str c = false).
  { intros c Hc. apply not_true_iff_false. intros E. by apply (Hp c E). }
  destruct Hs as [->|(c & t & -> & Hc)].
  - rewrite app_nil_r, (proj2 (index_if_None _ p) Hnp). done.
  - rewrite index_if_app by done. cbn [fmap option_fmap option_map]. split.
    + unfold substr. rewrite drop_app_length. replace (length a + length p - length a) with (length p) by lia. apply take_app_length.
    + rewrite <- drop_drop, drop_app_length. apply drop_app_length.
Qed.

Lemma suffix_shape url n : let s := find_if (one_of "?#"%str) url n in
  drop n url = match s with None => drop n url | Some s => substr url n (s - n) end ++ match s with None => [] | Some s => drop s url end /\
  (forall c, c ∈ match s with None => drop n url | Some s => substr url n (s - n) end -> one_of "?#"%str c = false) /\
  (match s with None => [] | Some s => drop s url end = [] \/
   exists c t, match s with None => [] | Some s => drop s url end = c :: t /\ one_of "?#"%str c = true).
Proof.
  intros s. unfold s, find_if. destruct (index_if (one_of "?#"%str) (drop n url)) as [i|] eqn:E; cbn [fmap option_fmap option_map].
  - apply index_if_Some in E as (c & Heq & Hc & Hlt & Hall). unfold substr. replace (n + i - n) with i by lia.
    rewrite <- drop_drop. split; [by rewrite take_drop|]. split; [exact Hall|]. right.
    exists c, (drop (S i) (drop n url)). split; [|exact Hc]. rewrite Heq at 1. rewrite drop_app_ge by (rewrite length_take; lia).
    rewrite length_take, Nat.min_l, Nat.sub_diag by lia. done.
  - rewrite app_nil_r. split; [done|]. split; [by apply index_if_None|by left].
Qed.

Lemma rewritten_official url r : resolveCocrSourceUrl url true = Some r -> rewritten r = true ->
  exists file suffix, official url file suffix /\ effective_url r = kTargetPrefix ++ join file "/" ++ suffix.
Proof.
  unfold resolveCocrSourceUrl. cbn [negb]. intros H Hr.
  assert (Hno : Some (mkResolution url false) <> Some r) by (intros [= <-]; done).
  destruct (find "://"%str url 0) as [se|] eqn:Ese; [|done]. apply find_decompose in Ese as (Hurl & _ & Hse). rewrite drop_0 in Hurl.
  destruct (negb _ && _) eqn:Esch in H; [done|]. cbv zeta in H.
  destruct (find_char "/" url (se + 3)) as [psp|] eqn:Ep; [|done]. rewrite find_char_drop in Ep. apply fmap_Some in Ep as (i & Hi & ->).
  destruct (_ || _) eqn:Eauth in H; [done|]. apply orb_false_iff in Eauth as [Ea1 Ea2]. bools.
  pose proof Hi as Hi'. apply find_char_Some in Hi' as (Hlt & Heq & Hfree). rewrite length_drop in Hlt.
  assert (Ha : substr url (se + 3) (se + 3 + i - (se + 3)) = take i (drop (se + 3) url)) by (unfold substr; f_equal; lia).
  rewrite Ha in H, Ea1, Ea2. set (authority := take i (drop (se + 3) url)) in *.
  set (host := toLower (take _ authority)) in H.
  destruct (suffix_shape url (se + 3 + i)) as (Hrest & Hpath & Hsuf). cbv zeta in Hrest, Hpath, Hsuf.
  set (path := match find_if (one_of "?#"%str) url (se + 3 + i) with None => _ | Some s => substr _ _ _ end) in *.
  set (suffix := match find_if (one_of "?#"%str) url (se + 3 + i) with None => [] | Some s => _ end) in *.
  destruct (splitCanonicalPath_spec path) as (segs & Hsegs & Hok). rewrite Hsegs in H. cbn [mbind option_bind] in H.
  case_bool_decide; [done|]. destruct (Hok ltac:(done)) as [Hpeq Hall].
  destruct (repository_path host segs) as [n|] eqn:En; [|done]. destruct (Nat.leb_spec (length segs) n); [done|].
  injection H as <-. cbn [effective_url rewritten] in *. destruct (repository_path_sound _ _ _ En ltac:(done)) as (pre & file & Esegs & Hlen & Hne & Hsp).
  exists file, suffix. assert (Hsegok : Forall segment_ok segs).
  { apply Forall_forall. intros s Hs. rewrite Forall_forall in Hall. destruct (Hall s Hs). split; [by apply segment_refused_spec|]. split; [done|].
    intros c Hc. apply Hpath. rewrite Hpeq. apply list_elem_of_In, in_concat. exists ("/"%char :: s). split.
    - apply list_elem_of_In, list_elem_of_fmap. by exists s.
    - right. by apply list_elem_of_In. }
  split.
  - exists (substr url 0 (se - 0)), authority, pre. rewrite <- Esegs, <- Hpeq. split_and!; try done.
    + rewrite Hurl at 1. change (length "://"%str) with 3. rewrite <- Hrest. do 2 f_equal.
      unfold authority. rewrite <- (drop_drop url i (se + 3)). symmetry. apply take_drop.
    + unfold http_scheme, substr. rewrite drop_0, Nat.sub_0_r. rewrite !negb_false_iff, !bool_decide_eq_true in Esch. done.
    + intros Hat. apply Ea2. destruct (find_char "@" authority 0) eqn:E; [done|]. by apply find_char_None in E.
  - f_equal. rewrite joinPath_join; [|apply Forall_drop; eapply Forall_impl; [exact Hsegok|]; by intros s ((Hne' & _) & _)].
    rewrite Esegs, <- Hlen, drop_app_length. done.
Qed.

Lemma official_rewritten url file suffix : official url file suffix ->
  resolveCocrSourceUrl url true = Some (mkResolution (kTargetPrefix ++ join file "/" ++ suffix) true).
Proof.
  intros (scheme & authority & pre & Hurl & Hsch & Hane & Hslash & Hat & Hsp & Hall & Hfile & Hsuf).
  pose proof (http_scheme_no_colon scheme Hsch) as Hcolon.
  set (P := concat (cons "/"%char <$> (pre ++ file))) in *.
  assert (HP : exists q, P = "/"%char :: q).
  { unfold P. destruct (pre ++ file) as [|s l] eqn:E; [by apply app_eq_nil in E as [_ ->]|]. by eexists. }
  destruct HP as [q HP]. unfold resolveCocrSourceUrl. cbn [negb].
  assert (Hfind : find "://"%str url 0 = Some (length scheme)) by (rewrite Hurl; by apply find_scheme).
  rewrite Hfind. assert (Htake : take (length scheme) url = scheme) by (rewrite Hurl; apply take_app_length). rewrite Htake.
  replace (negb (bool_decide (toLower scheme = "http"%str)) && negb (bool_decide (toLower scheme = "https"%str))) with false
    by (by destruct Hsch as [-> | ->]). cbv zeta.
  set (a := scheme ++ "://"). assert (Hlen : length a = length scheme + 3) by (unfold a; by rewrite length_app). rewrite <- Hlen.
  assert (Hurl2 : url = a ++ authority ++ P ++ suffix) by (rewrite Hurl; unfold a; by rewrite <- app_assoc).
  assert (Hp : find_char "/" url (length a) = Some (length a + length authority)).
  { rewrite find_char_drop, Hurl2, drop_app_length, HP. simpl app. by rewrite find_char_app. }
  rewrite Hp. replace (substr url (length a) (length a + length authority - length a)) with authority.
  2: { rewrite Hurl2. unfold substr. rewrite drop_app_length. replace (length a + length authority - length a) with (length authority) by lia.
       by rewrite take_app_length. }
  rewrite bool_decide_false by done. rewrite bool_decide_false by (rewrite (proj2 (find_char_None _ _) Hat); by intros []).
  cbn [orb]. destruct (suffix_split (a ++ authority) P suffix) as [Hpath Hs]; [|done|].
  { intros c Hc. by apply path_segment_bytes. }
  cbv zeta in Hpath, Hs. rewrite length_app in Hpath, Hs. rewrite <- app_assoc in Hpath, Hs. rewrite <- Hurl2 in Hpath, Hs.
  rewrite Hpath, Hs. assert (Hok : Forall (fun s => segment_refused s = false /\ "/"%char ∉ s) (pre ++ file)).
  { eapply Forall_impl; [exact Hall|]. intros s (Hs' & ? & ?). by rewrite segment_refused_spec. }
  unfold P. rewrite splitCanonicalPath_concat; [|by intros [_ ->]%app_eq_nil|done]. cbn [mbind option_bind].
  rewrite bool_decide_false by (by intros [_ ->]%app_eq_nil).
  assert (Hl : length (toLower <$> pre) < length (pre ++ file)).
  { rewrite length_fmap, length_app. destruct file; [done|]. simpl. lia. }
  rewrite (repository_path_complete _ _ _ Hsp (begins_app pre file) Hl).
  destruct (Nat.leb_spec (length (pre ++ file)) (length (toLower <$> pre))); [lia|]. do 2 f_equal.
  rewrite length_fmap. rewrite joinPath_join; rewrite drop_app_length; [done|].
  apply Forall_app in Hall as [_ Hall]. eapply Forall_impl; [exact Hall|]. by intros s ((Hne' & _) & _).
Qed.

Lemma resolve_total url enabled : exists r, resolveCocrSourceUrl url enabled = Some r /\ (rewritten r = false -> effective_url r = url).
Proof.
  unfold resolveCocrSourceUrl. assert (H0 : exists r, Some (mkResolution url false) = Some r /\ (rewritten r = false -> effective_url r = url))
    by (by eexists).
  cbv zeta. repeat (case_match; try exact H0); try (destruct (splitCanonicalPath_spec path) as (? & -> & _));
    match goal with |- context [splitCanonicalPath ?p] => destruct (splitCanonicalPath_spec p) as (segs & -> & _) end;
    cbn [mbind option_bind]; repeat (case_match; try exact H0); by eexists.
Qed.

(** ** Theorems *)

(** C17: [resolveCocrSourceUrl] always answers: it rewrites exactly the URLs that
    name a file on the main branch of the repository in one of the spellings,
    to the mirror's URL of that file with the query and fragment kept, and
    leaves every other URL as it is. *)
Theorem resolve_exact url enabled :
  exists r, resolveCocrSourceUrl url enabled = Some r /\
    if rewritten r then
      enabled = true /\ exists file suffix, official url file suffix /\ effective_url r = kTargetPrefix ++ join file "/" ++ suffix
    else effective_url r = url /\ (enabled = true -> forall file suffix, ~ official url file suffix).
Proof.
  destruct (resolve_total url enabled) as (r & Hr & Hsame). exists r. split; [done|].
  destruct enabled; [|injection Hr as <-; done]. destruct (rewritten r) eqn:E.
  - split; [done|]. by apply rewritten_official.
  - split; [by apply Hsame|]. intros _ file suffix Ho. rewrite (official_rewritten _ _ _ Ho) in Hr. by injection Hr as <-.
Qed.

Example resolve_example :
  resolveCocrSourceUrl "HTTPS://cdn.jsdelivr.net:443/gh/Aethersailor/Custom_OpenClash_Rules@refs/heads/main/cfg/a.ini?x=1"%str true
  = Some (mkResolution "https://git.asailor.org/Custom_OpenClash_Rules/main/cfg/a.ini?x=1"%str true).
Proof. by vm_compute. Qed.

Example resolve_other_branch :
  resolveCocrSourceUrl "https://raw.githubusercontent.com/Aethersailor/Custom_OpenClash_Rules/dev/cfg/a.ini"%str true
  = Some (mkResolution "https://raw.githubusercontent.com/Aethersailor/Custom_OpenClash_Rules/dev/cfg/a.ini"%str false).
Proof. by vm_compute. Qed.
