(* ===== verification/GitHubProxy.v ===== *)
(** * handler/github_proxy.cpp: GitHub through a proxy

    A configuration that was itself fetched through a GitHub proxy tells which
    proxy; the GitHub URLs it contains are then sent through the same one. *)

From S2P Require Import Prelude Str StringUtil Codec Ruleset.
Open Scope str_scope.
Local Open Scope nat_scope.

(** src/src/handler/github_proxy.cpp:10-17 [ParsedUrl] *)
Record ParsedUrl := mkParsed {
  scheme : str; authority : str; host : str; path : str; path_start : option nat; valid : bool
}.

Definition invalid_url (scheme authority : str) : ParsedUrl := mkParsed scheme authority [] [] None false.
Definition authority_stop (c : ascii) : bool := one_of "/?#"%str c.

(** src/src/handler/github_proxy.cpp:46-52 [parseUrl, the host] *)
Definition host_text (authority : str) : str :=
  let host := match last_index_if (is_char "@") authority with Some a => drop (a + 1) authority | None => authority end in
  lowerAscii (match find_char ":" host 0 with Some port => take port host | None => host end).

(** src/src/handler/github_proxy.cpp:27-56 [parseUrl] *)
Definition parseUrl (value : str) : ParsedUrl :=
  match find "://"%str value 0 with
  | None => invalid_url [] []
  | Some scheme_end =>
      let scheme := lowerAscii (take scheme_end value) in
      if negb (bool_decide (scheme = "http"%str)) && negb (bool_decide (scheme = "https"%str)) then invalid_url scheme []
      else
        let authority_start := scheme_end + 3 in
        let authority_end := default (length value) (find_if authority_stop value authority_start) in
        let authority := substr value authority_start (authority_end - authority_start) in
        if bool_decide (authority = []) then invalid_url scheme []
        else
          let host := host_text authority in
          mkParsed scheme authority host (drop authority_end value) (Some authority_end) (negb (bool_decide (host = [])))
  end.

(** src/src/handler/github_proxy.cpp:58-61 [isGitHubHost] *)
Definition isGitHubHost (host : str) : bool :=
  bool_decide (host ∈ ["github.com"; "raw.githubusercontent.com"; "gist.githubusercontent.com"]%str).

(** src/src/handler/github_proxy.cpp:63-66 [isJsdelivrHost] *)
Definition isJsdelivrHost (host : str) : bool :=
  bool_decide (host ∈ ["cdn.jsdelivr.net"; "fastly.jsdelivr.net"; "testingcf.jsdelivr.net"; "gcore.jsdelivr.net"]%str).

(** src/src/handler/github_proxy.cpp:68-71 [isGitHubUrl] *)
Definition isGitHubUrl (value : str) : bool := let parsed := parseUrl value in valid parsed && isGitHubHost (host parsed).

Definition placeholder (text prefix : str) : bool := bool_decide (is_Some (find text prefix 0)).

(** src/src/handler/github_proxy.cpp:73-79 [normalizeProxyPrefix] *)
Definition normalizeProxyPrefix (prefix : str) : str :=
  let prefix := trimWhitespace prefix true true in
  if bool_decide (prefix = []) || placeholder "{url}" prefix || placeholder "{encodedUrl}" prefix then prefix
  else if endsWith prefix "/" then prefix else prefix ++ "/".

(** src/src/handler/github_proxy.cpp:81-89 [replaceAll]
    The loop is the one of [replaceAllDistinct]. *)
Definition replaceAll (value from to : str) : option str := replaceAllDistinct value from to.

(** src/src/handler/github_proxy.cpp:103-105 [jsdelivrGhPath, path]
    The second loop, lines 111-113, is the same from another segment on. *)
Definition slash_join (segments : list str) : str :=
  foldl (fun path segment => path ++ (match path with [] => [] | _ => "/"%str end) ++ segment) [] segments.

(** src/src/handler/github_proxy.cpp:91-117 [jsdelivrGhPath] *)
Definition jsdelivrGhPath (value : str) : option str :=
  let parsed := parseUrl value in
  if negb (valid parsed) then Some []
  else
    segments ← split (path parsed) "/";
    let segments := filter (fun item => item <> []) segments in
    let raw := bool_decide (host parsed = "raw.githubusercontent.com"%str) in
    let github := bool_decide (host parsed = "github.com"%str) in
    match segments with
    | s0 :: s1 :: s2 :: ((s3 :: rest) as from3) =>
        if raw then Some ("gh/" ++ s0 ++ "/" ++ s1 ++ "@" ++ s2 ++ "/" ++ slash_join from3)
        else if github && (bool_decide (s2 = "raw"%str) || bool_decide (s2 = "blob"%str)) && (1 <=? length rest)
        then Some ("gh/" ++ s0 ++ "/" ++ s1 ++ "@" ++ s3 ++ "/" ++ slash_join rest)
        else Some []
    | _ => Some []
    end.

Definition raw_markers : list str :=
  ["https://raw.githubusercontent.com/"; "https://github.com/"; "https://gist.githubusercontent.com/"]%str.
Definition encoded_markers : list str :=
  ["https%3a%2f%2fraw.githubusercontent.com%2f"; "https%3a%2f%2fgithub.com%2f"; "https%3a%2f%2fgist.githubusercontent.com%2f"]%str.

(** The position of the first marker of the list that occurs. *)
Fixpoint first_marker (markers : list str) (lower_rest : str) : option nat :=
  match markers with
  | [] => None
  | marker :: markers => match find marker lower_rest 0 with Some pos => Some pos | None => first_marker markers lower_rest end
  end.

(** src/src/handler/github_proxy.cpp:119-148 [embeddedGitHubUrlPrefix] *)
Definition embeddedGitHubUrlPrefix (config_url : str) (parsed : ParsedUrl) : str :=
  match path_start parsed with
  | None => []
  | Some path_start =>
      if length config_url <=? path_start then []
      else
        let content_start := path_start + 1 in
        let lower_rest := lowerAscii (drop content_start config_url) in
        match first_marker raw_markers lower_rest with
        | Some pos => take (content_start + pos) config_url
        | None =>
            match first_marker encoded_markers lower_rest with
            | Some pos => take (content_start + pos) config_url ++ "{encodedUrl}"
            | None => []
            end
        end
  end.

(** src/src/handler/github_proxy.cpp:152-159 [inferGitHubProxyPrefixFromConfigUrl] *)
Definition inferGitHubProxyPrefixFromConfigUrl (config_url : str) : str :=
  let parsed := parseUrl config_url in
  if negb (valid parsed) || isGitHubHost (host parsed) then []
  else if isJsdelivrHost (host parsed) && startsWith (path parsed) "/gh/" then scheme parsed ++ "://" ++ authority parsed ++ "/"
  else normalizeProxyPrefix (embeddedGitHubUrlPrefix config_url parsed).

(** src/src/handler/github_proxy.cpp:161-177 [applyGitHubProxyToUrl] *)
Definition applyGitHubProxyToUrl (url proxy_prefix : str) : option str :=
  let prefix := normalizeProxyPrefix proxy_prefix in
  if bool_decide (prefix = []) || negb (isGitHubUrl url) then Some url
  else if placeholder "{encodedUrl}" prefix then replaceAll prefix "{encodedUrl}" (urlEncode url)
  else if placeholder "{url}" prefix then replaceAll prefix "{url}" url
  else
    let prefix_url := parseUrl prefix in
    if valid prefix_url && isJsdelivrHost (host prefix_url) then
      path ← jsdelivrGhPath url;
      Some (match path with [] => url | _ => prefix ++ path end)
    else Some (prefix ++ url).

Definition typed_prefixes : list str := ["clash-domain:"; "clash-ipcidr:"; "clash-classic:"; "quanx:"; "surge:"]%str.

(** src/src/handler/github_proxy.cpp:179-193 [applyGitHubProxyToRulesetUrl] *)
Definition applyGitHubProxyToRulesetUrl (ruleset_url proxy_prefix : str) : option str :=
  if startsWith ruleset_url "[]" then Some ruleset_url
  else
    match list_find (fun prefix => startsWith ruleset_url prefix = true) typed_prefixes with
    | Some (_, prefix) => app prefix <$> applyGitHubProxyToUrl (drop (length prefix) ruleset_url) proxy_prefix
    | None => applyGitHubProxyToUrl ruleset_url proxy_prefix
    end.

(** src/src/handler/github_proxy.cpp:195-201 [applyGitHubProxyToRulesetConfigs] *)
Definition applyGitHubProxyToRulesetConfigs (rulesets : list RulesetConfig) (proxy_prefix : str) : option (list RulesetConfig) :=
  if bool_decide (proxy_prefix = []) then Some rulesets
  else mapM (fun ruleset => url ← applyGitHubProxyToRulesetUrl (Url ruleset) proxy_prefix;
                            Some (Ruleset.mkConfig (Group ruleset) url (Interval ruleset) (Options ruleset))) rulesets.

(** src/src/handler/github_proxy.cpp:203-209 [applyGitHubProxyToSources] *)
Definition applyGitHubProxyToSources (sources : list str) (proxy_prefix : str) : option (list str) :=
  if bool_decide (proxy_prefix = []) then Some sources
  else mapM (fun source => applyGitHubProxyToUrl source proxy_prefix) sources.

(** ** Lemmas: URLs *)

(** A prefix that is the URL of a proxy: scheme, host and the beginning of a
    path that ends with a slash. *)
Record ProxyBase := mkBase { b_scheme : str; b_authority : str; b_mid : str }.
Definition base_text (b : ProxyBase) : str := b_scheme b ++ "://" ++ b_authority b ++ "/" ++ b_mid b.

Definition base_ok (b : ProxyBase) : Prop :=
  http_scheme (b_scheme b) /\ b_authority b <> [] /\ (forall c, c ∈ b_authority b -> authority_stop c = false) /\
  host_text (b_authority b) <> [] /\ isGitHubHost (host_text (b_authority b)) = false /\
  (b_mid b = [] \/ exists m, b_mid b = m ++ "/").

Lemma parseUrl_text s a t :
  http_scheme s -> a <> [] -> (forall c, c ∈ a -> authority_stop c = false) ->
  parseUrl (s ++ "://" ++ a ++ "/" ++ t) =
  mkParsed (lowerAscii s) a (host_text a) ("/" ++ t) (Some (length (s ++ "://" ++ a))) (negb (bool_decide (host_text a = []))).
Proof.
  intros Hs Ha Hstop. unfold parseUrl. rewrite find_scheme by (by apply http_scheme_no_colon). rewrite take_app_length.
  change (lowerAscii s) with (toLower s).
  replace (negb (bool_decide (toLower s = "http"%str)) && negb (bool_decide (toLower s = "https"%str))) with false
    by (by destruct Hs as [-> | ->]).
  cbv zeta. set (p := s ++ "://"). assert (Hp : length p = length s + 3) by (unfold p; by rewrite length_app). rewrite <- Hp.
  replace (s ++ "://" ++ a ++ "/" ++ t) with (p ++ a ++ "/" ++ t) by (unfold p; by rewrite <- app_assoc).
  replace (find_if authority_stop (p ++ a ++ "/" ++ t) (length p)) with (Some (length p + length a)).
  2: { unfold find_if. rewrite drop_app_length. simpl app. by rewrite index_if_app. }
  cbn [from_option]; unfold id. replace (substr _ (length p) _) with a.
  2: { unfold substr. rewrite drop_app_length. replace (length p + length a - length p) with (length a) by lia. by rewrite take_app_length. }
  rewrite bool_decide_false by done. f_equal.
  - by rewrite <- drop_drop, drop_app_length, drop_app_length.
  - f_equal. replace (s ++ "://" ++ a) with (p ++ a) by (unfold p; by rewrite <- app_assoc). by rewrite length_app.
Qed.

Lemma base_parse b t : base_ok b ->
  parseUrl (base_text b ++ t) =
  mkParsed (lowerAscii (b_scheme b)) (b_authority b) (host_text (b_authority b)) ("/" ++ b_mid b ++ t)
    (Some (length (b_scheme b ++ "://" ++ b_authority b))) true.
Proof.
  intros (Hs & Ha & Hstop & Hhost & _ & _). unfold base_text. rewrite <- !app_assoc. rewrite parseUrl_text by done.
  by rewrite bool_decide_false.
Qed.

Lemma ends_with_snoc c s : ends_with [c] (s ++ [c]) = true.
Proof. unfold ends_with. rewrite rev_app_distr. simpl. by rewrite bool_decide_true. Qed.


Lemma base_shape b : base_ok b -> exists c m, base_text b = c :: m ++ "/" /\ is_ws c = false.
Proof.
  intros (Hs & _ & _ & _ & _ & Hm). destruct (b_scheme b) as [|c s] eqn:E; [by destruct Hs|].
  assert (Hc : is_ws c = false).
  { assert (Halnum : Forall (fun c => isalnum c = true) (c :: s)).
    { apply (lower_scheme_alnum _ ["http"; "https"]%str); [by vm_compute|]. destruct Hs as [-> | ->]; set_solver. }
    apply Forall_cons in Halnum as [Hc _].
    assert (H : implb (isalnum c) (negb (is_ws c)) = true) by (clear; revert c; apply all_bytes_spec; by vm_compute).
    rewrite Hc in H. by apply negb_true_iff in H. }
  unfold base_text. rewrite E. exists c. destruct Hm as [->|[m ->]].
  - exists (s ++ "://" ++ b_authority b). split; [|done]. by rewrite app_nil_r, <- !app_assoc.
  - exists (s ++ "://" ++ b_authority b ++ "/" ++ m). split; [|done]. by rewrite <- !app_assoc.
Qed.

Lemma no_placeholder b : "{"%char ∉ base_text b -> forall p, placeholder ("{"%char :: p) (base_text b) = false.
Proof.
  intros Hb p. apply bool_decide_eq_false. intros [i (_ & Hi & _)%find_Some]. apply starts_with_spec in Hi as [t Ht].
  apply Hb. apply (subseteq_drop i). rewrite Ht. by left.
Qed.

Lemma base_normal b : base_ok b -> "{"%char ∉ base_text b -> normalizeProxyPrefix (base_text b) = base_text b.
Proof.
  intros Hok Hbrace. destruct (base_shape b Hok) as (c & m & E & Hc). unfold normalizeProxyPrefix.
  rewrite (trimWhitespace_id _ c "/"%char m) by done. rewrite bool_decide_false by (by rewrite E).
  rewrite (no_placeholder b Hbrace "url}"%str), (no_placeholder b Hbrace "encodedUrl}"%str). cbn [orb]. unfold endsWith. rewrite E.
  change (c :: m ++ "/") with ((c :: m) ++ "/"). by rewrite ends_with_snoc.
Qed.

Lemma base_not_github b t : base_ok b -> isGitHubUrl (base_text b ++ t) = false.
Proof. intros Hok. unfold isGitHubUrl. rewrite base_parse by done. simpl. apply Hok. Qed.

Lemma apply_other url p : isGitHubUrl url = false -> applyGitHubProxyToUrl url p = Some url.
Proof. intros H. unfold applyGitHubProxyToUrl. cbv zeta. rewrite H. by rewrite orb_true_r. Qed.

Lemma replaceAll_total s from to : from <> [] -> is_Some (replaceAll s from to).
Proof.
  intros Hf. unfold replaceAll, replaceAllDistinct.
  assert (H : forall fuel s pos, length s - pos < fuel -> is_Some (replaceAll_loop fuel s from to pos)); [|apply H; lia].
  clear s. induction fuel as [|fuel IH]; intros s pos Hl; [lia|]. cbn [replaceAll_loop].
  destruct (find from s pos) as [i|] eqn:E; [|done]. apply find_decompose in E as (_ & Hi & Hle).
  assert (length from <> 0) by (by destruct from).
  apply IH. unfold replace. rewrite !length_app, length_take, length_drop. lia.
Qed.

Lemma jsdelivrGhPath_total url : is_Some (jsdelivrGhPath url).
Proof.
  unfold jsdelivrGhPath. cbv zeta. destruct (negb _); [done|].
  destruct (split_join (path (parseUrl url)) "/"%str) as (fs & -> & _); [done|]. cbn [mbind option_bind].
  repeat (case_match; try done).
Qed.

(** ** Lemmas: markers *)

Lemma first_marker_unique markers t n m :
  (forall m k, m ∈ markers -> starts_with m (drop k t) = true -> k <= length t -> k = n) ->
  m ∈ markers -> starts_with m (drop n t) = true -> n <= length t -> first_marker markers t = Some n.
Proof.
  intros Hu Hm Hs Hn. induction markers as [|m' markers IH]; [by apply elem_of_nil in Hm|]. cbn [first_marker].
  destruct (find m' t 0) as [i|] eqn:E.
  - apply find_Some in E as (Hi & Hst & _). f_equal. apply (Hu m'); [by left|done|lia].
  - apply elem_of_cons in Hm as [->|Hm].
    + rewrite (find_None _ _ _ E n) in Hs by lia. done.
    + apply IH; [|done]. intros m'' k Hin. apply Hu. by right.
Qed.

Lemma first_marker_none markers t : (forall m k, m ∈ markers -> starts_with m (drop k t) = true -> k <= length t -> False) ->
  first_marker markers t = None.
Proof.
  intros Hu. induction markers as [|m markers IH]; [done|]. cbn [first_marker].
  destruct (find m t 0) as [i|] eqn:E.
  - exfalso. apply find_Some in E as (Hi & Hst & _). apply (Hu m i); [by left|done|lia].
  - apply IH. intros m' k Hin. apply Hu. by right.
Qed.

Lemma lower_no c s : c ∉ s -> isalnum c = false -> c ∉ lowerAscii s.
Proof.
  intros Hs Hc (d & -> & Hd)%list_elem_of_fmap. apply Hs. replace (tolower d) with d; [done|].
  assert (H : implb (negb (isalnum (tolower d))) (bool_decide (d = tolower d)) = true).
  { clear. revert d. apply all_bytes_spec. by vm_compute. }
  rewrite Hc in H. simpl in H. by apply bool_decide_eq_true in H.
Qed.

(** A raw marker is [https://], a host and a slash. *)
Lemma raw_marker_shape m : m ∈ raw_markers -> exists h, m = "https" ++ ":" ++ h /\ ":"%char ∉ h /\ lowerAscii m = m.
Proof.
  intros Hm. unfold raw_markers in Hm.
  repeat (apply elem_of_cons in Hm as [->|Hm];
    [eexists; split; [reflexivity|split; [by apply (bool_decide_unpack _); vm_compute|by vm_compute]]|]).
  by apply elem_of_nil in Hm.
Qed.

Lemma starts_with_split p s k : starts_with p (drop k s) = true -> k <= length s -> exists t, s = take k s ++ p ++ t.
Proof. intros [t Ht]%starts_with_spec Hk. exists t. by rewrite <- Ht, take_drop. Qed.

Lemma raw_marker_found mid m rest : m ∈ raw_markers -> ":"%char ∉ mid -> ":"%char ∉ rest ->
  first_marker raw_markers (lowerAscii (mid ++ m ++ rest)) = Some (length mid).
Proof.
  intros Hm Hmid Hrest. destruct (raw_marker_shape m Hm) as (h & Em & Hh & Elow).
  assert (Et : lowerAscii (mid ++ m ++ rest) = lowerAscii mid ++ m ++ lowerAscii rest).
  { unfold lowerAscii in *. by rewrite !fmap_app, Elow. }
  assert (Hl : length (lowerAscii mid) = length mid) by apply length_fmap.
  rewrite Et. apply (first_marker_unique _ _ _ m); [|done| |].
  - intros m' k Hm' Hs Hk. destruct (starts_with_split _ _ _ Hs Hk) as [t Ht].
    destruct (raw_marker_shape m' Hm') as (h' & -> & _). rewrite Em in Ht at 1.
    assert (E : lowerAscii mid ++ "https" = take k (lowerAscii mid ++ m ++ lowerAscii rest) ++ "https").
    { apply (unique_split ":"%char _ (h ++ lowerAscii rest) _ (h' ++ t)).
      - rewrite not_elem_of_app. split; [by apply lower_no|by apply (bool_decide_unpack _); vm_compute].
      - rewrite not_elem_of_app. split; [done|by apply lower_no].
      - rewrite <- !app_assoc. rewrite <- !app_assoc in Ht. exact Ht. }
    apply (f_equal length) in E. rewrite !length_app, length_take in E. simpl in E. lia.
  - rewrite <- Hl, drop_app_length. apply starts_with_app.
  - rewrite length_app. lia.
Qed.

Lemma encoded_marker_shape m : m ∈ encoded_markers -> exists h, m = "https" ++ "%3a" ++ h.
Proof.
  intros Hm. unfold encoded_markers in Hm.
  repeat (apply elem_of_cons in Hm as [->|Hm]; [eexists; reflexivity|]). by apply elem_of_nil in Hm.
Qed.

(** In an encoded text [%3a] stands for a colon. *)
Definition escape_ok (c : ascii) : bool :=
  let x := tolower (toHex (Z.shiftr (code c) 4)) in let y := tolower (toHex (code c mod 16)) in
  negb (is_char "%" x) && negb (is_char "%" y) && (negb (is_char "3" x && is_char "a" y) || is_char ":" c)
  && implb (unreserved c) (negb (is_char "%" (tolower c))).

Lemma escape_facts c : escape_ok c = true.
Proof. revert c. apply all_bytes_spec. by vm_compute. Qed.

Lemma encoded_colon s k t : starts_with "%3a" (drop k (lowerAscii (urlEncode s) ++ t)) = true ->
  k < length (urlEncode s) -> exists s1 s2, s = s1 ++ ":"%char :: s2 /\ k = length (urlEncode s1).
Proof.
  revert k. induction s as [|c s IH]; intros k Hs Hk; [simpl in Hk; lia|]. pose proof (escape_facts c) as Hc.
  unfold escape_ok in Hc. cbv zeta in Hc. apply andb_true_iff in Hc as [[[H1 H2]%andb_true_iff H3]%andb_true_iff H4].
  apply negb_true_iff in H1, H2. cbn [urlEncode] in *. destruct (unreserved c) eqn:Eu.
  - simpl in H4. apply negb_true_iff in H4. destruct k as [|k].
    + exfalso. simpl in Hs. unfold is_char in H4. apply bool_decide_eq_false in H4.
      rewrite bool_decide_false in Hs; [done|congruence].
    + destruct (IH k) as (s1 & s2 & -> & ->); [done|simpl in Hk; lia|]. exists (c :: s1), s2. split; [done|].
      cbn [urlEncode]. by rewrite Eu.
  - unfold is_char in *. apply bool_decide_eq_false in H1, H2.
    destruct k as [|[|[|k]]]; cbn [lowerAscii fmap list_fmap app drop starts_with] in Hs.
    + exists [], s. split; [|done]. apply andb_true_iff in Hs as [_ [Hx [Hy _]%andb_true_iff]%andb_true_iff].
      apply bool_decide_eq_true in Hx, Hy. rewrite <- Hx, <- Hy in H3. simpl in H3. apply bool_decide_eq_true in H3. by subst c.
    + exfalso. rewrite bool_decide_false in Hs; [done|congruence].
    + exfalso. rewrite bool_decide_false in Hs; [done|congruence].
    + destruct (IH k) as (s1 & s2 & -> & ->); [done|simpl in Hk; lia|]. exists (c :: s1), s2. split; [done|].
      cbn [urlEncode]. by rewrite Eu.
Qed.

Lemma encoded_no_colon s : ":"%char ∉ urlEncode s.
Proof. by apply (delimited_not_in urlEncode (fun c => unreserved c || bool_decide (c = "%"%char))); vm_compute. Qed.

Lemma raw_marker_absent t : ":"%char ∉ t -> first_marker raw_markers (lowerAscii t) = None.
Proof.
  intros Ht. apply first_marker_none. intros m k Hm Hs Hk. destruct (starts_with_split _ _ _ Hs Hk) as [u Hu].
  destruct (raw_marker_shape m Hm) as (h & -> & _). apply (lower_no ":"%char t Ht); [done|].
  rewrite Hu, !elem_of_app. right. left. right. left. by left.
Qed.

Lemma raw_marker_encoded m : m ∈ raw_markers -> lowerAscii (urlEncode m) ∈ encoded_markers.
Proof.
  intros Hm. apply (bool_decide_unpack _). unfold raw_markers in Hm.
  repeat (apply elem_of_cons in Hm as [->|Hm]; [by vm_compute|]). by apply elem_of_nil in Hm.
Qed.

Lemma encoded_marker_found mid m rest : m ∈ raw_markers -> "%"%char ∉ mid -> ":"%char ∉ rest ->
  first_marker encoded_markers (lowerAscii (mid ++ urlEncode (m ++ rest))) = Some (length mid).
Proof.
  intros Hm Hmid Hrest. destruct (raw_marker_shape m Hm) as (h & Em & Hh & _).
  assert (Hl : length (lowerAscii mid) = length mid) by apply length_fmap.
  replace (lowerAscii (mid ++ urlEncode (m ++ rest))) with (lowerAscii mid ++ lowerAscii (urlEncode (m ++ rest)))
    by (unfold lowerAscii; by rewrite fmap_app).
  apply (first_marker_unique _ _ _ (lowerAscii (urlEncode m))); [|by apply raw_marker_encoded| |rewrite length_app; lia].
  - intros m' k Hm' Hs Hk. destruct (encoded_marker_shape m' Hm') as (h' & ->).
    assert (Hs5 : starts_with "%3a" (drop (k + 5) (lowerAscii mid ++ lowerAscii (urlEncode (m ++ rest)))) = true).
    { rewrite <- drop_drop. apply starts_with_spec in Hs as [u ->]. rewrite <- app_assoc.
      change 5 with (length "https"%str). rewrite drop_app_length, <- app_assoc. apply starts_with_app. }
    destruct (decide (k + 5 < length mid)) as [Hlt|Hge].
    + exfalso. rewrite drop_app_le in Hs5 by lia. destruct (drop (k + 5) (lowerAscii mid)) as [|c r] eqn:E.
      { apply (f_equal length) in E. rewrite length_drop in E. simpl in E. lia. }
      simpl in Hs5. apply andb_true_iff in Hs5 as [Hc _]. apply bool_decide_eq_true in Hc. subst c.
      apply (lower_no "%"%char mid Hmid); [done|]. apply (subseteq_drop (k + 5)). rewrite E. by left.
    + rewrite drop_app_ge, Hl in Hs5 by lia.
      destruct (encoded_colon (m ++ rest) (k + 5 - length mid) []) as (s1 & s2 & E & Hk').
      * by rewrite app_nil_r.
      * apply starts_with_length in Hs5. rewrite length_drop in Hs5. unfold lowerAscii in Hs5. rewrite length_fmap in Hs5. simpl in Hs5. lia.
      * assert ("https"%str = s1) as <-.
        { apply (unique_split ":"%char _ (h ++ rest) _ s2); [by apply (bool_decide_unpack _); vm_compute|by rewrite not_elem_of_app|].
          rewrite <- E, Em, <- !app_assoc. done. }
        simpl in Hk'. lia.
  - rewrite <- Hl, drop_app_length, urlEncode_app. unfold lowerAscii. rewrite fmap_app. apply starts_with_app.
Qed.

(** ** Lemmas: prefixes and templates *)

Definition github_hosts : list str := ["raw.githubusercontent.com"; "github.com"; "gist.githubusercontent.com"]%str.

Lemma raw_marker_host m : m ∈ raw_markers -> exists a, a ∈ github_hosts /\ m = "https" ++ "://" ++ a ++ "/".
Proof.
  intros Hm. unfold raw_markers, github_hosts in *. rewrite !elem_of_cons in Hm.
  destruct Hm as [->|[->|[->|Hm%elem_of_nil]]]; [| | |done];
    [exists "raw.githubusercontent.com"%str|exists "github.com"%str|exists "gist.githubusercontent.com"%str];
    (split; [by apply (bool_decide_unpack _); vm_compute|reflexivity]).
Qed.

Lemma github_url m rest : m ∈ raw_markers -> isGitHubUrl (m ++ rest) = true.
Proof.
  intros (a & Ha & ->)%raw_marker_host. unfold isGitHubUrl. rewrite <- !app_assoc.
  assert (H : forallb (fun a => negb (bool_decide (a = [])) && forallb (fun c => negb (authority_stop c)) a
    && negb (bool_decide (host_text a = [])) && isGitHubHost (host_text a)) github_hosts = true) by (by vm_compute).
  rewrite forallb_forall in H. specialize (H a (proj1 (list_elem_of_In _ _) Ha)).
  apply andb_true_iff in H as [[[H1 H2]%andb_true_iff H3]%andb_true_iff H4].
  rewrite parseUrl_text; [|by right|by bools|].
  - cbv zeta. cbn [valid host]. by rewrite H3, H4.
  - intros c Hc. rewrite forallb_forall in H2. specialize (H2 c (proj1 (list_elem_of_In _ _) Hc)). by apply negb_true_iff in H2.
Qed.

Lemma base_path_start b t : base_ok b ->
  embeddedGitHubUrlPrefix (base_text b ++ t) (parseUrl (base_text b ++ t)) =
  match first_marker raw_markers (lowerAscii (b_mid b ++ t)) with
  | Some pos => take (length (base_text b) - length (b_mid b) + pos) (base_text b ++ t)
  | None =>
      match first_marker encoded_markers (lowerAscii (b_mid b ++ t)) with
      | Some pos => take (length (base_text b) - length (b_mid b) + pos) (base_text b ++ t) ++ "{encodedUrl}"
      | None => []
      end
  end.
Proof.
  intros Hok. rewrite base_parse by done. unfold embeddedGitHubUrlPrefix. cbn [path_start].
  assert (E : base_text b ++ t = (b_scheme b ++ "://" ++ b_authority b) ++ "/" ++ (b_mid b ++ t)).
  { unfold base_text. by rewrite <- !app_assoc. }
  set (p := b_scheme b ++ "://" ++ b_authority b) in *.
  assert (Hlen : length (base_text b) - length (b_mid b) = length p + 1).
  { unfold base_text, p. rewrite !length_app. simpl. lia. }
  rewrite Hlen. destruct (Nat.leb_spec (length (base_text b ++ t)) (length p)) as [Hle|_].
  { rewrite E, !length_app in Hle. simpl in Hle. lia. }
  replace (drop (length p + 1) (base_text b ++ t)) with (b_mid b ++ t); [done|].
  rewrite E, <- drop_drop, drop_app_length. done.
Qed.

Lemma base_mid_length b : length (b_mid b) <= length (base_text b).
Proof. unfold base_text. rewrite !length_app. lia. Qed.

Lemma infer_base b t : base_ok b -> isJsdelivrHost (host_text (b_authority b)) = false ->
  inferGitHubProxyPrefixFromConfigUrl (base_text b ++ t) =
  normalizeProxyPrefix (embeddedGitHubUrlPrefix (base_text b ++ t) (parseUrl (base_text b ++ t))).
Proof.
  intros Hok Hj. unfold inferGitHubProxyPrefixFromConfigUrl. pose proof (base_parse b t Hok) as Hp.
  set (u := parseUrl (base_text b ++ t)) in *.
  assert (Hv : valid u = true) by (by rewrite Hp). assert (Hh : host u = host_text (b_authority b)) by (by rewrite Hp).
  destruct Hok as (_ & _ & _ & _ & Hg & _). cbv zeta. by rewrite Hv, Hh, Hg, Hj.
Qed.

Definition template (b : ProxyBase) : str := base_text b ++ "{encodedUrl}".

Lemma template_placeholder b : "{"%char ∉ base_text b -> find "{encodedUrl}" (template b) 0 = Some (length (base_text b)).
Proof.
  intros Hb. unfold template, find. cbn [Nat.leb]. rewrite drop_0.
  pose proof (find_aux_first "{"%char "encodedUrl}"%str (base_text b) [] 0 Hb) as H. rewrite app_nil_r in H. exact H.
Qed.

Lemma template_normal b : base_ok b -> "{"%char ∉ base_text b -> normalizeProxyPrefix (template b) = template b.
Proof.
  intros Hok Hb. destruct (base_shape b Hok) as (c & m & E & Hc). unfold normalizeProxyPrefix.
  rewrite (trimWhitespace_id (template b) c "}"%char (m ++ "/" ++ "{encodedUrl")).
  - unfold placeholder at 2. rewrite template_placeholder by done. rewrite (bool_decide_true (is_Some _)) by done.
    by rewrite orb_true_r.
  - unfold template. rewrite E. cbn [app]. by rewrite <- !app_assoc.
  - done.
  - done.
Qed.

Lemma template_replaced b x : "{"%char ∉ base_text b -> replaceAll (template b) "{encodedUrl}" x = Some (base_text b ++ x).
Proof.
  intros Hb. unfold replaceAll, replaceAllDistinct. cbn [replaceAll_loop]. rewrite template_placeholder by done.
  replace (replace (template b) (length (base_text b)) (length "{encodedUrl}"%str) x) with (base_text b ++ x).
  2: { unfold replace, template. rewrite take_app_length, <- drop_drop, drop_app_length. simpl. by rewrite app_nil_r. }
  destruct (length (template b)) as [|n] eqn:El.
  { unfold template in El. rewrite length_app in El. simpl in El. lia. }
  cbn [replaceAll_loop]. replace (find "{encodedUrl}" (base_text b ++ x) (length (base_text b) + length x)) with (@None nat); [done|].
  unfold find. rewrite length_app, Nat.leb_refl, drop_ge by (rewrite length_app; lia). done.
Qed.

(** The result is the URL itself or begins with the proxy's base. *)
Lemma proxied_shape url prefix b r : base_ok b -> "{"%char ∉ base_text b ->
  normalizeProxyPrefix prefix = base_text b \/ normalizeProxyPrefix prefix = template b ->
  applyGitHubProxyToUrl url prefix = Some r -> r = url \/ exists t, r = base_text b ++ t.
Proof.
  intros Hok Hb Hn. unfold applyGitHubProxyToUrl. cbv zeta. destruct (_ || _); [intros [= <-]; by left|].
  pose proof (no_placeholder b Hb) as Hno.
  destruct Hn as [-> | ->].
  - rewrite (Hno "encodedUrl}"%str), (Hno "url}"%str). destruct (_ && _); [|intros [= <-]; right; by eexists].
    destruct (jsdelivrGhPath url) as [[|c p]|]; cbn [mbind option_bind]; [|..|done]; intros [= <-]; [by left|right; by eexists].
  - unfold placeholder at 1. rewrite template_placeholder by done. rewrite bool_decide_true by done.
    rewrite template_replaced by done. intros [= <-]. right. by eexists.
Qed.

(** ** Theorems *)

(** What is inferred from a configuration's URL is the proxy that produced it.
    For a proxy prefix - an http or https URL with a host that is neither
    GitHub's nor jsDelivr's and a path that ends with a slash - the proxied URL
    of a GitHub file is prefix and file URL, and from it the prefix is
    inferred; for the template that takes the encoded URL likewise, and the
    inferred template reproduces the URL. *)
Theorem inferred_prefix_roundtrip b m rest :
  base_ok b -> isJsdelivrHost (host_text (b_authority b)) = false ->
  "{"%char ∉ base_text b -> ":"%char ∉ b_mid b -> "%"%char ∉ b_mid b ->
  m ∈ raw_markers -> ":"%char ∉ rest ->
  (applyGitHubProxyToUrl (m ++ rest) (base_text b) = Some (base_text b ++ m ++ rest) /\
   inferGitHubProxyPrefixFromConfigUrl (base_text b ++ m ++ rest) = base_text b) /\
  (applyGitHubProxyToUrl (m ++ rest) (template b) = Some (base_text b ++ urlEncode (m ++ rest)) /\
   inferGitHubProxyPrefixFromConfigUrl (base_text b ++ urlEncode (m ++ rest)) = template b).
Proof.
  intros Hok Hj Hb Hc Hp Hm Hrest. pose proof (github_url m rest Hm) as Hg. pose proof (base_mid_length b) as Hlen.
  destruct (base_shape b Hok) as (c & t & Eb & _).
  assert (Htake : forall x, take (length (base_text b) - length (b_mid b) + length (b_mid b)) (base_text b ++ x) = base_text b).
  { intros x. replace (length (base_text b) - length (b_mid b) + length (b_mid b)) with (length (base_text b)) by lia. apply take_app_length. }
  pose proof (no_placeholder b Hb) as Hno.
  split; split.
  - unfold applyGitHubProxyToUrl. rewrite base_normal by done. cbv zeta. rewrite bool_decide_false by (by rewrite Eb).
    rewrite Hg, (Hno "encodedUrl}"%str), (Hno "url}"%str). cbn [orb negb].
    pose proof (base_parse b [] Hok) as Hparse. rewrite app_nil_r in Hparse. rewrite Hparse. cbn [valid host andb]. by rewrite Hj.
  - rewrite infer_base, base_path_start, raw_marker_found by done. rewrite Htake. by apply base_normal.
  - unfold applyGitHubProxyToUrl. rewrite template_normal by done. cbv zeta.
    rewrite bool_decide_false by (unfold template; by rewrite Eb). rewrite Hg. cbn [orb negb].
    unfold placeholder at 1. rewrite template_placeholder by done. rewrite bool_decide_true by done. by apply template_replaced.
  - rewrite infer_base, base_path_start by done.
    rewrite raw_marker_absent by (rewrite not_elem_of_app; split; [done|apply encoded_no_colon]).
    rewrite encoded_marker_found by done. rewrite Htake. by apply template_normal.
Qed.

Definition example_base : ProxyBase := mkBase "https" "proxy.example" "gh/".

Lemma inferred_prefix_roundtrip_witness :
  inferGitHubProxyPrefixFromConfigUrl ("https://proxy.example/gh/" ++ "https://github.com/" ++ "a/b/raw/main/c.ini") =
  "https://proxy.example/gh/"%str.
Proof.
  refine (proj2 (proj1 (inferred_prefix_roundtrip example_base "https://github.com/" "a/b/raw/main/c.ini" _ _ _ _ _ _ _))).
  - split; [by right|]. split; [done|]. split.
    + intros c Hc. unfold authority_stop. apply bool_decide_eq_false. intros Hs.
      repeat (apply elem_of_cons in Hs as [->|Hs]; [revert Hc; computed|]).
      by apply elem_of_nil in Hs.
    + split; [by vm_compute|]. split; [by vm_compute|]. right. by exists "gh"%str.
  - by vm_compute.
  - apply (bool_decide_unpack _). vm_compute. exact I.
  - apply (bool_decide_unpack _). vm_compute. exact I.
  - apply (bool_decide_unpack _). vm_compute. exact I.
  - apply (bool_decide_unpack _). vm_compute. exact I.
  - apply (bool_decide_unpack _). vm_compute. exact I.
Defined.

(** Rewriting always answers, leaves what is not a GitHub URL alone, and with
    the prefix or template of a proxy as above does nothing the second time:
    sources that were proxied already are not proxied again. *)
Theorem proxy_applied_once url prefix :
  (exists r, applyGitHubProxyToUrl url prefix = Some r /\ (isGitHubUrl url = false -> r = url)) /\
  (forall b r, base_ok b -> "{"%char ∉ base_text b ->
   normalizeProxyPrefix prefix = base_text b \/ normalizeProxyPrefix prefix = template b ->
   applyGitHubProxyToUrl url prefix = Some r -> applyGitHubProxyToUrl r prefix = Some r).
Proof.
  split.
  - destruct (isGitHubUrl url) eqn:Hg; [|exists url; split; [by apply apply_other|done]].
    assert (H : is_Some (applyGitHubProxyToUrl url prefix)); [|destruct H as [r Hr]; by exists r].
    unfold applyGitHubProxyToUrl. cbv zeta. destruct (_ || _); [done|].
    destruct (placeholder _ _); [by apply replaceAll_total|]. destruct (placeholder _ _); [by apply replaceAll_total|].
    destruct (_ && _); [|done]. by destruct (jsdelivrGhPath_total url) as [p ->].
  - intros b r Hok Hb Hn Hr. destruct (isGitHubUrl url) eqn:Hg; [|by rewrite apply_other in Hr by done; injection Hr as <-; apply apply_other].
    destruct (proxied_shape url prefix b r Hok Hb Hn Hr) as [->|[t ->]]; [done|]. apply apply_other. by apply base_not_github.
Qed.

Example jsdelivr_spellings :
  applyGitHubProxyToUrl "https://raw.githubusercontent.com/o/r/main/a/b.list" "https://cdn.jsdelivr.net" =
    Some "https://cdn.jsdelivr.net/gh/o/r@main/a/b.list"%str /\
  applyGitHubProxyToUrl "https://github.com/o/r/blob/main/a/b.list" "https://cdn.jsdelivr.net" =
    Some "https://cdn.jsdelivr.net/gh/o/r@main/a/b.list"%str.
Proof. split; by vm_compute. Qed.
