(* ===== verification/FetchGuard.v ===== *)
(** * handler/webget.cpp: what may be fetched, and through which proxy

    The guard that keeps requests of the public away from local and private
    hosts, and the proxy a transfer takes.  Parameters are libcurl's URL API,
    where the build has it, the functions of the socket library, the regular
    expression engine and the environment. *)

From S2P Require Import Prelude Str StringUtil ClientIp Regexp RuleConvert ProxyPolicy.
Open Scope str_scope.
Local Open Scope Z_scope.

(** src/src/handler/fetch_context.h:4-7 *)
Inductive FetchContext := TrustedConfig | PublicRequest.
#[export] Instance FetchContext_eq_dec : EqDecision FetchContext. Proof. solve_decision. Defined.

(** ** URLs *)

(** src/src/handler/webget.cpp:331-335 [HttpUrlTarget] *)
Record HttpUrlTarget := mkTarget { tvalid : bool; thost : str }.
Definition no_target : HttpUrlTarget := mkTarget false [].

(** src/src/handler/webget.cpp:341-349 [has_control_character] *)
Definition has_control_character (value : str) : bool := existsb iscntrl value.

(** src/src/handler/webget.cpp:351-359 [normalize_http_host] *)
Definition normalize_http_host (host : str) : str :=
  let host := toLower host in
  if (1 <? length host)%nat && bool_decide (last host = Some "."%char) &&
     negb (bool_decide (host !! (length host - 2)%nat = Some "."%char))
  then removelast host else host.

Fixpoint port_digits (value : Z) (port : str) : option Z :=
  match port with
  | [] => Some value
  | ch :: port =>
      if negb (isdigit ch) then None
      else
        let value := u32 (u32 (value * 10) + (code ch - 48)) in
        if 65535 <? value then None else port_digits value port
  end.

(** src/src/handler/webget.cpp:361-375 [valid_http_port] *)
Definition valid_http_port (port : str) : bool :=
  match port with
  | [] => false
  | _ => match port_digits 0 port with Some value => negb (value =? 0) | None => false end
  end.

Definition invalid_host_byte (ch : ascii) : bool := iscntrl ch || isspace ch || one_of "/?#@[]%" ch.

(** src/src/handler/webget.cpp:377-386 [has_invalid_http_host_character] *)
Definition has_invalid_http_host_character (host : str) : bool := existsb invalid_host_byte host.

(** What [curl_url_get] answers for the port, and what it answers for a URL
    [curl_url_set] accepts. *)
Inductive CurlPort := PortText (port : str) | NoPort | PortError.
Record CurlUrl := mkCurlUrl { url_scheme : option str; url_host : option str; url_port : CurlPort }.

(** src/src/handler/webget.cpp:425-426 [parse_http_url_target, brackets of an IPv6 host] *)
Definition without_brackets (host : str) : str :=
  if (2 <=? length host)%nat && bool_decide (head host = Some "["%char) && bool_decide (last host = Some "]"%char)
  then substr host 1 (length host - 2) else host.

(** src/src/handler/webget.cpp:408-450 [parse_http_url_target, libcurl's URL API]
    The parser is libcurl's: [None] when it has no handle or refuses the URL. *)
Definition target_of_api (curl_url : str -> option CurlUrl) (url : str) : HttpUrlTarget :=
  match curl_url url with
  | Some (mkCurlUrl (Some scheme) (Some host) port) =>
      let scheme := toLower scheme in
      let host := without_brackets host in
      if (bool_decide (scheme = "http") || bool_decide (scheme = "https"))
         && negb (bool_decide (host = []) || has_invalid_http_host_character host)
         && match port with PortText port => valid_http_port port | NoPort => true | PortError => false end
      then let host := normalize_http_host host in mkTarget (negb (bool_decide (host = []))) host
      else no_target
  | _ => no_target
  end.

(** src/src/handler/webget.cpp:473-500 [parse_http_url_target, host and port] *)
Definition host_and_port (authority : str) : option (str * str) :=
  if bool_decide (head authority = Some "["%char) then
    match find_char "]" authority 0 with
    | None | Some 1%nat => None
    | Some close =>
        let host := substr authority 1 (close - 1) in
        if (close + 1 <? length authority)%nat then
          if bool_decide (authority !! (close + 1)%nat = Some ":"%char)
          then Some (host, drop (close + 2) authority) else None
        else Some (host, [])
    end
  else
    match last_index_if (is_char ":") authority with
    | Some colon =>
        if negb (bool_decide (find_char ":" authority 0 = Some colon)) then None
        else Some (take colon authority, drop (colon + 1) authority)
    | None => Some (authority, [])
    end.

(** src/src/handler/webget.cpp:455-504 [parse_http_url_target, without the URL API] *)
Definition target_of_text (url : str) : HttpUrlTarget :=
  match find "://" url 0 with
  | None | Some O => no_target
  | Some scheme_end =>
      let scheme := toLower (take scheme_end url) in
      if negb (bool_decide (scheme = "http") || bool_decide (scheme = "https")) then no_target
      else
        let rest := drop (scheme_end + 3) url in
        let authority := match index_if (one_of "/?#") rest with Some e => take e rest | None => rest end in
        let authority := match last_index_if (is_char "@") authority with
                         | Some userinfo_end => drop (userinfo_end + 1) authority
                         | None => authority
                         end in
        match authority with
        | [] => no_target
        | _ =>
            match host_and_port authority with
            | None => no_target
            | Some (host, port) =>
                if bool_decide (host = []) || has_invalid_http_host_character host
                   || (negb (bool_decide (port = [])) && negb (valid_http_port port))
                   || bool_decide (last authority = Some ":"%char)
                then no_target
                else let host := normalize_http_host host in mkTarget (negb (bool_decide (host = []))) host
            end
        end
  end.

(** ** IPv4 addresses *)

(** src/src/handler/webget.cpp:977-986 [parse_ipv4_address, loop] *)
Fixpoint octets_value (value : Z) (octets : list str) : option Z :=
  match octets with
  | [] => Some value
  | octet :: octets =>
      let part := to_int octet (-1) in
      if (part <? 0) || (255 <? part) then None
      else octets_value (Z.lor (u32 (Z.shiftl value 8)) (u32 part)) octets
  end.

(** src/src/handler/webget.cpp:990-994 [ipv4_in_cidr] *)
Definition ipv4_in_cidr (address network : Z) (bits : Z) : bool :=
  let mask := if bits =? 0 then 0 else u32 (Z.shiftl 4294967295 (32 - bits)) in
  Z.land address mask =? network.

(** src/src/handler/webget.cpp:1002-1012 [is_blocked_ipv4, the blocks] *)
Definition blocked_value (ip : Z) : bool :=
  ipv4_in_cidr ip 0x00000000 8 || ipv4_in_cidr ip 0x0a000000 8 || ipv4_in_cidr ip 0x64400000 10
  || ipv4_in_cidr ip 0x7f000000 8 || ipv4_in_cidr ip 0xa9fe0000 16 || ipv4_in_cidr ip 0xac100000 12
  || ipv4_in_cidr ip 0xc0a80000 16 || ipv4_in_cidr ip 0xc6120000 15 || ipv4_in_cidr ip 0xe0000000 4
  || ipv4_in_cidr ip 0xf0000000 4 || (ip =? 0xffffffff).

(** src/src/handler/webget.cpp:511-517 *)
Inductive LoopbackKind := LoopNone | LoopHostname | LoopIpv4 | LoopIpv6.
#[export] Instance LoopbackKind_eq_dec : EqDecision LoopbackKind. Proof. solve_decision. Defined.

(** src/src/handler/webget.cpp:1045-1053 [is_blocked_hostname] *)
Definition is_blocked_hostname (host : str) : bool :=
  if bool_decide (host = "localhost") || endsWith host ".localhost" then true
  else endsWith host ".local" || endsWith host ".localdomain" || endsWith host ".home.arpa".

(** One result of [getaddrinfo]. *)
Inductive AddrInfo := Inet (o : list Z) | Inet6 (o : list Z) | OtherFamily.

(** ** Proxy routes and identities *)

(** src/src/handler/webget.cpp:557-563 *)
Inductive NoProxyDirective := NoProxyNone | InheritEnvironment | ForceProxy | InitialBypass.
#[export] Instance NoProxyDirective_eq_dec : EqDecision NoProxyDirective. Proof. solve_decision. Defined.

#[export] Instance ProxyMode_eq_dec : EqDecision ProxyMode. Proof. solve_decision. Defined.

(** src/src/handler/webget.cpp:565-572 [ResolvedProxyRoute] *)
Record ResolvedProxyRoute := mkRoute {
  proxy : ResolvedProxyPolicy; no_proxy : NoProxyDirective; bypass_host : str; bypass_rule : str;
  no_proxy_pattern : str; inherited_no_proxy : str
}.

(** src/src/handler/webget.cpp:574-594 [ResolvedProxyRoute::cacheIdentity] *)
Definition route_identity (r : ResolvedProxyRoute) : str :=
  "routing-v3" ++ newline ++ cacheIdentity (proxy r) ++ newline ++ "noproxy=" ++
  match no_proxy r with
  | NoProxyNone => "none"
  | InheritEnvironment => "inherit:" ++ inherited_no_proxy r
  | ForceProxy => "force"
  | InitialBypass => "bypass:" ++ no_proxy_pattern r ++ ":" ++ bypass_rule r
  end.

(** The options of a transfer that concern the proxy. *)
Inductive CurlOption := CURLOPT_PROXY (value : str) | CURLOPT_NOPROXY (value : str).
#[export] Instance CurlOption_eq_dec : EqDecision CurlOption. Proof. solve_decision. Defined.

(** src/src/handler/webget.cpp:1383-1446 [apply_curl_proxy_policy]
    The options it sets and the URL to be fetched; nothing for
    [CURLE_URL_MALFORMAT].  The log entries are left out. *)
Definition apply_curl_proxy_policy (route : ResolvedProxyRoute) (url : str) : option (list CurlOption * str) :=
  let effective := proxy route in
  if negb (rvalid effective) then None
  else
    Some
      match rmode effective with
      | Direct => ([CURLOPT_PROXY []], url)
      | System =>
          (CURLOPT_PROXY (if bool_decide (rendpoint effective = []) then [] else c_str (rendpoint effective)) ::
           match no_proxy route with
           | ForceProxy => [CURLOPT_NOPROXY []]
           | InheritEnvironment => [CURLOPT_NOPROXY (c_str (inherited_no_proxy route))]
           | _ => []
           end, url)
      | Explicit =>
          ([CURLOPT_PROXY (c_str (rendpoint effective));
            CURLOPT_NOPROXY match no_proxy route with
                            | InitialBypass => c_str (no_proxy_pattern route)
                            | _ => []
                            end], url)
      | Cors => ([CURLOPT_PROXY []], rendpoint effective ++ url)
      end.

(** ** The guard *)

Section Guard.
Context `{!Pcre}.
(** The socket library. *)
Context (inet_pton4 inet_pton6 : str -> option (list Z)) (inet_ntop4 inet_ntop6 : list Z -> option str).
Context (getaddrinfo : str -> option (list AddrInfo)).
(** libcurl's URL API, where the build has it, and whether the library is
    recent enough for numeric entries of CURLOPT_NOPROXY. *)
Context (url_api : option (str -> option CurlUrl)) (numeric_no_proxy : bool).
(** The security profile of the settings, and the environment. *)
Context (securityProfile : str) (getEnv : str -> str).

(** src/src/handler/settings.cpp:490-495 [isPublicFetchRestricted] *)
Definition isPublicFetchRestricted (context : FetchContext) : bool :=
  bool_decide (context = PublicRequest)
  && (bool_decide (securityProfile = "public"%str) || bool_decide (securityProfile = "strict"%str)).

(** src/src/handler/webget.cpp:401-509 [parse_http_url_target] *)
Definition parse_http_url_target (url : str) : HttpUrlTarget :=
  if bool_decide (url = []) || has_control_character url then no_target
  else match url_api with Some curl_url => target_of_api curl_url url | None => target_of_text url end.

(** src/src/handler/webget.cpp:519-536 [classify_loopback_host] *)
Definition classify_loopback_host (host : str) : LoopbackKind :=
  if bool_decide (host = "localhost"%str) || endsWith host ".localhost" then LoopHostname
  else
    let address := parseAddress inet_pton4 inet_pton6 host in
    if bool_decide (family address = IPv4) && (nth 0 (octets address) 0 =? 127)
    then if bool_decide (find_char ":" host 0 = None) then LoopIpv4 else LoopIpv6
    else if negb (bool_decide (family address = IPv6)) || negb (nth 15 (octets address) 0 =? 1) then LoopNone
    else if existsb (fun index => negb (nth index (octets address) 0 =? 0)) (seq 0 15) then LoopNone
    else LoopIpv6.

(** src/src/handler/webget.cpp:972-988 [parse_ipv4_address] *)
Definition parse_ipv4_address (address : str) : option Z :=
  if negb (isIPv4 regMatch address) then None
  else
    octets ← split address ".";
    if negb (length octets =? 4)%nat then None else octets_value 0 octets.

(** src/src/handler/webget.cpp:996-1013 [is_blocked_ipv4] *)
Definition is_blocked_ipv4 (address : str) : bool :=
  match parse_ipv4_address address with None => false | Some ip => blocked_value ip end.

(** src/src/handler/webget.cpp:1015-1019 [is_fake_ipv4] *)
Definition is_fake_ipv4 (address : str) : bool :=
  match parse_ipv4_address address with None => false | Some ip => ipv4_in_cidr ip 0xc6120000 15 end.

(** src/src/handler/webget.cpp:1021-1035 [is_blocked_ipv6] *)
Definition is_blocked_ipv6 (address : str) : bool :=
  let value := toLower (trimWhitespace address true true) in
  if bool_decide (value = "::"%str) || bool_decide (value = "::1"%str) then true
  else if startsWith value "fe80:" || startsWith value "fe80::" then true
  else if (2 <=? length value)%nat && bool_decide (value !! 0%nat = Some "f"%char)
          && (bool_decide (value !! 1%nat = Some "c"%char) || bool_decide (value !! 1%nat = Some "d"%char)) then true
  else match last_index_if (is_char ":") value with
       | Some mapped => is_blocked_ipv4 (drop (mapped + 1) value)
       | None => false
       end.

(** src/src/handler/webget.cpp:1037-1043 [is_blocked_ip_address] *)
Definition is_blocked_ip_address (address : str) (allow_fake_ip : bool) : bool :=
  if allow_fake_ip && is_fake_ipv4 address then false
  else is_blocked_ipv4 address || is_blocked_ipv6 address.

(** src/src/utils/network.cpp:25-40 [hostnameToIPAddr, loop] *)
Fixpoint first_address (l : list AddrInfo) : str :=
  match l with
  | [] => []
  | Inet o :: _ => default [] (inet_ntop4 o)
  | Inet6 o :: _ => default [] (inet_ntop6 o)
  | OtherFamily :: l => first_address l
  end.

(** src/src/utils/network.cpp:9-43 [hostnameToIPAddr] *)
Definition hostnameToIPAddr (host : str) : str :=
  match getaddrinfo (c_str host) with None => [] | Some l => first_address l end.

(** src/src/handler/webget.cpp:1055-1101 [isFetchUrlAllowed]
    The log entries are left out. *)
Definition isFetchUrlAllowed (url : str) (context : FetchContext) : bool :=
  if negb (isPublicFetchRestricted context) then true
  else
    let checked_url := trimWhitespace url true true in
    if bool_decide (checked_url = []) || negb (bool_decide (checked_url = url)) || has_control_character checked_url then false
    else
      let lower_url := toLower checked_url in
      if startsWith lower_url "data:" then true
      else if negb (startsWith lower_url "http://") && negb (startsWith lower_url "https://") then false
      else
        let target := parse_http_url_target checked_url in
        if negb (tvalid target) then false
        else
          let host := thost target in
          if negb (bool_decide (classify_loopback_host host = LoopNone)) || is_blocked_hostname host
             || is_blocked_ip_address host false then false
          else
            let resolved := hostnameToIPAddr host in
            negb (negb (bool_decide (resolved = [])) && is_blocked_ip_address resolved true).

(** src/src/handler/webget.cpp:1109-1124 [public_fetch_prereq_callback]
    Whether the connection is aborted; no address is a null pointer. *)
Definition public_fetch_prereq_callback (restricted : bool) (conn_primary_ip : option str) : bool :=
  restricted && match conn_primary_ip with Some ip => is_blocked_ip_address ip true | None => false end.

(** src/src/handler/webget.cpp:538-555 [initial_bypass_no_proxy_pattern] *)
Definition initial_bypass_no_proxy_pattern (host : str) : str :=
  if negb (ClientIp.valid (parseAddress inet_pton4 inet_pton6 host)) then host
  else if numeric_no_proxy then host ++ (if bool_decide (find_char ":" host 0 = None) then "/32" else "/128")
  else [].

(** src/src/handler/webget.cpp:616-620 [resolveProxyRoute, environment] *)
Definition environment_no_proxy : str :=
  let inherited := getEnv "no_proxy" in
  if bool_decide (inherited = []) then getEnv "NO_PROXY" else inherited.

(** src/src/handler/webget.cpp:597-644 [resolveProxyRoute] *)
Definition resolveProxyRoute (snapshot : ResolvedProxyPolicy) (url : str) (context : FetchContext) : ResolvedProxyRoute :=
  match rmode snapshot with
  | Direct | Cors => mkRoute snapshot NoProxyNone [] [] [] []
  | System =>
      if isPublicFetchRestricted context && negb (bool_decide (rendpoint snapshot = []))
      then mkRoute snapshot ForceProxy [] [] [] []
      else mkRoute snapshot InheritEnvironment [] [] [] environment_no_proxy
  | Explicit =>
      if isPublicFetchRestricted context then mkRoute snapshot ForceProxy [] [] [] []
      else
        let target := parse_http_url_target url in
        let match_ := if tvalid target then matchHost inet_pton4 inet_pton6 (rbypass snapshot) (thost target) else None in
        let pattern := match match_ with Some _ => initial_bypass_no_proxy_pattern (thost target) | None => [] end in
        match match_ with
        | Some rule =>
            if bool_decide (pattern = []) then mkRoute snapshot ForceProxy [] [] [] []
            else mkRoute snapshot InitialBypass (thost target) rule pattern []
        | None => mkRoute snapshot ForceProxy [] [] [] []
        end
  end.

End Guard.

(** ** Address blocks *)

Lemma in_cidr ip network bits : 0 <= ip < 2 ^ 32 -> 0 < bits <= 32 ->
  ipv4_in_cidr ip network bits = (ip - ip mod 2 ^ (32 - bits) =? network).
Proof.
  intros Hip Hb. unfold ipv4_in_cidr. cbv zeta. destruct (Z.eqb_spec bits 0) as [|_]; [lia|]. f_equal.
  set (k := 32 - bits). assert (Hk : 0 <= k < 32) by lia.
  replace (ip - ip mod 2 ^ k) with (Z.shiftl (Z.shiftr ip k) k).
  2:{ rewrite Z.shiftl_mul_pow2, Z.shiftr_div_pow2 by lia. pose proof (Z.div_mod ip (2 ^ k) (Z.pow_nonzero 2 k ltac:(lia) ltac:(lia))). lia. }
  unfold u32. rewrite <- Z.land_ones by lia. change 4294967295 with (Z.ones 32).
  apply Z.bits_inj'. intros i Hi. rewrite !Z.land_spec, Z.shiftl_spec by lia.
  destruct (Z.lt_ge_cases i 32) as [Hlt|Hge].
  - rewrite (Z.ones_spec_low 32 i), andb_true_r by lia. destruct (Z.lt_ge_cases i k) as [Hl|Hg].
    + by rewrite (Z.testbit_neg_r _ (i - k)), Z.shiftl_spec_low, andb_false_r by lia.
    + rewrite (Z.ones_spec_low 32 (i - k)), andb_true_r by lia. rewrite Z.shiftl_spec by lia.
      by rewrite Z.shiftr_spec, Z.sub_add by lia.
  - assert (Z.testbit ip i = false) as Hz.
    { apply Z.bits_above_log2; [lia|]. destruct (Z.eq_dec ip 0) as [->|]; [simpl; lia|].
      apply Z.lt_le_trans with 32; [apply Z.log2_lt_pow2; lia|lia]. }
    rewrite Hz. simpl. rewrite Z.shiftl_spec by lia. by rewrite Z.shiftr_spec, Z.sub_add by lia.
Qed.

(** The address of four octets, and the blocks no request of the public may
    reach: this network, private networks, the shared address space, loopback,
    link-local, benchmarking, multicast and reserved addresses. *)
Definition ipv4_value (a b c d : Z) : Z := ((a * 256 + b) * 256 + c) * 256 + d.

Definition fake (a b : Z) : bool := (a =? 198) && ((b =? 18) || (b =? 19)).
Definition reserved (a b : Z) : bool :=
  (a =? 0) || (a =? 10) || ((a =? 100) && (64 <=? b) && (b <=? 127)) || (a =? 127) || ((a =? 169) && (b =? 254))
  || ((a =? 172) && (16 <=? b) && (b <=? 31)) || ((a =? 192) && (b =? 168)) || fake a b || (224 <=? a).

Definition is_octet (z : Z) : Prop := 0 <= z < 256.

Section Blocks.
Context (a b c d : Z) (Ha : is_octet a) (Hb : is_octet b) (Hc : is_octet c) (Hd : is_octet d).

Lemma ipv4_range : 0 <= ipv4_value a b c d < 2 ^ 32.
Proof. unfold is_octet, ipv4_value in *. lia. Qed.

Lemma block_of_two k : 0 <= k <= 8 ->
  ipv4_value a b c d - ipv4_value a b c d mod 2 ^ (16 + k) = a * 2 ^ 24 + (b - b mod 2 ^ k) * 2 ^ 16.
Proof.
  intros Hk. unfold is_octet, ipv4_value in *. rewrite (Z.pow_add_r 2 16 k) by lia.
  rewrite (Z.rem_mul_r _ (2 ^ 16) (2 ^ k)) by lia.
  replace (((a * 256 + b) * 256 + c) * 256 + d) with ((c * 256 + d) + (a * 256 + b) * 2 ^ 16) by lia.
  rewrite Z.mod_add, Z.div_add by lia. rewrite (Z.mod_small (c * 256 + d)), (Z.div_small (c * 256 + d)) by lia.
  rewrite Z.add_0_l.
  replace ((a * 256 + b) mod 2 ^ k) with (b mod 2 ^ k); [lia|].
  replace 256 with (2 ^ (8 - k) * 2 ^ k) by (rewrite <- Z.pow_add_r by lia; by replace (8 - k + k) with 8 by lia).
  rewrite (Z.add_comm _ b), Z.mul_assoc, Z.mod_add; [done|lia].
Qed.

Lemma block_of_one k : 0 <= k <= 8 ->
  ipv4_value a b c d - ipv4_value a b c d mod 2 ^ (24 + k) = (a - a mod 2 ^ k) * 2 ^ 24.
Proof.
  intros Hk. unfold is_octet, ipv4_value in *. rewrite (Z.pow_add_r 2 24 k) by lia.
  rewrite (Z.rem_mul_r _ (2 ^ 24) (2 ^ k)) by lia.
  replace (((a * 256 + b) * 256 + c) * 256 + d) with (((b * 256 + c) * 256 + d) + a * 2 ^ 24) by lia.
  rewrite Z.mod_add, Z.div_add by lia.
  rewrite (Z.mod_small ((b * 256 + c) * 256 + d)), (Z.div_small ((b * 256 + c) * 256 + d)) by lia.
  rewrite Z.add_0_l. lia.
Qed.

Lemma blocked_value_reserved : blocked_value (ipv4_value a b c d) = reserved a b.
Proof.
  unfold blocked_value. pose proof ipv4_range. rewrite !in_cidr by lia.
  change (32 - 8) with (24 + 0). change (32 - 10) with (16 + 6). change (32 - 16) with (16 + 0).
  change (32 - 12) with (16 + 4). change (32 - 15) with (16 + 1). change (32 - 4) with (24 + 4).
  rewrite !block_of_one, !block_of_two by lia. unfold reserved, fake, ipv4_value, is_octet in *.
  change (2 ^ 0) with 1. change (2 ^ 1) with 2. change (2 ^ 4) with 16. change (2 ^ 6) with 64.
  rewrite !Z.mod_1_r, <- !orb_assoc. do 8 (apply (f_equal2 orb); [divlia|]). divlia.
Qed.

Lemma fake_value : ipv4_in_cidr (ipv4_value a b c d) 0xc6120000 15 = fake a b.
Proof.
  pose proof ipv4_range. rewrite in_cidr by lia. change (32 - 15) with (16 + 1). rewrite block_of_two by lia.
  unfold fake, is_octet in *. Z.to_euclidean_division_equations; lia.
Qed.
End Blocks.

(** ** Addresses as texts *)

(** One to three digits of a number below 256, the language of the octet in
    the expression of [isIPv4], and the octets of a dotted address. *)
Definition octet_text (s : str) : bool :=
  forallb isdigit s && (1 <=? length s)%nat && (length s <=? 3)%nat && (digits_value 0 s <=? 255).

Definition quad (s : str) : option (Z * Z * Z * Z) :=
  match fields "." s with
  | [a; b; c; d] =>
      if forallb octet_text [a; b; c; d]
      then Some (digits_value 0 a, digits_value 0 b, digits_value 0 c, digits_value 0 d) else None
  | _ => None
  end.

Definition local_quad (s : str) : bool := match quad s with Some (a, b, _, _) => reserved a b | None => false end.

(** The IPv6 texts the guard refuses: unspecified, loopback, link-local and
    unique local addresses, and those that end in a dotted address it refuses. *)
Definition local_ipv6 (s : str) : bool :=
  let v := toLower (trimWhitespace s true true) in
  bool_decide (v = "::") || bool_decide (v = "::1") || startsWith v "fe80:" || startsWith v "fc" || startsWith v "fd"
  || match fields ":" v with _ :: _ :: _ => local_quad (default [] (last (fields ":" v))) | _ => false end.

Definition local_address (allow_fake : bool) (s : str) : bool :=
  match quad s with
  | Some (a, b, _, _) => reserved a b && negb (allow_fake && fake a b)
  | None => local_ipv6 s
  end.

Lemma octet_text_spec s : octet_text s = true ->
  Forall (fun c => isdigit c = true) s /\ s <> [] /\ is_octet (digits_value 0 s).
Proof.
  unfold octet_text. intros H. rewrite !andb_true_iff, !Nat.leb_le, Z.leb_le in H. destruct H as [[[Hd H1] H3] Hv].
  apply forallb_Forall in Hd. split_and!; [done|by destruct s; simpl in H1; [lia|]|]. split; [|lia].
  clear -Hd. enough (forall acc, 0 <= acc -> 0 <= digits_value acc s) as H by (apply H; lia).
  induction Hd as [|c s Hc Hs IH]; intros acc Hacc; simpl; [done|]. rewrite Hc. apply IH.
  unfold isdigit, between in Hc. unfold digit_value. rewrite andb_true_iff, !Z.leb_le in Hc. lia.
Qed.

Lemma to_int_octet s dflt : octet_text s = true -> to_int s dflt = digits_value 0 s.
Proof.
  intros H. destruct (octet_text_spec s H) as (Hd & Hne & Ho). destruct s as [|c s]; [done|].
  unfold to_int, atoi. apply Forall_cons in Hd as [Hc Hd].
  assert (skip_spaces (c :: s) = c :: s) as ->.
  { simpl. by rewrite digit_not_space. }
  rewrite !bool_decide_false by (intros ->; by vm_compute in Hc).
  unfold is_octet in Ho. unfold int32. rewrite Z.min_r by lia. rewrite Z.mod_small by lia. lia.
Qed.

Lemma lor_octet v p : 0 <= v < 2 ^ 24 -> is_octet p -> Z.lor (u32 (Z.shiftl v 8)) (u32 p) = v * 256 + p.
Proof.
  intros Hv Hp. unfold is_octet in Hp. rewrite (u32_small p), (u32_small (Z.shiftl v 8)) by (rewrite ?Z.shiftl_mul_pow2; lia).
  assert (Hl : Z.land (Z.shiftl v 8) p = 0).
  { apply Z.bits_inj'. intros i Hi. rewrite Z.land_spec, Z.bits_0. destruct (Z.lt_ge_cases i 8) as [H|H].
    - by rewrite Z.shiftl_spec_low.
    - rewrite (Z.bits_above_log2 p i), andb_false_r; [done|lia|]. destruct (Z.eq_dec p 0) as [->|]; [simpl; lia|].
      apply Z.lt_le_trans with 8; [apply Z.log2_lt_pow2; lia|lia]. }
  rewrite <- Z.lxor_lor, <- Z.add_nocarry_lxor by done. by rewrite Z.shiftl_mul_pow2 by lia.
Qed.

Lemma octets_value_quad a b c d : forallb octet_text [a; b; c; d] = true ->
  octets_value 0 [a; b; c; d] =
  Some (ipv4_value (digits_value 0 a) (digits_value 0 b) (digits_value 0 c) (digits_value 0 d)).
Proof.
  intros H. cbn [forallb] in H. rewrite !andb_true_iff in H. destruct H as (Ha & Hb & Hc & Hd & _).
  cbn [octets_value]. cbv zeta. rewrite !to_int_octet by done.
  apply octet_text_spec in Ha as (_ & _ & Ha), Hb as (_ & _ & Hb), Hc as (_ & _ & Hc), Hd as (_ & _ & Hd).
  unfold is_octet in *.
  assert (E : forall z, 0 <= z < 256 -> (z <? 0) || (255 <? z) = false) by (intros; lia).
  rewrite !E by done. rewrite (lor_octet 0) by (unfold is_octet; lia).
  rewrite (lor_octet (0 * 256 + _)) by (unfold is_octet; lia).
  rewrite (lor_octet ((0 * 256 + _) * 256 + _)) by (unfold is_octet; lia).
  rewrite lor_octet by (unfold is_octet; lia). unfold ipv4_value. by rewrite Z.mul_0_l, Z.add_0_l.
Qed.

(** A dotted address has digits and dots only. *)
Lemma quad_bytes s : is_Some (quad s) -> Forall (fun c => isdigit c || is_char "." c = true) s /\ s <> [].
Proof.
  intros [q Hq]. split; [|by intros ->]. apply Forall_forall. intros x Hx.
  destruct (elem_of_fields "." s x Hx) as [->|(f & Hf & Hxf)]; [done|].
  unfold quad in Hq. destruct (fields "." s) as [|a [|b [|c [|d [|]]]]]; try done.
  destruct (forallb octet_text _) eqn:Ho; [|done]. apply forallb_Forall in Ho. rewrite Forall_forall in Ho.
  apply Ho, octet_text_spec in Hf as (Hd & _). rewrite Forall_forall in Hd. by rewrite (Hd x Hxf).
Qed.

Lemma quad_byte_not c : isdigit c || is_char "." c = false -> forall s, is_Some (quad s) -> c ∉ s.
Proof. intros Hc s [Hs _]%quad_bytes Hin. rewrite Forall_forall in Hs. specialize (Hs c Hin). congruence. Qed.

Lemma quad_plain s : is_Some (quad s) -> toLower (trimWhitespace s true true) = s.
Proof.
  intros Hq. destruct (quad_bytes s Hq) as [Hs _].
  assert (Hw : forall c, isdigit c || is_char "." c = true -> is_ws c = false /\ tolower c = c).
  { intros c. generalize (all_bytes_spec (fun c => implb (isdigit c || is_char "." c) (negb (is_ws c) && bool_decide (tolower c = c))) ltac:(by vm_compute) c).
    intros Hi Hc. rewrite Hc in Hi. simpl in Hi. apply andb_true_iff in Hi as [H1%negb_true_iff H2%bool_decide_eq_true]. done. }
  rewrite trimWhitespace_no_ws by (eapply Forall_impl; [exact Hs|]; intros c Hc; by apply Hw).
  unfold toLower. clear -Hs Hw. induction Hs as [|c s Hc Hs IH]; [done|]. csimpl. rewrite IH. f_equal. by apply Hw.
Qed.

(** A dotted address is not refused as an IPv6 text. *)
Lemma quad_not_ipv6 s : is_Some (quad s) -> local_ipv6 s = false.
Proof.
  intros Hq. unfold local_ipv6. rewrite quad_plain by done. cbv zeta.
  rewrite (fields_one ":" s) by (by apply quad_byte_not).
  destruct (quad_bytes s Hq) as [Hs Hne]. destruct s as [|c s]; [done|]. apply Forall_cons in Hs as [Hc _].
  assert (Hn : forall d t, isdigit d || is_char "." d = false -> startsWith (c :: s) (d :: t) = false).
  { intros d t Hd. unfold startsWith. cbn [starts_with]. rewrite bool_decide_false; [done|]. intros <-. congruence. }
  rewrite !Hn by done. rewrite !bool_decide_false by (intros [=]; subst; by vm_compute in Hc). done.
Qed.

Section Texts.
Context `{!Pcre}.
(** The regular expression of [isIPv4] matches the dotted addresses. *)
Context (quad_law : forall s, isIPv4 regMatch s = bool_decide (is_Some (quad s))).

Lemma parse_quad s : parse_ipv4_address s =
  match quad s with Some (a, b, c, d) => Some (ipv4_value a b c d) | None => None end.
Proof.
  unfold parse_ipv4_address. rewrite quad_law. unfold quad. destruct (fields "." s) as [|a [|b [|c [|d [|]]]]] eqn:E; try done.
  destruct (forallb octet_text _) eqn:Ho; [|done]. simpl negb. cbn iota.
  rewrite split_fields.
  - rewrite E. cbn -[octets_value ipv4_value forallb]. by apply octets_value_quad.
  - rewrite E. apply forallb_Forall in Ho. eapply Forall_impl; [exact Ho|]. intros f Hf. by apply octet_text_spec.
Qed.

Lemma quad_octets s a b c d : quad s = Some (a, b, c, d) -> is_octet a /\ is_octet b /\ is_octet c /\ is_octet d.
Proof.
  unfold quad. destruct (fields "." s) as [|x [|y [|z [|w [|]]]]]; try done. cbn [forallb].
  destruct (octet_text x) eqn:Hx, (octet_text y) eqn:Hy, (octet_text z) eqn:Hz, (octet_text w) eqn:Hw; try done.
  simpl. intros [= <- <- <- <-]. split_and!; by apply octet_text_spec.
Qed.

Lemma blocked_ipv4_spec s : is_blocked_ipv4 s = local_quad s.
Proof.
  unfold is_blocked_ipv4, local_quad. rewrite parse_quad. destruct (quad s) as [[[[a b] c] d]|] eqn:E; [|done].
  apply quad_octets in E as (? & ? & ? & ?). by apply blocked_value_reserved.
Qed.

Lemma fake_ipv4_spec s : is_fake_ipv4 s = match quad s with Some (a, b, _, _) => fake a b | None => false end.
Proof.
  unfold is_fake_ipv4. rewrite parse_quad. destruct (quad s) as [[[[a b] c] d]|] eqn:E; [|done].
  apply quad_octets in E as (? & ? & ? & ?). by apply fake_value.
Qed.

Lemma blocked_ipv6_spec s : is_blocked_ipv6 s = local_ipv6 s.
Proof.
  unfold is_blocked_ipv6, local_ipv6. cbv zeta. set (v := toLower _). clearbody v.
  destruct (bool_decide (v = "::"%str)); [done|]. destruct (bool_decide (v = "::1"%str)); [done|]. cbn [orb].
  replace (startsWith v "fe80:" || startsWith v "fe80::") with (startsWith v "fe80:").
  2:{ unfold startsWith. destruct (starts_with "fe80::" v) eqn:E; [|by rewrite orb_false_r].
      apply starts_with_spec in E as [t ->]. by rewrite orb_true_r. }
  destruct (startsWith v "fe80:"); [done|]. cbn [orb].
  assert (E : (2 <=? length v)%nat && bool_decide (v !! 0%nat = Some "f"%char) &&
     (bool_decide (v !! 1%nat = Some "c"%char) || bool_decide (v !! 1%nat = Some "d"%char)) =
     startsWith v "fc" || startsWith v "fd").
  { unfold startsWith. destruct v as [|x [|y v]]; [done|by destruct x as [[] [] [] [] [] [] [] []]|].
    cbn [starts_with lookup list_lookup length Nat.leb andb].
    assert (G : forall (p q : ascii), bool_decide (Some p = Some q) = bool_decide (q = p)).
    { intros p q. apply bool_decide_ext. naive_solver. }
    rewrite !G, !andb_true_r. by destruct (bool_decide ("f"%char = x)). }
  rewrite E. destruct (startsWith v "fc"); [done|]. destruct (startsWith v "fd"); [done|]. cbn [orb]. cbn iota.
  pose proof (last_field ":" v) as Hl. destruct (last_index_if (is_char ":") v) as [i|].
  - destruct Hl as [(f & fs & Hf & Hne) Hl]. rewrite Hf. destruct fs as [|g fs]; [done|]. rewrite <- Hf, Hl. simpl.
    apply blocked_ipv4_spec.
  - by rewrite Hl.
Qed.

Lemma blocked_ip_spec s f : is_blocked_ip_address s f = local_address f s.
Proof.
  unfold is_blocked_ip_address, local_address. rewrite fake_ipv4_spec, blocked_ipv4_spec, blocked_ipv6_spec. unfold local_quad.
  destruct (quad s) as [[[[a b] c] d]|] eqn:E.
  - rewrite quad_not_ipv6, orb_false_r by (by rewrite E). by destruct f, (fake a b), (reserved a b).
  - by rewrite andb_false_r.
Qed.
End Texts.

(** ** The host of a URL text *)

(** The parts of a URL text: what lies between scheme and tail is the
    authority, with the user information in front of the host. *)
Record UrlText := mkUrlText { u_scheme : str; u_user : option str; u_host : str; u_port : option str; u_tail : str }.

Definition authority_text (u : UrlText) : str :=
  match u_user u with Some user => user ++ "@" | None => [] end ++ u_host u ++
  match u_port u with Some port => ":" ++ port | None => [] end.
Definition url_text (u : UrlText) : str := u_scheme u ++ "://" ++ authority_text u ++ u_tail u.

Record url_text_ok (u : UrlText) : Prop := {
  ok_scheme : http_scheme (u_scheme u);
  ok_user : forall user, u_user u = Some user -> Forall (fun c => one_of "/?#" c = false) user;
  ok_host : u_host u <> [] /\ Forall (fun c => invalid_host_byte c = false /\ c <> ":"%char) (u_host u);
  ok_port : forall port, u_port u = Some port -> valid_http_port port = true;
  ok_tail : match u_tail u with [] => True | c :: _ => one_of "/?#" c = true end
}.

Lemma port_digits_ok v port : port_digits v port <> None -> Forall (fun c => isdigit c = true) port.
Proof.
  revert v. induction port as [|c port IH]; intros v; [constructor|]. cbn [port_digits].
  destruct (isdigit c) eqn:Hc; [|done]. cbn [negb]. cbv zeta. split_if; [done|]. intros Hp%IH. by constructor.
Qed.

Lemma valid_port_ok port : valid_http_port port = true -> port <> [] /\ Forall (fun c => isdigit c = true) port.
Proof.
  destruct port as [|c port]; [done|]. unfold valid_http_port. intros Hp. split; [done|]. apply (port_digits_ok 0).
  by destruct (port_digits 0 (c :: port)).
Qed.

Lemma host_and_port_parts host port :
  host <> [] -> Forall (fun c => invalid_host_byte c = false /\ c <> ":"%char) host ->
  (forall p, port = Some p -> valid_http_port p = true) ->
  host_and_port (host ++ match port with Some p => ":" ++ p | None => [] end) = Some (host, default [] port).
Proof.
  intros Hne Hh Hp. rewrite Forall_forall in Hh. destruct host as [|h host]; [done|]. unfold host_and_port.
  rewrite bool_decide_false by (intros [= ->]; destruct (Hh "["%char) as [Hi _]; [left|by vm_compute in Hi]).
  assert (Hc : ":"%char ∉ h :: host) by (intros Hin; by apply Hh in Hin as [_ ?]).
  destruct port as [p|]; cbn [default].
  - destruct (valid_port_ok p (Hp p eq_refl)) as [_ Hd]. rewrite Forall_forall in Hd.
    change (":" ++ p) with (":"%char :: p).
    rewrite last_index_if_app; [|intros c Hcp; unfold is_char; apply bool_decide_eq_false; intros ->; by apply Hd in Hcp|by apply bool_decide_eq_true].
    rewrite find_char_app by done. rewrite bool_decide_true by done. cbn [negb].
    rewrite take_app_length. do 2 f_equal. change (":"%char :: p) with ([":"%char] ++ p). rewrite app_assoc.
    rewrite drop_app_length'; [done|]. rewrite length_app. simpl. lia.
  - rewrite app_nil_r. rewrite (proj2 (last_index_if_None _ _)); [done|].
    intros c Hin. unfold is_char. apply bool_decide_eq_false. by intros ->.
Qed.

(** The part of the authority behind the user information. *)
Definition host_port_text (u : UrlText) : str :=
  u_host u ++ match u_port u with Some port => ":" ++ port | None => [] end.

Section Authority.
Context (u : UrlText) (Hu : url_text_ok u).

Lemma host_byte c : c ∈ u_host u -> invalid_host_byte c = false /\ c <> ":"%char.
Proof using Hu. intros Hc. destruct Hu as [_ _ [_ Hh] _ _]. rewrite Forall_forall in Hh. auto. Qed.

Lemma port_byte c : c ∈ match u_port u with Some port => ":" ++ port | None => [] end -> c = ":"%char \/ isdigit c = true.
Proof using Hu.
  destruct Hu as [_ _ _ Hp _]. destruct (u_port u) as [p|]; [|by intros ?%elem_of_nil].
  destruct (valid_port_ok p (Hp p eq_refl)) as [_ Hd]. rewrite Forall_forall in Hd.
  intros [Hc%list_elem_of_singleton|Hc%Hd]%elem_of_app; [by left|by right].
Qed.

(** No byte ends the authority early, and none behind the user information is
    an at sign. *)
Lemma authority_stop c : c ∈ authority_text u -> one_of "/?#" c = false.
Proof using Hu.
  unfold authority_text. rewrite !elem_of_app. intros [Hc|[Hc|Hc]].
  - destruct Hu as [_ Hus _ _ _]. destruct (u_user u) as [user|]; [|by apply elem_of_nil in Hc].
    apply elem_of_app in Hc as [Hc|Hc%list_elem_of_singleton]; [|by subst].
    specialize (Hus user eq_refl). rewrite Forall_forall in Hus. auto.
  - apply host_byte in Hc as [Hc _]. revert Hc. unfold invalid_host_byte. rewrite !orb_false_iff. intros [_ Hc].
    unfold one_of in *. apply bool_decide_eq_false in Hc. apply bool_decide_eq_false. intros Hin. apply Hc.
    revert Hin. rewrite !elem_of_cons. tauto.
  - apply port_byte in Hc as [->|Hc]; [done|]. revert Hc.
    generalize (all_bytes_spec (fun c => implb (isdigit c) (negb (one_of "/?#" c))) ltac:(by vm_compute) c).
    intros Hi Hd. rewrite Hd in Hi. by apply negb_true_iff in Hi.
Qed.

Lemma host_port_no_at c : c ∈ host_port_text u -> is_char "@" c = false.
Proof using Hu.
  intros Hc. apply bool_decide_eq_false. intros ->. apply elem_of_app in Hc as [Hc|Hc].
  - apply host_byte in Hc as [Hc _]. by vm_compute in Hc.
  - apply port_byte in Hc as [?|Hc]; [done|by vm_compute in Hc].
Qed.

Lemma behind_userinfo :
  match last_index_if (is_char "@") (authority_text u) with
  | Some e => drop (e + 1) (authority_text u) | None => authority_text u
  end = host_port_text u.
Proof using Hu.
  unfold authority_text. fold (host_port_text u). destruct (u_user u) as [user|].
  - rewrite <- app_assoc. change ("@" ++ host_port_text u) with ("@"%char :: host_port_text u).
    rewrite last_index_if_app; [|apply host_port_no_at|by apply bool_decide_eq_true].
    change ("@"%char :: host_port_text u) with (["@"%char] ++ host_port_text u).
    rewrite app_assoc, drop_app_length'; [done|]. rewrite length_app. simpl. lia.
  - rewrite app_nil_l. by rewrite (proj2 (last_index_if_None _ _) host_port_no_at).
Qed.

Lemma host_port_end : last (host_port_text u) <> Some ":"%char.
Proof using Hu.
  unfold host_port_text. destruct Hu as [_ _ [Hne _] Hp _]. destruct (u_port u) as [p|].
  - destruct (valid_port_ok p (Hp p eq_refl)) as [Hpn Hpd]. destruct (exists_last Hpn) as (p' & x & ->).
    rewrite !app_assoc, last_snoc. intros [= ->]. apply Forall_app in Hpd as [_ Hpd]. by apply Forall_cons in Hpd as [? _].
  - rewrite app_nil_r. destruct (exists_last Hne) as (h' & x & E). rewrite E, last_snoc. intros [= ->].
    destruct (host_byte ":"%char) as [_ ?]; [rewrite E; apply elem_of_app; right; left|done].
Qed.

(** Without the URL API the guard judges the text between the last at sign of
    the authority and the port: no user information, path, query or fragment
    can stand in for the host. *)
Lemma host_of_text : target_of_text (url_text u) =
  mkTarget (negb (bool_decide (normalize_http_host (u_host u) = []))) (normalize_http_host (u_host u)).
Proof using Hu.
  pose proof authority_stop as Hstop. pose proof behind_userinfo as Hat. pose proof host_port_end as Hend.
  pose proof host_byte as Hbyte. destruct Hu as [Hs _ [Hne Hh] Hp Ht]. unfold target_of_text, url_text.
  pose proof (http_scheme_no_colon _ Hs) as Hcol. rewrite find_scheme by done.
  assert (Hl : u_scheme u <> []) by (intros E; rewrite E in Hs; by destruct Hs).
  destruct (length (u_scheme u)) as [|n] eqn:El; [by apply nil_length_inv in El|]. rewrite <- El.
  rewrite take_app_length. cbv zeta.
  assert (bool_decide (toLower (u_scheme u) = "http"%str) || bool_decide (toLower (u_scheme u) = "https"%str) = true) as ->.
  { destruct Hs as [->| ->]; by vm_compute. }
  cbn [negb]. rewrite (app_assoc (u_scheme u)). rewrite drop_app_length' by (by rewrite length_app).
  rewrite (index_if_take (one_of "/?#") (authority_text u)) by done. rewrite Hat.
  assert (Hparts : host_and_port (host_port_text u) = Some (u_host u, default [] (u_port u))) by (by apply host_and_port_parts).
  destruct (host_port_text u) as [|r0 rest'] eqn:Er; [unfold host_port_text in Er; by destruct (u_host u)|]. rewrite Hparts. clear Hparts.
  rewrite (bool_decide_false (u_host u = [])) by done.
  assert (has_invalid_http_host_character (u_host u) = false) as ->.
  { apply not_true_iff_false. intros (c & Hc & Hi)%existsb_exists. apply list_elem_of_In, Hbyte in Hc as [Hc _]. congruence. }
  assert (negb (bool_decide (default [] (u_port u) = [])) && negb (valid_http_port (default [] (u_port u))) = false) as ->.
  { destruct (u_port u) as [p|]; [|done]. simpl. by rewrite (Hp p eq_refl), andb_false_r. }
  by rewrite bool_decide_false.
Qed.
(** libcurl's URL API splits a URL text at the same places. *)
Definition api_law (curl_url : str -> option CurlUrl) : Prop :=
  curl_url (url_text u) = Some (mkCurlUrl (Some (u_scheme u)) (Some (u_host u))
    (match u_port u with Some port => PortText port | None => NoPort end)).

Lemma host_of_api curl_url : api_law curl_url -> target_of_api curl_url (url_text u) =
  mkTarget (negb (bool_decide (normalize_http_host (u_host u) = []))) (normalize_http_host (u_host u)).
Proof using Hu.
  intros Hlaw. unfold target_of_api. rewrite Hlaw. cbv zeta. pose proof host_byte as Hbyte. destruct Hu as [Hs _ [Hne _] Hp _].
  assert (without_brackets (u_host u) = u_host u) as ->.
  { unfold without_brackets. destruct (u_host u) as [|c h]; [done|]. rewrite (bool_decide_false (head (c :: h) = Some "["%char)).
    2:{ intros [= ->]. destruct (Hbyte "["%char) as [Hc _]; [by left|by vm_compute in Hc]. }
    by rewrite andb_false_r. }
  assert (bool_decide (toLower (u_scheme u) = "http"%str) || bool_decide (toLower (u_scheme u) = "https"%str) = true) as ->.
  { destruct Hs as [->| ->]; by vm_compute. }
  rewrite (bool_decide_false (u_host u = [])) by done.
  assert (has_invalid_http_host_character (u_host u) = false) as ->.
  { apply not_true_iff_false. intros (c & Hc & Hi)%existsb_exists. apply list_elem_of_In, Hbyte in Hc as [Hc _]. congruence. }
  destruct (u_port u) as [port|]; [|done]. by rewrite (Hp port eq_refl).
Qed.
End Authority.

(** ** What the guard allows *)

Definition local_suffixes : list str := [".localhost"; ".local"; ".localdomain"; ".home.arpa"].

Section Exact.
Context `{!Pcre}.
Context (inet_pton4 inet_pton6 : str -> option (list Z)) (inet_ntop4 inet_ntop6 : list Z -> option str).
Context (getaddrinfo : str -> option (list AddrInfo)) (url_api : option (str -> option CurlUrl)) (securityProfile : str).
Context (quad_law : forall s, isIPv4 regMatch s = bool_decide (is_Some (quad s))).
Notation parse_address := (parseAddress inet_pton4 inet_pton6).
Notation parse_target := (parse_http_url_target url_api).
Notation resolve_host := (hostnameToIPAddr inet_ntop4 inet_ntop6 getaddrinfo).
Notation allowed := (isFetchUrlAllowed inet_pton4 inet_pton6 inet_ntop4 inet_ntop6 getaddrinfo url_api securityProfile).

(** The hosts no request of the public may name. *)
Definition local_host (host : str) : bool :=
  bool_decide (host = "localhost") || existsb (endsWith host) local_suffixes || isLoopback (parse_address host)
  || local_address false host.

Lemma octets_zero n (o : list Z) :
  existsb (fun index => negb (nth index o 0 =? 0)) (seq 0 n) = negb (forallb (fun b => b =? 0) (take n o)).
Proof.
  revert o. induction n as [|n IH]; intros o; [done|]. cbn [seq existsb].
  assert (E : forall f m, existsb f (seq 1 m) = existsb (fun i => f (S i)) (seq 0 m)).
  { intros f m. rewrite <- seq_shift. generalize (seq 0 m). intros l. induction l as [|x l IHl]; [done|]. simpl. by rewrite IHl. }
  rewrite E. destruct o as [|z o].
  - cbn. generalize (seq 0 n). intros l. induction l as [|x l IHl]; [done|exact IHl].
  - cbn [nth take forallb]. by rewrite IH, negb_andb.
Qed.

(** Both loopback tests of the program agree on addresses. *)
Lemma classify_loopback_spec host :
  bool_decide (classify_loopback_host inet_pton4 inet_pton6 host = LoopNone) =
  negb (bool_decide (host = "localhost") || endsWith host ".localhost" || isLoopback (parse_address host)).
Proof.
  unfold classify_loopback_host. destruct (_ || _); [done|]. cbv zeta. cbn [orb]. unfold isLoopback, byte.
  rewrite octets_zero. destruct (parse_address host) as [[] o]; cbn [family octets].
  - done.
  - rewrite (bool_decide_true (IPv4 = IPv4)) by done. cbn [andb]. destruct (nth 0 o 0 =? 127); [by destruct (bool_decide (find_char ":" host 0 = None))|].
    by rewrite (bool_decide_false (IPv4 = IPv6)) by done.
  - rewrite (bool_decide_false (IPv6 = IPv4)) by done. cbn [andb]. rewrite (bool_decide_true (IPv6 = IPv6)) by done. cbn [negb orb].
    destruct (nth 15 o 0 =? 1); [|done]. cbn [negb andb]. by destruct (forallb _ _).
Qed.

Lemma local_host_spec host :
  negb (bool_decide (classify_loopback_host inet_pton4 inet_pton6 host = LoopNone)) || is_blocked_hostname host
    || is_blocked_ip_address host false = local_host host.
Proof.
  rewrite classify_loopback_spec, negb_involutive, blocked_ip_spec by done. unfold local_host, is_blocked_hostname, local_suffixes.
  cbn [existsb]. rewrite orb_false_r. destruct (bool_decide _); [done|]. destruct (endsWith host ".localhost"); [done|]. cbn [orb].
  f_equal. rewrite (orb_comm (isLoopback _)). by rewrite <- !orb_assoc.
Qed.

Definition public_url (url : str) : Prop :=
  url <> [] /\ trimWhitespace url true true = url /\ Forall (fun c => iscntrl c = false) url /\
  (startsWith (toLower url) "data:" = true \/
   (startsWith (toLower url) "http://" = true \/ startsWith (toLower url) "https://" = true) /\
   exists host, parse_target url = mkTarget true host /\ local_host host = false /\
     (resolve_host host = [] \/ local_address true (resolve_host host) = false)).

Lemma no_control url : has_control_character url = false <-> Forall (fun c => iscntrl c = false) url.
Proof.
  unfold has_control_character. rewrite <- not_true_iff_false, existsb_exists, Forall_forall. split.
  - intros Hno c Hc. apply not_true_iff_false. intros Hi. apply Hno. exists c. by rewrite <- list_elem_of_In.
  - intros Hall (c & Hc%list_elem_of_In & Hi). apply Hall in Hc. congruence.
Qed.

(** The checks of the host. *)
Lemma host_checks url :
  (let target := parse_target url in
   if negb (tvalid target) then false
   else
     let host := thost target in
     if negb (bool_decide (classify_loopback_host inet_pton4 inet_pton6 host = LoopNone)) || is_blocked_hostname host
        || is_blocked_ip_address host false then false
     else negb (negb (bool_decide (resolve_host host = [])) && is_blocked_ip_address (resolve_host host) true)) = true <->
  exists host, parse_target url = mkTarget true host /\ local_host host = false /\
    (resolve_host host = [] \/ local_address true (resolve_host host) = false).
Proof.
  cbv zeta. destruct (parse_target url) as [[] host]; cbn [tvalid thost negb]; [|split; [done|by intros (h & [=] & _)]].
  assert (G : forall P : str -> Prop, (exists h, mkTarget true host = mkTarget true h /\ P h) <-> P host).
  { intros P. split; [by intros (h & [= <-] & ?)|intros ?; by exists host]. }
  rewrite (G (fun h => local_host h = false /\ (resolve_host h = [] \/ local_address true (resolve_host h) = false))).
  rewrite local_host_spec, blocked_ip_spec by done.
  destruct (local_host host); [by split; [|intros [? _]]|].
  case_bool_decide; destruct (local_address true (resolve_host host)); cbn [negb andb]; intuition congruence.
Qed.

(** The checks of the guard, one by one. *)
Lemma allowed_iff url :
  securityProfile = "public"%str \/ securityProfile = "strict"%str ->
  allowed url PublicRequest = true <-> public_url url.
Proof using quad_law.
  intros Hp. unfold isFetchUrlAllowed, public_url.
  assert (isPublicFetchRestricted securityProfile PublicRequest = true) as ->.
  { unfold isPublicFetchRestricted. by destruct Hp as [->| ->]. }
  cbn [negb]. cbv zeta. destruct (decide (trimWhitespace url true true = url)) as [Et|Et].
  2:{ rewrite (bool_decide_false (_ = url)) by done. rewrite orb_true_r. cbn. naive_solver. }
  rewrite Et. rewrite (bool_decide_true (url = url)) by done. rewrite orb_false_r.
  destruct (decide (url = [])) as [->|Hne]; [cbn; naive_solver|]. rewrite (bool_decide_false (url = [])) by done. cbn [orb].
  rewrite <- no_control. destruct (has_control_character url); [naive_solver|].
  destruct (startsWith (toLower url) "data:"); [naive_solver|]. rewrite <- host_checks. cbv zeta.
  destruct (startsWith (toLower url) "http://"), (startsWith (toLower url) "https://"); cbn [negb andb]; naive_solver.
Qed.
End Exact.

Lemma quad_text s q : quad s = Some q -> exists a b c d, s = a ++ "." ++ b ++ "." ++ c ++ "." ++ d /\
  forallb octet_text [a; b; c; d] = true /\ q = (digits_value 0 a, digits_value 0 b, digits_value 0 c, digits_value 0 d).
Proof.
  unfold quad. pose proof (join_fields "." s) as Hj. destruct (fields "." s) as [|a [|b [|c [|d [|]]]]]; try done.
  destruct (forallb octet_text _) eqn:Ho; [|done]. intros [= <-]. exists a, b, c, d. split_and!; try done.
  rewrite <- Hj. rewrite !join_cons by done. done.
Qed.

(** A dotted address is the text of an address and its own normal form as a
    host. *)
Lemma quad_address s : is_Some (quad s) -> address_text s /\ normalize_http_host s = s.
Proof.
  intros Hq. pose proof (quad_bytes s Hq) as [Hb Hne]. split.
  - destruct Hq as [q Hq]. apply quad_text in Hq as (a & b & c & d & -> & Ho & _). cbn [forallb] in Ho.
    rewrite !andb_true_iff in Ho. destruct Ho as (Ha & Hbb & Hc & Hd & _).
    assert (Hl : forall x, octet_text x = true -> (length x <= 3)%nat).
    { intros x Hx. unfold octet_text in Hx. rewrite !andb_true_iff, !Nat.leb_le in Hx. lia. }
    apply Hl in Ha, Hbb, Hc, Hd. split; [done|rewrite !length_app; simpl; lia|].
    eapply Forall_impl; [exact Hb|]. intros x Hx.
    generalize (all_bytes_spec (fun c => implb (isdigit c || is_char "." c) (addr_byte c)) ltac:(by vm_compute) x).
    by rewrite Hx.
  - unfold normalize_http_host.
    assert (toLower s = s) as ->.
    { clear -Hb. unfold toLower. induction Hb as [|x s Hx Hs IH]; [done|]. csimpl. rewrite IH. f_equal.
      generalize (all_bytes_spec (fun c => implb (isdigit c || is_char "." c) (bool_decide (tolower c = c))) ltac:(by vm_compute) x).
      rewrite Hx. by intros E%bool_decide_eq_true. }
    cbv zeta. rewrite (bool_decide_false (last s = Some "."%char)); [by rewrite andb_false_r|].
    intros [k ->]%last_Some. destruct Hq as [q Hq]. unfold quad in Hq. rewrite fields_snoc in Hq by (by intros ?%elem_of_nil).
    destruct (fields "." k) as [|a [|b [|c [|d [|e l]]]]]; try done. cbn [app] in Hq.
    by rewrite (forallb_app _ [a; b; c] [[]]), andb_false_r in Hq.
Qed.

Lemma isLoopback_v4 a o : isLoopback (mkAddress IPv4 (a :: o)) = (a =? 127).
Proof. done. Qed.

Section Literal.
Context `{!Pcre}.
Context (inet_pton4 inet_pton6 : str -> option (list Z)) (inet_ntop4 inet_ntop6 : list Z -> option str).
Context (getaddrinfo : str -> option (list AddrInfo)) (url_api : option (str -> option CurlUrl)) (securityProfile : str).
Context (quad_law : forall s, isIPv4 regMatch s = bool_decide (is_Some (quad s))).

Lemma literal_local s a b c d : quad s = Some (a, b, c, d) -> inet_pton4 s = Some [a; b; c; d] ->
  local_host inet_pton4 inet_pton6 s = reserved a b.
Proof.
  intros Hq Hp. assert (Hs : is_Some (quad s)) by (by rewrite Hq). destruct (quad_address s Hs) as [Ht _].
  unfold local_host, local_address. rewrite Hq, parseAddress_text, Hp by done. cbn [app]. rewrite isLoopback_v4.
  assert (Hlast : forall t, (exists x, last t = Some x /\ isdigit x || is_char "." x = false) -> endsWith s t = false).
  { intros t (x & Hx & Hn). apply not_true_iff_false. unfold endsWith, ends_with. rewrite starts_with_spec. intros [r Hr].
    apply (quad_byte_not x Hn s Hs). apply (f_equal (@rev _)) in Hr. rewrite rev_app_distr, !rev_involutive in Hr. subst s.
    apply elem_of_app. right. apply last_Some in Hx as [k ->]. apply elem_of_app. right. left. }
  assert (existsb (endsWith s) local_suffixes = false) as ->.
  { unfold local_suffixes. cbn [existsb]. rewrite !Hlast; [done|..]; eexists; split; done. }
  rewrite bool_decide_false; [|intros ->; by vm_compute in Hq]. cbn [orb andb negb]. rewrite andb_true_r.
  unfold reserved. destruct (Z.eqb_spec a 127) as [->|]; [|done]. by rewrite !orb_true_r.
Qed.

(** C14: a URL of a dotted address, with whatever user information, port, path
    and query: a request of the public under a restricted profile may fetch it
    exactly when the address is outside the reserved blocks.  The build may
    have libcurl's URL API or not; of the API it is used that it splits the
    text at the same places, and of the socket library that it reads and
    resolves a dotted address as its octets. *)
Theorem literal_address_fetch u a b c d :
  securityProfile = "public"%str \/ securityProfile = "strict"%str ->
  url_text_ok u -> match url_api with Some curl_url => api_law u curl_url | None => True end ->
  quad (u_host u) = Some (a, b, c, d) -> inet_pton4 (u_host u) = Some [a; b; c; d] ->
  hostnameToIPAddr inet_ntop4 inet_ntop6 getaddrinfo (u_host u) = u_host u ->
  Forall (fun c => iscntrl c = false) (url_text u) -> trimWhitespace (url_text u) true true = url_text u ->
  isFetchUrlAllowed inet_pton4 inet_pton6 inet_ntop4 inet_ntop6 getaddrinfo url_api securityProfile (url_text u) PublicRequest =
  negb (reserved a b).
Proof using quad_law.
  intros Hp Hu Hapi Hq Hpton Hres Hclean Htrim. apply eq_true_iff_eq. rewrite allowed_iff by done.
  assert (Hs : is_Some (quad (u_host u))) by (by rewrite Hq). destruct (quad_address _ Hs) as [[Hne _ _] Hnorm].
  assert (Hurl : url_text u <> []).
  { unfold url_text. destruct Hu as [Hsch _ _ _ _]. destruct (u_scheme u); [by destruct Hsch|done]. }
  assert (Htarget : parse_http_url_target url_api (url_text u) = mkTarget true (u_host u)).
  { unfold parse_http_url_target. rewrite bool_decide_false by done. rewrite (proj2 (no_control _) Hclean). cbn [orb].
    assert (match url_api with Some curl_url => target_of_api curl_url (url_text u) | None => target_of_text (url_text u) end =
      mkTarget (negb (bool_decide (normalize_http_host (u_host u) = []))) (normalize_http_host (u_host u))) as ->
      by (destruct url_api; [by apply host_of_api|by apply host_of_text]).
    rewrite Hnorm. by rewrite bool_decide_false. }
  assert (Hloc : local_address true (u_host u) = reserved a b && negb (fake a b)) by (unfold local_address; by rewrite Hq).
  assert (Hscheme : startsWith (toLower (url_text u)) "data:" = false /\
    (startsWith (toLower (url_text u)) "http://" = true \/ startsWith (toLower (url_text u)) "https://" = true)).
  { unfold url_text, startsWith, toLower. rewrite !fmap_app. destruct Hu as [Hsch _ _ _ _].
    unfold http_scheme, toLower in Hsch. destruct Hsch as [->| ->]; split; try done; [left|right]; done. }
  unfold public_url. rewrite Htarget. split.
  - intros (_ & _ & _ & [?|(_ & h & [= <-] & Hl & _)]); [destruct Hscheme; congruence|].
    by rewrite (literal_local _ a b c d) in Hl by done; rewrite Hl.
  - intros Hr%negb_true_iff. split_and!; [done..|]. right. split; [tauto|]. exists (u_host u).
    split; [done|]. rewrite (literal_local _ a b c d) by done. split; [done|]. right. by rewrite Hres, Hloc, Hr.
Qed.
End Literal.

(** ** Addresses by their bytes *)

Definition local_v6 (o : list Z) : bool :=
  bool_decide (o = replicate 16 0) || bool_decide (o = replicate 15 0 ++ [1])
  || (nth 0 o 0 =? 252) || (nth 0 o 0 =? 253) || ((nth 0 o 0 =? 254) && (nth 1 o 0 =? 128))
  || (isMappedIpv4 o && reserved (nth 12 o 0) (nth 13 o 0)).

(** The addresses that no request of the public may reach: of IPv4 the reserved
    blocks but the benchmarking block, where proxies put fake addresses; of
    IPv6 the unspecified and the loopback address, unique local addresses,
    fe80::/16 and mapped addresses of the reserved blocks. *)
Definition local_peer (r : AddrInfo) : bool :=
  match r with
  | Inet o => reserved (nth 0 o 0) (nth 1 o 0) && negb (fake (nth 0 o 0) (nth 1 o 0))
  | Inet6 o => local_v6 o
  | OtherFamily => false
  end.

Definition well_formed (r : AddrInfo) : Prop :=
  match r with
  | Inet o => length o = 4%nat /\ Forall is_octet o
  | Inet6 o => length o = 16%nat /\ Forall is_octet o
  | OtherFamily => False
  end.

(** The address that [hostnameToIPAddr] takes. *)
Definition is_address (r : AddrInfo) : bool := match r with OtherFamily => false | _ => true end.
Definition first_result (l : list AddrInfo) : option AddrInfo := head (filter (fun r => is_address r = true) l).

(** The texts that [inet_ntop] writes. *)
Definition ipv6_byte (c : ascii) : bool := isdigit c || between 97 102 c || is_char ":" c || is_char "." c.

Record ntop_law (inet_ntop4 inet_ntop6 : list Z -> option str) : Prop := {
  ntop4_text a b c d : is_octet a -> is_octet b -> is_octet c -> is_octet d ->
    exists s, inet_ntop4 [a; b; c; d] = Some s /\ quad s = Some (a, b, c, d);
  ntop6_text o : well_formed (Inet6 o) -> exists s, inet_ntop6 o = Some s /\
    Forall (fun c => ipv6_byte c = true) s /\ ":"%char ∈ s /\
    (o = replicate 16 0 -> s = "::") /\ (o = replicate 15 0 ++ [1] -> s = "::1") /\
    (nth 0 o 0 = 252 -> startsWith s "fc" = true) /\ (nth 0 o 0 = 253 -> startsWith s "fd" = true) /\
    (nth 0 o 0 = 254 -> nth 1 o 0 = 128 -> startsWith s "fe80:" = true) /\
    (isMappedIpv4 o = true -> exists t, s = "::ffff:" ++ t /\ quad t = Some (nth 12 o 0, nth 13 o 0, nth 14 o 0, nth 15 o 0))
}.

Section Peers.
Context `{!Pcre}.
Context (inet_pton4 inet_pton6 : str -> option (list Z)) (inet_ntop4 inet_ntop6 : list Z -> option str).
Context (getaddrinfo : str -> option (list AddrInfo)) (url_api : option (str -> option CurlUrl)) (securityProfile : str).
Context (quad_law : forall s, isIPv4 regMatch s = bool_decide (is_Some (quad s))).
Context (law : ntop_law inet_ntop4 inet_ntop6).

Definition peer_text (r : AddrInfo) : option str :=
  match r with Inet o => inet_ntop4 o | Inet6 o => inet_ntop6 o | OtherFamily => None end.

Lemma ipv6_plain s : Forall (fun c => ipv6_byte c = true) s -> toLower (trimWhitespace s true true) = s.
Proof.
  intros Hs. assert (Hw : forall c, ipv6_byte c = true -> is_ws c = false /\ tolower c = c).
  { intros c. generalize (all_bytes_spec (fun c => implb (ipv6_byte c) (negb (is_ws c) && bool_decide (tolower c = c))) ltac:(by vm_compute) c).
    intros Hi Hc. rewrite Hc in Hi. simpl in Hi. apply andb_true_iff in Hi as [H1%negb_true_iff H2%bool_decide_eq_true]. done. }
  rewrite trimWhitespace_no_ws by (eapply Forall_impl; [exact Hs|]; intros c Hc; by apply Hw).
  unfold toLower. clear -Hs Hw. induction Hs as [|c s Hc Hs IH]; [done|]. csimpl. rewrite IH. f_equal. by apply Hw.
Qed.

Lemma ntop4_address o : well_formed (Inet o) ->
  exists s, inet_ntop4 o = Some s /\ s <> [] /\ local_address true s = local_peer (Inet o).
Proof using law.
  intros [Hl Ho]. destruct o as [|a [|b [|c [|d [|]]]]]; try done. rewrite !Forall_cons in Ho. destruct Ho as (Ha & Hb & Hc & Hd & _).
  destruct (ntop4_text _ _ law a b c d Ha Hb Hc Hd) as (s & Hs & Hq). exists s. split; [done|]. split; [by intros ->|].
  unfold local_address. by rewrite Hq.
Qed.

Lemma ntop6_address o : well_formed (Inet6 o) ->
  exists s, inet_ntop6 o = Some s /\ s <> [] /\ (local_v6 o = true -> local_address true s = true).
Proof using law.
  intros Ho. destruct (ntop6_text _ _ law o Ho) as (s & Hs & Hb & Hc & Hz & Hl & Hfc & Hfd & Hfe & Hm). exists s.
  split; [done|]. split; [by intros ->; apply elem_of_nil in Hc|]. intros Hlocal.
  assert (quad s = None) as Hq.
  { destruct (quad s) eqn:E; [|done]. exfalso. revert Hc. apply quad_byte_not; [by vm_compute|by rewrite E]. }
  unfold local_address. rewrite Hq. unfold local_ipv6. rewrite ipv6_plain by done. cbv zeta.
  unfold local_v6 in Hlocal. rewrite !orb_true_iff in Hlocal. destruct Hlocal as [[[[[H1|H1]|H1]|H1]|H1]|H1].
  - apply bool_decide_eq_true in H1. by rewrite Hz.
  - apply bool_decide_eq_true in H1. by rewrite Hl.
  - apply Z.eqb_eq in H1. by rewrite (Hfc H1), !orb_true_r.
  - apply Z.eqb_eq in H1. by rewrite (Hfd H1), !orb_true_r.
  - apply andb_true_iff in H1 as [H1%Z.eqb_eq H2%Z.eqb_eq]. by rewrite (Hfe H1 H2), !orb_true_r.
  - apply andb_true_iff in H1 as [H1 H2]. destruct (Hm H1) as (t & -> & Ht).
    change ("::ffff:" ++ t) with ([] ++ ":"%char :: ([] ++ ":"%char :: ("ffff" ++ ":"%char :: t))).
    rewrite (fields_cons ":" []) by (by intros ?%elem_of_nil). rewrite (fields_cons ":" []) by (by intros ?%elem_of_nil).
    rewrite (fields_cons ":" "ffff"), (fields_one ":" t).
    + cbn [last default]. unfold local_quad, id. rewrite Ht, H2. by rewrite !orb_true_r.
    + apply quad_byte_not; [by vm_compute|by rewrite Ht].
    + apply (bool_decide_unpack _). by vm_compute.
Qed.

Lemma first_address_text l r : first_result l = Some r -> first_address inet_ntop4 inet_ntop6 l = default [] (peer_text r).
Proof.
  induction l as [|x l IH]; [done|]. unfold first_result in *. destruct x; rewrite filter_cons; cbn [first_address].
  - rewrite decide_True by done. by intros [= <-].
  - rewrite decide_True by done. by intros [= <-].
  - rewrite decide_False by done. exact IH.
Qed.

(** C15: a request of the public under a restricted profile reaches no local
    host.  An allowed URL is a data: URL or names an HTTP host that is no local
    name, no loopback address, no dotted address of a reserved block, and
    whose first address, if it has one, is no local address ([local_peer], by
    its bytes).  And whatever address the transfer then connects to, the
    callback before the request aborts it when the address is local; of IPv4
    addresses it aborts exactly these. *)
Theorem restricted_fetch_is_public :
  securityProfile = "public"%str \/ securityProfile = "strict"%str ->
  (forall url,
    isFetchUrlAllowed inet_pton4 inet_pton6 inet_ntop4 inet_ntop6 getaddrinfo url_api securityProfile url PublicRequest = true ->
    startsWith (toLower url) "data:" = true \/
    exists host, parse_http_url_target url_api url = mkTarget true host /\
      host <> "localhost" /\ existsb (endsWith host) local_suffixes = false /\
      isLoopback (parseAddress inet_pton4 inet_pton6 host) = false /\
      (forall a b c d, quad host = Some (a, b, c, d) -> reserved a b = false) /\
      (forall l r, getaddrinfo (c_str host) = Some l -> first_result l = Some r -> well_formed r -> local_peer r = false)) /\
  (forall r s, well_formed r -> peer_text r = Some s -> local_peer r = true ->
    public_fetch_prereq_callback true (Some s) = true) /\
  (forall o s, well_formed (Inet o) -> inet_ntop4 o = Some s ->
    public_fetch_prereq_callback true (Some s) = local_peer (Inet o)).
Proof using law quad_law.
  intros Hp. split_and!.
  - intros url (_ & _ & _ & [Hd|(_ & host & Ht & Hl & Hr)])%allowed_iff; [by left|right|done|done].
    exists host. unfold local_host in Hl. rewrite !orb_false_iff in Hl. destruct Hl as [[[L1%bool_decide_eq_false L2] L3] L4].
    split_and!; try done.
    + intros a b c d Hq. unfold local_address in L4. rewrite Hq in L4. by rewrite andb_true_r in L4.
    + intros l r Hg Hf Hw. unfold hostnameToIPAddr in Hr. rewrite Hg, (first_address_text l r Hf) in Hr.
      destruct r as [o|o|]; [| |done]; cbn [peer_text local_peer] in *.
      * destruct (ntop4_address o Hw) as (s & Es & Hne & Hs). rewrite Es in Hr. cbn [default] in Hr. cbn [local_peer] in Hs.
        rewrite <- Hs. by destruct Hr.
      * destruct (ntop6_address o Hw) as (s & Es & Hne & Hs). rewrite Es in Hr. cbn [default] in Hr.
        apply not_true_is_false. intros Hl'. apply Hs in Hl'. destruct Hr as [Hr|Hr]; [done|]. change (local_address true s = false) in Hr. congruence.
  - intros r s Hw Hs Hl. unfold public_fetch_prereq_callback. rewrite blocked_ip_spec by done.
    destruct r as [o|o|]; [| |done]; cbn [peer_text] in Hs.
    + destruct (ntop4_address o Hw) as (s' & Es & _ & E). rewrite Es in Hs. injection Hs as ->. by rewrite E.
    + destruct (ntop6_address o Hw) as (s' & Es & _ & E). rewrite Es in Hs. injection Hs as ->. by rewrite E.
  - intros o s Hw Hs. unfold public_fetch_prereq_callback. rewrite blocked_ip_spec by done.
    destruct (ntop4_address o Hw) as (s' & Es & _ & E). rewrite Es in Hs. injection Hs as ->. by rewrite E.
Qed.
End Peers.

(** ** The proxy of a transfer *)

Section Routes.
Context `{!Pcre} (inet_pton4 inet_pton6 : str -> option (list Z)) (url_api : option (str -> option CurlUrl)).
Context (numeric_no_proxy : bool) (securityProfile : str) (getEnv : str -> str).
Notation route := (resolveProxyRoute inet_pton4 inet_pton6 url_api numeric_no_proxy securityProfile getEnv).
Notation restricted := (isPublicFetchRestricted securityProfile).

(** The texts that [inet_pton] reads: a dotted address has no colon, an IPv6
    address has one. *)
Context (pton4_text : forall s o, inet_pton4 s = Some o -> ":"%char ∉ s).
Context (pton6_text : forall s o, inet_pton6 s = Some o -> ":"%char ∈ s).

(** The entry that exempts exactly one host from the proxy: its name, or its
    address with all the bits of its family. *)
Definition exempts (host entry : str) : Prop :=
  if ClientIp.valid (parseAddress inet_pton4 inet_pton6 host) then
    match inet_pton4 host, inet_pton6 host with
    | Some _, _ => entry = host ++ "/32"
    | None, Some _ => entry = host ++ "/128"
    | None, None => False
    end
  else entry = host.

(** The host of a target is a clean text. *)
Lemma normal_host_clean host : has_invalid_http_host_character host = false ->
  Forall (fun c => invalid_host_byte c = false) (normalize_http_host host).
Proof using.
  intros Hh. assert (Hl : Forall (fun c => invalid_host_byte c = false) (toLower host)).
  { apply Forall_fmap, Forall_forall. intros c Hc.
    assert (Hb : invalid_host_byte c = false).
    { apply not_true_is_false. intros Hb. apply not_true_iff_false in Hh. apply Hh, existsb_exists. exists c.
      by rewrite <- list_elem_of_In. }
    revert Hb. generalize (all_bytes_spec (fun c => implb (negb (invalid_host_byte c)) (negb (invalid_host_byte (tolower c))))
      ltac:(by vm_compute) c). intros Hi Hb. rewrite Hb in Hi. by apply negb_true_iff in Hi. }
  unfold normalize_http_host. cbv zeta. destruct (_ && _); [|done]. rewrite Forall_forall in *. intros c Hc. apply Hl.
  destruct (toLower host) as [|x h]; [done|]. rewrite (app_removelast_last x (l := x :: h)) by done. apply elem_of_app. by left.
Qed.

Lemma target_clean url host : parse_http_url_target url_api url = mkTarget true host ->
  Forall (fun c => invalid_host_byte c = false) host.
Proof using.
  unfold parse_http_url_target, target_of_api, target_of_text. intros Ht. repeat (case_match; try done); injection Ht as _ <-; bools.
  all: by apply normal_host_clean.
Qed.

Lemma clean_text host : Forall (fun c => invalid_host_byte c = false) host -> ClientIp.trim host = host /\ c_str host = host.
Proof using.
  intros Hh. assert (Hs : forall s, Forall (fun c => invalid_host_byte c = false) s -> skip_space s = s).
  { intros [|c s]; [done|]. intros [Hc _]%Forall_cons. unfold invalid_host_byte in Hc. cbn [skip_space].
    rewrite !orb_false_iff in Hc. by destruct Hc as [[_ ->] _]. }
  split.
  - unfold ClientIp.trim. rewrite (Hs host Hh), Hs by by apply Forall_reverse. apply reverse_involutive.
  - apply c_str_id. intros Hin. rewrite Forall_forall in Hh. apply Hh in Hin. by vm_compute in Hin.
Qed.

Lemma exempts_entry url host : parse_http_url_target url_api url = mkTarget true host ->
  initial_bypass_no_proxy_pattern inet_pton4 inet_pton6 numeric_no_proxy host <> [] ->
  exempts host (initial_bypass_no_proxy_pattern inet_pton4 inet_pton6 numeric_no_proxy host).
Proof using pton4_text pton6_text.
  intros [Ht Hc]%target_clean%clean_text. unfold exempts, initial_bypass_no_proxy_pattern.
  destruct (ClientIp.valid _) eqn:Ev; cbn [negb]; [|done]. destruct numeric_no_proxy; [intros _|done].
  unfold parseAddress in Ev. cbv zeta in Ev. rewrite Ht, Hc in Ev. destruct (_ || _ || _); [done|].
  destruct (inet_pton4 host) as [o|] eqn:E4.
  - rewrite bool_decide_true; [done|]. apply find_char_None. by eapply pton4_text.
  - destruct (inet_pton6 host) as [o|] eqn:E6; [|done]. rewrite bool_decide_false; [done|]. rewrite find_char_None. intros Hn.
    apply Hn. by eapply pton6_text.
Qed.

(** C16: Every transfer sets its proxy itself, so none is taken from the
    environment.  A restricted request goes through a configured proxy without
    exception; otherwise an explicit proxy is bypassed for at most the one
    host of the URL (an IPv4 address with /32, an IPv6 address with /128), and
    only if the bypass rules match it, and the system's exceptions apply to
    the system's proxy only. *)
Theorem proxy_enforced snapshot url context opts url' :
  apply_curl_proxy_policy (route snapshot url context) url = Some (opts, url') ->
  rvalid snapshot = true /\
  match rmode snapshot with
  | Direct => opts = [CURLOPT_PROXY []] /\ url' = url
  | Cors => opts = [CURLOPT_PROXY []] /\ url' = rendpoint snapshot ++ url
  | System =>
      url' = url /\ exists entry, opts = [CURLOPT_PROXY (c_str (rendpoint snapshot)); CURLOPT_NOPROXY entry] /\
      (restricted context = true -> rendpoint snapshot <> [] -> entry = [])
  | Explicit =>
      url' = url /\ exists entry, opts = [CURLOPT_PROXY (c_str (rendpoint snapshot)); CURLOPT_NOPROXY entry] /\
      (entry = [] \/
       restricted context = false /\ exists host rule text,
         parse_http_url_target url_api url = mkTarget true host /\
         matchHost inet_pton4 inet_pton6 (rbypass snapshot) host = Some rule /\ exempts host text /\ entry = c_str text)
  end.
Proof.
  unfold apply_curl_proxy_policy, resolveProxyRoute. destruct (rmode snapshot) eqn:Em.
  - cbn [proxy]. destruct (rvalid snapshot); [|done]. rewrite Em. by intros [= <- <-].
  - destruct (restricted context) eqn:Er; cbn [andb].
    + case_bool_decide as Ee; cbn [negb proxy no_proxy inherited_no_proxy]; (destruct (rvalid snapshot); [|done]); rewrite Em; cbn [negb];
        [rewrite bool_decide_true by done|rewrite bool_decide_false by done]; intros [= <- <-]; split_and!; try done.
      * rewrite Ee. by eexists.
      * by eexists.
    + cbn [proxy no_proxy inherited_no_proxy]. destruct (rvalid snapshot); [|done]. rewrite Em. cbn [negb].
      intros [= <- <-]. split_and!; try done. case_bool_decide as Ee; [rewrite Ee|]; by eexists.
  - destruct (restricted context) eqn:Er.
    { cbn [proxy no_proxy]. destruct (rvalid snapshot); [|done]. rewrite Em. cbn [negb]. intros [= <- <-].
      split_and!; try done. eexists. split; [done|by left]. }
    cbv zeta. destruct (parse_http_url_target url_api url) as [[] host] eqn:Eh; cbn [tvalid thost].
    2:{ cbn [proxy no_proxy]. destruct (rvalid snapshot); [|done]. rewrite Em. cbn [negb]. intros [= <- <-].
        split_and!; try done. eexists. split; [done|by left]. }
    destruct (matchHost _ _ _ _) as [rule|] eqn:Eb; [case_bool_decide as Ep|];
      cbn [proxy no_proxy no_proxy_pattern]; (destruct (rvalid snapshot); [|done]); rewrite Em; cbn [negb]; intros [= <- <-];
      (split; [done|split; [done|eexists; split; [done|]]]); [by left| |by left].
    right. split; [done|]. exists host, rule, (initial_bypass_no_proxy_pattern inet_pton4 inet_pton6 numeric_no_proxy host).
    split_and!; try done. by apply (exempts_entry url).
  - cbn [proxy]. destruct (rvalid snapshot); [|done]. rewrite Em. by intros [= <- <-].
Qed.
End Routes.


(** ** Examples *)

(** An engine that knows the expression of [isIPv4], and a socket library that
    knows dotted addresses. *)
#[local] Instance quad_pcre : Pcre := {
  compiles _ _ := true;
  count _ _ s := if bool_decide (is_Some (quad s)) then 1%nat else 0%nat;
  substrings _ _ _ := []; substitute _ _ _ s _ := s
}.

Definition quad_pton (s : str) : option (list Z) :=
  match quad s with Some (a, b, c, d) => Some [a; b; c; d] | None => None end.
Definition quad_ntop (o : list Z) : option str :=
  match o with
  | a :: b :: c :: d :: _ => Some (to_string a ++ "." ++ to_string b ++ "." ++ to_string c ++ "." ++ to_string d)
  | _ => None
  end.
Definition quad_resolver (s : str) : option (list AddrInfo) :=
  match quad_pton s with Some o => Some [Inet o] | None => if bool_decide (s = "inside.example"%str) then Some [OtherFamily; Inet [10; 0; 0; 7]] else None end.

Lemma quad_pcre_law s : isIPv4 regMatch s = bool_decide (is_Some (quad s)).
Proof. unfold isIPv4, regMatch. cbn. by destruct (bool_decide (is_Some (quad s))). Qed.

Definition example_allowed (url : str) : bool :=
  isFetchUrlAllowed quad_pton (fun _ => None) quad_ntop (fun _ => None) quad_resolver None "public" url PublicRequest.

Definition example_url (host : str) : UrlText := mkUrlText "http" (Some "example.org:80@x"%str) host (Some "8080"%str) "/a@b".

Definition example_api (url : str) : option CurlUrl :=
  if bool_decide (url = url_text (example_url "172.32.0.9"))
  then Some (mkCurlUrl (Some "http"%str) (Some "172.32.0.9"%str) (PortText "8080")) else None.

Lemma literal_address_fetch_witness :
  example_allowed (url_text (example_url "172.31.0.9")) = false /\
  isFetchUrlAllowed quad_pton (fun _ => None) quad_ntop (fun _ => None) quad_resolver (Some example_api) "public"
    (url_text (example_url "172.32.0.9")) PublicRequest = true.
Proof.
  unfold example_allowed.
  split; [rewrite (literal_address_fetch quad_pton (fun _ => None) quad_ntop (fun _ => None) quad_resolver None "public" quad_pcre_law
      (example_url "172.31.0.9") 172 31 0 9)|rewrite (literal_address_fetch quad_pton (fun _ => None) quad_ntop (fun _ => None) quad_resolver
      (Some example_api) "public" quad_pcre_law (example_url "172.32.0.9") 172 32 0 9)]; try done; try (by left); try (by vm_compute);
    try (computed);
    (split; [by left|intros user [= <-]; computed
      |split; [done|computed]
      |intros port [= <-]; by vm_compute|done]).
Defined.

(** A writer of IPv6 addresses: the two short forms, mapped addresses with
    dots, and all bytes of the others. *)
Definition hex_char (z : Z) : ascii := nth (Z.to_nat z) "0123456789abcdef"%str "0"%char.
Definition hex_byte (z : Z) : str := [hex_char (z / 16); hex_char (z mod 16)].
Definition full_ntop6 (o : list Z) : option str :=
  if bool_decide (o = replicate 16 0) then Some "::"%str
  else if bool_decide (o = replicate 15 0 ++ [1]) then Some "::1"%str
  else if isMappedIpv4 o then app "::ffff:"%str <$> quad_ntop (drop 12 o)
  else Some (hex_byte (nth 0 o 0) ++ hex_byte (nth 1 o 0) ++ concat ((fun z => ":"%char :: hex_byte z) <$> drop 2 o)).

(** Names of public hosts that begin with fc or fd are taken for unique local
    addresses; a link-local address outside fe80::/16 is not recognised. *)
Example public_name_refused : example_allowed "https://fdroid.example/" = false /\ example_allowed "https://droid.example/" = true.
Proof. split; by vm_compute. Qed.
Example link_local_missed : local_ipv6 "fe80::1" = true /\ local_ipv6 "fe90::1" = false.
Proof. split; by vm_compute. Qed.

Lemma octet_quad_text z : is_octet z -> octet_text (to_string z) = true /\ digits_value 0 (to_string z) = z.
Proof.
  intros Hz. assert (Hb : forallb (fun n => octet_text (to_string (Z.of_nat n)) && (digits_value 0 (to_string (Z.of_nat n)) =? Z.of_nat n))
    (seq 0 256) = true) by (by vm_compute).
  rewrite forallb_forall in Hb. unfold is_octet in Hz. specialize (Hb (Z.to_nat z) ltac:(apply in_seq; lia)).
  rewrite Z2Nat.id in Hb by lia. apply andb_true_iff in Hb as [H1 H2%Z.eqb_eq]. done.
Qed.

Lemma quad_ntop_law a b c d rest_ : is_octet a -> is_octet b -> is_octet c -> is_octet d ->
  exists s, quad_ntop (a :: b :: c :: d :: rest_) = Some s /\ quad s = Some (a, b, c, d) /\ is_Some (quad s).
Proof.
  intros Ha Hb Hc Hd. eexists. split; [reflexivity|].
  destruct (octet_quad_text a Ha) as [Ta Va], (octet_quad_text b Hb) as [Tb Vb], (octet_quad_text c Hc) as [Tc Vc],
    (octet_quad_text d Hd) as [Td Vd].
  assert (Hdot : forall t, octet_text t = true -> "."%char ∉ t).
  { intros t (Ht & _ & _)%octet_text_spec Hin. rewrite Forall_forall in Ht. by apply Ht in Hin. }
  assert (Hq : quad (to_string a ++ "." ++ to_string b ++ "." ++ to_string c ++ "." ++ to_string d) = Some (a, b, c, d)).
  { unfold quad.
    change (to_string a ++ "." ++ to_string b ++ "." ++ to_string c ++ "." ++ to_string d)%str with
      (to_string a ++ "."%char :: (to_string b ++ "."%char :: (to_string c ++ "."%char :: to_string d))).
    rewrite !fields_cons, fields_one by by apply Hdot. cbn [forallb]. by rewrite Ta, Tb, Tc, Td, Va, Vb, Vc, Vd. }
  split; [exact Hq|by rewrite Hq].
Qed.

Lemma hex_char_byte z : ipv6_byte (hex_char z) = true.
Proof.
  unfold hex_char. destruct (Nat.lt_ge_cases (Z.to_nat z) 16) as [H|H].
  - assert (Hb : forallb (fun n => ipv6_byte (nth n "0123456789abcdef"%str "0"%char)) (seq 0 16) = true) by (by vm_compute).
    rewrite forallb_forall in Hb. apply Hb, in_seq. lia.
  - by rewrite nth_overflow.
Qed.

Lemma full_ntop_law : ntop_law quad_ntop full_ntop6.
Proof.
  split.
  - intros a b c d Ha Hb Hc Hd. destruct (quad_ntop_law a b c d [] Ha Hb Hc Hd) as (s & Hs & Hq & _). eauto.
  - intros o [Hl Ho]. unfold full_ntop6. case_bool_decide as H0; [subst o; eexists; split_and!; try done; computed|].
    case_bool_decide as H1; [subst o; eexists; split_and!; try done; computed|].
    destruct (isMappedIpv4 o) eqn:Em.
    + assert (Hz : nth 0 o 0 = 0).
      { unfold isMappedIpv4 in Em. bools. match goal with H : take 10 o = _ |- _ => apply (f_equal (fun l => nth 0 l 0)) in H; cbn in H end.
        by destruct o. }
      do 16 (destruct o as [|? o]; [done|]). destruct o; [|done]. cbn [drop nth] in *. rewrite !Forall_cons in Ho.
      destruct Ho as (_&_&_&_&_&_&_&_&_&_&_&_&Ha&Hb&Hc&Hd&_).
      destruct (quad_ntop_law _ _ _ _ [] Ha Hb Hc Hd) as (s & -> & Hq & Hs). exists ("::ffff:" ++ s). split_and!; try done; try lia.
      * apply Forall_app. split; [computed|]. destruct (quad_bytes s Hs) as [Hb' _]. eapply Forall_impl; [exact Hb'|]. intros x Hx.
        unfold ipv6_byte. apply orb_true_iff in Hx as [->| ->]; by rewrite ?orb_true_r.
      * by left.
      * intros _. by exists s.
    + eexists. split; [reflexivity|]. do 3 (destruct o as [|? o]; [done|]). cbn [nth drop]. split_and!; try done.
      * rewrite !Forall_app. split_and!; [repeat constructor; apply hex_char_byte..|].
        apply Forall_concat, Forall_fmap, Forall_true. intros x. repeat constructor; apply hex_char_byte.
      * rewrite !elem_of_app. right. right. csimpl. by left.
      * intros ->. by vm_compute.
      * intros ->. by vm_compute.
      * intros -> ->. by vm_compute.
Qed.

Lemma restricted_fetch_is_public_witness :
  (exists host, parse_http_url_target None "https://example.org/sub" = mkTarget true host) /\
  public_fetch_prereq_callback true (Some "169.254.169.254"%str) = true /\
  public_fetch_prereq_callback true (Some "198.18.0.7"%str) = false /\
  public_fetch_prereq_callback true (Some "::ffff:10.0.0.7"%str) = true.
Proof.
  destruct (restricted_fetch_is_public quad_pton (fun _ => None) quad_ntop full_ntop6 quad_resolver None "public" quad_pcre_law
    full_ntop_law (or_introl eq_refl)) as (H1 & H2 & H3).
  split_and!.
  - destruct (H1 "https://example.org/sub"%str) as [?|(host & Hh & _)]; [by vm_compute|done|by exists host].
  - rewrite (H3 [169; 254; 169; 254]); [by vm_compute| |by vm_compute].
    split; [done|]. repeat constructor; unfold is_octet; lia.
  - rewrite (H3 [198; 18; 0; 7]); [by vm_compute| |by vm_compute].
    split; [done|]. repeat constructor; unfold is_octet; lia.
  - apply (H2 (Inet6 (replicate 10 0 ++ [255; 255; 10; 0; 0; 7]))); [|by vm_compute|by vm_compute].
    split; [done|]. cbn. repeat constructor; unfold is_octet; lia.
Defined.

Lemma quad_pton_text s o : quad_pton s = Some o -> ":"%char ∉ s.
Proof. unfold quad_pton. intros H. apply quad_byte_not; [by vm_compute|]. by destruct (quad s). Qed.

Definition colon_pton (s : str) : option (list Z) :=
  if bool_decide (s = "fd00::7"%str) then Some (253 :: replicate 14 0 ++ [7]) else None.

Lemma colon_pton_text s o : colon_pton s = Some o -> ":"%char ∈ s.
Proof. unfold colon_pton. case_bool_decide as E; [|done]. intros _. subst s. apply (bool_decide_unpack _). by vm_compute. Qed.

Lemma proxy_enforced_witness :
  let snapshot := mkResolved Explicit "http://proxy:1" true [] (mkBypass true [] true true false false false [] [] []) in
  apply_curl_proxy_policy (resolveProxyRoute quad_pton colon_pton None true "public" (fun _ => []) snapshot
    "http://[fd00::7]/" TrustedConfig) "http://[fd00::7]/" =
    Some ([CURLOPT_PROXY "http://proxy:1"; CURLOPT_NOPROXY "fd00::7/128"], "http://[fd00::7]/"%str) /\
  exempts quad_pton colon_pton "fd00::7" "fd00::7/128".
Proof.
  intros snapshot. split; [by vm_compute|].
  destruct (proxy_enforced quad_pton colon_pton None true "public" (fun _ => []) quad_pton_text colon_pton_text snapshot
    "http://[fd00::7]/" TrustedConfig _ _ eq_refl)
    as (_ & _ & entry & Ho & [->|(_ & host & rule & text & Hh & _ & Hx & He)]); [by vm_compute in Ho|].
  assert (host = "fd00::7"%str) as -> by (by vm_compute in Hh; injection Hh as <-). by vm_compute.
Defined.
