(* ===== verification/FetchIdentity.v ===== *)
(** * handler/webget.cpp: identities of fetches, and the fallback of GitHub files

    The texts under which fetches are shared and cached, and the jsDelivr URL
    of a file on GitHub. *)

From S2P Require Import Prelude Str StringUtil ProxyPolicy FetchGuard.
Open Scope str_scope.
Local Open Scope Z_scope.

(** ** The identities *)

(** src/src/utils/map_extra.h:8-20 [strICaseComp]
    Names that are equal for the map. *)
Definition icase_eq (lhs rhs : str) : bool := bool_decide (toLower lhs = toLower rhs).
(** [contains] of a [string_icase_map], the list of its entries in order. *)
Definition icase_contains (headers : list (str * str)) (name : str) : bool :=
  existsb (fun h => icase_eq h.1 name) headers.

Definition user_agent_str : str := "clash.meta".

(** A text behind its length. *)
Definition sized (s : str) : str := to_string (Z.of_nat (length s)) ++ ":" ++ s.

(** src/src/handler/webget.cpp:792-820 [build_cache_key]
    The text that is digested. *)
Definition cache_key_identity (url : str) (route : ResolvedProxyRoute) (request_headers : option (list (str * str))) : str :=
  if bool_decide (rmode (proxy route) = Direct) && match request_headers with None | Some [] => true | _ => false end
  then url
  else
    "url:" ++ sized url ++ newline ++ "proxy:" ++ sized (route_identity route) ++ newline ++ "headers:" ++
    match request_headers with
    | None => []
    | Some hs =>
        (hs ≫= fun h => newline ++ toLower h.1 ++ ":" ++ sized h.2) ++
        (if icase_contains hs "User-Agent" then [] else newline ++ "user-agent:" ++ sized user_agent_str)
    end.

(** src/src/handler/webget.h:142-160 [OwnedWebGetRequest]
    The members a fetch is shared by. *)
Record FetchKey := mkFetchKey {
  context : FetchContext; cache_ttl : Z; capture_response_headers : bool;
  has_request_headers : bool; request_headers : list (str * str)
}.

(** Of the settings: whether certificates are checked, the limit of a
    download and the number of the configuration. *)
Record FetchSettings := mkFetchSettings { allowInsecureTls : bool; maxAllowedDownloadSize : Z; configGeneration : Z }.

(** [std::to_string] of a signed number. *)
Definition signed (z : Z) : str := if z <? 0 then "-" ++ to_string (- z) else to_string z.

(** src/src/handler/webget.cpp:822-849 [build_async_disk_cache_identity] *)
Definition build_async_disk_cache_identity (s : FetchSettings) (request : FetchKey) (effective_url : str)
    (route : ResolvedProxyRoute) : str :=
  "url:" ++ sized effective_url ++ newline ++ "route:" ++ sized (route_identity route) ++
  newline ++ "context:" ++ to_string (match context request with TrustedConfig => 0 | PublicRequest => 1 end) ++
  newline ++ "tls:" ++ to_string (Z.b2z (allowInsecureTls s)) ++
  newline ++ "max-download:" ++ signed (maxAllowedDownloadSize s) ++
  (request_headers request ≫= fun h => newline ++ "header:" ++ sized (toLower h.1) ++ ":" ++ sized h.2) ++
  (if negb (has_request_headers request) || negb (icase_contains (request_headers request) "User-Agent")
   then newline ++ "default-user-agent:" ++ user_agent_str else []).

(** src/src/handler/webget.cpp:851-861 [build_async_cache_identity] *)
Definition build_async_cache_identity (s : FetchSettings) (request : FetchKey) (effective_url : str)
    (route : ResolvedProxyRoute) : str :=
  build_async_disk_cache_identity s request effective_url route ++
  newline ++ "generation:" ++ to_string (configGeneration s) ++
  newline ++ "ttl:" ++ to_string (cache_ttl request) ++
  newline ++ "headers-captured:" ++ to_string (Z.b2z (capture_response_headers request)).

(** ** GitHub files *)

(** src/src/handler/webget.cpp:323-329 [GitHubFileRef] *)
Record GitHubFileRef := mkFileRef { owner : str; repo : str; ref : str; fpath : str }.

(** src/src/handler/webget.cpp:863-869 [strip_url_query_fragment] *)
Definition strip_url_query_fragment (url : str) : str :=
  match index_if (one_of "?#") url with None => url | Some pos => take pos url end.

(** src/src/handler/webget.cpp:875-880 [join_path_segments, loop] *)
Definition join_segment (result segment : str) : str :=
  (if bool_decide (result = []) then result else result ++ "/") ++ segment.

(** src/src/handler/webget.cpp:871-882 [join_path_segments]
    The callers keep the indices within the list. *)
Definition join_path_segments (segments : list str) (start end_ : nat) : str :=
  foldl join_segment [] (take (end_ - start) (drop start segments)).

(** The segment at an index the code has checked. *)
Definition segment (segments : list str) (i : nat) : str := nth i segments [].

(** src/src/handler/webget.cpp:884-908 [split_github_ref_path] *)
Definition split_github_ref_path (segments : list str) (ref_start : nat) : option (str * str) :=
  if (length segments <=? ref_start + 1)%nat then None
  else
    let parts :=
      if bool_decide (segment segments ref_start = "refs")
         && (bool_decide (segment segments (ref_start + 1) = "heads") || bool_decide (segment segments (ref_start + 1) = "tags"))
      then if (length segments <=? ref_start + 3)%nat then None
           else Some (join_path_segments segments ref_start (ref_start + 3), (ref_start + 3)%nat)
      else Some (segment segments ref_start, (ref_start + 1)%nat) in
    match parts with
    | None => None
    | Some (ref, path_start) =>
        if (length segments <=? path_start)%nat then None
        else
          let path := join_path_segments segments path_start (length segments) in
          if negb (bool_decide (ref = [])) && negb (bool_decide (path = [])) then Some (ref, path) else None
    end.

(** The text behind the first of the prefixes the URL begins with. *)
Definition after_prefix (url https_prefix http_prefix : str) : option str :=
  if startsWith url https_prefix then Some (drop (length https_prefix) url)
  else if startsWith url http_prefix then Some (drop (length http_prefix) url)
  else None.

Definition file_ref (segments : list str) (ref_start : nat) : option GitHubFileRef :=
  rp ← split_github_ref_path segments ref_start;
  Some (mkFileRef (segment segments 0) (segment segments 1) rp.1 rp.2).

(** src/src/handler/webget.cpp:910-931 [parse_raw_githubusercontent_url] *)
Definition parse_raw_githubusercontent_url (url : str) : option GitHubFileRef :=
  content_path ← after_prefix url "https://raw.githubusercontent.com/" "http://raw.githubusercontent.com/";
  segments ← split content_path "/";
  if (length segments <? 4)%nat then None else file_ref segments 2.

(** src/src/handler/webget.cpp:933-955 [parse_github_file_url] *)
Definition parse_github_file_url (url : str) : option GitHubFileRef :=
  content_path ← after_prefix url "https://github.com/" "http://github.com/";
  segments ← split content_path "/";
  if (length segments <? 5)%nat then None
  else if negb (bool_decide (segment segments 2 = "raw")) && negb (bool_decide (segment segments 2 = "blob")) then None
  else file_ref segments 3.

(** src/src/handler/webget.cpp:957-970 [build_jsdelivr_github_url] *)
Definition build_jsdelivr_github_url (url : str) : option str :=
  let clean_url := strip_url_query_fragment url in
  f ← match parse_raw_githubusercontent_url clean_url with
      | Some f => Some f
      | None => parse_github_file_url clean_url
      end;
  let scheme := if startsWith clean_url "http://" then "http" else "https" in
  Some (scheme ++ "://cdn.jsdelivr.net/gh/" ++ owner f ++ "/" ++ repo f ++ "@" ++ ref f ++ "/" ++ fpath f).

(** ** Identities of fetches *)

(** The texts whose length the program can represent. *)
Definition fits (s : str) : Prop := is_u64 (Z.of_nat (length s)).

Lemma sized_run a b s t : fits a -> fits b -> sized a ++ s = sized b ++ t -> a = b /\ s = t.
Proof.
  intros Ha Hb E. unfold sized in E. rewrite <- !app_assoc in E. apply to_string_run in E as [El E]; [|done..].
  injection E as E. apply Nat2Z.inj in El. by apply app_inj_1 in E.
Qed.

Definition is_i64 (z : Z) : Prop := - 2 ^ 63 <= z < 2 ^ 63.

Lemma signed_run n m s t : is_i64 n -> is_i64 m -> no_digit_first s -> no_digit_first t ->
  signed n ++ s = signed m ++ t -> n = m /\ s = t.
Proof.
  unfold is_i64, signed. intros Hn Hm Hs Ht E.
  assert (Hminus : forall k u v, is_u64 k -> "-" ++ u = to_string k ++ v -> False).
  { intros k u v Hk Ek. destruct (to_string_ok k Hk) as (Hd & Hne & _). destruct (to_string k) as [|c l]; [done|].
    injection Ek as <- _. by apply Forall_cons in Hd as [Hd _]. }
  assert (is_u64 (Z.abs n) /\ is_u64 (Z.abs m)) as [? ?] by (unfold is_u64; lia).
  destruct (Z.ltb_spec n 0), (Z.ltb_spec m 0); rewrite <- ?app_assoc in E.
  - injection E as E. apply to_string_run in E as [? ->]; [split; [lia|done]|unfold is_u64; lia..|done|done].
  - exfalso. apply (Hminus m _ _) in E; [done|]. unfold is_u64. lia.
  - exfalso. symmetry in E. apply (Hminus n _ _) in E; [done|]. unfold is_u64. lia.
  - apply to_string_run in E as [? ->]; [done|unfold is_u64; lia..|done|done].
Qed.

Definition header_line (h : str * str) : str := newline ++ "header:" ++ sized (toLower h.1) ++ ":" ++ sized h.2.
Definition lower_headers (hs : list (str * str)) : list (str * str) := (fun h => (toLower h.1, h.2)) <$> hs.

(** What follows the headers: a line that is none. *)
Definition no_header_first (s : str) : Prop := exists t, (s = newline ++ "d" ++ t \/ s = newline ++ "g" ++ t).

Lemma headers_run hs hs' s t :
  Forall (fun h => fits h.1 /\ fits h.2) hs -> Forall (fun h => fits h.1 /\ fits h.2) hs' ->
  no_header_first s -> no_header_first t ->
  (hs ≫= header_line) ++ s = (hs' ≫= header_line) ++ t -> lower_headers hs = lower_headers hs' /\ s = t.
Proof.
  assert (Hl : forall h k, header_line h ++ k = newline ++ "header:" ++ sized (toLower h.1) ++ ":" ++ sized h.2 ++ k).
  { intros h k. unfold header_line. by rewrite <- !app_assoc. }
  intros Hf. revert hs'. induction Hf as [|h hs [Hn Hv] Hf IH]; intros hs' Hf' Hs Ht E; destruct Hf' as [|h' hs' [Hn' Hv'] Hf'];
    rewrite ?bind_cons, <- ?app_assoc, ?Hl in E.
  - done.
  - exfalso. destruct Hs as (u & [-> | ->]); by injection E.
  - exfalso. destruct Ht as (u & [-> | ->]); by injection E.
  - do 2 (apply app_inj_1 in E as [_ E]; [|done]).
    apply sized_run in E as [En E]; [|by unfold fits, toLower in *; rewrite length_fmap..].
    apply app_inj_1 in E as [_ E]; [|done]. apply sized_run in E as [Ev E]; [|done..].
    destruct (IH hs' Hf' Hs Ht E) as [Eh ->]. unfold lower_headers in *. split; [|done]. by rewrite !fmap_cons, En, Ev, <- Eh.
Qed.

Definition sends_default_agent (r : FetchKey) : bool :=
  negb (has_request_headers r) || negb (icase_contains (request_headers r) "User-Agent").

(** The settings, request, URL and route are such as the program has them:
    numbers of their width, texts of a length it can represent, the endpoint
    of the proxy on one line. *)
Record identity_ok (s : FetchSettings) (r : FetchKey) (url : str) (route : ResolvedProxyRoute) : Prop := {
  ok_limit : is_i64 (maxAllowedDownloadSize s); ok_generation : is_u64 (configGeneration s); ok_ttl : is_u64 (cache_ttl r);
  ok_url : fits url; ok_route : fits (route_identity route);
  ok_headers : Forall (fun h => fits h.1 /\ fits h.2) (request_headers r);
  ok_endpoint : one_line (rendpoint (proxy route))
}.

Lemma route_identity_run r r' : one_line (rendpoint (proxy r)) -> one_line (rendpoint (proxy r')) ->
  route_identity r = route_identity r' -> rmode (proxy r) = rmode (proxy r') /\ rendpoint (proxy r) = rendpoint (proxy r').
Proof.
  intros Ho Ho' E. unfold route_identity, cacheIdentity in E. rewrite <- !app_assoc in E.
  do 2 (apply app_inj_1 in E as [_ E]; [|done]).
  assert (G : forall a b s t : str, one_line a -> one_line b -> a ++ newline ++ s = b ++ newline ++ t -> a = b /\ s = t).
  { intros a b s t Ha Hb Eab. change (newline ++ s) with ("010"%char :: s) in Eab. change (newline ++ t) with ("010"%char :: t) in Eab.
    by apply split_first in Eab. }
  apply G in E as [Em E]; [|apply mode_name_ok..]. apply G in E as [Ee _]; [|done..]. by apply mode_name_inj in Em.
Qed.

(** C32: Asynchronous requests share a fetch only when they ask for the same: equal
    identities come from the same URL, proxy mode and endpoint, routing
    decision, trust context, certificate checks, download limit, headers up to
    the case of their names, configuration and lifetime. *)
Theorem async_identity_determines s r url route s' r' url' route' :
  identity_ok s r url route -> identity_ok s' r' url' route' ->
  build_async_cache_identity s r url route = build_async_cache_identity s' r' url' route' ->
  url = url' /\ route_identity route = route_identity route' /\
  rmode (proxy route) = rmode (proxy route') /\ rendpoint (proxy route) = rendpoint (proxy route') /\
  context r = context r' /\ s = s' /\ lower_headers (request_headers r) = lower_headers (request_headers r') /\
  sends_default_agent r = sends_default_agent r' /\ cache_ttl r = cache_ttl r' /\
  capture_response_headers r = capture_response_headers r' /\
  build_async_disk_cache_identity s r url route = build_async_disk_cache_identity s' r' url' route'.
Proof.
  intros [Hl Hg Ht Hu Hr Hh He] [Hl' Hg' Ht' Hu' Hr' Hh' He'] E.
  unfold build_async_cache_identity, build_async_disk_cache_identity in *.
  fold (sends_default_agent r) in *. fold (sends_default_agent r') in *. fold header_line in *.
  rewrite <- !app_assoc in E. apply app_inj_1 in E as [_ E]; [|done]. apply sized_run in E as [-> E]; [|done..].
  do 2 (apply app_inj_1 in E as [_ E]; [|done]). apply sized_run in E as [Er E]; [|done..].
  destruct (route_identity_run _ _ He He' Er) as [Em Ee]. rewrite Er.
  do 2 (apply app_inj_1 in E as [_ E]; [|done]). apply to_string_run in E as [Ec E]; [|by destruct (context r)|by destruct (context r')|done..].
  do 2 (apply app_inj_1 in E as [_ E]; [|done]). apply to_string_run in E as [Et E]; [|by destruct (allowInsecureTls s)|by destruct (allowInsecureTls s')|done..].
  do 2 (apply app_inj_1 in E as [_ E]; [|done]).
  assert (Hlines : forall hs k, no_digit_first k -> no_digit_first ((hs ≫= header_line) ++ k)) by (by intros [|h hs] k Hk).
  assert (Hagent : forall (b : bool) k, no_digit_first k -> no_digit_first ((if b then newline ++ "default-user-agent:" ++ user_agent_str else []) ++ k)) by (by intros [] k Hk).
  apply signed_run in E as [El E]; [|done|done|by apply Hlines, Hagent|by apply Hlines, Hagent].
  assert (Hnext : forall (b : bool) k, no_header_first
    ((if b then newline ++ "default-user-agent:" ++ user_agent_str else []) ++ newline ++ "generation:" ++ k)).
  { intros [] k; [exists ("efault-user-agent:" ++ user_agent_str ++ newline ++ "generation:" ++ k); by left|].
    exists ("eneration:" ++ k). by right. }
  apply headers_run in E as [Eh E]; [|done|done|apply Hnext..].
  assert (sends_default_agent r = sends_default_agent r') as Ed.
  { destruct (sends_default_agent r), (sends_default_agent r'); try done; cbn [app] in E; by injection E. }
  rewrite Ed in E. apply app_inv_head in E.
  do 2 (apply app_inj_1 in E as [_ E]; [|done]). apply to_string_run in E as [Eg E]; [|done..].
  do 2 (apply app_inj_1 in E as [_ E]; [|done]). apply to_string_run in E as [Ett E]; [|done..].
  do 2 (apply app_inj_1 in E as [_ E]; [|done]).
  assert (Hb : forall b b' : bool, to_string (Z.b2z b) = to_string (Z.b2z b') -> b = b') by (intros [] [] Eb; [done|by vm_compute in Eb..|done]).
  apply Hb in E. assert (context r = context r') as -> by (by destruct (context r), (context r')).
  assert (allowInsecureTls s = allowInsecureTls s') as Etl by (by destruct (allowInsecureTls s), (allowInsecureTls s')).
  assert (s = s') as -> by (destruct s, s'; simpl in *; congruence).
  assert (G : forall hs, (hs ≫= header_line) = (lower_headers hs ≫= header_line)).
  { intros hs. unfold lower_headers. induction hs as [|h hs IH]; [done|]. rewrite fmap_cons, !bind_cons, IH.
    unfold header_line. cbn [fst snd]. by rewrite toLower_idem. }
  split_and!; try done. by rewrite Ed, (G (request_headers r)), Eh, <- G.
Qed.

(** ** The fallback of GitHub files *)

Definition plain_segment (s : str) : Prop := s <> [] /\ Forall (fun c => one_of "/?#" c = false) s.

(** A branch, tag or commit of one segment, or the long form of a branch or
    tag. *)
Definition ref_ok (refs path : list str) : Prop :=
  (exists x, refs = [x] /\ (x = "refs"%str -> head path <> Some "heads"%str /\ head path <> Some "tags"%str)) \/
  (exists kind x, refs = ["refs"%str; kind; x] /\ (kind = "heads"%str \/ kind = "tags"%str)).

Lemma join_segments_acc l acc : acc <> [] -> Forall (fun s => s <> []) l ->
  foldl join_segment acc l = acc ++ concat ((fun s => "/" ++ s) <$> l).
Proof.
  intros Ha Hl. revert acc Ha. induction Hl as [|s l Hs Hl IH]; intros acc Ha; csimpl; [by rewrite app_nil_r|].
  unfold join_segment at 2. rewrite bool_decide_false by done. rewrite IH by (by destruct acc). by rewrite <- !app_assoc.
Qed.

Lemma join_segments l : Forall (fun s => s <> []) l -> foldl join_segment [] l = join l "/".
Proof.
  intros Hl. destruct Hl as [|s l Hs Hl]; [done|]. cbn [foldl]. unfold join_segment at 2. rewrite bool_decide_true by done.
  cbn [app]. rewrite join_segments_acc by done. by rewrite join_concat.
Qed.

Lemma plain_nonempty l : Forall plain_segment l -> Forall (fun s => s <> []) l.
Proof. intros Hl. eapply Forall_impl; [exact Hl|]. by intros s [Hs _]. Qed.

Lemma split_segments l : l <> [] -> Forall plain_segment l -> split (join l "/") "/" = Some l.
Proof.
  intros Hne Hl. assert (Hf : fields "/" (join l "/") = l).
  { apply fields_join; [done|]. eapply Forall_impl; [exact Hl|]. intros s [_ Hs] Hin. rewrite Forall_forall in Hs. by apply Hs in Hin. }
  rewrite <- Hf at 2. apply split_fields. rewrite Hf. by apply plain_nonempty.
Qed.

Lemma split_ref pre refs path : Forall plain_segment (refs ++ path) -> path <> [] -> ref_ok refs path ->
  split_github_ref_path (pre ++ refs ++ path) (length pre) = Some (join refs "/", join path "/").
Proof.
  intros Hf Hp Hr. apply Forall_app in Hf as [Hfr Hfp].
  assert (Hseg : forall k, segment (pre ++ refs ++ path) (length pre + k) = nth k (refs ++ path) []).
  { intros k. unfold segment. by rewrite app_nth2_plus. }
  assert (Hj : forall a b, join_path_segments (pre ++ refs ++ path) (length pre + a) (length pre + b) =
     foldl join_segment [] (take (b - a) (drop a (refs ++ path)))).
  { intros a b. unfold join_path_segments. rewrite <- drop_drop, drop_app_length. do 2 f_equal. lia. }
  assert (Hnj : forall l, Forall plain_segment l -> l <> [] -> join l "/" <> []).
  { intros l Hl Hne E. destruct l as [|f l]; [done|]. rewrite join_concat in E. apply app_eq_nil in E as [-> _].
    by apply Forall_cons in Hl as [[? _] _]. }
  assert (Hl : (1 <= length path)%nat) by (destruct path; simpl; [done|lia]).
  assert (Hre : refs <> []) by (by destruct Hr as [(x & -> & _)|(k & x & -> & _)]).
  assert (Hpath : join_path_segments (pre ++ refs ++ path) (length pre + length refs) (length (pre ++ refs ++ path)) = join path "/").
  { replace (length (pre ++ refs ++ path)) with (length pre + length (refs ++ path))%nat by (by rewrite !length_app).
    rewrite Hj, drop_app_length, take_ge by (rewrite ?length_app; lia). by apply join_segments, plain_nonempty. }
  unfold split_github_ref_path. destruct (Nat.leb_spec (length (pre ++ refs ++ path)) (length pre + 1)) as [Hle|_].
  { rewrite !length_app in Hle. destruct refs; [done|]. simpl in Hle. lia. }
  pose proof (Hseg 0%nat) as H0. rewrite Nat.add_0_r in H0. rewrite H0, (Hseg 1%nat).
  assert (Hfin : (length pre + length refs < length (pre ++ refs ++ path))%nat) by (rewrite !length_app; lia).
  destruct Hr as [(x & -> & Hx)|(kind & x & -> & Hk)]; cbn [app nth].
  - assert (bool_decide (x = "refs"%str) && (bool_decide (nth 0 path [] = "heads"%str) || bool_decide (nth 0 path [] = "tags"%str)) = false) as ->.
    { case_bool_decide as Ex; [|done]. destruct path as [|p path]; [done|]. destruct (Hx Ex) as [H1 H2]. cbn [nth].
      rewrite !bool_decide_false; [done|..]; intros ->; [by apply H2|by apply H1]. }
    cbn [app length] in *. cbn zeta iota. destruct (Nat.leb_spec (length (pre ++ x :: path)) (length pre + 1)); [lia|].
    rewrite Hpath. rewrite !bool_decide_false; [done|by apply Hnj|by apply Forall_cons in Hfr as [[? _] _]].
  - assert (bool_decide (kind = "heads"%str) || bool_decide (kind = "tags"%str) = true) as ->.
    { destruct Hk as [-> | ->]; by vm_compute. }
    rewrite (bool_decide_true ("refs"%str = "refs"%str)) by done. cbn [andb length] in *. cbn [app] in *.
    destruct (Nat.leb_spec (length (pre ++ "refs"%str :: kind :: x :: path)) (length pre + 3)); [lia|]. cbn zeta iota.
    destruct (Nat.leb_spec (length (pre ++ "refs"%str :: kind :: x :: path)) (length pre + 3)); [lia|].
    rewrite Hpath. pose proof (Hj 0%nat 3%nat) as Hj0. rewrite Nat.add_0_r in Hj0. rewrite Hj0. cbn [Nat.sub drop take].
    rewrite (take_0 path), join_segments by (by apply plain_nonempty).
    rewrite !bool_decide_false; [done|by apply Hnj|by apply Hnj].
Qed.

Lemma plain_join l : Forall plain_segment l -> Forall (fun c => one_of "?#" c = false) (join l "/").
Proof.
  intros Hl. apply Forall_forall. intros c Hc. apply elem_of_join in Hc as [(f & Hf & Hcf)|Hc%list_elem_of_singleton]; [|by subst].
  rewrite Forall_forall in Hl. apply Hl in Hf as [_ Hf]. rewrite Forall_forall in Hf. apply Hf in Hcf. unfold one_of in *.
  apply bool_decide_eq_false in Hcf. apply bool_decide_eq_false. intros Hin. apply Hcf. by right.
Qed.

Lemma after_prefix_of scheme host content : http_scheme scheme -> toLower scheme = scheme ->
  after_prefix (scheme ++ "://" ++ host ++ "/" ++ content) ("https://" ++ host ++ "/") ("http://" ++ host ++ "/") = Some content.
Proof.
  intros Hs Hl. unfold http_scheme in Hs. rewrite Hl in Hs. unfold after_prefix, startsWith.
  assert (E : forall s : str, s ++ "://" ++ host ++ "/" ++ content = (s ++ "://" ++ host ++ "/") ++ content).
  { intros s. by rewrite <- !app_assoc. }
  rewrite E. destruct Hs as [-> | ->].
  - change (("http" ++ "://" ++ host ++ "/") ++ content) with (("http://" ++ host ++ "/") ++ content).
    assert (starts_with ("https://" ++ host ++ "/") (("http://" ++ host ++ "/") ++ content) = false) as -> by done.
    rewrite starts_with_app. by rewrite drop_app_length.
  - change (("https" ++ "://" ++ host ++ "/") ++ content) with (("https://" ++ host ++ "/") ++ content).
    rewrite starts_with_app. by rewrite drop_app_length.
Qed.

(** When fetching a file from GitHub fails, the fallback asks jsDelivr for the
    same file: owner, repository, reference (also in its long form) and path
    are carried over, query and fragment are not. *)
Theorem jsdelivr_fallback_exact scheme owner repo kind refs path tail :
  scheme = "http"%str \/ scheme = "https"%str ->
  Forall plain_segment ([owner; repo] ++ refs ++ path) -> path <> [] -> ref_ok refs path ->
  kind = "raw"%str \/ kind = "blob"%str -> match tail with [] => True | c :: _ => one_of "?#" c = true end ->
  let mirror := scheme ++ "://cdn.jsdelivr.net/gh/" ++ owner ++ "/" ++ repo ++ "@" ++ join refs "/" ++ "/" ++ join path "/" in
  build_jsdelivr_github_url (scheme ++ "://raw.githubusercontent.com/" ++ join ([owner; repo] ++ refs ++ path) "/" ++ tail)
    = Some mirror /\
  build_jsdelivr_github_url (scheme ++ "://github.com/" ++ join ([owner; repo; kind] ++ refs ++ path) "/" ++ tail)
    = Some mirror.
Proof.
  intros Hs Hf Hp Hr Hk Ht mirror. destruct (proj1 (Forall_app _ _ _) Hf) as [Hor Hrp].
  assert (Hk' : plain_segment kind).
  { destruct Hk as [-> | ->]; (split; [done|computed]). }
  assert (Hfk : Forall plain_segment ([owner; repo; kind] ++ refs ++ path)).
  { apply Forall_cons in Hor as [Ho Hor]. apply Forall_cons in Hor as [Hre _].
    by do 3 (apply Forall_cons; split; [done|]). }
  assert (Hhttp : http_scheme scheme /\ toLower scheme = scheme /\ Forall (fun c => one_of "?#" c = false) (scheme ++ "://")).
  { destruct Hs as [-> | ->]; (split_and!; [unfold http_scheme|done|computed]); [by left|by right]. }
  destruct Hhttp as (Hsch & Hlow & Hsb).
  assert (Hre : refs <> []) by (by destruct Hr as [(x & -> & _)|(k & x & -> & _)]).
  assert (Hstrip : forall host l, Forall (fun c => one_of "?#" c = false) host -> Forall plain_segment l ->
    strip_url_query_fragment (scheme ++ "://" ++ (host ++ "/") ++ join l "/" ++ tail) = scheme ++ "://" ++ host ++ "/" ++ join l "/").
  { intros host l Hh Hl. unfold strip_url_query_fragment.
    replace (scheme ++ "://" ++ (host ++ "/") ++ join l "/" ++ tail) with ((scheme ++ "://" ++ host ++ "/" ++ join l "/") ++ tail)
      by (by rewrite <- !app_assoc).
    apply index_if_take; [|done]. apply Forall_forall. rewrite Forall_app in Hsb. destruct Hsb. rewrite !Forall_app.
    split_and!; [done|done|done|computed|by apply plain_join]. }
  assert (Hscheme : forall rest : str, (if startsWith (scheme ++ "://" ++ rest) "http://" then "http"%str else "https"%str) = scheme).
  { intros rest. destruct Hs as [-> | ->]; done. }
  assert (Hlen : (2 <= length (refs ++ path))%nat).
  { rewrite length_app. destruct refs, path; simpl; try done; lia. }
  assert (Hfile : forall pre, file_ref (owner :: repo :: pre ++ refs ++ path) (length (owner :: repo :: pre)) =
    Some (mkFileRef owner repo (join refs "/") (join path "/"))).
  { intros pre. unfold file_ref. change (owner :: repo :: pre ++ refs ++ path) with ((owner :: repo :: pre) ++ refs ++ path).
    by rewrite split_ref by done. }
  split; unfold build_jsdelivr_github_url; cbv zeta.
  - change (scheme ++ "://raw.githubusercontent.com/" ++ join ([owner; repo] ++ refs ++ path) "/" ++ tail)
      with (scheme ++ "://" ++ ("raw.githubusercontent.com" ++ "/") ++ join ([owner; repo] ++ refs ++ path) "/" ++ tail).
    rewrite Hstrip; [|computed|done].
    unfold parse_raw_githubusercontent_url. rewrite (after_prefix_of scheme "raw.githubusercontent.com") by done.
    cbn [mbind option_bind]. rewrite split_segments by done. cbn [mbind option_bind].
    destruct (Nat.ltb_spec (length ([owner; repo] ++ refs ++ path)) 4) as [Hlt|_]; [rewrite length_app in Hlt; simpl in Hlt; lia|].
    rewrite (Hfile [] : file_ref ([owner; repo] ++ refs ++ path) 2 = _). cbn [mbind option_bind ref fpath FetchIdentity.owner FetchIdentity.repo]. by rewrite Hscheme.
  - change (scheme ++ "://github.com/" ++ join ([owner; repo; kind] ++ refs ++ path) "/" ++ tail)
      with (scheme ++ "://" ++ ("github.com" ++ "/") ++ join ([owner; repo; kind] ++ refs ++ path) "/" ++ tail).
    rewrite Hstrip; [|computed|done].
    assert (parse_raw_githubusercontent_url (scheme ++ "://" ++ "github.com" ++ "/" ++ join ([owner; repo; kind] ++ refs ++ path) "/") = None) as ->.
    { unfold parse_raw_githubusercontent_url, after_prefix, startsWith. destruct Hs as [-> | ->]; done. }
    unfold parse_github_file_url. rewrite (after_prefix_of scheme "github.com") by done.
    cbn [mbind option_bind]. rewrite split_segments by done. cbn [mbind option_bind].
    destruct (Nat.ltb_spec (length ([owner; repo; kind] ++ refs ++ path)) 5) as [Hlt|_]; [rewrite length_app in Hlt; simpl in Hlt; lia|].
    assert (negb (bool_decide (segment ([owner; repo; kind] ++ refs ++ path) 2 = "raw"%str)) &&
      negb (bool_decide (segment ([owner; repo; kind] ++ refs ++ path) 2 = "blob"%str)) = false) as ->.
    { destruct Hk as [-> | ->]; by vm_compute. }
    rewrite (Hfile [kind] : file_ref ([owner; repo; kind] ++ refs ++ path) 3 = _). cbn [mbind option_bind ref fpath FetchIdentity.owner FetchIdentity.repo]. by rewrite Hscheme.
Qed.

Lemma jsdelivr_fallback_exact_witness :
  build_jsdelivr_github_url "https://github.com/o/r/blob/refs/heads/main/a/b.list?x=1" =
  Some "https://cdn.jsdelivr.net/gh/o/r@refs/heads/main/a/b.list"%str.
Proof.
  refine (proj2 (jsdelivr_fallback_exact "https" "o" "r" "blob" ["refs"; "heads"; "main"] ["a"; "b.list"] "?x=1" _ _ _ _ _ _)).
  - by right.
  - repeat constructor; done.
  - done.
  - right. exists "heads"%str, "main"%str. split; [done|by left].
  - by right.
  - by vm_compute.
Defined.

Definition example_settings : FetchSettings := mkFetchSettings false 1048576 7.
Definition example_request (name : str) : FetchKey := mkFetchKey PublicRequest 300 true true [(name, "x"%str)].
Definition example_route : ResolvedProxyRoute :=
  mkRoute (mkResolved Explicit "http://proxy:1" true [] default_bypass) ForceProxy [] [] [] [].

Lemma async_identity_determines_witness :
  build_async_cache_identity example_settings (example_request "Accept") "https://a/" example_route <>
  build_async_cache_identity example_settings (example_request "Accept") "https://b/" example_route.
Proof.
  assert (Hok : forall url, fits url -> identity_ok example_settings (example_request "Accept") url example_route).
  { intros url Hu. split; try done; [by repeat constructor|unfold one_line; computed]. }
  intros E. destruct (async_identity_determines _ _ _ _ _ _ _ _ (Hok _ ltac:(done)) (Hok _ ltac:(done)) E) as [E' _]. done.
Defined.

