(* ===== verification/CacheFetch.v ===== *)
(** * handler/webget.cpp: fetches shared by their consumers

    A fetch of a cached URL is an operation in a registry: the request that
    does not find one becomes its owner, the others attach.  An operation ends
    once, with a payload or an exception; an asynchronous consumer subscribes a
    callback.  One that loses its last consumer before it ended is abandoned
    and its work cancelled.  [World] is the registry of the asynchronous
    operations with the threads that work on them, each a stack of frames; a
    critical section or an atomic exchange is one step.  A failing allocation
    is not modelled. *)

From S2P Require Import Prelude Str RequestContext.
Open Scope Z_scope.

(** src/src/handler/webget.h:69-81 [AsyncFetchFailure] *)
Inductive AsyncFetchFailure :=
| FailNone | FailCancelled | FailDeadline | FailSizeLimit | FailCapacity | FailDns | FailTls | FailProxy | FailTransport
| FailShutdown.
#[export] Instance AsyncFetchFailure_eq_dec : EqDecision AsyncFetchFailure. Proof. solve_decision. Defined.

(** ** One operation *)

Section Operation.
(** What an exception carries. *)
Context {E : Type}.

(** src/src/handler/webget.h:172-180 [OwnedWebGetAsyncPayload] *)
Record Payload := mkPayload { status_code : Z; failure : AsyncFetchFailure; content : str; response_headers : str }.

(** src/src/handler/webget.cpp:154-160 [CacheFetchOperation::AttachResult] *)
Inductive AttachResult := Attached | Completed | Abandoned | Retired.
#[export] Instance AttachResult_eq_dec : EqDecision AttachResult. Proof. solve_decision. Defined.

(** src/src/handler/webget.cpp:308-321 [CacheFetchOperation]
    A callback is named by the consumer it completes.  [work_cancelled] is
    whether the work was cancelled for want of consumers, which is the only
    reason its source is ever cancelled for. *)
Record Operation := mkOperation {
  done_ : bool; abandoned_ : bool; consumers_ : Z; next_callback_id_ : Z; work_cancelled : bool;
  cache_persistence_claimed_ : bool; payload_ : option Payload; error_ : option E; callbacks_ : gmap Z nat
}.

Definition new_operation : Operation := mkOperation false false 0 1 false false None None ∅.

(** A result that later consumers may have. *)
Definition reusable (payload : option Payload) (error : option E) : bool :=
  match error, payload with
  | None, Some p => (status_code p =? 200) && bool_decide (failure p = FailNone)
  | _, _ => false
  end.

(** src/src/handler/webget.cpp:173-189 [CacheFetchOperation::attachConsumer] *)
Definition attachConsumer (o : Operation) : Operation * AttachResult :=
  if done_ o then (o, if reusable (payload_ o) (error_ o) then Completed else Retired)
  else if abandoned_ o then (o, Abandoned)
  else (mkOperation (done_ o) (abandoned_ o) (u64 (consumers_ o + 1)) (next_callback_id_ o) (work_cancelled o)
          (cache_persistence_claimed_ o) (payload_ o) (error_ o) (callbacks_ o), Attached).

(** src/src/handler/webget.cpp:191-202 [CacheFetchOperation::releaseConsumer, critical section]
    Also returned: whether the work is to be cancelled. *)
Definition releaseConsumer (o : Operation) : Operation * bool :=
  if consumers_ o =? 0 then (o, false)
  else
    let n := consumers_ o - 1 in
    let cancel := (n =? 0) && negb (done_ o) in
    (mkOperation (done_ o) (abandoned_ o || cancel) n (next_callback_id_ o) (work_cancelled o)
       (cache_persistence_claimed_ o) (payload_ o) (error_ o) (callbacks_ o), cancel).

(** src/src/handler/webget.cpp:203-204 [CacheFetchOperation::releaseConsumer, cancellation] *)
Definition cancel_work (o : Operation) : Operation :=
  mkOperation (done_ o) (abandoned_ o) (consumers_ o) (next_callback_id_ o) true (cache_persistence_claimed_ o)
    (payload_ o) (error_ o) (callbacks_ o).

(** src/src/handler/webget.cpp:217-227 [CacheFetchOperation::wait]
    Nothing while the caller sleeps; then the exception or the payload. *)
Definition wait (o : Operation) : option (E + option Payload) :=
  if done_ o then Some (match error_ o with Some e => inl e | None => inr (payload_ o) end) else None.

(** src/src/handler/webget.cpp:229-250 [CacheFetchOperation::subscribe]
    The identifier, and whether the callback is run at once. *)
Definition subscribe (callback : nat) (o : Operation) : Operation * Z * bool :=
  if abandoned_ o then (o, 0, false)
  else if negb (done_ o) then
    (mkOperation (done_ o) (abandoned_ o) (consumers_ o) (u64 (next_callback_id_ o + 1)) (work_cancelled o)
       (cache_persistence_claimed_ o) (payload_ o) (error_ o)
       (match callbacks_ o !! next_callback_id_ o with
        | Some _ => callbacks_ o                   (* emplace keeps an existing entry *)
        | None => <[next_callback_id_ o := callback]> (callbacks_ o)
        end), next_callback_id_ o, false)
  else (o, 0, true).

(** src/src/handler/webget.cpp:252-258 [CacheFetchOperation::unsubscribe] *)
Definition unsubscribe (id : Z) (o : Operation) : Operation * bool :=
  if id =? 0 then (o, false)
  else (mkOperation (done_ o) (abandoned_ o) (consumers_ o) (next_callback_id_ o) (work_cancelled o)
          (cache_persistence_claimed_ o) (payload_ o) (error_ o) (delete id (callbacks_ o)),
        bool_decide (is_Some (callbacks_ o !! id))).

(** src/src/handler/webget.cpp:289-305 [CacheFetchOperation::finish]
    Nothing when the operation has ended before, otherwise the callbacks to be
    run, in the order of their identifiers; the code's order is unspecified. *)
Definition finish (payload : option Payload) (error : option E) (o : Operation) : option (Operation * list nat) :=
  if done_ o then None
  else Some (mkOperation true (abandoned_ o) (consumers_ o) (next_callback_id_ o) (work_cancelled o)
               (cache_persistence_claimed_ o) payload error ∅, (map_to_list (callbacks_ o)).*2).

(** src/src/handler/webget.cpp:260-263 [CacheFetchOperation::publish] *)
Definition publish (payload : option Payload) (o : Operation) : option (Operation * list nat) := finish payload None o.

(** src/src/handler/webget.cpp:265-268 [CacheFetchOperation::publishException] *)
Definition publishException (error : E) (o : Operation) : option (Operation * list nat) := finish None (Some error) o.

(** src/src/handler/webget.cpp:270-275 [CacheFetchOperation::claimCachePersistence] *)
Definition claimCachePersistence (requested : bool) (o : Operation) : Operation * bool :=
  if requested then
    (mkOperation (done_ o) (abandoned_ o) (consumers_ o) (next_callback_id_ o) (work_cancelled o) true
       (payload_ o) (error_ o) (callbacks_ o), negb (cache_persistence_claimed_ o))
  else (o, false).

(** ** Consumers *)

(** src/src/handler/webget.cpp:3949-3960 [OwnedWebGetAsyncConsumer] *)
Record Consumer := mkConsumer {
  operation : option nat; subscription_id : Z; operation_attached : bool; subscription_detached : bool;
  completion_claimed : bool
}.
Definition new_consumer : Consumer := mkConsumer None 0 false false false.

(** src/src/handler/webget.cpp:3973-3983 [detachOwnedWebGetAsyncConsumer, critical section]
    What it takes from the consumer: operation, subscription and attachment. *)
Definition detach (c : Consumer) : option (Consumer * option nat * Z * bool) :=
  if subscription_detached c then None
  else Some (mkConsumer None 0 false true (completion_claimed c), operation c, subscription_id c, operation_attached c).

(** src/src/handler/webget.cpp:3990-4004 [attachOwnedWebGetAsyncConsumer] *)
Definition bind (o : nat) (attached : bool) (c : Consumer) : option Consumer :=
  if subscription_detached c || completion_claimed c then None
  else Some (mkConsumer (Some o) (subscription_id c) attached (subscription_detached c) (completion_claimed c)).

(** src/src/handler/webget.cpp:4006-4023 [setOwnedWebGetAsyncSubscription]
    Whether the subscription has to be taken back. *)
Definition set_subscription (o : nat) (id : Z) (c : Consumer) : Consumer * bool :=
  if id =? 0 then (c, false)
  else if subscription_detached c || negb (bool_decide (operation c = Some o)) then (c, true)
  else (mkConsumer (operation c) id (operation_attached c) (subscription_detached c) (completion_claimed c), false).

(** src/src/handler/webget.cpp:4029-4031 [completeOwnedWebGetAsyncConsumer, exchange] *)
Definition claim (c : Consumer) : option Consumer :=
  if completion_claimed c then None
  else Some (mkConsumer (operation c) (subscription_id c) (operation_attached c) (subscription_detached c) true).

End Operation.
Arguments Operation E : clear implicits.

(** The result of an operation that has ended is final. *)
Lemma result_final {E} (o : Operation E) r : wait o = Some r ->
  wait (attachConsumer o).1 = Some r /\ wait (releaseConsumer o).1 = Some r /\ wait (cancel_work o) = Some r /\
  (forall c, wait (subscribe c o).1.1 = Some r) /\ (forall id, wait (unsubscribe id o).1 = Some r) /\
  (forall b, wait (claimCachePersistence b o).1 = Some r) /\ (forall p e, finish p e o = None).
Proof.
  unfold wait. destruct (done_ o) eqn:Hd; [|done]. intros Hr.
  unfold attachConsumer, releaseConsumer, subscribe, unsubscribe, claimCachePersistence, finish. rewrite Hd.
  split_and!; intros; cbn -[reusable]; rewrite ?Hd; try done.
  - destruct (consumers_ o =? 0); cbn; by rewrite ?Hd.
  - destruct (abandoned_ o); cbn; by rewrite ?Hd.
  - destruct (id =? 0); cbn; by rewrite ?Hd.
  - destruct b; cbn; by rewrite ?Hd.
Qed.

Section Fetches.
Context {E : Type}.

(** ** Threads *)

(** What a thread still has to do for a consumer [c] of the URL with registry
    key [k] and operation [o].  A thread is a stack of frames. *)
Inductive frame :=
(* webGetOwnedAsync *)
| FBegin (c : nat) (k : str)
| FLookup (c : nat) (k : str)
| FAttach (c : nat) (k : str) (o : nat) (owner : bool)
| FErase (k : str) (o : nat)
| FBind (c : nat) (k : str) (o : nat) (owner attached : bool)
| FSubscribe (c : nat) (k : str) (o : nat) (owner : bool)
| FSetSubscription (c : nat) (k : str) (o : nat) (owner : bool) (id : Z)
(* the owner's work *)
| FWork (k : str) (o : nat)
| FFinalize (k : str) (o : nat) (payload : Payload)
| FPublish (k : str) (o : nat) (payload : option Payload) (error : option E) (erase_anyway : bool)
| FCallbacks (cs : list nat)
(* completeOwnedWebGetAsyncConsumer *)
| FComplete (c : nat)
| FDetach (c : nat)
| FUnsubscribe (o : nat) (id : Z)
| FRelease (o : nat)
| FCancelWork (o : nat)
| FRun (c : nat).

(** The registry of asynchronous operations, the operations and consumers that
    were created, and the consumers whose completion has run. *)
Record Shared := mkShared {
  cache_fetches : gmap str nat; ops : list (Operation E); consumers : list Consumer; completed : list nat
}.

Definition set_op (o : nat) (x : Operation E) (s : Shared) : Shared :=
  mkShared (cache_fetches s) (<[o := x]> (ops s)) (consumers s) (completed s).
Definition set_consumer (c : nat) (x : Consumer) (s : Shared) : Shared :=
  mkShared (cache_fetches s) (ops s) (<[c := x]> (consumers s)) (completed s).

(** src/src/handler/webget.cpp:4110-4119 [eraseAsyncOwnedCacheFetch, critical section] *)
Definition erase_entry (k : str) (o : nat) (s : Shared) : Shared :=
  if bool_decide (cache_fetches s !! k = Some o)
  then mkShared (delete k (cache_fetches s)) (ops s) (consumers s) (completed s) else s.

(** src/src/handler/webget.cpp:4662-4677 [webGetOwnedAsync, registry]
    The operation, and whether the caller owns it. *)
Definition find_or_create (k : str) (s : Shared) : Shared * nat * bool :=
  match cache_fetches s !! k with
  | Some o => (s, o, false)
  | None => (mkShared (<[k := length (ops s)]> (cache_fetches s)) (ops s ++ [new_operation]) (consumers s) (completed s),
             length (ops s), true)
  end.

Definition cancelled_payload : Payload := mkPayload 0 FailCancelled [] [].

(** Frames that only some branches have. *)
Definition when (b : bool) (f : frame) : list frame := if b then [f] else [].

(** src/src/handler/webget.cpp:4658-4757 [webGetOwnedAsync, one step of a frame]
    The frame on top of a stack is replaced by frames, and stacks of new
    threads may appear.  The other frames are those of
    completeOwnedWebGetAsyncConsumer, of the owner's work, of which only the
    result is seen, of commitOrServeStaleAsyncOwnedCache, which replaces it
    when the work was cancelled, and of publishAsyncOwnedCachePayload and
    publishAsyncOwnedCacheException.  Identifiers and counts stay below 2^64. *)
Inductive exec : Shared -> frame -> Shared -> list frame -> list (list frame) -> Prop :=
| e_begin_claimed c k x s : consumers s !! c = Some x -> completion_claimed x = true -> exec s (FBegin c k) s [] []
| e_begin c k x s : consumers s !! c = Some x -> completion_claimed x = false -> exec s (FBegin c k) s [FLookup c k] []
| e_lookup c k s s' o owner : find_or_create k s = (s', o, owner) -> exec s (FLookup c k) s' [FAttach c k o owner] []
| e_attach c k o owner x x' r s : ops s !! o = Some x -> attachConsumer x = (x', r) -> r = Attached \/ r = Completed ->
    consumers_ x + 1 < 2 ^ 64 ->
    exec s (FAttach c k o owner) (set_op o x' s) [FBind c k o owner (bool_decide (r = Attached))] []
| e_retry c k o owner x x' r s : ops s !! o = Some x -> attachConsumer x = (x', r) -> r = Abandoned \/ r = Retired ->
    exec s (FAttach c k o owner) s [FErase k o; FLookup c k] []
| e_erase k o s : exec s (FErase k o) (erase_entry k o s) [] []
| e_bind c k o owner attached x x' s : consumers s !! c = Some x -> bind o attached x = Some x' ->
    exec s (FBind c k o owner attached) (set_consumer c x' s) [FSubscribe c k o owner] []
| e_bind_late c k o owner attached e x s : consumers s !! c = Some x -> bind o attached x = None ->
    exec s (FBind c k o owner attached) s
      (when attached (FRelease o) ++ when owner (FPublish k o None (Some e) true)) []
| e_subscribe c k o owner x x' id now s : ops s !! o = Some x -> subscribe c x = (x', id, now) ->
    next_callback_id_ x + 1 < 2 ^ 64 ->
    exec s (FSubscribe c k o owner) (set_op o x' s) (when now (FComplete c) ++ [FSetSubscription c k o owner id]) []
| e_set c k o owner id x x' back s : consumers s !! c = Some x -> set_subscription o id x = (x', back) ->
    exec s (FSetSubscription c k o owner id) (set_consumer c x' s) (when back (FUnsubscribe o id))
      (if owner then [[FWork k o]] else [])
| e_work_publish k o payload error s : exec s (FWork k o) s [FPublish k o payload error false] []
| e_work_finalize k o payload s : exec s (FWork k o) s [FFinalize k o payload] []
| e_finalize k o payload x s : ops s !! o = Some x ->
    exec s (FFinalize k o payload) s
      [FPublish k o (Some (if work_cancelled x then cancelled_payload else payload)) None false] []
| e_publish k o payload error b x x' run cs s : ops s !! o = Some x -> finish payload error x = Some (x', run) -> cs ≡ₚ run ->
    exec s (FPublish k o payload error b) (set_op o x' s) [FCallbacks cs; FErase k o] []
| e_publish_late k o payload error b x s : ops s !! o = Some x -> finish payload error x = None ->
    exec s (FPublish k o payload error b) s (when b (FErase k o)) []
| e_callback c cs s : exec s (FCallbacks (c :: cs)) s [FComplete c; FCallbacks cs] []
| e_callbacks_end s : exec s (FCallbacks []) s [] []
| e_complete c x x' s : consumers s !! c = Some x -> claim x = Some x' ->
    exec s (FComplete c) (set_consumer c x' s) [FDetach c; FRun c] []
| e_complete_late c x s : consumers s !! c = Some x -> claim x = None -> exec s (FComplete c) s [] []
| e_detach c x x' o id attached s : consumers s !! c = Some x -> detach x = Some (x', Some o, id, attached) ->
    exec s (FDetach c) (set_consumer c x' s) (when (negb (id =? 0)) (FUnsubscribe o id) ++ when attached (FRelease o)) []
| e_detach_unbound c x x' id attached s : consumers s !! c = Some x -> detach x = Some (x', None, id, attached) ->
    exec s (FDetach c) (set_consumer c x' s) [] []
| e_detach_late c x s : consumers s !! c = Some x -> detach x = None -> exec s (FDetach c) s [] []
| e_unsubscribe o id x x' found s : ops s !! o = Some x -> unsubscribe id x = (x', found) ->
    exec s (FUnsubscribe o id) (set_op o x' s) [] []
| e_release o x x' cancel s : ops s !! o = Some x -> releaseConsumer x = (x', cancel) ->
    exec s (FRelease o) (set_op o x' s) (when cancel (FCancelWork o)) []
| e_cancel_work o x s : ops s !! o = Some x -> exec s (FCancelWork o) (set_op o (cancel_work x) s) [] []
| e_run c s : exec s (FRun c) (mkShared (cache_fetches s) (ops s) (consumers s) (c :: completed s)) [] [].

Record World := mkWorld { shared : Shared; threads : list (list frame) }.
Definition init : World := mkWorld (mkShared ∅ [] [] []) [].

(** A step: a thread runs its top frame, a request calls [webGetOwnedAsync], or
    the request of a consumer is cancelled. *)
Inductive step : World -> World -> Prop :=
| s_run t f fs s s' fs' new ts : ts !! t = Some (f :: fs) -> exec s f s' fs' new ->
    step (mkWorld s ts) (mkWorld s' (<[t := fs' ++ fs]> ts ++ new))
| s_call k s ts :
    step (mkWorld s ts) (mkWorld (mkShared (cache_fetches s) (ops s) (consumers s ++ [new_consumer]) (completed s))
                           (ts ++ [[FBegin (length (consumers s)) k]]))
| s_cancel c x s ts : consumers s !! c = Some x -> step (mkWorld s ts) (mkWorld s (ts ++ [[FComplete c]])).

End Fetches.
Arguments frame E : clear implicits.
Arguments Shared E : clear implicits.
Arguments World E : clear implicits.

(** ** Schedules *)

Section Replay.
Context {E : Type}.

(** What a step decides that the state does not: how the work of an operation
    ends, with a result that is published or stored first, or an exception. *)
Inductive choice := NoChoice | Publishes (payload : option Payload) (error : option E) | Finalizes (payload : Payload) | Throws (e : E).

(** The step of a frame under a choice, as a function. *)
Definition perform (ch : choice) (s : Shared E) (f : frame E) : option (Shared E * list (frame E) * list (list (frame E))) :=
  match f with
  | FBegin c k => x ← consumers s !! c; Some (s, if completion_claimed x then [] else [FLookup c k], [])
  | FLookup c k => let '(s', o, owner) := find_or_create k s in Some (s', [FAttach c k o owner], [])
  | FAttach c k o owner =>
      x ← ops s !! o;
      match attachConsumer x with
      | (x', Attached) => guard (consumers_ x + 1 < 2 ^ 64);; Some (set_op o x' s, [FBind c k o owner true], [])
      | (x', Completed) => guard (consumers_ x + 1 < 2 ^ 64);; Some (set_op o x' s, [FBind c k o owner false], [])
      | _ => Some (s, [FErase k o; FLookup c k], [])
      end
  | FErase k o => Some (erase_entry k o s, [], [])
  | FBind c k o owner attached =>
      x ← consumers s !! c;
      match bind o attached x, ch with
      | Some x', _ => Some (set_consumer c x' s, [FSubscribe c k o owner], [])
      | None, Throws e => Some (s, when attached (FRelease o) ++ when owner (FPublish k o None (Some e) true), [])
      | None, _ => None
      end
  | FSubscribe c k o owner =>
      x ← ops s !! o;
      guard (next_callback_id_ x + 1 < 2 ^ 64);;
      let '(x', id, now) := subscribe c x in
      Some (set_op o x' s, when now (FComplete c) ++ [FSetSubscription c k o owner id], [])
  | FSetSubscription c k o owner id =>
      x ← consumers s !! c;
      let (x', back) := set_subscription o id x in
      Some (set_consumer c x' s, when back (FUnsubscribe o id), if owner then [[FWork k o]] else [])
  | FWork k o =>
      match ch with
      | Publishes payload error => Some (s, [FPublish k o payload error false], [])
      | Finalizes payload => Some (s, [FFinalize k o payload], [])
      | _ => None
      end
  | FFinalize k o payload =>
      x ← ops s !! o; Some (s, [FPublish k o (Some (if work_cancelled x then cancelled_payload else payload)) None false], [])
  | FPublish k o payload error b =>
      x ← ops s !! o;
      match finish payload error x with
      | Some (x', run) => Some (set_op o x' s, [FCallbacks run; FErase k o], [])
      | None => Some (s, when b (FErase k o), [])
      end
  | FCallbacks (c :: cs) => Some (s, [FComplete c; FCallbacks cs], [])
  | FCallbacks [] => Some (s, [], [])
  | FComplete c =>
      x ← consumers s !! c;
      match claim x with Some x' => Some (set_consumer c x' s, [FDetach c; FRun c], []) | None => Some (s, [], []) end
  | FDetach c =>
      x ← consumers s !! c;
      match detach x with
      | Some (x', Some o, id, attached) =>
          Some (set_consumer c x' s, when (negb (id =? 0)) (FUnsubscribe o id) ++ when attached (FRelease o), [])
      | Some (x', None, _, _) => Some (set_consumer c x' s, [], [])
      | None => Some (s, [], [])
      end
  | FUnsubscribe o id => x ← ops s !! o; let (x', _) := unsubscribe id x in Some (set_op o x' s, [], [])
  | FRelease o => x ← ops s !! o; let (x', cancel) := releaseConsumer x in Some (set_op o x' s, when cancel (FCancelWork o), [])
  | FCancelWork o => x ← ops s !! o; Some (set_op o (cancel_work x) s, [], [])
  | FRun c => Some (mkShared (cache_fetches s) (ops s) (consumers s) (c :: completed s), [], [])
  end.

Lemma perform_exec ch s f s' fs' new : perform ch s f = Some (s', fs', new) -> exec s f s' fs' new.
Proof.
  destruct f as [c k|c k|c k o owner|k o|c k o owner attached|c k o owner|c k o owner id|k o|k o p|k o p e b|cs|c|c|o id|o|o|c];
    cbn [perform]; intros H.
  3: { apply bind_Some in H as (x & Hx & H). destruct (attachConsumer x) as [x' r] eqn:Ha.
       destruct r; try by (simplify_eq; eauto 8 using exec); apply bind_Some in H as (Hr & _ & [= <- <- <-]);
         by apply (e_attach c k o owner x x' _ s Hx Ha (ltac:(auto)) Hr). }
  6: { apply bind_Some in H as (x & Hx & H). destruct (set_subscription o id x) eqn:Hs. injection H as <- <- <-.
       by eapply e_set. }
  7: { apply bind_Some in H as (x & Hx & [= <- <- <-]). by apply e_finalize. }
  all: repeat (case_match || (apply bind_Some in H as (? & ? & H))); simplify_eq; by eauto using exec.
Qed.

Inductive event := Run (t : nat) (ch : choice) | Call (k : str) | Cancel (c : nat).

Definition happen (w : World E) (ev : event) : option (World E) :=
  let s := shared w in
  match ev with
  | Run t ch =>
      match threads w !! t with
      | Some (f :: fs) =>
          '(s', fs', new) ← perform ch s f; Some (mkWorld s' (<[t := fs' ++ fs]> (threads w) ++ new))
      | _ => None
      end
  | Call k => Some (mkWorld (mkShared (cache_fetches s) (ops s) (consumers s ++ [new_consumer]) (completed s))
                      (threads w ++ [[FBegin (length (consumers s)) k]]))
  | Cancel c => _ ← consumers s !! c; Some (mkWorld s (threads w ++ [[FComplete c]]))
  end.

Fixpoint replay (evs : list event) (w : World E) : option (World E) :=
  match evs with [] => Some w | ev :: evs => w' ← happen w ev; replay evs w' end.

Lemma happen_step w ev w' : happen w ev = Some w' -> step w w'.
Proof.
  destruct w as [s ts]. destruct ev as [t ch|k|c]; cbn.
  - destruct (ts !! t) as [[|f fs]|] eqn:Ht; [done| |done]. intros ([[s' fs'] new] & Hp & [= <-])%bind_Some.
    eapply s_run; [done|]. by eapply perform_exec.
  - intros [= <-]. constructor.
  - intros (x & Hx & [= <-])%bind_Some. by econstructor.
Qed.

Lemma replay_reaches evs w w' : replay evs w = Some w' -> rtc step w w'.
Proof.
  revert w. induction evs as [|ev evs IH]; intros w; cbn; [by intros [= ->]|].
  intros (w1 & H1%happen_step & H2%IH)%bind_Some. by eapply rtc_l.
Qed.
End Replay.
