(* ===== verification/CacheServe.v ===== *)
(** * handler/webget.cpp: every consumer of a shared fetch is served

    The invariant of [CacheFetch.World]: whom each operation, consumer and
    frame accounts for, kept by every step; and what follows of the worlds that
    can be reached. *)

From S2P Require Import Prelude Str RequestContext CacheFetch.
Open Scope Z_scope.

Section Proofs.
Context {E : Type}.
Implicit Types (s : Shared E) (fr : list (frame E)) (f : frame E) (w : World E).

(** ** Counting frames *)

(** One for a fact that holds. *)
Definition one (P : Prop) `{Decision P} : Z := Z.b2z (bool_decide P).

(** The frames that have claimed the completion of a consumer and not run it,
    or not detached it yet; that drive it towards its subscription; that are
    about to complete it. *)
Definition runs (c : nat) f : Z := match f with FRun c' => one (c' = c) | _ => 0 end.
Definition detaches (c : nat) f : Z := match f with FDetach c' => one (c' = c) | _ => 0 end.
Definition before_subscription (c : nat) f : Z :=
  match f with
  | FBegin c' _ | FLookup c' _ | FAttach c' _ _ _ | FBind c' _ _ _ _ | FSubscribe c' _ _ _ => one (c' = c)
  | _ => 0
  end.
Definition drives (c : nat) f : Z :=
  before_subscription c f + match f with FSetSubscription c' _ _ _ _ => one (c' = c) | _ => 0 end.
Definition will_complete (c : nat) f : Z :=
  match f with FComplete c' => one (c' = c) | FCallbacks cs => one (c ∈ cs) | _ => 0 end.

(** The attachments to an operation that frames and consumers hold, and the
    frames on the way to publish its result. *)
Definition holds (o : nat) f : Z :=
  match f with FBind _ _ o' _ true => one (o' = o) | FRelease o' => one (o' = o) | _ => 0 end.
Definition held (o : nat) (x : Consumer) : Z := one (operation x = Some o /\ operation_attached x = true).
Definition will_publish (o : nat) f : Z :=
  match f with
  | FAttach _ _ o' true | FBind _ _ o' true _ | FSubscribe _ _ o' true | FSetSubscription _ _ o' true _
  | FWork _ o' | FFinalize _ o' _ | FPublish _ o' _ _ _ => one (o' = o)
  | _ => 0
  end.

Lemma one_range (P : Prop) `{Decision P} : 0 <= one P <= 1.
Proof. unfold one. by case_bool_decide. Qed.
Lemma one_true (P : Prop) `{Decision P} : P -> one P = 1.
Proof. intros. unfold one. by rewrite bool_decide_true. Qed.
Lemma one_false (P : Prop) `{Decision P} : ~ P -> one P = 0.
Proof. intros. unfold one. by rewrite bool_decide_false. Qed.
Lemma one_pos (P : Prop) `{Decision P} : 0 < one P -> P.
Proof. unfold one. by case_bool_decide. Qed.

(** ** What holds of operations, consumers and frames *)

Definition ended_well (x : Operation E) : Prop := done_ x = true /\ reusable (payload_ x) (error_ x) = true.

(** Whoever is subscribed under an identifier of an operation, if anybody is,
    satisfies [P]. *)
Definition subscriber (s : Shared E) (o : nat) (id : Z) (P : nat -> Prop) : Prop :=
  exists x, ops s !! o = Some x /\ 1 <= id < next_callback_id_ x /\ (forall c, callbacks_ x !! id = Some c -> P c).

Definition is_op (s : Shared E) (o : nat) : Prop := is_Some (ops s !! o).
Definition is_claimed (s : Shared E) (c : nat) : Prop := exists x, consumers s !! c = Some x /\ completion_claimed x = true.
Definition unbound (s : Shared E) (c : nat) : Prop := exists x, consumers s !! c = Some x /\ operation x = None.
Definition bound_to (s : Shared E) (c o : nat) : Prop := exists x, consumers s !! c = Some x /\ operation x = Some o.
Definition well (s : Shared E) (o : nat) : Prop := exists x, ops s !! o = Some x /\ ended_well x.

Definition frame_ok (s : Shared E) (f : frame E) : Prop :=
  match f with
  | FBegin c _ | FLookup c _ => unbound s c
  | FAttach c _ o _ => unbound s c /\ is_op s o
  | FErase _ o => is_op s o
  | FBind c _ o _ attached => unbound s c /\ is_op s o /\ (attached = false -> well s o)
  | FSubscribe c _ o _ => is_op s o /\ is_Some (consumers s !! c) /\ (is_claimed s c \/ bound_to s c o)
  | FSetSubscription c _ o _ id =>
      is_op s o /\ is_Some (consumers s !! c) /\ (is_claimed s c \/ bound_to s c o) /\
      (id <> 0 -> subscriber s o id (fun c' => c' = c))
  | FWork _ o | FFinalize _ o _ | FPublish _ o _ _ _ | FRelease o => is_op s o
  | FCallbacks cs => Forall (fun c => is_Some (consumers s !! c)) cs
  | FComplete c => is_Some (consumers s !! c)
  | FDetach c | FRun c => is_claimed s c
  | FUnsubscribe o id => subscriber s o id (is_claimed s)
  | FCancelWork o => exists x, ops s !! o = Some x /\ abandoned_ x = true
  end.

Definition count (c : nat) (l : list nat) : Z := sumZ (fun c' => one (c' = c)) l.

(** Where a consumer that nobody has completed is waiting. *)
Definition waiting (s : Shared E) (fr : list (frame E)) (c : nat) (x : Consumer) : Prop :=
  0 < sumZ (before_subscription c) fr \/ 0 < sumZ (will_complete c) fr \/
  exists o y, operation x = Some o /\ ops s !! o = Some y /\
    ((exists id, callbacks_ y !! id = Some c) \/ (abandoned_ y = true /\ ended_well y)).

Record consumer_ok (s : Shared E) (fr : list (frame E)) (c : nat) (x : Consumer) : Prop := {
  co_once : sumZ (runs c) fr + count c (completed s) = Z.b2z (completion_claimed x);
  co_detached : subscription_detached x = true -> completion_claimed x = true /\ operation x = None;
  co_detaching : completion_claimed x = true -> subscription_detached x = false -> 0 < sumZ (detaches c) fr;
  co_driver : sumZ (drives c) fr <= 1;
  co_operation : forall o, operation x = Some o ->
    is_op s o /\ (operation_attached x = false -> well s o) /\
    (subscription_id x <> 0 -> subscriber s o (subscription_id x) (fun c' => c' = c));
  co_waiting : completion_claimed x = false -> waiting s fr c x;
  co_unbound : operation x = None -> subscription_id x = 0
}.

Record op_ok (s : Shared E) (fr : list (frame E)) (o : nat) (x : Operation E) : Prop := {
  oo_consumers : consumers_ x = sumZ (holds o) fr + sumZ (held o) (consumers s);
  oo_abandoned : abandoned_ x = true -> consumers_ x = 0;
  oo_cancelled : work_cancelled x = true -> abandoned_ x = true;
  oo_ids : 1 <= next_callback_id_ x;
  oo_callbacks : forall id c, callbacks_ x !! id = Some c -> 1 <= id < next_callback_id_ x /\ is_Some (consumers s !! c);
  oo_done : done_ x = true -> callbacks_ x = ∅;
  oo_publisher : done_ x = false -> abandoned_ x = true \/ 0 < sumZ (will_publish o) fr
}.

Record Inv (s : Shared E) (fr : list (frame E)) : Prop := {
  inv_frames : Forall (frame_ok s) fr;
  inv_consumers : forall c x, consumers s !! c = Some x -> consumer_ok s fr c x;
  inv_ops : forall o x, ops s !! o = Some x -> op_ok s fr o x;
  inv_registry : forall k o, cache_fetches s !! k = Some o -> is_op s o;
  inv_completed : Forall (fun c => is_Some (consumers s !! c)) (completed s)
}.

#[export] Instance Inv_perm s : Proper (Permutation ==> iff) (Inv s).
Proof.
  enough (G : forall fr fr', fr ≡ₚ fr' -> Inv s fr -> Inv s fr') by (intros fr fr' Hp; split; by apply G).
  intros fr fr' Hp [Hf Hc Ho Hr Hd]. split; [by rewrite <- Hp| | |done|done].
  - intros c x Hx. destruct (Hc c x Hx) as [H1 H2 H3 H4 H5 H6 H7].
    split; unfold waiting in *; by rewrite <- ?(sumZ_Permutation _ _ _ Hp).
  - intros o x Hx. destruct (Ho o x Hx). split; by rewrite <- ?(sumZ_Permutation _ _ _ Hp).
Qed.

(** The stacks of the threads as one list of frames. *)
Lemma frames_of_step (ts : list (list (frame E))) t f fs fs' new : ts !! t = Some (f :: fs) ->
  exists rest, concat ts ≡ₚ f :: rest /\ concat (<[t := fs' ++ fs]> ts ++ new) ≡ₚ fs' ++ concat new ++ rest.
Proof.
  intros Ht. exists (fs ++ concat (take t ts) ++ concat (drop (S t) ts)). split.
  - rewrite <- (take_drop_middle _ _ _ Ht) at 1. rewrite concat_app. cbn [concat]. solve_Permutation.
  - rewrite concat_app, insert_take_drop by (by eapply lookup_lt_Some). rewrite concat_app. cbn [concat]. solve_Permutation.
Qed.

(** ** Steps of the shared state *)

Record op_le (x x' : Operation E) : Prop := {
  ol_next : next_callback_id_ x <= next_callback_id_ x';
  ol_callbacks : forall id c, id < next_callback_id_ x -> callbacks_ x' !! id = Some c -> callbacks_ x !! id = Some c;
  ol_ended : ended_well x -> ended_well x';
  ol_abandoned : abandoned_ x = true -> abandoned_ x' = true
}.

Record consumer_le (x x' : Consumer) : Prop := {
  cl_claimed : completion_claimed x = true -> completion_claimed x' = true;
  cl_operation : forall o, operation x = Some o -> operation x' = Some o \/ completion_claimed x' = true
}.

Record state_le (s s' : Shared E) : Prop := {
  sl_ops : forall o x, ops s !! o = Some x -> exists x', ops s' !! o = Some x' /\ op_le x x';
  sl_consumers : forall c x, consumers s !! c = Some x -> exists x', consumers s' !! c = Some x' /\ consumer_le x x'
}.

#[export] Instance op_le_refl : Reflexive op_le.
Proof. intros x. split; auto with lia. Qed.
#[export] Instance consumer_le_refl : Reflexive consumer_le.
Proof. intros x. split; auto. Qed.
#[export] Instance state_le_refl : Reflexive state_le.
Proof. intros s. split; intros i x Hx; exists x; split; try done; reflexivity. Qed.

Section Mono.
Context (s s' : Shared E) (Hle : state_le s s').

Lemma is_op_mono o : is_op s o -> is_op s' o.
Proof using Hle. intros [x Hx]. by destruct (sl_ops _ _ Hle o x Hx) as (x' & Hx' & _); exists x'. Qed.
Lemma consumer_mono c : is_Some (consumers s !! c) -> is_Some (consumers s' !! c).
Proof using Hle. intros [x Hx]. by destruct (sl_consumers _ _ Hle c x Hx) as (x' & Hx' & _); exists x'. Qed.
Lemma claimed_mono c : is_claimed s c -> is_claimed s' c.
Proof using Hle.
  intros (x & Hx & Hc). destruct (sl_consumers _ _ Hle c x Hx) as (x' & Hx' & [Hl _]). exists x'. auto.
Qed.
Lemma bound_mono c o : is_claimed s c \/ bound_to s c o -> is_claimed s' c \/ bound_to s' c o.
Proof using Hle.
  intros [Hc|(x & Hx & Ho)]; [left; by apply claimed_mono|].
  destruct (sl_consumers _ _ Hle c x Hx) as (x' & Hx' & [_ Hl]). destruct (Hl o Ho); [right|left]; by exists x'.
Qed.
Lemma well_mono o : well s o -> well s' o.
Proof using Hle. intros (x & Hx & Hw). destruct (sl_ops _ _ Hle o x Hx) as (x' & Hx' & [_ _ Hl _]). exists x'. auto. Qed.
Lemma subscriber_mono o id (P Q : nat -> Prop) : (forall c, P c -> Q c) -> subscriber s o id P -> subscriber s' o id Q.
Proof using Hle.
  intros HPQ (x & Hx & Hid & Hs). destruct (sl_ops _ _ Hle o x Hx) as (x' & Hx' & [Hn Hc _ _]).
  exists x'. split_and!; [done|lia|lia|]. intros c Hcb. apply HPQ, Hs, Hc; [lia|done].
Qed.

(** A frame stays in order as long as nobody else binds the consumer it
    drives. *)
Lemma frame_ok_mono f :
  (forall c, unbound s c -> 0 < drives c f -> unbound s' c) -> frame_ok s f -> frame_ok s' f.
Proof using Hle.
  intros Hu. assert (Hd : forall c, unbound s c -> 0 < before_subscription c f -> unbound s' c).
  { intros c Hc Hp. apply Hu; [done|]. unfold drives. destruct f; cbn in *; lia. }
  assert (Hone : forall c : nat, 0 < one (c = c)) by (intros c; by rewrite one_true).
  destruct f as [c|c|c ? o|? o|c ? o ? at'|c ? o|c ? o ? id|? o|? o|? o|cs|c|c|o id|o|o|c]; cbn [frame_ok before_subscription] in *.
  - intros. by apply Hd.
  - intros. by apply Hd.
  - intros [? ?]. split; [by apply Hd|by apply is_op_mono].
  - apply is_op_mono.
  - intros (? & ? & ?). split_and!; [by apply Hd|by apply is_op_mono|]. intros. apply well_mono. auto.
  - intros (? & ? & ?). split_and!; [by apply is_op_mono|by apply consumer_mono|by apply bound_mono].
  - intros (? & ? & ? & Hs). split_and!; [by apply is_op_mono|by apply consumer_mono|by apply bound_mono|].
    intros Hid. eapply subscriber_mono; [|by apply Hs]. done.
  - apply is_op_mono.
  - apply is_op_mono.
  - apply is_op_mono.
  - intros Hc. eapply Forall_impl; [exact Hc|apply consumer_mono].
  - apply consumer_mono.
  - apply claimed_mono.
  - apply subscriber_mono, claimed_mono.
  - apply is_op_mono.
  - intros (x & Hx & Ha). destruct (sl_ops _ _ Hle _ x Hx) as (x' & Hx' & [_ _ _ Hl]). exists x'. auto.
  - apply claimed_mono.
Qed.
End Mono.

(** What a step of frame [f], replaced by [new], does to a consumer and to an
    operation. *)
Record consumer_step s s' f (new rest : list (frame E)) (c : nat) (x x' : Consumer) : Prop := {
  cs_once : sumZ (runs c) new + count c (completed s') - Z.b2z (completion_claimed x') =
            runs c f + count c (completed s) - Z.b2z (completion_claimed x);
  cs_detached : subscription_detached x' = true -> completion_claimed x' = true /\ operation x' = None;
  cs_detaching : completion_claimed x' = true -> subscription_detached x' = false ->
    0 < sumZ (detaches c) new \/
    completion_claimed x = true /\ subscription_detached x = false /\ detaches c f <= sumZ (detaches c) new;
  cs_driver : sumZ (drives c) new <= drives c f;
  cs_operation : forall o, operation x' = Some o ->
    (operation x = Some o /\ operation_attached x = operation_attached x' /\ subscription_id x = subscription_id x') \/
    (is_op s' o /\ (operation_attached x' = false -> well s' o) /\
     (subscription_id x' <> 0 -> subscriber s' o (subscription_id x') (fun c' => c' = c)));
  cs_unclaimed : completion_claimed x' = false -> completion_claimed x = false;
  cs_frame : completion_claimed x' = false -> 0 < before_subscription c f + will_complete c f -> waiting s' (new ++ rest) c x';
  cs_operation_waiting : completion_claimed x' = false -> forall o y, operation x = Some o -> ops s !! o = Some y ->
    (exists id, callbacks_ y !! id = Some c) \/ (abandoned_ y = true /\ ended_well y) -> waiting s' (new ++ rest) c x';
  cs_unbound : operation x' = None -> subscription_id x' = 0
}.

Record op_step s s' f (new : list (frame E)) (o : nat) (x x' : Operation E) : Prop := {
  os_consumers : consumers_ x' - sumZ (holds o) new - sumZ (held o) (consumers s') =
                 consumers_ x - holds o f - sumZ (held o) (consumers s);
  os_abandoned : abandoned_ x' = true -> consumers_ x' = 0;
  os_cancelled : work_cancelled x' = true -> abandoned_ x' = true;
  os_ids : next_callback_id_ x <= next_callback_id_ x';
  os_callbacks : forall id c, callbacks_ x' !! id = Some c -> 1 <= id < next_callback_id_ x' /\ is_Some (consumers s' !! c);
  os_done : done_ x' = true -> callbacks_ x' = ∅;
  os_publisher : done_ x' = false -> abandoned_ x' = true \/ 0 < sumZ (will_publish o) new \/
    (done_ x = false /\ abandoned_ x = false /\ will_publish o f <= sumZ (will_publish o) new)
}.

Lemma counts_nonneg (g : frame E -> Z) l : (forall f, 0 <= g f) -> 0 <= sumZ g l.
Proof. intros Hg. apply sumZ_nonneg. auto. Qed.

Lemma runs_nonneg c f : 0 <= runs c f.
Proof. destruct f; cbn; try lia. apply one_range. Qed.
Lemma detaches_nonneg c f : 0 <= detaches c f.
Proof. destruct f; cbn; try lia. apply one_range. Qed.
Lemma before_nonneg c f : 0 <= before_subscription c f.
Proof. destruct f; cbn; try lia; apply one_range. Qed.
Lemma drives_nonneg c f : 0 <= drives c f.
Proof. unfold drives. pose proof (before_nonneg c f). destruct f; cbn in *; try lia; pose proof (one_range (c0 = c)); lia. Qed.
Lemma will_complete_nonneg c f : 0 <= will_complete c f.
Proof. destruct f; cbn; try lia; apply one_range. Qed.
Lemma will_publish_nonneg o f : 0 <= will_publish o f.
Proof. destruct f; cbn; repeat case_match; try lia; apply one_range. Qed.
Lemma holds_nonneg o f : 0 <= holds o f.
Proof. destruct f; cbn; repeat case_match; try lia; apply one_range. Qed.

(** The invariant is kept by a step that keeps the parts in order. *)
Lemma inv_step s s' f new rest :
  Inv s (f :: rest) -> state_le s s' ->
  (forall c, unbound s c -> unbound s' c \/ 0 < drives c f) ->
  Forall (frame_ok s') new ->
  (forall c x', consumers s' !! c = Some x' ->
     consumer_ok s' (new ++ rest) c x' \/ exists x, consumers s !! c = Some x /\ consumer_step s s' f new rest c x x') ->
  (forall o x', ops s' !! o = Some x' ->
     op_ok s' (new ++ rest) o x' \/ exists x, ops s !! o = Some x /\ op_step s s' f new o x x') ->
  (forall k o, cache_fetches s' !! k = Some o -> cache_fetches s !! k = Some o \/ is_op s' o) ->
  Forall (fun c => is_Some (consumers s' !! c)) (completed s') ->
  Inv s' (new ++ rest).
Proof.
  intros [Hf Hc Ho Hr Hd] Hle Hu Hnew Hcs Hos Hreg Hcomp.
  assert (Hdrv : forall c x, consumers s !! c = Some x -> drives c f + sumZ (drives c) rest <= 1).
  { intros c x Hx. pose proof (co_driver _ _ _ _ (Hc c x Hx)) as H. by rewrite sumZ_cons in H. }
  split; [| | | |done].
  - apply Forall_app. split; [done|]. apply Forall_cons in Hf as [_ Hf]. rewrite Forall_forall in Hf. apply Forall_forall.
    intros g Hg. apply (frame_ok_mono s s' Hle); [|by apply Hf]. intros c Huc Hdg. destruct (Hu c Huc) as [?|Hdf]; [done|exfalso].
    destruct Huc as (x & Hx & _). specialize (Hdrv c x Hx).
    apply list_elem_of_lookup_1 in Hg as [i Hi].
    pose proof (sumZ_lookup_le (drives c) rest i g (proj2 (Forall_forall _ _) (fun h _ => drives_nonneg c h)) Hi). lia.
  - intros c x' Hx'. destruct (Hcs c x' Hx') as [?|(x & Hx & [H1 H2 H3 H4 H5 H6 H7 H8 H9])]; [done|]. destruct (Hc c x Hx) as [G1 G2 G3 G4 G5 G6 G7].
    rewrite sumZ_cons in G1, G3, G4. split; rewrite ?sumZ_app.
    + lia.
    + done.
    + intros Hcl Hde. pose proof (counts_nonneg (detaches c) rest (detaches_nonneg c)).
      destruct (H3 Hcl Hde) as [?|(Hcl' & Hde' & ?)]; [lia|]. specialize (G3 Hcl' Hde'). lia.
    + lia.
    + intros o Hop. destruct (H5 o Hop) as [(Hop' & Hat & Hid)|?]; [|done]. destruct (G5 o Hop') as (K1 & K2 & K3).
      rewrite <- Hat, <- Hid. split_and!; [by apply (is_op_mono s s')|intros Hna; by apply (well_mono s s'), K2|].
      intros Hid0. by eapply (subscriber_mono s s' Hle); [|by apply K3].
    + intros Hcl. specialize (H6 Hcl). destruct (G6 H6) as [Hw|[Hw|(o & y & Hop & Hy & Hw)]].
      * rewrite sumZ_cons in Hw. pose proof (will_complete_nonneg c f). destruct (Z_lt_le_dec 0 (before_subscription c f)); [apply H7; [done|lia]|].
        left. rewrite sumZ_app. pose proof (counts_nonneg (before_subscription c) new (before_nonneg c)). lia.
      * rewrite sumZ_cons in Hw. pose proof (before_nonneg c f). destruct (Z_lt_le_dec 0 (will_complete c f)); [apply H7; [done|lia]|].
        right. left. rewrite sumZ_app. pose proof (counts_nonneg (will_complete c) new (will_complete_nonneg c)). lia.
      * eauto.
    + done.
  - intros o x' Hx'. destruct (Hos o x' Hx') as [?|(x & Hx & [H1 H2 H3 H4 H5 H6 H7])]; [done|]. destruct (Ho o x Hx) as [G1 G2 G3 G4 G5 G6 G7].
    rewrite sumZ_cons in G1, G7. split; rewrite ?sumZ_app; try done; try lia.
    intros Hnd. pose proof (counts_nonneg (will_publish o) rest (will_publish_nonneg o)).
    destruct (H7 Hnd) as [?|[?|(Hd' & Ha' & ?)]]; [by left|right; lia|]. destruct (G7 Hd') as [?|?]; [congruence|right; lia].
  - intros k o Hk. destruct (Hreg k o Hk) as [Hk'|?]; [|done]. eapply is_op_mono; eauto.
Qed.

Lemma le_set_op s o x x' : ops s !! o = Some x -> op_le x x' -> state_le s (set_op o x' s).
Proof.
  intros Hx Hl. split; [|intros c y Hy; exists y; split; [done|reflexivity]].
  intros o' y Hy. cbn. destruct (decide (o = o')) as [<-|Hne].
  - rewrite list_lookup_insert_eq by (by eapply lookup_lt_Some). simplify_eq. by exists x'.
  - rewrite list_lookup_insert_ne by done. exists y. split; [done|reflexivity].
Qed.

Lemma le_set_consumer s c x x' : consumers s !! c = Some x -> consumer_le x x' -> state_le s (set_consumer c x' s).
Proof.
  intros Hx Hl. split; [intros o y Hy; exists y; split; [done|reflexivity]|].
  intros c' y Hy. cbn. destruct (decide (c = c')) as [<-|Hne].
  - rewrite list_lookup_insert_eq by (by eapply lookup_lt_Some). simplify_eq. by exists x'.
  - rewrite list_lookup_insert_ne by done. exists y. split; [done|reflexivity].
Qed.

Lemma lookup_set_op s o x' o' y : is_op s o -> ops (set_op o x' s) !! o' = Some y ->
  (o' = o /\ y = x') \/ (o' <> o /\ ops s !! o' = Some y).
Proof.
  intros Hz%lookup_lt_is_Some Hy. cbn in Hy. destruct (decide (o = o')) as [<-|Hne].
  - rewrite list_lookup_insert_eq in Hy by done. left. by simplify_eq.
  - rewrite list_lookup_insert_ne in Hy by done. right. auto.
Qed.

Lemma lookup_set_consumer s c x' c' y : is_Some (consumers s !! c) -> consumers (set_consumer c x' s) !! c' = Some y ->
  (c' = c /\ y = x') \/ (c' <> c /\ consumers s !! c' = Some y).
Proof.
  intros Hz%lookup_lt_is_Some Hy. cbn in Hy. destruct (decide (c = c')) as [<-|Hne].
  - rewrite list_lookup_insert_eq in Hy by done. left. by simplify_eq.
  - rewrite list_lookup_insert_ne in Hy by done. right. auto.
Qed.

Lemma waiting_frames s new rest c x :
  0 < sumZ (before_subscription c) new + sumZ (will_complete c) new -> waiting s (new ++ rest) c x.
Proof.
  intros H. unfold waiting. rewrite !sumZ_app.
  pose proof (counts_nonneg (before_subscription c) rest (before_nonneg c)).
  pose proof (counts_nonneg (will_complete c) rest (will_complete_nonneg c)).
  destruct (Z_lt_le_dec 0 (sumZ (before_subscription c) new)); [left; lia|right; left; lia].
Qed.

Lemma waiting_ended s s' fr c x o y : state_le s s' -> operation x = Some o -> ops s !! o = Some y ->
  abandoned_ y = true -> ended_well y -> waiting s' fr c x.
Proof.
  intros Hle Ho Hy Ha Hw. destruct (sl_ops _ _ Hle o y Hy) as (y' & Hy' & [_ _ Hl1 Hl2]). right. right. exists o, y'. auto 6.
Qed.

(** A consumer that the step leaves alone. *)
Lemma consumer_step_same s s' f new rest c x :
  Inv s (f :: rest) -> consumers s !! c = Some x -> state_le s s' -> completed s' = completed s ->
  sumZ (runs c) new = runs c f ->
  (completion_claimed x = true -> subscription_detached x = false -> detaches c f <= sumZ (detaches c) new) ->
  sumZ (drives c) new <= drives c f ->
  (completion_claimed x = false -> 0 < before_subscription c f + will_complete c f -> waiting s' (new ++ rest) c x) ->
  (completion_claimed x = false -> forall o y id, operation x = Some o -> ops s !! o = Some y -> callbacks_ y !! id = Some c ->
     waiting s' (new ++ rest) c x) ->
  consumer_step s s' f new rest c x x.
Proof.
  intros HI Hx Hle Hcomp Hr Hd Hdr Hw Hreg. pose proof (inv_consumers _ _ HI c x Hx) as [_ G2 _ _ _ _ G7].
  split; try done.
  - rewrite Hcomp. lia.
  - intros Hc Hnd. destruct (Z_lt_le_dec 0 (sumZ (detaches c) new)); [by left|right]. auto.
  - intros o Ho. by left.
  - intros Hc o y Ho Hy [[id Hid]|[Ha Hwell]]; [eauto|]. by eapply (waiting_ended s).
Qed.

(** Steps that leave the shared state alone. *)
Lemma inv_same s f new rest :
  Inv s (f :: rest) -> Forall (frame_ok s) new ->
  (forall c x, consumers s !! c = Some x ->
     sumZ (runs c) new = runs c f /\
     (completion_claimed x = true -> subscription_detached x = false -> detaches c f <= sumZ (detaches c) new) /\
     sumZ (drives c) new <= drives c f /\
     (completion_claimed x = false -> 0 < before_subscription c f + will_complete c f ->
      0 < sumZ (before_subscription c) new + sumZ (will_complete c) new)) ->
  (forall o x, ops s !! o = Some x -> sumZ (holds o) new = holds o f /\
     (done_ x = false -> abandoned_ x = false -> will_publish o f <= sumZ (will_publish o) new)) ->
  Inv s (new ++ rest).
Proof.
  intros HI Hf Hc Ho. apply (inv_step s s f new rest); auto.
  - reflexivity.
  - intros c x Hx. right. exists x. split; [done|]. destruct (Hc c x Hx) as (H1 & H2 & H3 & H4).
    apply consumer_step_same; auto; [reflexivity|intros; apply waiting_frames; auto|].
    intros Hcl o y id Hop Hy Hid. right. right. exists o, y. eauto 6.
  - intros o x Hx. right. exists x. split; [done|]. destruct (Ho o x Hx) as [H1 H2], (inv_ops _ _ HI o x Hx) as [G1 G2 G3 G4 G5 G6 G7].
    split; try done; [lia|]. intros Hnd. destruct (abandoned_ x) eqn:Ha; [by left|]. right. right. auto.
  - eauto using inv_completed.
Qed.

(** Counts of concrete lists of frames, with the range of their terms. *)
Ltac ranges :=
  repeat match goal with
    | |- context [@one ?P ?d] =>
        lazymatch goal with
        | _ : 0 <= @one P d <= 1 |- _ => fail
        | _ => pose proof (@one_range P d)
        end
    end.
Ltac counts :=
  unfold when; cbn [app]; rewrite ?sumZ_app, ?sumZ_cons, ?sumZ_nil; unfold drives;
  cbn [runs detaches before_subscription will_complete holds will_publish];
  rewrite ?Z.add_0_l, ?Z.add_0_r; ranges.

Lemma inv_top s f rest : Inv s (f :: rest) -> frame_ok s f.
Proof. intros [Hf _ _ _ _]. by apply Forall_cons in Hf as [? _]. Qed.

Lemma one_in (c : nat) c' cs : one (c' ∈ c :: cs) <= one (c = c') + one (c' ∈ cs).
Proof.
  pose proof (one_range (c = c')). pose proof (one_range (c' ∈ cs)). destruct (decide (c' ∈ c :: cs)) as [Hin|Hin].
  - rewrite (one_true (c' ∈ c :: cs)) by done. apply elem_of_cons in Hin as [->|Hin]; [rewrite (one_true (c = c)) by done; lia|].
    rewrite (one_true (c' ∈ cs)) by done. lia.
  - rewrite (one_false (c' ∈ c :: cs)) by done. lia.
Qed.

(** Decides the conditions on counts of [inv_same]. *)
Local Ltac solve_counts :=
  intros; split_and!; counts; intros; rewrite ?Z.add_0_l, ?Z.add_0_r in *; try lia.

(** *** Steps that change no state *)

Lemma inv_begin_claimed s c k x rest :
  Inv s (FBegin c k :: rest) -> consumers s !! c = Some x -> completion_claimed x = true -> Inv s rest.
Proof.
  intros HI Hx Hc. apply (inv_same s (FBegin c k) [] rest); [done|constructor|solve_counts..].
  assert (c = c0) as <- by (eapply one_pos; eassumption). simplify_eq; congruence.
Qed.

Lemma inv_begin s c k rest : Inv s (FBegin c k :: rest) -> Inv s (FLookup c k :: rest).
Proof.
  intros HI. apply (inv_same s (FBegin c k) [FLookup c k] rest); [done| |solve_counts..].
  apply Forall_singleton. exact (inv_top _ _ _ HI).
Qed.

Lemma inv_retry s c k o owner x x' r rest : ops s !! o = Some x -> attachConsumer x = (x', r) -> r = Abandoned \/ r = Retired ->
  Inv s (FAttach c k o owner :: rest) -> Inv s (FErase k o :: FLookup c k :: rest).
Proof.
  intros Hx Ha Hr HI. pose proof (inv_top _ _ _ HI) as [H1 H2].
  apply (inv_same s (FAttach c k o owner) [FErase k o; FLookup c k] rest); [done|by repeat constructor|solve_counts|].
  intros o' y Hy. split; [by counts|]. intros Hd Hab. destruct owner; counts; [|lia].
  destruct (decide (o = o')) as [<-|Hne]; [|rewrite one_false by done; lia]. simplify_eq.
  unfold attachConsumer in Ha. rewrite Hd, Hab in Ha. destruct Hr; simplify_eq.
Qed.

Lemma inv_bind_late s c k o owner attached e x rest : consumers s !! c = Some x -> bind o attached x = None ->
  Inv s (FBind c k o owner attached :: rest) ->
  Inv s ((when attached (FRelease o) ++ when owner (FPublish k o None (Some e) true)) ++ rest).
Proof.
  intros Hx Hb HI. pose proof (inv_top _ _ _ HI) as (_ & Ho & _).
  assert (Hc : completion_claimed x = true).
  { unfold bind in Hb. destruct (completion_claimed x) eqn:Ec; [done|]. destruct (subscription_detached x) eqn:Ed; [|done].
    destruct (co_detached _ _ _ _ (inv_consumers _ _ HI c x Hx) Ed). congruence. }
  apply (inv_same s (FBind c k o owner attached)); [done|destruct attached, owner; by repeat constructor| |].
  - intros c' y Hy. split_and!; [by destruct attached, owner|by destruct attached, owner| |].
    + destruct attached, owner; counts; lia.
    + intros Hn. counts. intros Hp. assert (c = c') as <- by (eapply one_pos; eassumption). simplify_eq; congruence.
  - intros o' y Hy. split; [|intros _ _]; destruct attached, owner; counts; lia.
Qed.

Lemma inv_work s k o g rest : Inv s (FWork k o :: rest) ->
  match g with FPublish _ o' _ _ _ | FFinalize _ o' _ => o' = o | _ => False end -> Inv s (g :: rest).
Proof.
  intros HI Hg. pose proof (inv_top _ _ _ HI) as Ho.
  apply (inv_same s (FWork k o) [g] rest); [done|apply Forall_singleton; by destruct g; subst|destruct g; try done; subst; solve_counts..].
Qed.

Lemma inv_finalize s k o payload payload' rest :
  Inv s (FFinalize k o payload :: rest) -> Inv s (FPublish k o (Some payload') None false :: rest).
Proof.
  intros HI. apply (inv_same s (FFinalize k o payload) [_] rest); [done| |solve_counts..].
  apply Forall_singleton. exact (inv_top _ _ _ HI).
Qed.

Lemma inv_publish_late s k o payload error b x rest : ops s !! o = Some x -> finish payload error x = None ->
  Inv s (FPublish k o payload error b :: rest) -> Inv s (when b (FErase k o) ++ rest).
Proof.
  intros Hx Hfin HI. pose proof (inv_top _ _ _ HI) as Ho.
  apply (inv_same s (FPublish k o payload error b)); [done|destruct b; by repeat constructor|destruct b; solve_counts|].
  intros o' y Hy. split; [by destruct b|]. intros Hd _. counts.
  destruct (decide (o = o')) as [<-|Hne]; [|rewrite one_false by done; destruct b; counts; lia].
  simplify_eq. unfold finish in Hfin. by rewrite Hd in Hfin.
Qed.

Lemma inv_callback s c cs rest : Inv s (FCallbacks (c :: cs) :: rest) -> Inv s (FComplete c :: FCallbacks cs :: rest).
Proof.
  intros HI. pose proof (inv_top _ _ _ HI) as Hcs. cbn in Hcs. apply Forall_cons in Hcs as [? ?].
  apply (inv_same s (FCallbacks (c :: cs)) [FComplete c; FCallbacks cs] rest); [done|by repeat constructor|solve_counts..].
  pose proof (one_in c c0 cs). lia.
Qed.

Lemma inv_callbacks_end s rest : Inv s (FCallbacks [] :: rest) -> Inv s rest.
Proof.
  intros HI. apply (inv_same s (FCallbacks []) [] rest); [done|constructor| |solve_counts].
  intros c y Hy. split_and!; [by counts..| |]; [counts; lia|]. intros _. counts. intros Hp.
  apply one_pos in Hp. by apply elem_of_nil in Hp.
Qed.

Lemma inv_complete_late s c x rest : consumers s !! c = Some x -> claim x = None -> Inv s (FComplete c :: rest) -> Inv s rest.
Proof.
  intros Hx Hc HI. apply (inv_same s (FComplete c) [] rest); [done|constructor| |solve_counts].
  intros c' y Hy. split_and!; [by counts|by counts|counts; lia|]. intros Hn. counts. intros Hp.
  apply one_pos in Hp as <-. simplify_eq. unfold claim in Hc. by rewrite Hn in Hc.
Qed.

Lemma inv_detach_late s c x rest : consumers s !! c = Some x -> detach x = None -> Inv s (FDetach c :: rest) -> Inv s rest.
Proof.
  intros Hx Hd HI. apply (inv_same s (FDetach c) [] rest); [done|constructor| |solve_counts].
  intros c' y Hy. split_and!; [by counts| |counts; lia|intros _; counts; lia]. intros _ Hn. counts.
  destruct (decide (c = c')) as [<-|]; [|rewrite one_false by done; lia]. simplify_eq. unfold detach in Hd. by rewrite Hn in Hd.
Qed.

(** *** Steps that change one operation *)

Lemma is_op_set s o x : is_op s o -> ops (set_op o x s) !! o = Some x.
Proof. intros Ho. cbn. apply list_lookup_insert_eq. by apply lookup_lt_is_Some. Qed.

(** A consumer whose callback is registered is waiting. *)
Lemma waiting_registered s fr c y o x id : operation y = Some o -> ops s !! o = Some x -> callbacks_ x !! id = Some c -> waiting s fr c y.
Proof. intros. right. right. exists o, x. eauto 6. Qed.

Lemma inv_set_op s f new rest o x x' :
  Inv s (f :: rest) -> ops s !! o = Some x -> op_le x x' -> Forall (frame_ok (set_op o x' s)) new ->
  (forall c y, consumers s !! c = Some y ->
     sumZ (runs c) new = runs c f /\
     (completion_claimed y = true -> subscription_detached y = false -> detaches c f <= sumZ (detaches c) new) /\
     sumZ (drives c) new <= drives c f) ->
  (forall c y, consumers s !! c = Some y -> completion_claimed y = false ->
     0 < before_subscription c f + will_complete c f \/ (operation y = Some o /\ exists id, callbacks_ x !! id = Some c) ->
     waiting (set_op o x' s) (new ++ rest) c y) ->
  (forall o', o' <> o -> sumZ (holds o') new = holds o' f /\ will_publish o' f <= sumZ (will_publish o') new) ->
  op_step s (set_op o x' s) f new o x x' ->
  Inv (set_op o x' s) (new ++ rest).
Proof.
  intros HI Hx Hle Hf Hc Hw Ho Hs. assert (Hop : is_op s o) by by exists x.
  apply (inv_step s (set_op o x' s) f new rest); auto.
  - by apply le_set_op with x.
  - intros c y Hy. right. exists y. split; [done|]. destruct (Hc c y Hy) as (H1 & H2 & H3).
    apply consumer_step_same; auto; [by apply le_set_op with x|].
    intros Hcl o' y' id Hoo Hy' Hid. destruct (decide (o' = o)) as [->|Hne].
    + simplify_eq. eauto.
    + eapply (waiting_registered _ _ _ _ o' y'); [done| |done]. cbn. by rewrite list_lookup_insert_ne.
  - intros o' y Hy. right. destruct (lookup_set_op s o x' o' y Hop Hy) as [[-> ->]|[Hne Hy']]; [by exists x|].
    exists y. split; [done|]. destruct (Ho o' Hne) as [H1 H2], (inv_ops _ _ HI o' y Hy') as [G1 G2 G3 G4 G5 G6 G7].
    split; try done; [cbn; lia|]. intros Hnd. destruct (abandoned_ y) eqn:Ha; [by left|]. right. right. auto.
  - apply (inv_completed _ _ HI).
Qed.

Lemma held_nonneg o l : 0 <= sumZ (held o) l.
Proof. apply sumZ_nonneg. intros y _. apply one_range. Qed.

Lemma consumers_nonneg s fr o x : Inv s fr -> ops s !! o = Some x -> 0 <= consumers_ x.
Proof.
  intros HI Hx. rewrite (oo_consumers _ _ _ _ (inv_ops _ _ HI o x Hx)).
  pose proof (counts_nonneg (holds o) fr (holds_nonneg o)). pose proof (held_nonneg o (consumers s)). lia.
Qed.

Lemma frame_ok_set_op s o x x' f : ops s !! o = Some x -> op_le x x' -> frame_ok s f -> frame_ok (set_op o x' s) f.
Proof. intros Hx Hle. apply frame_ok_mono; [by apply le_set_op with x|]. by intros c Hu _. Qed.

Lemma inv_attach s c k o owner x x' r rest : ops s !! o = Some x -> attachConsumer x = (x', r) -> r = Attached \/ r = Completed ->
  consumers_ x + 1 < 2 ^ 64 ->
  Inv s (FAttach c k o owner :: rest) -> Inv (set_op o x' s) (FBind c k o owner (bool_decide (r = Attached)) :: rest).
Proof.
  intros Hx Ha Hr Hlim HI. pose proof (inv_top _ _ _ HI) as [Hu Hop]. pose proof (consumers_nonneg _ _ _ _ HI Hx) as Hn.
  destruct (inv_ops _ _ HI o x Hx) as [G1 G2 G3 G4 G5 G6 G7].
  assert (Hcase : (r = Attached /\ done_ x = false /\ abandoned_ x = false /\
      x' = mkOperation false false (consumers_ x + 1) (next_callback_id_ x) (work_cancelled x)
             (cache_persistence_claimed_ x) (payload_ x) (error_ x) (callbacks_ x)) \/
     (r = Completed /\ ended_well x /\ x' = x)).
  { unfold attachConsumer in Ha. destruct (done_ x) eqn:Hd.
    - right. destruct (reusable (payload_ x) (error_ x)) eqn:Hre; [|destruct Hr; simplify_eq]. by simplify_eq.
    - left. destruct (abandoned_ x) eqn:Hab; [destruct Hr; simplify_eq|]. simplify_eq. split_and!; try done.
      by rewrite u64_small by lia. }
  assert (Hle : op_le x x').
  { destruct Hcase as [(_ & Hd & Hab & ->)|(_ & _ & ->)]; [|reflexivity].
    split; cbn; auto with lia; [intros [? _]|]; congruence. }
  apply (inv_set_op s (FAttach c k o owner) [_] rest o x x'); auto.
  - apply Forall_singleton. cbn. split_and!; [done|by apply (is_op_mono s); [apply le_set_op with x|]|].
    intros Hna%bool_decide_eq_false. destruct Hcase as [[? _]|(_ & Hw & ->)]; [done|]. exists x. by rewrite is_op_set.
  - intros c' y Hy. split_and!; counts; lia.
  - intros c' y Hy Hcl [Hp|(Ho & id & Hid)].
    + apply (waiting_frames _ [_]). revert Hp. counts. lia.
    + eapply waiting_registered; [done|by apply is_op_set|]. destruct Hcase as [(_ & _ & _ & ->)|(_ & _ & ->)]; done.
  - intros o' Hne. split; destruct owner, (bool_decide (r = Attached)); counts; rewrite ?(one_false (o = o')) by congruence; lia.
  - destruct Hcase as [(-> & Hd & Hab & ->)|(-> & [Hd _] & ->)].
    + split; cbn [done_ abandoned_ consumers_ next_callback_id_ work_cancelled callbacks_]; try done; try lia.
      * rewrite bool_decide_true by done. counts. rewrite (one_true (o = o)) by done. cbn. lia.
      * intros Hca. apply G3 in Hca. congruence.
      * intros _. destruct owner; [right; left; counts; rewrite one_true by done; lia|]. right. right. counts. split_and!; [done|done|lia].
    + split; try done. intros; congruence.
Qed.

Definition with_callback (c : nat) (x : Operation E) : Operation E :=
  mkOperation false false (consumers_ x) (next_callback_id_ x + 1) (work_cancelled x) (cache_persistence_claimed_ x)
    (payload_ x) (error_ x) (<[next_callback_id_ x := c]> (callbacks_ x)).

(** The outcomes of [subscribe]. *)
Inductive subscribed (c : nat) (x : Operation E) : Operation E -> Z -> bool -> Prop :=
| sub_abandoned : abandoned_ x = true -> subscribed c x x 0 false
| sub_ended : abandoned_ x = false -> done_ x = true -> subscribed c x x 0 true
| sub_registered : abandoned_ x = false -> done_ x = false ->
    subscribed c x (with_callback c x) (next_callback_id_ x) false.

Section Subscribe.
Context (s : Shared E) (c : nat) (k : str) (o : nat) (owner : bool) (x x' : Operation E) (id : Z) (now : bool) (rest : list (frame E)).
Context (Hx : ops s !! o = Some x) (Hs : subscribe c x = (x', id, now)).
Context (Hlim : next_callback_id_ x + 1 < 2 ^ 64) (HI : Inv s (FSubscribe c k o owner :: rest)).

Lemma subscribe_spec : subscribed c x x' id now.
Proof using Hx Hs Hlim HI.
  destruct (inv_ops _ _ HI o x Hx) as [_ _ _ G4 G5 _ _].
  assert (Hfresh : callbacks_ x !! next_callback_id_ x = None).
  { destruct (callbacks_ x !! next_callback_id_ x) as [c'|] eqn:Hc; [|done]. apply G5 in Hc. lia. }
  unfold subscribe in Hs. destruct (abandoned_ x) eqn:Hab; [simplify_eq; by constructor|].
  destruct (done_ x) eqn:Hd; cbn [negb] in Hs; [simplify_eq; by constructor|]. rewrite Hfresh in Hs. simplify_eq.
  rewrite u64_small by lia. by constructor.
Qed.

Lemma subscribe_le : op_le x x'.
Proof using Hx Hs Hlim HI.
  destruct subscribe_spec; [reflexivity..|]. split; cbn; [lia| |intros [? _]; congruence|congruence].
  intros i c' Hi Hc. rewrite lookup_insert_ne in Hc by lia. done.
Qed.

(** The consumer itself now waits for its callback, is completed at once, or
    has joined an operation that ended after it had been abandoned. *)
Lemma subscribe_waits y : consumers s !! c = Some y -> completion_claimed y = false ->
  waiting (set_op o x' s) ((when now (FComplete c) ++ [FSetSubscription c k o owner id]) ++ rest) c y.
Proof using Hx Hs Hlim HI.
  intros Hy Hcl. pose proof (inv_top _ _ _ HI) as (Hop & _ & Hb).
  assert (Hoy : operation y = Some o) by (destruct Hb as [(z & Hz & ?)|(z & Hz & ?)]; simplify_eq; congruence).
  pose proof (is_op_set s o x' Hop) as Hx'. pose proof subscribe_le as Hle. destruct subscribe_spec as [Hab|Hab Hd|Hab Hd].
  - apply (waiting_ended s _ _ c y o x); [by apply le_set_op with x|done|done|done|].
    destruct (co_operation _ _ _ _ (inv_consumers _ _ HI c y Hy) o Hoy) as (_ & Hw & _).
    destruct (operation_attached y) eqn:Hat; [exfalso|by destruct (Hw eq_refl) as (z & Hz & ?); simplify_eq].
    destruct (inv_ops _ _ HI o x Hx) as [G1 G2 _ _ _ _ _]. pose proof (G2 Hab).
    pose proof (counts_nonneg (holds o) (FSubscribe c k o owner :: rest) (holds_nonneg o)).
    pose proof (sumZ_lookup_le (held o) (consumers s) c y ltac:(apply Forall_forall; intros; apply one_range) Hy) as Hh.
    unfold held at 1 in Hh. rewrite one_true in Hh by done. lia.
  - apply waiting_frames. counts. rewrite one_true by done. lia.
  - eapply waiting_registered; [done|done|]. cbn. apply lookup_insert_eq.
Qed.

Lemma subscribe_op : op_step s (set_op o x' s) (FSubscribe c k o owner) (when now (FComplete c) ++ [FSetSubscription c k o owner id]) o x x'.
Proof using Hx Hs Hlim HI.
  pose proof (inv_top _ _ _ HI) as (_ & Hcs & _). destruct (inv_ops _ _ HI o x Hx) as [G1 G2 G3 G4 G5 G6 G7].
  assert (Hsums : sumZ (holds o) (when now (FComplete c) ++ [FSetSubscription c k o owner id]) = 0 /\
      will_publish o (FSubscribe c k o owner) <= sumZ (will_publish o) (when now (FComplete c) ++ [FSetSubscription c k o owner id])).
  { destruct now, owner; counts; lia. }
  destruct Hsums as [Hs1 Hs2]. pose proof (ol_next _ _ subscribe_le). destruct subscribe_spec as [Hab|Hab Hd|Hab Hd].
  - split; try done. intros _. by left.
  - split; try done. intros; congruence.
  - split; try done; [cbn; intros Hca%G3; congruence| |intros _; right; right; auto].
    intros i c' Hi. cbn in Hi |- *. apply lookup_insert_Some in Hi as [[<- <-]|[_ Hi%G5]]; [split; [lia|done]|]. split; [lia|tauto].
Qed.

Lemma inv_subscribe : Inv (set_op o x' s) ((when now (FComplete c) ++ [FSetSubscription c k o owner id]) ++ rest).
Proof using Hx Hs Hlim HI.
  pose proof (inv_top _ _ _ HI) as (Hop & Hcs & Hb). pose proof (inv_ops _ _ HI o x Hx) as Hok.
  pose proof (is_op_set s o x' Hop) as Hx'. apply (inv_set_op s (FSubscribe c k o owner) _ rest o x x'); auto.
  - apply subscribe_le.
  - apply Forall_app. split; [destruct now; by repeat constructor|]. apply Forall_singleton. cbn. split_and!; [by exists x'|done|done|].
    intros Hid. exists x'. split; [done|]. destruct subscribe_spec; [done|done|]. cbn. pose proof (oo_ids _ _ _ _ Hok).
    split; [lia|]. intros c'. rewrite lookup_insert_eq. by intros [= ->].
  - intros c' y Hy. destruct now; split_and!; counts; lia.
  - intros c' y Hy Hcl [Hp|(Ho & i & Hi)].
    + assert (c = c') as <- by (revert Hp; counts; intros Hp; by apply one_pos in Hp). by apply subscribe_waits.
    + eapply waiting_registered; [done|done|]. destruct subscribe_spec; [done|done|]. cbn. rewrite lookup_insert_ne; [done|].
      apply (oo_callbacks _ _ _ _ Hok) in Hi. lia.
  - intros o' Hne. split; destruct now, owner; counts; rewrite ?(one_false (o = o')) by congruence; lia.
  - apply subscribe_op.
Qed.
End Subscribe.

Lemma inv_publish s k o payload error b x x' run cs rest :
  ops s !! o = Some x -> finish payload error x = Some (x', run) -> cs ≡ₚ run ->
  Inv s (FPublish k o payload error b :: rest) -> Inv (set_op o x' s) (FCallbacks cs :: FErase k o :: rest).
Proof.
  intros Hx Hfin Hp HI. pose proof (inv_top _ _ _ HI) as Hop. destruct (inv_ops _ _ HI o x Hx) as [G1 G2 G3 G4 G5 G6 G7].
  unfold finish in Hfin. destruct (done_ x) eqn:Hd; [done|]. injection Hfin as <- <-.
  assert (Hcs : forall c id, callbacks_ x !! id = Some c -> c ∈ cs).
  { intros c id Hid. rewrite Hp. apply list_elem_of_fmap. exists (id, c). split; [done|]. by apply elem_of_map_to_list. }
  apply (inv_set_op s (FPublish k o payload error b) [FCallbacks cs; FErase k o] rest o x); auto.
  - split; cbn; [lia|intros id c _; by rewrite lookup_empty|intros [? _]; congruence|done].
  - apply Forall_cons. split; [cbn|apply Forall_singleton; eexists; by apply is_op_set].
    apply Forall_forall. intros c Hc. rewrite Hp in Hc. apply list_elem_of_fmap in Hc as ([id c'] & -> & Hc).
    apply elem_of_map_to_list, G5 in Hc. tauto.
  - intros c y Hy. split_and!; counts; lia.
  - intros c y Hy Hcl [Hp'|(Ho & id & Hid)]; [by revert Hp'; counts|]. apply (waiting_frames _ [_; _]). counts.
    rewrite one_true by eauto. lia.
  - intros o' Hne. split; counts; rewrite ?(one_false (o = o')) by congruence; lia.
  - split; cbn; try done.
Qed.

Lemma inv_unsubscribe s o id x x' found rest : ops s !! o = Some x -> unsubscribe id x = (x', found) ->
  Inv s (FUnsubscribe o id :: rest) -> Inv (set_op o x' s) rest.
Proof.
  intros Hx Hu HI. pose proof (inv_top _ _ _ HI) as (z & Hz & Hid & Hsub). simplify_eq.
  destruct (inv_ops _ _ HI o x Hx) as [G1 G2 G3 G4 G5 G6 G7]. assert (Hop : is_op s o) by by exists x.
  unfold unsubscribe in Hu. destruct (Z.eqb_spec id 0) as [|_]; [lia|]. injection Hu as <- _.
  apply (inv_set_op s (FUnsubscribe o id) [] rest o x); auto.
  - split; cbn; [lia| |done|done]. intros i c _ Hc. by apply lookup_delete_Some in Hc as [_ ?].
  - intros c y Hy. split_and!; counts; lia.
  - intros c y Hy Hcl [Hp|(Ho & i & Hi)]; [by revert Hp; counts|]. eapply waiting_registered; [done|by apply is_op_set|].
    cbn. rewrite lookup_delete_ne; [done|]. intros <-. destruct (Hsub c Hi) as (y' & Hy' & ?). simplify_eq. congruence.
  - intros o' Hne. split; counts; lia.
  - split; cbn; try done; [|intros Hd; by rewrite (G6 Hd), delete_empty|].
    + intros i c Hc. apply lookup_delete_Some in Hc as [_ Hc]. by apply G5.
    + intros Hd. destruct (abandoned_ x); [by left|]. right. right. counts. split_and!; [done|done|lia].
Qed.

Lemma inv_release s o x x' cancel rest : ops s !! o = Some x -> releaseConsumer x = (x', cancel) ->
  Inv s (FRelease o :: rest) -> Inv (set_op o x' s) (when cancel (FCancelWork o) ++ rest).
Proof.
  intros Hx Hr HI. pose proof (inv_top _ _ _ HI) as Hop. destruct (inv_ops _ _ HI o x Hx) as [G1 G2 G3 G4 G5 G6 G7].
  rewrite sumZ_cons in G1. cbn [holds] in G1. rewrite one_true in G1 by done.
  pose proof (counts_nonneg (holds o) rest (holds_nonneg o)). pose proof (held_nonneg o (consumers s)).
  assert (Hab : abandoned_ x = false) by (destruct (abandoned_ x); [specialize (G2 eq_refl); lia|done]).
  unfold releaseConsumer in Hr. destruct (Z.eqb_spec (consumers_ x) 0) as [|_]; [lia|]. cbv zeta in Hr. injection Hr as <- <-.
  set (cancel := (consumers_ x - 1 =? 0) && negb (done_ x)). rewrite Hab. cbn [orb].
  assert (Hle : op_le x (mkOperation (done_ x) cancel (consumers_ x - 1) (next_callback_id_ x) (work_cancelled x)
                 (cache_persistence_claimed_ x) (payload_ x) (error_ x) (callbacks_ x))) by (split; cbn; auto with lia; congruence).
  apply (inv_set_op s (FRelease o) _ rest o x); auto.
  - destruct cancel; [|constructor]. apply Forall_singleton. eexists. by rewrite is_op_set.
  - intros c y Hy. destruct cancel; split_and!; counts; lia.
  - intros c y Hy Hcl [Hp|(Ho & i & Hi)]; [by revert Hp; counts|]. eapply waiting_registered; [done|by apply is_op_set|done].
  - intros o' Hne. split; destruct cancel; counts; rewrite ?(one_false (o = o')) by congruence; lia.
  - split; cbn [consumers_ abandoned_ work_cancelled next_callback_id_ callbacks_ done_ consumers set_op]; try done.
    + cbn [holds]. rewrite (one_true (o = o)) by done. destruct cancel; counts; lia.
    + unfold cancel. intros [?%Z.eqb_eq _]%andb_true_iff. lia.
    + intros Hw%G3. congruence.
    + intros Hd. destruct cancel eqn:Ec; [by left|]. right. right. counts. split_and!; [done|done|lia].
Qed.

Lemma inv_cancel_work s o x rest : ops s !! o = Some x -> Inv s (FCancelWork o :: rest) -> Inv (set_op o (cancel_work x) s) rest.
Proof.
  intros Hx HI. pose proof (inv_top _ _ _ HI) as (z & Hz & Hab). simplify_eq. assert (Hop : is_op s o) by by exists x.
  destruct (inv_ops _ _ HI o x Hx) as [G1 G2 G3 G4 G5 G6 G7].
  apply (inv_set_op s (FCancelWork o) [] rest o x); auto.
  - by split; cbn.
  - intros c y Hy. split_and!; counts; lia.
  - intros c y Hy Hcl [Hp|(Ho & i & Hi)]; [by revert Hp; counts|]. eapply waiting_registered; [done|by apply is_op_set|done].
  - intros o' Hne. split; counts; lia.
  - split; cbn; try done. by left.
Qed.

(** *** Steps on the registry and the log *)

Lemma inv_erase s k o rest : Inv s (FErase k o :: rest) -> Inv (erase_entry k o s) rest.
Proof.
  intros HI. assert (H0 : Inv s rest).
  { apply (inv_same s (FErase k o) [] rest); [done|constructor|..]; intros; split_and!; counts; intros; lia. }
  unfold erase_entry. case_bool_decide; [|done]. destruct H0 as [H1 H2 H3 H4 H5]. split; cbn; auto.
  - intros c x Hx. destruct (H2 c x Hx) as []. by split.
  - intros o' x Hx. destruct (H3 o' x Hx). by split.
  - intros k' o' [_ Hk]%lookup_delete_Some. eauto.
Qed.

Lemma holds_op s f o : frame_ok s f -> holds o f <> 0 -> is_op s o.
Proof.
  destruct f; cbn; try done.
  - intros (_ & ? & _). destruct attached; [|done]. unfold one. case_bool_decide; [by subst|done].
  - unfold one. case_bool_decide; [by subst|done].
Qed.

(** Nobody holds an operation that does not exist. *)
Lemma no_holder s fr : Inv s fr -> sumZ (holds (length (ops s))) fr = 0 /\ sumZ (held (length (ops s))) (consumers s) = 0.
Proof.
  intros HI. assert (Hno : ~ is_op s (length (ops s))) by (intros [x Hx%lookup_lt_Some]; lia). split; apply sumZ_zero.
  - intros f Hf. destruct (decide (holds (length (ops s)) f = 0)) as [|Hne]; [done|exfalso; apply Hno].
    pose proof (inv_frames _ _ HI) as Hall. rewrite Forall_forall in Hall. by apply (holds_op s f); [apply Hall|].
  - intros y Hy. apply one_false. intros [Ho _]. apply Hno. apply list_elem_of_lookup_1 in Hy as [c Hc].
    by apply (co_operation _ _ _ _ (inv_consumers _ _ HI c y Hc)).
Qed.

Lemma inv_lookup s s' c k o owner rest : find_or_create k s = (s', o, owner) ->
  Inv s (FLookup c k :: rest) -> Inv s' (FAttach c k o owner :: rest).
Proof.
  intros Hf HI. pose proof (inv_top _ _ _ HI) as Hu. unfold find_or_create in Hf.
  destruct (cache_fetches s !! k) as [o'|] eqn:Hk; injection Hf as <- <- <-.
  - apply (inv_same s (FLookup c k) [FAttach c k o' false] rest); [done| |intros; split_and!; counts; intros; lia..].
    apply Forall_singleton. split; [done|]. by apply (inv_registry _ _ HI k).
  - destruct (no_holder _ _ HI) as [Hh1 Hh2]. rewrite sumZ_cons in Hh1. cbn [holds] in Hh1.
    set (s' := mkShared (<[k:=length (ops s)]> (cache_fetches s)) (ops s ++ [new_operation]) (consumers s) (completed s)).
    assert (Hnew : ops s' !! length (ops s) = Some new_operation) by (cbn; by apply list_lookup_middle).
    assert (Hold : forall o x, ops s !! o = Some x -> ops s' !! o = Some x) by (intros o x Hx; cbn; by apply lookup_app_l_Some).
    assert (Hle : state_le s s').
    { split; [|intros c' y Hy; exists y; split; [done|reflexivity]]. intros o x Hx. exists x. split; [auto|reflexivity]. }
    apply (inv_step s s' (FLookup c k) [FAttach c k (length (ops s)) true] rest); auto.
    + apply Forall_singleton. split; [done|]. by exists new_operation.
    + intros c' y Hy. right. exists y. split; [done|]. apply consumer_step_same; auto; [counts; lia..| |].
      * intros _ Hp. apply (waiting_frames _ [_]). revert Hp. counts. lia.
      * intros _ o y' id Ho Hy' Hid. eapply waiting_registered; eauto.
    + intros o x Hx. apply lookup_app_Some in Hx as [Hx|[Hge Hx]].
      * right. exists x. split; [done|]. destruct (inv_ops _ _ HI o x Hx) as [G1 G2 G3 G4 G5 G6 G7]. split; try done.
        intros Hd. destruct (abandoned_ x); [by left|]. right. right. counts. split_and!; [done|done|lia].
      * left. apply list_lookup_singleton_Some in Hx as [Hz <-]. assert (o = length (ops s)) as -> by lia.
        split; cbn; try done.
        -- counts. cbn in Hh2. lia.
        -- intros _. right. counts. rewrite one_true by done.
           pose proof (counts_nonneg (will_publish (length (ops s))) rest (will_publish_nonneg _)). lia.
    + intros k' o Hk'. cbn in Hk'. apply lookup_insert_Some in Hk' as [[<- <-]|[_ Hk']]; [right; by exists new_operation|by left].
    + apply (inv_completed _ _ HI).
Qed.

Lemma inv_run s c rest : Inv s (FRun c :: rest) ->
  Inv (mkShared (cache_fetches s) (ops s) (consumers s) (c :: completed s)) rest.
Proof.
  intros HI. pose proof (inv_top _ _ _ HI) as (z & Hz & Hcl). set (s' := mkShared _ _ _ _).
  assert (Hle : state_le s s') by (split; intros i y Hy; exists y; split; try done; reflexivity).
  apply (inv_step s s' (FRun c) [] rest); auto.
  - intros c' y Hy. right. exists y. split; [done|]. destruct (inv_consumers _ _ HI c' y Hy) as [G1 G2 G3 G4 G5 G6 G7]. split; try done.
    + intros Hc Hd. right. split_and!; [done|done|counts; lia].
    + intros o Ho. by left.
    + intros _ o y' Ho Hy' Hw. right. right. by exists o, y'.
  - intros o x Hx. right. exists x. split; [done|]. destruct (inv_ops _ _ HI o x Hx) as [G1 G2 G3 G4 G5 G6 G7]. split; try done.
    intros Hd. destruct (abandoned_ x); [by left|]. right. right. counts. split_and!; [done|done|lia].
  - constructor; [by exists z|]. apply (inv_completed _ _ HI).
Qed.

(** *** Steps that change one consumer *)

Lemma inv_set_consumer s f new rest c x x' :
  Inv s (f :: rest) -> consumers s !! c = Some x -> consumer_le x x' ->
  (operation x = None -> operation x' = None \/ 0 < drives c f) ->
  Forall (frame_ok (set_consumer c x' s)) new ->
  consumer_step s (set_consumer c x' s) f new rest c x x' ->
  (forall c', c' <> c ->
     sumZ (runs c') new = runs c' f /\ detaches c' f <= sumZ (detaches c') new /\ sumZ (drives c') new <= drives c' f /\
     before_subscription c' f + will_complete c' f = 0) ->
  (forall o, is_op s o -> sumZ (holds o) new + held o x' = holds o f + held o x /\ will_publish o f <= sumZ (will_publish o) new) ->
  Inv (set_consumer c x' s) (new ++ rest).
Proof.
  intros HI Hx Hle Hu Hf Hs Hc Ho. assert (Hc0 : is_Some (consumers s !! c)) by by exists x.
  assert (Hsl : state_le s (set_consumer c x' s)) by by apply le_set_consumer with x.
  assert (Hx' : consumers (set_consumer c x' s) !! c = Some x').
  { cbn. apply list_lookup_insert_eq. by apply lookup_lt_is_Some. }
  apply (inv_step s (set_consumer c x' s) f new rest); auto.
  - intros c' (y & Hy & Hop). destruct (decide (c' = c)) as [->|Hne].
    + simplify_eq. destruct (Hu Hop); [left|by right]. by exists x'.
    + left. exists y. split; [|done]. cbn. by rewrite list_lookup_insert_ne.
  - intros c' y Hy. right. destruct (lookup_set_consumer s c x' c' y Hc0 Hy) as [[-> ->]|[Hne Hy']]; [by exists x|].
    exists y. split; [done|]. destruct (Hc c' Hne) as (H1 & H2 & H3 & H4). apply consumer_step_same; auto; [lia|].
    intros _ o y' id Hop Hy'' Hid. by eapply (waiting_registered _ _ _ _ o y').
  - intros o y Hy. right. exists y. split; [done|]. destruct (Ho o) as [H1 H2]; [by exists y|].
    destruct (inv_ops _ _ HI o y Hy) as [G1 G2 G3 G4 G5 G6 G7]. split; try done.
    + cbn. rewrite (sumZ_insert _ _ _ x) by done. lia.
    + intros i c' Hi. apply G5 in Hi as [? Hi]. split; [done|]. by apply (consumer_mono s).
    + intros Hd. destruct (abandoned_ y); [by left|]. right. right. auto.
  - eapply Forall_impl; [apply (inv_completed _ _ HI)|]. apply (consumer_mono s _ Hsl).
Qed.

Lemma lookup_set_same s c x x' : consumers s !! c = Some x -> consumers (set_consumer c x' s) !! c = Some x'.
Proof. intros Hx. cbn. apply list_lookup_insert_eq. by eapply lookup_lt_Some. Qed.

Lemma held_eq o x :
  held o x = match operation x with Some o' => if operation_attached x then one (o' = o) else 0 | None => 0 end.
Proof.
  unfold held. destruct (operation x) as [o'|]; [|apply one_false; by intros [? _]].
  destruct (operation_attached x); [|apply one_false; by intros [_ ?]]. unfold one. f_equal. apply bool_decide_ext. naive_solver.
Qed.

Lemma inv_bind s c k o owner attached x x' rest : consumers s !! c = Some x -> bind o attached x = Some x' ->
  Inv s (FBind c k o owner attached :: rest) -> Inv (set_consumer c x' s) (FSubscribe c k o owner :: rest).
Proof.
  intros Hx Hb HI. pose proof (inv_top _ _ _ HI) as ((y & Hy & Hop) & Ho & Hw). simplify_eq.
  unfold bind in Hb. destruct (subscription_detached x) eqn:Hd; [done|]. destruct (completion_claimed x) eqn:Hcl; [done|].
  cbn in Hb. injection Hb as <-. destruct (inv_consumers _ _ HI c x Hx) as [G1 G2 G3 G4 G5 G6 G7].
  set (x' := mkConsumer _ _ _ _ _). assert (Hx' : consumers (set_consumer c x' s) !! c = Some x') by by eapply lookup_set_same.
  assert (Hle : consumer_le x x') by (split; cbn; congruence).
  apply (inv_set_consumer s (FBind c k o owner attached) [_] rest c x x'); auto.
  - intros _. right. counts. rewrite one_true by done. lia.
  - apply Forall_singleton. split_and!; [done|by exists x'|]. right. by exists x'.
  - split; cbn [x' subscription_detached completion_claimed operation operation_attached subscription_id]; try done.
    + rewrite Hcl. counts. cbn. lia.
    + counts. lia.
    + intros o' [= <-]. right. split_and!; [done|exact Hw|]. by rewrite G7.
    + intros _ _. apply (waiting_frames _ [_]). counts. rewrite one_true by done. lia.
    + intros _ o' y Hop'. congruence.
  - intros c' Hne. split_and!; counts; rewrite ?(one_false (c = c')) by congruence; lia.
  - intros o' _. rewrite !held_eq, Hop. cbn [x' operation operation_attached]. destruct owner, attached; split; counts; lia.
Qed.

Lemma inv_set s c k o owner id x x' back rest : consumers s !! c = Some x -> set_subscription o id x = (x', back) ->
  Inv s (FSetSubscription c k o owner id :: rest) ->
  Inv (set_consumer c x' s) ((when back (FUnsubscribe o id) ++ when owner (FWork k o)) ++ rest).
Proof.
  intros Hx Hs HI. pose proof (inv_top _ _ _ HI) as (Ho & _ & Hb & Hsub).
  destruct (inv_consumers _ _ HI c x Hx) as [G1 G2 G3 G4 G5 G6 G7].
  assert (Hcase : (back = false /\ (x' = x \/ id <> 0 /\ operation x = Some o /\ subscription_detached x = false /\
                     x' = mkConsumer (operation x) id (operation_attached x) (subscription_detached x) (completion_claimed x))) \/
                  (back = true /\ x' = x /\ id <> 0 /\ completion_claimed x = true)).
  { unfold set_subscription in Hs. destruct (Z.eqb_spec id 0) as [|Hid]; [simplify_eq; auto|].
    destruct (subscription_detached x) eqn:Hd; cbn [orb] in Hs.
    - right. simplify_eq. split_and!; [done..|by apply G2].
    - case_bool_decide as Hop; cbn in Hs; simplify_eq; [left; auto 6|]. right. split_and!; [done..|].
      destruct Hb as [(z & Hz & ?)|(z & Hz & ?)]; simplify_eq; congruence. }
  assert (Hsame : operation x' = operation x /\ operation_attached x' = operation_attached x /\
                  subscription_detached x' = subscription_detached x /\ completion_claimed x' = completion_claimed x).
  { by destruct Hcase as [(_ & [->|(_ & _ & _ & ->)])|(_ & -> & _)]. }
  destruct Hsame as (E1 & E2 & E3 & E4).
  assert (Hle : consumer_le x x') by (split; rewrite ?E1, ?E4; auto).
  assert (Hsl : state_le s (set_consumer c x' s)) by by apply le_set_consumer with x.
  assert (Hx' : consumers (set_consumer c x' s) !! c = Some x') by by eapply lookup_set_same.
  apply (inv_set_consumer s (FSetSubscription c k o owner id) _ rest c x x'); auto.
  - intros Hop. left. congruence.
  - apply Forall_app. split; [|by destruct owner; repeat constructor]. destruct back; [|constructor]. apply Forall_singleton.
    destruct Hcase as [[? _]|(_ & _ & Hid & Hcl)]; [done|]. eapply (subscriber_mono _ _ Hsl); [|by apply Hsub].
    intros c' ->. exists x'. by rewrite E4.
  - split; rewrite ?E1, ?E2, ?E3, ?E4; try done.
    + destruct back, owner; counts; cbn; lia.
    + intros Hcl Hd. right. split_and!; [done|done|destruct back, owner; counts; lia].
    + destruct back, owner; counts; lia.
    + intros o' Hop. destruct Hcase as [(_ & [->|(Hid & Hop' & Hd & ->)])|(_ & -> & _)]; [by left| |by left].
      right. simplify_eq. destruct (G5 o Hop') as (K1 & K2 & _). cbn. split_and!; [done|exact K2|]. intros _.
      eapply (subscriber_mono _ _ Hsl); [|by apply Hsub]. done.
    + intros _ o' y Hop Hy Hw. right. right. exists o', y. rewrite E1. auto.
    + intros Hop. destruct Hcase as [(_ & [->|(_ & Hop' & _)])|(_ & -> & _)]; [auto|congruence|auto].
  - intros c' Hne. split_and!; destruct back, owner; counts; rewrite ?(one_false (c = c')) by congruence; lia.
  - intros o' _. unfold held. rewrite E1, E2. split; destruct back, owner; counts; lia.
Qed.

Lemma inv_complete s c x x' rest : consumers s !! c = Some x -> claim x = Some x' ->
  Inv s (FComplete c :: rest) -> Inv (set_consumer c x' s) (FDetach c :: FRun c :: rest).
Proof.
  intros Hx Hc HI. unfold claim in Hc. destruct (completion_claimed x) eqn:Hcl; [done|]. injection Hc as <-.
  destruct (inv_consumers _ _ HI c x Hx) as [G1 G2 G3 G4 G5 G6 G7].
  assert (Hd : subscription_detached x = false) by (destruct (subscription_detached x); [destruct (G2 eq_refl); congruence|done]).
  set (x' := mkConsumer _ _ _ _ _). assert (Hx' : consumers (set_consumer c x' s) !! c = Some x') by by eapply lookup_set_same.
  assert (Hle : consumer_le x x') by (split; cbn; auto).
  apply (inv_set_consumer s (FComplete c) [FDetach c; FRun c] rest c x x'); auto.
  - repeat constructor; by exists x'.
  - split; cbn [x' subscription_detached completion_claimed operation operation_attached subscription_id]; try done.
    + rewrite Hcl. counts. rewrite one_true by done. cbn. lia.
    + by rewrite Hd.
    + intros _ _. left. counts. rewrite one_true by done. lia.
    + intros o Ho. by left.
  - intros c' Hne. split_and!; counts; rewrite ?(one_false (c = c')) by congruence; lia.
  - intros o _. split; [|counts; lia]. unfold held. cbn [x' operation operation_attached]. counts. lia.
Qed.

(** What a consumer gives up when it is detached. *)
Definition given_up (o : option nat) (id : Z) (attached : bool) : list (frame E) :=
  match o with Some o => when (negb (id =? 0)) (FUnsubscribe o id) ++ when attached (FRelease o) | None => [] end.

Lemma inv_detach s c x x' o id attached rest : consumers s !! c = Some x -> detach x = Some (x', o, id, attached) ->
  Inv s (FDetach c :: rest) -> Inv (set_consumer c x' s) (given_up o id attached ++ rest).
Proof.
  intros Hx Hdet HI. pose proof (inv_top _ _ _ HI) as (y & Hy & Hcl). simplify_eq.
  unfold detach in Hdet. destruct (subscription_detached x) eqn:Hd; [done|]. injection Hdet as <- <- <- <-.
  destruct (inv_consumers _ _ HI c x Hx) as [G1 G2 G3 G4 G5 G6 G7]. rewrite Hcl.
  set (x' := mkConsumer _ _ _ _ _). assert (Hx' : consumers (set_consumer c x' s) !! c = Some x') by by eapply lookup_set_same.
  assert (Hle : consumer_le x x') by (split; cbn; auto).
  assert (Hsl : state_le s (set_consumer c x' s)) by by apply le_set_consumer with x.
  apply (inv_set_consumer s (FDetach c) _ rest c x x'); auto.
  - unfold given_up. destruct (operation x) as [o|] eqn:Ho; [|constructor]. destruct (G5 o eq_refl) as (K1 & _ & K3).
    apply Forall_app. split; [|destruct (operation_attached x); by repeat constructor].
    destruct (Z.eqb_spec (subscription_id x) 0); [constructor|]. apply Forall_singleton.
    eapply (subscriber_mono _ _ Hsl); [|by apply K3]. intros c' ->. by exists x'.
  - split; cbn [x' subscription_detached completion_claimed operation operation_attached subscription_id]; try done.
    + rewrite Hcl. unfold given_up. destruct (operation x), (subscription_id x =? 0), (operation_attached x); counts; cbn; lia.
    + unfold given_up. destruct (operation x), (subscription_id x =? 0), (operation_attached x); counts; lia.
  - intros c' Hne. unfold given_up. destruct (operation x), (subscription_id x =? 0), (operation_attached x);
      split_and!; counts; rewrite ?(one_false (c = c')) by congruence; lia.
  - intros o _. rewrite !held_eq. unfold given_up. cbn [x' operation].
    destruct (operation x), (operation_attached x), (subscription_id x =? 0); split; counts; lia.
Qed.

(** *** Calls and cancellations *)

Lemma inv_idle s fr : Inv s fr -> Inv s (FCallbacks [] :: fr).
Proof.
  intros [H1 H2 H3 H4 H5]. split; [by constructor; [constructor|]| | |done|done].
  - intros c x Hx. destruct (H2 c x Hx) as [G1 G2 G3 G4 G5 G6 G7]. by split.
  - intros o x Hx. destruct (H3 o x Hx). by split.
Qed.

Lemma inv_cancel s fr c x : consumers s !! c = Some x -> Inv s fr -> Inv s (FComplete c :: fr).
Proof.
  intros Hx HI%inv_idle. apply (inv_same s (FCallbacks []) [FComplete c] fr); [done| | |].
  - apply Forall_singleton. by exists x.
  - intros c' y Hy. split_and!; [by counts|by counts|by counts|]. intros _. counts. intros Hp%one_pos. by apply elem_of_nil in Hp.
  - intros o y Hy. by split; counts.
Qed.

Lemma runs_drives_of s f c : frame_ok s f -> runs c f <> 0 \/ drives c f <> 0 -> is_Some (consumers s !! c).
Proof.
  intros Hf Hn.
  assert (Hu : forall c', unbound s c' -> one (c' = c) <> 0 -> is_Some (consumers s !! c)).
  { intros c' (x & Hx & _) Ho. unfold one in Ho. case_bool_decide; [subst; by exists x|done]. }
  assert (Hi : forall c', is_Some (consumers s !! c') -> one (c' = c) <> 0 -> is_Some (consumers s !! c)).
  { intros c' Hx Ho. unfold one in Ho. case_bool_decide; [by subst|done]. }
  destruct f; unfold drives in Hn; cbn in Hf, Hn; try lia;
    destruct Hn as [Hn|Hn]; try lia; rewrite ?Z.add_0_r, ?Z.add_0_l in Hn;
    first [by (eapply Hu; [|exact Hn]; tauto) | by (eapply Hi; [|exact Hn]; tauto) | idtac].
  destruct Hf as (x & Hx & _). eapply Hi; [by exists x|exact Hn].
Qed.

(** The request of a new consumer. *)
Lemma inv_call s fr k : Inv s fr ->
  Inv (mkShared (cache_fetches s) (ops s) (consumers s ++ [new_consumer]) (completed s)) (FBegin (length (consumers s)) k :: fr).
Proof.
  intros HI. set (n := length (consumers s)). set (s' := mkShared _ _ _ _). pose proof (inv_idle _ _ HI) as HI'.
  assert (Hn : ~ is_Some (consumers s !! n)) by (intros Hl%lookup_lt_is_Some; unfold n in Hl; lia).
  assert (Hnew : consumers s' !! n = Some new_consumer) by (cbn; by apply list_lookup_middle).
  assert (Hold : forall c x, consumers s !! c = Some x -> consumers s' !! c = Some x) by (intros c x Hx; cbn; by apply lookup_app_l_Some).
  assert (Hle : state_le s s').
  { split; [intros o y Hy; exists y; split; [done|reflexivity]|]. intros c x Hx. exists x. split; [auto|reflexivity]. }
  pose proof (inv_frames _ _ HI) as Hfr. rewrite Forall_forall in Hfr.
  assert (Hnone : sumZ (runs n) fr = 0 /\ sumZ (drives n) fr = 0).
  { split; apply sumZ_zero; intros f Hf.
    - destruct (decide (runs n f = 0)); [done|exfalso; apply Hn; eapply (runs_drives_of s f); eauto].
    - destruct (decide (drives n f = 0)); [done|exfalso; apply Hn; eapply (runs_drives_of s f); eauto]. }
  destruct Hnone as [N1 N2].
  assert (N3 : count n (completed s) = 0).
  { apply sumZ_zero. intros c Hc. apply one_false. intros ->. apply Hn.
    pose proof (inv_completed _ _ HI) as Hall. rewrite Forall_forall in Hall. auto. }
  apply (inv_step s s' (FCallbacks []) [FBegin n k] fr); auto.
  - intros c (x & Hx & Ho). left. exists x. auto.
  - apply Forall_singleton. by exists new_consumer.
  - intros c x Hx. apply lookup_app_Some in Hx as [Hx|[Hge Hx]].
    + right. exists x. split; [done|]. assert (c <> n) by (intros ->; apply Hn; by exists x).
      apply consumer_step_same; auto; [counts; rewrite ?(one_false (n = c)) by congruence; lia..| |].
      * intros _. counts. intros Hp%one_pos. by apply elem_of_nil in Hp.
      * intros _ o y id Ho Hy Hid. by eapply waiting_registered.
    + left. apply list_lookup_singleton_Some in Hx as [Hz <-]. assert (c = n) as -> by (unfold n; lia).
      split; cbn [new_consumer subscription_detached completion_claimed operation subscription_id]; try done; counts.
      * cbn. lia.
      * rewrite one_true by done. unfold drives in N2. lia.
      * intros _. left. counts. rewrite one_true by done. pose proof (counts_nonneg (before_subscription n) fr (before_nonneg n)). lia.
  - intros o x Hx. right. exists x. split; [done|]. destruct (inv_ops _ _ HI o x Hx) as [G1 G2 G3 G4 G5 G6 G7]. split; try done.
    + cbn [consumers s']. rewrite sumZ_app, !sumZ_cons, held_eq, !sumZ_nil. cbn. lia.
    + intros id c Hc. apply G5 in Hc as [? Hc]. split; [done|]. by apply (consumer_mono s).
    + intros Hd. destruct (abandoned_ x); [by left|]. right. right. counts. split_and!; [done|done|lia].
  - eapply Forall_impl; [apply (inv_completed _ _ HI)|]. apply (consumer_mono s _ Hle).
Qed.

(** ** Every step keeps the invariant *)

Lemma exec_inv s f s' fs' new rest : exec s f s' fs' new -> Inv s (f :: rest) -> Inv s' (fs' ++ concat new ++ rest).
Proof.
  destruct 1; cbn [concat app]; intros HI.
  - by eapply inv_begin_claimed.
  - by eapply inv_begin.
  - by eapply inv_lookup.
  - by eapply inv_attach.
  - by eapply inv_retry.
  - by eapply inv_erase.
  - by eapply inv_bind.
  - by eapply inv_bind_late.
  - by eapply inv_subscribe.
  - assert (Hc : concat (if owner then [[FWork k o]] else []) = when owner (@FWork E k o)) by by destruct owner.
    rewrite Hc, app_assoc. by eapply inv_set.
  - by eapply inv_work.
  - by eapply inv_work.
  - by eapply inv_finalize.
  - by eapply inv_publish.
  - by eapply inv_publish_late.
  - by eapply inv_callback.
  - by eapply inv_callbacks_end.
  - by eapply inv_complete.
  - by eapply inv_complete_late.
  - by eapply (inv_detach _ _ _ _ (Some o)).
  - by eapply (inv_detach _ _ _ _ None).
  - by eapply inv_detach_late.
  - by eapply inv_unsubscribe.
  - by eapply inv_release.
  - by eapply inv_cancel_work.
  - by eapply inv_run.
Qed.

Definition in_order (w : World E) : Prop := Inv (shared w) (concat (threads w)).

Lemma init_in_order : in_order init.
Proof. split; cbn; try by constructor. intros k o. by rewrite lookup_empty. Qed.

Lemma step_in_order w w' : in_order w -> step w w' -> in_order w'.
Proof.
  unfold in_order. intros HI Hs. revert HI. destruct Hs as [t f fs s s' fs' new ts Ht He|k s ts|c x s ts Hx]; cbn [shared threads]; intros HI.
  - destruct (frames_of_step ts t f fs fs' new Ht) as (rest & H1 & H2). rewrite H1 in HI. rewrite H2. by eapply exec_inv.
  - rewrite concat_app. cbn [concat app]. rewrite (Permutation_app_comm (concat ts)). by apply inv_call.
  - rewrite concat_app. cbn [concat app]. rewrite (Permutation_app_comm (concat ts)). by eapply inv_cancel.
Qed.

Lemma reachable_in_order w : rtc step init w -> in_order w.
Proof. apply (invariant_rtc step in_order step_in_order), init_in_order. Qed.

Lemma count_pos c l : 0 < count c l <-> c ∈ l.
Proof.
  split.
  - intros (x & Hx & Hp)%sumZ_pos. apply one_pos in Hp. by subst.
  - intros [i Hi]%list_elem_of_lookup_1. pose proof (sumZ_lookup_le (fun c' => one (c' = c)) l i c) as H.
    specialize (H ltac:(apply Forall_forall; intros; apply one_range) Hi). cbn beta in H. rewrite one_true in H by done.
    unfold count. lia.
Qed.

Lemma count_nodup l : (forall c, c ∈ l -> count c l <= 1) -> NoDup l.
Proof.
  induction l as [|c l IH]; intros H; [constructor|]. unfold count in H. constructor.
  - intros Hin%count_pos. specialize (H c ltac:(by left)). rewrite sumZ_cons, one_true in H by done. unfold count in Hin. lia.
  - apply IH. intros c' Hc'. specialize (H c' ltac:(by right)). rewrite sumZ_cons in H. pose proof (one_range (c = c')). unfold count. lia.
Qed.

(** The thread of a frame that is counted. *)
Lemma counted_frame (g : frame E -> Z) (ts : list (list (frame E))) :
  0 < sumZ g (concat ts) -> exists st f, st ∈ ts /\ f ∈ st /\ 0 < g f.
Proof.
  intros (f & Hf & Hp)%sumZ_pos. apply list_elem_of_In, in_concat in Hf as (st & Hst & Hf). exists st, f.
  by rewrite !list_elem_of_In.
Qed.

(** An attached consumer keeps its operation alive. *)
Lemma attached_alive s fr c x o y : Inv s fr -> consumers s !! c = Some x -> operation x = Some o -> operation_attached x = true ->
  ops s !! o = Some y -> 1 <= consumers_ y /\ abandoned_ y = false.
Proof.
  intros HI Hx Ho Ha Hy. destruct (inv_ops _ _ HI o y Hy) as [G1 G2 _ _ _ _ _].
  pose proof (counts_nonneg (holds o) fr (holds_nonneg o)).
  pose proof (sumZ_lookup_le (held o) (consumers s) c x ltac:(apply Forall_forall; intros; apply one_range) Hx) as Hh.
  rewrite held_eq, Ho, Ha, one_true in Hh by done. split; [lia|]. destruct (abandoned_ y); [specialize (G2 eq_refl); lia|done].
Qed.

(** Nothing is counted when nothing is left to be done. *)
Lemma idle_sum (g : frame E -> Z) (ts : list (list (frame E))) : Forall (fun st => st = []) ts -> sumZ g (concat ts) = 0.
Proof. intros H. replace (concat ts) with (@nil (frame E)); [done|]. induction H as [|st ts -> _ IH]; [done|]. exact IH. Qed.

(** The operation of a consumer ended with a result although all its consumers
    had left it before, and the consumer joined it then. *)
Definition joined_late s (x : Consumer) : Prop :=
  exists o y, operation x = Some o /\ ops s !! o = Some y /\ operation_attached x = false /\
    abandoned_ y = true /\ done_ y = true /\ reusable (payload_ y) (error_ y) = true.

Lemma idle_served s fr c x : Inv s fr -> (forall g : frame E -> Z, sumZ g fr = 0) -> consumers s !! c = Some x ->
  c ∈ completed s \/ joined_late s x.
Proof.
  intros HI Hz Hx. destruct (inv_consumers _ _ HI c x Hx) as [G1 _ _ _ G5 G6 _]. rewrite Hz in G1.
  destruct (completion_claimed x); [left; apply count_pos; cbn in G1; lia|right].
  destruct (G6 eq_refl) as [Hp|[Hp|(o & y & Ho & Hy & Hw)]]; [rewrite Hz in Hp; lia..|]. exists o, y.
  destruct (operation_attached x) eqn:Ha.
  - exfalso. destruct (attached_alive _ _ _ _ _ _ HI Hx Ho Ha Hy) as [_ Hab].
    destruct (inv_ops _ _ HI o y Hy) as [_ _ _ _ _ G11 G12]. destruct Hw as [(id & Hid)|[? _]]; [|congruence].
    destruct (done_ y); [rewrite G11 in Hid by done; by rewrite lookup_empty in Hid|].
    destruct (G12 eq_refl) as [?|Hp]; [congruence|]. rewrite Hz in Hp. lia.
  - destruct (G5 o Ho) as (_ & Hwell & _). destruct (Hwell eq_refl) as (y' & Hy' & [Hd Hr]). simplify_eq.
    destruct Hw as [(id & Hid)|[? _]]; [|done]. rewrite (oo_done _ _ _ _ (inv_ops _ _ HI o y Hy) Hd) in Hid. by rewrite lookup_empty in Hid.
Qed.

(** C11: the completion of a consumer is run at most once, and once it has been
    claimed it has been run or a thread is about to; when all threads are done,
    every consumer has been completed, except one that joined an operation
    late. *)
Theorem consumers_served w : rtc step init w ->
  NoDup (completed (shared w)) /\
  (forall c x, consumers (shared w) !! c = Some x -> completion_claimed x = true ->
     c ∈ completed (shared w) \/ exists st, st ∈ threads w /\ FRun c ∈ st) /\
  (Forall (fun st => st = []) (threads w) -> forall c x, consumers (shared w) !! c = Some x ->
     c ∈ completed (shared w) \/ joined_late (shared w) x).
Proof.
  intros HI%reachable_in_order. unfold in_order in HI. split_and!.
  - apply count_nodup. intros c Hc. pose proof (inv_completed _ _ HI) as Hall. rewrite Forall_forall in Hall.
    destruct (Hall c Hc) as [x Hx]. pose proof (co_once _ _ _ _ (inv_consumers _ _ HI c x Hx)).
    pose proof (counts_nonneg (runs c) (concat (threads w)) (runs_nonneg c)). destruct (completion_claimed x); cbn in *; lia.
  - intros c x Hx Hcl. pose proof (co_once _ _ _ _ (inv_consumers _ _ HI c x Hx)) as H. rewrite Hcl in H. cbn in H.
    destruct (Z_lt_le_dec 0 (count c (completed (shared w)))) as [Hp%count_pos|Hle]; [by left|right].
    destruct (counted_frame (runs c) (threads w)) as (st & f & Hst & Hf & Hp); [lia|]. exists st. split; [done|].
    destruct f; cbn in Hp; try lia. apply one_pos in Hp. by subst.
  - intros Hidle c x. apply (idle_served _ _ c x HI). intros g. by apply idle_sum.
Qed.

(** C25: the work of an operation is not cancelled while a consumer is attached
    to it, and as long as it has not ended a thread is on the way to publish
    its result. *)
Theorem attached_work_continues w c x o y : rtc step init w ->
  consumers (shared w) !! c = Some x -> operation x = Some o -> operation_attached x = true -> ops (shared w) !! o = Some y ->
  1 <= consumers_ y /\ abandoned_ y = false /\ work_cancelled y = false /\
  (done_ y = true \/ exists st f, st ∈ threads w /\ f ∈ st /\ 0 < will_publish o f).
Proof.
  intros HI%reachable_in_order Hx Ho Ha Hy. destruct (attached_alive _ _ _ _ _ _ HI Hx Ho Ha Hy) as [H1 H2].
  destruct (inv_ops _ _ HI o y Hy) as [_ _ G3 _ _ _ G7]. split_and!; [done|done| |].
  - destruct (work_cancelled y); [|done]. by rewrite G3 in H2.
  - destruct (done_ y); [by left|right]. destruct (G7 eq_refl) as [?|Hp]; [congruence|]. by apply counted_frame.
Qed.

(** The counters of no operation have run to the end of their width. *)
Definition in_range s : Prop :=
  forall o x, ops s !! o = Some x -> consumers_ x + 1 < 2 ^ 64 /\ next_callback_id_ x + 1 < 2 ^ 64.

(** A thread that is not done can take a step. *)
Theorem threads_progress `{Inhabited E} w t f fs : rtc step init w -> in_range (shared w) -> threads w !! t = Some (f :: fs) ->
  exists s' fs' new, exec (shared w) f s' fs' new.
Proof.
  intros HI%reachable_in_order Hrange Ht. unfold in_order in HI. set (s := shared w) in *.
  assert (Hok : frame_ok s f).
  { pose proof (inv_frames _ _ HI) as Hall. rewrite Forall_forall in Hall. apply Hall. apply list_elem_of_In, in_concat.
    exists (f :: fs). split; [|by left]. apply list_elem_of_In. by eapply list_elem_of_lookup_2. }
  destruct f as [c k|c k|c k o owner|k o|c k o owner attached|c k o owner|c k o owner id|k o|k o p|k o p e b|cs|c|c|o id|o|o|c];
    cbn [frame_ok] in Hok.
  - destruct Hok as (x & Hx & _). destruct (completion_claimed x) eqn:Hc; eauto 8 using exec.
  - destruct (find_or_create k s) as [[s' o] owner] eqn:Hf. eauto 8 using exec.
  - destruct Hok as (_ & x & Hx). destruct (Hrange o x Hx), (attachConsumer x) as [x' r] eqn:Ha. destruct r; eauto 8 using exec.
  - eauto 8 using exec.
  - destruct Hok as ((x & Hx & _) & _). destruct (bind o attached x) eqn:Hb; [eauto 8 using exec|].
    do 3 eexists. by eapply (e_bind_late _ _ _ _ _ inhabitant).
  - destruct Hok as ([x Hx] & _). destruct (Hrange o x Hx), (subscribe c x) as [[x' id] now] eqn:Hs. eauto 8 using exec.
  - destruct Hok as (_ & [x Hx] & _). destruct (set_subscription o id x) eqn:Hs. eauto 8 using exec.
  - do 3 eexists. by apply (e_work_publish _ _ None None).
  - destruct Hok as [x Hx]. eauto 8 using exec.
  - destruct Hok as [x Hx]. destruct (finish p e x) as [[x' run]|] eqn:Hf; [|eauto 8 using exec].
    do 3 eexists. by eapply (e_publish _ _ _ _ _ _ _ _ run).
  - destruct cs; eauto 8 using exec.
  - destruct Hok as [x Hx]. destruct (claim x) eqn:Hc; eauto 8 using exec.
  - destruct Hok as (x & Hx & _). destruct (detach x) as [[[[x' o] id] attached]|] eqn:Hd; [|eauto 8 using exec].
    destruct o; eauto 8 using exec.
  - destruct Hok as (x & Hx & _). destruct (unsubscribe id x) eqn:Hu. eauto 8 using exec.
  - destruct Hok as [x Hx]. destruct (releaseConsumer x) eqn:Hr. eauto 8 using exec.
  - destruct Hok as (x & Hx & _). eauto 8 using exec.
  - eauto 8 using exec.
Qed.
End Proofs.

(** ** Two schedules *)

Definition url_key : str := "u"%str.
Definition ok_payload : Payload := mkPayload 200 FailNone "hi"%str [].
Definition runs_of (t n : nat) : list (@event nat) := repeat (Run t NoChoice) n.

(** Two requests of one URL share a fetch that ends with a result. *)
Definition shared_fetch : list event :=
  [Call url_key] ++ runs_of 0 6 ++ [Call url_key] ++ runs_of 2 6 ++
  [Run 1%nat (Finalizes ok_payload)] ++ runs_of 1 16.

(** The only consumer of a fetch is cancelled, and gives the fetch up; the
    fetch publishes a fresh cache file all the same; and a second request comes
    before the operation has left the registry. *)
Definition late_request : list event :=
  [Call url_key] ++ runs_of 0 6 ++ [Cancel 0] ++ runs_of 2 6 ++
  [Run 1%nat (Publishes (Some ok_payload) None); Run 1%nat NoChoice] ++
  [Call url_key] ++ runs_of 3 6 ++ runs_of 1 2.
Definition world_after (evs : list event) : World nat := default init (replay evs init).

Lemma world_after_reachable evs : rtc step init (world_after evs).
Proof. unfold world_after. destruct (replay evs init) as [w|] eqn:Hw; [by eapply replay_reaches|constructor]. Qed.

Lemma consumers_served_witness :
  let w := world_after shared_fetch in
  rtc step init w /\ Forall (fun st => st = []) (threads w) /\ completed (shared w) = [0; 1]%nat /\ NoDup (completed (shared w)).
Proof.
  split_and!; [apply world_after_reachable|vm_compute; by repeat constructor|vm_compute; reflexivity|].
  exact (proj1 (consumers_served _ (world_after_reachable shared_fetch))).
Defined.

Lemma attached_work_continues_witness :
  let w := world_after (take 7 shared_fetch) in
  exists x y, consumers (shared w) !! 0%nat = Some x /\ operation x = Some 0%nat /\ operation_attached x = true /\
    ops (shared w) !! 0%nat = Some y /\ done_ y = false /\ 1 <= consumers_ y /\ abandoned_ y = false /\ work_cancelled y = false.
Proof.
  pose (w := world_after (take 7 shared_fetch)). do 2 eexists. cbv zeta. fold w.
  assert (H1 : consumers (shared w) !! 0%nat = Some (mkConsumer (Some 0%nat) 1 true false false)) by (vm_compute; reflexivity).
  assert (H2 : ops (shared w) !! 0%nat = Some (mkOperation false false 1 2 false false None None {[1 := 0%nat]})) by (vm_compute; reflexivity).
  destruct (attached_work_continues w 0 _ 0 _ (world_after_reachable _) H1 eq_refl eq_refl H2) as (K1 & K2 & K3 & _).
  split_and!; [exact H1|reflexivity|reflexivity|exact H2|reflexivity|exact K1|exact K2|exact K3].
Defined.

Lemma threads_progress_witness :
  let w := world_after (take 7 shared_fetch) in
  threads w !! 1%nat = Some [FWork url_key 0] /\ exists s' fs' new, exec (shared w) (FWork url_key 0) s' fs' new.
Proof.
  assert (H1 : threads (world_after (take 7 shared_fetch)) !! 1%nat = Some [FWork url_key 0]) by (vm_compute; reflexivity).
  split; [exact H1|]. apply (threads_progress _ 1%nat _ [] (world_after_reachable _)); [|exact H1].
  intros o x Hx. assert (Hops : ops (shared (world_after (take 7 shared_fetch))) =
    [mkOperation false false 1 2 false false None None {[1 := 0%nat]}]) by (vm_compute; reflexivity).
  rewrite Hops in Hx. apply list_lookup_singleton_Some in Hx as [_ <-]. cbn. lia.
Defined.

(** A request that joins a fetch after its only consumer gave it up and
    before it leaves the registry is never completed, although the fetch ended
    with a result. *)
Example late_request_lost :
  let w := world_after late_request in
  rtc step init w /\ Forall (fun st => st = []) (threads w) /\ completed (shared w) = [0%nat] /\
  consumers (shared w) !! 1%nat = Some (mkConsumer (Some 0%nat) 0 false false false) /\
  exists y, ops (shared w) !! 0%nat = Some y /\ wait y = Some (inr (Some ok_payload)).
Proof.
  split_and!; [apply world_after_reachable|vm_compute; by repeat constructor|vm_compute; reflexivity..|].
  eexists. split; vm_compute; reflexivity.
Qed.
