(* ===== verification/Disk.v ===== *)
(** * Programs over a file system that can crash

    The system calls that utils/file.cpp and handler/cache_storage.cpp make,
    on directories of regular files without symbolic links, and programs of
    such calls.  Any call can fail; the machine can stop between two calls.
    After it restarted an entry of a directory is one it has had since the
    directory was last synchronised, and a file has its contents if they were
    synchronised after they were last written, and any contents otherwise.
    What is written to a stream stays in its buffer until the stream is flushed
    or closed. *)

From S2P Require Import Prelude Str.
Open Scope Z_scope.

(** A directory and a name in it. *)
Notation path := (str * str)%type.

(** [pending] is what the stream that is open on the file has in its buffer.  A
    library that writes its buffer out early leaves a file that is not
    synchronised, whose contents after a crash are arbitrary already. *)
Record Inode := mkInode { content : str; pending : str; synced : bool }.
(** What a file holds once its stream is closed. *)
Definition all_written (x : Inode) : str := content x ++ pending x.
Definition flush (x : Inode) : Inode :=
  mkInode (all_written x) [] (bool_decide (pending x = []) && synced x).

(** [stale] holds the entries a path had since its directory was synchronised,
    without the one it has now.  [counter] and [process] are the number of the
    next temporary file and the process identifier. *)
Record FS := mkFS {
  entries : gmap path nat; stale : gmap path (list (option nat)); inodes : gmap nat Inode; next_inode : nat;
  counter : Z; process : Z
}.

Definition set_inode (i : nat) (n : Inode) (fs : FS) : FS :=
  mkFS (entries fs) (stale fs) (<[i := n]> (inodes fs)) (next_inode fs) (counter fs) (process fs).
Definition set_entry (p : path) (e : option nat) (fs : FS) : FS :=
  mkFS (match e with Some i => <[p := i]> (entries fs) | None => delete p (entries fs) end)
    (<[p := (entries fs !! p) :: default [] (stale fs !! p)]> (stale fs)) (inodes fs) (next_inode fs) (counter fs) (process fs).
Definition create (p : path) (fs : FS) : FS :=
  let i := next_inode fs in
  set_entry p (Some i) (mkFS (entries fs) (stale fs) (<[i := mkInode [] [] false]> (inodes fs)) (S i) (counter fs) (process fs)).
(** The entries of a directory are what they are, for good. *)
Definition sync_directory (d : str) (fs : FS) : FS :=
  mkFS (entries fs) (filter (fun kv => kv.1.1 <> d) (stale fs)) (inodes fs) (next_inode fs) (counter fs) (process fs).
Definition bump (fs : FS) : FS :=
  mkFS (entries fs) (stale fs) (inodes fs) (next_inode fs) (u64 (counter fs + 1)) (process fs).

(** The number of names of a file. *)
Definition links (i : nat) (fs : FS) : nat := size (filter (fun kv => kv.2 = i) (entries fs)).

(** ** Calls *)

Inductive stat_result := StatFile (i : nat) (nlink : nat) | StatAbsent | StatError.
Inductive open_result := Opened (handle : nat) | OpenExists | OpenError.
Inductive remove_result := Removed | RemovedNothing | RemoveError.

Inductive syscall :=
| Resolve (p : path)            (* absolute and canonical paths *)
| Stat (p : path)
| Access (p : path)             (* for writing *)
| Exists (p : path)
| OpenExclusive (p : path)
| NextCounter
| Fdopen (handle : nat)
| Fwrite (handle : nat) (data : str)
| Ferror (handle : nat)
| CopyMetadata (handle : nat)   (* owner, mode and attributes of the target *)
| Fflush (handle : nat)
| Fsync (handle : nat)
| Fclose (handle : nat)
| Link (from to : path)
| Unlink (p : path)
| Rename (from to : path)
| OpenDirectory (d : str)
| FsyncDirectory (d : str)
| CloseDirectory (d : str)
| Remove (p : path)
| ReadFile (p : path).          (* the whole of a file, as fileGet reads it *)

Definition result (c : syscall) : Type :=
  match c with
  | Stat _ => stat_result
  | Exists _ => option bool
  | OpenExclusive _ => open_result
  | NextCounter => Z * Z
  | Fwrite _ _ => nat
  | Remove _ => remove_result
  | ReadFile _ => option str
  | _ => bool
  end.

(** How a call ends: whether it succeeds, and how many bytes it takes. *)
Record outcome := mkOutcome { ok : bool; count : nat }.

Definition perform (out : outcome) (c : syscall) (fs : FS) : result c * FS :=
  match c with
  | Stat p => (if ok out then match entries fs !! p with Some i => StatFile i (links i fs) | None => StatAbsent end else StatError, fs)
  | Exists p => (if ok out then Some (bool_decide (is_Some (entries fs !! p))) else None, fs)
  | OpenExclusive p =>
      if ok out then
        match entries fs !! p with Some _ => (OpenExists, fs) | None => (Opened (next_inode fs), create p fs) end
      else (OpenError, fs)
  | NextCounter => ((process fs, counter fs), bump fs)
  | Fwrite h data =>
      let n := Nat.min (count out) (length data) in
      (n, match inodes fs !! h with Some x => set_inode h (mkInode (content x) (pending x ++ take n data) false) fs | None => fs end)
  | Fflush h | Fclose h =>
      (ok out, if ok out then match inodes fs !! h with Some x => set_inode h (flush x) fs | None => fs end else fs)
  | Fsync h =>
      (ok out, if ok out then match inodes fs !! h with Some x => set_inode h (mkInode (content x) (pending x) true) fs | None => fs end else fs)
  | Link from to =>
      match entries fs !! from, entries fs !! to with
      | Some i, None => if ok out then (true, set_entry to (Some i) fs) else (false, fs)
      | _, _ => (false, fs)
      end
  | Unlink p =>
      match entries fs !! p with
      | Some _ => if ok out then (true, set_entry p None fs) else (false, fs)
      | None => (false, fs)
      end
  | Rename from to =>
      match entries fs !! from with
      | Some i => if ok out then (true, set_entry from None (set_entry to (Some i) fs)) else (false, fs)
      | None => (false, fs)
      end
  | FsyncDirectory d => (ok out, if ok out then sync_directory d fs else fs)
  | Remove p =>
      if ok out then match entries fs !! p with Some _ => (Removed, set_entry p None fs) | None => (RemovedNothing, fs) end
      else (RemoveError, fs)
  | ReadFile p => (if ok out then content <$> (entries fs !! p ≫= fun i => inodes fs !! i) else None, fs)
  | Resolve _ | Access _ | Fdopen _ | CopyMetadata _ | OpenDirectory _ | CloseDirectory _ => (ok out, fs)
  | Ferror _ => (negb (ok out), fs)
  end.

(** ** Programs *)

Inductive prog (A : Type) := Ret (a : A) | Call (c : syscall) (k : result c -> prog A).
Arguments Ret {A}. Arguments Call {A}.

Fixpoint prog_bind {A B} (f : A -> prog B) (p : prog A) : prog B :=
  match p with Ret a => f a | Call c k => Call c (fun r => prog_bind f (k r)) end.
#[export] Instance prog_MRet : MRet prog := @Ret.
#[export] Instance prog_MBind : MBind prog := @prog_bind.
Definition call (c : syscall) : prog (result c) := Call c Ret.

(** A run under a list of outcomes; without a further one the machine stops. *)
Fixpoint run {A} (p : prog A) (outs : list outcome) (fs : FS) : option A * FS :=
  match p with
  | Ret a => (Some a, fs)
  | Call c k => match outs with [] => (None, fs) | out :: outs => let '(r, fs') := perform out c fs in run (k r) outs fs' end
  end.

(** ** A logic of programs that can be interrupted *)

(** [Q] holds when the program returns, [C] at every point where it can be
    interrupted. *)
Fixpoint wp {A} (p : prog A) (Q : A -> FS -> Prop) (C : FS -> Prop) (fs : FS) : Prop :=
  match p with
  | Ret a => Q a fs
  | Call c k => C fs /\ forall out, let '(r, fs') := perform out c fs in wp (k r) Q C fs'
  end.

Lemma wp_run {A} (p : prog A) Q C fs outs : wp p Q C fs ->
  match run p outs fs with (Some a, fs') => Q a fs' | (None, fs') => C fs' end.
Proof.
  revert outs fs. induction p as [a|c k IH]; intros outs fs H; cbn in *; [done|]. destruct H as [HC H].
  destruct outs as [|out outs]; [done|]. specialize (H out). destruct (perform out c fs) as [r fs']. by apply IH.
Qed.

Lemma wp_bind {A B} (f : A -> prog B) (p : prog A) Q C fs :
  wp p (fun a fs' => wp (f a) Q C fs') C fs -> wp (p ≫= f) Q C fs.
Proof.
  revert fs. induction p as [a|c k IH]; intros fs; cbn; [done|]. intros [HC H]. split; [done|]. intros out.
  specialize (H out). destruct (perform out c fs) as [r fs']. by apply IH.
Qed.

Lemma wp_conseq {A} (p : prog A) (Q Q' : A -> FS -> Prop) (C C' : FS -> Prop) fs :
  wp p Q C fs -> (forall a fs', Q a fs' -> Q' a fs') -> (forall fs', C fs' -> C' fs') -> wp p Q' C' fs.
Proof.
  intros H HQ HC. revert fs H. induction p as [a|c k IH]; intros fs; cbn; [auto|]. intros [H1 H2]. split; [auto|].
  intros out. specialize (H2 out). destruct (perform out c fs) as [r fs']. auto.
Qed.

Lemma wp_call c Q (C : FS -> Prop) fs :
  C fs -> (forall out, let '(r, fs') := perform out c fs in Q r fs') -> wp (call c) Q C fs.
Proof. done. Qed.

(** A program comes to its end. *)
Lemma run_ends {A} (p : prog A) (outs : nat -> outcome) fs : exists n a fs', run p (outs <$> seq 0 n) fs = (Some a, fs').
Proof.
  revert outs fs. induction p as [a|c k IH]; intros outs fs; [by exists 0%nat, a, fs|].
  destruct (perform (outs 0%nat) c fs) as [r fs1] eqn:Hp. destruct (IH r (fun n => outs (S n)) fs1) as (n & a & fs' & Hr).
  exists (S n), a, fs'. cbn [seq]. rewrite fmap_cons. cbn [run]. rewrite Hp, <- Hr. f_equal. rewrite <- seq_shift.
  change (map S (seq 0 n)) with (S <$> seq 0 n). by rewrite <- list_fmap_compose.
Qed.

(** ** What a path holds, and what it may hold after a crash *)

Definition possible_entry (fs : FS) (p : path) (e : option nat) : Prop :=
  e = entries fs !! p \/ e ∈ default [] (stale fs !! p).
Definition current (fs : FS) (p : path) : option str := content <$> (entries fs !! p ≫= fun i => inodes fs !! i).
Definition possible (fs : FS) (p : path) (x : option str) : Prop :=
  exists e, possible_entry fs p e /\
    match e with
    | None => x = None
    | Some i => exists n c, inodes fs !! i = Some n /\ x = Some c /\ (synced n = true -> c = content n)
    end.

(** A file that is not a temporary one of utils/file.cpp: those have names that
    begin with a dot. *)
Definition ordinary (p : path) : Prop := head p.2 <> Some "."%char.

(** Every entry is a file, and the files under ordinary names are synchronised. *)
Record well_formed (fs : FS) : Prop := {
  wf_inodes : forall p i, possible_entry fs p (Some i) -> is_Some (inodes fs !! i);
  wf_next : forall i, is_Some (inodes fs !! i) -> (i < next_inode fs)%nat;
  wf_synced : forall p i n, ordinary p -> possible_entry fs p (Some i) -> inodes fs !! i = Some n -> synced n = true
}.

(** What a restart after a crash finds. *)
Record crash (fs fs' : FS) : Prop := {
  cr_entries : forall p, possible_entry fs p (entries fs' !! p);
  cr_stale : stale fs' = ∅;
  cr_inodes : forall i n', inodes fs' !! i = Some n' ->
    synced n' = true /\ exists n, inodes fs !! i = Some n /\ (synced n = true -> content n' = content n);
  cr_all : forall i, is_Some (inodes fs !! i) -> is_Some (inodes fs' !! i);
  cr_next : next_inode fs' = next_inode fs
}.

Lemma possible_entry_current fs p : possible_entry fs p (entries fs !! p).
Proof. by left. Qed.

Lemma current_possible fs p : well_formed fs -> possible fs p (current fs p).
Proof.
  intros [Hi _ _]. exists (entries fs !! p). split; [by left|]. unfold current. destruct (entries fs !! p) as [i|] eqn:He; [|done].
  destruct (Hi p i) as [n Hn]; [left; by rewrite He|]. cbn. rewrite Hn. by exists n, (content n).
Qed.

Lemma crash_well_formed fs fs' : well_formed fs -> crash fs fs' -> well_formed fs'.
Proof.
  intros [H1 H2 H3] [C1 C2 C3 C4 C5].
  assert (He : forall p i, possible_entry fs' p (Some i) -> possible_entry fs p (Some i)).
  { intros p i [He|He]; [rewrite He; apply C1|]. rewrite C2, lookup_empty in He. by apply elem_of_nil in He. }
  split.
  - intros p i Hp%He. eapply C4, H1, Hp.
  - intros i [n' Hn']. rewrite C5. destruct (C3 i n' Hn') as (_ & n & Hn & _). apply H2. by exists n.
  - intros p i n' _ _ Hn'. by destruct (C3 i n' Hn').
Qed.

(** After a restart an ordinary path holds something it could hold, and for
    good. *)
Lemma crash_current fs fs' p : well_formed fs -> crash fs fs' -> ordinary p ->
  possible fs p (current fs' p) /\ (forall x, possible fs' p x -> x = current fs' p).
Proof.
  intros Hwf Hcr Hp. pose proof (crash_well_formed _ _ Hwf Hcr) as Hwf'. destruct Hcr as [C1 C2 C3 C4 C5]. split.
  - exists (entries fs' !! p). split; [apply C1|]. unfold current. destruct (entries fs' !! p) as [i|] eqn:He; [|done].
    destruct (wf_inodes _ Hwf' p i) as [n' Hn']; [left; by rewrite He|]. cbn. rewrite Hn'. cbn.
    destruct (C3 i n' Hn') as (_ & n & Hn & Hc). by exists n, (content n').
  - intros x ([i|] & [He|He] & Hx); try (rewrite C2, lookup_empty in He; by apply elem_of_nil in He).
    + destruct Hx as (n & c & Hn & -> & Hc). unfold current. rewrite <- He. cbn. rewrite Hn. cbn. f_equal. apply Hc.
      by destruct (C3 i n Hn).
    + subst x. unfold current. by rewrite <- He.
Qed.

(** Nothing under an ordinary name has changed. *)
Record kept (fs fs' : FS) : Prop := {
  kp_entries : forall p, ordinary p -> entries fs' !! p = entries fs !! p;
  kp_possible : forall p e, ordinary p -> possible_entry fs' p e -> possible_entry fs p e;
  kp_inodes : forall p i, ordinary p -> possible_entry fs' p (Some i) -> inodes fs' !! i = inodes fs !! i
}.

#[export] Instance kept_preorder : PreOrder kept.
Proof.
  split; [by split|]. intros fs1 fs2 fs3 [A1 A2 A3] [B1 B2 B3]. split.
  - intros p Hp. by rewrite B1, A1.
  - eauto.
  - intros p i Hp Hi. rewrite (B3 p i Hp Hi). eauto.
Qed.

Lemma kept_current fs fs' p : kept fs fs' -> ordinary p -> current fs' p = current fs p.
Proof.
  intros [H1 _ H3] Hp. unfold current. pose proof (possible_entry_current fs' p) as He. rewrite (H1 p Hp) in *.
  destruct (entries fs !! p) as [i|]; [|done]. cbn. by rewrite (H3 p i Hp He).
Qed.

Lemma kept_may fs fs' p x : kept fs fs' -> ordinary p -> possible fs' p x -> possible fs p x.
Proof.
  intros [_ H2 H3] Hp (e & He & Hx). exists e. split; [by apply H2|]. destruct e as [i|]; [|done].
  by rewrite (H3 p i Hp He) in Hx.
Qed.

(** The path of a temporary file. *)
Definition hidden (p : path) : Prop := head p.2 = Some "."%char.

Lemma hidden_ordinary p q : hidden p -> ordinary q -> p <> q.
Proof. intros Hp Hq ->. by apply Hq. Qed.

(** An inode that nothing ordinary names. *)
Definition unnamed (fs : FS) (h : nat) : Prop := forall p, ordinary p -> ~ possible_entry fs p (Some h).

Lemma possible_entry_set fs p e q f : possible_entry (set_entry p e fs) q f <->
  (q = p /\ (f = e \/ possible_entry fs p f)) \/ (q <> p /\ possible_entry fs q f).
Proof.
  unfold possible_entry, set_entry. cbn. destruct (decide (q = p)) as [->|Hne].
  - rewrite lookup_insert_eq. cbn. rewrite elem_of_cons.
    assert (He : match e with Some i => <[p := i]> (entries fs) | None => delete p (entries fs) end !! p = e).
    { destruct e; [by rewrite lookup_insert_eq|by rewrite lookup_delete_eq]. }
    rewrite He. naive_solver.
  - rewrite lookup_insert_ne by done.
    assert (He : match e with Some i => <[p := i]> (entries fs) | None => delete p (entries fs) end !! q = entries fs !! q).
    { destruct e; [by rewrite lookup_insert_ne|by rewrite lookup_delete_ne]. }
    rewrite He. naive_solver.
Qed.

Lemma entries_set fs p e q : entries (set_entry p e fs) !! q = if bool_decide (q = p) then e else entries fs !! q.
Proof.
  unfold set_entry. cbn. case_bool_decide as Hq; destruct e; subst;
    rewrite ?lookup_insert_eq, ?lookup_delete_eq, ?lookup_insert_ne, ?lookup_delete_ne by done; done.
Qed.

Definition quiet (fs fs' : FS) : Prop := well_formed fs' /\ kept fs fs'.

Lemma quiet_refl fs : well_formed fs -> quiet fs fs.
Proof. by split. Qed.
Lemma quiet_trans fs fs1 fs2 : quiet fs fs1 -> quiet fs1 fs2 -> quiet fs fs2.
Proof. intros [_ ?] [? ?]. split; [done|]. by transitivity fs1. Qed.

Lemma quiet_inode fs h n : well_formed fs -> is_Some (inodes fs !! h) -> unnamed fs h -> quiet fs (set_inode h n fs).
Proof.
  intros [W1 W2 W3] Hh Hu. split; split; cbn; try done.
  - intros p i Hi. apply lookup_insert_is_Some'. right. by apply (W1 p).
  - intros i [->|Hi]%lookup_insert_is_Some'; auto.
  - intros p i n' Hp Hi Hn. rewrite lookup_insert_ne in Hn by (intros ->; by apply (Hu p)). eauto.
  - intros p i Hp Hi. rewrite lookup_insert_ne; [done|]. intros ->. by apply (Hu p).
Qed.

Lemma quiet_entry fs p e : well_formed fs -> hidden p -> (forall i, e = Some i -> is_Some (inodes fs !! i)) -> quiet fs (set_entry p e fs).
Proof.
  intros [W1 W2 W3] Hp He. split; split.
  - intros q i [[-> [<-|Hi]]|[_ Hi]]%possible_entry_set; [by apply He|by apply (W1 p)|by apply (W1 q)].
  - exact W2.
  - intros q i n Hq [[-> _]|[_ Hi]]%possible_entry_set; [by destruct (Hq Hp)|]. by apply (W3 q).
  - intros q Hq. rewrite entries_set, bool_decide_false; [done|]. intros ->. by apply Hq.
  - intros q f Hq [[-> _]|[_ Hi]]%possible_entry_set; [by destruct (Hq Hp)|done].
  - done.
Qed.

Lemma stale_sync fs d p : stale (sync_directory d fs) !! p = if bool_decide (p.1 = d) then None else stale fs !! p.
Proof.
  unfold sync_directory. cbn. rewrite map_lookup_filter. destruct (stale fs !! p); cbn; [|by case_bool_decide].
  case_bool_decide; [by rewrite option_guard_False by auto|by rewrite option_guard_True].
Qed.

Lemma possible_entry_sync fs d p e : possible_entry (sync_directory d fs) p e -> possible_entry fs p e.
Proof.
  intros [He|He]; [by left|right]. rewrite stale_sync in He. case_bool_decide; [by apply elem_of_nil in He|done].
Qed.

Lemma synced_entry fs p e : possible_entry (sync_directory p.1 fs) p e -> e = entries fs !! p.
Proof. intros [He|He]; [done|]. rewrite stale_sync, bool_decide_true in He by done. by apply elem_of_nil in He. Qed.

Lemma quiet_sync fs d : well_formed fs -> quiet fs (sync_directory d fs).
Proof.
  intros [W1 W2 W3]. split; split; try done.
  - intros p i Hi%possible_entry_sync. by apply (W1 p).
  - intros p i n Hp Hi%possible_entry_sync. by apply (W3 p).
  - intros p e _. apply possible_entry_sync.
Qed.

Lemma quiet_bump fs : well_formed fs -> quiet fs (bump fs).
Proof. intros [W1 W2 W3]. by split. Qed.

Lemma quiet_create fs p : well_formed fs -> hidden p ->
  quiet fs (create p fs) /\ unnamed (create p fs) (next_inode fs) /\
  inodes (create p fs) !! next_inode fs = Some (mkInode [] [] false) /\ entries (create p fs) !! p = Some (next_inode fs).
Proof.
  intros Hwf Hp. pose proof Hwf as [W1 W2 W3]. set (h := next_inode fs). assert (Hfresh : inodes fs !! h = None).
  { destruct (inodes fs !! h) as [n|] eqn:Hn; [|done]. assert (h < next_inode fs)%nat by (apply W2; by exists n). unfold h in *. lia. }
  set (fs1 := mkFS (entries fs) (stale fs) (<[h := mkInode [] [] false]> (inodes fs)) (S h) (counter fs) (process fs)).
  assert (Hu : unnamed fs h) by (intros q _ [n Hn]%W1; congruence).
  assert (H1 : quiet fs fs1).
  { split; split; cbn; try done.
    - intros q i Hi. apply lookup_insert_is_Some'. right. by apply (W1 q).
    - intros i [->|Hi]%lookup_insert_is_Some'; [lia|]. specialize (W2 i Hi). unfold h. lia.
    - intros q i n Hq Hi Hn. rewrite lookup_insert_ne in Hn by (intros ->; by apply (Hu q)). eauto.
    - intros q i Hq Hi. rewrite lookup_insert_ne; [done|]. intros ->. by apply (Hu q). }
  assert (H2 : quiet fs1 (create p fs)).
  { apply quiet_entry; [apply H1|done|]. intros i [= <-]. cbn. rewrite lookup_insert_eq. by eexists. }
  split_and!.
  - by eapply quiet_trans.
  - intros q Hq Hi. apply possible_entry_set in Hi as [[-> _]|[_ Hi]]; [by apply Hq|]. by apply (Hu q).
  - cbn. apply lookup_insert_eq.
  - unfold create. by rewrite entries_set, bool_decide_true.
Qed.

(** Removing an ordinary file. *)
Lemma removed_entry fs p : well_formed fs ->
  well_formed (set_entry p None fs) /\ current (set_entry p None fs) p = None /\
  (forall q, q <> p -> current (set_entry p None fs) q = current fs q) /\
  (forall q x, possible (set_entry p None fs) q x -> possible fs q x \/ (q = p /\ x = None)).
Proof.
  intros [W1 W2 W3].
  assert (He : forall q i, possible_entry (set_entry p None fs) q (Some i) -> possible_entry fs q (Some i)).
  { intros q i [[-> [?|Hi]]|[_ Hi]]%possible_entry_set; done. }
  split_and!.
  - split; [by intros q i Hi%He; apply (W1 q)|exact W2|]. intros q i n Hq Hi%He. by apply (W3 q).
  - unfold current. by rewrite entries_set, bool_decide_true.
  - intros q Hne. unfold current. by rewrite entries_set, bool_decide_false.
  - intros q x (e & Hq & Hx). apply possible_entry_set in Hq. destruct Hq as [[-> [->|Hq]]|[_ Hq]]; [by right|left..]; by exists e.
Qed.

(** An empty disk. *)
Definition empty_disk : FS := mkFS ∅ ∅ ∅ 0 0 1.

Lemma empty_well_formed : well_formed empty_disk.
Proof.
  assert (He : forall p i, ~ possible_entry empty_disk p (Some i)).
  { intros p i [Hi|Hi]; [done|]. cbn in Hi. rewrite lookup_empty in Hi. by apply elem_of_nil in Hi. }
  split; [by intros p i Hi%He|intros i [n Hn]; done|by intros p i n _ Hi%He].
Qed.

(** A restart that finds everything as it was. *)
Definition settle (fs : FS) : FS :=
  mkFS (entries fs) ∅ ((fun n => mkInode (content n) [] true) <$> inodes fs) (next_inode fs) (counter fs) (process fs).

Lemma crash_settle fs : crash fs (settle fs).
Proof.
  split; cbn; [by left|done| | |done].
  - intros i n' Hn. apply lookup_fmap_Some in Hn as (n & <- & Hn). split; [done|]. by exists n.
  - intros i [n Hn]. rewrite lookup_fmap, Hn. by eexists.
Qed.
