(* ===== verification/Files.v ===== *)
(** * utils/file.cpp: files that are replaced atomically

    [fileWrite] writes a temporary file beside the target, synchronises it,
    gives it the target's name and synchronises the directory.  The branch for
    POSIX systems is modelled, for a call that replaces the target; the locks
    that serialise the calls for one target are left out, and so are appending
    and copying. *)

From S2P Require Import Prelude Str StringUtil Disk.
Open Scope Z_scope.

(** src/src/utils/file.h:34-39 [FileCommitResult] *)
Inductive FileCommitResult := FailedTemporaryRemaining | Failed | Durable | CommittedUnsynced.
#[export] Instance FileCommitResult_eq_dec : EqDecision FileCommitResult. Proof. solve_decision. Defined.

(** src/src/utils/file.h:40-42 [fileCommitFailed] *)
Definition fileCommitFailed (result : FileCommitResult) : bool :=
  match result with FailedTemporaryRemaining | Failed => true | _ => false end.

(** src/src/utils/file.cpp:63-75 [removeTemporaryFile] *)
Definition removeTemporaryFile (p : path) : prog bool :=
  r ← call (Remove p);
  match r with
  | Removed => Ret true
  | RemoveError => Ret false
  | RemovedNothing => e ← call (Exists p); Ret (bool_decide (e = Some false))
  end.

(** src/src/utils/file.cpp:279-328 [inspectTarget]
    Nothing when the target is refused.  The identity of an existing target,
    which the code takes from device, inode, size and times, is its inode: a
    file is never written after it was given an ordinary name. *)
Definition inspectTarget (p : path) : prog (option (option nat)) :=
  s ← call (Stat p);
  match s with
  | StatAbsent => Ret (Some None)
  | StatError => Ret None
  | StatFile i nlink => if bool_decide (1 < nlink)%nat then Ret None else w ← call (Access p); Ret (if (w : bool) then Some (Some i) else None)
  end.

(** src/src/utils/file.cpp:330-356 [targetUnchanged] *)
Definition targetUnchanged (p : path) (expected : option nat) : prog bool :=
  match expected with
  | None => e ← call (Exists p); Ret (bool_decide (e = Some false))
  | Some i => s ← call (Stat p); Ret (match s with StatFile j nlink => (nlink =? 1)%nat && (j =? i)%nat | _ => false end)
  end.

(** src/src/utils/file.cpp:385-390 [openUniqueTemporaryFile, the name] *)
Definition temporary_path (target : path) (process counter : Z) : path :=
  (target.1, "."%str ++ target.2 ++ ".subconverter-tmp-"%str ++ to_string process ++ "-"%str ++ to_string counter).

(** src/src/utils/file.cpp:366-427 [openUniqueTemporaryFile]
    The file with its path, or whether cleaning up failed. *)
Fixpoint openUniqueTemporaryFile (attempts : nat) (target : path) : prog (path * nat + bool) :=
  match attempts with
  | O => Ret (inr false)
  | S attempts =>
      n ← call NextCounter;
      let p := let '(process, counter) := (n : Z * Z) in temporary_path target process counter in
      o ← call (OpenExclusive p);
      match o with
      | Opened h =>
          f ← call (Fdopen h);
          if (f : bool) then Ret (inl (p, h))
          else call (Fclose h);; removed ← removeTemporaryFile p; Ret (inr (negb removed))
      | OpenExists => openUniqueTemporaryFile attempts target
      | OpenError => Ret (inr false)
      end
  end.

(** src/src/utils/file.cpp:463-474 [writeStringToStream] *)
Fixpoint writeStringToStream (fuel : nat) (content : str) (file : nat) : prog bool :=
  match content, fuel with
  | [], _ => Ret true
  | _, O => Ret false
  | _, S fuel =>
      written ← call (Fwrite file content);
      if (written =? 0)%nat then Ret false else writeStringToStream fuel (drop written content) file
  end.

(** src/src/utils/file.cpp:476-479 [preserveTargetMetadata]
    The metadata themselves are not modelled. *)
Definition preserveTargetMetadata (file : nat) (target : option nat) : prog bool :=
  match target with None => Ret true | Some _ => call (CopyMetadata file) end.

(** src/src/utils/file.cpp:545-549 [ReplaceResult] *)
Inductive ReplaceResult := NotCommitted | Committed | CommittedTemporaryLinkRemaining.

(** src/src/utils/file.cpp:551-622 [replaceTarget] *)
Definition replaceTarget (temporary target : path) (state : option nat) : prog ReplaceResult :=
  unchanged ← targetUnchanged target state;
  if negb unchanged then Ret NotCommitted
  else
    match state with
    | None =>
        linked ← call (Link temporary target);
        if negb (linked : bool) then Ret NotCommitted
        else unlinked ← call (Unlink temporary); Ret (if (unlinked : bool) then Committed else CommittedTemporaryLinkRemaining)
    | Some _ => renamed ← call (Rename temporary target); Ret (if (renamed : bool) then Committed else NotCommitted)
    end.

(** src/src/utils/file.cpp:218-240 [syncParentDirectory] *)
Definition syncParentDirectory (target : path) : prog bool :=
  opened ← call (OpenDirectory target.1);
  if negb opened then Ret false
  else synced ← call (FsyncDirectory target.1); closed ← call (CloseDirectory target.1); Ret (synced && closed).

(** A step that is taken as long as everything has succeeded. *)
Definition when_ok (success : bool) (p : prog bool) : prog bool := if success then p else Ret false.

(** src/src/utils/file.cpp:640-656 [atomicWriteLocked, writing the temporary file] *)
Definition write_temporary (h : nat) (target : option nat) (content : str) : prog bool :=
  written ← writeStringToStream (length content) content h;
  sound ← when_ok written (e ← call (Ferror h); Ret (negb e));
  kept ← when_ok sound (preserveTargetMetadata h target);
  flushed ← when_ok kept (call (Fflush h));
  synced ← when_ok flushed (call (Fsync h));
  closed ← call (Fclose h);
  Ret (synced && closed).

(** A failure before the target was replaced, after cleaning up. *)
Definition failed (temporary : path) : prog FileCommitResult :=
  removed ← removeTemporaryFile temporary; Ret (if (removed : bool) then Failed else FailedTemporaryRemaining).

(** src/src/utils/file.cpp:624-679 [atomicWriteLocked] *)
Definition atomicWriteLocked (target : path) (content : str) : prog FileCommitResult :=
  state ← inspectTarget target;
  match state with
  | None => Ret Failed
  | Some state =>
      file ← openUniqueTemporaryFile 128 target;
      match file with
      | inr cleanup_failed => Ret (if (cleanup_failed : bool) then FailedTemporaryRemaining else Failed)
      | inl (temporary, h) =>
          success ← write_temporary h state content;
          if negb success then failed temporary
          else
            replaced ← replaceTarget temporary target state;
            match replaced with
            | NotCommitted => failed temporary
            | _ =>
                removed ← (match replaced with Committed => Ret true | _ => removeTemporaryFile temporary end);
                directory_synced ← syncParentDirectory target;
                Ret (if removed && directory_synced then Durable else CommittedUnsynced)
            end
      end
  end.

(** src/src/utils/file.cpp:823-860 [fileWrite, with overwrite] *)
Definition fileWrite (target : path) (content : str) : prog FileCommitResult :=
  resolved ← call (Resolve target);
  if negb resolved then Ret Failed else atomicWriteLocked target content.

(** What [fileGet] returns: the contents, or nothing after an error. *)
Definition fileGet (p : path) : prog str := r ← call (ReadFile p); Ret (default [] r).

(** ** What a write does, at whatever point it is interrupted *)

(** After a crash every path holds what it could hold before, or the new text
    at the target. *)
Definition within (p : path) (c : str) (fs fs' : FS) : Prop :=
  forall q x, ordinary q -> possible fs' q x -> possible fs q x \/ (q = p /\ x = Some c).

(** The target has the new text, the other files what they had. *)
Record written (p : path) (c : str) (fs fs' : FS) : Prop := {
  wr_well_formed : well_formed fs';
  wr_within : within p c fs fs';
  wr_target : current fs' p = Some c;
  wr_others : forall q, ordinary q -> q <> p -> current fs' q = current fs q
}.

Definition interrupted (p : path) (c : str) (fs fs' : FS) : Prop := well_formed fs' /\ within p c fs fs'.

(** The contract of a write. *)
Definition write_result (p : path) (c : str) (fs : FS) (r : FileCommitResult) (fs' : FS) : Prop :=
  match r with
  | Failed | FailedTemporaryRemaining => quiet fs fs'
  | CommittedUnsynced => written p c fs fs'
  | Durable => written p c fs fs' /\ forall x, possible fs' p x -> x = Some c
  end.

Lemma quiet_interrupted p c fs fs' : quiet fs fs' -> interrupted p c fs fs'.
Proof. intros [Hw Hk]. split; [done|]. intros q x Hq Hx. left. by eapply kept_may. Qed.

Lemma written_interrupted p c fs fs' : written p c fs fs' -> interrupted p c fs fs'.
Proof. intros [H1 H2 _ _]. by split. Qed.

Lemma written_quiet p c fs fs1 fs2 : ordinary p -> written p c fs fs1 -> quiet fs1 fs2 -> written p c fs fs2.
Proof.
  intros Hp [H1 H2 H3 H4] [Hw Hk]. split; [done| | |].
  - intros q x Hq Hx. apply H2; [done|]. by eapply kept_may.
  - by rewrite (kept_current fs1).
  - intros q Hq Hne. rewrite (kept_current fs1) by done. auto.
Qed.

Lemma write_result_interrupted p c fs r fs' : write_result p c fs r fs' -> interrupted p c fs fs'.
Proof. destruct r; [apply quiet_interrupted..|intros [H _]; by apply written_interrupted|apply written_interrupted]. Qed.

Lemma write_result_others p c fs r fs' q : write_result p c fs r fs' -> ordinary q -> q <> p -> current fs' q = current fs q.
Proof.
  destruct r; cbn; intros H Hq Hne; [by apply kept_current; [apply H|]..|destruct H as [H _]; by apply H|by apply H].
Qed.

(** A temporary file [h] at the path [t]. *)
Record holding (fs fs' : FS) (t : path) (h : nat) (n : Inode) : Prop := {
  ho_quiet : quiet fs fs';
  ho_hidden : hidden t;
  ho_unnamed : unnamed fs' h;
  ho_inode : inodes fs' !! h = Some n;
  ho_entry : entries fs' !! t = Some h
}.

Lemma holding_inode fs fs' t h n n' : holding fs fs' t h n -> holding fs (set_inode h n' fs') t h n'.
Proof.
  intros [H1 H2 H3 H4 H5]. assert (Hq : quiet fs' (set_inode h n' fs')) by (apply quiet_inode; [apply H1|by eexists|done]).
  split; [by eapply quiet_trans|done| | |done].
  - exact H3.
  - cbn. by rewrite lookup_insert_eq.
Qed.

Lemma written_entry p fs fs' t h c : ordinary p -> holding fs fs' t h (mkInode c [] true) -> written p c fs (set_entry p (Some h) fs').
Proof.
  intros Hp [[Hw Hk] H2 H3 H4 H5]. pose proof Hw as [W1 W2 W3].
  assert (Hent : forall q i, possible_entry (set_entry p (Some h) fs') q (Some i) -> (q = p /\ i = h) \/ possible_entry fs' q (Some i)).
  { intros q i [[-> [[= ->]|Hi]]|[_ Hi]]%possible_entry_set; auto. }
  split.
  - split; [|done|].
    + intros q i [[-> ->]|Hi]%Hent; [by eexists|by apply (W1 q)].
    + intros q i n Hq [[-> ->]|Hi]%Hent Hn; cbn in Hn; [by simplify_eq|]. by apply (W3 q i).
  - intros q x Hq (e & He & Hx). apply possible_entry_set in He. destruct He as [[-> [->|He]]|[_ He]].
    + right. split; [done|]. destruct Hx as (n & c' & Hn & -> & Hc). cbn in Hn. simplify_eq. f_equal. by apply Hc.
    + left. eapply kept_may; [done..|]. by exists e.
    + left. eapply kept_may; [done..|]. by exists e.
  - unfold current. rewrite entries_set, bool_decide_true by done. cbn. by rewrite H4.
  - intros q Hq Hne. rewrite <- (kept_current fs fs') by done. unfold current. by rewrite entries_set, bool_decide_false.
Qed.

Lemma durable_entry p c fs fs' : ordinary p -> written p c fs fs' ->
  written p c fs (sync_directory p.1 fs') /\ forall x, possible (sync_directory p.1 fs') p x -> x = Some c.
Proof.
  intros Hp Hw. pose proof (wr_well_formed _ _ _ _ Hw) as Hwf. split.
  - eapply written_quiet; [done..|]. by apply quiet_sync.
  - intros x (e & ->%synced_entry & Hx). rewrite <- (wr_target _ _ _ _ Hw). unfold current.
    destruct (entries fs' !! p) as [i|] eqn:He; [|done]. destruct Hx as (n & c' & Hn & -> & Hc). cbn in Hn |- *. rewrite Hn. cbn.
    f_equal. apply Hc. eapply (wf_synced _ Hwf p i); [done| |done]. rewrite <- He. apply possible_entry_current.
Qed.

(** ** The parts of a write *)

Section Parts.
Context (fs : FS).

Lemma remove_quiet t fs' : hidden t -> quiet fs fs' -> wp (removeTemporaryFile t) (fun _ => quiet fs) (quiet fs) fs'.
Proof.
  intros Ht Hq. split; [done|]. intros out. cbn. destruct (ok out); [|done]. destruct (entries fs' !! t) eqn:He.
  - cbn. eapply quiet_trans; [done|]. apply quiet_entry; [apply Hq|done|by intros].
  - cbn. split; [done|]. intros out'. by cbn.
Qed.

Lemma inspect_same p fs' : wp (inspectTarget p) (fun _ => eq fs') (eq fs') fs'.
Proof.
  split; [done|]. intros out. cbn. destruct (ok out); [|done]. destruct (entries fs' !! p); [|done].
  case_bool_decide; [done|]. split; [done|]. intros out'. by cbn.
Qed.

Lemma unchanged_same p e fs' : wp (targetUnchanged p e) (fun _ => eq fs') (eq fs') fs'.
Proof. destruct e; (split; [done|]; intros out; by cbn). Qed.

Lemma temporary_path_hidden p pid n : hidden (temporary_path p pid n).
Proof. done. Qed.

Lemma open_holding n p fs' : quiet fs fs' ->
  wp (openUniqueTemporaryFile n p)
    (fun r fs2 => match r with inl (t, h) => holding fs fs2 t h (mkInode [] [] false) | inr _ => quiet fs fs2 end) (quiet fs) fs'.
Proof.
  revert fs'. induction n as [|n IH]; intros fs' Hq; [done|]. cbn [openUniqueTemporaryFile]. split; [done|]. intros out.
  cbn [perform]. assert (Hq1 : quiet fs (bump fs')) by (eapply quiet_trans; [done|]; apply quiet_bump, Hq).
  set (t := temporary_path p (process fs') (counter fs')). split; [done|]. intros out1. cbn [perform]. fold t.
  destruct (ok out1); [|done]. destruct (entries (bump fs') !! t) eqn:He; [by apply IH|].
  destruct (quiet_create (bump fs') t) as (H1 & H2 & H3 & H4); [apply Hq1|apply temporary_path_hidden|].
  assert (Hq2 : quiet fs (create t (bump fs'))) by by eapply quiet_trans.
  assert (Hh : holding fs (create t (bump fs')) t (next_inode (bump fs')) (mkInode [] [] false)) by done.
  split; [done|]. intros out2. cbn [perform]. destruct (ok out2); [exact Hh|].
  split; [done|]. intros out3. cbn [perform]. rewrite H3.
  assert (Hq3 : quiet fs (if ok out3 then set_inode (next_inode (bump fs')) (flush (mkInode [] [] false)) (create t (bump fs')) else create t (bump fs'))).
  { destruct (ok out3); [|done]. eapply ho_quiet, holding_inode, Hh. }
  refine (wp_bind _ (removeTemporaryFile t) _ _ _ _). eapply wp_conseq; [by apply remove_quiet|done|done].
Qed.

Lemma write_string fuel text t h fs' n : holding fs fs' t h n ->
  wp (writeStringToStream fuel text h)
    (fun b fs2 => exists n', holding fs fs2 t h n' /\ (b = true -> all_written n' = all_written n ++ text)) (quiet fs) fs'.
Proof.
  revert text fs' n. induction fuel as [|fuel IH]; intros [|a text] fs' n Hh; cbn [writeStringToStream].
  - exists n. by rewrite app_nil_r.
  - by exists n.
  - exists n. by rewrite app_nil_r.
  - split; [apply Hh|]. intros out. cbn [perform]. rewrite (ho_inode _ _ _ _ _ Hh).
    set (k := Nat.min (count out) (length (a :: text))).
    pose proof (holding_inode _ _ _ _ _ (mkInode (content n) (pending n ++ take k (a :: text)) false) Hh) as Hh'.
    cbn [prog_MBind prog_bind]. destruct (Nat.eqb_spec k 0); [eexists; split; [exact Hh'|done]|].
    eapply wp_conseq; [exact (IH (drop k (a :: text)) _ _ Hh')| |done]. cbn. intros b fs2 (n' & H1 & H2). exists n'.
    split; [done|]. intros Hb. rewrite H2 by done. unfold all_written. cbn [content pending]. by rewrite <- !app_assoc, take_drop.
Qed.

Lemma write_temporary_holding h target text t fs' : holding fs fs' t h (mkInode [] [] false) ->
  wp (write_temporary h target text)
    (fun b fs2 => exists n, holding fs fs2 t h n /\ (b = true -> n = mkInode text [] true)) (quiet fs) fs'.
Proof.
  intros Hh. unfold write_temporary. apply wp_bind. eapply wp_conseq; [exact (write_string _ text _ _ _ _ Hh)| |done].
  cbn. intros b fs2 (n & H1 & H2).
  set (Q := fun (b : bool) fs2 => exists n, holding fs fs2 t h n /\ (b = true -> n = mkInode text [] true)).
  assert (Hclose : forall (b' : bool) fs3 n', holding fs fs3 t h n' -> (b' = true -> n' = mkInode text [] true) ->
    wp (closed ← call (Fclose h); Ret (b' && closed)) Q (quiet fs) fs3).
  { intros b' fs3 n' Hh' Hb'. split; [apply Hh'|]. intros out. cbn. rewrite (ho_inode _ _ _ _ _ Hh').
    destruct (ok out); [exists (flush n')|exists n']; (split; [by try eapply holding_inode|]);
      intros [Hb _]%andb_true_iff; rewrite (Hb' Hb); [|done]. unfold flush, all_written. cbn. by rewrite app_nil_r. }
  assert (Hfail : wp (closed ← call (Fclose h); Ret (false && closed)) Q (quiet fs) fs2) by by apply (Hclose false _ n).
  destruct b; [|exact Hfail]. specialize (H2 eq_refl). cbn in H2.
  split; [apply H1|]. intros out1. cbn. destruct (ok out1); [|exact Hfail].
  assert (Hflush : wp (flushed ← call (Fflush h); synced ← when_ok flushed (call (Fsync h)); closed ← call (Fclose h); Ret (synced && closed))
      Q (quiet fs) fs2).
  { split; [apply H1|]. intros out2. cbn. rewrite (ho_inode _ _ _ _ _ H1). destruct (ok out2); [|exact Hfail].
    pose proof (holding_inode _ _ _ _ _ (flush n) H1) as H3. split; [apply H3|]. intros out3. cbn.
    rewrite lookup_insert_eq. destruct (ok out3); [|by eapply (Hclose false)].
    eapply (Hclose true); [by apply (holding_inode _ _ _ _ _ (mkInode (all_written n) [] true) H3)|]. by rewrite H2. }
  destruct target; [|exact Hflush]. split; [apply H1|]. intros out4. cbn. destruct (ok out4); [exact Hflush|exact Hfail].
Qed.
End Parts.

Section Write.
Context (fs : FS) (p : path) (c : str) (Hp : ordinary p).

Lemma replace_written t h st fs' : holding fs fs' t h (mkInode c [] true) ->
  wp (replaceTarget t p st)
    (fun r fs2 => match r with NotCommitted => quiet fs fs2 | _ => written p c fs fs2 end) (interrupted p c fs) fs'.
Proof using Hp.
  intros Hh. pose proof (ho_quiet _ _ _ _ _ Hh) as Hq. pose proof (written_entry p _ _ _ _ _ Hp Hh) as Hw.
  pose proof (quiet_interrupted p c _ _ Hq) as Hi.
  assert (Hun : written p c fs (set_entry t None (set_entry p (Some h) fs'))).
  { eapply written_quiet; [done|done|]. apply quiet_entry; [apply Hw|apply Hh|by intros]. }
  unfold replaceTarget. apply wp_bind. eapply wp_conseq; [apply unchanged_same| |by intros ? <-]. cbn. intros [] fs2 <-; [|done].
  cbn. destruct st as [i|]; (split; [done|]); intros out; cbn; rewrite (ho_entry _ _ _ _ _ Hh).
  - destruct (ok out); done.
  - destruct (entries fs' !! p); [done|]. destruct (ok out); [|done]. split; [by apply written_interrupted|]. intros out2.
    cbn [perform]. rewrite entries_set, bool_decide_false by (eapply hidden_ordinary; [apply Hh|done]).
    rewrite (ho_entry _ _ _ _ _ Hh). destruct (ok out2); done.
Qed.

Lemma sync_durable removed fs' : written p c fs fs' ->
  wp (directory_synced ← syncParentDirectory p; Ret (if removed && directory_synced then Durable else CommittedUnsynced))
    (write_result p c fs) (interrupted p c fs) fs'.
Proof using Hp.
  intros Hw. pose proof (written_interrupted _ _ _ _ Hw) as Hi. destruct (durable_entry p c fs fs' Hp Hw) as [Hw' Hd].
  pose proof (written_interrupted _ _ _ _ Hw') as Hi'.
  apply wp_bind. split; [done|]. intros out. cbn. destruct (ok out); [|cbn; by rewrite andb_false_r].
  split; [done|]. intros out2. cbn. destruct (ok out2); cbn.
  - split; [done|]. intros out3. destruct removed, (ok out3); done.
  - split; [done|]. intros out3. by rewrite andb_false_r.
Qed.

Lemma failed_quiet t fs' : hidden t -> quiet fs fs' -> wp (failed t) (write_result p c fs) (interrupted p c fs) fs'.
Proof.
  intros Ht Hq. unfold failed. apply wp_bind. eapply wp_conseq; [by apply (remove_quiet fs)| |apply quiet_interrupted].
  by intros [] fs2.
Qed.

Lemma fileWrite_wp : well_formed fs -> wp (fileWrite p c) (write_result p c fs) (interrupted p c fs) fs.
Proof using Hp.
  intros Hwf. pose proof (quiet_refl _ Hwf) as Hq. pose proof (quiet_interrupted p c _ _ Hq) as Hi.
  split; [done|]. intros out. cbn [perform]. destruct (ok out); [|done].
  change (wp (atomicWriteLocked p c) (write_result p c fs) (interrupted p c fs) fs). unfold atomicWriteLocked. apply wp_bind. eapply wp_conseq; [apply inspect_same| |by intros ? <-]. intros [st|] fs1 <-; [|done].
  apply wp_bind. eapply wp_conseq; [by apply (open_holding fs)| |apply quiet_interrupted].
  intros [[t h]|[]] fs1 H1; [|done|done].
  apply wp_bind. eapply wp_conseq; [by apply (write_temporary_holding fs _ _ c t)| |apply quiet_interrupted].
  intros b fs2 (n & H2 & Hb). destruct b; cbn [negb]; [|apply failed_quiet; apply H2].
  rewrite (Hb eq_refl) in H2. apply wp_bind. eapply wp_conseq; [by apply (replace_written t h)| |done].
  intros [] fs3 H3; [apply failed_quiet; [apply H2|done]| |]; apply wp_bind.
  - by apply (sync_durable true).
  - eapply wp_conseq; [apply (remove_quiet fs3); [apply H2|apply quiet_refl, H3]| |].
    + intros removed fs4 H4. apply sync_durable. by eapply written_quiet.
    + intros fs4 H4. eapply written_interrupted, written_quiet; done.
Qed.
End Write.

(** C12: whatever calls fail and wherever the machine stops, a write leaves the
    target with its old contents or with the new ones, complete, and every
    other file as it was; after a failure nothing has changed, and once the
    result is [Durable] no crash brings the old contents back. *)
Theorem fileWrite_atomic fs p c outs : well_formed fs -> ordinary p ->
  match run (fileWrite p c) outs fs with
  | (Some r, fs') => well_formed fs' /\ within p c fs fs' /\
      match r with
      | Failed | FailedTemporaryRemaining => forall q, ordinary q -> current fs' q = current fs q
      | CommittedUnsynced | Durable => current fs' p = Some c /\ (forall q, ordinary q -> q <> p -> current fs' q = current fs q)
      end /\ (r = Durable -> forall x, possible fs' p x -> x = Some c)
  | (None, fs') => well_formed fs' /\ within p c fs fs'
  end.
Proof.
  intros Hwf Hp. pose proof (wp_run _ _ _ _ outs (fileWrite_wp fs p c Hp Hwf)) as H. destruct (run _ outs fs) as [[r|] fs']; [|exact H].
  destruct r; cbn in H.
  1,2: destruct (quiet_interrupted p c _ _ H); split_and!; try done; intros q Hq; by apply kept_current; [apply H|].
  - destruct H as [[H1 H2 H3 H4] Hd]. by split_and!.
  - destruct H as [H1 H2 H3 H4]. by split_and!.
Qed.

(** ** Examples *)

(** Outcomes of calls that all succeed. *)
Definition successes (n : nat) : list outcome := repeat (mkOutcome true 65536) n.

Definition links_file : path := ("base"%str, "links.json"%str).

Lemma fileWrite_atomic_witness :
  let '(r, fs') := run (fileWrite links_file "[]"%str) (successes 20) empty_disk in
  r = Some Durable /\ forall x, possible fs' links_file x -> x = Some "[]"%str.
Proof.
  pose proof (fileWrite_atomic empty_disk links_file "[]"%str (successes 20) empty_well_formed ltac:(done)) as H.
  destruct (run (fileWrite links_file "[]"%str) (successes 20) empty_disk) as [r fs'] eqn:Hr.
  assert (Hd : r = Some Durable) by (replace r with (run (fileWrite links_file "[]"%str) (successes 20) empty_disk).1 by (by rewrite Hr); vm_compute; reflexivity).
  subst r. split; [done|]. apply H. done.
Defined.

(** The machine stops between the link and the unlink of the first write. *)
Definition first_write_cut : FS := settle (run (fileWrite links_file "[]"%str) (successes 12) empty_disk).2.

(** When the machine stops while a file is created, the file can be there
    with its contents and still refuse every later write, because the
    temporary name that was left behind is a second link. *)
Theorem creation_cut_short :
  (run (fileWrite links_file "[]"%str) (successes 12) empty_disk).1 = None /\
  crash (run (fileWrite links_file "[]"%str) (successes 12) empty_disk).2 first_write_cut /\
  current first_write_cut links_file = Some "[]"%str /\
  forall text outs r fs', run (fileWrite links_file text) outs first_write_cut = (Some r, fs') -> r = Failed.
Proof.
  split_and!; [vm_compute; reflexivity|apply crash_settle|vm_compute; reflexivity|].
  intros text outs r fs' Hr. enough (H : wp (fileWrite links_file text) (fun r _ => r = Failed) (fun _ => True) first_write_cut).
  { pose proof (wp_run _ _ _ _ outs H) as Hw. by rewrite Hr in Hw. }
  assert (Hinspect : wp (inspectTarget links_file) (fun r _ => r = None) (fun _ => True) first_write_cut).
  { split; [done|]. intros out. cbn [perform].
    assert (He : entries first_write_cut !! links_file = Some 0%nat) by (vm_compute; reflexivity).
    assert (Hl : links 0 first_write_cut = 2%nat) by (vm_compute; reflexivity). rewrite He, Hl. by destruct (ok out). }
  split; [done|]. intros out. cbn [perform]. destruct (ok out); [|done].
  change (wp (atomicWriteLocked links_file text) (fun r _ => r = Failed) (fun _ => True) first_write_cut).
  unfold atomicWriteLocked. apply wp_bind. eapply wp_conseq; [exact Hinspect| |done]. by intros ? fs2 ->.
Qed.
