(* ===== verification/LinkStore.v ===== *)
(** * The file of the short links on the disk

    What the storage of short links assumes of a write holds of [fileWrite]:
    a failed write keeps the old contents, another one leaves the text that
    was written, whatever system calls fail. *)

From S2P Require Import Prelude Str StringUtil Disk Files ShortLinks.

Definition contents (fs : FS) (p : path) : str := default [] (current fs p).

(** The answer of the file system to a write that ended with [r]. *)
Definition answer (fs : FS) (p : path) (r : FileCommitResult) : Io :=
  mkIo true (if fileCommitFailed r then Unwritten (contents fs p) else Written).

Lemma write_contents fs p text outs r fs' : well_formed fs -> ordinary p ->
  run (fileWrite p text) outs fs = (Some r, fs') ->
  well_formed fs' /\ contents fs' p = (if fileCommitFailed r then contents fs p else text).
Proof.
  intros Hwf Hp Hr. pose proof (wp_run _ _ _ _ outs (fileWrite_wp fs p text Hp Hwf)) as H. rewrite Hr in H.
  unfold contents. destruct r; cbn in H |- *.
  1,2: split; [by destruct H|]; f_equal; by apply kept_current; [apply H|].
  - destruct H as [[H1 H2 H3 H4] _]. split; [done|]. by rewrite H3.
  - destruct H as [H1 H2 H3 H4]. split; [done|]. by rewrite H3.
Qed.

(** [saveLocked] on the disk: its file is the one that the write leaves, it
    answers whether the write was committed, and it is a step of the storage
    ([keeps]). *)
Theorem save_on_disk {J : JsonText} (iterate : gmap str ShortLinkRecord -> list (str * ShortLinkRecord)) st fs p outs r fs' :
  well_formed fs -> ordinary p -> disk st = contents fs p ->
  run (fileWrite p (c_str (json_write (JObject (record_json <$> iterate (records st)))))) outs fs = (Some r, fs') ->
  well_formed fs' /\ keeps (answer fs p r) st /\
  (saveLocked iterate (answer fs p r) st).1 = negb (fileCommitFailed r) /\
  disk (saveLocked iterate (answer fs p r) st).2 = contents fs' p.
Proof.
  intros Hwf Hp Hd Hr. destruct (write_contents _ _ _ _ _ _ Hwf Hp Hr) as [Hwf' Hc].
  unfold saveLocked, keeps, answer. cbn [write]. rewrite Hc. by destruct (fileCommitFailed r).
Qed.
