(* ===== verification/CacheStorage.v ===== *)
(** * handler/cache_storage.cpp: a body and its headers in two files

    A cached response is kept in a body file and a header file that are
    replaced one after the other; a third file marks the time in between,
    when the headers must not be used. *)

From S2P Require Import Prelude Str Disk Files.
Open Scope Z_scope.

(** src/src/handler/cache_storage.h:6-12 [CacheUpdateResult] *)
Inductive CacheUpdateResult := Complete | Unchanged | UnchangedHeadersInvalidated | HeadersInvalidated | BodyCommittedUnsynced.
#[export] Instance CacheUpdateResult_eq_dec : EqDecision CacheUpdateResult. Proof. solve_decision. Defined.

(** src/src/handler/cache_storage.cpp:17-19 [invalidationPath] *)
Definition invalidationPath (header_path : path) : path := (header_path.1, header_path.2 ++ "_invalid").

(** src/src/handler/cache_storage.cpp:21-29 [removeInvalidation] *)
Definition removeInvalidation (p : path) : prog bool :=
  r ← call (Remove p); Ret (match r with RemoveError => false | _ => true end).

(** src/src/handler/cache_storage.cpp:31-37 [invalidationPresent] *)
Definition invalidationPresent (p : path) : prog bool := e ← call (Exists p); Ret (default true e).

Definition marker_text : str := "invalid" ++ ["010"%char].

(** src/src/handler/cache_storage.cpp:41-75 [updateCacheFiles] *)
Definition updateCacheFiles (body_path header_path : path) (body headers : str) : prog CacheUpdateResult :=
  let invalidation_path := invalidationPath header_path in
  invalidation_was_present ← invalidationPresent invalidation_path;
  invalidation_result ← fileWrite invalidation_path marker_text;
  if negb (bool_decide (invalidation_result = Durable)) then
    present ← invalidationPresent invalidation_path;
    Ret (if (present : bool) then UnchangedHeadersInvalidated else Unchanged)
  else
    body_result ← fileWrite body_path body;
    if fileCommitFailed body_result then
      if (invalidation_was_present : bool) then Ret UnchangedHeadersInvalidated
      else
        removed ← removeInvalidation invalidation_path;
        Ret (if (removed : bool) then Unchanged else UnchangedHeadersInvalidated)
    else if bool_decide (body_result = CommittedUnsynced) then Ret BodyCommittedUnsynced
    else
      header_result ← fileWrite header_path headers;
      if negb (bool_decide (header_result = Durable)) then Ret HeadersInvalidated
      else
        removed ← removeInvalidation invalidation_path;
        Ret (if (removed : bool) then Complete else HeadersInvalidated).

(** src/src/handler/cache_storage.cpp:77-81 [readCachedResponseHeaders] *)
Definition readCachedResponseHeaders (header_path : path) : prog str :=
  invalid ← invalidationPresent (invalidationPath header_path);
  if (invalid : bool) then Ret [] else fileGet header_path.

(** src/src/handler/webget.cpp:4263-4265 [loadFreshAsyncOwnedCache, reading] *)
Definition readCache (body_path header_path : path) : prog (str * str) :=
  response_headers ← readCachedResponseHeaders header_path;
  content ← fileGet body_path;
  Ret (response_headers, content).

Lemma present_spec p fs :
  wp (invalidationPresent p) (fun b fs' => fs' = fs /\ (b = false -> current fs p = None)) (eq fs) fs.
Proof.
  split; [done|]. intros out. cbn. split; [done|]. destruct (ok out); cbn; [|done]. unfold current.
  by destruct (entries fs !! p).
Qed.

(** ** The two files belong together *)

Section Cache.
Context (body_path header_path : path).
Let marker : path := invalidationPath header_path.
Hypotheses (Hbody : ordinary body_path) (Hheader : ordinary header_path) (Hdistinct : body_path <> header_path) (Hmarker : body_path <> marker).

Lemma marker_ordinary : ordinary marker.
Proof. unfold ordinary, marker, invalidationPath in *. cbn. by destruct (header_path.2). Qed.

Lemma header_marker : header_path <> marker.
Proof.
  unfold marker, invalidationPath. destruct header_path as [d n]. cbn. intros [= H]. apply (f_equal length) in H.
  rewrite length_app in H. cbn in H. lia.
Qed.

(** Contents of the two files that were written together; none is a file that
    is not there. *)
Notation versions := (list (option str * option str)).
Implicit Types V : versions.

(** Unless the marker is there, now or after a crash, the files are of one
    version. *)
Definition consistent V (fs : FS) : Prop :=
  well_formed fs /\
  forall b h, possible fs marker None -> possible fs body_path b -> possible fs header_path h -> (b, h) ∈ V.

(** The marker will be there after every crash. *)
Definition marked (fs : FS) : Prop := well_formed fs /\ forall x, possible fs marker x -> x = Some marker_text.

Lemma marked_consistent V fs : marked fs -> consistent V fs.
Proof. intros [Hw Hm]. split; [done|]. intros b h Hn%Hm. done. Qed.

Lemma marked_now fs : marked fs -> is_Some (current fs marker).
Proof. intros [Hw Hm]. rewrite (Hm (current fs marker)) by by apply current_possible. done. Qed.

Lemma marked_interrupted p c fs fs' : p <> marker -> marked fs -> interrupted p c fs fs' -> marked fs'.
Proof.
  intros Hp [_ Hm] [Hw Hi]. split; [done|]. intros x Hx. destruct (Hi marker x marker_ordinary Hx) as [?|[Heq _]]; [auto|by destruct Hp].
Qed.

Lemma consistent_weaken V V' fs : (forall v, v ∈ V -> v ∈ V') -> consistent V fs -> consistent V' fs.
Proof. intros HV [Hw Hc]. split; [done|]. auto. Qed.

(** The write of the marker itself. *)
Lemma consistent_interrupted V fs fs' : consistent V fs -> interrupted marker marker_text fs fs' -> consistent V fs'.
Proof.
  intros [_ Hc] [Hw Hi]. split; [done|]. intros b h Hn Hb Hh. apply Hc.
  - by destruct (Hi marker None marker_ordinary Hn) as [?|[_ ?]].
  - by destruct (Hi body_path b Hbody Hb) as [?|[? _]].
  - destruct (Hi header_path h Hheader Hh) as [?|[Heq _]]; [done|]. by destruct header_marker.
Qed.

(** No crash changes what a path holds. *)
Definition settled (fs : FS) (p : path) (x : option str) : Prop := current fs p = x /\ forall y, possible fs p y -> y = x.

(** What the result of an update says of the files. *)
Definition update_result (body headers : str) (fs : FS) (r : CacheUpdateResult) (fs' : FS) : Prop :=
  match r with
  | Complete => settled fs' body_path (Some body) /\ settled fs' header_path (Some headers) /\ current fs' marker = None
  | Unchanged =>
      current fs' body_path = current fs body_path /\ current fs' header_path = current fs header_path /\
      current fs' marker = None /\ current fs marker = None
  | UnchangedHeadersInvalidated =>
      current fs' body_path = current fs body_path /\ current fs' header_path = current fs header_path
  | HeadersInvalidated => settled fs' body_path (Some body) /\ is_Some (current fs' marker)
  | BodyCommittedUnsynced => current fs' body_path = Some body /\ is_Some (current fs' marker)
  end.

Section Update.
Context (V : versions) (body headers : str) (fs : FS) (Hfs : consistent V fs).
Let V' : versions := (Some body, Some headers) :: V.

Definition updated (r : CacheUpdateResult) (fs' : FS) : Prop := consistent V' fs' /\ update_result body headers fs r fs'.

(** The marker is durable and nothing else has changed. *)
Record begun (fs1 : FS) : Prop := {
  be_marked : marked fs1;
  be_body : current fs1 body_path = current fs body_path;
  be_header : current fs1 header_path = current fs header_path;
  be_marker : current fs1 marker = Some marker_text;
  be_may_body : forall x, possible fs1 body_path x -> possible fs body_path x;
  be_may_header : forall x, possible fs1 header_path x -> possible fs header_path x
}.

Lemma marker_written fs1 : write_result marker marker_text fs Durable fs1 -> begun fs1.
Proof.
  intros [[H1 H2 H3 H4] Hd]. pose proof header_marker. split; [by split|by apply H4|by apply H4|done| |].
  - intros x Hx. by destruct (H2 body_path x Hbody Hx) as [?|[? _]].
  - intros x Hx. by destruct (H2 header_path x Hheader Hx) as [?|[? _]].
Qed.

(** A body that was not written leaves everything as it was; the marker may go
    when it was not there. *)
Lemma body_failed was_present fs1 fs2 :
  begun fs1 -> (was_present = false -> current fs marker = None) -> quiet fs1 fs2 ->
  wp (if (was_present : bool) then Ret UnchangedHeadersInvalidated
      else removed ← removeInvalidation marker; Ret (if (removed : bool) then Unchanged else UnchangedHeadersInvalidated))
    updated (consistent V') fs2.
Proof.
  intros Hb Hp Hq. pose proof (be_marked _ Hb) as Hm. pose proof header_marker as Hhm. pose proof marker_ordinary as Hmo.
  assert (Hm2 : marked fs2) by (eapply (marked_interrupted body_path []); [done..|by apply quiet_interrupted]).
  assert (Hc2 : consistent V' fs2) by by apply marked_consistent.
  assert (Ecur : forall p, ordinary p -> current fs2 p = current fs1 p) by (intros p Ho; by apply kept_current; [apply Hq|]).
  assert (Hsame : current fs2 body_path = current fs body_path /\ current fs2 header_path = current fs header_path).
  { rewrite !Ecur by done. split; [apply (be_body _ Hb)|apply (be_header _ Hb)]. }
  destruct was_present; [by split|]. specialize (Hp eq_refl). split; [done|]. intros out. cbn.
  destruct (ok out); [|by split]. destruct (entries fs2 !! marker) as [i|] eqn:He.
  - destruct (removed_entry fs2 marker (proj1 Hq)) as (R1 & R2 & R3 & R4). cbn. split; [split; [done|]|].
    + intros b h _ Hb' Hh'. right. apply (proj2 Hfs).
      * rewrite <- Hp. apply current_possible, Hfs.
      * apply (be_may_body _ Hb). eapply kept_may; [apply Hq|done|]. by destruct (R4 _ _ Hb') as [?|[? _]].
      * apply (be_may_header _ Hb). eapply kept_may; [apply Hq|done|]. by destruct (R4 _ _ Hh') as [?|[? _]].
    + cbn. rewrite !R3 by done. tauto.
  - exfalso. pose proof (be_marker _ Hb) as Hcur. rewrite <- Ecur in Hcur by done. unfold current in Hcur. by rewrite He in Hcur.
Qed.

(** Both files are written, and nothing else can be found in them. *)
Lemma headers_written fs2 fs3 :
  marked fs2 -> current fs2 body_path = Some body -> (forall x, possible fs2 body_path x -> x = Some body) ->
  write_result header_path headers fs2 Durable fs3 ->
  wp (removed ← removeInvalidation marker; Ret (if (removed : bool) then Complete else HeadersInvalidated)) updated (consistent V') fs3.
Proof.
  intros Hm Hcb Hpb [[H1 H2 H3 H4] Hd]. pose proof header_marker as Hhm. pose proof marker_ordinary as Hmo.
  assert (Hm3 : marked fs3) by (eapply (marked_interrupted header_path headers); [done..|by split]).
  assert (Hc3 : consistent V' fs3) by by apply marked_consistent.
  assert (Hmk : current fs3 marker = Some marker_text) by (apply (proj2 Hm3); by apply current_possible).
  assert (Hb3 : settled fs3 body_path (Some body)).
  { split; [by rewrite H4|]. intros x Hx. destruct (H2 body_path x Hbody Hx) as [?|[? _]]; [auto|done]. }
  split; [done|]. intros out. cbn. destruct (ok out); [|by split].
  destruct (entries fs3 !! marker) as [i|] eqn:He; [|by unfold current in Hmk; rewrite He in Hmk].
  destruct (removed_entry fs3 marker H1) as (R1 & R2 & R3 & R4). cbn. split; [split; [done|]|].
  - intros b h _ Hb' Hh'.
    assert (b = Some body) as ->.
    { destruct (R4 _ _ Hb') as [Hx|[? _]]; [|done]. destruct (H2 _ _ Hbody Hx) as [?|[? _]]; [auto|done]. }
    assert (h = Some headers) as -> by (destruct (R4 _ _ Hh') as [Hx|[? _]]; [by apply Hd|done]). by left.
  - split; [|split; [|exact R2]]; (split; [rewrite R3 by done|intros y Hy; destruct (R4 _ _ Hy) as [Hx|[? _]]; [|done]]).
    + exact (proj1 Hb3).
    + exact (proj2 Hb3 _ Hx).
    + done.
    + by apply Hd.
Qed.

Lemma update_wp : wp (updateCacheFiles body_path header_path body headers) updated (consistent V') fs.
Proof.
  pose proof header_marker as Hhm. pose proof marker_ordinary as Hmo. pose proof (proj1 Hfs) as Hwf.
  assert (HV : forall fs', consistent V fs' -> consistent V' fs') by (intros fs'; apply consistent_weaken; intros v; by right).
  unfold updateCacheFiles. fold marker. apply wp_bind. eapply wp_conseq; [apply present_spec| |intros ? <-; by apply HV].
  intros was ? [-> Hwas].
  apply wp_bind. eapply wp_conseq; [by apply (fileWrite_wp fs marker marker_text)| |].
  2: { intros fs' Hi. by eapply HV, consistent_interrupted. }
  intros r fs1 Hr. destruct (decide (r = Durable)) as [->|Hne].
  - rewrite bool_decide_true by done. cbn [negb]. pose proof (marker_written fs1 Hr) as Hb. pose proof (be_marked _ Hb) as Hm.
    apply wp_bind. eapply wp_conseq; [apply (fileWrite_wp fs1 body_path body); [done|apply Hm]| |].
    2: { intros fs' Hi. by apply marked_consistent, (marked_interrupted body_path body fs1). }
    intros r2 fs2 Hr2. destruct r2; cbn [fileCommitFailed].
    + by apply (body_failed was fs1).
    + by apply (body_failed was fs1).
    + rewrite bool_decide_false by done. destruct Hr2 as [Hw2 Hd2].
      assert (Hm2 : marked fs2) by (eapply (marked_interrupted body_path body fs1); [done..|by apply written_interrupted]).
      apply wp_bind. eapply wp_conseq; [apply (fileWrite_wp fs2 header_path headers); [done|apply Hm2]| |].
      2: { intros fs' Hi. by apply marked_consistent, (marked_interrupted header_path headers fs2). }
      intros r3 fs3 Hr3. destruct (decide (r3 = Durable)) as [->|Hne3].
      * rewrite bool_decide_true by done. eapply headers_written; [done|apply (wr_target _ _ _ _ Hw2)|exact Hd2|exact Hr3].
      * rewrite bool_decide_false by done. cbn [negb].
        assert (Hm3 : marked fs3) by (eapply (marked_interrupted header_path headers fs2); [done..|by eapply write_result_interrupted]).
        split; [by apply marked_consistent|]. split; [|by apply marked_now]. split.
        -- rewrite (write_result_others _ _ _ _ _ body_path Hr3) by done. apply (wr_target _ _ _ _ Hw2).
        -- intros y Hy. destruct (write_result_interrupted _ _ _ _ _ Hr3) as [_ Hi].
           destruct (Hi body_path y Hbody Hy) as [?|[? _]]; [auto|done].
    + rewrite bool_decide_true by done.
      assert (Hm2 : marked fs2) by (eapply (marked_interrupted body_path body fs1); [done..|by apply written_interrupted]).
      split; [by apply marked_consistent|]. split; [apply (wr_target _ _ _ _ Hr2)|by apply marked_now].
  - rewrite bool_decide_false by done. cbn [negb].
    assert (Hc1 : consistent V' fs1) by (eapply HV, consistent_interrupted; [done|by eapply write_result_interrupted]).
    assert (Hsame : current fs1 body_path = current fs body_path /\ current fs1 header_path = current fs header_path).
    { by rewrite !(write_result_others _ _ _ _ _ _ Hr) by done. }
    apply wp_bind. eapply wp_conseq; [apply present_spec| |by intros ? <-]. intros [] ? [-> Hm1]; [by split|]. specialize (Hm1 eq_refl).
    split; [done|]. split_and!; [tauto..|done|]. destruct r; cbn in Hr.
    + rewrite <- Hm1. symmetry. by apply kept_current; [apply Hr|].
    + rewrite <- Hm1. symmetry. by apply kept_current; [apply Hr|].
    + done.
    + rewrite (wr_target _ _ _ _ Hr) in Hm1. done.
Qed.
End Update.

(** ** Histories of a cache entry *)

(** Updates, each under its own outcomes and possibly cut short by a crash, and
    restarts; with the versions that were written. *)
Inductive history : versions -> FS -> Prop :=
| h_start V fs : consistent V fs -> history V fs
| h_update V fs body headers outs r fs' : history V fs ->
    run (updateCacheFiles body_path header_path body headers) outs fs = (Some r, fs') ->
    history ((Some body, Some headers) :: V) fs'
| h_crash V fs body headers outs fs1 fs' : history V fs ->
    run (updateCacheFiles body_path header_path body headers) outs fs = (None, fs1) -> crash fs1 fs' ->
    history ((Some body, Some headers) :: V) fs'
| h_restart V fs fs' : history V fs -> crash fs fs' -> history V fs'.

Lemma consistent_crash V fs fs' : consistent V fs -> crash fs fs' -> consistent V fs'.
Proof.
  intros [Hw Hc] Hcr. split; [by eapply crash_well_formed|]. pose proof marker_ordinary as Hmo.
  destruct (crash_current fs fs' marker Hw Hcr Hmo) as [M1 M2], (crash_current fs fs' body_path Hw Hcr Hbody) as [B1 B2],
    (crash_current fs fs' header_path Hw Hcr Hheader) as [H1 H2].
  intros b h Hn%M2 ->%B2 ->%H2. apply Hc; [by rewrite Hn|done|done].
Qed.

Lemma history_consistent V fs : history V fs -> consistent V fs.
Proof.
  induction 1 as [V fs H|V fs body headers outs r fs' _ IH Hr|V fs body headers outs fs1 fs' _ IH Hr Hc|V fs fs' _ IH Hc].
  - done.
  - pose proof (wp_run _ _ _ _ outs (update_wp V body headers fs IH)) as Hu. rewrite Hr in Hu. apply Hu.
  - pose proof (wp_run _ _ _ _ outs (update_wp V body headers fs IH)) as Hu. rewrite Hr in Hu. by eapply consistent_crash.
  - by eapply consistent_crash.
Qed.

Lemma read_wp fs :
  wp (readCache body_path header_path)
    (fun r fs' => fs' = fs /\ (r.1 = [] \/ current fs marker = None /\ current fs header_path = Some r.1) /\
                  (r.2 = [] \/ current fs body_path = Some r.2)) (eq fs) fs.
Proof.
  assert (Hget : forall p, wp (fileGet p) (fun c fs' => fs' = fs /\ (c = [] \/ current fs p = Some c)) (eq fs) fs).
  { intros p. split; [done|]. intros out. cbn. split; [done|]. destruct (ok out); [|by left].
    unfold current. destruct (content <$> _); [by right|by left]. }
  assert (Hbody' : forall hs, (hs = [] \/ current fs marker = None /\ current fs header_path = Some hs) ->
    wp (content ← fileGet body_path; Ret (hs, content))
      (fun r fs' => fs' = fs /\ (r.1 = [] \/ current fs marker = None /\ current fs header_path = Some r.1) /\
                    (r.2 = [] \/ current fs body_path = Some r.2)) (eq fs) fs).
  { intros hs Hhs. apply wp_bind. eapply wp_conseq; [apply Hget| |done]. by intros c ? [-> Hc]. }
  unfold readCache. apply wp_bind. unfold readCachedResponseHeaders. apply wp_bind.
  eapply wp_conseq; [apply present_spec| |done]. intros [] ? [-> Hm]; [apply Hbody'; by left|].
  eapply wp_conseq; [apply Hget| |done]. intros hs ? [-> Hhs]. apply Hbody'. destruct Hhs; [by left|right; auto].
Qed.

(** C5: whatever calls fail and whenever the machine stops, headers that are
    read from a cache entry were written together with its body. *)
Theorem cache_never_mixed V fs outs hs b fs' : history V fs -> run (readCache body_path header_path) outs fs = (Some (hs, b), fs') ->
  hs = [] \/ exists body, (body, Some hs) ∈ V /\ (b = [] \/ body = Some b).
Proof.
  intros [Hw Hc]%history_consistent Hr. pose proof (wp_run _ _ _ _ outs (read_wp fs)) as H. rewrite Hr in H. cbn in H.
  destruct H as (_ & [?|[Hm Hh]] & Hb); [by left|right]. exists (current fs body_path). split.
  - rewrite <- Hh. apply Hc; [rewrite <- Hm|..]; by apply current_possible.
  - destruct Hb; auto.
Qed.

(** C23: the result of an update says what the files hold: after [Complete] both
    are new and no crash changes them, after the others the body is old or new
    as told, and the marker keeps the old headers from being used. *)
Theorem update_reported V fs body headers outs r fs' : history V fs ->
  run (updateCacheFiles body_path header_path body headers) outs fs = (Some r, fs') -> update_result body headers fs r fs'.
Proof.
  intros Hh%history_consistent Hr. pose proof (wp_run _ _ _ _ outs (update_wp V body headers fs Hh)) as H. rewrite Hr in H. apply H.
Qed.
End Cache.

(** ** Examples *)

Definition entry_body : path := ("cache"%str, "5f"%str).
Definition entry_header : path := ("cache"%str, "5f_header"%str).
Definition first_outs : list outcome := successes 80.
Definition after_first : FS := (run (updateCacheFiles entry_body entry_header "one"%str "a: 1"%str) first_outs empty_disk).2.

Lemma first_history : history entry_body entry_header [(Some "one"%str, Some "a: 1"%str); (None, None)] after_first.
Proof.
  eapply (h_update _ _ [(None, None)] empty_disk "one"%str "a: 1"%str first_outs Complete).
  - apply h_start. split; [apply empty_well_formed|]. intros b h _ (e & He & Hb) (e' & He' & Hh).
    assert (Hn : forall p e, possible_entry empty_disk p e -> e = None).
    { intros p f [->|Hf]; [done|]. cbn in Hf. rewrite lookup_empty in Hf. by apply elem_of_nil in Hf. }
    apply Hn in He as ->. apply Hn in He' as ->. subst. by left.
  - unfold after_first. destruct (run _ _ _) as [r fs] eqn:Hr. cbn. f_equal.
    replace r with (run (updateCacheFiles entry_body entry_header "one"%str "a: 1"%str) first_outs empty_disk).1 by (by rewrite Hr).
    vm_compute. reflexivity.
Qed.

(** The machine stops in the second update, when the body has been replaced. *)
Definition cut_update : FS :=
  settle (run (updateCacheFiles entry_body entry_header "two"%str "a: 2"%str) (successes 32) after_first).2.

Lemma cut_history :
  history entry_body entry_header [(Some "two"%str, Some "a: 2"%str); (Some "one"%str, Some "a: 1"%str); (None, None)] cut_update.
Proof.
  destruct (run (updateCacheFiles entry_body entry_header "two"%str "a: 2"%str) (successes 32) after_first) as [r fs] eqn:Hr.
  assert (Hn : r = None).
  { replace r with (run (updateCacheFiles entry_body entry_header "two"%str "a: 2"%str) (successes 32) after_first).1 by (by rewrite Hr).
    vm_compute. reflexivity. }
  subst r. eapply (h_crash _ _ _ _ _ _ _ fs); [apply first_history|exact Hr|]. unfold cut_update. rewrite Hr. apply crash_settle.
Qed.

Lemma cache_never_mixed_witness :
  (run (readCache entry_body entry_header) (successes 3) after_first).1 = Some ("a: 1"%str, "one"%str) /\
  (run (readCache entry_body entry_header) (successes 3) cut_update).1 = Some ([], "two"%str) /\
  ("a: 1"%str = [] \/ exists body, (body, Some "a: 1"%str) ∈ [(Some "one"%str, Some "a: 1"%str); (None, None)] /\
                                   ("one"%str = [] \/ body = Some "one"%str)).
Proof.
  split_and!; [vm_compute; reflexivity..|].
  apply (cache_never_mixed entry_body entry_header ltac:(done) ltac:(done) ltac:(done) ltac:(done) _ after_first (successes 3) _ _
           (run (readCache entry_body entry_header) (successes 3) after_first).2 first_history).
  rewrite (surjective_pairing (run (readCache entry_body entry_header) (successes 3) after_first)) at 1. f_equal.
Defined.

Lemma update_reported_witness :
  (run (updateCacheFiles entry_body entry_header "two"%str "a: 2"%str) (successes 60) after_first).1 = Some Complete /\
  settled (run (updateCacheFiles entry_body entry_header "two"%str "a: 2"%str) (successes 60) after_first).2
    entry_body (Some "two"%str).
Proof.
  assert (H : (run (updateCacheFiles entry_body entry_header "two"%str "a: 2"%str) (successes 60) after_first).1 = Some Complete)
    by (vm_compute; reflexivity).
  split; [exact H|]. destruct (run _ (successes 60) after_first) as [r fs'] eqn:Hr. cbn in H. subst r.
  apply (update_reported entry_body entry_header ltac:(done) ltac:(done) ltac:(done) ltac:(done) _ _ _ _ _ _ _ first_history Hr).
Defined.
