(* ===== verification/Node.v ===== *)
(** * parser/config/proxy.h and the construct functions of parser/subparser.cpp

    A node with all its fields, three-valued booleans (utils/tribool.h), the
    string hash the code switches on (utils/string_hash.h), and the functions
    that fill a node for each protocol.  A node of this file is a
    [NodeSelect.Proxy] whose [rest] is the record of the protocol fields. *)

From S2P Require Import Prelude Str StringUtil Codec Regexp RuleConvert NodeSelect.
From coqutil Require Export Datatypes.RecordSetters.
Export OCamlLikeNotations.
Open Scope nat_scope.

(** ** utils/string_hash.h *)

(** A [char] as an operand of a 64-bit operation: it is signed. *)
Definition char64 (c : ascii) : Z := u64 (if (code c <? 128)%Z then code c else code c - 256).

(** src/src/utils/string_hash.h:12-23 *)
Definition hash_step (ret : Z) (c : ascii) : Z := u64 (Z.lxor ret (char64 c) * 1099511628211).
Definition hash_ (s : str) : Z := foldl hash_step 14695981039346656037%Z (c_str s).

(** [case "..."_hash] *)
Definition hash_is (s name : str) : bool := (hash_ s =? hash_ name)%Z.

(** ** utils/tribool.h *)

(** src/src/utils/tribool.h:104-104 [value_type] *)
Inductive tribool := indeterminate | false_value | true_value.
#[export] Instance tribool_eq_dec : EqDecision tribool.
Proof. solve_decision. Defined.

(** src/src/utils/tribool.h:13-13 [tribool(bool)] *)
Definition tribool_of_bool (value : bool) : tribool := if value then true_value else false_value.

(** src/src/utils/tribool.h:79-99 [set] *)
Definition tribool_of_str (s : str) : tribool :=
  if hash_is s "true" || hash_is s "1" then true_value
  else if hash_is s "false" || hash_is s "0" then false_value
  else if (1 <? to_int s 0)%Z then true_value else indeterminate.

(** src/src/utils/tribool.h:29-29 *)
Definition is_undef (b : tribool) : bool := bool_decide (b = indeterminate).

(** src/src/utils/tribool.h:52-57 *)
Definition tribool_get (b : tribool) (def_value : bool) : bool :=
  if is_undef b then def_value else bool_decide (b = true_value).

(** src/src/utils/tribool.h:31-36 *)
Definition define (b value : tribool) : tribool := if is_undef b then value else b.

(** ** utils/network.cpp *)

Section Construct.
Context `{!Pcre}.

(** src/src/utils/network.cpp:50-59 [isIPv6] *)
Definition isIPv6 (address : str) : bool :=
  regMatch address "^(?:[0-9a-fA-F]{1,4}:){7}[0-9a-fA-F]{1,4}$" ||
  regMatch address "^((?:[0-9A-Fa-f]{1,4}(:[0-9A-Fa-f]{1,4})*)?)::((?:([0-9A-Fa-f]{1,4}:)*[0-9A-Fa-f]{1,4})?)$" ||
  regMatch address
    "^(::(?:[0-9A-Fa-f]{1,4})(?::[0-9A-Fa-f]{1,4}){5})|((?:[0-9A-Fa-f]{1,4})(?::[0-9A-Fa-f]{1,4}){5}::)$".

Definition is_ipv4 (address : str) : bool := RuleConvert.isIPv4 regMatch address.

End Construct.

(** ** Nodes *)

(** src/src/parser/config/proxy.h:33-41 [WireGuardPeer] *)
Record WireGuardPeer := mkPeer {
  peer_Hostname : str; peer_Port : Z; peer_PublicKey : str; peer_PreSharedKey : str; peer_AllowedIPs : str;
  peer_Reserved : str; peer_KeepAlive : Z
}.

(** src/src/parser/config/proxy.h:90-217 [Proxy, the protocol fields] *)
Record Fields := mkFields {
  CongestionControl : str; Username : str; Password : str; EncryptMethod : str; Plugin : str; PluginOption : str;
  Protocol : str; ProtocolParam : str; OBFS : str; OBFSParam : str; UserId : str; AlterId : Z;
  TransferProtocol : str; FakeType : str; AuthStr : str; IdleSessionCheckInterval : Z; IdleSessionTimeout : Z;
  MinIdleSession : Z; NaiveInsecureConcurrency : Z; NaiveQuic : tribool; NaiveUot : tribool; TLSStr : str;
  TLSSecure : bool; Host : str; Path : str; Edge : str; QUICSecure : str; QUICSecret : str; UDP : tribool;
  XUDP : tribool; TCPFastOpen : tribool; AllowInsecure : tribool; TLS13 : tribool; SnellVersion : Z;
  SnellReuse : tribool; SnellUserKey : str; SnellNetwork : str; SnellMode : str; SnellUDPPort : Z;
  ShadowTLSPassword : str; ShadowTLSSNI : str; ShadowTLSVersion : Z; ServerName : str; SelfIP : str;
  SelfIPv6 : str; PublicKey : str; PrivateKey : str; PreSharedKey : str; DnsServers : list str; Mtu : Z;
  AllowedIPs : str; KeepAlive : Z; TestUrl : str; ClientId : str; WireGuardPeers : list WireGuardPeer;
  WireGuardLocalAddresses : list str; WireGuardInterfaceName : str; WireGuardSystem : tribool;
  WireGuardListenPort : Z; WireGuardWorkers : Z; Ports : str; Auth : str; Alpn : str; UpMbps : str; DownMbps : str;
  HysteriaHopInterval : str; Insecure : str; Fingerprint : str; OBFSPassword : str; Hysteria2RealmUrl : str;
  Hysteria2GeckoMinPacketSize : str; Hysteria2GeckoMaxPacketSize : str; Hysteria2ECH : str;
  Hysteria2PortsAreAdditional : bool; GRPCServiceName : str; GRPCMode : str; ShortId : str; Flow : str;
  Encryption : str; FlowShow : bool; DisableSni : tribool; UpSpeed : Z; DownSpeed : Z; SNI : str;
  ReduceRtt : tribool; UdpRelayMode : str; RequestTimeout : Z; token : str; UnderlyingProxy : str;
  AlpnList : list str; PacketEncoding : str; Multiplexing : str; MieruProfile : str; MieruSourceId : str;
  MieruSourceRemark : str; MieruBindingIndex : Z; MieruHasUnknownParameters : bool; MieruHandshakeMode : str;
  MieruTrafficPattern : str; V2rayHttpUpgrade : tribool; XrayLinkOptions : list (str * str);
  CanonicalProxyJson : str
}.

Notation Node := (NodeSelect.Proxy Fields).

(** The record spelled out, from which the setters are made. *)
Definition eta_Fields (r : Fields) : Fields :=
  mkFields (CongestionControl r) (Username r) (Password r) (EncryptMethod r) (Plugin r) (PluginOption r)
    (Protocol r) (ProtocolParam r) (OBFS r) (OBFSParam r) (UserId r) (AlterId r) (TransferProtocol r) (FakeType r)
    (AuthStr r) (IdleSessionCheckInterval r) (IdleSessionTimeout r) (MinIdleSession r) (NaiveInsecureConcurrency r)
    (NaiveQuic r) (NaiveUot r) (TLSStr r) (TLSSecure r) (Host r) (Path r) (Edge r) (QUICSecure r) (QUICSecret r)
    (UDP r) (XUDP r) (TCPFastOpen r) (AllowInsecure r) (TLS13 r) (SnellVersion r) (SnellReuse r) (SnellUserKey r)
    (SnellNetwork r) (SnellMode r) (SnellUDPPort r) (ShadowTLSPassword r) (ShadowTLSSNI r) (ShadowTLSVersion r)
    (ServerName r) (SelfIP r) (SelfIPv6 r) (PublicKey r) (PrivateKey r) (PreSharedKey r) (DnsServers r) (Mtu r)
    (AllowedIPs r) (KeepAlive r) (TestUrl r) (ClientId r) (WireGuardPeers r) (WireGuardLocalAddresses r)
    (WireGuardInterfaceName r) (WireGuardSystem r) (WireGuardListenPort r) (WireGuardWorkers r) (Ports r) (Auth r)
    (Alpn r) (UpMbps r) (DownMbps r) (HysteriaHopInterval r) (Insecure r) (Fingerprint r) (OBFSPassword r)
    (Hysteria2RealmUrl r) (Hysteria2GeckoMinPacketSize r) (Hysteria2GeckoMaxPacketSize r) (Hysteria2ECH r)
    (Hysteria2PortsAreAdditional r) (GRPCServiceName r) (GRPCMode r) (ShortId r) (Flow r) (Encryption r)
    (FlowShow r) (DisableSni r) (UpSpeed r) (DownSpeed r) (SNI r) (ReduceRtt r) (UdpRelayMode r) (RequestTimeout r)
    (token r) (UnderlyingProxy r) (AlpnList r) (PacketEncoding r) (Multiplexing r) (MieruProfile r)
    (MieruSourceId r) (MieruSourceRemark r) (MieruBindingIndex r) (MieruHasUnknownParameters r)
    (MieruHandshakeMode r) (MieruTrafficPattern r) (V2rayHttpUpgrade r) (XrayLinkOptions r) (CanonicalProxyJson r).

Ltac fields_setter getter :=
  let e := eval unfold eta_Fields in eta_Fields in
  let p := eval pattern getter in e in
  match p with ?f _ =>
    let s := eval cbv beta in (fun u => f (fun r => u (getter r))) in exact s
  end.
#[export] Hint Extern 0 (@Setter Fields _ ?getter) => fields_setter getter : typeclass_instances.

(** src/src/parser/config/proxy.h:34-41 [WireGuardPeer, defaults] *)
Definition newPeer : WireGuardPeer := mkPeer [] 0 [] [] "0.0.0.0/0, ::/0" [] 0.

(** src/src/parser/config/proxy.h:82-217 [Proxy, defaults]
    [UpSpeed] and [DownSpeed] have no initializer: a new node has the values
    [upSpeed] and [downSpeed] that happen to be there. *)
Definition newFields (upSpeed downSpeed : Z) : Fields := {|
  CongestionControl := []; Username := []; Password := []; EncryptMethod := []; Plugin := []; PluginOption := [];
  Protocol := []; ProtocolParam := []; OBFS := []; OBFSParam := []; UserId := []; AlterId := 0;
  TransferProtocol := []; FakeType := []; AuthStr := []; IdleSessionCheckInterval := 30; IdleSessionTimeout := 30;
  MinIdleSession := 0; NaiveInsecureConcurrency := 0; NaiveQuic := indeterminate; NaiveUot := indeterminate;
  TLSStr := []; TLSSecure := false; Host := []; Path := []; Edge := []; QUICSecure := []; QUICSecret := [];
  UDP := indeterminate; XUDP := indeterminate; TCPFastOpen := indeterminate; AllowInsecure := indeterminate;
  TLS13 := indeterminate; SnellVersion := 0; SnellReuse := indeterminate; SnellUserKey := []; SnellNetwork := [];
  SnellMode := []; SnellUDPPort := 0; ShadowTLSPassword := []; ShadowTLSSNI := []; ShadowTLSVersion := 0;
  ServerName := []; SelfIP := []; SelfIPv6 := []; PublicKey := []; PrivateKey := []; PreSharedKey := [];
  DnsServers := []; Mtu := 0; AllowedIPs := "0.0.0.0/0, ::/0"; KeepAlive := 0; TestUrl := []; ClientId := [];
  WireGuardPeers := []; WireGuardLocalAddresses := []; WireGuardInterfaceName := [];
  WireGuardSystem := indeterminate; WireGuardListenPort := 0; WireGuardWorkers := 0; Ports := []; Auth := [];
  Alpn := []; UpMbps := []; DownMbps := []; HysteriaHopInterval := []; Insecure := []; Fingerprint := [];
  OBFSPassword := []; Hysteria2RealmUrl := []; Hysteria2GeckoMinPacketSize := [];
  Hysteria2GeckoMaxPacketSize := []; Hysteria2ECH := []; Hysteria2PortsAreAdditional := false;
  GRPCServiceName := []; GRPCMode := []; ShortId := []; Flow := []; Encryption := []; FlowShow := false;
  DisableSni := indeterminate; UpSpeed := upSpeed; DownSpeed := downSpeed; SNI := []; ReduceRtt := indeterminate;
  UdpRelayMode := "native"; RequestTimeout := 15000; token := []; UnderlyingProxy := []; AlpnList := [];
  PacketEncoding := []; Multiplexing := []; MieruProfile := []; MieruSourceId := []; MieruSourceRemark := [];
  MieruBindingIndex := 0; MieruHasUnknownParameters := false; MieruHandshakeMode := []; MieruTrafficPattern := [];
  V2rayHttpUpgrade := indeterminate; XrayLinkOptions := []; CanonicalProxyJson := []
|}.
Definition newNode (upSpeed downSpeed : Z) : Node := mkProxy Unknown 0 0 [] [] [] 0 (newFields upSpeed downSpeed).


(** ** The constructors of parser/subparser.cpp *)

(** src/src/parser/subparser.cpp:47-58 *)
Definition removeBrackets (input : str) : str :=
  match find_char "[" input 0, find_char "]" input 0 with
  | Some left_, Some right_ => if (left_ <? right_)%nat then erase (erase input right_ 1) left_ 1 else input
  | _, _ => input
  end.

(** src/src/parser/subparser.cpp:762-775 *)
Definition commonConstruct (node : Node) (type : ProxyType) (group remarks server port : str)
    (udp tfo scv tls13 : tribool) (underlying_proxy : str) : Node :=
  { node with Type_ := type; Group := group; Remark := remarks; Hostname := removeBrackets server;
    Port := u16 (to_int port 0); rest -> UDP := udp; rest -> TCPFastOpen := tfo; rest -> AllowInsecure := scv;
    rest -> TLS13 := tls13; rest -> UnderlyingProxy := underlying_proxy }.

(** src/src/parser/subparser.cpp:473-490 *)
Definition normalizeXrayTransport (network : str) : str :=
  let network := toLower (trim network true true) in
  if bool_decide (network = [] \/ network = "raw"%str) then "tcp"
  else if bool_decide (network = "none"%str) then "tcp"
  else if bool_decide (network = "websocket"%str) then "ws"
  else if bool_decide (network = "mkcp"%str) then "kcp"
  else if bool_decide (network = "gun"%str) then "grpc"
  else if bool_decide (network = "h2"%str) then "http"
  else if bool_decide (network = "splithttp"%str) then "xhttp"
  else network.

Definition no_uuid : str := "00000000-0000-0000-0000-000000000000".
Definition orElse (s t : str) : str := match s with [] => t | _ => s end.

Section Constructs.
Context `{!Pcre}.

(** [(host.empty() && !isIPv4(add) && !isIPv6(add)) ? add.data() : trim(host)] *)
Definition host_or (host add : str) : str :=
  if bool_decide (host = []) && negb (is_ipv4 add) && negb (isIPv6 add) then c_str add else trim host true true.

(** src/src/parser/subparser.cpp:777-802 *)
Definition vmessConstruct (node : Node) (group remarks add port type id aid net cipher path host edge tls sni : str)
    (alpnList : list str) (udp tfo scv tls13 : tribool) (underlying_proxy : str) : Node :=
  let node := commonConstruct node VMess group remarks add port udp tfo scv tls13 underlying_proxy in
  let node := { node with rest -> UserId := orElse id no_uuid; rest -> AlterId := u16 (to_int aid 0);
    rest -> EncryptMethod := cipher; rest -> TransferProtocol := normalizeXrayTransport net; rest -> Edge := edge;
    rest -> ServerName := sni; rest -> AlpnList := alpnList; rest -> TLSStr := tls } in
  let node :=
    if bool_decide (TransferProtocol (rest node) = "quic"%str) then
      { node with rest -> QUICSecure := host; rest -> QUICSecret := path }
    else
      { node with rest -> Host := host_or host add;
        rest -> Path := (match path with [] => "/" | _ => trim path true true end) } in
  { node with rest -> FakeType := type;
    rest -> TLSSecure := bool_decide (tls = "tls"%str) || bool_decide (tls = "reality"%str) }.

(** src/src/parser/subparser.cpp:804-817 *)
Definition ssrConstruct (node : Node)
    (group remarks server port protocol method obfs password obfsparam protoparam : str) (udp tfo scv : tribool)
    (underlying_proxy : str) : Node :=
  let node := commonConstruct node ShadowsocksR group remarks server port udp tfo scv indeterminate underlying_proxy in
  { node with rest -> Password := password; rest -> EncryptMethod := method; rest -> Protocol := protocol;
    rest -> ProtocolParam := protoparam; rest -> OBFS := obfs; rest -> OBFSParam := obfsparam }.

(** src/src/parser/subparser.cpp:819-828 *)
Definition ssConstruct (node : Node) (group remarks server port password method plugin pluginopts : str)
    (udp tfo scv tls13 : tribool) (underlying_proxy : str) : Node :=
  let node := commonConstruct node Shadowsocks group remarks server port udp tfo scv tls13 underlying_proxy in
  { node with rest -> Password := password; rest -> EncryptMethod := method; rest -> Plugin := plugin;
    rest -> PluginOption := pluginopts }.

(** src/src/parser/subparser.cpp:830-836 *)
Definition socksConstruct (node : Node) (group remarks server port username password : str) (udp tfo scv : tribool)
    (underlying_proxy : str) : Node :=
  let node := commonConstruct node SOCKS5 group remarks server port udp tfo scv indeterminate underlying_proxy in
  { node with rest -> Username := username; rest -> Password := password }.

(** src/src/parser/subparser.cpp:838-846 *)
Definition httpConstruct (node : Node) (group remarks server port username password : str) (tls : bool)
    (tfo scv tls13 : tribool) (underlying_proxy : str) : Node :=
  let node := commonConstruct node (if tls then HTTPS else HTTP) group remarks server port indeterminate tfo scv tls13
    underlying_proxy in
  { node with rest -> Username := username; rest -> Password := password; rest -> TLSSecure := tls }.

(** src/src/parser/subparser.cpp:848-865 *)
Definition trojanConstruct (node : Node) (group remarks server port password network host path fp sni : str)
    (alpnList : list str) (tlssecure : bool) (udp tfo scv tls13 : tribool) (underlying_proxy : str) : Node :=
  let node := commonConstruct node Trojan group remarks server port udp tfo scv tls13 underlying_proxy in
  { node with rest -> Password := password; rest -> Host := host; rest -> TLSSecure := tlssecure;
    rest -> TLSStr := (if tlssecure then "tls" else "none")%str;
    rest -> TransferProtocol := orElse network "tcp"; rest -> Path := path; rest -> Fingerprint := fp;
    rest -> ServerName := sni; rest -> AlpnList := alpnList }.

(** src/src/parser/subparser.cpp:867-879 *)
Definition snellConstruct (node : Node) (group remarks server port password obfs host obfs_uri : str) (version : Z)
    (reuse udp tfo scv : tribool) (underlying_proxy : str) : Node :=
  let node := commonConstruct node Snell group remarks server port udp tfo scv indeterminate underlying_proxy in
  { node with rest -> Password := password; rest -> OBFS := obfs; rest -> Host := host; rest -> Path := obfs_uri;
    rest -> SnellVersion := version; rest -> SnellReuse := reuse }.

(** src/src/parser/subparser.cpp:902-922 *)
Definition hysteriaConstruct (node : Node)
    (group remarks add port type auth auth_str host up down alpn obfsParam insecure ports sni : str)
    (udp tfo scv tls13 : tribool) (underlying_proxy : str) : Node :=
  let node := commonConstruct node Hysteria group remarks add port udp tfo scv tls13 underlying_proxy in
  { node with rest -> Auth := auth; rest -> Host := host_or host add; rest -> UpMbps := up; rest -> DownMbps := down;
    rest -> Alpn := alpn; rest -> OBFSParam := obfsParam; rest -> Insecure := insecure; rest -> FakeType := type;
    rest -> AuthStr := auth_str; rest -> Ports := ports; rest -> ServerName := sni }.

(** src/src/parser/subparser.cpp:924-942 *)
Definition anyTlSConstruct (node : Node) (group remarks port password host : str) (alpnList : list str)
    (fingerprint sni : str) (udp tfo scv tls13 : tribool) (underlying_proxy : str)
    (idleSessionCheckInterval idleSessionTimeout minIdleSession : Z) : Node :=
  let node := commonConstruct node AnyTLS group remarks host port udp tfo scv tls13 underlying_proxy in
  { node with rest -> Host := trim host true true; rest -> Password := password; rest -> AlpnList := alpnList;
    rest -> SNI := sni; rest -> ServerName := sni; rest -> Fingerprint := fingerprint;
    rest -> IdleSessionCheckInterval := idleSessionCheckInterval; rest -> IdleSessionTimeout := idleSessionTimeout;
    rest -> MinIdleSession := minIdleSession }.

(** src/src/parser/subparser.cpp:944-964 *)
Definition naiveConstruct (node : Node) (group remarks port username password host : str) (alpn_list : list str)
    (fingerprint sni : str) (scv : tribool) (quic : bool) (insecure_concurrency : Z) : Node :=
  let node := commonConstruct node Naive group remarks host port indeterminate indeterminate scv indeterminate [] in
  { node with rest -> Username := username; rest -> Password := password; rest -> TLSSecure := true;
    rest -> TLSStr := "tls"%str; rest -> ServerName := sni; rest -> SNI := sni; rest -> AlpnList := alpn_list;
    rest -> Fingerprint := fingerprint; rest -> NaiveQuic := tribool_of_bool quic;
    rest -> NaiveInsecureConcurrency := insecure_concurrency }.

(** src/src/parser/subparser.cpp:966-980 *)
Definition mieruConstruct (node : Node)
    (group remarks port password host ports username multiplexing transfer_protocol : str)
    (udp tfo scv tls13 : tribool) (underlying_proxy : str) : Node :=
  let node := commonConstruct node Mieru group remarks host port udp tfo scv tls13 underlying_proxy in
  { node with rest -> Host := trim host true true; rest -> Password := password; rest -> Ports := ports;
    rest -> TransferProtocol := (match transfer_protocol with [] => "TCP" | _ => trim transfer_protocol true true end)%str;
    rest -> Username := username;
    rest -> Multiplexing := (match multiplexing with [] => "MULTIPLEXING_LOW" | _ => trim multiplexing true true end)%str }.

(** src/src/parser/subparser.cpp:991-1007 [vlessConstruct, fields of every transport] *)
Definition vless_fields (node : Node) (group remarks add port type id aid net cipher flow edge tls pbk sid fp sni : str)
    (alpnList : list str) (packet_encoding : str) (udp tfo scv tls13 : tribool) (underlying_proxy encryption : str) : Node :=
  let node := commonConstruct node VLESS group remarks add port udp tfo scv tls13 underlying_proxy in
  { node with rest -> UserId := orElse id no_uuid; rest -> AlterId := u16 (to_int aid 0);
    rest -> EncryptMethod := cipher; rest -> TransferProtocol := normalizeXrayTransport net; rest -> Edge := edge;
    rest -> Flow := flow; rest -> Encryption := orElse encryption "none"; rest -> FakeType := type;
    rest -> TLSSecure :=
      bool_decide (tls = "tls"%str) || bool_decide (tls = "xtls"%str) || bool_decide (tls = "reality"%str);
    rest -> PublicKey := pbk; rest -> ShortId := sid; rest -> Fingerprint := fp; rest -> ServerName := sni;
    rest -> AlpnList := alpnList; rest -> PacketEncoding := packet_encoding; rest -> TLSStr := tls }.

(** src/src/parser/subparser.cpp:1008-1025 [vlessConstruct, transport] *)
Definition vless_by_transport (node : Node) (mode path host add : str) (v2ray_http_upgrade : tribool) : Node :=
  let net := TransferProtocol (rest node) in
  let node := if bool_decide (net = "xhttp"%str) then { node with rest -> GRPCMode := mode } else node in
  if hash_is net "grpc" then
    { node with rest -> Host := host; rest -> GRPCMode := orElse mode "gun";
      rest -> GRPCServiceName := (match path with [] => "/" | _ => urlDecode (trim path true true) end)%str }
  else if hash_is net "quic" then
    { node with rest -> Host := host;
      rest -> QUICSecret := (match path with [] => "/" | _ => trim path true true end)%str }
  else
    { node with rest -> Host := host_or host add;
      rest -> Path := (match path with [] => "/" | _ => urlDecode (trim path true true) end)%str;
      rest -> V2rayHttpUpgrade := v2ray_http_upgrade }.

(** src/src/parser/subparser.cpp:982-1026 *)
Definition vlessConstruct (node : Node)
    (group remarks add port type id aid net cipher flow mode path host edge tls pbk sid fp sni : str)
    (alpnList : list str) (packet_encoding : str) (udp tfo scv tls13 : tribool) (underlying_proxy : str)
    (v2ray_http_upgrade : tribool) (encryption : str) : Node :=
  vless_by_transport
    (vless_fields node group remarks add port type id aid net cipher flow edge tls pbk sid fp sni alpnList packet_encoding
       udp tfo scv tls13 underlying_proxy encryption)
    mode path host add v2ray_http_upgrade.

(** src/src/parser/subparser.cpp:1029-1047 *)
Definition hysteria2Construct (node : Node)
    (group remarks add port password host up down alpn obfsParam obfsPassword sni publicKey ports : str)
    (udp tfo scv : tribool) (underlying_proxy : str) : Node :=
  let node := commonConstruct node Hysteria2 group remarks add port udp tfo scv indeterminate underlying_proxy in
  { node with rest -> Password := password; rest -> Host := host_or host add; rest -> UpMbps := up;
    rest -> DownMbps := down; rest -> Alpn := alpn; rest -> OBFSParam := obfsParam;
    rest -> OBFSPassword := obfsPassword; rest -> ServerName := sni; rest -> PublicKey := publicKey;
    rest -> Ports := ports }.

(** src/src/parser/subparser.cpp:1049-1068 *)
Definition tuicConstruct (node : Node)
    (group remarks add port password congestion_control alpn sni uuid udpRelayMode token_ : str)
    (udp tfo scv reduceRtt disableSni : tribool) (request_timeout : Z) (underlying_proxy : str) : Node :=
  let node := commonConstruct node TUIC group remarks add port udp tfo scv indeterminate underlying_proxy in
  { node with rest -> Password := password; rest -> Alpn := alpn; rest -> ServerName := sni;
    rest -> CongestionControl := congestion_control; rest -> ReduceRtt := reduceRtt;
    rest -> DisableSni := disableSni; rest -> UserId := uuid; rest -> UdpRelayMode := udpRelayMode;
    rest -> token := token_; rest -> RequestTimeout := request_timeout }.

End Constructs.
