(* ===== verification/ShareUri.v ===== *)
(** * parser/subparser.cpp: reading the parts of a share link

    User information, authority, port, query and remark of a link, and the
    options of a query, with the functions of subexport.cpp that write a host
    and a query.  [getUrlArg_query] says what [getUrlArg] reads. *)

From S2P Require Import Prelude Str StringUtil Codec Regexp NodeSelect Node.
Open Scope nat_scope.

Definition has_crlf (s : str) : bool := existsb is_crlf s.

(** ** User information *)

(** src/src/parser/subparser.cpp:88-96 *)
Definition shareUriHexValue (ch : ascii) : option Z :=
  if isdigit ch then Some (code ch - 48)%Z
  else if between 97 102 ch then Some (code ch - 97 + 10)%Z
  else if between 65 70 ch then Some (code ch - 65 + 10)%Z
  else None.

(** src/src/parser/subparser.cpp:101-118 *)
Fixpoint decodeShareUriUserInfo (value : str) : str :=
  match value with
  | [] => []
  | ch :: r =>
      match (if is_char "%" ch then
        match r with
        | h :: l :: r' =>
            match shareUriHexValue h, shareUriHexValue l with
            | Some high, Some low => Some (chr (Z.lor (Z.shiftl high 4) low), decodeShareUriUserInfo r')
            | _, _ => None
            end
        | _ => None
        end else None) with
      | Some (ch, rest) => push_unless_crlf ch rest
      | None => push_unless_crlf ch (decodeShareUriUserInfo r)
      end
  end.

(** src/src/parser/subparser.cpp:60-71 *)
Definition extractRemark (link remark : str) : str * str :=
  let '(link, remark) :=
    match last_index_if (is_char "#") link with
    | Some pos => (take pos link, urlDecode (drop (pos + 1) link))
    | None => (link, remark)
    end in
  (match find_char "#" link 0 with Some pos => take pos link | None => link end, remark).

(** ** Ports *)

Definition all_digits (s : str) : bool := forallb isdigit s.

(** src/src/parser/subparser.cpp:120-128 *)
Definition validSharePort (port : str) : bool :=
  if bool_decide (port = []) || (5 <? length port) || negb (all_digits port) then false
  else let value := to_int port 0 in ((1 <=? value) && (value <=? 65535))%Z.

(** src/src/parser/subparser.cpp:130-144
    [stoull] throws for a number of more than 64 bits. *)
Definition validHysteriaUriMbps (value : str) : bool :=
  if bool_decide (value = []) || negb (all_digits value) then false
  else
    let parsed := digits_value 0 value in
    if (UINT64_MAX <? parsed)%Z then false else ((0 <? parsed) && (parsed <=? INT_MAX))%Z.

(** src/src/parser/subparser.cpp:258-281
    The first port and what remains of a range without it. *)
Definition validHysteria2PortToken (token : str) : option (Z * str) :=
  match find_char "-" token 0 with
  | None => if negb (validSharePort token) then None else Some (u16 (to_int token 0), [])
  | Some dash =>
      if (dash =? 0) || (length token <=? dash + 1) || bool_decide (is_Some (find_char "-" token (dash + 1))) then None
      else
        let start := substr token 0 dash in
        let end_ := drop (dash + 1) token in
        if negb (validSharePort start) || negb (validSharePort end_) then None
        else
          let first := to_int start 0 in
          let last := to_int end_ 0 in
          if (last <? first)%Z then None
          else Some (u16 first, if (first <? last)%Z then to_string (first + 1) ++ "-" ++ end_ else [])
  end.

(** ** Strict base64 *)

Definition base64_char (ch : ascii) : bool := isalnum ch || one_of "-_+/" ch.

(** src/src/parser/subparser.cpp:150-159 [decodeStrictBase64, scan]
    The position of the first [=], behind which nothing else may stand. *)
Fixpoint strict_scan (i : nat) (padding_start : option nat) (s : str) : option (option nat) :=
  match s with
  | [] => Some padding_start
  | ch :: s =>
      if is_char "=" ch then strict_scan (S i) (Some (default i padding_start)) s
      else if bool_decide (is_Some padding_start) || negb (base64_char ch) then None
      else strict_scan (S i) padding_start s
  end.

(** src/src/parser/subparser.cpp:146-178 *)
Definition decodeStrictBase64 (encoded : str) : option str :=
  if bool_decide (encoded = []) then None
  else
    match strict_scan 0 None encoded with
    | None => None
    | Some found =>
        let padding_start := default (length encoded) found in
        let padding := length encoded - padding_start in
        let bad_padding :=
          if 0 <? padding then
            let expected_padding :=
              if padding_start mod 4 =? 2 then 2 else if padding_start mod 4 =? 3 then 1 else 0 in
            negb (length encoded mod 4 =? 0) || negb (padding =? expected_padding)
          else padding_start mod 4 =? 1 in
        if bad_padding then None
        else
          let candidate := urlSafeBase64Decode encoded in
          let normalized := substr encoded 0 padding_start in
          let normalized := default normalized (replaceAllDistinct normalized "+" "-") in
          let normalized := default normalized (replaceAllDistinct normalized "/" "_") in
          if bool_decide (urlSafeBase64Encode candidate = Some normalized) then Some candidate else None
    end.

(** ** Authority *)

(** src/src/parser/subparser.cpp:180-201 *)
Definition parseShareAuthority (authority : str) : option (str * str) :=
  match authority with
  | [] => None
  | front :: _ =>
      let parts :=
        if is_char "[" front then
          match find_char "]" authority 0 with
          | None => None
          | Some bracket =>
              if (length authority <=? bracket + 2) || negb (bool_decide (authority !! (bracket + 1) = Some ":"%char))
              then None
              else Some (substr authority 1 (bracket - 1), drop (bracket + 2) authority)
          end
        else
          match last_index_if (is_char ":") authority with
          | None => None
          | Some colon =>
              if (colon =? 0) || (length authority <=? colon + 1) ||
                 negb (bool_decide (find_char ":" authority 0 = Some colon)) then None
              else Some (take colon authority, drop (colon + 1) authority)
          end in
      match parts with
      | Some (host, port) =>
          if negb (bool_decide (host = [])) && negb (has_crlf host) && validSharePort port then Some (host, port)
          else None
      | None => None
      end
  end.

(** src/src/parser/subparser.cpp:203-218 *)
Definition parseUserPassword (userinfo : str) (allow_plain : bool) : option (str * str) :=
  let decoded :=
    if allow_plain && bool_decide (is_Some (find_char ":" userinfo 0)) then Some (decodeShareUriUserInfo userinfo)
    else decodeStrictBase64 userinfo in
  match decoded with
  | None => None
  | Some decoded =>
      match find_char ":" decoded 0 with
      | None => None
      | Some colon =>
          let username := take colon decoded in
          let password := drop (colon + 1) decoded in
          if negb (has_crlf username) && negb (has_crlf password) then Some (username, password) else None
      end
  end.

(** src/src/parser/subparser.cpp:80-86 *)
Record ParsedShareUri := mkParsed { user : str; host : str; port : str; query : str; remark : str }.

(** What [std::string::pop_back] leaves when the last byte is a slash. *)
Definition drop_slash (uri : str) : str :=
  match last uri with Some c => if is_char "/" c then removelast uri else uri | None => uri end.

(** The text before a query and the query. *)
Definition cut_query (uri : str) : str * str :=
  match find_char "?" uri 0 with
  | Some query_pos => (take query_pos uri, drop (query_pos + 1) uri)
  | None => (uri, [])
  end.

(** src/src/parser/subparser.cpp:239-252 [parseShareUri, authority] *)
Definition share_authority (authority : str) : option (str * str) :=
  if bool_decide (head authority = Some "["%char) then
    match find_char "]" authority 0 with
    | None => None
    | Some bracket =>
        if (length authority <=? bracket + 1) || negb (bool_decide (authority !! (bracket + 1) = Some ":"%char)) then None
        else Some (substr authority 1 (bracket - 1), drop (bracket + 2) authority)
    end
  else
    match last_index_if (is_char ":") authority with
    | None => None
    | Some colon =>
        if (colon =? 0) || (length authority <=? colon + 1) then None
        else Some (take colon authority, drop (colon + 1) authority)
    end.

(** src/src/parser/subparser.cpp:220-256 *)
Definition parseShareUri (uri scheme : str) : option ParsedShareUri :=
  let prefix := scheme ++ "://" in
  if negb (startsWith uri prefix) then None
  else
    let '(uri, remark) := extractRemark (drop (length prefix) uri) [] in
    let '(uri, query) := cut_query uri in
    let uri := drop_slash uri in
    match last_index_if (is_char "@") uri with
    | None => None
    | Some at_ =>
        if (at_ =? 0) || (length uri <=? at_ + 1) then None
        else
          let user := decodeShareUriUserInfo (take at_ uri) in
          match share_authority (drop (at_ + 1) uri) with
          | None => None
          | Some (host, port) =>
              if negb (bool_decide (user = [])) && negb (bool_decide (host = [])) && validSharePort port
              then Some (mkParsed user host port query remark) else None
          end
    end.

(** ** Modern links *)

(** src/src/parser/subparser.cpp:366-386 [parseModernShareUri, authority]
    Host and port specification, which may be missing. *)
Definition modern_authority (authority : str) : option (str * str) :=
  if bool_decide (head authority = Some "["%char) then
    match find_char "]" authority 0 with
    | None => None
    | Some bracket =>
        let host := substr authority 1 (bracket - 1) in
        if bracket + 1 <? length authority then
          if negb (bool_decide (authority !! (bracket + 1) = Some ":"%char)) || (length authority <=? bracket + 2) then None
          else Some (host, drop (bracket + 2) authority)
        else Some (host, [])
    end
  else
    match last_index_if (is_char ":") authority with
    | None => Some (authority, [])
    | Some colon =>
        if negb (bool_decide (find_char ":" authority 0 = Some colon)) || (colon =? 0) || (length authority <=? colon + 1)
        then None
        else Some (take colon authority, drop (colon + 1) authority)
    end.

(** src/src/parser/subparser.cpp:400-418 [parseModernShareUri, Hysteria 2 ports]
    The primary port and the remaining ones. *)
Definition modern_ports (port_spec : str) : option (str * str) :=
  match default [] (split port_spec ",") with
  | [] => None
  | front :: tokens =>
      match validHysteria2PortToken front with
      | None => None
      | Some (primary_port, first_remaining) =>
          if forallb (fun t => bool_decide (is_Some (validHysteria2PortToken t))) tokens then
            Some (to_string primary_port,
                  join ((match first_remaining with [] => [] | _ => [first_remaining] end) ++ tokens) ",")
          else None
      end
  end.

(** src/src/parser/subparser.cpp:329-420
    The parts and the additional ports. *)
Definition parseModernShareUri (uri scheme : str) (require_user : bool) (default_port : str)
    (allow_hysteria2_ports : bool) : option (ParsedShareUri * str) :=
  let prefix := scheme ++ "://" in
  if negb (startsWith uri prefix) then None
  else
    let uri := drop (length prefix) uri in
    let '(uri, remark) :=
      match find_char "#" uri 0 with
      | Some fragment_pos => (take fragment_pos uri, decodeShareUriUserInfo (drop (fragment_pos + 1) uri))
      | None => (uri, [])
      end in
    let '(uri, query) := cut_query uri in
    let uri := drop_slash uri in
    if bool_decide (uri = []) || bool_decide (is_Some (find_char "/" uri 0)) then None
    else
      let user_authority :=
        match last_index_if (is_char "@") uri with
        | None => if require_user then None else Some ([], uri)
        | Some at_ =>
            if (at_ =? 0) || (length uri <=? at_ + 1) then None
            else Some (decodeShareUriUserInfo (take at_ uri), drop (at_ + 1) uri)
        end in
      match user_authority with
      | None => None
      | Some (user, authority) =>
          match modern_authority authority with
          | None => None
          | Some (host, port_spec) =>
              if bool_decide (host = []) then None
              else
                let port_spec := orElse port_spec default_port in
                if negb allow_hysteria2_ports then
                  if negb (validSharePort port_spec) then None
                  else if negb require_user || negb (bool_decide (user = []))
                  then Some (mkParsed user host port_spec query remark, []) else None
                else
                  match modern_ports port_spec with
                  | None => None
                  | Some (port, additional_ports) => Some (mkParsed user host port query remark, additional_ports)
                  end
          end
      end.

(** ** Options of a query *)

(** src/src/parser/subparser.cpp:428-430 *)
Definition decodedUrlArg (query key : str) : str := urlDecode (getUrlArg query key).

(** src/src/parser/subparser.cpp:432-440 *)
Definition getUrlAlpnList (query : str) : list str :=
  filter (fun item => item <> [])
    ((fun item => trim item true true) <$> default [] (split (decodedUrlArg query "alpn") ",")).

(** src/src/parser/subparser.cpp:442-450 *)
Fixpoint decodedFirstUrlArg (query : str) (keys : list str) : str :=
  match keys with
  | [] => []
  | key :: keys => orElse (decodedUrlArg query key) (decodedFirstUrlArg query keys)
  end.

(** src/src/parser/subparser.cpp:452-464 *)
Definition parseUint16Option (value : str) (fallback : Z) (allow_seconds_suffix : bool) : Z :=
  let normalized := trim value true true in
  let normalized :=
    if allow_seconds_suffix && (1 <? length normalized) && bool_decide (last normalized = Some "s"%char)
    then removelast normalized else normalized in
  if bool_decide (normalized = []) || (5 <? length normalized) || negb (all_digits normalized) then fallback
  else
    let parsed := to_int normalized (-1) in
    (if (0 <=? parsed) && (parsed <=? 65535) then u16 parsed else fallback)%Z.

(** src/src/parser/subparser.cpp:466-471 *)
Definition getXrayAllowInsecure (query : str) : tribool :=
  tribool_of_str (orElse (getUrlArg query "insecure") (getUrlArg query "allowInsecure")).

(** src/src/parser/subparser.cpp:492-496 *)
Definition rememberXrayLinkOption (node : Node) (query key : str) : Node :=
  match decodedUrlArg query key with
  | [] => node
  | value => { node with rest -> XrayLinkOptions ::= (fun l => l ++ [(key, value)]) }
  end.

(** src/src/parser/subparser.cpp:499-501 [rememberXrayLinkOptions, keys] *)
Definition xray_option_keys : list str := ["authority"; "extra"; "fm"; "ech"; "pcs"; "vcn"; "pqv"; "spx"]%str.

(** src/src/parser/subparser.cpp:498-504 *)
Definition rememberXrayLinkOptions (node : Node) (query : str) : Node :=
  foldl (fun node key => rememberXrayLinkOption node query key) node xray_option_keys.

(** What [parseXrayTransport] fills. *)
Record XrayTransport := mkTransport { network : str; header_type : str; path : str; host_ : str; mode : str }.

(** src/src/parser/subparser.cpp:509-542 [parseXrayTransport, switch] *)
Definition xray_transport (query : str) : option XrayTransport :=
  let network := normalizeXrayTransport (decodedUrlArg query "type") in
  let header_type := decodedUrlArg query "headerType" in
  if hash_is network "tcp" then
    if bool_decide (header_type = "http"%str)
    then Some (mkTransport network header_type (getUrlArg query "path") (decodedUrlArg query "host") [])
    else Some (mkTransport network header_type [] [] [])
  else if hash_is network "kcp" then Some (mkTransport network header_type (getUrlArg query "seed") [] [])
  else if hash_is network "ws" || hash_is network "http" || hash_is network "httpupgrade" then
    Some (mkTransport network header_type (getUrlArg query "path") (decodedUrlArg query "host") [])
  else if hash_is network "grpc" then
    Some (mkTransport network header_type (getUrlArg query "serviceName") [] (decodedUrlArg query "mode"))
  else if hash_is network "xhttp" then
    Some (mkTransport network header_type (getUrlArg query "path") (decodedUrlArg query "host") (decodedUrlArg query "mode"))
  else if hash_is network "quic" then
    Some (mkTransport network header_type (getUrlArg query "key") (decodedUrlArg query "quicSecurity") [])
  else None.

(** src/src/parser/subparser.cpp:506-545
    The node with the remembered options and the transport. *)
Definition parseXrayTransport (query : str) (node : Node) : option (Node * XrayTransport) :=
  match xray_transport query with
  | None => None
  | Some t => Some (rememberXrayLinkOptions node query, t)
  end.

(** ** Writing a query (generator/config/subexport.cpp) *)

(** src/src/generator/config/subexport.cpp:623-628 *)
Definition appendShareQuery (query : list str) (key value : str) : list str :=
  match value with [] => query | _ => query ++ [key ++ "=" ++ urlEncode value] end.

(** src/src/generator/config/subexport.cpp:630-632 *)
Definition joinShareQuery (query : list str) : str := match query with [] => [] | _ => "?" ++ join query "&" end.

(** src/src/generator/config/subexport.cpp:510-512 *)
Definition shareLinkHost (host : str) : str :=
  if bool_decide (is_Some (find_char ":" host 0)) then "[" ++ host ++ "]" else host.

(** A sequence of calls of [appendShareQuery]. *)
Definition append_all (l : list (str * str)) : list str := foldl (fun q kv => appendShareQuery q kv.1 kv.2) [] l.

(** ** [getUrlArg] reads the last field with the key *)

Definition strip_prefix (p s : str) : option str := if starts_with p s then Some (drop (length p) s) else None.

(** What the query says of a key: the last of the fields that begin with it. *)
Definition query_value (url key : str) : str :=
  default [] (last (omap (strip_prefix (key ++ "=")) (fields "&" url))).

Lemma rfind_aux_spec p s i : match rfind_aux p s i with
  | Some k => k <= i /\ starts_with p (drop k s) = true /\ forall q, k < q <= i -> starts_with p (drop q s) = false
  | None => forall q, q <= i -> starts_with p (drop q s) = false
  end.
Proof.
  induction i as [|i IH]; cbn [rfind_aux]; destruct (starts_with p (drop _ s)) eqn:E.
  - split_and!; [done|done|lia].
  - intros q Hq. by replace q with 0 by lia.
  - split_and!; [done|done|lia].
  - destruct (rfind_aux p s i) as [k|].
    + destruct IH as (H1 & H2 & H3). split_and!; [lia|done|]. intros q Hq. destruct (decide (q = S i)) as [->|]; [done|apply H3; lia].
    + intros q Hq. destruct (decide (q = S i)) as [->|]; [done|apply IH; lia].
Qed.

Lemma starts_with_drop_length p s q : starts_with p (drop q s) = true -> p <> [] -> q + length p <= length s.
Proof.
  intros H Hp. apply starts_with_length in H. rewrite length_drop in H. destruct p; [done|]. simpl in *. lia.
Qed.

Lemma rfind_spec p s pos : p <> [] -> match rfind p s pos with
  | Some k => k <= pos /\ starts_with p (drop k s) = true /\ forall q, k < q <= pos -> starts_with p (drop q s) = false
  | None => forall q, q <= pos -> starts_with p (drop q s) = false
  end.
Proof.
  intros Hp. assert (Hout : forall q, length s < q + length p -> starts_with p (drop q s) = false).
  { intros q Hq. destruct (starts_with p (drop q s)) eqn:E; [|done]. apply starts_with_drop_length in E; [lia|done]. }
  unfold rfind. destruct (Nat.leb_spec (length p) (length s)).
  - pose proof (rfind_aux_spec p s (pos `min` (length s - length p))) as Hs. case_match.
    + destruct Hs as (H1 & H2 & H3). split_and!; [lia|done|]. intros q Hq.
      destruct (decide (q <= length s - length p)); [apply H3; lia|apply Hout; lia].
    + intros q Hq. destruct (decide (q <= length s - length p)); [apply Hs; lia|apply Hout; lia].
  - intros q Hq. apply Hout. lia.
Qed.

Section UrlArg.
Context (key : str).
Hypothesis key_ne : key <> [].
Hypothesis key_eq : "="%char ∉ key.
Hypothesis key_amp : "&"%char ∉ key.

(** A field that begins with the key starts at [p]. *)
Definition field_starts (u : str) (p : nat) : Prop :=
  (p = 0 \/ u !! (p - 1) = Some "&"%char) /\ starts_with (key ++ "=") (drop p u) = true.

Definition until_amp (s : str) : str := match find_char "&" s 0 with Some e => take e s | None => s end.

(** What a scan from the end finds. *)
Definition last_value (u : str) (result : option str) : Prop :=
  match result with
  | Some v => exists p, field_starts u p /\ (forall q, p < q -> ~ field_starts u q) /\
                v = until_amp (drop (p + length (key ++ "=")) u)
  | None => forall p, ~ field_starts u p
  end.

Lemma last_value_unique u r1 r2 : last_value u r1 -> last_value u r2 -> r1 = r2.
Proof.
  destruct r1 as [v1|], r2 as [v2|]; simpl; [|naive_solver..]. intros (p & Hp & Hmax & ->) (q & Hq & Hmax' & ->).
  destruct (Nat.lt_total p q) as [H|[->|H]]; [by apply Hmax in H|done|by apply Hmax' in H].
Qed.

Lemma no_overlap url : starts_with (key ++ "=") url = true -> starts_with (key ++ "=") (drop 1 url) = true -> False.
Proof.
  intros (t & H1)%starts_with_spec (t' & H2)%starts_with_spec.
  assert (E1 : url !! (length key) = Some "="%char).
  { rewrite H1, <- app_assoc, lookup_app_r, Nat.sub_diag by lia. done. }
  assert (Hlen : 0 < length key) by (destruct key; [done|simpl; lia]).
  destruct (lookup_lt_is_Some_2 key (length key - 1)) as [c Hc]; [lia|].
  assert (E2 : url !! (length key) = Some c).
  { replace (length key) with (1 + (length key - 1)) by lia.
    rewrite <- lookup_drop, H2, <- app_assoc, lookup_app_l by lia. done. }
  rewrite E1 in E2. injection E2 as <-. by apply key_eq, (list_elem_of_lookup_2 _ _ _ Hc).
Qed.

Lemma getUrlArg_loop_spec url fuel pos :
  "?"%char ∉ url -> pos < fuel -> (forall p, pos < p -> ~ field_starts url p) -> (pos = 0 -> ~ field_starts url 0) ->
  exists o, last_value url o /\ getUrlArg_loop fuel url (key ++ "=") pos = default [] o.
Proof.
  intros Hq. revert pos. induction fuel as [|fuel IH]; intros pos Hf Habove Hzero; [lia|]. cbn [getUrlArg_loop].
  destruct (Nat.eqb_spec pos 0) as [->|Hnz].
  { exists None. split; [|done]. intros [|p]; [by apply Hzero|apply Habove; lia]. }
  assert (Hpat : key ++ "="%str <> []) by (by destruct key).
  pose proof (rfind_spec (key ++ "=") url pos Hpat) as Hr. destruct (rfind (key ++ "=") url pos) as [p|].
  2:{ exists None. split; [|done]. intros p Hp. destruct (decide (p <= pos)); [|apply (Habove p); [lia|done]].
      destruct Hp as [_ Hp]. by rewrite Hr in Hp. }
  destruct Hr as (Hle & Hm & Hlast).
  assert (Hmax : forall q, p < q -> ~ field_starts url q).
  { intros q Hpq [Hb Hs]. destruct (decide (q <= pos)); [|apply (Habove q); [lia|done]]. by rewrite Hlast in Hs by lia. }
  destruct ((p =? 0) || match url !! (p - 1) with Some c => one_of "&?" c | None => false end) eqn:Hb.
  - exists (Some (until_amp (drop (p + length (key ++ "=")) url))). split; [exists p; split_and!; [split; [|done]|done|done]|].
    + bools. destruct Hb as [Hb|Hb]; [left; by apply Nat.eqb_eq|right]. case_match eqn:E; [|done].
      unfold one_of in Hb. bools. apply elem_of_cons in Hb as [->|Hb]; [done|]. apply list_elem_of_singleton in Hb as ->.
      exfalso. apply Hq. by eapply list_elem_of_lookup_2.
    + simpl. unfold until_amp. rewrite find_char_drop. destruct (find_char "&" (drop _ url) 0); [|done].
      cbn [fmap option_fmap option_map]. unfold substr. f_equal. lia.
  - bools. match goal with H : (p =? 0) = false |- _ => apply Nat.eqb_neq in H end.
    assert (Hnb : forall c, url !! (p - 1) = Some c -> c <> "&"%char).
    { intros c Hc ->. rewrite Hc in *. done. }
    apply IH; [lia|..].
    + intros q Hpq. destruct (decide (q = p)) as [->|]; [|apply Hmax; lia]. intros [[->|Hc] _]; [done|]. by eapply Hnb.
    + intros Hp0 [_ Hz]. replace p with 1 in Hm by lia. rewrite drop_0 in Hz. by eapply no_overlap.
Qed.

Lemma starts_with_until (a r : str) :
  "&"%char ∉ a -> starts_with (key ++ "=") (a ++ "&"%char :: r) = starts_with (key ++ "=") a.
Proof.
  intros Ha. apply eq_true_iff_eq. rewrite !starts_with_spec. split; intros [t Ht]; [|exists (t ++ "&"%char :: r); by rewrite Ht, <- app_assoc].
  assert (Hle : length (key ++ "="%str) <= length a).
  { destruct (decide (length a < length (key ++ "="%str))); [|lia]. exfalso.
    assert ((key ++ "="%str) !! length a = Some "&"%char) as Hc.
    { rewrite <- (lookup_app_l (key ++ "="%str) t) by done. rewrite <- Ht, lookup_app_r, Nat.sub_diag by lia. done. }
    apply list_elem_of_lookup_2, elem_of_app in Hc as [?|?%list_elem_of_singleton]; done. }
  exists (drop (length (key ++ "="%str)) a). rewrite <- (take_drop (length (key ++ "="%str)) a) at 1. f_equal.
  apply (f_equal (take (length (key ++ "="%str)))) in Ht. by rewrite take_app_length, take_app_le in Ht.
Qed.

Lemma until_amp_cons a r : "&"%char ∉ a -> until_amp (a ++ "&"%char :: r) = a.
Proof. intros Ha. unfold until_amp. by rewrite find_char_app, take_app_length. Qed.

Lemma until_amp_none a : "&"%char ∉ a -> until_amp a = a.
Proof. intros Ha. unfold until_amp. by rewrite (proj2 (find_char_None _ _) Ha). Qed.

Lemma until_amp_field a r :
  "&"%char ∉ a -> starts_with (key ++ "=") a = true ->
  until_amp (drop (length (key ++ "=")) (a ++ "&"%char :: r)) = drop (length (key ++ "=")) a.
Proof.
  intros Ha Hs. pose proof (starts_with_length _ _ Hs). rewrite drop_app_le by done. apply until_amp_cons.
  intros Hin. apply Ha. by eapply subseteq_drop.
Qed.

Lemma field_starts_later a r p :
  "&"%char ∉ a -> field_starts (a ++ "&"%char :: r) p <->
  p = 0 /\ starts_with (key ++ "=") a = true \/ exists q, p = S (length a + q) /\ field_starts r q.
Proof.
  intros Ha. unfold field_starts. split.
  - intros [Hb Hs]. destruct Hb as [->|Hb]; [left; split; [done|]; by rewrite drop_0, starts_with_until in Hs|].
    destruct p as [|p]; [left; split; [done|]; by rewrite drop_0, starts_with_until in Hs|]. right.
    simpl in Hb. rewrite Nat.sub_0_r in Hb. destruct (decide (p < length a)).
    { rewrite lookup_app_l in Hb by done. by apply list_elem_of_lookup_2 in Hb. }
    exists (p - length a). split; [lia|]. rewrite drop_app_ge in Hs by lia.
    replace (S p - length a) with (S (p - length a)) in Hs by lia. cbn [drop] in Hs. split; [|done].
    rewrite lookup_app_r in Hb by lia. destruct (p - length a) as [|k] eqn:E; [by left|right]. cbn in Hb. simpl. by rewrite Nat.sub_0_r.
  - intros [[-> Hs]|(q & -> & Hb & Hs)].
    + split; [by left|]. by rewrite drop_0, starts_with_until.
    + split.
      * right. replace (S (length a + q) - 1) with (length a + q) by lia.
        rewrite lookup_app_r by lia. replace (length a + q - length a) with q by lia.
        destruct Hb as [->|Hb]; [done|]. destruct q as [|q]; [done|]. simpl in Hb. rewrite Nat.sub_0_r in Hb. done.
      * rewrite drop_app_ge by lia. by replace (S (length a + q) - length a) with (S q) by lia.
Qed.

Lemma last_omap_cons {A B} (f : A -> option B) x l :
  last (omap f (x :: l)) = match last (omap f l) with Some v => Some v | None => f x end.
Proof. csimpl. destruct (f x); [rewrite last_cons|]; by destruct (last (omap f l)). Qed.

Lemma query_value_last u : last_value u (last (omap (strip_prefix (key ++ "=")) (fields "&" u))).
Proof.
  induction u as [u IH] using (well_founded_induction (well_founded_ltof _ (@length ascii))).
  destruct (split_left (is_char "&") u) as [Hno|(a & c & r & -> & Ha & Hc)].
  - assert (Hu : "&"%char ∉ u) by (intros H%Hno; done). rewrite fields_one by done. cbn [omap list_omap]. unfold strip_prefix.
    destruct (starts_with (key ++ "=") u) eqn:Hs; simpl.
    + exists 0. split_and!; [split; [by left|by rewrite drop_0]| |].
      * intros q Hq [[->|Hb] _]; [lia|]. by apply list_elem_of_lookup_2 in Hb.
      * rewrite until_amp_none; [done|]. intros Hin. apply Hu. by eapply subseteq_drop.
    + intros p [[->|Hb] Hp]; [by rewrite drop_0, Hs in Hp|]. by apply list_elem_of_lookup_2 in Hb.
  - unfold is_char in Hc. apply bool_decide_eq_true in Hc as ->.
    assert (Hu : "&"%char ∉ a) by (intros H%Ha; done). rewrite fields_cons by done. rewrite last_omap_cons.
    specialize (IH r ltac:(unfold ltof; rewrite length_app; simpl; lia)).
    destruct (last _) as [v|]; simpl in IH.
    + destruct IH as (q & Hq & Hmax & ->). exists (S (length a + q)). split_and!.
      * apply field_starts_later; [done|]. right. by exists q.
      * intros p Hp [[-> _]|(q' & -> & Hq')]%field_starts_later; [lia| |done]. eapply Hmax; [|exact Hq']. lia.
      * rewrite drop_app_ge by lia. by replace (S (length a + q) + _ - length a) with (S (q + length (key ++ "="))) by lia.
    + unfold strip_prefix. destruct (starts_with (key ++ "=") a) eqn:Hs; simpl.
      * exists 0. split_and!; [apply field_starts_later; auto| |by rewrite until_amp_field].
        intros p Hp [[-> _]|(q' & -> & Hq')]%field_starts_later; [lia| |done]. by eapply IH.
      * intros p [[_ Hp]|(q' & -> & Hq')]%field_starts_later; [congruence|by eapply IH|done].
Qed.

(** [getUrlArg] yields the value of the last field with the key. *)
Lemma getUrlArg_query url : "?"%char ∉ url -> getUrlArg url key = query_value url key.
Proof.
  intros Hq. unfold getUrlArg, query_value.
  destruct (getUrlArg_loop_spec url (S (length url)) (length url)) as (o & Ho & ->); [done|lia|..].
  - intros p Hp [_ Hs]. apply starts_with_drop_length in Hs; [|by destruct key]. lia.
  - intros Hz [_ Hs]. apply starts_with_drop_length in Hs; [|by destruct key]. rewrite length_app in Hs. simpl in Hs. lia.
  - f_equal. eapply last_value_unique; [exact Ho|apply query_value_last].
Qed.
End UrlArg.
