(* ===== verification/SharePrinted.v ===== *)
(** * Share links: what the printers write is read back

    Round trips of the parts of a link: strict base64, percent encoding,
    queries, ports, authorities, and the links of [parseShareUri] and
    [parseModernShareUri] as a whole. *)

From S2P Require Import Prelude Str StringUtil Codec Regexp NodeSelect Node ShareUri.
Open Scope nat_scope.

(** [urlSafeBase64Encode] never diverges. *)
Definition base64url (s : str) : str := default [] (urlSafeBase64Encode s).

Definition small (s : str) : Prop := (Z.of_nat (length s) < 2 ^ 32)%Z.

Lemma urlsafe_byte_facts c : urlsafe_byte c = true ->
  unreserved c = true /\ base64_char c = true /\ is_char "=" c = false /\ is_char "+" c = false /\ is_char "/" c = false.
Proof.
  set (f := fun c => negb (urlsafe_byte c) || (unreserved c && base64_char c && negb (is_char "=" c) &&
    negb (is_char "+" c) && negb (is_char "/" c))).
  assert (f c = true) as Hf by (revert c; apply all_bytes_spec; by vm_compute). unfold f in Hf. intros Hc. rewrite Hc in Hf. cbn [negb orb] in Hf. bools. tauto.
Qed.

Lemma strict_scan_digits i s : Forall (fun c => urlsafe_byte c = true) s -> strict_scan i None s = Some None.
Proof.
  intros Hs. revert i. induction Hs as [|c s Hc Hs IH]; intros i; [done|]. cbn [strict_scan].
  destruct (urlsafe_byte_facts c Hc) as (_ & Hb & He & _ & _). by rewrite He, Hb, IH.
Qed.

Lemma strict_base64 s : s <> [] -> small s ->
  decodeStrictBase64 (base64url s) = Some s /\ Forall (fun c => urlsafe_byte c = true) (base64url s) /\ base64url s <> [].
Proof.
  intros Hne Hs. unfold base64url. destruct (urlSafe_text s Hs) as (e & He & Hd & Hb & Hl & Hn). rewrite He. simpl.
  specialize (Hn Hne). split; [|done]. unfold decodeStrictBase64. rewrite bool_decide_false by done.
  rewrite strict_scan_digits by done. cbn [default]. rewrite Nat.sub_diag. cbn [Nat.ltb Nat.leb].
  destruct (Nat.eqb_spec (length e mod 4) 1); [done|]. rewrite Hd. unfold substr. rewrite drop_0, take_ge by lia.
  assert (Hsame : forall c d, (forall x, urlsafe_byte x = true -> is_char c x = false) ->
    (fun x => if is_char c x then d else x) <$> e = e).
  { intros c d Hc. clear -Hb Hc. induction Hb as [|x e Hx Hb IH]; csimpl; [done|]. by rewrite Hc, IH. }
  rewrite replace_byte_fmap. cbn [default]. rewrite Hsame by (intros x Hx; by apply urlsafe_byte_facts).
  rewrite replace_byte_fmap. cbn [default]. rewrite Hsame by (intros x Hx; by apply urlsafe_byte_facts).
  rewrite He. by rewrite bool_decide_true.
Qed.

Lemma urlEncode_unreserved s : Forall (fun c => unreserved c = true) s -> urlEncode s = s.
Proof. induction 1 as [|c s Hc Hs IH]; [done|]. cbn [urlEncode]. by rewrite Hc, IH. Qed.

(** *** Percent-encoded texts *)

Definition clean (s : str) : Prop := has_crlf s = false.

Lemma clean_cons c s : clean (c :: s) <-> is_crlf c = false /\ clean s.
Proof. unfold clean. simpl. rewrite orb_false_iff. done. Qed.

Lemma urlDecode_urlEncode s : clean s -> urlDecode (urlEncode s) = s.
Proof.
  intros Hs. induction s as [|c s IH]; [done|]. apply clean_cons in Hs as [Hc Hs]. cbn [urlEncode].
  destruct (unreserved c) eqn:Hu.
  - destruct (unreserved_plain c Hu) as (H1 & H2 & H3). cbn [urlDecode]. rewrite !bool_decide_eq_false_2 by done.
    unfold push_unless_crlf. by rewrite H3, IH.
  - pose proof (hex_pair c) as Hx. unfold hex_pair_ok in Hx. bools. cbn [urlDecode].
    rewrite bool_decide_false, bool_decide_true by done.
    repeat match goal with H : isalnum _ = true |- _ => rewrite H; clear H end. cbn [andb].
    match goal with H : chr _ = c |- _ => rewrite H end. unfold push_unless_crlf. by rewrite Hc, IH.
Qed.

Definition hex_value_ok (c : ascii) : bool :=
  match shareUriHexValue (toHex (Z.shiftr (code c) 4)), shareUriHexValue (toHex (code c mod 16)) with
  | Some h, Some l => bool_decide (chr (Z.lor (Z.shiftl h 4) l) = c)
  | _, _ => false
  end.

Lemma hex_value c : hex_value_ok c = true.
Proof. apply all_bytes_spec. by vm_compute. Qed.

Lemma userinfo_urlEncode s : clean s -> decodeShareUriUserInfo (urlEncode s) = s.
Proof.
  intros Hs. induction s as [|c s IH]; [done|]. apply clean_cons in Hs as [Hc Hs]. cbn [urlEncode].
  destruct (unreserved c) eqn:Hu.
  - destruct (unreserved_plain c Hu) as (H1 & H2 & H3). cbn [decodeShareUriUserInfo]. unfold is_char.
    rewrite bool_decide_eq_false_2 by done. unfold push_unless_crlf. by rewrite H3, IH.
  - pose proof (hex_value c) as Hx. unfold hex_value_ok in Hx. cbn [decodeShareUriUserInfo]. unfold is_char.
    rewrite bool_decide_true by done. destruct (shareUriHexValue (toHex (Z.shiftr _ _))); [|done].
    destruct (shareUriHexValue (toHex (code c mod 16))); [|done]. apply bool_decide_eq_true in Hx. rewrite Hx.
    unfold push_unless_crlf. by rewrite Hc, IH.
Qed.

Lemma urlEncode_nonempty s : s <> [] -> urlEncode s <> [].
Proof. destruct s as [|c s]; [done|]. intros _. cbn [urlEncode]. by destruct (unreserved c). Qed.

(** Bytes that a percent-encoded text does not have. *)
Lemma urlEncode_free s c : (unreserved c || bool_decide (c = "%"%char)) = false -> c ∉ urlEncode s.
Proof. intros Hc Hin. pose proof (urlEncode_delimited s c Hin) as H. cbv beta in H. congruence. Qed.

(** *** Queries *)

Fixpoint str_eqb (a b : str) : bool :=
  match a, b with
  | [], [] => true
  | c :: a, d :: b => Ascii.eqb c d && str_eqb a b
  | _, _ => false
  end.

Lemma str_eqb_spec a b : str_eqb a b = true <-> a = b.
Proof.
  revert b. induction a as [|c a IH]; intros [|d b]; simpl; [done..|]. rewrite andb_true_iff, Ascii.eqb_eq, IH. naive_solver.
Qed.

(** The value written for a key. *)
Fixpoint assoc (l : list (str * str)) (key : str) : str :=
  match l with [] => [] | (k, v) :: l => if str_eqb k key then v else assoc l key end.

Definition key_ok (k : str) : bool := negb (str_eqb k []) && forallb urlsafe_byte k.

Fixpoint keys_ok (l : list (str * str)) : bool :=
  match l with [] => true | (k, _) :: l => key_ok k && negb (existsb (fun kv => str_eqb kv.1 k) l) && keys_ok l end.

Definition raw_item (kv : str * str) : str := kv.1 ++ "=" ++ kv.2.

Lemma key_ok_facts k : key_ok k = true -> k <> [] /\ "="%char ∉ k /\ "&"%char ∉ k /\ "?"%char ∉ k.
Proof.
  unfold key_ok. intros H. bools. split; [by intros ->|]. rewrite forallb_forall in *.
  split_and!; intros Hin; match goal with H : forall _, _ |- _ => apply list_elem_of_In, H in Hin end; done.
Qed.

Lemma raw_item_strip kv key : key_ok kv.1 = true -> key_ok key = true ->
  strip_prefix (key ++ "=") (raw_item kv) = if str_eqb kv.1 key then Some kv.2 else None.
Proof.
  intros (_ & Hk & _)%key_ok_facts (_ & Hkey & _)%key_ok_facts. unfold strip_prefix, raw_item.
  destruct (str_eqb kv.1 key) eqn:E.
  - apply str_eqb_spec in E as ->. rewrite app_assoc, starts_with_app. by rewrite drop_app_length.
  - destruct (starts_with _ _) eqn:Hs; [|done]. exfalso. apply starts_with_spec in Hs as [t Ht]. rewrite <- app_assoc in Ht.
    apply split_first in Ht as [Ht _]; [|done..]. assert (str_eqb kv.1 key = true) by (by apply str_eqb_spec). congruence.
Qed.

Lemma query_value_items l key :
  Forall (fun kv => key_ok kv.1 = true /\ "&"%char ∉ kv.2) l -> key_ok key = true ->
  query_value (join (raw_item <$> l) "&") key =
  default [] (last (omap (fun kv => if str_eqb kv.1 key then Some kv.2 else None) l)).
Proof.
  intros Hl Hkey. unfold query_value. destruct l as [|kv l].
  { simpl. destruct (strip_prefix (key ++ "=") []) eqn:E; [|done]. unfold strip_prefix in E. by destruct key. }
  rewrite fields_join; [|done|].
  - f_equal. f_equal. induction Hl as [|x l' [Hx _] Hl' IH]; [done|]. csimpl. by rewrite raw_item_strip, IH.
  - apply Forall_fmap. eapply Forall_impl; [exact Hl|]. intros x [(_ & _ & Hk & _)%key_ok_facts Hv]. unfold raw_item, compose.
    rewrite !elem_of_app. intros [?|[?%list_elem_of_singleton|?]]; done.
Qed.

Definition enc_items (l : list (str * str)) : list (str * str) :=
  (fun kv => (kv.1, urlEncode kv.2)) <$> filter (fun kv => kv.2 <> []) l.

Lemma append_all_items l : append_all l = raw_item <$> enc_items l.
Proof.
  unfold append_all. enough (H : forall q, foldl (fun q kv => appendShareQuery q kv.1 kv.2) q l = q ++ (raw_item <$> enc_items l)) by apply H.
  induction l as [|[k v] l IH]; intros q; [by rewrite app_nil_r|]. simpl. rewrite IH. unfold enc_items. rewrite filter_cons.
  unfold appendShareQuery. destruct v as [|c v]; [done|]. rewrite decide_True by done. csimpl. by rewrite <- app_assoc.
Qed.

Lemma enc_items_ok l : keys_ok l = true -> Forall (fun kv => key_ok kv.1 = true /\ "&"%char ∉ kv.2) (enc_items l).
Proof.
  induction l as [|[k v] l IH]; [constructor|]. simpl. intros H. bools. unfold enc_items. rewrite filter_cons. case_decide; [|by apply IH].
  constructor; [|by apply IH]. split; [done|]. by apply urlEncode_free.
Qed.

Lemma enc_items_assoc l key : keys_ok l = true ->
  default [] (last (omap (fun kv => if str_eqb kv.1 key then Some kv.2 else None) (enc_items l))) = urlEncode (assoc l key).
Proof.
  induction l as [|[k v] l IH]; [done|]. simpl. intros H. bools. unfold enc_items in *. rewrite filter_cons.
  destruct (str_eqb k key) eqn:E.
  - pose proof E as Hrefl. apply str_eqb_spec in E as ->. assert (Hn : omap (fun kv : str * str => if str_eqb kv.1 key then Some kv.2 else None)
      ((fun kv => (kv.1, urlEncode kv.2)) <$> filter (fun kv : str * str => kv.2 <> []) l) = []).
    { clear IH. induction l as [|[k' v'] l IH]; [done|]. simpl in *. bools. rewrite filter_cons. case_decide; csimpl; [|by apply IH].
      match goal with H : str_eqb k' key = false |- _ => rewrite H end. by apply IH. }
    case_decide as Hv; [csimpl; rewrite Hn|rewrite Hn].
    + by rewrite Hrefl.
    + by destruct v.
  - case_decide; [csimpl; rewrite E|]; by apply IH.
Qed.

Section SharedQuery.
Context (l : list (str * str)).
Hypothesis keys : keys_ok l = true.

Lemma shared_query_free c : (unreserved c || one_of "%=&" c) = false -> c ∉ join (append_all l) "&".
Proof.
  intros Hc. bools. unfold one_of in *. bools.
  rewrite append_all_items. intros [(f & Hf & Hin)|Hin%list_elem_of_singleton]%elem_of_join; [|set_solver].
  apply list_elem_of_fmap in Hf as (kv & -> & Hkv). unfold raw_item in Hin.
  assert (Hok : key_ok kv.1 = true) by (pose proof (enc_items_ok l keys) as H'; rewrite Forall_forall in H'; by apply H').
  unfold enc_items in Hkv. apply list_elem_of_fmap in Hkv as (kv' & -> & _). rewrite !elem_of_app in Hin.
  destruct Hin as [Hin|[?%list_elem_of_singleton|Hin]]; [|set_solver|].
  - unfold key_ok in Hok. bools. rewrite forallb_forall in *. apply list_elem_of_In in Hin.
    match goal with H : forall _, _ |- _ => apply H, urlsafe_byte_facts in Hin as [Hin _] end. congruence.
  - apply urlEncode_free in Hin; [done|]. apply orb_false_iff. split; [done|]. apply bool_decide_eq_false. set_solver.
Qed.

Context (key : str).
Hypothesis key_good : key_ok key = true.

(** An option of a printed query, as it stands there and decoded. *)
Lemma shared_query_raw : getUrlArg (join (append_all l) "&") key = urlEncode (assoc l key).
Proof.
  destruct (key_ok_facts key key_good) as (H1 & H2 & H3 & H4).
  rewrite getUrlArg_query by (done || by apply shared_query_free).
  by rewrite append_all_items, query_value_items, enc_items_assoc by auto using enc_items_ok.
Qed.

Lemma shared_query_arg : clean (assoc l key) -> decodedUrlArg (join (append_all l) "&") key = assoc l key.
Proof. intros Hc. unfold decodedUrlArg. by rewrite shared_query_raw, urlDecode_urlEncode. Qed.
End SharedQuery.

(** *** Ports *)

Lemma to_digits_bound fuel n k : (0 <= n < 10 ^ Z.of_nat k)%Z -> 0 < k -> length (to_digits fuel n) <= k.
Proof.
  revert n k. induction fuel as [|fuel IH]; intros n k Hn Hk; cbn [to_digits]; [simpl; lia|]. rewrite length_app. simpl.
  destruct (Z.ltb_spec n 10); [simpl; lia|]. destruct k as [|[|k]]; [lia|simpl in Hn; lia|].
  specialize (IH (n / 10)%Z (S k)). rewrite (Nat2Z.inj_succ (S k)), Z.pow_succ_r in Hn by lia.
  enough (length (to_digits fuel (n / 10)) <= S k) by lia. apply IH; [|lia]. divlia.
Qed.

Lemma to_int_digits s d : Forall (fun c => isdigit c = true) s -> s <> [] -> (0 <= digits_value 0 s < 2 ^ 31)%Z ->
  to_int s d = digits_value 0 s.
Proof.
  intros Hs Hne Hv. destruct Hs as [|c s Hc Hs]; [done|]. unfold to_int, atoi.
  assert (Hf : isspace c = false /\ c ≠ "-"%char /\ c ≠ "+"%char).
  { set (f := fun c => negb (isdigit c) || (negb (isspace c) && negb (bool_decide (c = "-"%char)) && negb (bool_decide (c = "+"%char)))).
    assert (f c = true) as Hf by (revert c Hc Hv Hne; intros c _ _ _; revert c; apply all_bytes_spec; by vm_compute).
    unfold f in Hf. rewrite Hc in Hf. cbn [negb orb] in Hf. bools. tauto. }
  destruct Hf as (Hsp & Hm & Hp). cbn [skip_spaces]. rewrite Hsp, !bool_decide_false by done.
  unfold int32. rewrite Z.min_r by lia. rewrite Z.mod_small; lia.
Qed.

Definition port_ok (p : Z) : Prop := (1 <= p <= 65535)%Z.

Lemma port_text p : port_ok p ->
  all_digits (to_string p) = true /\ to_string p <> [] /\ to_int (to_string p) 0 = p /\ validSharePort (to_string p) = true.
Proof.
  intros Hp. unfold port_ok in Hp. destruct (to_string_ok p) as (Hd & Hne & Hv); [unfold is_u64; lia|].
  assert (Hall : all_digits (to_string p) = true) by (apply forallb_forall; intros c Hc; rewrite Forall_forall in Hd; by apply Hd, list_elem_of_In).
  assert (Hi : to_int (to_string p) 0 = p) by (rewrite to_int_digits; [done|done|done|rewrite Hv; lia]).
  split_and!; [done..|]. unfold validSharePort. rewrite bool_decide_false, Hall, Hi by done.
  assert (length (to_string p) <= 5) by (apply to_digits_bound; [change (10 ^ Z.of_nat 5)%Z with 100000%Z; lia|lia]).
  destruct (Nat.ltb_spec 5 (length (to_string p))); [lia|]. cbn [orb negb]. apply andb_true_iff. split; apply Z.leb_le; lia.
Qed.

Lemma digits_free s c : all_digits s = true -> isdigit c = false -> c ∉ s.
Proof. unfold all_digits. rewrite forallb_forall. intros H Hc Hin. apply list_elem_of_In, H in Hin. congruence. Qed.

(** *** Authorities *)

Definition host_byte (c : ascii) : bool := negb (one_of "#?@/[] " c) && negb (is_char "000" c) && negb (is_crlf c).
Definition host_ok (h : str) : bool := negb (str_eqb h []) && forallb host_byte h.

Lemma host_ok_facts h : host_ok h = true ->
  h <> [] /\ clean h /\ "#"%char ∉ h /\ "?"%char ∉ h /\ "@"%char ∉ h /\ "/"%char ∉ h /\ "["%char ∉ h /\ "]"%char ∉ h.
Proof.
  unfold host_ok. intros H. bools. split; [by intros ->|]. rewrite forallb_forall in *.
  split.
  - unfold clean, has_crlf. apply not_true_is_false. rewrite existsb_exists. intros (c & Hc & Hcr).
    match goal with H : forall _, _ |- _ => apply H in Hc end. unfold host_byte in Hc. bools. congruence.
  - split_and!; intros Hin; match goal with H : forall _, _ |- _ => apply list_elem_of_In, H in Hin end; done.
Qed.

Lemma shareLinkHost_cases h :
  shareLinkHost h = ("[" ++ h ++ "]")%str \/ ":"%char ∉ h /\ shareLinkHost h = h.
Proof.
  unfold shareLinkHost. case_bool_decide as Hc; [by left|right]. split; [|done].
  apply find_char_None. by apply eq_None_not_Some.
Qed.

Section Authority.
Context (h q : str).
Hypothesis h_ok : host_ok h = true.
Hypothesis q_ne : q <> [].
Hypothesis q_colon : ":"%char ∉ q.

Lemma authority_bracket : let a := ("[" ++ h ++ "]") ++ ":" ++ q in
  head a = Some "["%char /\ find_char "]" a 0 = Some (length h + 1) /\ length a = length h + 3 + length q /\
  a !! (length h + 1 + 1) = Some ":"%char /\ substr a 1 (length h + 1 - 1) = h /\ drop (length h + 1 + 2) a = q.
Proof.
  destruct (host_ok_facts h h_ok) as (_ & _ & _ & _ & _ & _ & Hl & Hr). cbv zeta. split; [done|].
  replace (("[" ++ h ++ "]") ++ ":" ++ q)%str with (("["%char :: h) ++ "]"%char :: ":"%char :: q)
    by (simpl; by rewrite <- app_assoc).
  split_and!.
  - rewrite find_char_app; [simpl; f_equal; lia|]. apply not_elem_of_cons. done.
  - rewrite length_app. simpl. lia.
  - rewrite lookup_app_r by (simpl; lia). simpl. by replace (length h + 1 + 1 - S (length h)) with 1 by lia.
  - unfold substr. rewrite Nat.add_sub. cbn [app drop]. by rewrite drop_0, take_app_length.
  - rewrite drop_app_ge by (simpl; lia). simpl. by replace (length h + 1 + 2 - S (length h)) with 2 by lia.
Qed.

Lemma authority_plain : ":"%char ∉ h -> let a := h ++ ":" ++ q in
  head a <> Some "["%char /\ last_index_if (is_char ":") a = Some (length h) /\ find_char ":" a 0 = Some (length h) /\
  length a = length h + 1 + length q /\ take (length h) a = h /\ drop (length h + 1) a = q /\ 0 < length h.
Proof.
  intros Hc. destruct (host_ok_facts h h_ok) as (Hne & _ & _ & _ & _ & _ & Hl & Hr). cbv zeta. cbn [app].
  change (":" ++ q) with (":"%char :: q). split_and!.
  - destruct h; [done|]. simpl. intros [= ->]. apply Hl. left.
  - apply last_index_if_app; [|done]. intros d Hd. apply bool_decide_eq_false. by intros ->.
  - by apply find_char_app.
  - rewrite length_app. simpl. lia.
  - by apply take_app_length.
  - rewrite drop_app_ge by lia. by replace (length h + 1 - length h) with 1 by lia.
  - destruct h; [done|simpl; lia].
Qed.

Lemma q_length : 0 < length q.
Proof. destruct q; [done|simpl; lia]. Qed.

Lemma share_authority_print : share_authority (shareLinkHost h ++ ":" ++ q) = Some (h, q).
Proof.
  pose proof q_length. unfold share_authority. destruct (shareLinkHost_cases h) as [->|[Hcol ->]].
  - destruct authority_bracket as (H1 & H2 & H3 & H4 & H5 & H6). rewrite bool_decide_true, H2 by done.
    rewrite H3, H4, H5, H6. destruct (Nat.leb_spec (length h + 3 + length q) (length h + 1 + 1)); [lia|]. by rewrite bool_decide_true.
  - destruct (authority_plain Hcol) as (H1 & H2 & H3 & H4 & H5 & H6 & H7).
    rewrite bool_decide_false, H2 by done. rewrite H4, H5, H6. destruct (Nat.eqb_spec (length h) 0); [lia|].
    by destruct (Nat.leb_spec (length h + 1 + length q) (length h + 1)); [lia|].
Qed.

Lemma modern_authority_print : modern_authority (shareLinkHost h ++ ":" ++ q) = Some (h, q).
Proof.
  pose proof q_length. unfold modern_authority. destruct (shareLinkHost_cases h) as [->|[Hcol ->]].
  - destruct authority_bracket as (H1 & H2 & H3 & H4 & H5 & H6). rewrite bool_decide_true, H2 by done.
    rewrite H3, H4, H5, H6. destruct (Nat.ltb_spec (length h + 1 + 1) (length h + 3 + length q)); [|lia].
    rewrite bool_decide_true by done. by destruct (Nat.leb_spec (length h + 3 + length q) (length h + 1 + 2)); [lia|].
  - destruct (authority_plain Hcol) as (H1 & H2 & H3 & H4 & H5 & H6 & H7).
    rewrite bool_decide_false, H2 by done. rewrite H3, H4, H5, H6, bool_decide_true by done. destruct (Nat.eqb_spec (length h) 0); [lia|].
    by destruct (Nat.leb_spec (length h + 1 + length q) (length h + 1)); [lia|].
Qed.

Lemma parseShareAuthority_print : validSharePort q = true -> parseShareAuthority (shareLinkHost h ++ ":" ++ q) = Some (h, q).
Proof.
  intros Hport. pose proof q_length. destruct (host_ok_facts h h_ok) as (Hne & Hcl & _). unfold parseShareAuthority. destruct (shareLinkHost_cases h) as [->|[Hcol ->]].
  - destruct authority_bracket as (H1 & H2 & H3 & H4 & H5 & H6). remember (("[" ++ h ++ "]") ++ ":" ++ q)%str as a eqn:Ea.
    destruct a as [|front a]; [done|]. simpl in H1. injection H1 as ->. change (is_char "[" "[") with true. cbv iota.
    rewrite H2, H3, H4, H5, H6. destruct (Nat.leb_spec (length h + 3 + length q) (length h + 1 + 2)); [lia|].
    rewrite bool_decide_true by done. cbn [orb negb]. rewrite Hport, Hcl, bool_decide_false by done. done.
  - destruct (authority_plain Hcol) as (H1 & H2 & H3 & H4 & H5 & H6 & H7).
    remember (h ++ ":" ++ q)%str as a eqn:Ea. destruct a as [|front a]; [by destruct h|].
    assert (is_char "[" front = false) as -> by (apply bool_decide_eq_false; simpl in H1; congruence).
    rewrite H2, H3, H4, H5, H6. rewrite (bool_decide_true (Some _ = Some _)) by done. destruct (Nat.eqb_spec (length h) 0); [lia|].
    destruct (Nat.leb_spec (length h + 1 + length q) (length h + 1)); [lia|]. cbn [orb negb].
    rewrite Hport, Hcl, bool_decide_false by done. done.
Qed.
End Authority.

(** *** Links *)

Lemma cut_query_print b (items : list str) :
  "?"%char ∉ b -> cut_query (b ++ joinShareQuery items) = (b, join items "&").
Proof.
  intros Hb. unfold cut_query, joinShareQuery. destruct items as [|i items].
  - rewrite app_nil_r. by rewrite (proj2 (find_char_None _ _) Hb).
  - change ("?" ++ join (i :: items) "&")%str with ("?"%char :: join (i :: items) "&"). rewrite find_char_app by done.
    rewrite take_app_length, drop_app_ge by lia. by replace (length b + 1 - length b) with 1 by lia.
Qed.

Lemma drop_slash_app a b : b <> [] -> "/"%char ∉ b -> drop_slash (a ++ b) = a ++ b.
Proof.
  destruct b as [|c b _] using rev_ind; [done|]. intros _ Hb. rewrite app_assoc. unfold drop_slash. rewrite last_snoc.
  unfold is_char. rewrite bool_decide_false; [done|]. intros ->. apply Hb. rewrite elem_of_app. right. by left.
Qed.

Lemma drop_slash_snoc b : drop_slash (b ++ "/") = b.
Proof. unfold drop_slash. rewrite last_snoc. unfold is_char. rewrite bool_decide_true by done. apply removelast_snoc. Qed.

Lemma split_at a b : "@"%char ∉ b ->
  last_index_if (is_char "@") (a ++ "@"%char :: b) = Some (length a) /\ take (length a) (a ++ "@"%char :: b) = a /\
  drop (length a + 1) (a ++ "@"%char :: b) = b /\ length (a ++ "@"%char :: b) = length a + 1 + length b.
Proof.
  intros Hb. split_and!.
  - apply last_index_if_app; [|done]. intros d Hd. apply bool_decide_eq_false. by intros ->.
  - apply take_app_length.
  - rewrite drop_app_ge by lia. by replace (length a + 1 - length a) with 1 by lia.
  - rewrite length_app. simpl. lia.
Qed.

Lemma shareLinkHost_free h c : host_ok h = true -> c ∉ h -> one_of "[]" c = false -> c ∉ shareLinkHost h.
Proof.
  intros _ Hc Hb. unfold one_of in Hb. apply bool_decide_eq_false in Hb.
  destruct (shareLinkHost_cases h) as [->|[_ ->]]; [|done]. rewrite !elem_of_app. set_solver.
Qed.

Lemma hostport_free h q c : host_ok h = true -> c ∉ h -> c ∉ q -> one_of "[]:" c = false -> c ∉ shareLinkHost h ++ ":" ++ q.
Proof.
  intros Hh Hc Hq Hb. unfold one_of in Hb. apply bool_decide_eq_false in Hb. rewrite !elem_of_app.
  intros [Hin|[Hin|Hin]]; [|set_solver|done]. apply shareLinkHost_free in Hin; [done..|]. apply bool_decide_eq_false. set_solver.
Qed.

Lemma extractRemark_print a b : "#"%char ∉ a -> "#"%char ∉ b -> extractRemark (a ++ "#"%char :: b) [] = (a, urlDecode b).
Proof.
  intros Ha Hb. unfold extractRemark. rewrite last_index_if_app; [|intros d Hd; apply bool_decide_eq_false; by intros ->|done].
  rewrite take_app_length, drop_app_ge by lia. replace (length a + 1 - length a) with 1 by lia. cbn [drop].
  by rewrite drop_0, (proj2 (find_char_None _ _) Ha).
Qed.

Section Links.
Context (scheme userenc name h q remark_ : str) (l : list (str * str)).
Hypothesis h_ok : host_ok h = true.
Hypothesis q_port : validSharePort q = true.
Hypothesis user_free : "#"%char ∉ userenc /\ "?"%char ∉ userenc.
Hypothesis user_name : decodeShareUriUserInfo userenc = name /\ name <> [].
Hypothesis l_ok : keys_ok l = true.
Hypothesis remark_clean : clean remark_.

Lemma valid_port_facts : q <> [] /\ all_digits q = true.
Proof. unfold validSharePort in q_port. destruct (_ || _) eqn:E in q_port; [done|]. by bools. Qed.

Lemma user_ne : 0 < length userenc.
Proof. destruct user_name as [H Hne]. destruct userenc; [by subst|simpl; lia]. Qed.

Lemma hostport_clean c : one_of "#?@/" c = true -> c ∉ shareLinkHost h ++ ":" ++ q.
Proof.
  intros Hc. destruct valid_port_facts as [_ Hd]. destruct (host_ok_facts h h_ok) as (_ & _ & H1 & H2 & H3 & H4 & _).
  unfold one_of in Hc. apply bool_decide_eq_true in Hc. assert (Hq : c ∉ q) by (apply (digits_free _ _ Hd); set_solver).
  apply hostport_free; [done|set_solver|done|]. apply bool_decide_eq_false. set_solver.
Qed.

Lemma hash_free_query : "#"%char ∉ joinShareQuery (append_all l).
Proof.
  unfold joinShareQuery. destruct (append_all l) as [|i items] eqn:E; [apply not_elem_of_nil|]. rewrite <- E.
  apply not_elem_of_cons. split; [done|]. by apply shared_query_free.
Qed.

(** A link with user information is taken apart again. *)
Lemma parseShareUri_print :
  parseShareUri (scheme ++ "://" ++ userenc ++ "@" ++ (shareLinkHost h ++ ":" ++ q) ++ joinShareQuery (append_all l) ++
                 "#" ++ urlEncode remark_) scheme =
  Some (mkParsed name h q (join (append_all l) "&") remark_).
Proof.
  destruct valid_port_facts as [Hq Hd], user_free as [Hu1 Hu2], user_name as [Hn Hnne]. pose proof user_ne as Hlen.
  destruct (host_ok_facts h h_ok) as (Hne & _ & Hh1 & Hh2 & _).
  unfold parseShareUri, startsWith. rewrite app_assoc, starts_with_app, drop_app_length. cbn [negb].
  set (hp := shareLinkHost h ++ ":" ++ q).
  assert (Hhp : "#"%char ∉ hp /\ "?"%char ∉ hp /\ "@"%char ∉ hp /\ "/"%char ∉ hp) by (split_and!; by apply hostport_clean).
  destruct Hhp as (Hp1 & Hp2 & Hp3 & Hp4).
  replace (userenc ++ "@" ++ hp ++ joinShareQuery (append_all l) ++ "#" ++ urlEncode remark_)%str
    with (((userenc ++ "@"%char :: hp) ++ joinShareQuery (append_all l)) ++ "#"%char :: urlEncode remark_)
    by (rewrite <- !app_assoc; done).
  rewrite extractRemark_print, urlDecode_urlEncode; [|done| |by apply urlEncode_free].
  2:{ rewrite !elem_of_app, elem_of_cons. intros [[?|[?|?]]|?%hash_free_query]; done. }
  rewrite cut_query_print by (rewrite elem_of_app, elem_of_cons; intros [?|[?|?]]; done).
  rewrite (drop_slash_app userenc ("@"%char :: hp)) by (done || by apply not_elem_of_cons).
  destruct (split_at userenc hp Hp3) as (-> & -> & -> & ->). destruct (Nat.eqb_spec (length userenc) 0); [lia|].
  destruct (Nat.leb_spec (length userenc + 1 + length hp) (length userenc + 1)) as [Hl|_].
  { assert (Hz : length hp = 0) by lia. apply nil_length_inv in Hz. unfold hp in Hz. by apply app_eq_nil in Hz as [_ Hz]. }
  cbn [orb]. unfold hp. rewrite share_authority_print by (done || apply (digits_free _ _ Hd); done).
  by rewrite Hn, !bool_decide_false, q_port.
Qed.
End Links.

Section ModernLinks.
Context (scheme userpart name h q remark_ : str) (slash : bool) (l : list (str * str)).
Hypothesis h_ok : host_ok h = true.
Hypothesis q_ne : q <> [].
Hypothesis q_free : forall c, one_of "#?@/:" c = true -> c ∉ q.
Hypothesis user_part : userpart = [] /\ name = [] \/
  exists enc, userpart = enc ++ "@" /\ decodeShareUriUserInfo enc = name /\ name <> [] /\
    "#"%char ∉ enc /\ "?"%char ∉ enc /\ "/"%char ∉ enc.
Hypothesis l_ok : keys_ok l = true.
Hypothesis remark_clean : clean remark_.

Lemma modern_hostport_clean c : one_of "#?@/" c = true -> c ∉ shareLinkHost h ++ ":" ++ q.
Proof.
  intros Hc. destruct (host_ok_facts h h_ok) as (_ & _ & H1 & H2 & H3 & H4 & _).
  unfold one_of in Hc. apply bool_decide_eq_true in Hc. apply hostport_free; [done|set_solver|..].
  - apply q_free. unfold one_of. apply bool_decide_eq_true. set_solver.
  - apply bool_decide_eq_false. set_solver.
Qed.

Lemma modern_user_free c : one_of "#?/" c = true -> c ∉ userpart.
Proof.
  intros Hc. destruct user_part as [[-> _]|(enc & -> & _ & _ & H1 & H2 & H3)]; [apply not_elem_of_nil|].
  unfold one_of in Hc. apply bool_decide_eq_true in Hc. rewrite elem_of_app. set_solver.
Qed.

(** User information and authority of a printed link. *)
Lemma modern_user_authority require_user : let uri := userpart ++ shareLinkHost h ++ ":" ++ q in
  (require_user = true -> name <> []) ->
  match last_index_if (is_char "@") uri with
  | None => if require_user then None else Some ([], uri)
  | Some at_ =>
      if (at_ =? 0) || (length uri <=? at_ + 1) then None
      else Some (decodeShareUriUserInfo (take at_ uri), drop (at_ + 1) uri)
  end = Some (name, shareLinkHost h ++ ":" ++ q).
Proof.
  cbv zeta. intros Hreq. set (hp := shareLinkHost h ++ ":" ++ q).
  assert (Hp : "@"%char ∉ hp) by (by apply modern_hostport_clean).
  assert (Hlen : 0 < length hp) by (unfold hp; rewrite !length_app; simpl; lia).
  destruct user_part as [[-> Hn]|(enc & -> & Hn & Hne & _)].
  - cbn [app]. rewrite (proj2 (last_index_if_None _ hp)).
    + destruct require_user; [by specialize (Hreq eq_refl)|]. by rewrite Hn.
    + intros d Hd. apply bool_decide_eq_false. by intros ->.
  - rewrite <- app_assoc. change (enc ++ "@" ++ hp) with (enc ++ "@"%char :: hp).
    destruct (split_at enc hp Hp) as (-> & -> & -> & ->).
    destruct (Nat.eqb_spec (length enc) 0) as [Hz|_]; [apply nil_length_inv in Hz as ->; by subst|].
    destruct (Nat.leb_spec (length enc + 1 + length hp) (length enc + 1)); [lia|]. by rewrite Hn.
Qed.

Lemma modern_slash : drop_slash ((userpart ++ shareLinkHost h ++ ":" ++ q) ++ (if slash then "/" else [])) =
  userpart ++ shareLinkHost h ++ ":" ++ q.
Proof.
  destruct slash; [apply drop_slash_snoc|]. rewrite app_nil_r. rewrite !app_assoc. apply drop_slash_app; [done|]. by apply q_free.
Qed.

(** The link is taken apart again, up to what the ports are. *)
Lemma parseModernShareUri_print require_user default_port allow :
  (require_user = true -> name <> []) ->
  parseModernShareUri (scheme ++ "://" ++ ((userpart ++ shareLinkHost h ++ ":" ++ q) ++ (if slash then "/" else [])) ++
                       joinShareQuery (append_all l) ++ "#" ++ urlEncode remark_) scheme require_user default_port allow =
  if allow then
    match modern_ports q with
    | Some (port, additional) => Some (mkParsed name h port (join (append_all l) "&") remark_, additional)
    | None => None
    end
  else if validSharePort q then Some (mkParsed name h q (join (append_all l) "&") remark_, []) else None.
Proof.
  intros Hreq. unfold parseModernShareUri, startsWith. rewrite app_assoc, starts_with_app, drop_app_length. cbn [negb].
  set (body := userpart ++ shareLinkHost h ++ ":" ++ q). set (b := body ++ (if slash then "/" else [])).
  assert (Hb : forall c, one_of "#?/" c = true -> c ∉ body).
  { intros c Hc. unfold body. rewrite elem_of_app. intros [Hin|Hin]; [by apply modern_user_free in Hin|].
    apply modern_hostport_clean in Hin; [done|]. unfold one_of in *. apply bool_decide_eq_true in Hc. apply bool_decide_eq_true. set_solver. }
  assert (Hs : forall c, one_of "#?" c = true -> c ∉ b).
  { intros c Hc. unfold one_of in Hc. apply bool_decide_eq_true in Hc. unfold b. rewrite elem_of_app.
    intros [Hin|Hin]; [apply Hb in Hin; [done|apply bool_decide_eq_true; set_solver]|destruct slash; set_solver]. }
  rewrite app_assoc. change (?x ++ "#" ++ ?y) with (x ++ "#"%char :: y). rewrite find_char_app.
  2:{ rewrite elem_of_app. intros [Hin|Hin]; [by apply Hs in Hin|by apply (hash_free_query l) in Hin]. }
  rewrite take_app_length, drop_app_ge by lia. rewrite Nat.add_comm, Nat.add_sub. cbn [drop]. rewrite drop_0, userinfo_urlEncode by done.
  rewrite cut_query_print by (by apply Hs). assert (drop_slash b = body) as -> by apply modern_slash.
  assert (body <> []) by (unfold body; intros [_ [_ H]%app_eq_nil]%app_eq_nil; done).
  rewrite (bool_decide_false (body = [])) by done.
  rewrite (bool_decide_false (is_Some _)) by (rewrite (proj2 (find_char_None _ _)); [by intros []|by apply Hb]).
  cbn [orb]. unfold body. rewrite modern_user_authority by done.
  rewrite modern_authority_print by (done || by apply q_free).
  destruct (host_ok_facts h h_ok) as (Hne & _). rewrite (bool_decide_false (h = [])) by done.
  replace (orElse q default_port) with q by (by destruct q). destruct allow; cbn [negb]; [done|].
  destruct (validSharePort q); cbn [negb]; [|done]. destruct require_user; cbn [negb orb]; [|done].
  by rewrite bool_decide_false by auto.
Qed.
End ModernLinks.
