(* ===== verification/ShareParse.v ===== *)
(** * parser/subparser.cpp: reading share links

    One function per link format, from the text of the link and a node to the
    node it fills.  A rejected link leaves the node as it was.  The formats
    whose payload is a JSON document are in [VmessLinks]. *)

From S2P Require Import Prelude Str StringUtil Codec Regexp MieruUri NodeSelect Node ShareUri.
Open Scope nat_scope.

(** ** Constants *)

(** src/src/parser/config/proxy.h:220-234 [default groups] *)
Definition SS_DEFAULT_GROUP : str := "SSProvider".
Definition SSR_DEFAULT_GROUP : str := "SSRProvider".
Definition V2RAY_DEFAULT_GROUP : str := "V2RayProvider".
Definition SOCKS_DEFAULT_GROUP : str := "SocksProvider".
Definition HTTP_DEFAULT_GROUP : str := "HTTPProvider".
Definition TROJAN_DEFAULT_GROUP : str := "TrojanProvider".
Definition SNELL_DEFAULT_GROUP : str := "SnellProvider".
Definition WG_DEFAULT_GROUP : str := "WireGuardProvider".
Definition XRAY_DEFAULT_GROUP : str := "XRayProvider".
Definition HYSTERIA_DEFAULT_GROUP : str := "HysteriaProvider".
Definition HYSTERIA2_DEFAULT_GROUP : str := "Hysteria2Provider".
Definition TUIC_DEFAULT_GROUP : str := "TuicProvider".
Definition ANYTLS_DEFAULT_GROUP : str := "AnyTLSProvider".
Definition NAIVE_DEFAULT_GROUP : str := "NaiveProvider".
Definition MIERU_DEFAULT_GROUP : str := "MieruProvider".

(** src/src/parser/subparser.cpp:28-35 *)
Definition ss_ciphers : list str := [
  "rc4-md5"; "aes-128-gcm"; "aes-192-gcm"; "aes-256-gcm"; "aes-128-cfb"; "aes-192-cfb";
  "aes-256-cfb"; "aes-128-ctr"; "aes-192-ctr"; "aes-256-ctr"; "camellia-128-cfb";
  "camellia-192-cfb"; "camellia-256-cfb"; "bf-cfb"; "chacha20-ietf-poly1305";
  "xchacha20-ietf-poly1305"; "salsa20"; "chacha20"; "chacha20-ietf"; "2022-blake3-aes-128-gcm";
  "2022-blake3-aes-256-gcm"; "2022-blake3-chacha20-poly1305"; "2022-blake3-chacha12-poly1305";
  "2022-blake3-chacha8-poly1305"]%str.

(** src/src/parser/subparser.cpp:36-41 *)
Definition ssr_ciphers : list str := [
  "none"; "table"; "rc4"; "rc4-md5"; "aes-128-cfb"; "aes-192-cfb"; "aes-256-cfb";
  "aes-128-ctr"; "aes-192-ctr"; "aes-256-ctr"; "bf-cfb"; "camellia-128-cfb";
  "camellia-192-cfb"; "camellia-256-cfb"; "cast5-cfb"; "des-cfb"; "idea-cfb"; "rc2-cfb";
  "seed-cfb"; "salsa20"; "chacha20"; "chacha20-ietf"]%str.

(** [remark.empty() ? host + ":" + port : remark] *)
Definition remark_or (remark host port : str) : str := orElse remark (host ++ ":" ++ port).

Definition no_break (texts : list str) : bool := forallb (fun s => negb (has_crlf s)) texts.

(** The text before the first byte [c], and what follows it. *)
Definition cut (c : ascii) (s : str) : str * option str :=
  match find_char c s 0 with Some i => (take i s, Some (drop (i + 1) s)) | None => (s, None) end.

Section Parse.
Context `{!Pcre}.

(** ** Shadowsocks *)

(** src/src/parser/subparser.cpp:1303-1324 [explodeSS, fragment and query]
    Remark, plugin, plugin options, group and what is left. *)
Definition ss_options (ss : str) : str * str * str * str * str :=
  let '(ss, fragment) := cut "#" ss in
  let ps := match fragment with Some f => decodeShareUriUserInfo f | None => [] end in
  match cut "?" ss with
  | (ss, Some addition) =>
      let '(plugin, options) := cut ";" (urlDecode (getUrlArg addition "plugin")) in
      let encoded_group := getUrlArg addition "group" in
      let group :=
        match encoded_group with
        | [] => SS_DEFAULT_GROUP
        | _ => default SS_DEFAULT_GROUP (decodeStrictBase64 encoded_group)
        end in
      (ps, plugin, default [] options, group, ss)
  | (ss, None) => (ps, [], [], SS_DEFAULT_GROUP, ss)
  end.

(** src/src/parser/subparser.cpp:1326-1346 [explodeSS, credentials and server]
    Method, password, server and port. *)
Definition ss_server (ss : str) : option (str * str * str * str) :=
  match last_index_if (is_char "@") ss with
  | Some at_ =>
      if (at_ =? 0) || (length ss <=? at_ + 1) then None
      else
        match parseUserPassword (take at_ ss) true, parseShareAuthority (drop (at_ + 1) ss) with
        | Some (method, password), Some (server, port) => Some (method, password, server, port)
        | _, _ => None
        end
  | None =>
      match decodeStrictBase64 ss with
      | None => None
      | Some decoded =>
          match last_index_if (is_char "@") decoded with
          | None => None
          | Some decoded_at =>
              if (decoded_at =? 0) || (length decoded <=? decoded_at + 1) then None
              else
                match find_char ":" decoded 0 with
                | None => None
                | Some colon =>
                    if decoded_at <=? colon then None
                    else
                      match parseShareAuthority (drop (decoded_at + 1) decoded) with
                      | Some (server, port) =>
                          Some (take colon decoded, substr decoded (colon + 1) (decoded_at - colon - 1), server, port)
                      | None => None
                      end
                end
          end
      end
  end.

(** src/src/parser/subparser.cpp:1295-1359 *)
Definition explodeSS (ss : str) (node : Node) : Node :=
  if negb (startsWith ss "ss://") then node
  else
    let '(ps, plugin, pluginopts, group, ss) := ss_options (drop 5 ss) in
    match ss_server (drop_slash ss) with
    | None => node
    | Some (method, password, server, port) =>
        if bool_decide (method = []) || bool_decide (password = []) ||
           negb (no_break [method; password; group; ps; plugin; pluginopts]) then node
        else
          ssConstruct node group (remark_or ps server port) server port password method plugin pluginopts
            indeterminate indeterminate indeterminate indeterminate []
    end.

(** ** ShadowsocksR *)

(** src/src/parser/subparser.cpp:1536-1542 [explodeSSR, options]
    Group, remarks and the two parameters, without white space. *)
Definition ssr_options (strobfs : str) : str * str * str * str :=
  let arg key := default [] (decodeStrictBase64 (getUrlArg strobfs key)) in
  (arg "group"%str, arg "remarks"%str, regReplace (arg "obfsparam"%str) "\s" [] true true,
   regReplace (arg "protoparam"%str) "\s" [] true true).

(** src/src/parser/subparser.cpp:1546-1559 [explodeSSR, server]
    The server and what follows its colon. *)
Definition ssr_server (ssr : str) : option (str * str) :=
  if bool_decide (head ssr = Some "["%char) then
    match find_char "]" ssr 0 with
    | None => None
    | Some bracket =>
        if (length ssr <=? bracket + 1) || negb (bool_decide (ssr !! (bracket + 1) = Some ":"%char)) then None
        else Some (substr ssr 1 (bracket - 1), drop (bracket + 2) ssr)
    end
  else
    match find_char ":" ssr 0 with
    | None => None
    | Some colon => Some (take colon ssr, drop (colon + 1) ssr)
    end.

(** src/src/parser/subparser.cpp:1528-1590 *)
Definition explodeSSR (ssr : str) (node : Node) : Node :=
  if negb (startsWith ssr "ssr://") then node
  else
    let body := drop 6 ssr in
    match decodeStrictBase64 (default body (replaceAllDistinct body ["013"%char] [])) with
    | None => node
    | Some ssr =>
        let '(ssr, (group, remarks, obfsparam, protoparam)) :=
          match find "/?" ssr 0 with
          | Some pos => (take pos ssr, ssr_options (drop (pos + 2) ssr))
          | None => (ssr, ([], [], [], []))
          end in
        match ssr_server ssr with
        | None => node
        | Some (server, fields) =>
            match default [] (split fields ":") with
            | [port; protocol; method; obfs; encoded] =>
                if bool_decide (server = []) then node
                else if negb (validSharePort port) || bool_decide (protocol = []) || bool_decide (method = []) ||
                        bool_decide (obfs = []) then node
                else
                  match decodeStrictBase64 encoded with
                  | None => node
                  | Some password =>
                      if negb (no_break [server; protocol; method; obfs; password; group; remarks]) then node
                      else
                        let group := orElse group SSR_DEFAULT_GROUP in
                        let remarks := remark_or remarks server port in
                        if bool_decide (method ∈ ss_ciphers) && bool_decide (obfs = [] \/ obfs = "plain"%str) &&
                           bool_decide (protocol = [] \/ protocol = "origin"%str) then
                          ssConstruct node group remarks server port password method [] []
                            indeterminate indeterminate indeterminate indeterminate []
                        else
                          ssrConstruct node group remarks server port protocol method obfs password obfsparam protoparam
                            indeterminate indeterminate indeterminate []
                  end
            | _ => node
            end
        end
    end.

(** ** SOCKS and HTTP *)

(** src/src/parser/subparser.cpp:1691-1723 [explodeSocks, socks link]
    Remark, user name, password, server and port. *)
Definition socks_link (link : str) : option (str * str * str * str * str) :=
  let '(encoded, fragment) := cut "#" (drop 8 link) in
  let remarks := match fragment with Some f => decodeShareUriUserInfo f | None => [] end in
  let encoded := drop_slash encoded in
  let with_user text at_ :=
    if (at_ =? 0) || (length text <=? at_ + 1) then None
    else
      match parseUserPassword (take at_ text) true, parseShareAuthority (drop (at_ + 1) text) with
      | Some (username, password), Some (server, port) => Some (remarks, username, password, server, port)
      | _, _ => None
      end in
  match last_index_if (is_char "@") encoded with
  | Some at_ => with_user encoded at_
  | None =>
      match parseShareAuthority encoded with
      | Some (server, port) => Some (remarks, [], [], server, port)
      | None =>
          match decodeStrictBase64 encoded with
          | None => None
          | Some decoded =>
              match last_index_if (is_char "@") decoded with
              | None =>
                  match parseShareAuthority decoded with
                  | Some (server, port) => Some (remarks, [], [], server, port)
                  | None => None
                  end
              | Some decoded_at => with_user decoded decoded_at
              end
          end
      end
  end.

(** src/src/parser/subparser.cpp:1687-1748 *)
Definition explodeSocks (link : str) (node : Node) : Node :=
  let parts :=
    if startsWith link "socks://" then
      match socks_link link with
      | Some (remarks, username, password, server, port) => Some (remarks, username, password, server, port, [])
      | None => None
      end
    else if strFind link "https://t.me/socks" || strFind link "tg://socks" then
      Some (urlDecode (getUrlArg link "remarks"), urlDecode (getUrlArg link "user"), urlDecode (getUrlArg link "pass"),
            getUrlArg link "server", getUrlArg link "port", urlDecode (getUrlArg link "group"))
    else Some ([], [], [], [], [], []) in
  match parts with
  | None => node
  | Some (remarks, username, password, server, port, group) =>
      if bool_decide (server = []) || negb (validSharePort port) ||
         negb (no_break [server; username; password; remarks; group]) then node
      else
        socksConstruct node (orElse group SOCKS_DEFAULT_GROUP) (remark_or remarks server port) server port username password
          indeterminate indeterminate indeterminate []
  end.

(** src/src/parser/subparser.cpp:1750-1771 *)
Definition explodeHTTP (link : str) (node : Node) : Node :=
  let server := getUrlArg link "server" in
  let port := getUrlArg link "port" in
  let username := urlDecode (getUrlArg link "user") in
  let password := urlDecode (getUrlArg link "pass") in
  let remarks := urlDecode (getUrlArg link "remarks") in
  let group := urlDecode (getUrlArg link "group") in
  if bool_decide (server = []) || negb (validSharePort port) ||
     negb (no_break [server; username; password; remarks; group]) then node
  else
    httpConstruct node (orElse group HTTP_DEFAULT_GROUP) (remark_or remarks server port) server port username password
      (strFind link "/https") indeterminate indeterminate indeterminate [].

(** src/src/parser/subparser.cpp:1773-1814
    Without a scheme separator [find] yields [npos], and [npos + 3] is 2. *)
Definition explodeHTTPSub (link : str) (node : Node) : Node :=
  let tls := strFind link "https://" in
  let '(link, addition) := cut "?" link in
  let remarks := match addition with Some a => urlDecode (getUrlArg a "remarks") | None => [] end in
  let group := match addition with Some a => urlDecode (getUrlArg a "group") | None => [] end in
  let link := match find "://" link 0 with Some p => drop (p + 3) link | None => drop 2 link end in
  match decodeStrictBase64 link with
  | None => node
  | Some link =>
      let parts :=
        match last_index_if (is_char "@") link with
        | None => Some ([], [], link)
        | Some at_ =>
            if (at_ =? 0) || (length link <=? at_ + 1) then None
            else
              match cut ":" (take at_ link) with
              | (username, Some password) => Some (username, password, drop (at_ + 1) link)
              | (_, None) => None
              end
        end in
      match parts with
      | None => node
      | Some (username, password, authority) =>
          match parseShareAuthority authority with
          | None => node
          | Some (server, port) =>
              if negb (no_break [username; password; remarks; group]) then node
              else
                httpConstruct node (orElse group HTTP_DEFAULT_GROUP) (remark_or remarks server port) server port username
                  password tls indeterminate indeterminate indeterminate []
          end
      end
  end.

(** ** Trojan and VLESS *)

(** src/src/parser/subparser.cpp:422-426 *)
Definition isXrayUuid (value : str) : bool :=
  regMatch value "^[\da-fA-F]{8}-[\da-fA-F]{4}-[\da-fA-F]{4}-[\da-fA-F]{4}-[\da-fA-F]{12}$".

(** src/src/parser/subparser.cpp:1856-1897 *)
Definition explodeTrojan (trojan : str) (node : Node) : Node :=
  let scheme := (if startsWith trojan "trojan-go://" then "trojan-go" else "trojan")%str in
  match parseShareUri trojan scheme with
  | None => node
  | Some parsed =>
      let query := query parsed in
      match parseXrayTransport query node with
      | None => node
      | Some (node, t) =>
          let sni := decodedUrlArg query "sni" in
          let host := orElse (orElse (host_ t) sni) (decodedUrlArg query "peer") in
          let tfo := tribool_of_str (getUrlArg query "tfo") in
          let fp := decodedUrlArg query "fp" in
          let scv := getXrayAllowInsecure query in
          let group := decodedUrlArg query "group" in
          let ws := bool_decide (getUrlArg query "ws" = "1"%str) in
          let path := urlDecode (if ws then getUrlArg query "wspath" else path t) in
          let network := if ws then "ws"%str else network t in
          let node :=
            trojanConstruct node (orElse group TROJAN_DEFAULT_GROUP)
              (remark_or (remark parsed) (ShareUri.host parsed) (ShareUri.port parsed)) (ShareUri.host parsed)
              (ShareUri.port parsed) (user parsed) network host path fp sni (getUrlAlpnList query) true
              indeterminate tfo scv indeterminate [] in
          { node with rest -> FakeType := header_type t; rest -> GRPCMode := mode t;
            rest -> PublicKey := decodedUrlArg query "pbk"; rest -> ShortId := decodedUrlArg query "sid";
            rest -> TLSStr := orElse (decodedUrlArg query "security") "tls" }
      end
  end.

(** src/src/parser/subparser.cpp:3074-3097 *)
Definition explodeStdVless (vless : str) (node : Node) : Node :=
  match parseShareUri vless "vless" with
  | None => node
  | Some parsed =>
      if negb (isXrayUuid (user parsed)) then node
      else
        let query := query parsed in
        match parseXrayTransport query node with
        | None => node
        | Some (node, t) =>
            vlessConstruct node XRAY_DEFAULT_GROUP
              (remark_or (remark parsed) (ShareUri.host parsed) (ShareUri.port parsed)) (ShareUri.host parsed)
              (ShareUri.port parsed) (header_type t) (user parsed) "0" (network t) "auto" (decodedUrlArg query "flow")
              (mode t) (path t) (host_ t) [] (decodedUrlArg query "security") (decodedUrlArg query "pbk")
              (decodedUrlArg query "sid") (decodedUrlArg query "fp") (decodedUrlArg query "sni") (getUrlAlpnList query)
              (decodedUrlArg query "packet-encoding") indeterminate indeterminate (getXrayAllowInsecure query)
              indeterminate [] indeterminate (orElse (decodedUrlArg query "encryption") "none")
        end
  end.

(** src/src/parser/subparser.cpp:1899-1904 *)
Definition explodeVless (vless : str) (node : Node) : Node :=
  if regMatch vless "vless://(.*?)@(.*)" then explodeStdVless vless node else node.

(** ** Hysteria *)

(** src/src/parser/subparser.cpp:311-317 *)
Definition normalizeHysteriaProtocol (protocol : str) : option str :=
  let protocol := orElse (toLower (trim protocol true true)) "udp" in
  if bool_decide (protocol = "udp"%str) || bool_decide (protocol = "wechat-video"%str) || bool_decide (protocol = "faketcp"%str)
  then Some protocol else None.

(** src/src/parser/subparser.cpp:324-327 *)
Definition validHysteriaHopInterval (interval : str) : bool :=
  bool_decide (interval = []) || regMatch interval "^([1-9][0-9]*(?:ns|us|ms|s|m|h))+$".

(** src/src/parser/subparser.cpp:2844-2888 *)
Definition explodeStdHysteria (hysteria : str) (node : Node) : Node :=
  match parseModernShareUri hysteria "hysteria" false [] false with
  | None => node
  | Some (parsed, _) =>
      let query := query parsed in
      match normalizeHysteriaProtocol (decodedUrlArg query "protocol") with
      | None => node
      | Some protocol =>
          let up := decodedFirstUrlArg query ["upmbps"; "up_mbps"; "up"]%str in
          let down := decodedFirstUrlArg query ["downmbps"; "down_mbps"; "down"]%str in
          if negb (validHysteriaUriMbps up) || negb (validHysteriaUriMbps down) then node
          else
            let obfs_mode := toLower (trim (decodedUrlArg query "obfs") true true) in
            if negb (bool_decide (obfs_mode = [])) && negb (bool_decide (obfs_mode = "xplus"%str)) then node
            else
              let auth := decodedFirstUrlArg query ["auth_str"; "auth-str"; "auth"]%str in
              let sni := decodedFirstUrlArg query ["peer"; "sni"; "server_name"; "server-name"]%str in
              let insecure := decodedFirstUrlArg query ["insecure"; "allow_insecure"; "allow-insecure"]%str in
              let alpn_list := getUrlAlpnList query in
              let alpn := default [] (head alpn_list) in
              let hop_interval := decodedFirstUrlArg query ["hop_interval"; "hop-interval"]%str in
              if negb (validHysteriaHopInterval hop_interval) then node
              else
                let node :=
                  hysteriaConstruct node HYSTERIA_DEFAULT_GROUP
                    (remark_or (remark parsed) (ShareUri.host parsed) (ShareUri.port parsed)) (ShareUri.host parsed)
                    (ShareUri.port parsed) protocol [] auth sni up down alpn
                    (decodedFirstUrlArg query ["obfsParam"; "obfs-param"]%str) insecure [] sni
                    indeterminate indeterminate (tribool_of_str insecure) indeterminate [] in
                { node with rest -> OBFS := obfs_mode; rest -> AlpnList := alpn_list;
                  rest -> HysteriaHopInterval := hop_interval; rest -> TLSSecure := true }
      end
  end.

(** src/src/parser/subparser.cpp:1915-1920 *)
Definition explodeHysteria (hysteria : str) (node : Node) : Node :=
  explodeStdHysteria (if startsWith hysteria "hy://" then "hysteria://" ++ drop 5 hysteria else hysteria) node.

(** src/src/parser/subparser.cpp:2960-2965 [explodeStdHysteria2, packet sizes] *)
Definition gecko_sizes (query : str) (node : Node) : Node :=
  if bool_decide (toLower (trim (OBFSParam (rest node)) true true) = "gecko"%str) then
    { node with
      rest -> Hysteria2GeckoMinPacketSize := decodedFirstUrlArg query ["minPacketSize"; "min_packet_size"]%str;
      rest -> Hysteria2GeckoMaxPacketSize := decodedFirstUrlArg query ["maxPacketSize"; "max_packet_size"]%str }
  else node.

(** src/src/parser/subparser.cpp:2928-2966 *)
Definition explodeStdHysteria2 (hysteria2 : str) (node : Node) : Node :=
  match parseModernShareUri hysteria2 "hysteria2" false "443" true with
  | None => node
  | Some (parsed, ports) =>
      let query := query parsed in
      let password := orElse (user parsed) (decodedUrlArg query "password") in
      let query_ports := decodedUrlArg query "ports" in
      if negb (bool_decide (query_ports = [])) &&
         negb (forallb (fun t => bool_decide (is_Some (validHysteria2PortToken t))) (default [] (split query_ports ",")))
      then node
      else
        let ports :=
          if bool_decide (query_ports = []) then ports
          else match ports with [] => query_ports | _ => ports ++ "," ++ query_ports end in
        let sni := decodedUrlArg query "sni" in
        let node :=
          hysteria2Construct node HYSTERIA2_DEFAULT_GROUP
            (remark_or (remark parsed) (ShareUri.host parsed) (ShareUri.port parsed)) (ShareUri.host parsed)
            (ShareUri.port parsed) password sni (decodedUrlArg query "up") (decodedUrlArg query "down")
            (decodedUrlArg query "alpn") (decodedUrlArg query "obfs") (decodedUrlArg query "obfs-password") sni [] ports
            indeterminate indeterminate (tribool_of_str (getUrlArg query "insecure")) [] in
        gecko_sizes query
          { node with rest -> Fingerprint := decodedFirstUrlArg query ["pinSHA256"; "pinsha256"]%str;
            rest -> Hysteria2ECH := decodedUrlArg query "ech";
            rest -> Hysteria2PortsAreAdditional := negb (bool_decide (ports = [])) }
  end.

(** src/src/parser/subparser.cpp:1922-1925 *)
Definition explodeHysteria2 (hysteria2 : str) (node : Node) : Node :=
  explodeStdHysteria2 (regReplace hysteria2 "(hysteria2|hy2)://" "hysteria2://" true true) node.

(** src/src/parser/subparser.cpp:3001-3024 [explodeHysteria2Realm, authority]
    Host and port, which may be missing. *)
Definition realm_authority (authority : str) : option (str * str) :=
  if bool_decide (head authority = Some "["%char) then
    match find_char "]" authority 0 with
    | None => None
    | Some bracket =>
        if bracket =? 1 then None
        else
          let host := substr authority 1 (bracket - 1) in
          if bracket + 1 <? length authority then
            let port := drop (bracket + 2) authority in
            if negb (bool_decide (authority !! (bracket + 1) = Some ":"%char)) || negb (validSharePort port) then None
            else Some (host, port)
          else Some (host, [])
    end
  else
    match last_index_if (is_char ":") authority with
    | Some colon =>
        if bool_decide (find_char ":" authority 0 = Some colon) then
          let candidate_port := drop (colon + 1) authority in
          if negb (validSharePort candidate_port) then None else Some (take colon authority, candidate_port)
        else Some (authority, [])
    | None => Some (authority, [])
    end.

(** src/src/parser/subparser.cpp:3040-3050 [explodeHysteria2Realm, STUN servers]
    The entries that name a STUN server, or a failure. *)
Fixpoint stun_entries (entries : list str) : option (list str) :=
  match entries with
  | [] => Some []
  | entry :: entries =>
      match cut "=" entry with
      | (_, None) => stun_entries entries
      | (name, Some value) =>
          if negb (bool_decide (toLower (urlDecode name) = "stun"%str)) then stun_entries entries
          else
            let stun := urlDecode value in
            if bool_decide (stun = []) || has_crlf stun then None else cons entry <$> stun_entries entries
      end
  end.

(** src/src/parser/subparser.cpp:2968-3071 *)
Definition explodeHysteria2Realm (hysteria2 : str) (node : Node) : Node :=
  let http := startsWith hysteria2 "hysteria2+realm+http://" in
  let prefix := (if http then "hysteria2+realm+http://" else "hysteria2+realm://")%str in
  if negb (startsWith hysteria2 prefix) then node
  else
    let '(hysteria2, remark) := extractRemark (drop (length prefix) hysteria2) [] in
    let '(hysteria2, query) := cut_query hysteria2 in
    match last_index_if (is_char "@") hysteria2 with
    | None => node
    | Some at_ =>
        match find_char "/" hysteria2 (at_ + 1) with
        | None => node
        | Some path =>
            if (at_ =? 0) || (path =? at_ + 1) || (length hysteria2 <=? path + 1) then node
            else
              let token := decodeShareUriUserInfo (take at_ hysteria2) in
              let authority := substr hysteria2 (at_ + 1) (path - at_ - 1) in
              let realm_name := drop (path + 1) hysteria2 in
              if bool_decide (token = []) || has_crlf token || existsb (fun c => is_char "/" c || is_crlf c) realm_name
              then node
              else
                match realm_authority authority with
                | None => node
                | Some (host, port) =>
                    if bool_decide (host = []) || has_crlf host then node
                    else
                      let port := orElse port (if http then "80" else "443")%str in
                      let auth := decodedUrlArg query "auth" in
                      if bool_decide (auth = []) then node
                      else
                        let sni := decodedUrlArg query "sni" in
                        match stun_entries (default [] (split query "&")) with
                        | None => node
                        | Some stun_query =>
                            let realm_url := ((if http then "realm+http://" else "realm://") ++ hysteria2)%str in
                            let realm_url :=
                              match stun_query with [] => realm_url | _ => realm_url ++ "?" ++ join stun_query "&" end in
                            let node :=
                              hysteria2Construct node HYSTERIA2_DEFAULT_GROUP (remark_or remark host port) host port auth sni
                                (decodedUrlArg query "up") (decodedUrlArg query "down") (decodedUrlArg query "alpn")
                                (decodedUrlArg query "obfs") (decodedUrlArg query "obfs-password") sni [] []
                                indeterminate indeterminate (tribool_of_str (decodedUrlArg query "insecure")) [] in
                            gecko_sizes query
                              { node with rest -> TLSSecure := true; rest -> TLSStr := "tls"%str;
                                rest -> Fingerprint := decodedFirstUrlArg query ["pinSHA256"; "pinsha256"]%str;
                                rest -> Hysteria2ECH := decodedUrlArg query "ech";
                                rest -> Hysteria2RealmUrl := realm_url }
                        end
                end
        end
    end.

(** ** TUIC, AnyTLS and Naive *)

(** src/src/parser/subparser.cpp:5661-5704 *)
Definition explodeTuic (tuic : str) (node : Node) : Node :=
  match parseModernShareUri tuic "tuic" true [] false with
  | None => node
  | Some (parsed, _) =>
      let query := query parsed in
      let credentials :=
        match cut ":" (user parsed) with
        | (token, None) => Some ([], [], token)
        | (uuid, Some password) =>
            if negb (isXrayUuid uuid) || bool_decide (password = []) then None else Some (uuid, password, [])
        end in
      match credentials with
      | None => node
      | Some (uuid, password, token) =>
          let token := orElse (decodedUrlArg query "token") token in
          let udp_relay_mode := orElse (decodedFirstUrlArg query ["udp_relay_mode"; "udp-relay-mode"]%str) "native" in
          let insecure := decodedFirstUrlArg query ["insecure"; "allow_insecure"; "allow-insecure"]%str in
          let reduce_rtt :=
            decodedFirstUrlArg query ["zero_rtt_handshake"; "zero-rtt-handshake"; "reduce_rtt"; "reduce-rtt"]%str in
          let disable_sni := decodedFirstUrlArg query ["disable_sni"; "disable-sni"]%str in
          let request_timeout :=
            parseUint16Option (decodedFirstUrlArg query ["request_timeout"; "request-timeout"]%str) 15000 false in
          let node :=
            tuicConstruct node TUIC_DEFAULT_GROUP
              (remark_or (remark parsed) (ShareUri.host parsed) (ShareUri.port parsed)) (ShareUri.host parsed)
              (ShareUri.port parsed) password
              (decodedFirstUrlArg query ["congestion_control"; "congestion-controller"]%str) (decodedUrlArg query "alpn")
              (decodedUrlArg query "sni") uuid udp_relay_mode token indeterminate indeterminate
              (tribool_of_str insecure) (tribool_of_str reduce_rtt) (tribool_of_str disable_sni) request_timeout [] in
          { node with rest -> TLSStr := orElse (decodedUrlArg query "security") "tls";
            rest -> PublicKey := decodedUrlArg query "pbk"; rest -> ShortId := decodedUrlArg query "sid";
            rest -> Fingerprint := decodedUrlArg query "fp" }
      end
  end.

(** src/src/parser/subparser.cpp:5706-5732 *)
Definition explodeAnyTLS (anytls : str) (node : Node) : Node :=
  match parseModernShareUri anytls "anytls" true "443" false with
  | None => node
  | Some (parsed, _) =>
      let query := query parsed in
      let idle_check := parseUint16Option
        (decodedFirstUrlArg query ["idle_session_check_interval"; "idle-session-check-interval"]%str) 30 true in
      let idle_timeout := parseUint16Option
        (decodedFirstUrlArg query ["idle_session_timeout"; "idle-session-timeout"]%str) 30 true in
      let min_idle := parseUint16Option
        (decodedFirstUrlArg query ["min_idle_session"; "min-idle-session"]%str) 0 false in
      let insecure := decodedFirstUrlArg query ["insecure"; "allow_insecure"; "allow-insecure"]%str in
      let node :=
        anyTlSConstruct node ANYTLS_DEFAULT_GROUP
          (remark_or (remark parsed) (ShareUri.host parsed) (ShareUri.port parsed)) (ShareUri.port parsed) (user parsed)
          (ShareUri.host parsed) (getUrlAlpnList query) (decodedFirstUrlArg query ["fp"; "fingerprint"]%str)
          (decodedUrlArg query "sni") (tribool_of_str (decodedUrlArg query "udp"))
          (tribool_of_str (decodedUrlArg query "tfo")) (tribool_of_str insecure) indeterminate []
          idle_check idle_timeout min_idle in
      { node with rest -> TLSStr := orElse (decodedUrlArg query "security") "tls";
        rest -> PublicKey := decodedUrlArg query "pbk"; rest -> ShortId := decodedUrlArg query "sid" }
  end.

(** src/src/parser/subparser.cpp:5753-5769 [explodeNaive, insecure-concurrency]
    [stoull] throws for a number of more than 64 bits. *)
Definition naive_concurrency (concurrency : str) : option Z :=
  if bool_decide (concurrency = []) then Some 0%Z
  else if negb (all_digits concurrency) then None
  else
    let parsed_value := digits_value 0 concurrency in
    if (UINT64_MAX <? parsed_value)%Z then None
    else if (parsed_value =? 0)%Z || (UINT32_MAX <? parsed_value)%Z then None else Some (u32 parsed_value).

(** src/src/parser/subparser.cpp:5734-5786 *)
Definition explodeNaive (naive : str) (node : Node) : Node :=
  let quic := startsWith naive "naive+quic://" in
  match parseModernShareUri naive (if quic then "naive+quic" else "naive+https")%str true "443" false with
  | None => node
  | Some (parsed, _) =>
      let query := query parsed in
      let '(username, password) :=
        match cut ":" (user parsed) with (u, Some p) => (u, p) | (_, None) => ([], user parsed) end in
      if bool_decide (password = []) then node
      else
        match naive_concurrency (decodedUrlArg query "insecure-concurrency") with
        | None => node
        | Some insecure_concurrency =>
            let insecure := decodedFirstUrlArg query ["insecure"; "allow_insecure"; "allow-insecure"]%str in
            let node :=
              naiveConstruct node NAIVE_DEFAULT_GROUP
                (remark_or (remark parsed) (ShareUri.host parsed) (ShareUri.port parsed)) (ShareUri.port parsed) username
                password (ShareUri.host parsed) (getUrlAlpnList query)
                (decodedFirstUrlArg query ["fp"; "fingerprint"]%str) (decodedUrlArg query "sni")
                (tribool_of_str insecure) quic insecure_concurrency in
            { node with rest -> TLSStr := orElse (decodedUrlArg query "security") "tls";
              rest -> PublicKey := decodedUrlArg query "pbk"; rest -> ShortId := decodedUrlArg query "sid" }
        end
  end.

(** ** WireGuard *)

Definition is_quote (c : ascii) : bool := is_char "034" c || is_char "'" c.

(** src/src/parser/subparser.cpp:547-554 *)
Definition stripWireGuardQuotes (value : str) : str :=
  let value := trim value true true in
  let value :=
    match head value, last value with
    | Some a, Some b =>
        if (2 <=? length value) && is_quote a && bool_decide (a = b) then substr value 1 (length value - 2) else value
    | _, _ => value
    end in
  trim value true true.

(** src/src/parser/subparser.cpp:659-662 *)
Definition validWireGuardPeer (peer : WireGuardPeer) : bool :=
  negb (bool_decide (peer_Hostname peer = [])) && (0 <? peer_Port peer)%Z &&
  negb (bool_decide (peer_PublicKey peer = [])) && negb (bool_decide (peer_AllowedIPs peer = [])).

(** src/src/parser/subparser.cpp:667-677 [normalizeWireGuardReserved, one number] *)
Definition reserved_byte (item : str) : option str :=
  let item := trim item true true in
  if bool_decide (item = []) || (3 <? length item) || negb (all_digits item) then None
  else let byte := to_int item (-1) in if (byte <? 0)%Z || (255 <? byte)%Z then None else Some (to_string byte).

(** src/src/parser/subparser.cpp:664-680 *)
Definition normalizeWireGuardReserved (value : str) : str :=
  let value := stripWireGuardQuotes value in
  let value := default value (replaceAllDistinct value "/" ",") in
  match mapM reserved_byte (default [] (split value ",")) with
  | Some bytes => join bytes ","
  | None => []
  end.

(** src/src/parser/subparser.cpp:683-688 [syncLegacyWireGuardProjection, addresses] *)
Definition sync_addresses (node : Node) : Node :=
  match WireGuardLocalAddresses (rest node) with
  | [] => { node with rest -> WireGuardLocalAddresses := filter (fun a => a <> []) [SelfIP (rest node); SelfIPv6 (rest node)] }
  | _ => node
  end.

(** src/src/parser/subparser.cpp:689-700 [syncLegacyWireGuardProjection, peer] *)
Definition sync_peer (node : Node) : Node :=
  match WireGuardPeers (rest node) with
  | [] =>
      let f := rest node in
      let peer := mkPeer (Hostname node) (Port node) (PublicKey f) (PreSharedKey f) (AllowedIPs f) (ClientId f) (KeepAlive f) in
      if validWireGuardPeer peer then { node with rest -> WireGuardPeers := [peer] } else node
  | _ => node
  end.

(** src/src/parser/subparser.cpp:701-710 [syncLegacyWireGuardProjection, projection] *)
Definition project_peer (node : Node) : Node :=
  match WireGuardPeers (rest node) with
  | [] => node
  | peer :: _ =>
      { node with Hostname := peer_Hostname peer; Port := peer_Port peer; rest -> PublicKey := peer_PublicKey peer;
        rest -> PreSharedKey := peer_PreSharedKey peer; rest -> AllowedIPs := peer_AllowedIPs peer;
        rest -> ClientId := peer_Reserved peer; rest -> KeepAlive := peer_KeepAlive peer }
  end.

(** src/src/parser/subparser.cpp:682-711 *)
Definition syncLegacyWireGuardProjection (node : Node) : Node := project_peer (sync_peer (sync_addresses node)).

(** src/src/parser/subparser.cpp:885-898 [wireguardConstruct, fields] *)
Definition wireguard_fields (node : Node)
    (group remarks server port selfIp selfIpv6 privKey pubKey psk : str) (dns : list str)
    (mtu keepalive testUrl clientId : str) (udp : tribool) (underlying_proxy : str) : Node :=
  let node := commonConstruct node WireGuard group remarks server port udp indeterminate indeterminate indeterminate
    underlying_proxy in
  { node with rest -> SelfIP := selfIp; rest -> SelfIPv6 := selfIpv6; rest -> PrivateKey := privKey;
    rest -> PublicKey := pubKey; rest -> PreSharedKey := psk; rest -> DnsServers := dns;
    rest -> Mtu := parseUint16Option mtu 0 false; rest -> KeepAlive := parseUint16Option keepalive 0 false;
    rest -> TestUrl := testUrl; rest -> ClientId := normalizeWireGuardReserved clientId }.

(** src/src/parser/subparser.cpp:881-900 *)
Definition wireguardConstruct (node : Node)
    (group remarks server port selfIp selfIpv6 privKey pubKey psk : str) (dns : list str)
    (mtu keepalive testUrl clientId : str) (udp : tribool) (underlying_proxy : str) : Node :=
  syncLegacyWireGuardProjection
    (wireguard_fields node group remarks server port selfIp selfIpv6 privKey pubKey psk dns mtu keepalive testUrl clientId
       udp underlying_proxy).

(** src/src/parser/subparser.cpp:5801-5835 [explodeWireGuard, local addresses]
    The addresses, the IPv4 and the IPv6 address so far. *)
Fixpoint wireguard_addresses (items local_addresses : list str) (self_ip self_ipv6 : str) : option (list str * str * str) :=
  match items with
  | [] => Some (local_addresses, self_ip, self_ipv6)
  | item :: items =>
      let item := trim item true true in
      if bool_decide (item = []) then None
      else
        let '(host, slash) := cut "/" item in
        let prefix := default [] slash in
        if bool_decide (is_Some slash) && (bool_decide (prefix = []) || (3 <? length prefix) || negb (all_digits prefix))
        then None
        else
          let too_long n := negb (bool_decide (prefix = [])) && (n <? to_int prefix (-1))%Z in
          let with_prefix p := if bool_decide (slash = None) then item ++ p else item in
          if is_ipv4 host then
            if negb (bool_decide (self_ip = [])) || too_long 32%Z then None
            else wireguard_addresses items (local_addresses ++ [with_prefix "/32"%str]) host self_ipv6
          else if isIPv6 host then
            if negb (bool_decide (self_ipv6 = [])) || too_long 128%Z then None
            else wireguard_addresses items (local_addresses ++ [with_prefix "/128"%str]) self_ip host
          else None
  end.

(** src/src/parser/subparser.cpp:5788-5856 *)
Definition explodeWireGuard (wireguard : str) (node : Node) : Node :=
  match parseShareUri wireguard "wireguard" with
  | None => node
  | Some parsed =>
      let query := query parsed in
      let public_key := decodedUrlArg query "publickey" in
      let address := decodedUrlArg query "address" in
      if bool_decide (user parsed = []) || bool_decide (public_key = []) || bool_decide (address = []) then node
      else
        match wireguard_addresses (default [] (split address ",")) [] [] [] with
        | None => node
        | Some (local_addresses, self_ip, self_ipv6) =>
            let mtu := decodedUrlArg query "mtu" in
            let reserved := normalizeWireGuardReserved (decodedUrlArg query "reserved") in
            if negb (bool_decide (mtu = [])) && (parseUint16Option mtu 0 false =? 0)%Z then node
            else if negb (bool_decide (decodedUrlArg query "reserved" = [])) && bool_decide (reserved = []) then node
            else
              let node :=
                wireguardConstruct node WG_DEFAULT_GROUP
                  (remark_or (remark parsed) (ShareUri.host parsed) (ShareUri.port parsed)) (ShareUri.host parsed)
                  (ShareUri.port parsed) self_ip self_ipv6 (user parsed) public_key (decodedUrlArg query "presharedkey") []
                  mtu "0" [] reserved indeterminate [] in
              syncLegacyWireGuardProjection { node with rest -> WireGuardLocalAddresses := local_addresses }
        end
  end.
End Parse.

(** ** Direct HTTP links *)

(** src/src/parser/subparser.cpp:1844-1848 [isLegacyHttpProxyUri, candidate] *)
Definition http_candidate (link : str) : bool :=
  let candidate := explodeHTTPSub link (newNode 0 0) in
  bool_decide (Type_ candidate = HTTP \/ Type_ candidate = HTTPS) && negb (bool_decide (Hostname candidate = [])) &&
  negb (Port candidate =? 0)%Z.
