(* ===== verification/JsonValue.v ===== *)
(** * utils/rapidjson_extra.h: values of a JSON document

    The parser of JSON texts is a library, so it is the class [JsonReader].
    The accessors of rapidjson_extra.h, through which the parsers of
    subscriptions read a document, are defined on its values. *)

From S2P Require Import Prelude Str StringUtil.
Open Scope nat_scope.

(** A value.  [VInt] is an integer of 64 bits with sign, [VUint] a larger one
    that fits 64 bits without sign; a [VDouble] carries what
    [std::to_string] prints for it. *)
Inductive Value :=
  | VNull
  | VBool (b : bool)
  | VInt (n : Z)
  | VUint (n : Z)
  | VDouble (text : str)
  | VString (s : str)
  | VArray (l : list Value)
  | VObject (members : list (str * Value)).

(** [Document::Parse]: the root, or an error. *)
Class JsonReader := json_parse : str -> option Value.

Definition IsObject (v : Value) : bool := match v with VObject _ => true | _ => false end.
Definition IsArray (v : Value) : bool := match v with VArray _ => true | _ => false end.

(** [FindMember] with a C string: the first member of that name. *)
Definition FindMember (v : Value) (name : str) : option Value :=
  match v with VObject l => snd ∘ snd <$> list_find (fun m => m.1 = c_str name) l | _ => None end.

(** [std::to_string] of an [int64_t]. *)
Definition int_text (n : Z) : str := if (n <? 0)%Z then "-" ++ to_string (- n) else to_string n.

(** src/src/utils/rapidjson_extra.h:22-36 [operator>>] *)
Definition value_text (v : Value) : str :=
  match v with
  | VNull => []
  | VString s => c_str s
  | VInt n => int_text n
  | VBool b => if b then "true" else "false"
  | VDouble text => text
  | _ => []
  end.

(** src/src/utils/rapidjson_extra.h:52-58 [GetMember] *)
Definition GetMember (value : Value) (member : str) : str :=
  match FindMember value member with Some v => value_text v | None => [] end.

(** src/src/utils/rapidjson_extra.h:60-65 [GetMember, target] *)
Definition GetMember_into (value : Value) (member target : str) : str :=
  match GetMember value member with [] => target | s => s end.
