(* ===== verification/VmessLinks.v ===== *)
(** * parser/subparser.cpp: VMess and Netch links

    The links whose payload is a JSON document, with the older notations of
    VMess.  [None] is an access behind the end of a vector, which the source
    does not exclude. *)

From S2P Require Import Prelude Str StringUtil Codec Regexp NodeSelect Node ShareUri ShareParse JsonValue.
Open Scope nat_scope.

Section Vmess.
Context `{!Pcre, !JsonReader}.

(** ** Texts *)

(** [regGetMatch(s, re, n, 0, &...)]: the texts stored behind the whole match,
    or [None] when there is no match. *)
Definition groups (s re : str) (n : nat) : option (nat -> str) :=
  match regGetMatch s re n with Some stored => Some (fun i => default [] (stored !! i)) | None => None end.

Definition one_alpn (alpn : str) : list str := match alpn with [] => [] | _ => [alpn] end.

(** src/src/parser/subparser.cpp:3099-3141
    The pattern that leads here asks for a question mark. *)
Definition explodeShadowrocket (rocket : str) (node : Node) : Node :=
  let '(rocket, rest_) := cut "?" (drop 8 rocket) in
  let addition := default [] rest_ in
  match groups (urlSafeBase64Decode rocket) "(.*?):(.*)@(.*):(.*)" 5 with
  | None => node
  | Some g =>
      let cipher := g 1 in let id := g 2 in let add := g 3 in let port := g 4 in
      if bool_decide (port = "0"%str) then node
      else
        let remarks := urlDecode (getUrlArg addition "remarks") in
        let obfs := getUrlArg addition "obfs" in
        let '(net, host, path) :=
          if bool_decide (obfs = []) then
            (getUrlArg addition "network", getUrlArg addition "wsHost", getUrlArg addition "wspath")
          else if bool_decide (obfs = "websocket"%str) then
            ("ws"%str, getUrlArg addition "obfsParam", getUrlArg addition "path")
          else ("tcp"%str, [], []) in
        let tls := (if bool_decide (getUrlArg addition "tls" = "1"%str) then "tls" else [])%str in
        let aid := orElse (getUrlArg addition "aid") "0" in
        vmessConstruct node V2RAY_DEFAULT_GROUP (remark_or remarks add port) add port [] id aid net cipher path host [] tls []
          (one_alpn (getUrlArg addition "alpn")) indeterminate indeterminate indeterminate indeterminate []
  end.

(** src/src/parser/subparser.cpp:3143-3181
    Without a question mark the whole text is taken for the options too. *)
Definition explodeKitsunebi (kit : str) (node : Node) : Node :=
  let kit := drop 9 kit in
  let '(kit, fragment) := cut "#" kit in
  let remarks := default [] fragment in
  let '(address, options) := cut "?" kit in
  let addition := default kit options in
  match groups address "(.*?)@(.*):(.*)" 4 with
  | None => node
  | Some g =>
      let id := g 1 in let add := g 2 in let port := g 3 in
      let '(port, path) := match find_char "/" port 0 with Some pos => (take pos port, drop pos port) | None => (port, []) end in
      if bool_decide (port = "0"%str) then node
      else
        let net := getUrlArg addition "network" in
        let tls := (if bool_decide (getUrlArg addition "tls" = "true"%str) then "tls" else [])%str in
        let host := getUrlArg addition "ws.host" in
        vmessConstruct node V2RAY_DEFAULT_GROUP (remark_or remarks add port) add port [] id "0" net "auto" path host [] tls []
          (one_alpn (getUrlArg addition "alpn")) indeterminate indeterminate indeterminate indeterminate []
  end.

Definition stdvmess_matcher : str :=
  "^([a-z]+)(?:\+([a-z]+))?:([\da-f]{4}(?:[\da-f]{4}-){4}[\da-f]{12})-(\d+)@(.+):(\d+)(?:\/?\?(.*))?$".

(** src/src/parser/subparser.cpp:2803-2840 [explodeStdVMess, older notation] *)
Definition explodeOldStdVMess (vmess : str) (node : Node) : Node :=
  let '(vmess, remarks) := extractRemark (drop 8 vmess) [] in
  match groups vmess stdvmess_matcher 8 with
  | None => node
  | Some g =>
      let net := g 1 in let tls := g 2 in let id := g 3 in let aid := g 4 in let add := g 5 in let port := g 6 in
      let addition := g 7 in
      let parts :=
        if hash_is net "tcp" || hash_is net "kcp" then Some (getUrlArg addition "type", [], [])
        else if hash_is net "http" || hash_is net "ws" then Some ([], getUrlArg addition "host", getUrlArg addition "path")
        else if hash_is net "quic" then
          Some (getUrlArg addition "security", getUrlArg addition "type", getUrlArg addition "key")
        else None in
      match parts with
      | None => node
      | Some (type, host, path) =>
          vmessConstruct node V2RAY_DEFAULT_GROUP (remark_or remarks add port) add port type id aid net "auto" path host []
            tls [] (one_alpn (getUrlArg addition "alpn")) indeterminate indeterminate indeterminate indeterminate []
      end
  end.

(** src/src/parser/subparser.cpp:2779-2841 *)
Definition explodeStdVMess (vmess : str) (node : Node) : Node :=
  match parseShareUri vmess "vmess" with
  | Some parsed =>
      if isXrayUuid (user parsed) then
        let query := query parsed in
        match parseXrayTransport query node with
        | None => node
        | Some (node, t) =>
            let node :=
              vmessConstruct node V2RAY_DEFAULT_GROUP
                (remark_or (remark parsed) (ShareUri.host parsed) (ShareUri.port parsed)) (ShareUri.host parsed)
                (ShareUri.port parsed) (header_type t) (user parsed) "0" (network t)
                (orElse (decodedUrlArg query "encryption") "auto") (urlDecode (path t)) (host_ t) []
                (decodedUrlArg query "security") (decodedUrlArg query "sni") (getUrlAlpnList query)
                indeterminate indeterminate indeterminate indeterminate [] in
            { node with rest -> Fingerprint := decodedUrlArg query "fp"; rest -> AllowInsecure := getXrayAllowInsecure query;
              rest -> GRPCMode := mode t; rest -> PublicKey := decodedUrlArg query "pbk";
              rest -> ShortId := decodedUrlArg query "sid" }
        end
      else explodeOldStdVMess vmess node
  | None => explodeOldStdVMess vmess node
  end.

(** ** Quantumult *)

Record QuanItems := mkQuan { q_group : str; q_tls : str; q_host : str; q_path : str; q_edge : str; q_net : str }.

Definition unquote (s : str) : str := default s (replaceAllDistinct s ["034"%char] []).

(** src/src/parser/subparser.cpp:1968-1973 [explodeQuan, one header] *)
Definition quan_header (q : QuanItems) (x : str) : QuanItems :=
  if regFind x "(?i)Host: " then { q with q_host := drop 6 x }
  else if regFind x "(?i)Edge: " then { q with q_edge := drop 6 x }
  else q.

(** src/src/parser/subparser.cpp:1948-1981 [explodeQuan, one item] *)
Definition quan_item (q : QuanItems) (config : str) : QuanItems :=
  match default [] (split config "=") with
  | name :: value :: _ =>
      let itemName := trim name true true in
      let itemVal := trim value true true in
      if hash_is itemName "group" then { q with q_group := itemVal }
      else if hash_is itemName "over-tls" then
        { q with q_tls := (if bool_decide (itemVal = "true"%str) then "tls" else [])%str }
      else if hash_is itemName "tls-host" then { q with q_host := itemVal }
      else if hash_is itemName "obfs-path" then { q with q_path := unquote itemVal }
      else if hash_is itemName "obfs-header" then
        let headers := default [] (split (default [] (replaceAllDistinct (unquote itemVal) "[Rr][Nn]" "|")) "|") in
        foldl quan_header q headers
      else if hash_is itemName "obfs" then
        if bool_decide (itemVal = "ws"%str) then { q with q_net := "ws"%str } else q
      else q
  | _ => q
  end.

(** src/src/parser/subparser.cpp:1927-1989
    [configs[1]] is read whatever the number of fields. *)
Definition explodeQuan (quan : str) (node : Node) : option Node :=
  let configs := default [] (split (regReplace quan "(.*?) = (.*)" "$1,$2" true true) ",") in
  match configs with
  | name :: kind :: fields =>
      if negb (bool_decide (kind = "vmess"%str)) then Some node
      else
        match fields with
        | add :: port :: cipher :: id :: items =>
            let ps := trim name true true in
            let add := trim add true true in
            let port := trim port true true in
            if bool_decide (port = "0"%str) then Some node
            else
              let cipher := trim cipher true true in
              let id := trim (unquote id) true true in
              let q := foldl quan_item (mkQuan V2RAY_DEFAULT_GROUP [] [] [] [] "tcp") items in
              Some (vmessConstruct node (q_group q) ps add port "none" id "0" (q_net q) cipher (orElse (q_path q) "/")
                      (q_host q) (q_edge q) (q_tls q) [] [] indeterminate indeterminate indeterminate indeterminate [])
        | _ => Some node
        end
  | _ => None
  end.

(** ** VMess *)

(** src/src/parser/subparser.cpp:1149-1153 [explodeVmess, Xray options] *)
Definition vmess_options (json : Value) (node : Node) : Node :=
  foldl (fun node key =>
    match GetMember json key with
    | [] => node
    | value => { node with rest -> XrayLinkOptions ::= (fun l => l ++ [(key, value)]) }
    end) node ["authority"; "extra"; "fm"; "ech"; "pcs"; "vcn"]%str.

(** src/src/parser/subparser.cpp:1097-1148 [explodeVmess, JSON] *)
Definition vmess_json (json : Value) (node : Node) : Node :=
  let version := GetMember_into json "v" "1" in
  let ps := GetMember json "ps" in
  let add := GetMember json "add" in
  let port := GetMember json "port" in
  if bool_decide (port = "0"%str) then node
  else
    let type := GetMember json "type" in
    let net := GetMember json "net" in
    let cipher := orElse (orElse (GetMember json "scy") (GetMember json "encryption")) "auto" in
    let host := GetMember json "host" in
    let '(host, path) :=
      let version := to_int version 0 in
      if (version =? 1)%Z then
        match default [] (split host ";") with [h; p] => (h, p) | _ => (host, []) end
      else if (version =? 2)%Z then (host, GetMember json "path")
      else (host, []) in
    let add := trim add true true in
    let net := normalizeXrayTransport net in
    let alpn_list :=
      filter (fun item => item <> []) ((fun item => trim item true true) <$> default [] (split (GetMember json "alpn") ",")) in
    let node :=
      vmessConstruct node V2RAY_DEFAULT_GROUP ps add port type (GetMember json "id") (GetMember json "aid") net cipher path
        host [] (GetMember json "tls") (GetMember json "sni") alpn_list
        indeterminate indeterminate indeterminate indeterminate [] in
    let node := { node with rest -> Fingerprint := GetMember json "fp" } in
    let node :=
      if bool_decide (net = "grpc"%str) || bool_decide (net = "xhttp"%str) then { node with rest -> GRPCMode := type }
      else node in
    vmess_options json node.

(** src/src/parser/subparser.cpp:1071-1154 *)
Definition explodeVmess (vmess : str) (node : Node) : option Node :=
  if regMatch vmess "vmess://([A-Za-z0-9-_]+)\?(.*)" then Some (explodeShadowrocket vmess node)
  else if regMatch vmess "vmess://(.*?)@(.*)" then Some (explodeStdVMess vmess node)
  else if regMatch vmess "vmess1://(.*?)\?(.*)" then Some (explodeKitsunebi vmess node)
  else
    let vmess := urlSafeBase64Decode (regReplace vmess "(vmess|vmess1)://" [] true true) in
    if regMatch vmess "(.*?) = (.*)" then explodeQuan vmess node
    else
      match json_parse (c_str vmess) with
      | Some json => Some (if IsObject json then vmess_json json node else node)
      | None => Some node
      end.

End Vmess.
