(* ===== verification/JsonNodes.v ===== *)
(** * parser/subparser.cpp: nodes in JSON documents

    Netch links and the configurations of Netch, Shadowsocks, ShadowsocksR,
    SSD and SSTap.  A failed assertion of the JSON library throws; the nodes
    added before it stay. *)

From S2P Require Import Prelude Str StringUtil Codec Regexp NodeSelect Node ShareUri ShareParse JsonValue.
Open Scope nat_scope.

(** src/src/parser/subparser.h:8-20 [ConfType] *)
Inductive ConfType :=
  | CUnknow | CSS | CSSR | CV2Ray | CSSConf | CSSTap | CNetch | CSOCKS | CHTTP | CSUB | CLocal.
#[export] Instance ConfType_eq_dec : EqDecision ConfType.
Proof. solve_decision. Defined.

Section JsonNodes.
Context `{!Pcre, !JsonReader}.

(** ** Netch *)

(** src/src/parser/subparser.cpp:629-654 [normalizeWireGuardAllowedIPs, one network] *)
Definition allowed_network (network : str) : option str :=
  let network := trim network true true in
  if bool_decide (network = []) then None
  else
    let '(address, slash) := cut "/" network in
    let ipv4 := is_ipv4 address in
    let ipv6 := isIPv6 address in
    if negb ipv4 && negb ipv6 then None
    else
      match slash with
      | None => Some (network ++ (if ipv6 then "/128" else "/32"))
      | Some prefix =>
          if bool_decide (prefix = []) || negb (all_digits prefix) then None
          else
            let bits := to_int prefix (-1) in
            if (bits <? 0)%Z || ((if ipv6 then 128 else 32) <? bits)%Z then None else Some network
      end.

(** src/src/parser/subparser.cpp:627-657 *)
Definition normalizeWireGuardAllowedIPs (value : str) : str :=
  match mapM allowed_network (default [] (split value ",")) with Some networks => join networks ", " | None => [] end.

(** src/src/parser/subparser.cpp:1993-2001 *)
Fixpoint firstNetchMember (value : Value) (keys : list str) : str :=
  match keys with [] => [] | key :: keys => orElse (GetMember value key) (firstNetchMember value keys) end.

(** src/src/parser/subparser.cpp:2003-2014 *)
Definition normalizeNetchTLS (value : Value) (fallback : str) : str :=
  let tls := toLower (trim (firstNetchMember value ["TLSSecureType"; "TLSSecure"; "Security"]%str) true true) in
  if bool_decide (tls = []) then fallback
  else if bool_decide (tls = "true"%str \/ tls = "1"%str) then "tls"
  else if bool_decide (tls = "false"%str \/ tls = "0"%str) then "none"
  else tls.

(** A Shadowsocks node in the notation of ShadowsocksR. *)
Definition plain_ssr (method obfs protocol : str) : bool :=
  bool_decide (method ∈ ss_ciphers) && bool_decide (obfs = [] \/ obfs = "plain"%str) &&
  bool_decide (protocol = [] \/ protocol = "origin"%str).

(** src/src/parser/subparser.cpp:2071-2119 [parseNetchNode, vmess and vless] *)
Definition netch_xray (json : Value) (vmess : bool) (group remark address port method fingerprint : str)
    (udp tfo scv : tribool) (node : Node) : bool * Node :=
  let transport := normalizeXrayTransport (GetMember json "TransferProtocol") in
  let fake_type := GetMember json "FakeType" in
  let regular_host := GetMember json "Host" in
  let regular_path := GetMember json "Path" in
  let quic_security := GetMember json "QUICSecure" in
  let quic_secret := GetMember json "QUICSecret" in
  let quic := bool_decide (transport = "quic"%str) in
  let transport_host := if quic then quic_security else regular_host in
  let transport_path := if quic then quic_secret else regular_path in
  let tls := normalizeNetchTLS json "none" in
  let user_id := GetMember json "UserID" in
  let alter_id := GetMember json "AlterID" in
  let server_name := GetMember json "ServerName" in
  let packet_encoding := firstNetchMember json ["PacketEncoding"; "packetEncoding"]%str in
  let cipher := orElse method (if vmess then "auto" else "none")%str in
  if negb (isXrayUuid user_id) then (false, node)
  else
    let node :=
      if vmess then
        vmessConstruct node (orElse group V2RAY_DEFAULT_GROUP) remark address port fake_type user_id alter_id transport
          cipher transport_path transport_host (GetMember json "Edge") tls server_name [] udp tfo scv indeterminate []
      else
        vlessConstruct node (orElse group XRAY_DEFAULT_GROUP) remark address port fake_type user_id alter_id transport
          cipher (GetMember json "Flow") fake_type transport_path transport_host (GetMember json "Edge") tls [] []
          fingerprint server_name [] packet_encoding udp tfo scv indeterminate [] indeterminate [] in
    let node := { node with rest -> PacketEncoding := packet_encoding; rest -> Fingerprint := fingerprint } in
    (true,
      if bool_decide (transport = "grpc"%str) then
         { node with rest -> GRPCMode := orElse fake_type "gun"; rest -> GRPCServiceName := regular_path }
       else if quic then { node with rest -> QUICSecure := quic_security; rest -> QUICSecret := quic_secret }
       else node).

(** The first IPv4 and the first IPv6 address of a list of networks. *)
Definition own_addresses (addresses : list str) : str * str :=
  foldl (fun '(self_ip, self_ipv6) local_address =>
    let bare := (cut "/" local_address).1 in
    if bool_decide (self_ip = []) && is_ipv4 bare then (bare, self_ipv6)
    else if bool_decide (self_ipv6 = []) && isIPv6 bare then (self_ip, bare)
    else (self_ip, self_ipv6)) ([], []) addresses.

(** src/src/parser/subparser.cpp:2159-2187 [parseNetchNode, wireguard] *)
Definition netch_wireguard (json : Value) (group remark address port : str) (udp : tribool) (node : Node) : bool * Node :=
  let private_key := GetMember json "PrivateKey" in
  let public_key := GetMember json "PeerPublicKey" in
  let local_addresses := normalizeWireGuardAllowedIPs (GetMember json "LocalAddresses") in
  if bool_decide (private_key = []) || bool_decide (public_key = []) || bool_decide (local_addresses = []) ||
     negb (no_break [private_key; public_key]) then (false, node)
  else
    let addresses := (fun a => trim a true true) <$> default [] (split local_addresses ",") in
    let '(self_ip, self_ipv6) := own_addresses addresses in
    let node :=
      wireguardConstruct node (orElse group WG_DEFAULT_GROUP) remark address port self_ip self_ipv6 private_key public_key
        (GetMember json "PreSharedKey") [] (GetMember json "MTU") "0" [] [] udp [] in
    let node := syncLegacyWireGuardProjection { node with rest -> WireGuardLocalAddresses := addresses } in
    (negb (bool_decide (WireGuardPeers (rest node) = [])), node).

(** src/src/parser/subparser.cpp:2016-2196
    Whether the value is a node, and the node. *)
Definition parseNetchNode (json : Value) (node : Node) : bool * Node :=
  if negb (IsObject json) then (false, node)
  else
    let type := toLower (trim (GetMember json "Type") true true) in
    let group := GetMember json "Group" in
    let address := trim (GetMember json "Hostname") true true in
    let port := GetMember json "Port" in
    if bool_decide (type = []) || bool_decide (address = []) || has_crlf address || negb (validSharePort port) then (false, node)
    else
      let udp := tribool_of_str (GetMember json "EnableUDP") in
      let tfo := tribool_of_str (GetMember json "EnableTFO") in
      let scv := tribool_of_str (GetMember json "AllowInsecure") in
      let password := GetMember json "Password" in
      let method := GetMember json "EncryptMethod" in
      let fingerprint := firstNetchMember json ["FingerPrint"; "Fingerprint"]%str in
      let remark := remark_or (GetMember json "Remark") address port in
      let ss group :=
        ssConstruct node group remark address port password method (GetMember json "Plugin") (GetMember json "PluginOption")
          udp tfo scv indeterminate [] in
      if bool_decide (type = "ss"%str) then
        if bool_decide (method = []) || bool_decide (password = []) then (false, node) else (true, ss (orElse group SS_DEFAULT_GROUP))
      else if bool_decide (type = "ssr"%str) then
        let protocol := GetMember json "Protocol" in
        let obfs := GetMember json "OBFS" in
        if bool_decide (method = []) || bool_decide (password = []) then (false, node)
        else if plain_ssr method obfs protocol then (true, ss (orElse group SS_DEFAULT_GROUP))
        else if bool_decide (protocol = []) || bool_decide (obfs = []) then (false, node)
        else
          (true, ssrConstruct node (orElse group SSR_DEFAULT_GROUP) remark address port protocol method obfs password
                  (GetMember json "OBFSParam") (GetMember json "ProtocolParam") udp tfo scv [])
      else if bool_decide (type = "vmess"%str \/ type = "vless"%str) then
        netch_xray json (bool_decide (type = "vmess"%str)) group remark address port method fingerprint udp tfo scv node
      else if bool_decide (type = "socks"%str \/ type = "socks5"%str) then
        let version := GetMember json "Version" in
        if negb (bool_decide (version = [])) && negb (bool_decide (version = "5"%str)) then (false, node)
        else
          (true, socksConstruct node (orElse group SOCKS_DEFAULT_GROUP) remark address port (GetMember json "Username")
                  password udp tfo scv [])
      else if bool_decide (type = "http"%str \/ type = "https"%str) then
        (true, httpConstruct node (orElse group HTTP_DEFAULT_GROUP) remark address port (GetMember json "Username") password
                (bool_decide (type = "https"%str)) tfo scv indeterminate [])
      else if bool_decide (type = "trojan"%str) then
        if bool_decide (password = []) then (false, node)
        else
          let tls := normalizeNetchTLS json "tls" in
          let host := GetMember json "Host" in
          let server_name := orElse (GetMember json "ServerName") host in
          let node :=
            trojanConstruct node (orElse group TROJAN_DEFAULT_GROUP) remark address port password
              (GetMember json "TransferProtocol") host (GetMember json "Path") fingerprint server_name []
              (negb (bool_decide (tls = "none"%str))) udp tfo scv indeterminate [] in
          (true, { node with rest -> TLSStr := tls })
      else if bool_decide (type = "snell"%str) then
        if bool_decide (password = []) then (false, node)
        else
          (true, snellConstruct node (orElse group SNELL_DEFAULT_GROUP) remark address port password (GetMember json "OBFS")
                  (GetMember json "Host") [] (parseUint16Option (GetMember json "SnellVersion") 0 false) indeterminate
                  udp tfo scv [])
      else if bool_decide (type = "wireguard"%str) then netch_wireguard json group remark address port udp node
      else (false, node).

(** src/src/parser/subparser.cpp:2200-2211
    The answer of [parseNetchNode] is not looked at. *)
Definition explodeNetch (netch : str) (node : Node) : Node :=
  if negb (startsWith netch "Netch://") then node
  else
    match decodeStrictBase64 (drop 8 netch) with
    | None => node
    | Some decoded =>
        match json_parse (c_str decoded) with
        | None => node
        | Some json => (parseNetchNode json node).2
        end
    end.

(** ** Configurations *)

(** The nodes so far and whether the library threw. *)
Record Outcome := mkOutcome { nodes : list Node; thrown : bool }.

(** [node.Id = index] before a node is appended; the index counts the nodes. *)
Definition append_node (nodes : list Node) (node : Node) : list Node :=
  nodes ++ [{ node with Id := u32 (Z.of_nat (length nodes)) }].

Context (upSpeed downSpeed : Z).

(** [Proxy node;], with what its two uninitialised fields happen to hold. *)
Definition fresh : Node := newNode upSpeed downSpeed.

Definition has_all (v : Value) (names : list str) : bool := forallb (fun n => bool_decide (is_Some (FindMember v n))) names.
Definition elements (v : option Value) : option (list Value) := match v with Some (VArray l) => Some l | _ => None end.

(** src/src/parser/subparser.cpp:1443-1470 [explodeSSAndroid, one node] *)
Definition android_node (item : Value) : option Node :=
  let server := GetMember item "server" in
  if bool_decide (server = []) then None
  else
    let port := GetMember item "server_port" in
    if negb (validSharePort port) then None
    else
      let ps := remark_or (GetMember item "remarks") server port in
      let password := GetMember item "password" in
      let method := GetMember item "method" in
      let plugin := GetMember item "plugin" in
      let pluginopts := GetMember item "plugin_opts" in
      if bool_decide (password = []) || bool_decide (method = []) ||
         negb (no_break [server; ps; password; method; plugin; pluginopts]) then None
      else
        Some (ssConstruct fresh SS_DEFAULT_GROUP ps server port password method plugin pluginopts
                indeterminate indeterminate indeterminate indeterminate []).

Definition append_all_nodes (read : Value -> option Node) (items : list Value) (nodes : list Node) : list Node :=
  foldl (fun nodes item => match read item with Some node => append_node nodes node | None => nodes end) nodes items.

(** src/src/parser/subparser.cpp:1430-1472 *)
Definition explodeSSAndroid (ss : str) (nodes : list Node) : list Node :=
  match json_parse (c_str (["{"; "034"]%char ++ "nodes" ++ ["034"; ":"]%char ++ ss ++ "}")) with
  | Some json =>
      match elements (FindMember json "nodes") with
      | Some items => append_all_nodes android_node items nodes
      | None => nodes
      end
  | None => nodes
  end.

(** src/src/parser/subparser.cpp:1497-1525 [explodeSSConf, one server] *)
Definition ss_conf_node (group : str) (item : Value) : option Node :=
  if negb (IsObject item) then None
  else
    let server := GetMember item "server" in
    let port := GetMember item "server_port" in
    let password := GetMember item "password" in
    let method := GetMember item "method" in
    let ps := GetMember item "remarks" in
    if bool_decide (server = []) || negb (validSharePort port) || bool_decide (password = []) || bool_decide (method = []) ||
       negb (no_break [server; ps; password; method]) then None
    else
      let plugin := GetMember item "plugin" in
      let pluginopts := GetMember item "plugin_opts" in
      if negb (no_break [plugin; pluginopts]) then None
      else
        Some (ssConstruct fresh group (remark_or ps server port) server port password method plugin pluginopts
                indeterminate indeterminate indeterminate indeterminate []).

(** src/src/parser/subparser.cpp:1474-1526 *)
Definition explodeSSConf (content : str) (nodes : list Node) : list Node :=
  match json_parse (c_str content) with
  | None => nodes
  | Some json =>
      let server_list :=
        match json with
        | VArray l => Some l
        | VObject _ =>
            match elements (FindMember json "servers") with
            | Some l => Some l
            | None => elements (FindMember json "configs")
            end
        | _ => None
        end in
      let group := if IsObject json then GetMember_into json "remarks" SS_DEFAULT_GROUP else SS_DEFAULT_GROUP in
      match server_list with
      | Some items => if has_crlf group then nodes else append_all_nodes (ss_conf_node group) items nodes
      | None => nodes
      end
  end.

(** src/src/parser/subparser.cpp:1602-1643 [explodeSSRConf, one libev node] *)
Definition ssr_libev_node (json : Value) : option Node :=
  let server := GetMember json "server" in
  let port := GetMember json "server_port" in
  let password := GetMember json "password" in
  if bool_decide (server = []) || negb (validSharePort port) || bool_decide (password = []) then None
  else
    let remarks := server ++ ":" ++ port in
    let method := GetMember json "method" in
    let obfs := GetMember json "obfs" in
    let protocol := GetMember json "protocol" in
    if bool_decide (method = []) || negb (no_break [server; method; password; obfs; protocol]) then None
    else if plain_ssr method obfs protocol then
      let plugin := GetMember json "plugin" in
      let pluginopts := GetMember json "plugin_opts" in
      if negb (no_break [plugin; pluginopts]) then None
      else
        Some (ssConstruct fresh SS_DEFAULT_GROUP remarks server port password method plugin pluginopts
                indeterminate indeterminate indeterminate indeterminate [])
    else if bool_decide (protocol = []) || bool_decide (obfs = []) then None
    else
      let protoparam := GetMember json "protocol_param" in
      let obfsparam := GetMember json "obfs_param" in
      if negb (no_break [protoparam; obfsparam]) then None
      else
        Some (ssrConstruct fresh SSR_DEFAULT_GROUP remarks server port protocol method obfs password obfsparam protoparam
                indeterminate indeterminate indeterminate []).

(** src/src/parser/subparser.cpp:1647-1684 [explodeSSRConf, one server] *)
Definition ssr_conf_node (item : Value) : option Node :=
  if negb (IsObject item) then None
  else
    let group := orElse (GetMember item "group") SSR_DEFAULT_GROUP in
    let server := GetMember item "server" in
    let port := GetMember item "server_port" in
    if bool_decide (server = []) || negb (validSharePort port) then None
    else
      let remarks := remark_or (GetMember item "remarks") server port in
      let password := GetMember item "password" in
      let method := GetMember item "method" in
      let protocol := GetMember item "protocol" in
      let protoparam := GetMember item "protocolparam" in
      let obfs := GetMember item "obfs" in
      let obfsparam := GetMember item "obfsparam" in
      if bool_decide (password = []) || bool_decide (method = []) ||
         negb (no_break [server; group; remarks; password; method; protocol; protoparam; obfs; obfsparam]) then None
      else
        Some (ssrConstruct fresh group remarks server port protocol method obfs password obfsparam protoparam
                indeterminate indeterminate indeterminate []).

(** src/src/parser/subparser.cpp:1592-1685
    The single node keeps the identifier 0. *)
Definition explodeSSRConf (content : str) (nodes : list Node) : list Node :=
  match json_parse (c_str content) with
  | None => nodes
  | Some json =>
      if negb (IsObject json) then nodes
      else if has_all json ["local_port"; "local_address"]%str then
        match ssr_libev_node json with Some node => nodes ++ [node] | None => nodes end
      else
        match elements (FindMember json "configs") with
        | Some items => append_all_nodes ssr_conf_node items nodes
        | None => nodes
        end
  end.

(** src/src/parser/subparser.cpp:4856-4876 *)
Definition explodeNetchConf (netch : str) (nodes : list Node) : list Node :=
  match json_parse (c_str netch) with
  | None => nodes
  | Some json =>
      match elements (FindMember json "Server") with
      | Some items =>
          append_all_nodes (fun item => match parseNetchNode item fresh with (true, node) => Some node | _ => None end)
            items nodes
      | None => nodes
      end
  end.

(** ** SSD *)

(** The servers in the order they are visited: the elements of an array, or
    what is found for each name of an object.  A value is moved out when it is
    visited, so a second member of the same name finds null. *)
Fixpoint ssd_members (members : list (str * Value)) (seen : list str) (servers : Value) : list Value :=
  match members with
  | [] => []
  | (name, _) :: members =>
      (if bool_decide (c_str name ∈ seen) then VNull else default VNull (FindMember servers (c_str name)))
      :: ssd_members members (c_str name :: seen) servers
  end.

(** The variables that live across the loop. *)
Record SSDState := mkSSD { ssd_server : str; ssd_remarks : str; ssd_out : Outcome }.

(** src/src/parser/subparser.cpp:1391-1427 [explodeSSD, one server] *)
Definition ssd_step (jsondata : Value) (group : str) (s : SSDState) (singlenode : Value) : SSDState :=
  if thrown (ssd_out s) then s
  else
    match FindMember singlenode "server" with
    | None => { s with ssd_out -> thrown := true }
    | Some v =>
        let server := value_text v in
        let remarks := GetMember_into singlenode "remarks" (ssd_remarks s) in
        let port := GetMember_into singlenode "port" (GetMember jsondata "port") in
        let method := GetMember_into singlenode "encryption" (GetMember jsondata "encryption") in
        let password := GetMember_into singlenode "password" (GetMember jsondata "password") in
        let plugin := GetMember_into singlenode "plugin" (GetMember jsondata "plugin") in
        let pluginopts := GetMember_into singlenode "plugin_options" (GetMember jsondata "plugin_options") in
        let s := mkSSD server remarks (ssd_out s) in
        if bool_decide (port = "0"%str) then s
        else
          let node := ssConstruct fresh group remarks server port password method plugin pluginopts
            indeterminate indeterminate indeterminate indeterminate [] in
          { s with ssd_out -> nodes ::= (fun l => append_node l node) }
    end.

(** src/src/parser/subparser.cpp:1361-1428 *)
Definition explodeSSD (link : str) (nodes : list Node) : Outcome :=
  match json_parse (c_str (urlSafeBase64Decode (drop 6 link))) with
  | None => mkOutcome nodes false
  | Some jsondata =>
      let group := GetMember jsondata "airport" in
      let servers :=
        match FindMember jsondata "servers" with
        | Some (VArray l) => l
        | Some (VObject members) => ssd_members members [] (VObject members)
        | _ => []
        end in
      ssd_out (foldl (ssd_step jsondata group) (mkSSD [] [] (mkOutcome nodes false)) servers)
  end.

(** ** SSTap *)

(** src/src/parser/subparser.cpp:4812-4853 [explodeSSTap, one entry]
    A missing member throws. *)
Definition sstap_step (s : Outcome) (item : Value) : Outcome :=
  let text name k := match FindMember item name with Some v => k (value_text v) | None => { s with thrown := true } end in
  let push node := { s with nodes ::= (fun l => append_node l node) } in
  if thrown s then s
  else
    text "group"%str (fun group => text "remarks"%str (fun remarks => text "server"%str (fun server =>
    let port := GetMember item "server_port" in
    if bool_decide (port = "0"%str) then s
    else
      let remarks := remark_or remarks server port in
      text "password"%str (fun pass => text "type"%str (fun configType =>
      let kind := to_int configType 0 in
      if (kind =? 5)%Z then
        text "username"%str (fun user =>
        push (socksConstruct fresh group remarks server port user pass indeterminate indeterminate indeterminate []))
      else if (kind =? 6)%Z then
        text "protocol"%str (fun protocol => text "obfs"%str (fun obfs => text "method"%str (fun cipher =>
        if bool_decide (cipher ∈ ss_ciphers) && bool_decide (protocol = "origin"%str) && bool_decide (obfs = "plain"%str) then
          push (ssConstruct fresh group remarks server port pass cipher [] []
                  indeterminate indeterminate indeterminate indeterminate [])
        else
          text "obfsparam"%str (fun obfsparam => text "protocolparam"%str (fun protoparam =>
          push (ssrConstruct fresh group remarks server port protocol cipher obfs pass obfsparam protoparam
                  indeterminate indeterminate indeterminate []))))))
      else s))))).

(** src/src/parser/subparser.cpp:4800-4854 *)
Definition explodeSSTap (sstap : str) (nodes : list Node) : Outcome :=
  match json_parse (c_str sstap) with
  | None => mkOutcome nodes false
  | Some json =>
      if negb (IsObject json) then mkOutcome nodes false
      else
        match FindMember json "configs" with
        | Some (VArray items) => foldl sstap_step (mkOutcome nodes false) items
        | _ => mkOutcome nodes true
        end
  end.

(** ** Which configuration a text is *)

(** src/src/parser/subparser.cpp:4889-4893 [explodeConfContent, looks_like_ss_server] *)
Definition looks_like_ss_server (v : Value) : bool := has_all v ["server"; "server_port"; "method"; "password"]%str.

(** src/src/parser/subparser.cpp:4882-4918 [explodeConfContent, structured texts] *)
Definition structured_type (content : str) : ConfType * bool :=
  match content !! default (length content) (index_if (fun c => negb (isspace c)) content) with
  | Some c =>
      if is_char "[" c || is_char "{" c then
        match json_parse (c_str content) with
        | None => (CUnknow, false)
        | Some json =>
            let is_list name := bool_decide (is_Some (elements (FindMember json name))) in
            let type :=
              match json with
              | VArray l => if existsb looks_like_ss_server l then CSS else CUnknow
              | _ =>
                  match elements (FindMember json "Server") with
                  | Some l => if existsb (fun v => has_all v ["Type"; "Hostname"; "Port"]%str) l then CNetch else CUnknow
                  | None => CUnknow
                  end
              end in
            (type, is_list "outbounds"%str || is_list "endpoints"%str)
        end
      else (CUnknow, false)
  | None => (CUnknow, false)
  end.

Definition quoted (s : str) : str := "034"%char :: s ++ ["034"%char].

(** src/src/parser/subparser.cpp:4878-4936 [explodeConfContent, filetype] *)
Definition conf_type (content : str) : ConfType :=
  let '(filetype, looks_like_singbox) := structured_type content in
  let has s := strFind content s in
  if looks_like_singbox then filetype
  else if bool_decide (filetype = CUnknow) && has (quoted "version") then CSS
  else if has (quoted "serverSubscribes") then CSSR
  else if has (quoted "uiItem") || has "vnext"%str then CV2Ray
  else if has (quoted "proxy_apps") then CSSConf
  else if has (quoted "idInUse") then CSSTap
  else if has (quoted "local_address") && has (quoted "local_port") then CSSR
  else if has (quoted "ModeFileNameType") then CNetch
  else filetype.

End JsonNodes.
