(* ===== verification/Explode.v ===== *)
(** * parser/subparser.cpp: links of every kind

    The nodes of a mierus:// link, the choice of a parser by the scheme of a
    link, and the last stage of [explodeSub], which reads a subscription that
    is a list of links. *)

From S2P Require Import Prelude Str StringUtil Codec Regexp MieruUri RuleConvert NodeSelect NodeManip Node ShareUri.
From S2P Require Import ShareParse JsonValue VmessLinks JsonNodes.
Open Scope nat_scope.

Section Explode.
Context `{!Pcre, !JsonReader}.
Context (upSpeed downSpeed : Z).
Notation fresh := (fresh upSpeed downSpeed).

(** ** mierus:// links *)

(** src/src/parser/subparser.cpp:75-78
    The id and the counter after it. *)
Definition nextMieruSourceId (next_id : Z) : str * Z := (to_string next_id, u64 (next_id + 1)).

(** src/src/parser/subparser.cpp:2905-2924 [explodeMierusNodes, one binding] *)
Definition mieru_node (config : MieruSimpleConfig) (source_id : str) (binding_index : nat) (binding : MieruPortBinding) : Node :=
  let remark_base := orElse (MieruUri.remark config) (profile config) in
  let port := (if is_range binding then "0"%str else MieruUri.port binding) in
  let ports := if is_range binding then MieruUri.port binding else [] in
  let remark := remark_base ++ ":" ++ MieruUri.port binding ++ "/" ++ protocol binding in
  let node :=
    mieruConstruct fresh MIERU_DEFAULT_GROUP remark port (MieruUri.password config) (MieruUri.host config) ports
      (username config) (multiplexing config) (protocol binding) true_value indeterminate indeterminate indeterminate [] in
  { node with rest -> Mtu := mtu config; rest -> MieruProfile := profile config; rest -> MieruSourceId := source_id;
    rest -> MieruSourceRemark := MieruUri.remark config; rest -> MieruBindingIndex := u32 (Z.of_nat binding_index);
    rest -> MieruHasUnknownParameters := has_unknown_parameters config;
    rest -> MieruHandshakeMode := handshake_mode config; rest -> MieruTrafficPattern := traffic_pattern config }.

(** src/src/parser/subparser.cpp:2897-2926 *)
Definition explodeMierusNodes (mieru : str) (nodes : list Node) (next_id : Z) : list Node * Z :=
  match parseMieruSimpleUri mieru with
  | None => (nodes, next_id)
  | Some config =>
      let '(source_id, next_id) := nextMieruSourceId next_id in
      (nodes ++ imap (mieru_node config source_id) (port_bindings config), next_id)
  end.

(** src/src/parser/subparser.cpp:1906-1913 *)
Definition explodeMierus (mierus : str) (node : Node) (next_id : Z) : Node * Z :=
  if negb (startsWith mierus "mierus://") then (node, next_id)
  else
    match explodeMierusNodes mierus [] next_id with
    | ([parsed], next_id) => (parsed, next_id)
    | (_, next_id) => (node, next_id)
    end.

(** ** One link *)

(** src/src/parser/subparser.cpp:5858-5897
    The node and the counter of mierus:// sources; [None] when [explodeQuan]
    reads a field that is not there. *)
Definition explode (link : str) (node : Node) (next_id : Z) : option (Node * Z) :=
  let pure (node : Node) : option (Node * Z) := Some (node, next_id) in
  if startsWith link "ssr://" then pure (explodeSSR link node)
  else if startsWith link "vmess://" || startsWith link "vmess1://" then
    (fun node => (node, next_id)) <$> explodeVmess link node
  else if startsWith link "ss://" then pure (explodeSS link node)
  else if startsWith link "socks://" || startsWith link "https://t.me/socks" || startsWith link "tg://socks" then
    pure (explodeSocks link node)
  else if startsWith link "https://t.me/http" || startsWith link "tg://http" then pure (explodeHTTP link node)
  else if startsWith link "Netch://" then pure (explodeNetch link node)
  else if startsWith link "trojan://" || startsWith link "trojan-go://" then pure (explodeTrojan link node)
  else if strFind link "vless://" || strFind link "vless1://" then pure (explodeVless link node)
  else if strFind link "hysteria://" || strFind link "hy://" then pure (explodeHysteria link node)
  else if strFind link "tuic://" then pure (explodeTuic link node)
  else if strFind link "anytls://" then pure (explodeAnyTLS link node)
  else if startsWith link "naive+https://" || startsWith link "naive+quic://" then pure (explodeNaive link node)
  else if startsWith link "wireguard://" then pure (explodeWireGuard link node)
  else if startsWith link "hysteria2+realm://" || startsWith link "hysteria2+realm+http://" then
    pure (explodeHysteria2Realm link node)
  else if strFind link "hysteria2://" || strFind link "hy2://" then pure (explodeHysteria2 link node)
  else if startsWith link "mierus://" || startsWith link "mieru://" then Some (explodeMierus link node next_id)
  else if isLink link then pure (explodeHTTPSub link node)
  else pure node.

(** ** A list of links *)

(** src/src/parser/subparser.cpp:5957-5958 [explodeSub, delimiter] *)
Definition link_delimiter (sub : str) : ascii :=
  if existsb (is_char "010") sub then "010"%char else if existsb (is_char "013") sub then "013"%char else " "%char.

(** src/src/parser/subparser.cpp:5960-5962 [explodeSub, carriage return]
    A carriage return anywhere costs the last byte. *)
Definition strip_return (strLink : str) : str := if existsb (is_char "013") strLink then removelast strLink else strLink.

(** src/src/parser/subparser.cpp:5960-5974 [explodeSub, one link] *)
Definition link_step (state : option (list Node * Z)) (strLink : str) : option (list Node * Z) :=
  match state with
  | None => None
  | Some (nodes, next_id) =>
      let strLink := strip_return strLink in
      if startsWith strLink "mierus://" then Some (explodeMierusNodes strLink nodes next_id)
      else
        match explode strLink fresh next_id with
        | None => None
        | Some (node, next_id) =>
            if bool_decide (strLink = []) || bool_decide (Type_ node = Unknown) then Some (nodes, next_id)
            else Some (nodes ++ [node], next_id)
        end
  end.

(** src/src/parser/subparser.cpp:5956-5975 [explodeSub, links] *)
Definition explode_links (sub : str) (nodes : list Node) (next_id : Z) : option (list Node * Z) :=
  foldl link_step (Some (nodes, next_id)) (getlines (link_delimiter sub) sub).

End Explode.
