(* ===== verification/SharePrint.v ===== *)
(** * generator/config/subexport.cpp: share links

    The texts that the exporters of single links write for a node, the links
    of mierus:// sources, and the loop over the nodes with its statistics. *)

From S2P Require Import Prelude Str StringUtil Codec Regexp MieruUri NodeSelect NodeManip Node ShareUri SharePrinted ShareParse.
Open Scope nat_scope.

(** ** Parts of links *)

(** src/src/generator/config/subexport.cpp:503-508 *)
Definition xrayLinkOption (proxy : Node) (key : str) : str :=
  default [] (snd ∘ snd <$> list_find (fun item => item.1 = key) (XrayLinkOptions (rest proxy))).

(** src/src/generator/config/subexport.cpp:514-516 *)
Definition isShadowsocks2022Method (method : str) : bool := startsWith method "2022-".

(** src/src/generator/config/subexport.cpp:289-296 [isNumeric] *)
Definition isNumeric (s : str) : bool := all_digits s.

(** src/src/generator/config/subexport.cpp:298-320
    [std::stoll] throws beyond 64 bits, and the value is then refused too. *)
Definition parseMbpsValue (value : str) : option Z :=
  let value := trim value true true in
  let value :=
    if endsWith value " Mbps" then trim (take (length value - 5) value) true true
    else if endsWith value "Mbps" then trim (take (length value - 4) value) true true
    else value in
  if negb (isNumeric value) || bool_decide (value = []) then None
  else
    let parsed := digits_value 0 value in
    if (2 ^ 31 - 1 <? parsed)%Z then None else Some parsed.

(** A member of a list of query options. *)
Definition only_if (b : bool) (kv : str * str) : list (str * str) := if b then [kv] else [].

(** ** Shadowsocks *)

(** src/src/generator/config/subexport.cpp:521-526 [shadowsocksShareLink, userinfo] *)
Definition ss_userinfo (proxy : Node) : str :=
  if isShadowsocks2022Method (EncryptMethod (rest proxy)) then
    urlEncode (EncryptMethod (rest proxy)) ++ ":" ++ urlEncode (Password (rest proxy))
  else base64url (EncryptMethod (rest proxy) ++ ":" ++ Password (rest proxy)).

(** src/src/generator/config/subexport.cpp:528-536 [shadowsocksShareLink, query] *)
Definition ss_query (proxy : Node) (include_group : bool) : list str :=
  (match Plugin (rest proxy) with
   | [] => []
   | plugin =>
       ["plugin=" ++ urlEncode (match PluginOption (rest proxy) with [] => plugin | options => plugin ++ ";" ++ options end)]
   end) ++
  (if include_group && negb (bool_decide (Group proxy = [])) then ["group=" ++ base64url (Group proxy)] else []).

(** src/src/generator/config/subexport.cpp:518-546 *)
Definition shadowsocksShareLink (proxy : Node) (include_group include_remark : bool) : str :=
  "ss://" ++ ss_userinfo proxy ++ "@" ++ shareLinkHost (Hostname proxy) ++ ":" ++ to_string (Port proxy) ++
  (match ss_query proxy include_group with [] => [] | query => "/?" ++ join query "&" end) ++
  (if include_remark && negb (bool_decide (Remark proxy = [])) then "#" ++ urlEncode (Remark proxy) else []).

(** src/src/generator/config/subexport.cpp:548-559 *)
Definition shadowsocksRShareLink (proxy : Node) : str :=
  "ssr://" ++ base64url
    (shareLinkHost (Hostname proxy) ++ ":" ++ to_string (Port proxy) ++ ":" ++ Protocol (rest proxy) ++ ":" ++
     EncryptMethod (rest proxy) ++ ":" ++ OBFS (rest proxy) ++ ":" ++ base64url (Password (rest proxy)) ++
     "/?group=" ++ base64url (Group proxy) ++ "&remarks=" ++ base64url (Remark proxy) ++
     "&obfsparam=" ++ base64url (OBFSParam (rest proxy)) ++ "&protoparam=" ++ base64url (ProtocolParam (rest proxy))).

(** ** Hysteria and AnyTLS *)

(** src/src/generator/config/subexport.cpp:561-567 *)
Definition hysteria2PortSpec (proxy : Node) : str :=
  match Ports (rest proxy) with
  | [] => to_string (Port proxy)
  | ports => if Hysteria2PortsAreAdditional (rest proxy) then to_string (Port proxy) ++ "," ++ ports else ports
  end.

(** What [hysteriaShareLinkFields] fills. *)
Record HysteriaLink := mkHysteriaLink {
  hy_protocol : str; hy_alpn : str; hy_obfs_mode : str; hy_up_mbps : str; hy_down_mbps : str; hy_allow_insecure : bool
}.

(** src/src/generator/config/subexport.cpp:644-655 [hysteriaShareLinkFields, fields a link cannot carry] *)
Definition hysteria_unportable (f : Fields) : bool :=
  negb (bool_decide (Auth f = [])) || negb (bool_decide (Ports f = [])) ||
  negb (bool_decide (HysteriaHopInterval f = [])) || negb (bool_decide (TransferProtocol f = [])) ||
  negb (bool_decide (UnderlyingProxy f = [])) || negb (bool_decide (Fingerprint f = [])) ||
  negb (bool_decide (PublicKey f = [])) || negb (bool_decide (ShortId f = [])) || negb (is_undef (TCPFastOpen f)) ||
  negb (is_undef (UDP f)) || negb (is_undef (TLS13 f)).

(** src/src/generator/config/subexport.cpp:659-665 [hysteriaShareLinkFields, alpn] *)
Definition hysteria_alpn (f : Fields) : option str :=
  match AlpnList f with
  | [] => Some (Alpn f)
  | [front] => if bool_decide (Alpn f = []) || bool_decide (Alpn f = front) then Some front else None
  | _ => None
  end.

(** src/src/generator/config/subexport.cpp:667-671 [hysteriaShareLinkFields, obfs_mode] *)
Definition hysteria_obfs (f : Fields) : option str :=
  let obfs_mode := toLower (trim (OBFS f) true true) in
  if negb (bool_decide (obfs_mode = [])) && negb (bool_decide (obfs_mode = "xplus"%str)) then None
  else Some (if bool_decide (obfs_mode = []) && negb (bool_decide (OBFSParam f = [])) then "xplus"%str else obfs_mode).

(** src/src/generator/config/subexport.cpp:673-683 [hysteriaShareLinkFields, allow_insecure] *)
Definition hysteria_insecure (f : Fields) : option bool :=
  let insecure := toLower (trim (Insecure f) true true) in
  if negb (bool_decide (insecure ∈ [[]; "0"; "1"; "false"; "true"]%str)) then None
  else
    let insecure_text := bool_decide (insecure = "1"%str) || bool_decide (insecure = "true"%str) in
    let scv := AllowInsecure f in
    if negb (is_undef scv) && negb (bool_decide (tribool_get scv false = insecure_text)) && negb (bool_decide (insecure = []))
    then None
    else Some (insecure_text || (negb (is_undef scv) && tribool_get scv false)).

(** src/src/generator/config/subexport.cpp:634-685 *)
Definition hysteriaShareLinkFields (proxy : Node) : option HysteriaLink :=
  let f := rest proxy in
  let protocol := orElse (toLower (trim (FakeType f) true true)) "udp" in
  if negb (bool_decide (protocol ∈ ["udp"; "wechat-video"; "faketcp"]%str)) then None
  else
    match parseMbpsValue (UpMbps f), parseMbpsValue (DownMbps f) with
    | Some up, Some down =>
        if (up <=? 0)%Z || (down <=? 0)%Z || hysteria_unportable f then None
        else
          match hysteria_alpn f, hysteria_obfs f, hysteria_insecure f with
          | Some alpn, Some obfs_mode, Some allow_insecure =>
              Some (mkHysteriaLink protocol alpn obfs_mode (to_string up) (to_string down) allow_insecure)
          | _, _, _ => None
          end
    | _, _ => None
    end.

(** src/src/generator/config/subexport.cpp:687-708
    The server name and whether certificates may be insecure. *)
Definition anyTlsShareLinkFields (proxy : Node) : option (str * bool) :=
  let f := rest proxy in
  let empty s := bool_decide (s = []) in
  let sni := orElse (ServerName f) (SNI f) in
  if negb (empty (ServerName f)) && negb (empty (SNI f)) && negb (bool_decide (ServerName f = SNI f)) then None
  else
    let tls := toLower (trim (TLSStr f) true true) in
    if empty (Password f) || (negb (empty tls) && negb (bool_decide (tls = "tls"%str))) || negb (empty (PublicKey f)) ||
       negb (empty (ShortId f)) || negb (empty (Alpn f)) || negb (bool_decide (AlpnList f = [])) ||
       negb (empty (Fingerprint f)) || negb (IdleSessionCheckInterval f =? 30)%Z || negb (IdleSessionTimeout f =? 30)%Z ||
       negb (MinIdleSession f =? 0)%Z || negb (empty (UnderlyingProxy f)) || negb (is_undef (TCPFastOpen f)) ||
       negb (is_undef (UDP f)) || negb (is_undef (XUDP f)) || negb (is_undef (TLS13 f)) ||
       (negb (empty (Host f)) && negb (bool_decide (Host f = Hostname proxy)))
    then None
    else Some (sni, negb (is_undef (AllowInsecure f)) && tribool_get (AllowInsecure f) false).

(** ** The queries of the other links

    Each is the list of the arguments of [appendShareQuery], in order. *)

Definition flag (b : tribool) : bool := tribool_get b false.

(** src/src/generator/config/subexport.cpp:5357-5369 [proxyToSingleProfile, Hysteria 2 query] *)
Definition hysteria2_query (x : Node) : list (str * str) :=
  let f := rest x in
  [("insecure", if flag (AllowInsecure f) then "1" else "0"); ("obfs", OBFSParam f); ("obfs-password", OBFSPassword f);
   ("sni", ServerName f); ("pinSHA256", Fingerprint f); ("ech", Hysteria2ECH f);
   ("minPacketSize", Hysteria2GeckoMinPacketSize f); ("maxPacketSize", Hysteria2GeckoMaxPacketSize f)]%str ++
  only_if (negb (bool_decide (Hysteria2RealmUrl f = []))) ("auth"%str, Password f).

(** src/src/generator/config/subexport.cpp:5352-5385 [proxyToSingleProfile, Hysteria2] *)
Definition hysteria2ShareLink (x : Node) : str :=
  let f := rest x in
  let query := append_all (hysteria2_query x) in
  match Hysteria2RealmUrl f with
  | [] =>
      "hysteria2://" ++ (match Password f with [] => [] | password => urlEncode password ++ "@" end) ++
      shareLinkHost (Hostname x) ++ ":" ++ hysteria2PortSpec x ++ "/" ++ joinShareQuery query ++ "#" ++ urlEncode (Remark x)
  | realm_url =>
      let proxyStr := "hysteria2+" ++ realm_url in
      let query_string := joinShareQuery query in
      let proxyStr :=
        match query_string with
        | [] => proxyStr
        | _ => proxyStr ++ (if bool_decide (is_Some (find_char "?" proxyStr 0)) then "&" else "?") ++ drop 1 query_string
        end in
      proxyStr ++ "#" ++ urlEncode (Remark x)
  end.

(** src/src/generator/config/subexport.cpp:5397-5407 [proxyToSingleProfile, Hysteria query] *)
Definition hysteria_query (x : Node) (h : HysteriaLink) : list (str * str) :=
  [("protocol"%str, hy_protocol h); ("auth"%str, AuthStr (rest x)); ("peer"%str, ServerName (rest x))] ++
  only_if (hy_allow_insecure h) ("insecure", "1")%str ++
  [("upmbps"%str, hy_up_mbps h); ("downmbps"%str, hy_down_mbps h); ("alpn"%str, hy_alpn h);
   ("obfs"%str, hy_obfs_mode h); ("obfsParam"%str, OBFSParam (rest x))].

(** src/src/generator/config/subexport.cpp:5386-5411 [proxyToSingleProfile, Hysteria] *)
Definition hysteriaShareLink (x : Node) : option str :=
  match hysteriaShareLinkFields x with
  | None => None
  | Some h =>
      Some ("hysteria://" ++ shareLinkHost (Hostname x) ++ ":" ++ to_string (Port x) ++
            joinShareQuery (append_all (hysteria_query x h)) ++ "#" ++ urlEncode (Remark x))
  end.

(** src/src/generator/config/subexport.cpp:5412-5428 [proxyToSingleProfile, AnyTLS] *)
Definition anyTlsShareLink (x : Node) : option str :=
  match anyTlsShareLinkFields x with
  | None => None
  | Some (anytls_sni, allow_insecure) =>
      let query := ("sni"%str, anytls_sni) :: only_if allow_insecure ("insecure", "1")%str in
      Some ("anytls://" ++ urlEncode (Password (rest x)) ++ "@" ++ shareLinkHost (Hostname x) ++ ":" ++
            to_string (Port x) ++ "/" ++ joinShareQuery (append_all query) ++ "#" ++ urlEncode (Remark x))
  end.

(** The host and the path of a transport that carries HTTP. *)
Definition http_options (f : Fields) : list (str * str) := [("host"%str, Host f); ("path"%str, orElse (Path f) "/")].

(** src/src/generator/config/subexport.cpp:5471-5508 [proxyToSingleProfile, VLESS transport] *)
Definition vless_transport (x : Node) : list (str * str) :=
  let f := rest x in
  let transproto := TransferProtocol f in
  let header := ("headerType"%str, FakeType f) in
  if hash_is transproto "tcp" then header :: (if bool_decide (FakeType f = "http"%str) then http_options f else [])
  else if hash_is transproto "kcp" then [header; ("seed"%str, Path f)]
  else if hash_is transproto "ws" || hash_is transproto "http" || hash_is transproto "httpupgrade" then
    header :: http_options f
  else if hash_is transproto "grpc" then
    [("serviceName"%str, GRPCServiceName f); ("mode"%str, GRPCMode f); ("authority"%str, xrayLinkOption x "authority")]
  else if hash_is transproto "xhttp" then
    http_options f ++ [("mode"%str, GRPCMode f); ("extra"%str, xrayLinkOption x "extra")]
  else if hash_is transproto "quic" then
    [header; ("quicSecurity"%str, orElse (Host f) (ServerName f)); ("key"%str, QUICSecret f)]
  else [].

Definition link_options (x : Node) (keys : list str) : list (str * str) := (fun key => (key, xrayLinkOption x key)) <$> keys.

(** src/src/generator/config/subexport.cpp:5455-5510 [proxyToSingleProfile, VLESS query] *)
Definition vless_query (x : Node) : list (str * str) :=
  let f := rest x in
  [("encryption"%str, orElse (Encryption f) "none");
   ("security"%str, if negb (bool_decide (PublicKey f = [])) then "reality"%str else TLSStr f); ("flow"%str, Flow f);
   ("pbk"%str, PublicKey f); ("sid"%str, ShortId f); ("fp"%str, Fingerprint f); ("packet-encoding"%str, PacketEncoding f)] ++
  only_if (flag (AllowInsecure f)) ("insecure", "1")%str ++
  only_if (negb (bool_decide (AlpnList f = []))) ("alpn"%str, join (AlpnList f) ",") ++
  [("sni"%str, ServerName f); ("type"%str, TransferProtocol f)] ++ vless_transport x ++
  link_options x ["fm"; "ech"; "pcs"; "vcn"; "pqv"; "spx"]%str.

(** src/src/generator/config/subexport.cpp:5451-5516 [proxyToSingleProfile, VLESS] *)
Definition vlessShareLink (x : Node) : str :=
  "vless://" ++ orElse (UserId (rest x)) no_uuid ++ "@" ++ shareLinkHost (Hostname x) ++ ":" ++ to_string (Port x) ++
  joinShareQuery (append_all (vless_query x)) ++ "#" ++ urlEncode (Remark x).

(** src/src/generator/config/subexport.cpp:5534-5560 [proxyToSingleProfile, Trojan transport] *)
Definition trojan_transport (x : Node) : list (str * str) :=
  let f := rest x in
  let named name := bool_decide (TransferProtocol f = name) in
  let header := ("headerType"%str, FakeType f) in
  if named "tcp"%str then header :: (if bool_decide (FakeType f = "http"%str) then http_options f else [])
  else if named "kcp"%str then [header; ("seed"%str, Path f)]
  else if named "ws"%str || named "http"%str || named "httpupgrade"%str then http_options f
  else if named "grpc"%str then
    [("serviceName"%str, Path f); ("mode"%str, GRPCMode f); ("authority"%str, xrayLinkOption x "authority")]
  else if named "xhttp"%str then http_options f ++ [("mode"%str, GRPCMode f); ("extra"%str, xrayLinkOption x "extra")]
  else if named "quic"%str then [header; ("quicSecurity"%str, Host f); ("key"%str, Path f)]
  else [].

(** src/src/generator/config/subexport.cpp:5521-5562 [proxyToSingleProfile, Trojan query] *)
Definition trojan_query (x : Node) : list (str * str) :=
  let f := rest x in
  [("security"%str, orElse (TLSStr f) "tls"); ("allowInsecure"%str, if flag (AllowInsecure f) then "1" else "0")]%str ++
  only_if (flag (AllowInsecure f)) ("insecure", "1")%str ++
  [("sni"%str, orElse (ServerName f) (Host f)); ("fp"%str, Fingerprint f); ("pbk"%str, PublicKey f);
   ("sid"%str, ShortId f)] ++
  only_if (negb (bool_decide (AlpnList f = []))) ("alpn"%str, join (AlpnList f) ",") ++
  [("type"%str, TransferProtocol f)] ++ trojan_transport x ++ link_options x ["fm"; "ech"; "pcs"; "vcn"]%str.

(** src/src/generator/config/subexport.cpp:5517-5567 [proxyToSingleProfile, Trojan] *)
Definition trojanShareLink (x : Node) : str :=
  "trojan://" ++ urlEncode (Password (rest x)) ++ "@" ++ shareLinkHost (Hostname x) ++ ":" ++ to_string (Port x) ++
  joinShareQuery (append_all (trojan_query x)) ++ "#" ++ urlEncode (Remark x).

(** ** VMess *)

(** The JSON writer applied to an object whose members are texts. *)
Class JsonWriter := json_write : list (str * str) -> str.

(** src/src/generator/config/subexport.cpp:714-782 [vmessLinkConstruct, members] *)
Definition vmess_members (proxy : Node) : list (str * str) :=
  let f := rest proxy in
  let net := TransferProtocol f in
  let grpc := bool_decide (net = "grpc"%str) in
  let quic := bool_decide (net = "quic"%str) in
  let unless_empty key value := only_if (negb (bool_decide (value = []))) (key, value) in
  [("v", "2")]%str ++
  [("ps"%str, Remark proxy); ("add"%str, Hostname proxy); ("port"%str, to_string (Port proxy));
   ("type"%str, orElse (if grpc || bool_decide (net = "xhttp"%str) then GRPCMode f else FakeType f) "none");
   ("id"%str, UserId f); ("aid"%str, to_string (AlterId f)); ("scy"%str, orElse (EncryptMethod f) "auto");
   ("net"%str, orElse net "tcp");
   ("path"%str, if quic then QUICSecret f
                else if grpc && negb (bool_decide (GRPCServiceName f = [])) then GRPCServiceName f else Path f);
   ("host"%str, if quic then QUICSecure f else Host f);
   ("tls"%str, if TLSSecure f then orElse (TLSStr f) "tls" else [])] ++
  unless_empty "sni"%str (ServerName f) ++
  only_if (negb (bool_decide (AlpnList f = []))) ("alpn"%str, join (AlpnList f) ",") ++
  unless_empty "fp"%str (Fingerprint f) ++ unless_empty "pbk"%str (PublicKey f) ++ unless_empty "sid"%str (ShortId f) ++
  filter (fun kv => kv.2 <> []) (link_options proxy ["authority"; "extra"; "fm"]%str).

Section Write.
Context `{!JsonWriter}.

(** src/src/generator/config/subexport.cpp:709-785
    The writer is given C strings. *)
Definition vmessLinkConstruct (proxy : Node) : str := json_write (prod_map id c_str <$> vmess_members proxy).

(** ** mierus:// sources *)

(** src/src/generator/config/subexport.cpp:5176-5178 *)
Definition mieruBindingSpec (node : Node) : str := orElse (Ports (rest node)) (to_string (Port node)).

(** src/src/generator/config/subexport.cpp:5180-5195 *)
Definition shadowrocketMieruNodeIsPortable (node : Node) : bool :=
  let f := rest node in
  let empty s := bool_decide (s = []) in
  if negb (bool_decide (Type_ node = Mieru)) || empty (MieruSourceId f) || empty (MieruProfile f) ||
     MieruHasUnknownParameters f || empty (Username f) || empty (Password f) || empty (Hostname node) ||
     negb (empty (UnderlyingProxy f)) || flag (TCPFastOpen f) || flag (AllowInsecure f) || flag (TLS13 f) ||
     flag (XUDP f) || negb (flag (UDP f)) || (negb (Mtu f =? 0) && ((Mtu f <? 1280) || (1400 <? Mtu f)))%Z ||
     negb (isValidMieruMultiplexing (Multiplexing f)) || negb (isValidMieruHandshakeMode (MieruHandshakeMode f)) ||
     negb (isValidMieruTrafficPattern (MieruTrafficPattern f))
  then false
  else bool_decide (is_Some (parseMieruPortBinding (mieruBindingSpec node) (TransferProtocol f))).

(** src/src/generator/config/subexport.cpp:5197-5208 *)
Definition sameMieruResource (left_ right_ : Node) : bool :=
  let l := rest left_ in
  let r := rest right_ in
  bool_decide (Username l = Username r) && bool_decide (Password l = Password r) &&
  bool_decide (Hostname left_ = Hostname right_) && bool_decide (Mtu l = Mtu r) &&
  bool_decide (Multiplexing l = Multiplexing r) && bool_decide (MieruProfile l = MieruProfile r) &&
  bool_decide (MieruSourceRemark l = MieruSourceRemark r) &&
  bool_decide (MieruHasUnknownParameters l = MieruHasUnknownParameters r) &&
  bool_decide (MieruHandshakeMode l = MieruHandshakeMode r) && bool_decide (MieruTrafficPattern l = MieruTrafficPattern r).

(** src/src/generator/config/subexport.cpp:5250-5254 [buildShadowrocketMieruGroup, member_remark] *)
Definition member_remark (member : Node) (binding : MieruPortBinding) : str :=
  let suffix := ":" ++ MieruUri.port binding ++ "/" ++ protocol binding in
  let remark := Remark member in
  if endsWith remark suffix then take (length remark - length suffix) remark else remark.

(** src/src/generator/config/subexport.cpp:5233-5262 [buildShadowrocketMieruGroup, one member]
    The bindings so far, the previous index and the remark of all members. *)
Definition member_step (first : Node) (state : option (list MieruPortBinding * option Z * option str)) (member : Node) :
    option (list MieruPortBinding * option Z * option str) :=
  match state with
  | None => None
  | Some (bindings, previous_index, effective_remark) =>
      if negb (shadowrocketMieruNodeIsPortable member) || negb (sameMieruResource first member) ||
         bool_decide (previous_index = Some (MieruBindingIndex (rest member))) then None
      else
        match parseMieruPortBinding (mieruBindingSpec member) (TransferProtocol (rest member)) with
        | None => None
        | Some binding =>
            let remark := member_remark member binding in
            if bool_decide (is_Some effective_remark) && negb (bool_decide (effective_remark = Some remark)) then None
            else Some (bindings ++ [binding], Some (MieruBindingIndex (rest member)), Some remark)
        end
  end.

(** src/src/generator/config/subexport.cpp:5210-5271
    Members with the same index are refused, so how [std::sort] orders equal
    elements does not matter. *)
Definition buildShadowrocketMieruGroup (members : list Node) : option str :=
  match stable_sort (fun l r => MieruBindingIndex (rest l) <? MieruBindingIndex (rest r))%Z members with
  | [] => None
  | (first :: _) as members =>
      if negb (shadowrocketMieruNodeIsPortable first) then None
      else
        match foldl (member_step first) (Some ([], None, None)) members with
        | None => None
        | Some (bindings, _, effective_remark) =>
            let f := rest first in
            let effective_remark := default [] effective_remark in
            let source_base := orElse (MieruSourceRemark f) (MieruProfile f) in
            buildMieruSimpleUri
              {| username := Username f; MieruUri.password := Password f; MieruUri.host := Hostname first;
                 profile := MieruProfile f; multiplexing := Multiplexing f; handshake_mode := MieruHandshakeMode f;
                 traffic_pattern := MieruTrafficPattern f;
                 MieruUri.remark := (if bool_decide (effective_remark = source_base) then MieruSourceRemark f else effective_remark);
                 mtu := Mtu f; has_unknown_parameters := MieruHasUnknownParameters f; port_bindings := bindings |}
        end
  end.

(** ** The loop over the nodes *)

(** src/src/generator/config/subexport.cpp:5140-5150 [SingleLinkProfile] *)
Record SingleLinkProfile := mkProfile {
  for_shadowsocks : bool; for_shadowsocksr : bool; for_vmess : bool; for_trojan : bool; for_hysteria2 : bool;
  for_vless : bool; for_shadowrocket : bool
}.

(** src/src/generator/config/subexport.cpp:5152-5162 *)
Definition legacySingleLinkProfile (types : Z) : SingleLinkProfile :=
  mkProfile (Z.testbit types 0) (Z.testbit types 1) (Z.testbit types 2) (Z.testbit types 3) (Z.testbit types 4)
    (Z.testbit types 5) false.

(** src/src/generator/config/subexport.cpp:5164-5166 *)
Definition kShadowrocketSingleLinkProfile : SingleLinkProfile := mkProfile true true true true true true true.

(** src/src/generator/config/subexport.h:89-102 [TargetGenerationStats] *)
Record TargetGenerationStats := mkStats {
  input_nodes : nat; emitted_nodes : nat; unsupported_by_type : list (ProxyType * nat)
}.

(** [unsupported_by_type[type]++] *)
Fixpoint count_type (type : ProxyType) (l : list (ProxyType * nat)) : list (ProxyType * nat) :=
  match l with
  | [] => [(type, 1)]
  | (t, n) :: l => if bool_decide (t = type) then (t, S n) :: l else (t, n) :: count_type type l
  end.

(** src/src/generator/config/subexport.h:95-102 *)
Definition unsupported_nodes (stats : TargetGenerationStats) : nat := sum_list (unsupported_by_type stats).*2.

(** src/src/generator/config/subexport.cpp:65-70 [~TargetNodeGenerationTracker] *)
Definition track (stats : TargetGenerationStats) (type : ProxyType) (emitted : bool) : TargetGenerationStats :=
  if emitted then mkStats (input_nodes stats) (S (emitted_nodes stats)) (unsupported_by_type stats)
  else mkStats (input_nodes stats) (emitted_nodes stats) (count_type type (unsupported_by_type stats)).

(** src/src/generator/config/subexport.cpp:5168-5174 [ShadowrocketMieruGroup]
    [built] is whether [built_link] is there; it holds the link of a valid group. *)
Record ShadowrocketMieruGroup := mkGroup { members : list Node; built_link : option (option str); written : bool }.

(** src/src/generator/config/subexport.cpp:5288-5293 [proxyToSingleProfile, mieru_groups] *)
Definition mieru_groups (shadowrocket : bool) (nodes : list Node) : gmap str ShadowrocketMieruGroup :=
  if shadowrocket then
    foldl (fun groups node =>
      let id := MieruSourceId (rest node) in
      if bool_decide (Type_ node = Mieru) && negb (bool_decide (id = [])) then
        let group := default (mkGroup [] None false) (groups !! id) in
        <[id := mkGroup (members group ++ [node]) (built_link group) (written group)]> groups
      else groups) ∅ nodes
  else ∅.

(** src/src/generator/config/subexport.cpp:5313-5329 [proxyToSingleProfile, Shadowsocks] *)
Definition ss_case (profile : SingleLinkProfile) (x : Node) : option str :=
  if for_shadowsocks profile then Some (shadowsocksShareLink x false true)
  else if for_shadowsocksr profile then
    if bool_decide (EncryptMethod (rest x) ∈ ssr_ciphers) && bool_decide (Plugin (rest x) = [])
    then Some (shadowsocksRShareLink { x with rest -> Protocol := "origin"%str; rest -> OBFS := "plain"%str })
    else None
  else None.

(** src/src/generator/config/subexport.cpp:5330-5346 [proxyToSingleProfile, ShadowsocksR] *)
Definition ssr_case (profile : SingleLinkProfile) (x : Node) : option str :=
  if for_shadowsocksr profile then Some (shadowsocksRShareLink x)
  else if for_shadowsocks profile then
    if bool_decide (EncryptMethod (rest x) ∈ ss_ciphers) && bool_decide (Protocol (rest x) = "origin"%str) &&
       bool_decide (OBFS (rest x) = "plain"%str)
    then Some (shadowsocksShareLink { x with rest -> Plugin := []; rest -> PluginOption := [] } false true)
    else None
  else None.

(** src/src/generator/config/subexport.cpp:5312-5570 [proxyToSingleProfile, switch]
    The link of a node that is not of a mierus:// source. *)
Definition single_link (profile : SingleLinkProfile) (x : Node) : option str :=
  let when (b : bool) (link : str) := if b then Some link else None in
  match Type_ x with
  | Shadowsocks => ss_case profile x
  | ShadowsocksR => ssr_case profile x
  | VMess => when (for_vmess profile) ("vmess://" ++ base64Encode (vmessLinkConstruct x))
  | Hysteria2 => when (for_hysteria2 profile) (hysteria2ShareLink x)
  | Hysteria => if for_shadowrocket profile then hysteriaShareLink x else None
  | AnyTLS => if for_shadowrocket profile then anyTlsShareLink x else None
  | VLESS => when (for_vless profile) (vlessShareLink x)
  | Trojan => when (for_trojan profile) (trojanShareLink x)
  | _ => None
  end.

(** The text so far, the groups and the statistics. *)
Record Links := mkLinks {
  allLinks : str; groups : gmap str ShadowrocketMieruGroup; stats : TargetGenerationStats
}.

Definition skip (st : Links) (x : Node) (emitted : bool) : Links :=
  mkLinks (allLinks st) (groups st) (track (stats st) (Type_ x) emitted).
Definition write (st : Links) (x : Node) (link : str) : Links :=
  mkLinks (allLinks st ++ link ++ ["010"%char]) (groups st) (track (stats st) (Type_ x) true).

(** src/src/generator/config/subexport.cpp:5429-5450 [proxyToSingleProfile, Mieru] *)
Definition mieru_case (shadowrocket : bool) (st : Links) (x : Node) : Links :=
  let id := MieruSourceId (rest x) in
  if negb shadowrocket || bool_decide (id = []) then skip st x false
  else
    match groups st !! id with
    | None => skip st x false
    | Some group =>
        let link := match built_link group with Some link => link | None => buildShadowrocketMieruGroup (members group) end in
        let st' := mkLinks (allLinks st) (<[id := mkGroup (members group) (Some link) (written group)]> (groups st)) (stats st) in
        match link with
        | None => skip st' x false
        | Some text =>
            if written group then skip st' x true
            else write (mkLinks (allLinks st) (<[id := mkGroup (members group) (Some link) true]> (groups st)) (stats st)) x text
        end
    end.

(** src/src/generator/config/subexport.cpp:5295-5573 [proxyToSingleProfile, one node] *)
Definition single_step (profile : SingleLinkProfile) (st : Links) (x : Node) : Links :=
  if bool_decide (Type_ x = Mieru) then mieru_case (for_shadowrocket profile) st x
  else match single_link profile x with Some link => write st x link | None => skip st x false end.

(** src/src/generator/config/subexport.cpp:5273-5578 *)
Definition proxyToSingleProfile (nodes : list Node) (profile : SingleLinkProfile) (nodelist : bool) :
    str * TargetGenerationStats :=
  let st :=
    foldl (single_step profile)
      (mkLinks [] (mieru_groups (for_shadowrocket profile) nodes) (mkStats (length nodes) 0 [])) nodes in
  (if nodelist then allLinks st else base64Encode (allLinks st), stats st).

(** src/src/generator/config/subexport.cpp:5582-5586 *)
Definition proxyToSingle (nodes : list Node) (types : Z) (nodelist : bool) : str * TargetGenerationStats :=
  proxyToSingleProfile nodes (legacySingleLinkProfile types) nodelist.

(** src/src/generator/config/subexport.cpp:5588-5591 *)
Definition proxyToShadowrocket (nodes : list Node) (nodelist : bool) : str * TargetGenerationStats :=
  proxyToSingleProfile nodes kShadowrocketSingleLinkProfile nodelist.

End Write.
