(* ===== verification/ShareRoundtrip.v ===== *)
(** * Share links: reading what the exporters write

    For each kind of link, the node that its parser makes of the text that the
    exporter wrote for a node.  A link carries only some of the fields, so the
    result is an image of the node, with the other fields as in a new node. *)

From S2P Require Import Prelude Str StringUtil Codec Regexp NodeSelect Node ShareUri SharePrinted ShareParse SharePrint.
Open Scope nat_scope.

(** ** Shared lemmas *)

Lemma cut_app c a b : c ∉ a -> cut c (a ++ c :: b) = (a, Some b).
Proof.
  intros Ha. unfold cut. rewrite find_char_app by done. rewrite take_app_length, drop_app_ge by lia.
  by replace (length a + 1 - length a) with 1 by lia.
Qed.

Lemma cut_none c a : c ∉ a -> cut c a = (a, None).
Proof. intros Ha. unfold cut. by rewrite (proj2 (find_char_None _ _) Ha). Qed.

Lemma userinfo_app a b : clean a -> decodeShareUriUserInfo (urlEncode a ++ b) = a ++ decodeShareUriUserInfo b.
Proof.
  intros Hs. induction a as [|c s IH]; [done|]. apply clean_cons in Hs as [Hc Hs]. cbn [urlEncode].
  destruct (unreserved c) eqn:Hu.
  - destruct (unreserved_plain c Hu) as (H1 & H2 & H3). cbn [decodeShareUriUserInfo app]. unfold is_char.
    rewrite bool_decide_eq_false_2 by done. unfold push_unless_crlf. by rewrite H3, IH.
  - pose proof (hex_value c) as Hx. unfold hex_value_ok in Hx. cbn [decodeShareUriUserInfo app]. unfold is_char.
    rewrite bool_decide_true by done. destruct (shareUriHexValue (toHex (Z.shiftr _ _))); [|done].
    destruct (shareUriHexValue (toHex (code c mod 16))); [|done]. apply bool_decide_eq_true in Hx. rewrite Hx.
    unfold push_unless_crlf. by rewrite Hc, IH.
Qed.

Lemma clean_app a b : clean (a ++ b) <-> clean a /\ clean b.
Proof. unfold clean, has_crlf. rewrite existsb_app, orb_false_iff. done. Qed.

Lemma no_break_clean l : Forall clean l -> no_break l = true.
Proof. induction 1 as [|s l Hs Hl IH]; [done|]. simpl. unfold clean in Hs. by rewrite Hs. Qed.

Lemma removeBrackets_host h : host_ok h = true -> removeBrackets h = h.
Proof.
  intros (_ & _ & _ & _ & _ & _ & Hl & _)%host_ok_facts. unfold removeBrackets. by rewrite (proj2 (find_char_None _ _) Hl).
Qed.

Lemma u16_port p : port_ok p -> u16 (to_int (to_string p) 0) = p.
Proof. intros Hp. destruct (port_text p Hp) as (_ & _ & -> & _). unfold port_ok in Hp. apply Z.mod_small. lia. Qed.

(** The common part of a node that a link gives back. *)
Lemma commonConstruct_print node type group remarks h p udp tfo scv tls13 up :
  host_ok h = true -> port_ok p ->
  commonConstruct node type group remarks h (to_string p) udp tfo scv tls13 up =
  { node with Type_ := type; Group := group; Remark := remarks; Hostname := h; Port := p; rest -> UDP := udp;
    rest -> TCPFastOpen := tfo; rest -> AllowInsecure := scv; rest -> TLS13 := tls13; rest -> UnderlyingProxy := up }.
Proof. intros Hh Hp. unfold commonConstruct. by rewrite removeBrackets_host, u16_port. Qed.

(** ** Shadowsocks *)

(** What an ss:// link can carry. *)
Record ss_ok (x : Node) : Prop := {
  ss_host : host_ok (Hostname x) = true;
  ss_port : port_ok (Port x);
  ss_method : EncryptMethod (rest x) <> [] /\ ":"%char ∉ EncryptMethod (rest x);
  ss_password : Password (rest x) <> [];
  ss_size : small (EncryptMethod (rest x) ++ ":" ++ Password (rest x)) /\ small (Group x);
  ss_texts : Forall clean [EncryptMethod (rest x); Password (rest x); Remark x; Group x;
                           Plugin (rest x); PluginOption (rest x)];
  ss_plugin : ";"%char ∉ Plugin (rest x) /\ (Plugin (rest x) = [] -> PluginOption (rest x) = [])
}.

(** The node that an ss:// link gives. *)
Definition ss_image (upSpeed downSpeed : Z) (x : Node) (include_group include_remark : bool) : Node :=
  { newNode upSpeed downSpeed with Type_ := Shadowsocks;
    Group := (if include_group then orElse (Group x) SS_DEFAULT_GROUP else SS_DEFAULT_GROUP);
    Remark := remark_or (if include_remark then Remark x else []) (Hostname x) (to_string (Port x));
    Hostname := Hostname x; Port := Port x; rest -> Password := Password (rest x);
    rest -> EncryptMethod := EncryptMethod (rest x); rest -> Plugin := Plugin (rest x);
    rest -> PluginOption := PluginOption (rest x) }.

Lemma base64url_free s c : small s -> urlsafe_byte c = false -> c ∉ base64url s.
Proof.
  intros Hs Hc Hin. unfold base64url in Hin. destruct (urlSafe_text s Hs) as (e & He & _ & Hb & _). rewrite He in Hin.
  simpl in Hin. rewrite Forall_forall in Hb. apply Hb in Hin. congruence.
Qed.

Lemma urlEncode_free_of s l c : one_of l c = true -> forallb (fun c => negb (unreserved c || is_char "%" c)) l = true ->
  c ∉ urlEncode s.
Proof.
  intros Hc Hl. apply urlEncode_free. rewrite forallb_forall in Hl. unfold one_of in Hc. apply bool_decide_eq_true in Hc.
  apply list_elem_of_In, Hl in Hc. by apply negb_true_iff in Hc.
Qed.

Section Shadowsocks.
Context (x : Node).
Hypothesis ok : ss_ok x.

(** The user information, without the bytes that separate the parts. *)
Lemma ss_userinfo_free c : one_of "#?@/" c = true -> c ∉ ss_userinfo x.
Proof.
  intros Hc. destruct ok. unfold ss_userinfo. case_match.
  - rewrite !elem_of_app. intros [Hin|[Hin|Hin]].
    + by apply (urlEncode_free_of _ "#?@/") in Hin.
    + apply list_elem_of_singleton in Hin as ->. done.
    + by apply (urlEncode_free_of _ "#?@/") in Hin.
  - apply base64url_free; [tauto|]. unfold one_of in Hc. apply bool_decide_eq_true in Hc.
    repeat (apply elem_of_cons in Hc as [->|Hc]; [done|]). by apply not_elem_of_nil in Hc.
Qed.

Lemma ss_userinfo_read : parseUserPassword (ss_userinfo x) true = Some (EncryptMethod (rest x), Password (rest x)).
Proof.
  destruct ok as [? ? [Hm Hcol] Hp [Hsm _] Htx _].
  set (m := EncryptMethod (rest x)) in *. set (p := Password (rest x)) in *.
  assert (Hcm : clean m /\ clean p) by (do 2 (apply Forall_cons in Htx as [? Htx]); done). destruct Hcm as [Hcm Hcp].
  assert (Hread : (if true && bool_decide (is_Some (find_char ":" (ss_userinfo x) 0))
    then Some (decodeShareUriUserInfo (ss_userinfo x)) else decodeStrictBase64 (ss_userinfo x)) = Some (m ++ ":"%char :: p)).
  { unfold ss_userinfo. fold m p. destruct (isShadowsocks2022Method m).
    - rewrite (bool_decide_true (is_Some _)).
      2:{ change (urlEncode m ++ ":" ++ urlEncode p)%str with (urlEncode m ++ ":"%char :: urlEncode p).
          rewrite find_char_app; [by eexists|by apply (urlEncode_free_of _ ":")]. }
      cbn [andb]. rewrite userinfo_app by done. f_equal. f_equal. change (":" ++ urlEncode p)%str with (":"%char :: urlEncode p).
      cbn [decodeShareUriUserInfo is_char]. by rewrite userinfo_urlEncode.
    - rewrite (bool_decide_false (is_Some _)).
      2:{ intros [i Hi]. apply find_char_Some in Hi as Hin. assert (Hn : ":"%char ∉ base64url (m ++ ":" ++ p)) by (by apply base64url_free).
          apply find_char_None in Hn. congruence. }
      cbn [andb]. assert (m ++ ":" ++ p <> []) by (by destruct m). by destruct (strict_base64 (m ++ ":" ++ p)) as [-> _]. }
  unfold parseUserPassword. rewrite Hread, find_char_app by done. rewrite take_app_length, drop_app_ge by lia.
  replace (length m + 1 - length m) with 1 by lia. cbn [drop]. unfold clean in Hcm, Hcp. by rewrite Hcm, drop_0, Hcp.
Qed.

Lemma ss_server_read : ss_server (ss_userinfo x ++ "@" ++ shareLinkHost (Hostname x) ++ ":" ++ to_string (Port x)) =
  Some (EncryptMethod (rest x), Password (rest x), Hostname x, to_string (Port x)).
Proof.
  destruct (port_text _ (ss_port x ok)) as (Hd & Hne & _ & Hv). pose proof (ss_host x ok) as Hh.
  destruct (host_ok_facts _ Hh) as (_ & _ & _ & _ & Hat & _). set (hp := shareLinkHost (Hostname x) ++ ":" ++ to_string (Port x)).
  assert (Hp : "@"%char ∉ hp) by (apply hostport_free; [done|done|by apply (digits_free _ _ Hd)|done]).
  assert (Hlen : 0 < length hp) by (unfold hp; rewrite !length_app; simpl; lia).
  assert (Hu : 0 < length (ss_userinfo x)).
  { destruct (ss_userinfo x) eqn:E; [|simpl; lia]. pose proof ss_userinfo_read as H. by rewrite E in H. }
  change ("@" ++ hp)%str with ("@"%char :: hp). unfold ss_server. destruct (split_at (ss_userinfo x) hp Hp) as (-> & -> & -> & ->).
  destruct (Nat.eqb_spec (length (ss_userinfo x)) 0); [lia|].
  destruct (Nat.leb_spec (length (ss_userinfo x) + 1 + length hp) (length (ss_userinfo x) + 1)); [lia|]. cbn [orb].
  assert (Hcol : ":"%char ∉ to_string (Port x)) by (by apply (digits_free _ _ Hd)).
  unfold hp. by rewrite ss_userinfo_read, (parseShareAuthority_print _ _ Hh Hne Hcol Hv).
Qed.

(** The options of the link as arguments of [appendShareQuery]. *)
Definition ss_items (include_group : bool) : list (str * str) :=
  [("plugin"%str, match Plugin (rest x) with
                  | [] => []
                  | plugin => match PluginOption (rest x) with [] => plugin | options => plugin ++ ";" ++ options end
                  end);
   ("group"%str, if include_group then base64url (Group x) else [])].

Lemma base64url_nil : base64url [] = [].
Proof. by vm_compute. Qed.

Lemma ss_query_items include_group : ss_query x include_group = append_all (ss_items include_group).
Proof.
  unfold ss_query, append_all, ss_items. cbn [foldl fst snd]. unfold appendShareQuery.
  assert (Hg : (if include_group && negb (bool_decide (Group x = [])) then ["group=" ++ base64url (Group x)] else [])%str =
    match (if include_group then base64url (Group x) else []) with
    | [] => [] | _ => ["group" ++ "=" ++ urlEncode (if include_group then base64url (Group x) else [])] end%str).
  { destruct include_group; [|done]. cbn [andb]. destruct (Group x) as [|c g] eqn:E; [by rewrite base64url_nil|].
    rewrite bool_decide_false by done. destruct (strict_base64 (c :: g)) as (_ & Hb & Hne); [done|rewrite <- E; apply ok|].
    rewrite urlEncode_unreserved by (eapply Forall_impl; [exact Hb|]; intros d Hd; by apply urlsafe_byte_facts in Hd as [? _]).
    cbn [negb]. by destruct (base64url (c :: g)). }
  rewrite Hg. clear Hg. destruct (if include_group then base64url (Group x) else []) as [|b g];
    (destruct (Plugin (rest x)) as [|c pl]; [done|]); by destruct (PluginOption (rest x)).
Qed.

Lemma ss_plugin_read include_group : let '(plugin, options) := cut ";" (assoc (ss_items include_group) "plugin") in
  plugin = Plugin (rest x) /\ default [] options = PluginOption (rest x).
Proof.
  destruct (ss_plugin x ok) as [Hs Hnone]. unfold ss_items. cbn [assoc str_eqb Ascii.eqb Bool.eqb andb].
  destruct (Plugin (rest x)) as [|c pl] eqn:E.
  - by rewrite Hnone.
  - destruct (PluginOption (rest x)) as [|d o] eqn:Eo.
    + by rewrite cut_none.
    + change ((c :: pl) ++ ";" ++ d :: o)%str with ((c :: pl) ++ ";"%char :: d :: o). by rewrite cut_app.
Qed.
Lemma ss_items_keys include_group : keys_ok (ss_items include_group) = true.
Proof. by vm_compute. Qed.

Lemma ss_plugin_clean include_group : clean (assoc (ss_items include_group) "plugin").
Proof.
  destruct ok as [_ _ _ _ _ Htx _]. do 4 (apply Forall_cons in Htx as [_ Htx]).
  apply Forall_cons in Htx as [Hp Htx]. apply Forall_cons in Htx as [Ho _].
  unfold ss_items. cbn [assoc str_eqb Ascii.eqb Bool.eqb andb]. destruct (Plugin (rest x)) as [|c pl] eqn:E; [done|].
  destruct (PluginOption (rest x)) as [|d o] eqn:Eo; [done|]. by rewrite !clean_app.
Qed.

(** The group of the link. *)
Lemma ss_group_read include_group : let encoded := urlEncode (assoc (ss_items include_group) "group") in
  match encoded with [] => SS_DEFAULT_GROUP | _ => default SS_DEFAULT_GROUP (decodeStrictBase64 encoded) end =
  (if include_group then orElse (Group x) SS_DEFAULT_GROUP else SS_DEFAULT_GROUP).
Proof.
  cbv zeta. unfold ss_items. cbn [assoc str_eqb Ascii.eqb Bool.eqb andb]. destruct include_group; [|done].
  destruct (Group x) as [|c g] eqn:E; [by rewrite base64url_nil|].
  destruct (strict_base64 (c :: g)) as (Hd & Hb & Hne); [done|rewrite <- E; apply ok|].
  rewrite urlEncode_unreserved by (eapply Forall_impl; [exact Hb|]; intros d Hd'; by apply urlsafe_byte_facts in Hd' as [? _]).
  by destruct (base64url (c :: g)); [|rewrite Hd].
Qed.

Definition ss_body : str := ss_userinfo x ++ "@" ++ shareLinkHost (Hostname x) ++ ":" ++ to_string (Port x).

Lemma ss_body_free c : one_of "#?/" c = true -> c ∉ ss_body.
Proof.
  intros Hc. destruct (port_text _ (ss_port x ok)) as (Hd & _). destruct (host_ok_facts _ (ss_host x ok)) as (_ & _ & H1 & H2 & _ & H3 & _).
  assert (Hq : c ∉ Hostname x /\ c ∉ to_string (Port x) /\ one_of "[]:" c = false /\ one_of "#?@/" c = true /\ c <> "@"%char).
  { unfold one_of in Hc. apply bool_decide_eq_true in Hc.
    repeat (apply elem_of_cons in Hc as [->|Hc]; [split_and!; done || by apply (digits_free _ _ Hd)|]). by apply not_elem_of_nil in Hc. }
  destruct Hq as (Hh & Hp & Hb & Hs & Ha). unfold ss_body. rewrite elem_of_app. intros [Hin|Hin].
  - by apply ss_userinfo_free in Hin.
  - apply elem_of_app in Hin as [Hin%list_elem_of_singleton|Hin]; [done|]. apply hostport_free in Hin; [done|apply ok|done..].
Qed.

Lemma ss_body_slash : drop_slash ss_body = ss_body.
Proof.
  destruct (port_text _ (ss_port x ok)) as (Hd & Hne & _). unfold ss_body. rewrite !app_assoc. apply drop_slash_app; [done|].
  by apply (digits_free _ _ Hd).
Qed.

Lemma ss_options_read include_group include_remark : exists body,
  ss_options (drop 5 (shadowsocksShareLink x include_group include_remark)) =
    (if include_remark then Remark x else [], Plugin (rest x), PluginOption (rest x),
     if include_group then orElse (Group x) SS_DEFAULT_GROUP else SS_DEFAULT_GROUP, body) /\
  drop_slash body = ss_body.
Proof.
  set (R := if include_remark && negb (bool_decide (Remark x = [])) then ("#" ++ urlEncode (Remark x))%str else []).
  set (Q := match ss_query x include_group with [] => [] | query => ("/?" ++ join query "&")%str end).
  assert (Hlink : drop 5 (shadowsocksShareLink x include_group include_remark) = (ss_body ++ Q) ++ R).
  { unfold shadowsocksShareLink. fold R Q. unfold ss_body. by rewrite <- !app_assoc. }
  rewrite Hlink. clear Hlink. pose proof (ss_items_keys include_group) as Hk. pose proof (ss_query_items include_group) as Hq.
  assert (HQ : "#"%char ∉ ss_body ++ Q).
  { rewrite elem_of_app. intros [Hin|Hin]; [by apply ss_body_free in Hin|]. unfold Q in Hin. rewrite Hq in Hin.
    destruct (append_all _) as [|i l] eqn:E; [by apply not_elem_of_nil in Hin|]. rewrite <- E in Hin.
    do 2 (apply elem_of_cons in Hin as [?|Hin]; [done|]). by apply shared_query_free in Hin. }
  assert (HR : exists fragment, cut "#" ((ss_body ++ Q) ++ R) = (ss_body ++ Q, fragment) /\
    match fragment with Some f => decodeShareUriUserInfo f | None => [] end = (if include_remark then Remark x else [])).
  { assert (Hc : clean (Remark x)) by (destruct ok as [_ _ _ _ _ Htx _]; do 2 (apply Forall_cons in Htx as [_ Htx]); by apply Forall_cons in Htx as [? _]).
    subst R. destruct include_remark; cbn [andb].
    - case_bool_decide as E; cbn [negb].
      + exists None. rewrite app_nil_r, cut_none by done. by rewrite E.
      + exists (Some (urlEncode (Remark x))). change ("#" ++ ?y)%str with ("#"%char :: y). by rewrite cut_app, userinfo_urlEncode.
    - exists None. by rewrite app_nil_r, cut_none. }
  destruct HR as (fragment & Hcut & Hps). unfold ss_options. rewrite Hcut, Hps. unfold Q. rewrite Hq.
  destruct (append_all (ss_items include_group)) as [|i l] eqn:E.
  - rewrite app_nil_r, cut_none by (by apply ss_body_free). exists ss_body. split; [|apply ss_body_slash].
    pose proof (ss_plugin_read include_group) as Hpl. pose proof (ss_group_read include_group) as Hgr. cbv zeta in Hgr.
    rewrite <- !(shared_query_raw _ Hk) in Hgr by done. rewrite <- (shared_query_arg _ Hk) in Hpl by (done || apply ss_plugin_clean).
    unfold decodedUrlArg in Hpl. rewrite E in Hpl, Hgr. cbn in Hpl, Hgr. destruct Hpl as [<- <-]. by rewrite <- Hgr.
  - rewrite <- E. change ("/?" ++ ?y)%str with ("/"%char :: "?"%char :: y).
    replace (ss_body ++ "/"%char :: "?"%char :: join (append_all (ss_items include_group)) "&")
      with ((ss_body ++ "/") ++ "?"%char :: join (append_all (ss_items include_group)) "&") by (by rewrite <- app_assoc).
    rewrite cut_app by (rewrite elem_of_app; intros [Hin|Hin%list_elem_of_singleton]; [by apply ss_body_free in Hin|done]).
    exists (ss_body ++ "/"). split; [|apply drop_slash_snoc].
    pose proof (ss_plugin_read include_group) as Hpl. pose proof (ss_group_read include_group) as Hgr. cbv zeta in Hgr.
    rewrite !(shared_query_raw _ Hk) by done. rewrite urlDecode_urlEncode by apply ss_plugin_clean.
    rewrite Hgr. destruct (cut ";" _) as [plugin options]. by destruct Hpl as [-> ->].
Qed.

(** Reading the link gives the image of the node. *)
Lemma ss_read `{!Pcre} upSpeed downSpeed include_group include_remark :
  explodeSS (shadowsocksShareLink x include_group include_remark) (newNode upSpeed downSpeed) =
  ss_image upSpeed downSpeed x include_group include_remark.
Proof.
  destruct (ss_options_read include_group include_remark) as (body & Ho & Hb). unfold explodeSS.
  change (startsWith (shadowsocksShareLink x include_group include_remark) "ss://") with true. cbn [negb].
  rewrite Ho, Hb. unfold ss_body. rewrite ss_server_read. destruct ok as [Hh Hp [Hm _] Hpw _ Htx _].
  rewrite (bool_decide_false (EncryptMethod _ = [])), (bool_decide_false (Password _ = [])) by done. cbn [orb].
  rewrite no_break_clean.
  2:{ do 6 (apply Forall_cons in Htx as [? Htx]). repeat constructor; try done; [|by destruct include_remark].
      destruct include_group; [|done]. by destruct (Group x). }
  cbn [negb]. unfold ssConstruct. rewrite commonConstruct_print by done. reflexivity.
Qed.
End Shadowsocks.

(** ** Options of a printed query *)

Lemma clean_assoc l key : Forall (fun kv => clean kv.2) l -> clean (assoc l key).
Proof. induction 1 as [|[k v] l Hv Hl IH]; [done|]. simpl. by destruct (str_eqb k key). Qed.

(** A list of protocols that [alpn] can carry. *)
Definition alpn_ok (l : list str) : Prop := Forall (fun i => i <> [] /\ ","%char ∉ i /\ trim i true true = i) l.

Lemma alpn_read q l : alpn_ok l -> decodedUrlArg q "alpn" = join l "," -> getUrlAlpnList q = l.
Proof.
  intros Hl Hq. unfold getUrlAlpnList. rewrite Hq. destruct l as [|i l]; [by vm_compute|].
  assert (Hf : fields "," (join (i :: l) ",") = i :: l) by (apply fields_join; [done|]; eapply Forall_impl; [exact Hl|]; naive_solver).
  change (split ?s ",") with (split s [","%char]).
  rewrite split_fields; rewrite Hf; [|eapply Forall_impl; [exact Hl|]; naive_solver]. cbn [default]. clear Hq Hf.
  generalize dependent (i :: l). clear. intros l Hl.
  induction Hl as [|j l (Hne & _ & Ht) Hl IH]; [done|]. csimpl. rewrite filter_cons, Ht, decide_True by done. f_equal. exact IH.
Qed.

(** The remembered options of a query. *)
Definition kept_options (get : str -> str) : list (str * str) :=
  filter (fun kv => kv.2 <> []) ((fun key => (key, get key)) <$> xray_option_keys).

Lemma rememberXrayLinkOptions_kept node q : rememberXrayLinkOptions node q =
  { node with rest -> XrayLinkOptions ::= (fun l => l ++ kept_options (decodedUrlArg q)) }.
Proof.
  unfold rememberXrayLinkOptions, kept_options. generalize xray_option_keys as keys. intros keys. revert node.
  induction keys as [|key keys IH]; intros node.
  - cbn. rewrite app_nil_r. destruct node as [t i g gr rm h p f]. by destruct f.
  - cbn [foldl]. rewrite IH. rewrite fmap_cons, filter_cons. unfold rememberXrayLinkOption.
    destruct (decodedUrlArg q key) as [|c v]; [done|]. rewrite decide_True by done.
    destruct node as [t i g gr rm h p f]. destruct f. cbn. by rewrite <- app_assoc.
Qed.

Section Options.
Context (l : list (str * str)).
Hypothesis l_keys : keys_ok l = true.
Hypothesis l_clean : Forall (fun kv => clean kv.2) l.

Lemma option_text key : key_ok key = true -> decodedUrlArg (join (append_all l) "&") key = assoc l key.
Proof. intros Hk. apply shared_query_arg; [done|done|]. by apply clean_assoc. Qed.

Lemma option_raw key : key_ok key = true -> getUrlArg (join (append_all l) "&") key = urlEncode (assoc l key).
Proof. intros Hk. by apply shared_query_raw. Qed.

Lemma option_decoded key : urlDecode (urlEncode (assoc l key)) = assoc l key.
Proof. apply urlDecode_urlEncode. by apply clean_assoc. Qed.
End Options.

Lemma kept_options_print l : keys_ok l = true -> Forall (fun kv => clean kv.2) l ->
  kept_options (decodedUrlArg (join (append_all l) "&")) = kept_options (assoc l).
Proof. intros Hk Hc. unfold kept_options, xray_option_keys. cbn [fmap list_fmap]. by rewrite !(option_text l Hk Hc). Qed.

Lemma orElse_nil s : orElse s [] = s.
Proof. by destruct s. Qed.

Lemma orElse_twice s c t : orElse (orElse s (c :: t)) (c :: t) = orElse s (c :: t).
Proof. by destruct s. Qed.

Lemma trim_no_space s : " "%char ∉ s -> trim s true true = s.
Proof.
  intros Hs. unfold trim, trimOf. cbn [negb andb].
  assert (Hf : forall c, c ∈ s -> not_char " " c = true).
  { intros c Hc. unfold not_char. apply negb_true_iff. unfold is_char. apply bool_decide_eq_false. by intros ->. }
  destruct (split_middle (not_char " ") s) as [Hall|(a & m & b & Heq & Ha & Hb & _ & _ & -> & -> & Hlen & Hm)].
  - by rewrite (proj2 (index_if_None _ s) Hall).
  - replace (length a + (length m - 1) - length a + 1) with (length m) by lia. rewrite Hm.
    assert (a = [] /\ b = []) as [-> ->]; [|by rewrite Heq, app_nil_r].
    assert (Hin : forall c, c ∈ a \/ c ∈ b -> c ∈ s) by (intros c Hc; rewrite Heq, !elem_of_app; tauto).
    split; [destruct a as [|c a]; [done|]; specialize (Ha c)|destruct b as [|c b]; [done|]; specialize (Hb c)];
      rewrite Hf in * by (apply Hin; set_solver); exfalso; set_solver.
Qed.

Lemma trim_urlEncode s : trim (urlEncode s) true true = urlEncode s.
Proof. apply trim_no_space. by apply (urlEncode_free_of _ " "). Qed.

(** A path of a transport, which is read percent-encoded. *)
Lemma path_read p : urlDecode (urlEncode p) = p ->
  match urlEncode p with [] => "/"%str | _ => urlDecode (trim (urlEncode p) true true) end = orElse p "/".
Proof.
  intros Hd. rewrite trim_urlEncode, Hd. destruct p as [|c p]; [done|].
  by destruct (urlEncode (c :: p)) eqn:E; [apply urlEncode_nonempty in E|].
Qed.

Lemma assoc_only_if b k v l key : str_eqb k key = false -> assoc (only_if b (k, v) ++ l) key = assoc l key.
Proof. intros E. destruct b; simpl; by rewrite ?E. Qed.

Lemma str_eqb_sym a b : str_eqb a b = str_eqb b a.
Proof. apply eq_true_iff_eq. rewrite !str_eqb_spec. done. Qed.

(** Calls of functions on literals. *)
Ltac literal_eval :=
  repeat match goal with
  | |- context [hash_is ?a ?b] => let v := eval vm_compute in (hash_is a b) in
      lazymatch v with true => idtac | false => idtac end; replace (hash_is a b) with v by (vm_compute; reflexivity)
  | |- context [normalizeXrayTransport ?a] => let v := eval vm_compute in (normalizeXrayTransport a) in
      lazymatch v with context [normalizeXrayTransport] => fail | _ => idtac end;
      replace (normalizeXrayTransport a) with v by (vm_compute; reflexivity)
  end; cbn [orb].

(** ** Trojan *)

(** The transports of parseXrayTransport. *)
Definition xray_transports : list str := ["tcp"; "kcp"; "ws"; "http"; "httpupgrade"; "grpc"; "xhttp"; "quic"]%str.

(** What a trojan:// link can carry: of the remembered options the exporter
    leaves out [pqv] and [spx]. *)
Record trojan_ok (x : Node) : Prop := {
  trojan_host : host_ok (Hostname x) = true;
  trojan_port : port_ok (Port x);
  trojan_password : Password (rest x) <> [] /\ clean (Password (rest x));
  trojan_remark : clean (Remark x);
  trojan_transport_known : TransferProtocol (rest x) ∈ xray_transports;
  trojan_alpn : alpn_ok (AlpnList (rest x));
  trojan_values : Forall (fun kv => clean kv.2) (trojan_query x);
  trojan_options : xrayLinkOption x "pqv" = [] /\ xrayLinkOption x "spx" = []
}.

(** The transport carries a host and a path of HTTP. *)
Definition http_like (f : Fields) : bool :=
  bool_decide (TransferProtocol f ∈ ["ws"; "http"; "httpupgrade"; "xhttp"]%str) ||
  bool_decide (TransferProtocol f = "tcp"%str) && bool_decide (FakeType f = "http"%str).

(** A node as a trojan:// link describes it. *)
Definition trojan_node (upSpeed downSpeed : Z) (remark hostname : str) (port : Z) (scv : tribool)
    (password security transport header host path mode sni fp pbk sid : str) (alpn : list str) (options : list (str * str)) : Node :=
  { newNode upSpeed downSpeed with Type_ := Trojan; Group := TROJAN_DEFAULT_GROUP; Remark := remark;
    Hostname := hostname; Port := port; rest -> AllowInsecure := scv;
    rest -> Password := password; rest -> TLSSecure := true; rest -> TLSStr := security;
    rest -> TransferProtocol := transport; rest -> FakeType := header; rest -> Host := host; rest -> Path := path;
    rest -> GRPCMode := mode; rest -> ServerName := sni; rest -> Fingerprint := fp; rest -> PublicKey := pbk;
    rest -> ShortId := sid; rest -> AlpnList := alpn; rest -> XrayLinkOptions := options }.

Definition with_transport (f : Fields) (names : list str) : bool := bool_decide (TransferProtocol f ∈ names).

(** The options that the link of a transport has. *)
Definition link_option (x : Node) (key : str) : str :=
  if str_eqb key "authority" then (if with_transport (rest x) ["grpc"%str] then xrayLinkOption x key else [])
  else if str_eqb key "extra" then (if with_transport (rest x) ["xhttp"%str] then xrayLinkOption x key else [])
  else xrayLinkOption x key.

(** The node that a trojan:// link gives: what the link does not say has the
    value of a new node, and what it leaves empty the default of the parser. *)
Definition trojan_image (upSpeed downSpeed : Z) (x : Node) : Node :=
  let f := rest x in
  let sni := orElse (ServerName f) (Host f) in
  trojan_node upSpeed downSpeed (remark_or (Remark x) (Hostname x) (to_string (Port x))) (Hostname x) (Port x)
    (tribool_of_bool (flag (AllowInsecure f))) (Password f) (orElse (TLSStr f) "tls") (TransferProtocol f)
    (if with_transport f ["tcp"; "kcp"; "quic"]%str then FakeType f else [])
    (orElse (if http_like f || with_transport f ["quic"%str] then Host f else []) sni)
    (if http_like f then orElse (Path f) "/"
     else if with_transport f ["kcp"; "grpc"; "quic"]%str then Path f else [])
    (if with_transport f ["grpc"; "xhttp"]%str then GRPCMode f else [])
    sni (Fingerprint f) (PublicKey f) (ShortId f) (AlpnList f) (kept_options (link_option x)).

Section Trojan.
Context (x : Node).
Hypothesis ok : trojan_ok x.
Notation f := (rest x).

(** The options that are always written. *)
Definition trojan_always : list (str * str) :=
  [("security"%str, orElse (TLSStr f) "tls"); ("sni"%str, orElse (ServerName f) (Host f)); ("fp"%str, Fingerprint f);
   ("pbk"%str, PublicKey f); ("sid"%str, ShortId f); ("type"%str, TransferProtocol f)] ++
  trojan_transport x ++ link_options x ["fm"; "ech"; "pcs"; "vcn"]%str.

Lemma trojan_assoc key : existsb (str_eqb key) ["insecure"; "allowInsecure"; "alpn"]%str = false ->
  assoc (trojan_query x) key = assoc trojan_always key.
Proof.
  cbn [existsb]. rewrite !orb_false_iff. intros (H1 & H2 & H3 & _).
  rewrite str_eqb_sym in H1, H2, H3. unfold trojan_query, trojan_always. cbn [app assoc]. rewrite H2.
  rewrite assoc_only_if by done. cbn [app assoc]. by rewrite assoc_only_if.
Qed.

Lemma trojan_query_keys : keys_ok (trojan_query x) = true.
Proof.
  destruct ok as [_ _ _ _ Ht _ _ _]. unfold xray_transports in Ht.
  unfold trojan_query, trojan_transport, link_options, http_options, only_if.
  destruct (flag _), (bool_decide (AlpnList f = [])), (bool_decide (FakeType f = "http"%str));
    repeat (apply elem_of_cons in Ht as [Ht|Ht]; [rewrite !Ht; reflexivity|]); by apply not_elem_of_nil in Ht.
Qed.

Lemma trojan_scv :
  tribool_of_str (orElse (urlEncode (assoc (trojan_query x) "insecure")) (urlEncode (assoc (trojan_query x) "allowInsecure"))) =
  tribool_of_bool (flag (AllowInsecure f)).
Proof.
  unfold trojan_query, only_if. destruct (flag (AllowInsecure f)); [by vm_compute|].
  replace (assoc _ "allowInsecure") with ("0"%str) by done. replace (assoc _ "insecure") with ([] : str); [by vm_compute|].
  destruct ok as [_ _ _ _ Ht _ _ _]. unfold xray_transports in Ht. unfold trojan_transport, link_options, http_options.
  destruct (bool_decide (AlpnList f = [])), (bool_decide (FakeType f = "http"%str));
    repeat (apply elem_of_cons in Ht as [Ht|Ht]; [rewrite !Ht; reflexivity|]); by apply not_elem_of_nil in Ht.
Qed.

Lemma trojan_alpn_text : assoc (trojan_query x) "alpn" = join (AlpnList f) ",".
Proof.
  unfold trojan_query. cbn [app assoc str_eqb Ascii.eqb Bool.eqb andb]. rewrite assoc_only_if by done.
  unfold only_if. destruct (AlpnList f) as [|i l] eqn:E; [|done]. rewrite bool_decide_true by done.
  unfold trojan_transport, http_options. repeat case_match; reflexivity.
Qed.

Lemma trojan_parsed : parseShareUri (trojanShareLink x) "trojan" =
  Some (mkParsed (Password f) (Hostname x) (to_string (Port x)) (join (append_all (trojan_query x)) "&") (Remark x)).
Proof.
  destruct ok as [Hh Hp [Hne Hpw] Hr _ _ _]. destruct (port_text _ Hp) as (_ & _ & _ & Hv).
  pose proof (parseShareUri_print "trojan" (urlEncode (Password f)) (Password f) (Hostname x)
    (to_string (Port x)) (Remark x) (trojan_query x) Hh Hv) as H.
  rewrite <- H; [|split; by apply (urlEncode_free_of _ "#?")|by rewrite userinfo_urlEncode|apply trojan_query_keys|done].
  f_equal. unfold trojanShareLink. by rewrite <- !app_assoc.
Qed.

(** Reading the link gives the image of the node. *)
Lemma trojan_read upSpeed downSpeed :
  explodeTrojan (trojanShareLink x) (newNode upSpeed downSpeed) = trojan_image upSpeed downSpeed x.
Proof.
  pose proof trojan_query_keys as Hk. pose proof trojan_parsed as Hparse.
  pose proof trojan_alpn_text as Halpn. pose proof ok as [Hh Hp _ _ Ht Hal Hcl [Ho1 Ho2]].
  unfold explodeTrojan. change (startsWith (trojanShareLink x) "trojan-go://") with false. cbv iota. rewrite Hparse.
  cbn [query remark host port user]. unfold parseXrayTransport, xray_transport, getXrayAllowInsecure.
  rewrite !(alpn_read _ _ Hal) by (rewrite option_text by done; exact Halpn).
  rewrite !rememberXrayLinkOptions_kept.
  rewrite !(option_text _ Hk Hcl) by reflexivity. rewrite !(option_raw _ Hk) by reflexivity.
  rewrite trojan_scv, (kept_options_print _ Hk Hcl). unfold kept_options, xray_option_keys. cbn [fmap list_fmap].
  assert (Hd : forall key, urlDecode (urlEncode (assoc (trojan_query x) key)) = assoc (trojan_query x) key) by apply (option_decoded _ Hcl).
  replace (bool_decide (urlEncode (assoc (trojan_query x) "ws") = "1"%str)) with false.
  2:{ rewrite trojan_assoc by done. unfold trojan_always, trojan_transport, http_options. repeat case_match; reflexivity. }
  cbv iota. rewrite trojan_assoc by done.
  unfold xray_transports in Ht. clear Hparse Halpn Hcl Hal Hk.
  repeat (apply elem_of_cons in Ht as [Ht|Ht]; [|]); [..|by apply not_elem_of_nil in Ht].
  all: replace (assoc trojan_always "type") with (TransferProtocol f) by done.
  all: rewrite Ht; literal_eval.
  1: replace (assoc (trojan_query x) "headerType") with (FakeType f)
    by (rewrite trojan_assoc by done; unfold trojan_always, trojan_transport; by rewrite Ht);
    destruct (bool_decide (FakeType f = "http"%str)) eqn:Hf.
  all: unfold trojanConstruct; rewrite commonConstruct_print by done; cbn [network header_type path host_ mode].
  all: rewrite ?Hd, !trojan_assoc by reflexivity; unfold trojan_always, trojan_transport, link_options, http_options, trojan_image, trojan_node, link_option, with_transport, http_like.
  all: rewrite !Ht, ?Hf; cbn [fmap list_fmap app assoc str_eqb Ascii.eqb Bool.eqb andb].
  all: rewrite orElse_nil, orElse_twice.
  all: unfold kept_options, xray_option_keys; cbn [fmap list_fmap str_eqb Ascii.eqb Bool.eqb]; rewrite ?Ho1, ?Ho2.
  all: reflexivity.
Qed.
End Trojan.
