(* ===== verification/VlessRoundtrip.v ===== *)
(** * Share links: VLESS

    The node that the parser makes of the link written for a VLESS node.  Two
    questions of the parser go to the regular expression engine: whether the
    text is a VLESS link and whether the user is a UUID. *)

From S2P Require Import Prelude Str StringUtil Codec Regexp NodeSelect Node ShareUri SharePrinted ShareParse SharePrint.
From S2P Require Import ShareRoundtrip.
Open Scope nat_scope.

Lemma orElse_idem s t : orElse (orElse s t) t = orElse s t.
Proof. by destruct s, t. Qed.

Lemma orElse_ne s t : s <> [] -> orElse s t = s.
Proof. by destruct s. Qed.

(** Decisions about a literal. *)
Ltac literal_bools t :=
  repeat match goal with
  | |- context [bool_decide (t = ?b)] => let v := eval vm_compute in (bool_decide (t = b)) in
      replace (bool_decide (t = b)) with v by (vm_compute; reflexivity)
  | |- context [bool_decide (t ∈ ?b)] => let v := eval vm_compute in (bool_decide (t ∈ b)) in
      replace (bool_decide (t ∈ b)) with v by (vm_compute; reflexivity)
  end; cbn [orb andb negb].

Section Vless.
Context `{!Pcre}.

(** What a vless:// link can carry.  With QUIC the exporter writes the server
    name for a missing host, and the parser leaves the key percent-encoded, so
    there has to be a host and a key of unreserved bytes. *)
Record vless_ok (x : Node) : Prop := {
  vless_host : host_ok (Hostname x) = true;
  vless_port : port_ok (Port x);
  vless_user : Forall (fun c => urlsafe_byte c = true) (UserId (rest x));
  vless_remark : clean (Remark x);
  vless_transport_known : TransferProtocol (rest x) ∈ xray_transports;
  vless_alpn : alpn_ok (AlpnList (rest x));
  vless_values : Forall (fun kv => clean kv.2) (vless_query x);
  vless_host_text : trim (Host (rest x)) true true = Host (rest x);
  vless_quic : TransferProtocol (rest x) = "quic"%str ->
    Host (rest x) <> [] /\ QUICSecret (rest x) <> [] /\ urlEncode (QUICSecret (rest x)) = QUICSecret (rest x)
}.

(** A node as a vless:// link describes it. *)
Definition vless_node (upSpeed downSpeed : Z) (remark hostname : str) (port : Z) (scv : tribool)
    (user transport flow encryption header security pbk sid fp sni packet mode service secret host path : str)
    (alpn : list str) (options : list (str * str)) : Node :=
  { newNode upSpeed downSpeed with Type_ := VLESS; Group := XRAY_DEFAULT_GROUP; Remark := remark;
    Hostname := hostname; Port := port; rest -> AllowInsecure := scv;
    rest -> UserId := user; rest -> EncryptMethod := "auto"%str; rest -> TransferProtocol := transport; rest -> Flow := flow;
    rest -> Encryption := encryption; rest -> FakeType := header;
    rest -> TLSSecure :=
      bool_decide (security = "tls"%str) || bool_decide (security = "xtls"%str) || bool_decide (security = "reality"%str);
    rest -> PublicKey := pbk; rest -> ShortId := sid; rest -> Fingerprint := fp;
    rest -> ServerName := sni; rest -> AlpnList := alpn; rest -> PacketEncoding := packet; rest -> TLSStr := security;
    rest -> GRPCMode := mode; rest -> GRPCServiceName := service; rest -> QUICSecret := secret; rest -> Host := host;
    rest -> Path := path; rest -> XrayLinkOptions := options }.

(** The node that a vless:// link gives. *)
Definition vless_image (upSpeed downSpeed : Z) (x : Node) : Node :=
  let f := rest x in
  let grpc := with_transport f ["grpc"%str] in
  let quic := with_transport f ["quic"%str] in
  vless_node upSpeed downSpeed (remark_or (Remark x) (Hostname x) (to_string (Port x))) (Hostname x) (Port x)
    (if flag (AllowInsecure f) then true_value else indeterminate) (orElse (UserId f) no_uuid) (TransferProtocol f) (Flow f)
    (orElse (Encryption f) "none") (if with_transport f ["grpc"; "xhttp"]%str then [] else FakeType f)
    (if negb (bool_decide (PublicKey f = [])) then "reality"%str else TLSStr f) (PublicKey f) (ShortId f) (Fingerprint f)
    (ServerName f) (PacketEncoding f)
    (if grpc then orElse (GRPCMode f) "gun" else if with_transport f ["xhttp"%str] then GRPCMode f else [])
    (if grpc then orElse (GRPCServiceName f) "/" else []) (if quic then QUICSecret f else [])
    (if grpc then [] else if quic then Host f else host_or (if http_like f then Host f else []) (Hostname x))
    (if grpc || quic then [] else if http_like f || with_transport f ["kcp"%str] then orElse (Path f) "/" else "/"%str)
    (AlpnList f) (kept_options (link_option x)).

Context (x : Node).
Hypothesis ok : vless_ok x.
Notation f := (rest x).

(** The options that are always written. *)
Definition vless_always : list (str * str) :=
  [("encryption"%str, orElse (Encryption f) "none");
   ("security"%str, if negb (bool_decide (PublicKey f = [])) then "reality"%str else TLSStr f); ("flow"%str, Flow f);
   ("pbk"%str, PublicKey f); ("sid"%str, ShortId f); ("fp"%str, Fingerprint f); ("packet-encoding"%str, PacketEncoding f)] ++
  [("sni"%str, ServerName f); ("type"%str, TransferProtocol f)] ++ vless_transport x ++
  link_options x ["fm"; "ech"; "pcs"; "vcn"; "pqv"; "spx"]%str.

Lemma assoc_app_cons l l' l'' key : assoc l' key = assoc l'' key -> assoc (l ++ l') key = assoc (l ++ l'') key.
Proof using Type. clear ok. intros Heq. induction l as [|[k v] l IH]; [done|]. simpl. by destruct (str_eqb k key). Qed.

Lemma vless_assoc key : existsb (str_eqb key) ["insecure"; "alpn"]%str = false ->
  assoc (vless_query x) key = assoc vless_always key.
Proof.
  cbn [existsb]. rewrite !orb_false_iff. intros (H1 & H2 & _). rewrite str_eqb_sym in H1, H2.
  unfold vless_query, vless_always. apply assoc_app_cons. by rewrite !assoc_only_if.
Qed.

(** The options of the transport, by name. *)
Lemma vless_transport_cases : TransferProtocol f ∈ xray_transports ->
  let header := ("headerType"%str, FakeType f) in
  let is_ names := bool_decide (TransferProtocol f ∈ names) in
  vless_transport x =
  if is_ ["tcp"%str] then header :: (if bool_decide (FakeType f = "http"%str) then http_options f else [])
  else if is_ ["kcp"%str] then [header; ("seed"%str, Path f)]
  else if is_ ["ws"; "http"; "httpupgrade"]%str then header :: http_options f
  else if is_ ["grpc"%str] then
    [("serviceName"%str, GRPCServiceName f); ("mode"%str, GRPCMode f); ("authority"%str, xrayLinkOption x "authority")]
  else if is_ ["xhttp"%str] then http_options f ++ [("mode"%str, GRPCMode f); ("extra"%str, xrayLinkOption x "extra")]
  else [header; ("quicSecurity"%str, orElse (Host f) (ServerName f)); ("key"%str, QUICSecret f)].
Proof.
  intros Ht. unfold vless_transport. cbv zeta. unfold xray_transports in Ht.
  repeat (apply elem_of_cons in Ht as [Ht|Ht]; [rewrite Ht; literal_eval; reflexivity|]). by apply not_elem_of_nil in Ht.
Qed.

Lemma vless_query_keys : keys_ok (vless_query x) = true.
Proof.
  destruct ok as [_ _ _ _ Ht _ _ _ _]. unfold vless_query. rewrite vless_transport_cases by done. unfold xray_transports in Ht.
  unfold link_options, http_options, only_if.
  destruct (flag _), (bool_decide (AlpnList f = [])), (bool_decide (FakeType f = "http"%str));
    repeat (apply elem_of_cons in Ht as [Ht|Ht]; [rewrite !Ht; reflexivity|]); by apply not_elem_of_nil in Ht.
Qed.

Lemma vless_alpn_text : assoc (vless_query x) "alpn" = join (AlpnList f) ",".
Proof.
  destruct ok as [_ _ _ _ Ht _ _ _ _]. unfold vless_query. rewrite vless_transport_cases by done. unfold xray_transports in Ht.
  unfold only_if. destruct (AlpnList f) as [|i l] eqn:E; [|destruct (flag _); reflexivity]. rewrite (bool_decide_true (@nil str = [])) by done.
  unfold http_options. destruct (flag _), (bool_decide (FakeType f = "http"%str));
    repeat (apply elem_of_cons in Ht as [Ht|Ht]; [rewrite !Ht; reflexivity|]); by apply not_elem_of_nil in Ht.
Qed.

Lemma vless_scv :
  tribool_of_str (orElse (urlEncode (assoc (vless_query x) "insecure")) (urlEncode (assoc (vless_query x) "allowInsecure"))) =
  (if flag (AllowInsecure f) then true_value else indeterminate).
Proof.
  destruct ok as [_ _ _ _ Ht _ _ _ _]. unfold vless_query. rewrite vless_transport_cases by done. unfold xray_transports in Ht.
  unfold only_if, link_options, http_options.
  destruct (flag _), (bool_decide (AlpnList f = [])), (bool_decide (FakeType f = "http"%str));
    repeat (apply elem_of_cons in Ht as [Ht|Ht]; [rewrite !Ht; vm_compute; reflexivity|]); by apply not_elem_of_nil in Ht.
Qed.
Lemma vless_user_text : Forall (fun c => urlsafe_byte c = true) (orElse (UserId f) no_uuid) /\ orElse (UserId f) no_uuid <> [].
Proof.
  destruct ok as [_ _ Hu _ _ _ _ _ _]. destruct (UserId f) as [|c u]; [|done]. split; [|done].
  change (orElse [] no_uuid) with no_uuid. unfold no_uuid. repeat constructor.
Qed.

Lemma vless_parsed : parseShareUri (vlessShareLink x) "vless" =
  Some (mkParsed (orElse (UserId f) no_uuid) (Hostname x) (to_string (Port x)) (join (append_all (vless_query x)) "&") (Remark x)).
Proof.
  destruct ok as [Hh Hp _ Hr _ _ _ _ _]. destruct (port_text _ Hp) as (_ & _ & _ & Hv). destruct vless_user_text as [Hu Hne].
  assert (Henc : urlEncode (orElse (UserId f) no_uuid) = orElse (UserId f) no_uuid).
  { apply urlEncode_unreserved. eapply Forall_impl; [exact Hu|]. intros c Hc. by apply urlsafe_byte_facts in Hc as [? _]. }
  assert (Hcu : clean (orElse (UserId f) no_uuid)).
  { clear -Hu. induction Hu as [|c u Hc _ IH]; [done|]. apply clean_cons. split; [|done].
    apply urlsafe_byte_facts in Hc as [Hc _]. by destruct (unreserved_plain c Hc) as (_ & _ & ?). }
  pose proof (parseShareUri_print "vless" (urlEncode (orElse (UserId f) no_uuid)) (orElse (UserId f) no_uuid) (Hostname x)
    (to_string (Port x)) (Remark x) (vless_query x) Hh Hv) as Hprint.
  rewrite <- Hprint; [|split; by apply (urlEncode_free_of _ "#?")|by rewrite userinfo_urlEncode|apply vless_query_keys|done].
  f_equal. unfold vlessShareLink. rewrite Henc. by rewrite <- !app_assoc.
Qed.

Hypothesis is_vless : regMatch (vlessShareLink x) "vless://(.*?)@(.*)" = true.
Hypothesis is_uuid : isXrayUuid (orElse (UserId f) no_uuid) = true.

(** Reading the link gives the image of the node. *)
Lemma vless_read upSpeed downSpeed :
  explodeVless (vlessShareLink x) (newNode upSpeed downSpeed) = vless_image upSpeed downSpeed x.
Proof.
  pose proof vless_query_keys as Hk. pose proof vless_parsed as Hparse.
  pose proof vless_alpn_text as Halpn. pose proof ok as [Hh Hp _ _ Ht Hal Hcl _ Hq].
  unfold explodeVless, explodeStdVless. rewrite is_vless, Hparse. cbn [query remark host port user]. rewrite is_uuid. cbn [negb].
  unfold parseXrayTransport, xray_transport, getXrayAllowInsecure.
  rewrite !(alpn_read _ _ Hal) by (rewrite option_text by done; exact Halpn).
  rewrite !rememberXrayLinkOptions_kept.
  rewrite !(option_text _ Hk Hcl) by reflexivity. rewrite !(option_raw _ Hk) by reflexivity.
  rewrite vless_scv, (kept_options_print _ Hk Hcl). unfold kept_options, xray_option_keys. cbn [fmap list_fmap].
  assert (Hd : forall key, urlDecode (urlEncode (assoc (vless_query x) key)) = assoc (vless_query x) key) by apply (option_decoded _ Hcl).
  rewrite (vless_assoc "type") by done. pose proof (vless_transport_cases Ht) as Htr.
  unfold xray_transports in Ht. clear Hparse Halpn Hcl Hal Hk.
  repeat (apply elem_of_cons in Ht as [Ht|Ht]; [|]); [..|by apply not_elem_of_nil in Ht].
  all: revert Htr; cbv zeta; rewrite !Ht; lazymatch type of Ht with _ = ?t => literal_bools t end; intros Htr; cbv iota in Htr.
  all: replace (assoc vless_always "type") with (TransferProtocol f) by done.
  all: rewrite ?Ht; literal_eval.
  1: replace (assoc (vless_query x) "headerType") with (FakeType f)
    by (rewrite vless_assoc by done; unfold vless_always; rewrite Htr; reflexivity);
    destruct (bool_decide (FakeType f = "http"%str)) eqn:Hf.
  all: cbn [network header_type path host_ mode].
  all: unfold vlessConstruct; match goal with |- context [vless_by_transport ?m _ _ _ _ _] => set (n := m) end;
    assert (Hnet : TransferProtocol (rest n) = TransferProtocol f) by (rewrite Ht; unfold n, vless_fields; lazymatch type of Ht with _ = ?t => change (normalizeXrayTransport t = t) end; by vm_compute).
  all: unfold vless_by_transport; rewrite Hnet, !Ht; literal_eval; lazymatch type of Ht with _ = ?t => literal_bools t end; cbv iota; unfold n; clear n Hnet.
  all: unfold vless_fields; rewrite commonConstruct_print by done; rewrite ?(path_read _ (Hd _)), ?trim_urlEncode; literal_eval.
  all: rewrite !vless_assoc by reflexivity; unfold vless_always, vless_image, vless_node, link_option, with_transport, link_options; rewrite !Htr.
  all: rewrite !Ht; unfold http_like; rewrite ?Hf, !Ht; unfold http_options.
  all: cbn [fmap list_fmap app assoc str_eqb Ascii.eqb Bool.eqb andb].
  all: rewrite ?orElse_idem.
  all: try (destruct (Hq Ht) as (Hq1 & Hq2 & Hq3); rewrite !(orElse_ne (Host f)), ?Hq3 by done; destruct (QUICSecret f); [done|]).
  all: reflexivity.
Qed.
End Vless.
