(* ===== verification/LinkImage.v ===== *)
(** * Share links: the normal form of a node

    A node that was read from a Shadowsocks, Trojan or VLESS link is in the
    normal form of its kind: a link carries it, and the node that is read from
    its own link is the node itself. *)

From S2P Require Import Prelude Str StringUtil Codec Regexp NodeSelect Node ShareUri SharePrinted ShareParse SharePrint.
From S2P Require Import ShareRoundtrip VlessRoundtrip.
Open Scope nat_scope.

(** ** Remembered options *)

Lemma xrayLinkOption_assoc (x : Node) key : xrayLinkOption x key = assoc (XrayLinkOptions (rest x)) key.
Proof.
  unfold xrayLinkOption. induction (XrayLinkOptions (rest x)) as [|[k v] l IH]; [done|]. cbn [list_find assoc fst].
  destruct (decide (k = key)) as [->|Hne]; [by rewrite (proj2 (str_eqb_spec key key) eq_refl)|].
  destruct (str_eqb k key) eqn:E; [by apply str_eqb_spec in E|]. rewrite <- IH. by destruct (list_find _ l) as [[]|].
Qed.

Lemma assoc_kept get keys key :
  assoc (filter (fun kv => kv.2 <> []) ((fun k => (k, get k)) <$> keys)) key = if decide (key ∈ keys) then get key else [].
Proof.
  induction keys as [|k keys IH]; [done|]. rewrite fmap_cons, filter_cons. cbn [snd].
  assert (Hcons : get key = [] \/ key <> k -> (if decide (key ∈ k :: keys) then get key else []) =
    if decide (key ∈ keys) then get key else []).
  { intros Hk. destruct (decide (key ∈ keys)); [by rewrite decide_True by set_solver|].
    destruct (decide (key ∈ k :: keys)); [|done]. destruct Hk; [done|set_solver]. }
  destruct (decide (get k <> [])) as [Hne|He].
  - cbn [assoc]. destruct (str_eqb k key) eqn:E.
    + apply str_eqb_spec in E as ->. by rewrite decide_True by set_solver.
    + rewrite IH, Hcons; [done|]. right. intros ->. by rewrite (proj2 (str_eqb_spec k k) eq_refl) in E.
  - apply dec_stable in He. rewrite IH. destruct (decide (key = k)) as [->|]; rewrite Hcons by tauto; done.
Qed.

Lemma kept_options_ext get get' : (forall key, key ∈ xray_option_keys -> get key = get' key) -> kept_options get = kept_options get'.
Proof.
  intros H. unfold kept_options. f_equal. apply list_fmap_ext. intros i key Hk. f_equal. apply H. by apply list_elem_of_lookup_2 in Hk.
Qed.

(** The options of a node whose options were kept. *)
Lemma kept_option (y : Node) get key : XrayLinkOptions (rest y) = kept_options get -> key ∈ xray_option_keys -> xrayLinkOption y key = get key.
Proof. intros Hy Hk. rewrite xrayLinkOption_assoc, Hy. unfold kept_options. by rewrite assoc_kept, decide_True. Qed.

Lemma option_keys key : key ∈ ["authority"; "extra"; "fm"; "ech"; "pcs"; "vcn"; "pqv"; "spx"]%str -> key ∈ xray_option_keys.
Proof. done. Qed.

Lemma remark_or_twice r h p : remark_or (remark_or r h p) h p = remark_or r h p.
Proof. unfold remark_or. destruct r; cbn [orElse]; [|done]. by destruct (h ++ ":" ++ p). Qed.

Lemma orElse_self s t : orElse (orElse s t) t = orElse s t.
Proof. by destruct s, t. Qed.

Lemma remark_clean (x : Node) : host_ok (Hostname x) = true -> port_ok (Port x) -> clean (Remark x) ->
  clean (remark_or (Remark x) (Hostname x) (to_string (Port x))).
Proof.
  intros Hh Hp Hr. unfold remark_or. destruct (Remark x); [|done]. cbn [orElse]. apply clean_app.
  destruct (host_ok_facts _ Hh) as (_ & Hc & _). split; [done|]. apply clean_app. split; [done|].
  destruct (port_text _ Hp) as (Hd & _). unfold clean, has_crlf. apply not_true_is_false. rewrite existsb_exists. intros (c & Hin & Hc').
  unfold all_digits in Hd. rewrite forallb_forall in Hd. apply Hd in Hin. unfold is_crlf in Hc'. apply orb_true_iff in Hc'.
  rewrite !bool_decide_eq_true in Hc'. by destruct Hc' as [->| ->].
Qed.

Lemma clean_orElse (a b : str) : clean a -> clean b -> clean (orElse a b).
Proof. by destruct a. Qed.

Lemma clean_in (l : list (str * str)) (k v : str) : Forall (fun kv => clean kv.2) l -> (k, v) ∈ l -> clean v.
Proof. intros Hl Hin. rewrite Forall_forall in Hl. by apply (Hl (k, v)). Qed.

(** Decisions about a literal, everywhere. *)
Ltac literal_bools_in t :=
  repeat match goal with
  | |- context [bool_decide (t = ?b)] => let v := eval vm_compute in (bool_decide (t = b)) in change (bool_decide (t = b)) with v in *
  | H : context [bool_decide (t = ?b)] |- _ => let v := eval vm_compute in (bool_decide (t = b)) in change (bool_decide (t = b)) with v in *
  | |- context [bool_decide (t ∈ ?b)] => let v := eval vm_compute in (bool_decide (t ∈ b)) in change (bool_decide (t ∈ b)) with v in *
  | H : context [bool_decide (t ∈ ?b)] |- _ => let v := eval vm_compute in (bool_decide (t ∈ b)) in change (bool_decide (t ∈ b)) with v in *
  end; cbn [orb andb negb] in *.

Ltac clean_values_tac :=
  cbn [app] in *; repeat match goal with H : Forall _ (_ :: _) |- _ => apply Forall_cons in H as [? H] end; cbn [snd app] in *;
  repeat apply Forall_cons_2; try apply Forall_nil_2; cbn [snd]; first [done|by apply clean_orElse|by auto].

(** ** Shadowsocks *)

Lemma ss_image_ok upSpeed downSpeed (x : Node) : ss_ok x -> ss_ok (ss_image upSpeed downSpeed x false true).
Proof.
  intros [Hh Hp Hm Hpw [Hs Hg] Ht Hpl]. do 6 (apply Forall_cons in Ht as [? Ht]).
  assert (Hg' : small SS_DEFAULT_GROUP /\ clean SS_DEFAULT_GROUP) by (split; by vm_compute).
  constructor; [exact Hh|exact Hp|exact Hm|exact Hpw|exact (conj Hs (proj1 Hg'))| |exact Hpl].
  repeat apply Forall_cons_2; try done. by apply remark_clean.
Qed.

Lemma ss_image_idem upSpeed downSpeed (x : Node) :
  ss_image upSpeed downSpeed (ss_image upSpeed downSpeed x false true) false true = ss_image upSpeed downSpeed x false true.
Proof.
  set (y := ss_image upSpeed downSpeed x false true). assert (Hr : remark_or (Remark y) (Hostname y) (to_string (Port y)) = Remark y)
    by apply remark_or_twice. unfold ss_image at 1. rewrite Hr. reflexivity.
Qed.

(** ** Trojan *)

Section Trojan.
Context (upSpeed downSpeed : Z) (x : Node).
Notation y := (trojan_image upSpeed downSpeed x).
Notation f := (rest x).

Lemma trojan_options_image : XrayLinkOptions (rest y) = kept_options (link_option x).
Proof. done. Qed.

Lemma link_option_image key : key ∈ xray_option_keys -> link_option y key = link_option x key.
Proof.
  intros Hk. assert (Hy : xrayLinkOption y key = link_option x key) by (by apply kept_option). unfold link_option at 1. rewrite Hy.
  change (with_transport (rest y)) with (with_transport f). unfold link_option. by repeat case_match.
Qed.

Lemma trojan_http_like : http_like (rest y) = http_like f.
Proof.
  unfold http_like. change (TransferProtocol (rest y)) with (TransferProtocol f).
  change (FakeType (rest y)) with (if with_transport f ["tcp"; "kcp"; "quic"]%str then FakeType f else []).
  unfold with_transport. destruct (decide (TransferProtocol f = "tcp"%str)) as [->|]; [done|].
  by rewrite (bool_decide_false (TransferProtocol f = "tcp"%str)).
Qed.

Lemma trojan_image_idem : trojan_image upSpeed downSpeed y = y.
Proof.
  pose proof trojan_http_like as Hhttp. pose proof link_option_image as Hopt. remember y as z eqn:Ez. rewrite Ez at 2.
  assert (Hw : with_transport (rest z) = with_transport f) by (by rewrite Ez).
  assert (Hhost : Host (rest z) = orElse (if http_like f || with_transport f ["quic"%str] then Host f else [])
    (orElse (ServerName f) (Host f))) by (by rewrite Ez).
  assert (Hsni : ServerName (rest z) = orElse (ServerName f) (Host f)) by (by rewrite Ez).
  unfold trojan_image. cbv zeta. rewrite Hhttp, Hw, Hhost, Hsni. f_equal; [..|by apply kept_options_ext]; clear Hhost Hsni; rewrite ?Ez; try reflexivity.
  - apply remark_or_twice.
  - change (tribool_of_bool (flag (tribool_of_bool (flag (AllowInsecure f)))) = tribool_of_bool (flag (AllowInsecure f))).
    by destruct (flag (AllowInsecure f)).
  - apply orElse_self.
  - change (FakeType (rest y)) with (if with_transport f ["tcp"; "kcp"; "quic"]%str then FakeType f else []).
    by destruct (with_transport f ["tcp"; "kcp"; "quic"]%str).
  - destruct (http_like f || _), (ServerName f), (Host f); reflexivity.
  - change (Path (rest y)) with (if http_like f then orElse (Path f) "/"%str
      else if with_transport f ["kcp"; "grpc"; "quic"]%str then Path f else []).
    destruct (http_like f); [apply orElse_self|by destruct (with_transport f ["kcp"; "grpc"; "quic"]%str)].
  - change (GRPCMode (rest y)) with (if with_transport f ["grpc"; "xhttp"]%str then GRPCMode f else []).
    by destruct (with_transport f ["grpc"; "xhttp"]%str).
  - destruct (http_like f || _), (ServerName f), (Host f); reflexivity.
Qed.

(** The query of the image has no other texts than the query of the node. *)
Lemma trojan_image_values : TransferProtocol f ∈ xray_transports -> Forall (fun kv : str * str => clean kv.2) (trojan_query x) ->
  xrayLinkOption x "pqv" = [] /\ xrayLinkOption x "spx" = [] -> Forall (fun kv : str * str => clean kv.2) (trojan_query y).
Proof.
  intros Ht Hcl Ho. unfold trojan_query in *. rewrite !Forall_app in *.
  destruct Hcl as (H1 & H2 & H3 & H4 & H5 & H6 & H7).
  assert (Hopt : forall key, key ∈ xray_option_keys -> xrayLinkOption y key = link_option x key) by (intros; by apply kept_option).
  assert (Hflag : flag (AllowInsecure (rest y)) = flag (AllowInsecure f)).
  { change (flag (tribool_of_bool (flag (AllowInsecure f))) = flag (AllowInsecure f)). by destruct (flag (AllowInsecure f)). }
  assert (Hsni : clean (orElse (ServerName f) (Host f))) by (by apply (clean_in _ "sni" _ H3); left).
  assert (Hhost : Host (rest y) = orElse (if http_like f || with_transport f ["quic"%str] then Host f else [])
    (orElse (ServerName f) (Host f))) by done.
  split_and!; try done; rewrite ?Hflag; try done.
  - repeat apply Forall_cons_2; [|by destruct (flag _)|done]. change (TLSStr (rest y)) with (orElse (TLSStr f) "tls").
    cbn [snd]. rewrite orElse_self. by apply (clean_in _ "security" _ H1); left.
  - apply Forall_cons in H3 as [_ H3]. apply Forall_cons_2; [|exact H3]. cbn [snd]. rewrite Hhost.
    change (ServerName (rest y)) with (orElse (ServerName f) (Host f)).
    replace (orElse _ (orElse _ _)) with (orElse (ServerName f) (Host f)); [done|].
    destruct (http_like f || _), (ServerName f), (Host f); reflexivity.
  - clear H1 H2 H3 H4 H5 H7. unfold trojan_transport in *. cbv zeta in *. change (TransferProtocol (rest y)) with (TransferProtocol f).
    rewrite !Hopt by (apply option_keys; set_solver). unfold http_options in *. rewrite Hhost.
    change (FakeType (rest y)) with (if with_transport f ["tcp"; "kcp"; "quic"]%str then FakeType f else []).
    change (GRPCMode (rest y)) with (if with_transport f ["grpc"; "xhttp"]%str then GRPCMode f else []).
    change (Path (rest y)) with (if http_like f then orElse (Path f) "/"%str
      else if with_transport f ["kcp"; "grpc"; "quic"]%str then Path f else []).
    unfold link_option, with_transport, http_like in *. unfold xray_transports in Ht.
    repeat (apply elem_of_cons in Ht as [Ht|Ht]; [|]); [..|by apply not_elem_of_nil in Ht].
    all: rewrite !Ht in *; lazymatch type of Ht with _ = ?t => literal_bools_in t end.
    all: try (destruct (bool_decide (FakeType f = "http"%str)); cbn [orb] in * ); rewrite ?orElse_self; clean_values_tac.
  - replace (link_options y ["fm"; "ech"; "pcs"; "vcn"]%str) with (link_options x ["fm"; "ech"; "pcs"; "vcn"]%str); [done|].
    unfold link_options. cbn [fmap list_fmap]. by rewrite !Hopt by (apply option_keys; set_solver).
Qed.

Lemma trojan_image_ok : trojan_ok x -> trojan_ok y.
Proof.
  intros [Hh Hp Hpw Hr Ht Hal Hcl Ho].
  constructor; [exact Hh|exact Hp|exact Hpw|by apply remark_clean|exact Ht|exact Hal|by apply trojan_image_values|].
  rewrite !(kept_option y (link_option x)) by (done || apply option_keys; set_solver). exact Ho.
Qed.
End Trojan.

(** ** VLESS *)

Section Vless.
Context `{!Pcre} (upSpeed downSpeed : Z) (x : Node).
Hypothesis ok : vless_ok x.
Notation y := (vless_image upSpeed downSpeed x).
Notation f := (rest x).

Lemma vless_hostname : trim (Hostname x) true true = Hostname x /\ c_str (Hostname x) = Hostname x.
Proof.
  pose proof (vless_host x ok) as Hh. unfold host_ok in Hh. apply andb_prop in Hh as [_ Hh]. rewrite forallb_forall in Hh.
  assert (Hb : forall c, c ∈ Hostname x -> c <> " "%char /\ c <> "000"%char).
  { intros c Hc%list_elem_of_In%Hh. by split; intros ->. }
  split; [apply trim_no_space; intros Hc%Hb; tauto|]. apply c_str_id. intros Hc%Hb. tauto.
Qed.

Lemma host_or_cases h : trim h true true = h -> host_or h (Hostname x) = Hostname x \/ host_or h (Hostname x) = h.
Proof. intros Ht. destruct vless_hostname as [_ Hc]. unfold host_or. rewrite Ht, Hc. case_match; tauto. Qed.

Lemma host_or_trim h : trim h true true = h -> trim (host_or h (Hostname x)) true true = host_or h (Hostname x).
Proof. intros Ht. destruct (host_or_cases h Ht) as [-> | ->]; [by apply vless_hostname|done]. Qed.

Lemma host_or_twice h : trim h true true = h -> host_or (host_or h (Hostname x)) (Hostname x) = host_or h (Hostname x).
Proof.
  intros Ht. destruct vless_hostname as [Htr Hc]. destruct (host_or_cases h Ht) as [E|E]; rewrite E; [|exact E].
  destruct (host_ok_facts _ (vless_host x ok)) as [Hne _]. unfold host_or. by rewrite (bool_decide_false (Hostname x = [])), Htr.
Qed.

(** The host that the link of a transport with a host gives. *)
Definition http_host : str := if http_like f then Host f else [].

Lemma http_host_trim : trim http_host true true = http_host.
Proof. unfold http_host. destruct (http_like f); [by apply vless_host_text|done]. Qed.

Lemma vless_link_option key : key ∈ xray_option_keys -> xrayLinkOption y key = link_option x key.
Proof. by apply kept_option. Qed.

Lemma vless_link_option_image key : key ∈ xray_option_keys -> link_option y key = link_option x key.
Proof.
  intros Hk. unfold link_option at 1. rewrite (vless_link_option key Hk).
  change (with_transport (rest y)) with (with_transport f). unfold link_option. by repeat case_match.
Qed.

Lemma vless_http_like : http_like (rest y) = http_like f.
Proof.
  unfold http_like. change (TransferProtocol (rest y)) with (TransferProtocol f).
  change (FakeType (rest y)) with (if with_transport f ["grpc"; "xhttp"]%str then [] else FakeType f).
  unfold with_transport. destruct (decide (TransferProtocol f = "tcp"%str)) as [->|]; [done|].
  by rewrite (bool_decide_false (TransferProtocol f = "tcp"%str)).
Qed.

Lemma vless_host_image : Host (rest y) =
  if with_transport f ["grpc"%str] then [] else if with_transport f ["quic"%str] then Host f else host_or http_host (Hostname x).
Proof. done. Qed.

Lemma vless_security_image :
  (if negb (bool_decide (PublicKey (rest y) = [])) then "reality"%str else TLSStr (rest y)) = TLSStr (rest y).
Proof.
  change (PublicKey (rest y)) with (PublicKey f).
  change (TLSStr (rest y)) with (if negb (bool_decide (PublicKey f = [])) then "reality"%str else TLSStr f).
  by destruct (negb _).
Qed.

Lemma vless_flag_image : flag (AllowInsecure (rest y)) = flag (AllowInsecure f).
Proof.
  change (flag (if flag (AllowInsecure f) then true_value else indeterminate) = flag (AllowInsecure f)).
  by destruct (flag (AllowInsecure f)).
Qed.

Lemma vless_image_idem : vless_image upSpeed downSpeed y = y.
Proof.
  pose proof vless_http_like as Hhttp. pose proof vless_link_option_image as Hopt. pose proof vless_host_image as Hhost.
  pose proof vless_security_image as Hsec. pose proof vless_flag_image as Hflag.
  remember y as z eqn:Ez. rewrite Ez at 2. assert (Hw : with_transport (rest z) = with_transport f) by (by rewrite Ez).
  assert (Hn : Hostname z = Hostname x) by (by rewrite Ez).
  unfold vless_image. cbv zeta. rewrite Hhttp, Hw, Hhost, Hsec, Hflag, Hn. f_equal; [..|by apply kept_options_ext];
    clear Hhttp Hhost Hsec Hflag; rewrite ?Ez; try reflexivity.
  - apply remark_or_twice.
  - apply orElse_self.
  - apply orElse_self.
  - change (FakeType (rest y)) with (if with_transport f ["grpc"; "xhttp"]%str then [] else FakeType f).
    by destruct (with_transport f ["grpc"; "xhttp"]%str).
  - change (GRPCMode (rest y)) with (if with_transport f ["grpc"%str] then orElse (GRPCMode f) "gun"%str
      else if with_transport f ["xhttp"%str] then GRPCMode f else []).
    destruct (with_transport f ["grpc"%str]); [apply orElse_self|by destruct (with_transport f ["xhttp"%str])].
  - change (GRPCServiceName (rest y)) with (if with_transport f ["grpc"%str] then orElse (GRPCServiceName f) "/"%str else []).
    destruct (with_transport f ["grpc"%str]); [apply orElse_self|done].
  - change (QUICSecret (rest y)) with (if with_transport f ["quic"%str] then QUICSecret f else []).
    by destruct (with_transport f ["quic"%str]).
  - destruct (with_transport f ["grpc"%str]), (with_transport f ["quic"%str]); try done. fold http_host.
    pose proof (host_or_twice _ http_host_trim) as Htwice. unfold http_host in *. by destruct (http_like f).
  - change (Path (rest y)) with (if with_transport f ["grpc"%str] || with_transport f ["quic"%str] then []
      else if http_like f || with_transport f ["kcp"%str] then orElse (Path f) "/"%str else "/"%str).
    destruct (with_transport f ["grpc"%str] || with_transport f ["quic"%str]); [done|].
    destruct (http_like f || with_transport f ["kcp"%str]); [apply orElse_self|done].
Qed.

Lemma vless_image_values : Forall (fun kv : str * str => clean kv.2) (vless_query y).
Proof.
  pose proof (vless_transport_known x ok) as Ht. pose proof (vless_values x ok) as Hcl. pose proof vless_link_option as Hopt.
  unfold vless_query in *. rewrite vless_security_image, vless_flag_image, !Forall_app in *.
  destruct Hcl as (H1 & H2 & H3 & H4 & H5 & H6). split_and!; try done.
  - apply Forall_cons in H1 as [He H1]. apply Forall_cons_2; [|exact H1]. cbn [snd].
    change (Encryption (rest y)) with (orElse (Encryption f) "none"%str). by rewrite orElse_self.
  - clear H1 H2 H3 H4 H6. rewrite (vless_transport_cases x Ht) in H5. rewrite (vless_transport_cases y Ht). cbv zeta in *.
    rewrite !Hopt by (apply option_keys; set_solver). unfold http_options in *. rewrite vless_host_image.
    assert (Hclean : clean (Host f) -> clean (host_or http_host (Hostname x))).
    { intros Hf. destruct (host_or_cases _ http_host_trim) as [-> | ->]; [|unfold http_host; by destruct (http_like f)].
      by destruct (host_ok_facts _ (vless_host x ok)) as (_ & Hc & _). }
    change (TransferProtocol (rest y)) with (TransferProtocol f).
    change (FakeType (rest y)) with (if with_transport f ["grpc"; "xhttp"]%str then [] else FakeType f).
    change (GRPCMode (rest y)) with (if with_transport f ["grpc"%str] then orElse (GRPCMode f) "gun"%str
      else if with_transport f ["xhttp"%str] then GRPCMode f else []).
    change (GRPCServiceName (rest y)) with (if with_transport f ["grpc"%str] then orElse (GRPCServiceName f) "/"%str else []).
    change (QUICSecret (rest y)) with (if with_transport f ["quic"%str] then QUICSecret f else []).
    change (Path (rest y)) with (if with_transport f ["grpc"%str] || with_transport f ["quic"%str] then []
      else if http_like f || with_transport f ["kcp"%str] then orElse (Path f) "/"%str else "/"%str).
    change (ServerName (rest y)) with (ServerName f).
    unfold link_option, with_transport, http_like in *. unfold xray_transports in Ht.
    repeat (apply elem_of_cons in Ht as [Ht|Ht]; [|]); [..|by apply not_elem_of_nil in Ht].
    all: rewrite !Ht in *; lazymatch type of Ht with _ = ?t => literal_bools_in t end.
    all: try (destruct (bool_decide (FakeType f = "http"%str)); cbn [orb] in * ); rewrite ?orElse_self.
    all: clean_values_tac.
  - replace (link_options y ["fm"; "ech"; "pcs"; "vcn"; "pqv"; "spx"]%str)
      with (link_options x ["fm"; "ech"; "pcs"; "vcn"; "pqv"; "spx"]%str); [done|].
    unfold link_options. cbn [fmap list_fmap]. by rewrite !Hopt by (apply option_keys; set_solver).
Qed.

Lemma vless_image_ok : vless_ok y.
Proof.
  pose proof ok as [Hh Hp Hu Hr Ht Hal _ Htrim Hq].
  constructor; [exact Hh|exact Hp| |by apply remark_clean|exact Ht|exact Hal|apply vless_image_values| |].
  - change (UserId (rest y)) with (orElse (UserId f) no_uuid). by apply vless_user_text.
  - rewrite vless_host_image. destruct (with_transport f ["grpc"%str]); [done|]. destruct (with_transport f ["quic"%str]); [done|].
    apply host_or_trim, http_host_trim.
  - change (TransferProtocol (rest y)) with (TransferProtocol f). intros Eq. rewrite vless_host_image.
    change (QUICSecret (rest y)) with (if with_transport f ["quic"%str] then QUICSecret f else []).
    unfold with_transport. rewrite Eq. exact (Hq Eq).
Qed.


End Vless.
