(* ===== verification/LinkList.v ===== *)
(** * A subscription of links, written and read back

    The list of links that the exporter writes for Shadowsocks, Trojan and
    VLESS nodes is read by the last stage of [explodeSub] as the images of the
    nodes, in order.  The statistics of the exporter account for every node. *)

From S2P Require Import Prelude Str StringUtil Codec Regexp NodeSelect Node ShareUri SharePrinted ShareParse.
From S2P Require Import JsonValue VmessLinks JsonNodes Explode SharePrint ShareRoundtrip VlessRoundtrip LinkImage.
Open Scope nat_scope.

(** ** Links without line breaks *)

(** A text without the bytes [bad]. *)
Definition free_of (bad : ascii -> bool) (s : str) : Prop := forall c, bad c = true -> c ∉ s.

(** The bytes of a link besides those of its host. *)
Definition link_byte (c : ascii) : bool := unreserved c || one_of "%=&/?#@:[]" c.

Section Free.
Context (bad : ascii -> bool) (Hbad : forall c, link_byte c = true -> bad c = false).
Notation one_line := (free_of bad).

Lemma one_line_app a b : one_line a -> one_line b -> one_line (a ++ b).
Proof. intros Ha Hb c Hc [Hin|Hin]%elem_of_app; [by apply (Ha c)|by apply (Hb c)]. Qed.

Lemma one_line_text s : forallb link_byte s = true -> one_line s.
Proof. intros H c Hc Hin. rewrite forallb_forall in H. apply list_elem_of_In, H, Hbad in Hin. by rewrite Hc in Hin. Qed.

Lemma bad_byte c : bad c = true -> unreserved c = false /\ one_of "%=&/?#@:[]" c = false.
Proof. intros Hc. apply orb_false_iff, not_true_is_false. intros H. apply Hbad in H. by rewrite Hc in H. Qed.

Lemma one_line_encoded s : one_line (urlEncode s).
Proof.
  intros c Hc. destruct (bad_byte c Hc) as [Hu Ho]. apply urlEncode_free. rewrite Hu. apply bool_decide_eq_false.
  intros ->. by vm_compute in Ho.
Qed.

Lemma one_line_urlsafe s : Forall (fun c => urlsafe_byte c = true) s -> one_line s.
Proof.
  intros Hs. apply one_line_text, forallb_forall. intros c Hc%list_elem_of_In. rewrite Forall_forall in Hs. apply Hs in Hc.
  revert c Hc. assert (H : forall c, negb (urlsafe_byte c) || link_byte c = true) by (apply all_bytes_spec; by vm_compute).
  intros c Hc. specialize (H c). by rewrite Hc in H.
Qed.

Lemma one_line_query l : keys_ok l = true -> one_line (joinShareQuery (append_all l)).
Proof.
  intros Hk. unfold joinShareQuery. destruct (append_all l) as [|i items] eqn:E; [by apply one_line_text|]. rewrite <- E.
  apply one_line_app; [by apply one_line_text|]. intros c Hc. apply (shared_query_free l Hk).
  destruct (bad_byte c Hc) as [-> Ho]. unfold one_of in *. apply bool_decide_eq_false in Ho. apply bool_decide_eq_false.
  intros Hin. apply Ho. revert Hin. rewrite !elem_of_cons. tauto.
Qed.

Lemma one_line_host h p : one_line h -> port_ok p -> one_line (shareLinkHost h ++ ":" ++ to_string p).
Proof.
  intros Hh Hp. destruct (port_text _ Hp) as (Hd & _). apply one_line_app; [|apply one_line_app; [by apply one_line_text|]].
  - unfold shareLinkHost. case_bool_decide; [|done]. repeat apply one_line_app; try done; by apply one_line_text.
  - intros c Hc. apply (digits_free _ _ Hd). destruct (bad_byte c Hc) as [Hu _]. unfold unreserved, isalnum in Hu. by bools.
Qed.

Lemma one_line_fragment s : one_line ("#" ++ urlEncode s).
Proof. apply one_line_app; [by apply one_line_text|apply one_line_encoded]. Qed.

Lemma ss_one_line x include_group include_remark : ss_ok x -> one_line (Hostname x) ->
  one_line (shadowsocksShareLink x include_group include_remark).
Proof.
  intros ok Hh. pose proof ok as [_ Hp _ _ [Hs _] _ _]. unfold shadowsocksShareLink.
  apply one_line_app; [by apply one_line_text|]. apply one_line_app; [|apply one_line_app; [by apply one_line_text|]].
  - unfold ss_userinfo. case_match; [repeat apply one_line_app; try apply one_line_encoded; by apply one_line_text|].
    apply one_line_urlsafe, strict_base64; [|done]. by destruct (EncryptMethod (rest x)).
  - rewrite !app_assoc, <- app_assoc. apply one_line_app; [rewrite <- app_assoc; by apply one_line_host|]. apply one_line_app.
    + rewrite ss_query_items by done. pose proof (one_line_query _ (ss_items_keys x include_group)) as Hq.
      unfold joinShareQuery in Hq. destruct (append_all _); [by apply one_line_text|].
      change ("/?" ++ ?y)%str with ("/" ++ "?" ++ y)%str. apply one_line_app; [by apply one_line_text|done].
    + case_match; [apply one_line_fragment|by apply one_line_text].
Qed.

Lemma link_one_line scheme user (x : Node) l : forallb link_byte scheme = true ->
  one_line user -> one_line (Hostname x) -> port_ok (Port x) -> keys_ok l = true ->
  one_line (scheme ++ user ++ "@" ++ shareLinkHost (Hostname x) ++ ":" ++ to_string (Port x) ++
            joinShareQuery (append_all l) ++ "#" ++ urlEncode (Remark x)).
Proof.
  intros Hs Hu Hh Hp Hk. apply one_line_app; [by apply one_line_text|]. apply one_line_app; [done|].
  apply one_line_app; [by apply one_line_text|].
  replace (shareLinkHost (Hostname x) ++ ":" ++ to_string (Port x) ++ joinShareQuery (append_all l) ++ "#" ++ urlEncode (Remark x))%str
    with ((shareLinkHost (Hostname x) ++ ":" ++ to_string (Port x)) ++ joinShareQuery (append_all l) ++ "#" ++ urlEncode (Remark x))%str
    by (by rewrite <- !app_assoc).
  apply one_line_app; [by apply one_line_host|]. apply one_line_app; [by apply one_line_query|apply one_line_fragment].
Qed.

End Free.

Definition line_break : ascii -> bool := one_of ["010"%char; "013"%char].
Notation one_line := (free_of line_break).

(** Line breaks and what is not ASCII. *)
Definition not_plain (c : ascii) : bool := line_break c || (128 <=? nat_of_ascii c).
Notation plain_line := (free_of not_plain).

Lemma link_byte_line c : link_byte c = true -> line_break c = false.
Proof.
  revert c. assert (H : forall c, negb (link_byte c) || negb (line_break c) = true) by (apply all_bytes_spec; by vm_compute).
  intros c Hc. specialize (H c). rewrite Hc in H. by apply negb_true_iff in H.
Qed.

Lemma link_byte_plain c : link_byte c = true -> not_plain c = false.
Proof.
  revert c. assert (H : forall c, negb (link_byte c) || negb (not_plain c) = true) by (apply all_bytes_spec; by vm_compute).
  intros c Hc. specialize (H c). rewrite Hc in H. by apply negb_true_iff in H.
Qed.

Lemma host_one_line h : host_ok h = true -> one_line h.
Proof.
  intros Hh c Hc Hin. unfold host_ok in Hh. bools. rewrite forallb_forall in *. apply list_elem_of_In in Hin.
  match goal with H : forall _, _ |- _ => apply H in Hin end. unfold line_break, host_byte, is_crlf in *. bools.
  unfold one_of in *. bools. set_solver.
Qed.

(** ** One node *)

Section Subscription.
Context `{!Pcre, !JsonReader, !JsonWriter}.
Context (upSpeed downSpeed : Z).

Definition vless_portable (x : Node) : Prop :=
  vless_ok x /\ isXrayUuid (orElse (UserId (rest x)) no_uuid) = true /\ plain_line (Hostname x).

(** Nodes that their links carry. *)
Definition portable (x : Node) : Prop :=
  match Type_ x with
  | Shadowsocks => ss_ok x
  | Trojan => trojan_ok x
  | VLESS => vless_portable x
  | _ => False
  end.

(** What the engine answers for VLESS links: a dot matches every byte of an
    ASCII text without line breaks. *)
Definition knows_vless : Prop := forall user rest, plain_line user -> plain_line rest ->
  regMatch ("vless://" ++ user ++ "@" ++ rest) "vless://(.*?)@(.*)" = true.

(** The node that is read back. *)
Definition link_image (x : Node) : Node :=
  match Type_ x with
  | Shadowsocks => ss_image upSpeed downSpeed x false true
  | Trojan => trojan_image upSpeed downSpeed x
  | VLESS => vless_image upSpeed downSpeed x
  | _ => x
  end.

Lemma kind_image x : portable x ->
  Type_ x = Shadowsocks /\ ss_ok x /\ link_image x = ss_image upSpeed downSpeed x false true \/
  Type_ x = Trojan /\ trojan_ok x /\ link_image x = trojan_image upSpeed downSpeed x \/
  Type_ x = VLESS /\ vless_portable x /\ link_image x = vless_image upSpeed downSpeed x.
Proof. unfold portable, link_image. destruct (Type_ x); tauto. Qed.

Lemma kind_portable y :
  (Type_ y = Shadowsocks -> ss_ok y -> portable y /\ link_image y = ss_image upSpeed downSpeed y false true) /\
  (Type_ y = Trojan -> trojan_ok y -> portable y /\ link_image y = trojan_image upSpeed downSpeed y) /\
  (Type_ y = VLESS -> vless_portable y -> portable y /\ link_image y = vless_image upSpeed downSpeed y).
Proof. unfold portable, link_image. split_and!; intros ->; tauto. Qed.

(** The node that is read back is carried by its link as it is. *)
Lemma link_image_portable x : portable x -> portable (link_image x) /\ link_image (link_image x) = link_image x.
Proof.
  intros [(_ & Hx & ->)|[(_ & Hx & ->)|(_ & (Hx & Hid & Hh) & ->)]]%kind_image.
  - destruct (kind_portable (ss_image upSpeed downSpeed x false true)) as (Hp & _).
    destruct Hp as [Hp ->]; [done|by apply ss_image_ok|]. split; [done|apply ss_image_idem].
  - destruct (kind_portable (trojan_image upSpeed downSpeed x)) as (_ & Hp & _).
    destruct Hp as [Hp ->]; [done|by apply trojan_image_ok|]. split; [done|apply trojan_image_idem].
  - destruct (kind_portable (vless_image upSpeed downSpeed x)) as (_ & _ & Hp).
    destruct Hp as [Hp ->]; [done| |split; [done|by apply vless_image_idem]]. split; [by apply vless_image_ok|split; [|exact Hh]].
    change (UserId (rest (vless_image upSpeed downSpeed x))) with (orElse (UserId (rest x)) no_uuid). by rewrite orElse_self.
Qed.

Lemma strFind_prefix p s : strFind (p ++ s) p = true.
Proof.
  unfold strFind, find. cbn [Nat.leb]. rewrite drop_0. apply bool_decide_eq_true.
  exists 0. destruct (p ++ s) eqn:E; cbn [find_aux]; rewrite <- E, starts_with_app; done.
Qed.

(** The link of a node is read by the parser of its kind. *)
Lemma portable_link profile x : knows_vless -> portable x ->
  for_shadowsocks profile = true -> for_trojan profile = true -> for_vless profile = true ->
  exists link, single_link profile x = Some link /\ Type_ x <> Mieru /\ one_line link /\ link <> [] /\
    startsWith link "mierus://" = false /\ Type_ (link_image x) <> Unknown /\
    forall next_id, explode upSpeed downSpeed link (newNode upSpeed downSpeed) next_id = Some (link_image x, next_id).
Proof.
  intros Hlaw Hx Hss Htr Hvl. unfold portable, single_link, link_image in *. destruct (Type_ x); try done.
  - exists (shadowsocksShareLink x false true). unfold ss_case. rewrite Hss.
    assert (Hh : host_ok (Hostname x) = true) by apply Hx.
    split_and!; try done; [by apply (ss_one_line _ link_byte_line); [|by apply host_one_line]|].
    intros next_id. rewrite <- (ss_read x Hx upSpeed downSpeed false true). reflexivity.
  - exists (trojanShareLink x). rewrite Htr. pose proof Hx as [Hh Hp _ _ _ _ _ _]. split_and!; try done.
    + apply (link_one_line _ link_byte_line "trojan://" (urlEncode (Password (rest x))));
        [done|by apply one_line_encoded, link_byte_line|by apply host_one_line|done|by apply trojan_query_keys].
    + intros next_id. rewrite <- (trojan_read x Hx upSpeed downSpeed). reflexivity.
  - destruct Hx as (Hx & Hid & Hplain). exists (vlessShareLink x). rewrite Hvl. pose proof Hx as [Hh Hp _ _ _ _ _ _ _].
    assert (Hu : plain_line (orElse (UserId (rest x)) no_uuid))
      by (apply one_line_urlsafe; [apply link_byte_plain|by apply vless_user_text]).
    assert (Hline : plain_line (vlessShareLink x))
      by (apply (link_one_line _ link_byte_plain "vless://"); [done|done|done|done|by apply vless_query_keys]).
    assert (Hre : regMatch (vlessShareLink x) "vless://(.*?)@(.*)" = true).
    { apply Hlaw; [done|]. intros c Hc Hin. apply (Hline c Hc). unfold vlessShareLink. rewrite !elem_of_app in *. tauto. }
    split_and!; try done.
    + intros c Hc. apply Hline. unfold not_plain. by rewrite Hc.
    + intros next_id. rewrite <- (vless_read x Hx Hre Hid upSpeed downSpeed).
      unfold explode. replace (strFind (vlessShareLink x) "vless://") with true by (symmetry; apply strFind_prefix). reflexivity.
Qed.

(** ** The list *)

Definition line (link : str) : str := link ++ ["010"%char].

Lemma getlines_lines links : Forall one_line links -> getlines "010" (concat (line <$> links)) = links.
Proof.
  intros Hl. unfold getlines.
  assert (Hf : fields "010" (concat (line <$> links)) = links ++ [[]]).
  { induction Hl as [|link links Hlink Hl IH]; [done|]. csimpl. unfold line at 1. rewrite <- app_assoc. cbn [app].
    rewrite fields_cons by (by apply Hlink). by rewrite IH. }
  by rewrite Hf, last_snoc, removelast_snoc.
Qed.

Lemma no_return links : Forall one_line links -> strip_return <$> links = links.
Proof.
  induction 1 as [|link links Hlink Hl IH]; [done|]. csimpl. rewrite IH. f_equal. unfold strip_return.
  destruct (existsb _ _) eqn:E; [|done]. apply existsb_exists in E as (c & Hc & E). unfold is_char in E. apply bool_decide_eq_true in E as ->.
  apply list_elem_of_In in Hc. by apply (Hlink "013"%char) in Hc.
Qed.

Lemma single_steps profile nodes st : knows_vless -> Forall portable nodes ->
  for_shadowsocks profile = true -> for_trojan profile = true -> for_vless profile = true ->
  exists links, allLinks (foldl (single_step profile) st nodes) = allLinks st ++ concat (line <$> links) /\
    Forall one_line links /\
    forall nodes' next_id, foldl (link_step upSpeed downSpeed) (Some (nodes', next_id)) links = Some (nodes' ++ (link_image <$> nodes), next_id).
Proof.
  intros Hlaw Hn Hss Htr Hvl. revert st. induction Hn as [|x nodes Hx Hn IH]; intros st.
  - exists []. split_and!; [by rewrite app_nil_r|done|]. intros. csimpl. by rewrite app_nil_r.
  - destruct (portable_link profile x Hlaw Hx Hss Htr Hvl) as (link & Hlink & Ht & Hline & Hne & Hm & Hu & Hread). cbn [foldl].
    unfold single_step at 2. rewrite bool_decide_false, Hlink by done. destruct (IH (write st x link)) as (links & Ha & Hl & Hfold).
    exists (link :: links). split_and!; [|by constructor|].
    + rewrite Ha. unfold write. cbn [allLinks]. csimpl. unfold line at 2. by rewrite <- !app_assoc.
    + intros nodes' next_id. cbn [foldl]. assert (Hstep : link_step upSpeed downSpeed (Some (nodes', next_id)) link = Some (nodes' ++ [link_image x], next_id)).
      { unfold link_step. assert (strip_return link = link) as ->.
        { pose proof (no_return [link] ltac:(by constructor)) as Hr. csimpl in Hr. by injection Hr. }
        rewrite Hm. unfold fresh. rewrite Hread, !bool_decide_false by done. done. }
      rewrite Hstep, Hfold. csimpl. by rewrite <- app_assoc.
Qed.

Lemma link_delimiter_lines links : links <> [] -> link_delimiter (concat (line <$> links)) = "010"%char.
Proof.
  destruct links as [|link links]; [done|]. intros _. unfold link_delimiter.
  assert (existsb (is_char "010") (concat (line <$> link :: links)) = true) as ->; [|done].
  apply existsb_exists. exists "010"%char. split; [|done]. apply list_elem_of_In. csimpl. unfold line.
  rewrite !elem_of_app. left. right. by left.
Qed.

(** The list that is exported, as the client decodes it. *)
Definition exported (profile : SingleLinkProfile) (nodes : list Node) : str :=
  urlSafeBase64Decode (proxyToSingleProfile nodes profile false).1.

Lemma exported_read profile nodes nodes' next_id : knows_vless -> Forall portable nodes ->
  for_shadowsocks profile = true -> for_trojan profile = true -> for_vless profile = true ->
  small (proxyToSingleProfile nodes profile true).1 ->
  explode_links upSpeed downSpeed (exported profile nodes) nodes' next_id = Some (nodes' ++ (link_image <$> nodes), next_id).
Proof.
  intros Hlaw Hn Hss Htr Hvl Hsize. unfold exported, proxyToSingleProfile in *. cbn [fst] in *.
  destruct (single_steps profile nodes (mkLinks [] (mieru_groups (for_shadowrocket profile) nodes) (mkStats (length nodes) 0 []))
    Hlaw Hn Hss Htr Hvl) as (links & Ha & Hl & Hfold).
  rewrite Ha in *. cbn [allLinks app] in *. unfold urlSafeBase64Decode.
  pose proof (codec_roundtrip (Codec := base64_codec true) _ Hsize) as [= ->]. unfold explode_links.
  destruct links as [|link links]; [exact (Hfold nodes' next_id)|].
  by rewrite link_delimiter_lines, getlines_lines, Hfold.
Qed.

Lemma images_portable nodes : Forall portable nodes ->
  Forall portable (link_image <$> nodes) /\ link_image <$> (link_image <$> nodes) = link_image <$> nodes.
Proof.
  induction 1 as [|x nodes Hx Hn [IH1 IH2]]; csimpl; [by split|]. destruct (link_image_portable x Hx) as [Hp Hi].
  split; [by constructor|]. by rewrite Hi, IH2.
Qed.

(** C3: a list of Shadowsocks, Trojan and VLESS nodes that links can carry,
    exported with a profile that has the three kinds and read back, gives each
    node in the normal form of its link ([link_image]: defaults of the parser
    for what the link leaves empty), in order, and nothing else; and these
    nodes are a fixed point: exported and read once more they are the same.
    Not carried are the options [pqv] and [spx] of Trojan, which the exporter
    leaves out, and of VLESS with QUIC a key that needs escaping or a missing
    host.  The exporter writes base64, so its texts must be shorter than 4 GB;
    of the regular expression engine it is used that a dot matches all bytes
    of an ASCII text but line breaks. *)
Theorem subscription_roundtrip profile nodes nodes' next_id :
  knows_vless -> Forall portable nodes ->
  for_shadowsocks profile = true -> for_trojan profile = true -> for_vless profile = true ->
  small (proxyToSingleProfile nodes profile true).1 -> small (proxyToSingleProfile (link_image <$> nodes) profile true).1 ->
  explode_links upSpeed downSpeed (exported profile nodes) nodes' next_id = Some (nodes' ++ (link_image <$> nodes), next_id) /\
  explode_links upSpeed downSpeed (exported profile (link_image <$> nodes)) nodes' next_id =
    Some (nodes' ++ (link_image <$> nodes), next_id).
Proof.
  intros Hlaw Hn Hss Htr Hvl Hs1 Hs2. destruct (images_portable nodes Hn) as [Hi He].
  split; [by apply exported_read|]. rewrite <- He at 2. by apply exported_read.
Qed.

(** ** What is emitted *)

(** The nodes of one mierus:// source. *)
Definition source_of (nodes : list Node) (id : str) : list Node :=
  filter (fun y => Type_ y = Mieru /\ MieruSourceId (rest y) = id) nodes.

(** The link that carries node [x] of [nodes]: one of its own, or that of its
    source, which only Shadowrocket has. *)
Definition node_link (profile : SingleLinkProfile) (nodes : list Node) (x : Node) : option str :=
  if bool_decide (Type_ x = Mieru) then
    if negb (for_shadowrocket profile) || bool_decide (MieruSourceId (rest x) = []) then None
    else buildShadowrocketMieruGroup (source_of nodes (MieruSourceId (rest x)))
  else single_link profile x.

Definition carried (profile : SingleLinkProfile) (nodes : list Node) (x : Node) : bool :=
  bool_decide (is_Some (node_link profile nodes x)).

(** The link of a source is written at its first node. *)
Definition opens_line (before : list Node) (x : Node) : bool :=
  negb (bool_decide (Type_ x = Mieru)) || bool_decide (source_of before (MieruSourceId (rest x)) = []).

Definition lines_at (profile : SingleLinkProfile) (nodes before : list Node) (x : Node) : list str :=
  match node_link profile nodes x with Some link => if opens_line before x then [link] else [] | None => [] end.

Definition export_lines (profile : SingleLinkProfile) (nodes : list Node) : list str :=
  concat (imap (fun i x => lines_at profile nodes (take i nodes) x) nodes).

Lemma track_input stats type emitted : input_nodes (track stats type emitted) = input_nodes stats.
Proof. by destruct emitted. Qed.

(** The nodes that are counted as unsupported of a type. *)
Definition unsupported_of (type : ProxyType) (stats : TargetGenerationStats) : nat :=
  sum_list (filter (fun entry => entry.1 = type) (unsupported_by_type stats)).*2.

Definition refused (profile : SingleLinkProfile) (nodes : list Node) (type : ProxyType) (l : list Node) : list Node :=
  filter (fun x => Type_ x = type /\ carried profile nodes x = false) l.

Lemma count_type_of type t l :
  sum_list (filter (fun entry : ProxyType * nat => entry.1 = t) (count_type type l)).*2 =
  (if bool_decide (type = t) then 1 else 0) + sum_list (filter (fun entry => entry.1 = t) l).*2.
Proof.
  induction l as [|[u n] l IH]; cbn [count_type].
  - rewrite filter_cons. cbn [fst]. repeat case_decide; repeat case_bool_decide; by simplify_eq/=.
  - destruct (decide (u = type)) as [->|E].
    + rewrite (bool_decide_true (type = type)), !filter_cons by done. cbn [fst]. case_decide; case_bool_decide; by simplify_eq/=.
    + rewrite (bool_decide_false (u = type)) by done. rewrite !filter_cons. cbn [fst]. destruct (decide (u = t)); [|exact IH].
      rewrite !fmap_cons. cbn [sum_list sum_list_with foldr snd id]. rewrite IH. lia.
Qed.

Lemma mieru_groups_lookup nodes id : id <> [] ->
  mieru_groups true nodes !! id =
  match source_of nodes id with [] => None | group => Some (mkGroup group None false) end.
Proof.
  intros Hid. unfold mieru_groups. induction nodes as [|x nodes IH] using rev_ind; [done|].
  unfold source_of in *. rewrite foldl_app, filter_app. cbn [foldl]. rewrite filter_cons, filter_nil.
  set (m := foldl _ _ nodes) in *. destruct (decide (Type_ x = Mieru /\ MieruSourceId (rest x) = id)) as [[Ht He]|Hn].
  - rewrite Ht, He, bool_decide_true, bool_decide_false by done. cbn [andb negb]. rewrite lookup_insert, decide_True by done.
    rewrite IH. by destruct (filter _ nodes).
  - rewrite app_nil_r, <- IH. case_bool_decide; [|done]. case_bool_decide; [done|]. cbn [andb negb].
    rewrite lookup_insert_ne by tauto. done.
Qed.

(** What the loop has done after the nodes [pre] of [nodes]. *)
Record progress (profile : SingleLinkProfile) (nodes pre : list Node) (st : Links) : Prop := {
  progress_text : allLinks st = concat (line <$> concat (imap (fun i x => lines_at profile nodes (take i pre) x) pre));
  progress_input : input_nodes (stats st) = length nodes;
  progress_emitted : emitted_nodes (stats st) = length (filter (fun x => carried profile nodes x = true) pre);
  progress_refused type : unsupported_of type (stats st) = length (refused profile nodes type pre);
  progress_groups id : for_shadowrocket profile = true -> id <> [] -> source_of nodes id <> [] ->
    exists built, groups st !! id = Some (mkGroup (source_of nodes id) built
      (bool_decide (source_of pre id <> []) && bool_decide (is_Some (buildShadowrocketMieruGroup (source_of nodes id))))) /\
    (built = None \/ built = Some (buildShadowrocketMieruGroup (source_of nodes id)))
}.

Lemma imap_before_snoc {A B} (f : list A -> A -> B) l x :
  imap (fun i y => f (take i (l ++ [x])) y) (l ++ [x]) = imap (fun i y => f (take i l) y) l ++ [f l x].
Proof.
  rewrite imap_app. cbn [imap]. rewrite Nat.add_0_r, take_app_length. f_equal. apply imap_ext. intros i y Hi.
  f_equal. rewrite take_app_le; [done|]. apply lookup_lt_Some in Hi. lia.
Qed.

Lemma refused_snoc profile nodes type pre x :
  length (refused profile nodes type (pre ++ [x])) =
  length (refused profile nodes type pre) + (if bool_decide (Type_ x = type) && negb (carried profile nodes x) then 1 else 0).
Proof.
  unfold refused. rewrite filter_app, length_app, filter_cons, filter_nil. f_equal.
  case_decide as Hd; destruct (carried profile nodes x); case_bool_decide; naive_solver.
Qed.

Lemma carried_snoc profile nodes pre x :
  length (filter (fun y => carried profile nodes y = true) (pre ++ [x])) =
  length (filter (fun y => carried profile nodes y = true) pre) + Nat.b2n (carried profile nodes x).
Proof.
  rewrite filter_app, length_app, filter_cons, filter_nil. f_equal. case_decide as Hd; [by rewrite Hd|].
  by destruct (carried profile nodes x).
Qed.

Lemma track_unsupported stats type t emitted :
  unsupported_of t (track stats type emitted) =
  unsupported_of t stats + (if bool_decide (type = t) && negb emitted then 1 else 0).
Proof.
  unfold unsupported_of, track. destruct emitted; cbn [unsupported_by_type negb]; [rewrite andb_false_r; lia|].
  rewrite count_type_of, andb_true_r. lia.
Qed.

(** A step that writes [lines] and accounts for its node. *)
Lemma progress_snoc profile nodes pre x st groups' lines :
  progress profile nodes pre st -> lines = lines_at profile nodes pre x ->
  (forall id, for_shadowrocket profile = true -> id <> [] -> source_of nodes id <> [] ->
    exists built, groups' !! id = Some (mkGroup (source_of nodes id) built
      (bool_decide (source_of (pre ++ [x]) id <> []) && bool_decide (is_Some (buildShadowrocketMieruGroup (source_of nodes id))))) /\
    (built = None \/ built = Some (buildShadowrocketMieruGroup (source_of nodes id)))) ->
  progress profile nodes (pre ++ [x])
    (mkLinks (allLinks st ++ concat (line <$> lines)) groups' (track (stats st) (Type_ x) (carried profile nodes x))).
Proof.
  intros [Ht Hi He Hr _] -> Hg. split; cbn [allLinks stats groups]; [| | | |done].
  - rewrite Ht, (imap_before_snoc (lines_at profile nodes)), concat_app, fmap_app, concat_app. cbn [concat]. by rewrite app_nil_r.
  - by rewrite track_input.
  - rewrite carried_snoc, <- He. unfold track. destruct (carried profile nodes x); cbn [emitted_nodes Nat.b2n]; lia.
  - intros type. by rewrite track_unsupported, Hr, refused_snoc.
Qed.

Lemma source_of_snoc pre x id :
  source_of (pre ++ [x]) id =
  source_of pre id ++ (if bool_decide (Type_ x = Mieru /\ MieruSourceId (rest x) = id) then [x] else []).
Proof.
  unfold source_of. rewrite filter_app, filter_cons, filter_nil. f_equal.
  case_decide; [by rewrite bool_decide_true|by rewrite bool_decide_false].
Qed.

(** A node that is not of a source that may be written. *)
Lemma groups_kept profile nodes pre x st : progress profile nodes pre st ->
  (Type_ x <> Mieru \/ for_shadowrocket profile = false \/ MieruSourceId (rest x) = []) ->
  forall id, for_shadowrocket profile = true -> id <> [] -> source_of nodes id <> [] ->
    exists built, groups st !! id = Some (mkGroup (source_of nodes id) built
      (bool_decide (source_of (pre ++ [x]) id <> []) && bool_decide (is_Some (buildShadowrocketMieruGroup (source_of nodes id))))) /\
    (built = None \/ built = Some (buildShadowrocketMieruGroup (source_of nodes id))).
Proof.
  intros Hp Hx id Hs Hid Hne. rewrite source_of_snoc.
  assert (bool_decide (Type_ x = Mieru /\ MieruSourceId (rest x) = id) = false) as ->; [|rewrite app_nil_r; by apply Hp].
  apply bool_decide_eq_false. intros [Hm E]. destruct Hx as [?|[Hf|?]]; congruence.
Qed.

(** The group of a source after one of its nodes. *)
Lemma groups_moved profile nodes pre x st built' : progress profile nodes pre st ->
  Type_ x = Mieru ->
  let source := source_of nodes (MieruSourceId (rest x)) in
  built' = Some (buildShadowrocketMieruGroup source) ->
  forall id, for_shadowrocket profile = true -> id <> [] -> source_of nodes id <> [] ->
    exists built, <[MieruSourceId (rest x) := mkGroup source built' (bool_decide (is_Some (buildShadowrocketMieruGroup source)))]>
        (groups st) !! id = Some (mkGroup (source_of nodes id) built
      (bool_decide (source_of (pre ++ [x]) id <> []) && bool_decide (is_Some (buildShadowrocketMieruGroup (source_of nodes id))))) /\
    (built = None \/ built = Some (buildShadowrocketMieruGroup (source_of nodes id))).
Proof.
  intros Hp Hm source Hb id Hs Hid Hne. destruct (decide (MieruSourceId (rest x) = id)) as [E|E].
  - exists built'. subst source. rewrite E in *. rewrite lookup_insert, decide_True by done.
    rewrite source_of_snoc, (bool_decide_true (_ /\ _)) by done.
    rewrite (bool_decide_true (_ ++ [x] <> [])) by (by destruct (source_of pre id)). split; [done|by right].
  - rewrite lookup_insert_ne by done. rewrite source_of_snoc. assert (bool_decide (Type_ x = Mieru /\ MieruSourceId (rest x) = id) = false) as ->
      by (apply bool_decide_eq_false; tauto). rewrite app_nil_r. by apply Hp.
Qed.

Lemma single_step_progress profile nodes pre x st :
  x ∈ nodes -> progress profile nodes pre st -> progress profile nodes (pre ++ [x]) (single_step profile st x).
Proof.
  intros Hin Hp. pose proof (progress_snoc profile nodes pre x st) as Hsnoc.
  unfold lines_at, carried, node_link, opens_line in Hsnoc. unfold single_step. case_bool_decide as Hm.
  2: { destruct (single_link profile x) as [link|]; cbn [negb orb] in Hsnoc.
    - rewrite bool_decide_true in Hsnoc by done. specialize (Hsnoc (groups st) [link] Hp eq_refl).
      cbn [fmap list_fmap concat] in Hsnoc. rewrite app_nil_r in Hsnoc. apply Hsnoc, groups_kept; [done|by left].
    - rewrite bool_decide_false in Hsnoc by (by intros [? ?]). specialize (Hsnoc (groups st) [] Hp eq_refl).
      cbn [fmap list_fmap concat] in Hsnoc. rewrite app_nil_r in Hsnoc. apply Hsnoc, groups_kept; [done|by left]. }
  unfold mieru_case. destruct (negb (for_shadowrocket profile) || bool_decide (MieruSourceId (rest x) = [])) eqn:Ec.
  { rewrite bool_decide_false in Hsnoc by (by intros [? ?]). specialize (Hsnoc (groups st) [] Hp eq_refl).
    cbn [fmap list_fmap concat] in Hsnoc. rewrite app_nil_r in Hsnoc. apply Hsnoc, groups_kept; [done|right].
    apply orb_true_iff in Ec as [E|E]; [left; by apply negb_true_iff|right; by apply bool_decide_eq_true in E]. }
  apply orb_false_iff in Ec as [Hs Hid%bool_decide_eq_false]. apply negb_false_iff in Hs.
  set (id := MieruSourceId (rest x)) in *. set (source := source_of nodes id) in *.
  assert (Hne : source <> []).
  { intros E. apply (not_elem_of_nil x). rewrite <- E. by apply list_elem_of_filter. }
  destruct (progress_groups _ _ _ _ Hp id Hs Hid Hne) as (built & Hg & Hb). fold source in Hg, Hb. rewrite Hg.
  cbn [built_link members written].
  assert (Hlink : match built with Some link => link | None => buildShadowrocketMieruGroup source end =
    buildShadowrocketMieruGroup source) by (by destruct Hb as [->| ->]).
  rewrite Hlink. pose proof (groups_moved profile nodes pre x st _ Hp Hm eq_refl) as Hmoved. cbv zeta in Hmoved.
  fold id source in Hmoved. cbn [negb orb] in Hsnoc. revert Hsnoc Hmoved.
  destruct (buildShadowrocketMieruGroup source) as [text|]; intros Hsnoc Hmoved.
  - rewrite (bool_decide_true (is_Some (Some text))) in * by done. rewrite andb_true_r. rewrite bool_decide_not.
    destruct (decide (source_of pre id = [])) as [E|E].
    + rewrite (bool_decide_true _ E) in *. cbn [negb]. specialize (Hsnoc _ [text] Hp eq_refl Hmoved).
      cbn [fmap list_fmap concat] in Hsnoc. by rewrite app_nil_r in Hsnoc.
    + rewrite (bool_decide_false _ E) in *. cbn [negb]. specialize (Hsnoc _ [] Hp eq_refl Hmoved).
      cbn [fmap list_fmap concat] in Hsnoc. by rewrite app_nil_r in Hsnoc.
  - rewrite (bool_decide_false (is_Some None)) in * by (by intros [? ?]). rewrite andb_false_r.
    specialize (Hsnoc _ [] Hp eq_refl Hmoved). cbn [fmap list_fmap concat] in Hsnoc. by rewrite app_nil_r in Hsnoc.
Qed.

(** C27: an export writes and counts exactly the nodes that its profile has a
    link for: the text is the list of their links, one per node and one per
    mierus:// source at its first node; a node is counted as emitted when it
    or its source has a link, and otherwise as unsupported under its type. *)
Theorem export_accounts_for_every_node profile nodes nodelist :
  input_nodes (proxyToSingleProfile nodes profile nodelist).2 = length nodes /\
  emitted_nodes (proxyToSingleProfile nodes profile nodelist).2 =
    length (filter (fun x => carried profile nodes x = true) nodes) /\
  (forall type, unsupported_of type (proxyToSingleProfile nodes profile nodelist).2 =
    length (filter (fun x => Type_ x = type /\ carried profile nodes x = false) nodes)) /\
  (proxyToSingleProfile nodes profile nodelist).1 =
    (if nodelist then concat (line <$> export_lines profile nodes)
     else base64Encode (concat (line <$> export_lines profile nodes))).
Proof.
  unfold proxyToSingleProfile. cbn [fst snd].
  set (st := foldl _ _ nodes). enough (Hp : progress profile nodes nodes st).
  { destruct Hp as [Ht Hi He Hr _]. split_and!; [done|done|done|]. by rewrite Ht. }
  subst st. assert (Hall : forall l pre st, (forall x, x ∈ l -> x ∈ nodes) -> progress profile nodes pre st ->
    progress profile nodes (pre ++ l) (foldl (single_step profile) st l)).
  { induction l as [|x l IH]; intros pre st Hl Hp; [by rewrite app_nil_r|]. cbn [foldl]. rewrite (cons_middle x pre l), app_assoc.
    apply IH; [|apply single_step_progress; [|done]]; intros; apply Hl; by constructor. }
  apply (Hall nodes []); [done|]. split; try done. intros id Hs Hid Hne. exists None. cbn [groups].
  rewrite Hs, mieru_groups_lookup by done. split; [|by left]. by destruct (source_of nodes id).
Qed.
End Subscription.

(** ** An example *)

Definition hex_digit_char (c : ascii) : bool := bool_decide (is_Some (shareUriHexValue c)).

Definition uuid_text (s : str) : bool :=
  match fields "-" s with
  | [a; b; c; d; e] =>
      bool_decide ([length a; length b; length c; length d; length e] = [8; 4; 4; 4; 12]) &&
      forallb (forallb hex_digit_char) [a; b; c; d; e]
  | _ => false
  end.

(** An engine that knows the two patterns of VLESS links. *)
#[local] Instance vless_pcre : Pcre := {
  compiles _ p := bool_decide (p = "vless://(.*?)@(.*)"%str) ||
    bool_decide (p = "^[\da-fA-F]{8}-[\da-fA-F]{4}-[\da-fA-F]{4}-[\da-fA-F]{4}-[\da-fA-F]{12}$"%str);
  count _ p s := if bool_decide (p = "vless://(.*?)@(.*)"%str) then Nat.b2n (startsWith s "vless://" && strFind s "@")
    else Nat.b2n (uuid_text s);
  substrings _ _ _ := [];
  substitute _ _ _ s _ := s
}.
#[local] Instance no_json : JsonReader := fun _ => None.
#[local] Instance no_writer : JsonWriter := fun _ => [].

Definition example_ss : Node := { newNode 0 0 with Type_ := Shadowsocks; Remark := "Paris 1"%str;
  Hostname := "2001:db8::7"%str; Port := 8388%Z; rest -> EncryptMethod := "2022-blake3-aes-128-gcm"%str;
  rest -> Password := "a:b@c"%str; rest -> Plugin := "obfs-local"%str; rest -> PluginOption := "obfs=http"%str }.
Definition example_trojan : Node := { newNode 0 0 with Type_ := Trojan; Remark := "Rome"%str;
  Hostname := "rome.example"%str; Port := 443%Z; rest -> Password := "p#w"%str; rest -> TransferProtocol := "ws"%str;
  rest -> Path := "/a b"%str; rest -> AlpnList := ["h2"; "http/1.1"]%str; rest -> AllowInsecure := true_value }.
Definition example_vless : Node := { newNode 0 0 with Type_ := VLESS; Remark := "Oslo"%str;
  Hostname := "oslo.example"%str; Port := 8443%Z; rest -> UserId := "12345678-9abc-def0-1234-56789abcdef0"%str;
  rest -> TransferProtocol := "grpc"%str; rest -> GRPCServiceName := "svc"%str; rest -> TLSStr := "tls"%str }.
Definition example_nodes : list Node := [example_ss; example_trojan; example_vless].

Lemma clean_values l : forallb (fun kv => negb (has_crlf kv.2)) l = true -> Forall (fun kv : str * str => clean kv.2) l.
Proof. induction l as [|kv l IH]; [constructor|]. cbn [forallb]. intros Hl. bools. constructor; [done|by apply IH]. Qed.

Lemma known_transport t : existsb (str_eqb t) xray_transports = true -> t ∈ xray_transports.
Proof. intros (u & Hu & E)%existsb_exists. apply str_eqb_spec in E as ->. by apply list_elem_of_In. Qed.

Lemma example_ss_ok : ss_ok example_ss.
Proof.
  split; try (by vm_compute); [|repeat constructor; by vm_compute|].
  - split; [by vm_compute|]. apply (bool_decide_unpack _). by vm_compute.
  - split; [|done]. apply (bool_decide_unpack _). by vm_compute.
Qed.

Lemma example_trojan_ok : trojan_ok example_trojan.
Proof.
  split; try (by vm_compute); [by apply known_transport; vm_compute| |by apply clean_values; vm_compute].
  repeat constructor; try (by vm_compute); apply (bool_decide_unpack _); by vm_compute.
Qed.

Lemma example_vless_ok : vless_ok example_vless.
Proof.
  split; try (by vm_compute); [|by apply known_transport; vm_compute|by apply clean_values; vm_compute].
  apply (bool_decide_unpack _). by vm_compute.
Qed.

Lemma example_vless_text : isXrayUuid (orElse (UserId (rest example_vless)) no_uuid) = true /\ plain_line (Hostname example_vless).
Proof.
  split; [by vm_compute|]. intros c Hc Hin. apply list_elem_of_In in Hin. revert Hc. apply not_true_iff_false. revert c Hin.
  assert (forallb (fun c => negb (not_plain c)) (Hostname example_vless) = true) as H by (by vm_compute).
  rewrite forallb_forall in H. intros c Hin. by apply negb_true_iff, H.
Qed.

Lemma example_knows_vless : knows_vless.
Proof.
  intros user others _ _. unfold regMatch. cbn [compiles count vless_pcre].
  rewrite bool_decide_true by done. cbn [orb andb negb].
  assert (starts_with "vless://" ("vless://" ++ user ++ "@" ++ others) = true) as Hs by apply starts_with_app.
  unfold startsWith. rewrite Hs. cbn [andb].
  assert (strFind ("vless://" ++ user ++ "@" ++ others) "@" = true) as ->; [|done].
  unfold strFind, find. cbn [Nat.leb]. rewrite drop_0. apply bool_decide_eq_true.
  destruct (find_aux _ _ 0) eqn:E; [done|]. rewrite find_aux_None in E.
  specialize (E (length ("vless://" ++ user)%str)). rewrite app_assoc, drop_app_length in E.
  assert (true = false) as [=]. rewrite <- E; [done|]. rewrite !length_app. lia.
Qed.

Lemma example_portable : Forall portable example_nodes.
Proof.
  repeat apply Forall_cons_2; [exact example_ss_ok|exact example_trojan_ok| |apply Forall_nil_2].
  exact (conj example_vless_ok example_vless_text).
Qed.

Lemma subscription_roundtrip_witness :
  explode_links 0 0 (exported (legacySingleLinkProfile 63) example_nodes) [] 1 =
    Some ([] ++ (link_image 0 0 <$> example_nodes), 1%Z) /\
  explode_links 0 0 (exported (legacySingleLinkProfile 63) (link_image 0 0 <$> example_nodes)) [] 1 =
    Some ([] ++ (link_image 0 0 <$> example_nodes), 1%Z).
Proof.
  apply subscription_roundtrip; [exact example_knows_vless|exact example_portable|reflexivity|reflexivity|reflexivity| |];
    unfold small; vm_compute; reflexivity.
Defined.
