(* ===== verification/MieruGroup.v ===== *)
(** * Shadowrocket: a mierus:// source is put together again

    [explodeMierusNodes] makes one node of each port of a mierus:// link, and
    [buildShadowrocketMieruGroup] makes one link of the nodes of a source.
    Together they give the link of the configuration that was read. *)

From S2P Require Import Prelude Str StringUtil Codec Regexp NodeSelect NodeManip Node ShareUri SharePrinted.
From S2P Require Import ShareParse JsonValue VmessLinks JsonNodes Explode SharePrint ShareRoundtrip.
From S2P Require Import MieruUri.
Open Scope nat_scope.

(** A port that was accepted. *)
Definition binding_ok (b : MieruPortBinding) : Prop := parseMieruPortBinding (port b) (protocol b) = Some b.

(** What the parser of mierus:// links has checked. *)
Record parsed_ok (c : MieruSimpleConfig) : Prop := {
  parsed_user : username c <> [] /\ password c <> [] /\ profile c <> [];
  parsed_host : validMieruHost (host c) = true;
  parsed_mtu : (mtu c = 0 \/ 1280 <= mtu c <= 1400)%Z;
  parsed_enums : isValidMieruMultiplexing (multiplexing c) = true /\ isValidMieruHandshakeMode (handshake_mode c) = true /\
                 isValidMieruTrafficPattern (traffic_pattern c) = true;
  parsed_bindings : port_bindings c <> [] /\ Forall binding_ok (port_bindings c);
  parsed_texts : Forall no_control [username c; password c; profile c; remark c]
}.

Lemma decode_no_control plus n s t : length s <= n -> percentDecode plus s = Some t -> no_control t.
Proof.
  revert s t. induction n as [|n IH]; intros [|ch s] t Hn; try (simpl in Hn; lia); cbn [percentDecode]; try (intros [= <-]; apply Forall_nil_2).
  assert (Hcons : forall (d : ascii) (r t : str), length r <= n -> iscntrl d = false -> cons d <$> percentDecode plus r = Some t -> no_control t).
  { intros d r t' Hr Hd Ht. destruct (percentDecode plus r) as [t''|] eqn:E; [|done]. injection Ht as <-.
    constructor; [done|by apply (IH r)]. }
  simpl in Hn. destruct (is_char "%" ch).
  - destruct s as [|h [|l s]]; [done|done|]. destruct (hexValue h), (hexValue l); try done. cbv zeta.
    destruct (iscntrl (chr _)) eqn:Ec; [done|]. apply Hcons; [simpl in Hn; lia|done].
  - cbv zeta. destruct (iscntrl (if plus && is_char "+" ch then " "%char else ch)) eqn:Ec; [done|]. apply Hcons; [lia|done].
Qed.

Lemma percentDecode_no_control plus s t : percentDecode plus s = Some t -> no_control t.
Proof. by apply (decode_no_control plus (length s)). Qed.

Lemma parse_authority_ok body user pass h : parse_authority body = Some (user, pass, h) ->
  user <> [] /\ pass <> [] /\ validMieruHost h = true /\ no_control user /\ no_control pass.
Proof.
  unfold parse_authority. intros Hp. repeat (case_match; try done).
  all: simplify_eq; bools; split_and!; try done; by eapply percentDecode_no_control.
Qed.

Definition values_ok (m : gmap str (list str)) : Prop := forall key vs, m !! key = Some vs -> Forall no_control vs.

Lemma query_loop_values fuel m q m' : values_ok m -> query_loop fuel m q = Some m' -> values_ok m'.
Proof.
  revert m q. induction fuel as [|fuel IH]; intros m q Hm; [done|]. cbn [query_loop]. cbv zeta.
  assert (Hcont : forall m, values_ok m ->
    match find_char "&" q 0 with None => Some m | Some e => query_loop fuel m (drop (e + 1) q) end = Some m' -> values_ok m').
  { intros m1 Hm1. destruct (find_char "&" q 0); [by apply IH|by intros [= <-]]. }
  destruct (substr q 0 _) as [|ch part]; [by apply (Hcont m)|].
  destruct (percentDecode true (substr _ _ _)) as [key|]; [|done].
  destruct (percentDecode true _) as [value|] eqn:Ev; [|done]. apply Hcont. intros key' vs. unfold add_value. cbn [fst snd].
  rewrite lookup_insert_Some. intros [[_ <-]|[_ Hvs]]; [|by apply (Hm key')].
  apply Forall_app. split; [|constructor; [by eapply percentDecode_no_control|constructor]].
  destruct (m !! key) eqn:E; [by apply (Hm key)|constructor].
Qed.

Lemma bindings_normal l bs : mapM (fun pp => parseMieruPortBinding pp.1 pp.2) l = Some bs ->
  length bs = length l /\ Forall binding_ok bs.
Proof.
  intros Hm%mapM_Some. induction Hm as [|[p q] b l bs Hb Hm IH]; [by split|]. destruct IH as [IH1 IH2].
  split; [simpl; lia|constructor; [|done]]. cbn [fst snd] in Hb. by apply binding_normal in Hb as (N1 & N2 & _).
Qed.

Lemma readSingleton_required m key v : readSingleton m key true = Some v -> v <> [] /\ m !! key = Some [v].
Proof. unfold readSingleton. intros Hr. repeat (case_match; try done); simplify_eq; bools; done. Qed.

Lemma parse_ports_ok m bs : parse_ports m = Some bs -> bs <> [] /\ Forall binding_ok bs.
Proof.
  unfold parse_ports. destruct (m !! "port"%str) as [ports|]; [|done]. destruct (m !! "protocol"%str) as [protocols|]; [|done].
  destruct (_ || _) eqn:El; [done|]. bools. intros [Hlen Hbs]%bindings_normal. split; [|done]. intros ->.
  match goal with H : (length ports =? length protocols) = true |- _ => apply Nat.eqb_eq in H as Hl end.
  rewrite length_zip_with, <- Hl in Hlen. destruct ports; [done|]. simpl in Hlen. lia.
Qed.

Lemma read_parameters_ok user pass h remark_ m c : values_ok m -> read_parameters user pass h remark_ m = Some c ->
  (username c = user /\ password c = pass /\ host c = h /\ remark c = remark_) /\ (profile c <> [] /\ no_control (profile c)) /\
  (mtu c = 0 \/ 1280 <= mtu c <= 1400)%Z /\
  (isValidMieruMultiplexing (multiplexing c) = true /\ isValidMieruHandshakeMode (handshake_mode c) = true /\
   isValidMieruTrafficPattern (traffic_pattern c) = true) /\
  port_bindings c <> [] /\ Forall binding_ok (port_bindings c).
Proof.
  intros Hvals. unfold read_parameters. intros Hr. cbv zeta in Hr.
  destruct (readSingleton m "profile" true) as [pr|] eqn:Epr; [|done]. cbn [mbind option_bind] in Hr.
  destruct (readSingleton m "multiplexing" false) as [mu|]; [|done]. cbn [mbind option_bind] in Hr.
  destruct (readSingleton m "handshake-mode" false) as [hs|]; [|done]. cbn [mbind option_bind] in Hr.
  destruct (readSingleton m "traffic-pattern" false) as [tp|]; [|done]. cbn [mbind option_bind] in Hr.
  destruct (_ || _) eqn:Ev in Hr; [done|]. bools.
  destruct (readSingleton m "mtu" false) as [mt|]; [|done]. cbn [mbind option_bind] in Hr.
  destruct (match mt with [] => Some 0%Z | _ => _ end) as [mtu'|] eqn:Emt; [|done]. cbn [mbind option_bind] in Hr.
  destruct (parse_ports m) as [bs|] eqn:Ep; [|done]. cbn [mbind option_bind] in Hr. injection Hr as <-. cbn.
  apply readSingleton_required in Epr as [Hpr Hlook]. apply Hvals in Hlook. apply Forall_cons in Hlook as [Hnc _].
  apply parse_ports_ok in Ep. split_and!; try done; try apply Ep.
  destruct mt as [|x mt]; [by injection Emt; auto|]. destruct (parseUnsigned _ _ _) as [n|] eqn:En; [|done].
  apply parseUnsigned_range in En; [|lia]. injection Emt as <-. right. unfold u16. by rewrite Z.mod_small by lia.
Qed.

Lemma parse_mieru_ok uri c : parseMieruSimpleUri uri = Some c -> parsed_ok c.
Proof.
  unfold parseMieruSimpleUri. destruct (_ || _); [done|].
  destruct (match find_char "#" _ 0 with None => _ | _ => _ end) as [remark_|] eqn:Er; [|done].
  assert (Hrem : no_control remark_) by (destruct (find_char "#" _ 0); [by eapply percentDecode_no_control|injection Er as <-; constructor]).
  cbv zeta. destruct (parse_authority _) as [[[user pass] h]|] eqn:Ea; [|done]. cbn [mbind option_bind].
  destruct (parseQuery _) as [m|] eqn:Eq; [|done]. cbn [mbind option_bind].
  assert (Hvals : values_ok m) by (eapply query_loop_values; [|exact Eq]; intros key vs; by rewrite lookup_empty).
  intros (H1 & H2 & H3 & H4 & H5)%read_parameters_ok; [|done]. destruct H1 as (<- & <- & <- & <-), H2 as [H2 H2'].
  apply parse_authority_ok in Ea as (H6 & H7 & H8 & H9 & H10). by repeat (constructor; try done).
Qed.

(** The text of an accepted port: a number of a port, or a range. *)
Lemma binding_text b : binding_ok b ->
  (protocol b = "TCP"%str \/ protocol b = "UDP"%str) /\
  (is_range b = false /\ (exists n, port_ok n /\ port b = to_string n) \/ is_range b = true /\ port b <> []).
Proof.
  unfold binding_ok. intros Hb. pose proof (binding_normal _ _ _ Hb) as (_ & _ & Hproto & Hne & _). split; [done|].
  unfold parseMieruPortBinding in Hb. destruct (_ && _); [done|]. destruct (find_char "-" (port b) 0).
  - right. repeat (case_match; try done); injection Hb as <-; split; [done|by destruct (to_string z)].
  - destruct (parseUnsigned _ _ _) as [n|] eqn:En; [|done]. apply parseUnsigned_range in En; [|lia]. left. injection Hb as <-.
    split; [done|]. exists n. split; [|done]. unfold port_ok. lia.
Qed.

Lemma mieru_enum_trim v : isValidMieruMultiplexing v = true -> trim v true true = v.
Proof.
  unfold isValidMieruMultiplexing. rewrite existsb_exists. intros (k & Hk & Hv%bool_decide_eq_true). subst v.
  apply list_elem_of_In in Hk. repeat (apply elem_of_cons in Hk as [->|Hk]; [by vm_compute|]). by apply not_elem_of_nil in Hk.
Qed.

Section Group.
Context (upSpeed downSpeed : Z) (c : MieruSimpleConfig) (source_id : str).
Hypothesis c_ok : parsed_ok c.
Hypothesis c_known : has_unknown_parameters c = false.
Hypothesis id_ne : source_id <> [].

Notation node_of := (mieru_node upSpeed downSpeed c source_id).

(** The configuration of the link that is written: the nodes name the
    multiplexing that holds if the link names none. *)
Definition rebuilt : MieruSimpleConfig :=
  mkConfig (username c) (password c) (host c) (profile c) (orElse (multiplexing c) "MULTIPLEXING_LOW") (handshake_mode c)
    (traffic_pattern c) (remark c) (mtu c) false (port_bindings c).

Lemma mieru_host : removeBrackets (host c) = host c.
Proof.
  pose proof (parsed_host c c_ok) as Hh. unfold validMieruHost in Hh. destruct (_ || _) eqn:E in Hh; [done|]. bools.
  unfold removeBrackets. rewrite (proj2 (find_char_None _ _)); [done|]. intros Hin.
  match goal with H : existsb (fun c => one_of _ c) _ = false |- _ => apply not_true_iff_false in H; apply H end.
  apply existsb_exists. exists "["%char. split; [by apply list_elem_of_In|by vm_compute].
Qed.

Lemma node_fields i b : binding_ok b ->
  let x := node_of i b in let f := rest x in
  Type_ x = Mieru /\ Hostname x = host c /\ mieruBindingSpec x = port b /\ TransferProtocol f = protocol b /\
  Username f = username c /\ Password f = password c /\ MieruProfile f = profile c /\ Mtu f = mtu c /\
  Multiplexing f = orElse (multiplexing c) "MULTIPLEXING_LOW" /\ MieruHandshakeMode f = handshake_mode c /\
  MieruTrafficPattern f = traffic_pattern c /\ MieruSourceRemark f = remark c /\ MieruSourceId f = source_id /\
  MieruBindingIndex f = u32 (Z.of_nat i) /\ MieruHasUnknownParameters f = false /\
  Remark x = orElse (remark c) (profile c) ++ ":" ++ port b ++ "/" ++ protocol b.
Proof.
  intros Hb. destruct (binding_text b Hb) as [Hproto Hport]. destruct c_ok as [_ _ _ [Hm _] _ _]. cbv zeta.
  assert (Hmul : match multiplexing c with [] => "MULTIPLEXING_LOW"%str | _ => trim (multiplexing c) true true end =
    orElse (multiplexing c) "MULTIPLEXING_LOW") by (rewrite mieru_enum_trim by done; done).
  assert (Htp : match protocol b with [] => "TCP"%str | _ => trim (protocol b) true true end = protocol b).
  { destruct Hproto as [-> | ->]; by vm_compute. }
  split_and!; try reflexivity; try done.
  - exact mieru_host.
  - unfold mieruBindingSpec. destruct Hport as [(Hr & n & Hn & Hp)|(Hr & Hp)].
    + transitivity (to_string (u16 (to_int (port b) 0))); [|by rewrite Hp, u16_port].
      unfold mieru_node, mieruConstruct, commonConstruct. cbn. by rewrite Hr.
    + unfold mieru_node, mieruConstruct, commonConstruct. cbn. rewrite Hr. by destruct (port b).
Qed.

Lemma node_portable i b : binding_ok b -> shadowrocketMieruNodeIsPortable (node_of i b) = true.
Proof.
  intros Hb. destruct (node_fields i b Hb) as (H1 & H2 & H3 & H4 & H5 & H6 & H7 & H8 & H9 & H10 & H11 & H12 & H13 & H14 & H15 & H16).
  destruct c_ok as [(Hu & Hp & Hpr) Hh Hm (He1 & He2 & He3) _ _]. unfold shadowrocketMieruNodeIsPortable.
  rewrite H1, H2, H3, H4, H5, H6, H7, H8, H9, H10, H11, H13, H15.
  assert (Hhost : host c <> []) by (intros E; rewrite E in Hh; done).
  rewrite (bool_decide_true (Mieru = Mieru)) by done.
  rewrite (bool_decide_false (source_id = [])), (bool_decide_false (profile c = [])), (bool_decide_false (username c = [])),
    (bool_decide_false (password c = [])), (bool_decide_false (host c = [])) by done.
  assert (Hmul : isValidMieruMultiplexing (orElse (multiplexing c) "MULTIPLEXING_LOW") = true)
    by (destruct (multiplexing c); [by vm_compute|done]).
  rewrite Hmul, He2, He3. change (UnderlyingProxy (rest (node_of i b))) with ([] : str).
  change (flag (TCPFastOpen (rest (node_of i b)))) with false. change (flag (AllowInsecure (rest (node_of i b)))) with false.
  change (flag (TLS13 (rest (node_of i b)))) with false. change (flag (XUDP (rest (node_of i b)))) with false.
  change (flag (UDP (rest (node_of i b)))) with true. rewrite (bool_decide_true (@nil ascii = [])) by done. cbn [negb orb].
  assert (Hmtu : (negb (mtu c =? 0) && ((mtu c <? 1280) || (1400 <? mtu c)))%Z = false).
  { destruct Hm as [-> | Hm]; [done|]. apply andb_false_iff. right. apply orb_false_iff. split; apply Z.ltb_ge; lia. }
  rewrite Hmtu. cbn [orb]. apply bool_decide_eq_true. by exists b.
Qed.

Lemma node_same i j a b : binding_ok a -> binding_ok b -> sameMieruResource (node_of i a) (node_of j b) = true.
Proof.
  intros Ha Hb. pose proof (node_fields i a Ha) as HA. pose proof (node_fields j b Hb) as HB. cbv zeta in HA, HB.
  unfold sameMieruResource. intuition. repeat (rewrite bool_decide_true by congruence). done.
Qed.

Lemma node_remark i b : binding_ok b -> member_remark (node_of i b) b = orElse (remark c) (profile c).
Proof.
  intros Hb. unfold member_remark. destruct (node_fields i b Hb) as (_ & _ & _ & _ & _ & _ & _ & _ & _ & _ & _ & _ & _ & _ & _ & ->).
  set (suffix := ":" ++ port b ++ "/" ++ protocol b). unfold endsWith, ends_with. rewrite rev_app_distr, starts_with_app.
  rewrite length_app, Nat.add_sub. apply take_app_length.
Qed.

Lemma indices_sorted bs i : (Z.of_nat (i + length bs) <= 2 ^ 32)%Z -> Forall binding_ok bs ->
  stable_sort (fun l r => MieruBindingIndex (rest l) <? MieruBindingIndex (rest r))%Z (imap (fun k => node_of (i + k)) bs) =
  imap (fun k => node_of (i + k)) bs.
Proof.
  intros Hlen Hbs. revert i Hlen. induction Hbs as [|b bs Hb Hbs IH]; intros i Hlen; [done|]. rewrite imap_cons. simpl in Hlen.
  change (stable_sort ?lt (?x :: ?l)) with (stable_insert lt x (stable_sort lt l)).
  assert (Hmap : imap ((fun k => node_of (i + k)) ∘ S) bs = imap (fun k => node_of (S i + k)) bs).
  { apply imap_ext. intros k x _. unfold compose. by rewrite Nat.add_succ_r. }
  rewrite Hmap, IH by lia. destruct bs as [|b' bs]; [done|]. rewrite imap_cons. cbn [stable_insert].
  apply Forall_cons in Hbs as [Hb' _].
  destruct (node_fields (i + 0) b Hb) as (_ & _ & _ & _ & _ & _ & _ & _ & _ & _ & _ & _ & _ & E1 & _).
  destruct (node_fields (S i + 0) b' Hb') as (_ & _ & _ & _ & _ & _ & _ & _ & _ & _ & _ & _ & _ & E2 & _).
  cbv zeta in E1, E2. rewrite E1, E2. simpl in Hlen. rewrite !u32_small by lia.
  by destruct (Z.ltb_spec (Z.of_nat (S i + 0)) (Z.of_nat (i + 0))); [lia|].
Qed.

Lemma members_read first bs i acc previous remark_ :
  (exists a j, binding_ok a /\ first = node_of j a) ->
  (Z.of_nat (i + length bs) <= 2 ^ 32)%Z -> Forall binding_ok bs ->
  (forall p, previous = Some p -> p < Z.of_nat i)%Z ->
  (remark_ = None \/ remark_ = Some (orElse (remark c) (profile c))) ->
  exists last_index, foldl (member_step first) (Some (acc, previous, remark_)) (imap (fun k => node_of (i + k)) bs) =
    Some (acc ++ bs, last_index, if bool_decide (bs = []) then remark_ else Some (orElse (remark c) (profile c))).
Proof.
  intros (a & j & Ha & ->) Hlen Hbs. revert i Hlen acc previous remark_.
  induction Hbs as [|b bs Hb Hbs IH]; intros i Hlen acc previous remark_ Hprev Hr.
  { exists previous. csimpl. by rewrite app_nil_r. }
  rewrite imap_cons. cbn [foldl]. simpl in Hlen.
  assert (Hmap : imap ((fun k => node_of (i + k)) ∘ S) bs = imap (fun k => node_of (S i + k)) bs).
  { apply imap_ext. intros k x _. unfold compose. by rewrite Nat.add_succ_r. }
  rewrite Hmap. destruct (node_fields (i + 0) b Hb) as (_ & _ & E1 & E2 & _ & _ & _ & _ & _ & _ & _ & _ & _ & E3 & _).
  cbv zeta in E1, E2, E3. rewrite u32_small in E3 by lia. rewrite Nat.add_0_r in *.
  assert (Hstep : member_step (node_of j a) (Some (acc, previous, remark_)) (node_of i b) =
    Some (acc ++ [b], Some (Z.of_nat i), Some (orElse (remark c) (profile c)))).
  { unfold member_step. rewrite node_portable, node_same, E3 by done. cbn [negb orb].
    rewrite bool_decide_false by (intros ->; specialize (Hprev _ eq_refl); lia).
    rewrite E1, E2. unfold binding_ok in Hb. rewrite Hb, node_remark by done.
    destruct Hr as [-> | ->]; [done|]. by rewrite !bool_decide_true. }
  rewrite Hstep. destruct (IH (S i) ltac:(lia) (acc ++ [b]) (Some (Z.of_nat i)) (Some (orElse (remark c) (profile c)))) as [last_index Hl].
  { intros p [= <-]. lia. }
  { by right. }
  exists last_index. rewrite Hl, <- app_assoc. cbn [app]. rewrite (bool_decide_false (b :: bs = [])) by done. by case_bool_decide.
Qed.

(** The link of the group is the link of the configuration. *)
Lemma group_link : (Z.of_nat (length (port_bindings c)) <= 2 ^ 32)%Z ->
  buildShadowrocketMieruGroup (imap node_of (port_bindings c)) = buildMieruSimpleUri rebuilt.
Proof.
  intros Hlen. pose proof c_ok as [(Hu & Hp & Hpr) Hh Hm Henum [Hne Hbs] _]. unfold buildShadowrocketMieruGroup.
  pose proof (indices_sorted (port_bindings c) 0 ltac:(lia) Hbs) as Hsort.
  change (imap (fun k => node_of (0 + k)) (port_bindings c)) with (imap node_of (port_bindings c)) in Hsort. rewrite Hsort. clear Hsort.
  remember (imap node_of (port_bindings c)) as nodes eqn:Enodes.
  destruct (port_bindings c) as [|b bs] eqn:Ebs; [done|]. destruct nodes as [|first nodes]; [done|].
  assert (Hfirst : first = node_of 0 b) by (rewrite imap_cons in Enodes; by injection Enodes). apply Forall_cons in Hbs as Hbs'.
  destruct Hbs' as [Hb _]. subst first. rewrite node_portable by done. cbn [negb]. rewrite Enodes. set (first := node_of 0 b).
  destruct (members_read first (b :: bs) 0 [] None None) as [last_index Hl]; [by exists b, 0|simpl in *; lia|done|done|by left|].
  change (imap (fun k => node_of (0 + k)) (b :: bs)) with (imap node_of (b :: bs)) in Hl. rewrite Hl. cbn [app].
  rewrite (bool_decide_false (b :: bs = [])) by done. cbn [default].
  destruct (node_fields 0 b Hb) as (_ & E1 & _ & _ & E2 & E3 & E4 & E5 & E6 & E7 & E8 & E9 & _ & _ & E10 & _).
  fold first in E1, E2, E3, E4, E5, E6, E7, E8, E9, E10. rewrite E1, E2, E3, E4, E5, E6, E7, E8, E9, E10.
  unfold rebuilt. rewrite Ebs. by rewrite bool_decide_true.
Qed.

(** The link is written, and read as the same nodes under another source. *)
Lemma group_read upSpeed' downSpeed' id' : (Z.of_nat (length (port_bindings c)) <= 2 ^ 32)%Z ->
  exists link, buildShadowrocketMieruGroup (imap node_of (port_bindings c)) = Some link /\
    parseMieruSimpleUri link = Some rebuilt /\
    imap (mieru_node upSpeed' downSpeed' rebuilt id') (port_bindings rebuilt) =
    imap (mieru_node upSpeed' downSpeed' c id') (port_bindings c).
Proof.
  intros Hlen. rewrite group_link by done. pose proof c_ok as [(Hu & Hp & Hpr) Hh Hm (He1 & He2 & He3) [Hne Hbs] Htexts].
  assert (Hmap : mapM (fun b => parseMieruPortBinding (port b) (protocol b)) (port_bindings c) = Some (port_bindings c)).
  { clear -Hbs. induction Hbs as [|b bs Hb Hbs IH]; [done|]. cbn [mapM mbind option_bind]. rewrite Hb. cbn [mbind option_bind]. by rewrite IH. }
  assert (Hmul : isValidMieruMultiplexing (orElse (multiplexing c) "MULTIPLEXING_LOW") = true)
    by (destruct (multiplexing c); [by vm_compute|done]).
  destruct (buildMieruSimpleUri rebuilt) as [link|] eqn:Hb.
  - exists link. split; [done|]. assert (Hu' : Forall no_control [username rebuilt; password rebuilt; profile rebuilt; remark rebuilt]) by done.
    do 4 (apply Forall_cons in Hu' as [? Hu']).
    destruct (mieru_printed rebuilt link Hb) as (bs & Hbs' & Hparse); [cbn; lia|done..|].
    cbn [port_bindings rebuilt] in Hbs'. rewrite Hmap in Hbs'. injection Hbs' as <-. split; [exact Hparse|].
    apply imap_ext. intros i b _. unfold mieru_node, mieruConstruct. cbn [rebuilt remark profile password host username multiplexing
      mtu has_unknown_parameters handshake_mode traffic_pattern]. rewrite c_known.
    destruct (multiplexing c); reflexivity.
  - exfalso. unfold buildMieruSimpleUri in Hb. cbn [rebuilt username password host profile has_unknown_parameters mtu multiplexing
      handshake_mode traffic_pattern port_bindings] in Hb. rewrite Hmap, Hh, Hmul, He2, He3, !bool_decide_false in Hb by done.
    assert (Hmtu : (negb (mtu c =? 0) && ((mtu c <? 1280) || (1400 <? mtu c)))%Z = false).
    { destruct Hm as [-> | Hm]; [done|]. apply andb_false_iff. right. apply orb_false_iff. split; apply Z.ltb_ge; lia. }
    rewrite Hmtu in Hb. done.
Qed.
End Group.

(** ** The export of the nodes of one source *)

Section Exported.
Context `{!JsonWriter}.
Context (source_id link : str) (nodes : list Node).
Hypothesis id_ne : source_id <> [].
Hypothesis same_source : Forall (fun x => Type_ x = Mieru /\ MieruSourceId (rest x) = source_id) nodes.
Hypothesis nodes_ne : nodes <> [].
Hypothesis built : buildShadowrocketMieruGroup nodes = Some link.

Lemma one_group : mieru_groups true nodes = {[ source_id := mkGroup nodes None false ]}.
Proof.
  unfold mieru_groups. set (step := fun groups node => _).
  assert (Hstep : forall acc l, Forall (fun x : Node => Type_ x = Mieru /\ MieruSourceId (rest x) = source_id) l ->
    foldl step {[ source_id := mkGroup acc None false ]} l = {[ source_id := mkGroup (acc ++ l) None false ]}).
  { intros acc l Hl. revert acc. induction Hl as [|x l [Ht Hid] Hl IH]; intros acc; [by rewrite app_nil_r|]. cbn [foldl].
    unfold step at 2. rewrite Ht, Hid, bool_decide_true, bool_decide_false by done. cbn [andb negb].
    rewrite lookup_singleton_eq. cbn [default members built_link written]. rewrite insert_singleton_eq, IH. by rewrite <- app_assoc. }
  clear built. destruct same_source as [|x l [Ht Hid] Hl]; [done|]. cbn [foldl]. unfold step at 2.
  rewrite Ht, Hid, bool_decide_true, bool_decide_false by done. cbn [andb negb]. rewrite lookup_empty. cbn [default members built_link written].
  rewrite insert_empty, Hstep by done. done.
Qed.

Lemma one_source_export :
  proxyToShadowrocket nodes true = (link ++ ["010"%char], mkStats (length nodes) (length nodes) []).
Proof.
  unfold proxyToShadowrocket, proxyToSingleProfile. cbn [for_shadowrocket kShadowrocketSingleLinkProfile]. rewrite one_group.
  set (group := mkGroup nodes (Some (Some link)) true).
  assert (Hrest : forall l text n k, Forall (fun x : Node => Type_ x = Mieru /\ MieruSourceId (rest x) = source_id) l ->
    foldl (single_step kShadowrocketSingleLinkProfile) (mkLinks text {[ source_id := group ]} (mkStats n k [])) l =
    mkLinks text {[ source_id := group ]} (mkStats n (k + length l) [])).
  { intros l text n k Hl. revert k. induction Hl as [|x l [Ht Hid] Hl IH]; intros k; [by rewrite Nat.add_0_r|]. cbn [foldl].
    unfold single_step at 2, mieru_case. rewrite Ht, Hid, bool_decide_true, bool_decide_false by done. cbn [for_shadowrocket
      kShadowrocketSingleLinkProfile negb orb groups]. rewrite lookup_singleton_eq. cbn [built_link group written members].
    unfold skip. cbn [allLinks groups stats track input_nodes emitted_nodes unsupported_by_type]. rewrite insert_singleton_eq.
    fold group. rewrite IH. simpl. by rewrite Nat.add_succ_r. }
  enough (Hfirst : foldl (single_step kShadowrocketSingleLinkProfile)
    (mkLinks [] {[ source_id := mkGroup nodes None false ]} (mkStats (length nodes) 0 [])) nodes =
    mkLinks (link ++ ["010"%char]) {[ source_id := group ]} (mkStats (length nodes) (length nodes) [])) by (by rewrite Hfirst).
  subst group. pose proof built as Hb. pose proof same_source as Hall. revert Hrest. destruct nodes as [|x l] eqn:En; [done|].
  intros Hrest. apply Forall_cons in Hall as [[Ht Hid] Hl]. cbn [foldl].
  assert (Hfirst : single_step kShadowrocketSingleLinkProfile
    (mkLinks [] {[ source_id := mkGroup (x :: l) None false ]} (mkStats (length (x :: l)) 0 [])) x =
    mkLinks (link ++ ["010"%char]) {[ source_id := mkGroup (x :: l) (Some (Some link)) true ]} (mkStats (length (x :: l)) 1 [])).
  { unfold single_step, mieru_case. rewrite Ht, Hid, bool_decide_true, bool_decide_false by done.
    cbn [for_shadowrocket kShadowrocketSingleLinkProfile negb orb groups]. rewrite lookup_singleton_eq.
    cbn [built_link members written]. rewrite Hb. unfold write. cbn [allLinks groups stats]. by rewrite insert_singleton_eq. }
  by rewrite Hfirst, Hrest.
Qed.
End Exported.

(** C4: the nodes of a mierus:// link exported for Shadowrocket are one line
    again, which counts all of them as emitted, and importing that line is the
    same as importing the link: every port becomes the same node, with the
    same name, under the id of the new source.  Parameters that the program
    does not know would be lost, so a link with such is excluded. *)
Theorem mieru_source_roundtrip `{!JsonWriter} upSpeed downSpeed uri c id :
  parseMieruSimpleUri uri = Some c -> has_unknown_parameters c = false ->
  (Z.of_nat (length (port_bindings c)) <= 2 ^ 32)%Z -> is_u64 id ->
  exists nodes link, nodes = (explodeMierusNodes upSpeed downSpeed uri [] id).1 /\
    proxyToShadowrocket nodes true = (link ++ ["010"%char], mkStats (length nodes) (length nodes) []) /\
    forall id', explodeMierusNodes upSpeed downSpeed link [] id' = explodeMierusNodes upSpeed downSpeed uri [] id'.
Proof.
  intros Hc Hknown Hlen Hid. pose proof (parse_mieru_ok _ _ Hc) as Hok. unfold explodeMierusNodes at 1. rewrite Hc.
  cbn [nextMieruSourceId fst app]. destruct (to_string_ok id Hid) as (_ & Hne & _).
  destruct (group_read upSpeed downSpeed c (to_string id) Hok Hknown Hne upSpeed downSpeed [] Hlen) as (link & Hb & Hparse & _).
  eexists _, link. split_and!; [reflexivity| |].
  - apply one_source_export with (source_id := to_string id); [done| | |done].
    + apply Forall_lookup. intros i x Hx. rewrite list_lookup_imap in Hx. destruct (port_bindings c !! i) as [b|] eqn:E; [|done].
      injection Hx as <-. split; reflexivity.
    + destruct (parsed_bindings c Hok) as [Hbn _]. intros E. apply (f_equal length) in E. rewrite length_imap in E. by destruct (port_bindings c).
  - intros id'. unfold explodeMierusNodes. rewrite Hc, Hparse. cbn [nextMieruSourceId].
    destruct (group_read upSpeed downSpeed c (to_string id) Hok Hknown Hne upSpeed downSpeed (to_string id') Hlen) as (link' & _ & _ & Hn).
    by rewrite Hn.
Qed.

#[local] Instance no_writer : JsonWriter := fun _ => [].

Definition example_mieru : str :=
  "mierus://us%20er:p%40ss@[::1]?profile=default&mtu=1400&port=8080&port=2000-3000&protocol=TCP&protocol=UDP#my%20node".

Lemma mieru_source_roundtrip_witness :
  exists nodes link, nodes = (explodeMierusNodes 0 0 example_mieru [] 7).1 /\
    proxyToShadowrocket nodes true = (link ++ ["010"%char], mkStats (length nodes) (length nodes) []) /\
    forall id', explodeMierusNodes 0 0 link [] id' = explodeMierusNodes 0 0 example_mieru [] id'.
Proof.
  destruct (parseMieruSimpleUri example_mieru) as [c|] eqn:E; [|vm_compute in E; discriminate].
  apply (mieru_source_roundtrip 0 0 example_mieru c 7 E); vm_compute in E; injection E as <-; [reflexivity|vm_compute; congruence|].
  unfold is_u64. lia.
Defined.
