(* ===== verification/ExplodeValid.v ===== *)
(** * parser/subparser.cpp: what an accepted link gives

    A parser other than those of VMess either leaves the node as it was or
    makes it a server with a type, a host, a port between 1 and 65535 and a
    name. *)

From S2P Require Import Prelude Str StringUtil Codec MieruUri Regexp RuleConvert NodeSelect NodeManip Node ShareUri SharePrinted.
From S2P Require Import ShareParse JsonValue VmessLinks JsonNodes Explode ShareRoundtrip MieruGroup.
Open Scope nat_scope.

(** With a type, a port, a name and a host. *)
Definition on_port (x : Node) : Prop := Type_ x <> Unknown /\ port_ok (Port x) /\ Remark x <> [] /\ Hostname x <> [].

(** A binding of a mierus:// link may be a range of ports, which is kept as a
    text beside the port 0. *)
Definition on_range (x : Node) : Prop :=
  Type_ x = Mieru /\ Port x = 0%Z /\ Ports (rest x) <> [] /\ Remark x <> [] /\ Hostname x <> [].


(** The text of a port that a node can take. *)
Definition good_port (p : str) : Prop := port_ok (u16 (to_int p 0)).

Lemma valid_good p : validSharePort p = true -> good_port p.
Proof.
  unfold validSharePort, good_port. destruct (_ || _); [done|]. intros Hp. bools. unfold port_ok, u16.
  rewrite Z.mod_small; lia.
Qed.

Lemma number_good n : port_ok n -> good_port (to_string n).
Proof. intros Hn. unfold good_port. by rewrite u16_port. Qed.

Lemma parseShareAuthority_good a host port : parseShareAuthority a = Some (host, port) -> good_port port.
Proof.
  unfold parseShareAuthority. intros Hp. repeat (case_match; try done); simplify_eq; bools; by apply valid_good.
Qed.

Lemma parseShareUri_good uri scheme p : parseShareUri uri scheme = Some p -> good_port (port p).
Proof.
  unfold parseShareUri. intros Hp. repeat (case_match; try done); simplify_eq; bools; by apply valid_good.
Qed.

Lemma hysteria2_token_good t n rest_ : validHysteria2PortToken t = Some (n, rest_) -> port_ok n.
Proof.
  unfold validHysteria2PortToken. intros Hp. repeat (case_match; try done); simplify_eq; bools; by apply valid_good.
Qed.

Lemma modern_ports_good spec port additional : modern_ports spec = Some (port, additional) -> good_port port.
Proof.
  unfold modern_ports. intros Hp. repeat (case_match; try done); simplify_eq.
  all: apply number_good; by eapply hysteria2_token_good.
Qed.

Lemma parseModernShareUri_good uri scheme user default_port allow p additional :
  parseModernShareUri uri scheme user default_port allow = Some (p, additional) -> good_port (port p).
Proof.
  unfold parseModernShareUri. intros Hp. repeat (case_match; try done); simplify_eq; bools.
  all: first [by apply valid_good|by eapply modern_ports_good].
Qed.

(** The text of a host that a node can take. *)
Definition good_host (h : str) : Prop := removeBrackets h <> [].

Lemma removeBrackets_nil h : removeBrackets h = [] -> h = [] \/ h = "[]"%str.
Proof.
  unfold removeBrackets. destruct (find_char "[" h 0) as [l|] eqn:El; [|by left].
  destruct (find_char "]" h 0) as [r|] eqn:Er; [|by left]. destruct (Nat.ltb_spec l r) as [Hlr|]; [|by left].
  intros E. right. apply (f_equal length) in E. unfold erase in E. rewrite !length_app, !length_take, !length_drop, !length_app,
    !length_take, !length_drop in E. cbn [length] in E.
  apply find_char_Some in El as (Hl & El & _), Er as (Hr & Er & _).
  assert (l = 0) as -> by lia. assert (r = 1) as -> by lia. assert (length h = 2) by lia.
  destruct h as [|c [|d [|]]]; try done. cbn in El, Er. by injection El as ->; injection Er as ->.
Qed.

Lemma host_good h : h <> [] -> (head h = Some "["%char -> "]"%char ∉ h) -> good_host h.
Proof.
  intros Hne Hh [->| ->]%removeBrackets_nil; [done|]. apply Hh; [done|]. right. left.
Qed.

Lemma text_good h : h <> [] -> h <> "[]"%str -> good_host h.
Proof. by intros Hne Hp [->| ->]%removeBrackets_nil. Qed.

(** The host of an authority, in brackets or before a colon. *)
Lemma bracketed_good a bracket : find_char "]" a 0 = Some bracket -> substr a 1 (bracket - 1) <> [] ->
  good_host (substr a 1 (bracket - 1)).
Proof.
  intros (Hlt & Hs & Hn)%find_char_Some Hne. apply host_good; [done|]. intros _ Hin. apply Hn. revert Hin.
  unfold substr. destruct a as [|c a]; [by cbn in Hlt; lia|]. cbn [drop].
  destruct bracket as [|bracket]; [by rewrite take_0|]. cbn [take Nat.sub]. rewrite Nat.sub_0_r, drop_0. by right.
Qed.

Lemma unbracketed_good a colon : bool_decide (head a = Some "["%char) = false -> take colon a <> [] -> good_host (take colon a).
Proof.
  intros Hh%bool_decide_eq_false Hne. apply host_good; [done|]. intros E. exfalso. apply Hh. by destruct a, colon.
Qed.

Lemma plain_good a : bool_decide (head a = Some "["%char) = false -> a <> [] -> good_host a.
Proof. intros Hh%bool_decide_eq_false Hne. by apply host_good. Qed.

#[local] Ltac host_parts :=
  repeat (case_match; try done); simplify_eq; bools;
  first [by eapply bracketed_good|by apply unbracketed_good; [apply bool_decide_eq_false|]|by apply plain_good; [apply bool_decide_eq_false|]].

Lemma parseShareAuthority_host a host port : parseShareAuthority a = Some (host, port) -> good_host host.
Proof.
  unfold parseShareAuthority. destruct a as [|front a]; [done|]. intros Hp. unfold is_char in Hp.
  assert (Hf : bool_decide (front = "["%char) = bool_decide (head (front :: a) = Some "["%char))
    by (apply bool_decide_ext; cbn [head]; naive_solver).
  rewrite Hf in Hp. revert Hp. generalize (front :: a). clear Hf. intros b Hp. host_parts.
Qed.

Lemma parseShareUri_host uri scheme p : parseShareUri uri scheme = Some p -> good_host (host p).
Proof.
  unfold parseShareUri, share_authority. intros Hp. host_parts.
Qed.

Lemma parseModernShareUri_host uri scheme user default_port allow p additional :
  parseModernShareUri uri scheme user default_port allow = Some (p, additional) -> good_host (host p).
Proof.
  unfold parseModernShareUri, modern_authority. intros Hp. host_parts.
Qed.

Lemma ssr_server_host ssr server fields : ssr_server ssr = Some (server, fields) -> server <> [] -> good_host server.
Proof. unfold ssr_server. intros Hp Hne. host_parts. Qed.

Lemma realm_authority_host a host port : realm_authority a = Some (host, port) -> host <> [] -> good_host host.
Proof. unfold realm_authority. intros Hp Hne. host_parts. Qed.

Lemma remark_or_ne remark host port : remark_or remark host port <> [].
Proof. unfold remark_or. destruct remark; [|done]. cbn [orElse]. by destruct host. Qed.

Lemma common_server node type group remark host port_ udp tfo scv tls13 up :
  type <> Unknown -> good_port port_ -> remark <> [] -> good_host host ->
  on_port (commonConstruct node type group remark host port_ udp tfo scv tls13 up).
Proof. intros Ht Hp Hr Hh. by split_and!. Qed.

#[export] Hint Resolve remark_or_ne valid_good parseShareAuthority_good parseShareUri_good parseModernShareUri_good : server.
#[export] Hint Resolve parseShareAuthority_host parseShareUri_host parseModernShareUri_host ssr_server_host realm_authority_host : server.

Section Valid.
Context `{!Pcre, !JsonReader}.

Definition or_server (node x : Node) : Prop := x = node \/ on_port x.

(** Every branch of a parser. *)
Ltac branches :=
  intros; repeat (case_match; try by left); simplify_eq; bools; right; (split_and!; [first [done|cbn; unfold constant; by case_match]|..]); cbn; unfold constant;
  try match goal with |- port_ok (u16 (to_int ?p 0)) => change (good_port p) | |- removeBrackets ?h <> [] => change (good_host h) end;
  eauto with server; intros [_ ?]%app_eq_nil; done.

Lemma explodeSS_valid ss node : or_server node (explodeSS ss node).
Proof.
  unfold explodeSS, ss_server. branches.
Qed.

Lemma explodeSSR_valid ssr node : or_server node (explodeSSR ssr node).
Proof. unfold explodeSSR. branches.
Qed.

(** With a type, a port and a name, and with a host unless [missing]. *)
Definition on_port_unless (missing : Prop) (x : Node) : Prop :=
  Type_ x <> Unknown /\ port_ok (Port x) /\ Remark x <> [] /\ (Hostname x <> [] \/ missing).

Lemma on_port_weaken missing x : on_port x -> on_port_unless missing x.
Proof. intros (?&?&?&?). split_and!; try done. by left. Qed.

Lemma on_port_certain x : on_port_unless False x -> on_port x.
Proof. intros (?&?&?&[?|[]]). by split_and!. Qed.

Lemma host_unless h (missing : Prop) : h <> [] -> (h = "[]"%str -> missing) -> removeBrackets h <> [] \/ missing.
Proof. intros Hne Hm. destruct (decide (h = "[]"%str)); [right; by apply Hm|left; by apply text_good]. Qed.

Lemma socks_link_host link remarks username password server port :
  socks_link link = Some (remarks, username, password, server, port) -> good_host server.
Proof.
  unfold socks_link. intros Hp. repeat (case_match; try done); simplify_eq; eauto with server.
Qed.

Lemma explodeSocks_valid link node :
  explodeSocks link node = node \/
  on_port_unless (startsWith link "socks://" = false /\ getUrlArg link "server" = "[]"%str) (explodeSocks link node).
Proof.
  unfold explodeSocks. destruct (startsWith link "socks://") eqn:Es.
  - destruct (socks_link link) as [[[[[remarks username] password] server] port]|] eqn:El; [|by left].
    apply socks_link_host in El. destruct (_ || _ || _) eqn:Ec; [by left|]. bools. right.
    split_and!; [done|by apply valid_good|apply remark_or_ne|by left].
  - destruct (_ || _) eqn:Et; [|by left]. destruct (_ || _ || _) eqn:Ec; [by left|]. bools. right.
    split_and!; [done|by apply valid_good|apply remark_or_ne|]. by apply host_unless.
Qed.

Lemma explodeHTTP_valid link node :
  explodeHTTP link node = node \/ on_port_unless (getUrlArg link "server" = "[]"%str) (explodeHTTP link node).
Proof.
  unfold explodeHTTP. cbv zeta. destruct (_ || _ || _) eqn:Ec; [by left|]. bools. right.
  split_and!; [cbn; by case_match|by apply valid_good|apply remark_or_ne|]. by apply host_unless.
Qed.

Lemma explodeHTTPSub_valid link node : or_server node (explodeHTTPSub link node).
Proof. unfold explodeHTTPSub. branches. Qed.

Lemma explodeTrojan_valid link node : or_server node (explodeTrojan link node).
Proof. unfold explodeTrojan. branches. Qed.

Lemma vless_by_transport_server missing n mode path host add v2ray_http_upgrade :
  on_port_unless missing n -> on_port_unless missing (vless_by_transport n mode path host add v2ray_http_upgrade).
Proof.
  intros (H1 & H2 & H3). unfold vless_by_transport. generalize (TransferProtocol (rest n)) as net. intros net.
  destruct (hash_is net "grpc"), (hash_is net "quic"), (bool_decide (net = "xhttp"%str)); exact (conj H1 (conj H2 H3)).
Qed.

Lemma vless_server missing node group remarks add port type id aid net cipher flow mode path host edge tls pbk sid fp sni alpnList
    packet_encoding udp tfo scv tls13 underlying_proxy v2ray_http_upgrade encryption :
  good_port port -> remarks <> [] -> good_host add \/ missing ->
  on_port_unless missing (vlessConstruct node group remarks add port type id aid net cipher flow mode path host edge tls pbk sid fp sni alpnList
    packet_encoding udp tfo scv tls13 underlying_proxy v2ray_http_upgrade encryption).
Proof.
  intros Hp Hr Hh. unfold vlessConstruct. apply vless_by_transport_server. by split_and!.
Qed.

Lemma explodeVless_valid link node : or_server node (explodeVless link node).
Proof.
  unfold explodeVless, explodeStdVless. repeat (case_match; try by left). right. apply on_port_certain, vless_server; eauto with server.
Qed.

Lemma gecko_server q node : on_port node -> on_port (gecko_sizes q node).
Proof. intros (H1 & H2 & H3). unfold gecko_sizes. case_match; exact (conj H1 (conj H2 H3)). Qed.

Lemma explodeHysteria_valid link node : or_server node (explodeHysteria link node).
Proof. unfold explodeHysteria, explodeStdHysteria. branches. Qed.

Lemma explodeHysteria2_valid link node : or_server node (explodeHysteria2 link node).
Proof.
  unfold explodeHysteria2, explodeStdHysteria2. intros; repeat (case_match; try by left); simplify_eq; bools; right;
    apply gecko_server; (split_and!; [done|..]); cbn; unfold constant;
    try match goal with |- port_ok (u16 (to_int ?p 0)) => change (good_port p) | |- removeBrackets ?h <> [] => change (good_host h) end;
    eauto with server.
Qed.

Lemma explodeTuic_valid link node : or_server node (explodeTuic link node).
Proof. unfold explodeTuic. branches. Qed.

Lemma explodeAnyTLS_valid link node : or_server node (explodeAnyTLS link node).
Proof. unfold explodeAnyTLS. branches. Qed.

Lemma explodeNaive_valid link node : or_server node (explodeNaive link node).
Proof. unfold explodeNaive. branches. Qed.

Lemma realm_authority_good a host port : realm_authority a = Some (host, port) -> port = [] \/ good_port port.
Proof.
  unfold realm_authority. intros Hp. repeat (case_match; try done); simplify_eq; bools; auto with server.
Qed.

Lemma explodeHysteria2Realm_valid link node : or_server node (explodeHysteria2Realm link node).
Proof.
  unfold explodeHysteria2Realm. repeat (case_match; try by left); simplify_eq; right; apply gecko_server.
  all: match goal with H : realm_authority _ = Some _ |- _ => pose proof (realm_authority_host _ _ _ H) as Hhost;
    apply realm_authority_good in H as Hgood end.
  all: (split_and!; [done|..]); cbn; unfold constant; [|apply remark_or_ne|by apply Hhost; bools].
  all: match goal with |- port_ok (u16 (to_int ?p 0)) => change (good_port p) end.
  all: destruct Hgood as [->|Hgood]; [by apply (number_good 80) || by apply (number_good 443)|].
  all: match goal with |- good_port (orElse ?p _) => destruct p; [by apply (number_good 80) || by apply (number_good 443)|done] end.
Qed.

(** *** WireGuard, whose node is the first of its peers *)

Section Peers.
Context (missing : Prop).

Definition peers_ok (node : Node) : Prop :=
  on_port_unless missing node /\
  Forall (fun p => port_ok (peer_Port p) /\ (peer_Hostname p <> [] \/ missing)) (WireGuardPeers (rest node)).

Lemma sync_addresses_peers node : peers_ok node -> peers_ok (sync_addresses node).
Proof.
  intros [(S1 & S2 & S3) Hp]. unfold sync_addresses.
  destruct (WireGuardLocalAddresses (rest node)); exact (conj (conj S1 (conj S2 S3)) Hp).
Qed.

Lemma sync_peer_peers node : peers_ok node -> peers_ok (sync_peer node).
Proof.
  intros Hn. unfold sync_peer. destruct (WireGuardPeers (rest node)) as [|peer peers]; [|done]. cbv zeta. case_match; [|done].
  destruct Hn as [(S1 & S2 & S3 & S4) _]. split; [exact (conj S1 (conj S2 (conj S3 S4)))|].
  constructor; [exact (conj S2 S4)|constructor].
Qed.

Lemma project_peer_peers node : peers_ok node -> peers_ok (project_peer node).
Proof.
  intros [(S1 & S2 & S3 & S4) Hp]. unfold project_peer. destruct (WireGuardPeers (rest node)) as [|peer peers] eqn:E.
  - split; [exact (conj S1 (conj S2 (conj S3 S4)))|by rewrite E].
  - assert (Hpeer : port_ok (peer_Port peer) /\ (peer_Hostname peer <> [] \/ missing)) by (by apply Forall_cons in Hp as [? _]).
    destruct Hpeer as [P1 P2]. rewrite <- E in Hp. exact (conj (conj S1 (conj P1 (conj S3 P2))) Hp).
Qed.

Lemma sync_peers node : peers_ok node -> peers_ok (syncLegacyWireGuardProjection node).
Proof. intros Hn. by apply project_peer_peers, sync_peer_peers, sync_addresses_peers. Qed.

Lemma wireguard_peers node group remarks server_ port selfIp selfIpv6 privKey pubKey psk dns mtu keepalive testUrl clientId udp up :
  WireGuardPeers (rest node) = [] -> good_port port -> remarks <> [] -> good_host server_ \/ missing ->
  peers_ok (wireguardConstruct node group remarks server_ port selfIp selfIpv6 privKey pubKey psk dns mtu keepalive testUrl clientId udp up).
Proof.
  intros Hw Hp Hr Hh. unfold wireguardConstruct. apply sync_peers.
  set (n := wireguard_fields _ _ _ _ _ _ _ _ _ _ _ _ _ _ _ _ _).
  assert (E1 : Type_ n = WireGuard) by reflexivity. assert (E2 : Port n = u16 (to_int port 0)) by reflexivity.
  assert (E3 : Remark n = remarks) by reflexivity. assert (E4 : WireGuardPeers (rest n) = WireGuardPeers (rest node)) by reflexivity.
  assert (E5 : Hostname n = removeBrackets server_) by reflexivity.
  split; [split_and!|]; [by rewrite E1|by rewrite E2|by rewrite E3|by rewrite E5|by rewrite E4, Hw].
Qed.

Lemma local_addresses_peers node addresses : peers_ok node ->
  peers_ok { node with rest -> WireGuardLocalAddresses := addresses }.
Proof. intros [(S1 & S2 & S3) Hp]. exact (conj (conj S1 (conj S2 S3)) Hp). Qed.
End Peers.

Lemma explodeWireGuard_valid link node : WireGuardPeers (rest node) = [] -> or_server node (explodeWireGuard link node).
Proof.
  intros Hw. unfold explodeWireGuard. repeat (case_match; try by left). right.
  all: apply on_port_certain, sync_peers, local_addresses_peers, wireguard_peers; eauto with server.
Qed.

(** *** Netch *)

Lemma unless_same missing x y : Type_ y = Type_ x -> Port y = Port x -> Remark y = Remark x -> Hostname y = Hostname x ->
  on_port_unless missing x -> on_port_unless missing y.
Proof. unfold on_port_unless. by intros -> -> -> ->. Qed.

Lemma common_unless missing node type group remark host port_ udp tfo scv tls13 up :
  type <> Unknown -> good_port port_ -> remark <> [] -> good_host host \/ missing ->
  on_port_unless missing (commonConstruct node type group remark host port_ udp tfo scv tls13 up).
Proof. intros Ht Hp Hr Hh. by split_and!. Qed.

Lemma vmess_server missing node group remarks add port type id aid net cipher path host edge tls sni alpnList udp tfo scv tls13 up :
  good_port port -> remarks <> [] -> good_host add \/ missing ->
  on_port_unless missing (vmessConstruct node group remarks add port type id aid net cipher path host edge tls sni alpnList udp
    tfo scv tls13 up).
Proof.
  intros Hp Hr Hh. pose proof (common_unless missing node VMess group remarks add port udp tfo scv tls13 up ltac:(done) Hp Hr Hh) as Hc.
  unfold vmessConstruct. cbv zeta. destruct (bool_decide (TransferProtocol _ = _)); by apply (unless_same _ _ _ eq_refl eq_refl eq_refl eq_refl Hc).
Qed.

Lemma netch_xray_valid json vmess group remark address port method fingerprint udp tfo scv node missing :
  good_port port -> remark <> [] -> good_host address \/ missing ->
  let x := (netch_xray json vmess group remark address port method fingerprint udp tfo scv node).2 in
  x = node \/ on_port_unless missing x.
Proof.
  intros Hp Hr Hh. unfold netch_xray. cbv zeta. destruct (negb (isXrayUuid _)); [by left|]. right. cbn [snd].
  match goal with |- context [if vmess then ?a else ?b] => set (n := if vmess then a else b) end.
  assert (Hn : on_port_unless missing n).
  { subst n. destruct vmess; [by apply vmess_server|by apply vless_server]. }
  clearbody n. destruct (bool_decide (_ = "grpc"%str)); [|destruct (bool_decide (_ = "quic"%str))]; by apply (unless_same _ n).
Qed.

Lemma netch_wireguard_valid json group remark address port udp node missing :
  WireGuardPeers (rest node) = [] -> good_port port -> remark <> [] -> good_host address \/ missing ->
  let x := (netch_wireguard json group remark address port udp node).2 in x = node \/ on_port_unless missing x.
Proof.
  intros Hw Hp Hr Hh. unfold netch_wireguard. cbv zeta. destruct (_ || _ || _ || _); [by left|].
  destruct (own_addresses _) as [self_ip self_ipv6]. right. cbn [snd].
  by apply sync_peers, local_addresses_peers, wireguard_peers.
Qed.

Lemma parseNetchNode_valid json node : WireGuardPeers (rest node) = [] ->
  (parseNetchNode json node).2 = node \/
  on_port_unless (trim (GetMember json "Hostname") true true = "[]"%str) (parseNetchNode json node).2.
Proof.
  intros Hw. unfold parseNetchNode. destruct (negb (IsObject json)); [by left|]. cbv zeta.
  set (address := trim (GetMember json "Hostname") true true). set (type := toLower _).
  destruct (_ || _ || _ || _) eqn:Ec; [by left|]. bools.
  set (remark := remark_or (GetMember json "Remark") address (GetMember json "Port")).
  assert (Hr : remark <> []) by apply remark_or_ne. clearbody remark.
  assert (Hp : good_port (GetMember json "Port")) by by apply valid_good.
  assert (Hh : good_host address \/ address = "[]"%str) by by apply host_unless.
  clearbody address.
  repeat match goal with
  | |- context [netch_xray] => by apply netch_xray_valid
  | |- context [netch_wireguard] => by apply netch_wireguard_valid
  | |- context [if bool_decide (type = ?t) then _ else _] => destruct (bool_decide (type = t))
  | |- context [if bool_decide (type = ?t \/ type = ?u) then _ else _] => destruct (bool_decide (type = t \/ type = u))
  | |- context [if bool_decide (type = ?t) && ?c then _ else _] => destruct (bool_decide (type = t) && c)
  end.
  all: repeat match goal with |- context [if ?c then _ else _] => destruct c end; try by left.
  all: right; split_and!; [first [done|by cbn; case_match]|exact Hp|exact Hr|exact Hh].
Qed.

(** The host that a Netch link names. *)
Definition netch_host (link : str) : option str :=
  decoded ← decodeStrictBase64 (drop 8 link);
  json ← json_parse (c_str decoded);
  Some (trim (GetMember json "Hostname") true true).

Lemma explodeNetch_valid link node : WireGuardPeers (rest node) = [] ->
  explodeNetch link node = node \/ on_port_unless (netch_host link = Some "[]"%str) (explodeNetch link node).
Proof.
  intros Hw. unfold explodeNetch, netch_host. destruct (negb _); [by left|].
  destruct (decodeStrictBase64 _) as [decoded|]; [|by left]. destruct (json_parse _) as [json|] eqn:Ej; [|by left].
  destruct (parseNetchNode_valid json node Hw) as [E|(H1 & H2 & H3 & H4)]; [by left|right].
  split_and!; [done|done|done|]. destruct H4 as [H4|H4]; [by left|right]. cbn [mbind option_bind]. rewrite Ej. cbn [mbind option_bind]. by rewrite H4.
Qed.

(** *** mierus:// *)

Lemma mieru_node_valid upSpeed downSpeed config source_id i b : parsed_ok config -> binding_ok b ->
  on_port (mieru_node upSpeed downSpeed config source_id i b) \/ on_range (mieru_node upSpeed downSpeed config source_id i b).
Proof.
  intros Hc Hb. pose proof (mieru_host config Hc) as Hhost. pose proof (parsed_host config Hc) as Hvalid.
  set (x := mieru_node _ _ _ _ _ _).
  assert (Hh : Hostname x <> []).
  { change (removeBrackets (MieruUri.host config) <> []). rewrite Hhost. intros E. rewrite E in Hvalid. by vm_compute in Hvalid. }
  assert (Hr : Remark x <> []).
  { change (orElse (MieruUri.remark config) (profile config) ++ ":" ++ MieruUri.port b ++ "/" ++ protocol b <> [])%str.
    by intros [_ ?]%app_eq_nil. }
  destruct (binding_text b Hb) as [_ [[Er (n & Hn & Ep)]|[Er Ep]]].
  - left. split_and!; [done| |done|done]. change (port_ok (u16 (to_int (if is_range b then "0" else MieruUri.port b)%str 0))).
    rewrite Er, Ep. by apply number_good.
  - right. split_and!; [done| | |done|done].
    + change (u16 (to_int (if is_range b then "0" else MieruUri.port b)%str 0) = 0%Z). by rewrite Er.
    + change ((if is_range b then MieruUri.port b else []) <> []). by rewrite Er.
Qed.

Lemma explodeMierus_valid upSpeed downSpeed link node next_id :
  let x := (explodeMierus upSpeed downSpeed link node next_id).1 in
  x = node \/ on_port x \/ on_range x /\ startsWith link "mierus://" = true.
Proof.
  unfold explodeMierus, explodeMierusNodes. cbv zeta. destruct (startsWith link "mierus://"); [cbn [negb]|by left].
  destruct (parseMieruSimpleUri link) as [config|] eqn:Ec; [|by left]. apply parse_mieru_ok in Ec.
  destruct (nextMieruSourceId next_id) as [source_id next_id']. pose proof (parsed_bindings _ Ec) as [_ Hb].
  destruct (port_bindings config) as [|b [|b' bs]]; [by left| |by left]. apply Forall_cons in Hb as [Hb _]. right.
  destruct (mieru_node_valid upSpeed downSpeed config source_id 0 b Ec Hb); [by left|by right].
Qed.

(** ** Every link *)

(** The links that name their host [[]], of which nothing is left. *)
Definition hostless (link : str) : Prop :=
  startsWith link "Netch://" = true /\ netch_host link = Some "[]"%str \/
  existsb (startsWith link) ["https://t.me/socks"; "tg://socks"; "https://t.me/http"; "tg://http"]%str = true /\
    getUrlArg link "server" = "[]"%str.

Definition server (link : str) (x : Node) : Prop :=
  on_port_unless (hostless link) x \/ on_range x /\ startsWith link "mierus://" = true.

Lemma unless_server missing link x : (missing -> hostless link) -> on_port_unless missing x -> server link x.
Proof. intros Hm (H1 & H2 & H3 & H4). left. split_and!; try done. destruct H4; [by left|right; by apply Hm]. Qed.

Lemma or_server_server node link x : or_server node x -> x = node \/ server link x.
Proof. intros [?|Hx]; [by left|right]. by apply (unless_server False), on_port_weaken. Qed.

Context (upSpeed downSpeed : Z).

(** C13: a link of any kind but VMess gives no node at all or a server that can
    be written into a configuration, whatever the text is: with a type, a
    host, a name that is not empty, and a port between 1 and 65535 (or, of a
    mierus:// link, a range of ports).  The one exception are Netch links and
    the four Telegram forms, whose host may be the text [[]] and then is
    empty.  The dispatcher never fails on these links, a rejected link leaves
    the new node as it was, and only mierus:// links take a source id. *)
Theorem accepted_links_are_servers link next_id :
  startsWith link "vmess://" = false -> startsWith link "vmess1://" = false ->
  exists x next_id', explode upSpeed downSpeed link (newNode upSpeed downSpeed) next_id = Some (x, next_id') /\
    (x = newNode upSpeed downSpeed \/ server link x) /\
    (startsWith link "mierus://" = false -> next_id' = next_id).
Proof.
  intros Hv Hv1. unfold explode. rewrite Hv, Hv1. cbn [orb].
  assert (Hpure : forall x, x = newNode upSpeed downSpeed \/ server link x ->
    exists y next_id', Some (x, next_id) = Some (y, next_id') /\ (y = newNode upSpeed downSpeed \/ server link y) /\
      (startsWith link "mierus://" = false -> next_id' = next_id)) by (intros x Hx; by exists x, next_id).
  repeat match goal with |- context [if ?c then _ else _] => destruct c eqn:?; [|] end; try apply Hpure; try by left.
  all: try (apply (or_server_server _ link);
    first [apply explodeSSR_valid|apply explodeSS_valid|apply explodeTrojan_valid|apply explodeVless_valid|apply explodeHysteria_valid
      |apply explodeTuic_valid|apply explodeAnyTLS_valid|apply explodeNaive_valid|by apply explodeWireGuard_valid
      |apply explodeHysteria2Realm_valid|apply explodeHysteria2_valid|apply explodeHTTPSub_valid]).
  - destruct (explodeSocks_valid link (newNode upSpeed downSpeed)) as [E|E]; [by left|right]. revert E. apply unless_server.
    intros [Es E]. right. split; [|done]. match goal with H : _ || _ || _ = true |- _ => rewrite Es in H; cbn [existsb orb] in * end.
    destruct (startsWith link "https://t.me/socks"); [done|]. by destruct (startsWith link "tg://socks").
  - destruct (explodeHTTP_valid link (newNode upSpeed downSpeed)) as [E|E]; [by left|right]. revert E. apply unless_server.
    intros E. right. split; [|done]. cbn [existsb]. destruct (startsWith link "https://t.me/http"); [by rewrite !orb_true_r|].
    match goal with H : _ || _ = true |- _ => cbn [orb] in H; rewrite H end. by rewrite !orb_true_r.
  - destruct (explodeNetch_valid link (newNode upSpeed downSpeed) eq_refl) as [E|E]; [by left|right]. revert E. apply unless_server.
    intros E. by left.
  - destruct (explodeMierus_valid upSpeed downSpeed link (newNode upSpeed downSpeed) next_id) as [E|E];
      (destruct (explodeMierus upSpeed downSpeed link _ next_id) as [x next_id'] eqn:Em; exists x, next_id'; split_and!; [done| |]).
    1: by left.
    2: right; destruct E as [E|E]; [left; by apply on_port_weaken|by right].
    all: intros Hm; unfold explodeMierus in Em; rewrite Hm in Em; by injection Em.
Qed.

End Valid.

#[local] Instance no_json : JsonReader := fun _ => None.

(** A host of which nothing is left. *)
Example hostless_http :
  let x := explodeHTTP "tg://http?server=[]&port=80" (newNode 0 0) in Type_ x = HTTP /\ Port x = 80%Z /\ Hostname x = [].
Proof. by vm_compute. Qed.

Lemma accepted_links_are_servers_witness :
  let link := "trojan://pw@[2001:db8::1]:443?sni=a.example#"%str in
  exists x next_id', explode 0 0 link (newNode 0 0) 1 = Some (x, next_id') /\ (x = newNode 0 0 \/ server link x) /\
    (startsWith link "mierus://" = false -> next_id' = 1%Z).
Proof.
  cbv zeta. apply accepted_links_are_servers; reflexivity.
Defined.
